(* ===== verification/_CoqProject ===== *)
-Q . S2P
Prelude.v
Text.v
Ordered.v
Clock.v
Net.v
Event.v
Config.v
Settings.v
Privileges.v
Identity.v
RangeBuffer.v
Policy.v
Stream.v
Flow.v
Decode.v
Defrag.v
Normalize.v
Http.v
RuleModel.v
Vars.v
Eval.v
Parser.v
ParserWf.v
RuleText.v
Keywords.v
Loader.v
Compile.v
Host.v
AuthLog.v
Fim.v
Process.v
Sources.v
FimWorker.v
HostSensor.v
Usn.v
Evtx.v
Replay.v
Capture.v
Engine.v
Prevent.v
Kernel.v
VerdictQueue.v
Correlation.v
EventLog.v
Sinks.v
Ndjson.v
Pipeline.v
PipelineFacts.v
Sensor.v
Detection.v
HostDetection.v
Run.v
RunFacts.v
Startup.v
Scenario.v
Attack.v
