(* ===== verification/Prelude.v ===== *)
(** CyberSentinel-IPS, verified: a model of the sensor and proofs about it.

    * The program

    CyberSentinel-IPS is a network and host intrusion detection and prevention sensor in Rust. Packets
    come from a live capture or a savefile ([crates/capture]), are decoded ([crates/decode]),
    defragmented and reassembled into streams per flow ([crates/reassembly]), parsed as HTTP
    ([crates/applayer]) and inspected by rules ([crates/rules], [crates/engine]). Host monitors watch
    files, authentication logs and processes ([crates/hids]); a correlator joins host and network
    observations ([crates/correlation]). A rule that asks for it blocks: the decision goes into a store
    that a verdict thread consults for every packet the kernel queues ([crates/prevent]). All events
    go through one bounded queue to the sinks ([crates/common], [crates/storage]). [crates/cli] reads
    the configuration and wires the parts together.

    * Which file models which part

    - [Prelude], [Text], [Ordered]: shared notions. Machine integers, lists and maps, bytes; the string
      operations of the standard library; orders and ordered maps.
    - [Net] ([common/src/net.rs]), [Event] ([common/src/event.rs]), [Clock] ([common/src/time.rs]),
      [Identity] ([common/src/sensor.rs]), [Config] and [Settings] ([common/src/config.rs], [error.rs]),
      [EventLog] ([common/src/eventlog.rs]), [Sinks] ([storage/src/sinks.rs]), and [Ndjson], the lines
      a consumer reads ([Event::to_ndjson]).
    - [Replay]: savefiles ([capture/src/replay.rs]); [Capture]: the trait of packet sources and live
      capture ([capture/src/lib.rs], [live.rs]); [Privileges]: [capture/src/privileges.rs].
    - [Decode]: [decode/src/{lib,layers,anomaly}.rs].
    - [RangeBuffer], [Policy], [Stream], [Flow], [Defrag], [Normalize]: the files of the same names in
      [reassembly/src].
    - [Http]: [applayer/src/http.rs].
    - [RuleModel] ([rules/src/{model,options}.rs]), [Parser] ([rules/src/parser.rs]) with the facts of
      [ParserWf], [RuleText] and [Keywords], and [Loader] ([rules/src/loader.rs]).
    - [Vars], [Eval], [Compile], [Engine], [Host]: the files of the same names in [engine/src].
    - [Prevent]: [prevent/src/{store,queue,depth}.rs]; [Kernel]: [prevent/src/{nft,depth}.rs];
      [VerdictQueue]: the kernel's queue of [prevent/src/queue.rs] and the thread that serves it.
    - [Correlation]: [correlation/src/lib.rs].
    - [AuthLog] ([hids/src/logs.rs]), [Fim] ([hids/src/fim.rs]), [Process] ([hids/src/process.rs]),
      [Sources] ([hids/src/sources.rs]), [Usn] ([hids/src/usn.rs]), [Evtx] ([hids/src/evtx.rs]); the
      worker of the file monitor is [FimWorker] and the sensor that owns them all [HostSensor] (both
      [hids/src/sensor.rs]).
    - [Pipeline]: [cli/src/pipeline.rs], with its facts in [PipelineFacts]. Of [cli/src/run.rs], what is
      built from a configuration is in [Sensor], the loops with the stats events in [Run] with the facts
      of [RunFacts], and the program from its arguments to its exit in [Startup], with [validate.rs].
      [Detection] composes the components from the rule file to the event log for the network and
      [HostDetection] for the host; [Scenario] and [Attack] are concrete runs of the whole sensor and of
      the program.

    A Rust struct is a [Record] with the same fields, an enum an [Inductive] with the same constructors,
    a function a [Definition] or [Fixpoint] of the same name. A method that changes its receiver takes
    and returns it.

    * Conventions

    - An integer is a [Z]; where the source wraps or saturates the operation is written out, and the
      theorems say where a value stays inside its width. Counters that only go up are unbounded,
      except where a theorem is about their width ([EventLog]).
    - A result of type [option] is [None] where the source would panic, unless the source itself
      returns an [Option]; a [Result] is a sum with the error on the left.
    - Instants and durations are nanoseconds, and the clock is an argument: where the source reads it
      for each event, a function from the number of events so far. An [Instant] plus a [Duration] is
      [instant_add], which is [None], a panic, past the latest instant. A panic with the lock of the
      block store held poisons it, which is a step of its own ([Sensor.Poison]).
    - [p_emitted] is what the pipeline hands to the event log, whose queue may refuse it ([EventLog]);
      [p_commands] is what it tells [nft].
    - The start of the program ([Startup]) is a monad over the process: its capabilities and the trace
      of the effects it has had, each with the capabilities held then.
    - A path is its bytes; the text of a path replaces what is not UTF-8 ([Text.utf8_lossy]).
    - The order in which a hash map is iterated is unspecified: it is the class [HashOrder], and
      nothing is assumed of it but that it lists every entry once.
    - Loops are recursion on their data where they have such a shape. The others have fuel or a
      measure: variable resolution in [Vars] runs with fuel that [resolve_total] proves enough, the
      request loop of [Http] with the length of its buffer, the layers of [Decode] with the source's
      own budgets, the walk of [Fim] by recursion on the depth left, which [walk_loop_is_walk] proves
      equal to the loop over the stack, the records of [Usn] with the length of the buffer and the
      fields of [Evtx] with the length of the text, as each step uses up some of it.
    - A file, a socket or a queue of the kernel is the sequence of its answers, short reads, partial
      writes and errors included; a loop over such answers ([Run], [VerdictQueue]) has a list of turns,
      and one that has used them up is still running. That it ends is proved where it does
      ([RunFacts.replay_ends], [EventLog.shutdown_drains]).
    - Threads are interleaved one atomic step at a time ([EventLog], [Sensor], [HostSensor], [Run]).

    * Code that is not in the repository

    Third-party crates are classes or arguments, with what the program relies on as their laws, each
    with a concrete instance: [RegexLib] and [AhoCorasickLib] in [Eval] and [Compile], [Etherparse] in
    [Decode], [SerdeJson] in [AuthLog], [EventJson] in
    [Ndjson], [Sqlite] with [SqliteLaws] in [Fim], [Pcap] with [PcapTyped] in
    [Capture], [Caps] in [Privileges], [Uuid] in [Identity], [Calendar] in [Clock], [Netfilter] in
    [Kernel]; [serde_yaml] is an argument of [Settings.load], SHA-256 an argument of [Fim.inspect]. The
    traits of the program are classes too: [EventSink], [PacketSource], [VerdictSource].

    * What is proved

    - Network path. Any bytes decode without a panic into ranges inside the frame. Streams deliver
      what the sender sent, under any reordering, retransmission and overlap policy; the buffer
      refines a map from offsets to bytes; fragments in any order give back their datagram. Tables and
      buffers stay inside their limits. How a stream is cut changes nothing in the HTTP requests, as
      long as no oversized head is abandoned.
    - Rules. Every accepted rule is well formed; rendered rules and headers are read back; loading
      accounts for every line. Compilation loses no rule, and the pre-filter and the engine miss no
      match that evaluating every rule would find. What a rule of the rule files looks for is reported
      when a datagram, a fragmented datagram or a stream carries it, whatever the sensor did before,
      and nothing else is reported of a datagram; so is what a host rule looks for in the events of the
      host. Content matching, byte tests, thresholds and variables mean what the documentation says.
    - Prevention. The verdict path drops no packet without a recorded block, outside the armed mode, or
      for an allow-listed address; an alert that says blocked is enforced, and a rule that blocks ends
      the conversation it matched. The only sources the kernel is told to drop are outside the
      allow-list; what they send is then dropped whatever its destination
      ([Kernel.kernel_ignores_the_allow_list]).
    - Host. Log records become clean, bounded events, and plain lines appended to a log are read once
      and in order; the file walk is exact; a rescan reports exactly the differences it compares (the
      hash, or the size where a hash is missing, the mode, the owner and the group), is quiet on
      untouched files and never takes what it did not look at for deleted.
      A process table is read exactly, whatever names processes give themselves; an overflow or the
      loss of the file watcher forces a comparison that reports every such difference; what the worker finds is delivered in order,
      and the counters and the states of the sources are those of what happened. Journal responses and
      logon events are read back.
    - Kernel. Without a listener the generated ruleset realises the fail mode, and a full queue drops
      in both; a block command names exactly the address, the queue counters are read back; every packet of the kernel's queue gets one verdict, the decided
      one; once the capture is open only the capabilities that are still needed stay.
    - Output. Timestamps sort as text; events that were accepted reach the event file, each once and in
      order; the identity of a sensor is stable.
    - The whole. For every configuration that the validation accepts and that keeps three conditions
      it leaves out ([Sensor.operable]: an observation per host for the correlation, and blocks and
      process intervals below 2^62 seconds), every set of rule files, readings of the monotonic clock
      below 2^62 seconds, and every interleaving of packets, host events, verdicts and shutdown, nothing
      panics and every component keeps its invariant. That the conditions are needed is proved too
      ([Correlation.zero_per_host_panics], [Prevent.long_block_panics]). The event log loses no accepted event before shutdown, shutdown
      drains it, and the event file is one JSON document per line. The packet loop feeds every frame of
      its source once and in order, services the host sensors in time, and ends with a replayed file;
      the program has the effects of its start in one order, the files and threads with only the
      capabilities that are left, and drains the event log on every way out; a strict run and the
      validation of rules agree.

    Theorems that are claims of the development carry a number in their comment. Some prove defects: the
    places where the code does not do what its documentation says, for instance
    [AuthLog.login_name_forges_source], [Fim.failed_read_hides_change],
    [Scenario.final_delivery_is_not_inspected], [Sensor.flow_verdicts_never_lapse],
    [Privileges.host_only_keeps_capabilities], [RunFacts.capture_error_stops_enforcing].

    * What is not modelled

    The JSON of an event is [serde]'s, of which [Ndjson] relies only on its being one line. The sink for
    the standard output is left out: the line buffer of the standard library stands between its buffer
    and the descriptor. Argument parsing, the log lines, what [validate-rules] prints and the dump of
    reassembled streams for debugging carry no state. Threads and signals are modelled by the steps
    that others may take between two steps of a loop, not by their creation.
    [Debug] implementations and accessors that return a field are left out, as is the [alerting] crate,
    which only declares a trait that nothing implements. The [notify], [nfq], [caps], [pcap] and [uuid]
    crates are what they answer. *)

From stdpp Require Export base list gmap sorting strings.
From Stdlib Require Export ZArith Lia.

#[global] Open Scope Z_scope.

(** ** Machine integers

    A [u8] ... [u64] (and [usize], which is 64 bits on every supported target) is a [Z] in its
    range; the operations that the source writes as wrapping or saturating are spelled out. *)

Definition U16_MAX : Z := 65535.
Definition U32_MAX : Z := 4294967295.
Definition U64_MAX : Z := 18446744073709551615.
Definition U128_MAX : Z := 340282366920938463463374607431768211455.

Definition in_u8 (x : Z) : Prop := 0 <= x <= 255.
Definition in_u16 (x : Z) : Prop := 0 <= x <= U16_MAX.
Definition in_u32 (x : Z) : Prop := 0 <= x <= U32_MAX.
Definition in_u64 (x : Z) : Prop := 0 <= x <= U64_MAX.

(** [u64::saturating_add] on arguments that are already in range. *)
Definition sat_add (a b : Z) : Z := Z.min U64_MAX (a + b).

(** [saturating_sub] of any unsigned width. *)
Definition sat_sub (a b : Z) : Z := Z.max 0 (a - b).

(** [u32::wrapping_add] and [u32::wrapping_sub]. *)
Definition wrapping_add32 (a b : Z) : Z := (a + b) mod 2 ^ 32.
Definition wrapping_sub32 (a b : Z) : Z := (a - b) mod 2 ^ 32.

(** [as i32] from a [u32], [as i64] from a [u64], [as u64] from an [i64], [as u32] from a [u64]:
    reinterpretation of the bits. *)
Definition as_i32 (x : Z) : Z := if x <? 2 ^ 31 then x else x - 2 ^ 32.
Definition as_i64 (x : Z) : Z := if x <? 2 ^ 63 then x else x - 2 ^ 64.
Definition as_u64 (x : Z) : Z := x mod 2 ^ 64.
Definition as_u32 (x : Z) : Z := x mod 2 ^ 32.

(** [Option::unwrap_or]. *)
Definition unwrap_or {A} (d : A) (o : option A) : A := match o with Some x => x | None => d end.

(** ** Results

    [Result<A, E>] is [E + A]; [?] is the bind of the error monad. *)

#[global] Instance result_ret (E : Type) : MRet (sum E) := fun A x => inr x.
#[global] Instance result_bind (E : Type) : MBind (sum E) :=
  fun A B f m => match m with inl e => inl e | inr a => f a end.

(** [Option::ok_or]. *)
Definition ok_or {E A : Type} (e : E) (o : option A) : E + A :=
  match o with Some a => inr a | None => inl e end.

(** [Result::map_err]. *)
Definition map_err {E F A : Type} (f : E -> F) (r : E + A) : F + A :=
  match r with inl e => inl (f e) | inr a => inr a end.

(** [if bad { return Err(e) }]. *)
Definition refuse {E : Type} (bad : bool) (e : E) : E + unit := if bad then inl e else inr tt.

(** [try_fold] of a fallible step. *)
Fixpoint try_fold {E S A : Type} (f : S -> A -> E + S) (s : S) (l : list A) : E + S :=
  match l with
  | [] => inr s
  | a :: l' => s' ← f s a; try_fold f s' l'
  end.

(** ** Slices

    [len l] is the length of a slice as an integer. An indexing expression that panics when it is
    out of range is an [option], whose [None] is the panic. *)

Abbreviation len l := (Z.of_nat (length l)).

(** [&l[a..b]]. *)
Definition slice {A} (l : list A) (a b : Z) : option (list A) :=
  if (0 <=? a) && (a <=? b) && (b <=? len l)
  then Some (take (Z.to_nat (b - a)) (drop (Z.to_nat a) l)) else None.

(** [l[a..b].copy_from_slice(src)]: panics when the range is outside [l] or when the lengths
    differ. *)
Definition copy_from_slice {A} (l : list A) (a b : Z) (src : list A) : option (list A) :=
  if (0 <=? a) && (a <=? b) && (b <=? len l) && (len src =? b - a)
  then Some (list_inserts (Z.to_nat a) src l) else None.

(** [Vec::resize(n, x)] for [n] at least the current length. *)
Definition resize {A} (l : list A) (n : Z) (x : A) : list A :=
  l ++ replicate (Z.to_nat (n - len l)) x.

(** A subtraction of unsigned integers that must not underflow. *)
Definition checked_sub (a b : Z) : option Z := if b <=? a then Some (a - b) else None.

(** ** Hash maps

    [std::collections::HashMap] is a [gmap]; the order in which it is iterated is unspecified and
    is a parameter of every operation that iterates one: any permutation of the entries. *)
Class HashOrder (K : Type) `{Countable K} := {
  hash_iter : forall {V : Type}, gmap K V -> list (K * V);
  hash_iter_perm : forall {V : Type} (m : gmap K V), hash_iter m ≡ₚ map_to_list m
}.

(** The order of the trie: one possible iteration order, used to run the model. *)
#[global] Instance trie_order (K : Type) `{Countable K} : HashOrder K | 100 :=
  {| hash_iter := fun V m => map_to_list m; hash_iter_perm := fun V m => reflexivity _ |}.

(** ** Sorting: [slice::sort_by_key], a stable sort on an integer key. *)

Fixpoint insert_by_key {A} (key : A -> Z) (x : A) (l : list A) : list A :=
  match l with
  | [] => [x]
  | y :: l' => if key x <=? key y then x :: y :: l' else y :: insert_by_key key x l'
  end.

Definition sort_by_key {A} (key : A -> Z) (l : list A) : list A :=
  foldr (insert_by_key key) [] l.

(** [Vec::dedup]: of a run of equal elements, the first is kept. *)
Fixpoint dedup {A} `{EqDecision A} (l : list A) : list A :=
  match l with
  | x :: l' =>
      match l' with
      | y :: _ => if decide (x = y) then dedup l' else x :: dedup l'
      | [] => [x]
      end
  | [] => []
  end.

(** The keys of the [batch] entries with the smallest age stamps: the pattern of both evictions,
    [collect], [sort_unstable_by_key], [take(batch)]. Since the order of [hash_iter] is arbitrary, so
    is the order in which entries of the same age are taken. *)
Definition oldest_keys `{Countable K, !HashOrder K} {V} (age : V -> Z) (batch : Z) (m : gmap K V) :
    list K :=
  let by_age := sort_by_key fst ((fun kv => (age kv.2, kv.1)) <$> hash_iter m) in
  (take (Z.to_nat batch) by_age).*2.

(** ** Sums *)

Definition zsum (l : list Z) : Z := foldr Z.add 0 l.

Definition map_zsum `{Countable K} {V} (f : V -> Z) (m : gmap K V) : Z :=
  zsum ((fun kv => f kv.2) <$> map_to_list m).

(** [count P a b] is the number of integers of [[a, b)] that satisfy [P]. *)
Definition count (P : Z -> bool) (a b : Z) : Z :=
  len (filter (fun i => P i = true) (seqZ a (b - a))).

(** ** Durations and times: nanoseconds since the epoch. *)

Definition secs (n : Z) : Z := n * 1000000000.

(** The latest [Instant]: its seconds are an [i64]. *)
Definition INSTANT_MAX : Z := secs (2 ^ 63) - 1.

(** [Instant + Duration]: [None] is the panic past the latest instant. *)
Definition instant_add (at_ d : Z) : option Z := if at_ + d <=? INSTANT_MAX then Some (at_ + d) else None.

(** [now.duration_since(earlier)] on [SystemTime]: an error when [earlier] is later. *)
Definition duration_since (now earlier : Z) : option Z :=
  if earlier <=? now then Some (now - earlier) else None.

(** ** Tactics *)

Create HintDb sensor.

(** Turn boolean comparisons of the context and of the goal into propositions. *)
Ltac bsimpl :=
  repeat match goal with
  | H : _ && _ = true |- _ => apply andb_true_iff in H as [? ?]
  | H : _ || _ = false |- _ => apply orb_false_iff in H as [? ?]
  | H : (_ <=? _) = true |- _ => apply Z.leb_le in H
  | H : (_ <=? _) = false |- _ => apply Z.leb_gt in H
  | H : (_ <? _) = true |- _ => apply Z.ltb_lt in H
  | H : (_ <? _) = false |- _ => apply Z.ltb_ge in H
  | H : (_ =? _) = true |- _ => apply Z.eqb_eq in H
  | H : (_ =? _) = false |- _ => apply Z.eqb_neq in H
  | H : negb _ = true |- _ => apply negb_true_iff in H
  | H : negb _ = false |- _ => apply negb_false_iff in H
  end.

(** Case analysis on the first comparison the goal branches on. *)
Ltac zcase :=
  match goal with
  | |- context [?a <=? ?b] => destruct (Z.leb_spec a b)
  | |- context [?a <? ?b] => destruct (Z.ltb_spec a b)
  | |- context [?a =? ?b] => destruct (Z.eqb_spec a b)
  end.

(** Decide a comparison that [lia] can settle. *)
Ltac zdec :=
  repeat match goal with
  | |- context [?a <=? ?b] =>
      first [ rewrite (proj2 (Z.leb_le a b)) by lia | rewrite (proj2 (Z.leb_gt a b)) by lia ]
  | |- context [?a <? ?b] =>
      first [ rewrite (proj2 (Z.ltb_lt a b)) by lia | rewrite (proj2 (Z.ltb_ge a b)) by lia ]
  | |- context [?a =? ?b] =>
      first [ rewrite (proj2 (Z.eqb_eq a b)) by lia | rewrite (proj2 (Z.eqb_neq a b)) by lia ]
  end.

(** ** Results: lemmas *)

Lemma bind_ok {E A B : Type} (m : E + A) (f : A -> E + B) b :
  m ≫= f = inr b <-> exists a, m = inr a /\ f a = inr b.
Proof. destruct m as [e|a]; simpl; naive_solver. Qed.

Lemma map_err_ok {E F A : Type} (f : E -> F) (r : E + A) a : map_err f r = inr a <-> r = inr a.
Proof. destruct r; naive_solver. Qed.

Lemma ok_or_ok {E A : Type} (e : E) (o : option A) a : ok_or e o = inr a <-> o = Some a.
Proof. destruct o; naive_solver. Qed.

Lemma refuse_ok {E : Type} bad (e : E) u : refuse bad e = inr u <-> bad = false.
Proof. destruct bad, u; naive_solver. Qed.

Lemma try_fold_inv {E S A : Type} (P : S -> Prop) (f : S -> A -> E + S) s l s' :
  (forall s a s', P s -> f s a = inr s' -> P s') -> P s -> try_fold f s l = inr s' -> P s'.
Proof.
  intros Hf. revert s. induction l as [|a l IH]; intros s Hs H; simpl in H; [by simplify_eq|].
  apply bind_ok in H as (s1 & E1 & H). eauto.
Qed.

(** Open the successful runs of the context. *)
Ltac results :=
  repeat match goal with
  | H : _ ≫= _ = inr _ |- _ => apply bind_ok in H as (? & ? & ?)
  | H : map_err _ _ = inr _ |- _ => apply map_err_ok in H
  | H : ok_or _ _ = inr _ |- _ => apply ok_or_ok in H
  | H : refuse _ _ = inr _ |- _ => apply refuse_ok in H
  end.

(** ** Bytes *)

(** A byte put below a number that was shifted up for it. *)
Lemma lor_byte v b : in_u8 b -> Z.lor (v * 256) b = v * 256 + b.
Proof.
  unfold in_u8. intros Hb. assert (Z.land (v * 256) b = 0) as Hz.
  { apply Z.bits_inj'. intros i Hi. rewrite Z.land_spec, Z.bits_0. destruct (Z.ltb_spec i 8).
    - change 256 with (2 ^ 8). by rewrite Z.mul_pow2_bits_low.
    - destruct (Z.eq_dec b 0) as [->|]; [by rewrite Z.bits_0, andb_false_r|].
      rewrite (Z.bits_above_log2 b); [by rewrite andb_false_r|lia|].
      apply Z.log2_lt_pow2; [lia|]. assert (2 ^ 8 <= 2 ^ i) by (apply Z.pow_le_mono_r; lia). lia. }
  rewrite <- Z.lxor_lor by done. by rewrite <- Z.add_nocarry_lxor.
Qed.

(** ** Slices: lemmas *)

Lemma slice_Some {A} (l : list A) a b :
  0 <= a <= b -> b <= len l ->
  slice l a b = Some (take (Z.to_nat (b - a)) (drop (Z.to_nat a) l)).
Proof. intros. unfold slice. by zdec. Qed.

Lemma slice_length {A} (l : list A) a b s : slice l a b = Some s -> len s = b - a.
Proof.
  unfold slice. intros H. case_match eqn:E; [|done]. simplify_eq. bsimpl.
  rewrite length_take, length_drop. lia.
Qed.

Lemma slice_lookup {A} (l : list A) a b s i :
  slice l a b = Some s -> 0 <= i < b - a -> s !! Z.to_nat i = l !! Z.to_nat (a + i).
Proof.
  unfold slice. intros H Hi. case_match eqn:E; [|done]. simplify_eq. bsimpl.
  rewrite lookup_take_lt by lia. rewrite lookup_drop. f_equal. lia.
Qed.

Lemma copy_from_slice_Some {A} (l src : list A) a b :
  0 <= a <= b -> b <= len l -> len src = b - a ->
  copy_from_slice l a b src = Some (list_inserts (Z.to_nat a) src l).
Proof. intros. unfold copy_from_slice. by zdec. Qed.

Lemma list_inserts_lookup {A} (l src : list A) a i :
  0 <= a -> a + len src <= len l -> 0 <= i ->
  list_inserts (Z.to_nat a) src l !! Z.to_nat i =
    if (a <=? i) && (i <? a + len src) then src !! Z.to_nat (i - a) else l !! Z.to_nat i.
Proof.
  intros Ha Hb Hi. destruct (Z.leb_spec a i), (Z.ltb_spec i (a + len src)); simpl.
  - rewrite list_lookup_inserts by lia. f_equal. lia.
  - by rewrite list_lookup_inserts_ge by lia.
  - by rewrite list_lookup_inserts_lt by lia.
  - lia.
Qed.

Lemma resize_length {A} (l : list A) n x : len l <= n -> len (resize l n x) = n.
Proof. intros. unfold resize. rewrite length_app, length_replicate. lia. Qed.

Lemma resize_lookup {A} (l : list A) n x i :
  0 <= i < len l -> resize l n x !! Z.to_nat i = l !! Z.to_nat i.
Proof. intros. unfold resize. apply lookup_app_l. lia. Qed.

(** ** Sorting: lemmas *)

Section sorting_by_key.
Context {A : Type} (key : A -> Z).

Lemma insert_by_key_perm x l : insert_by_key key x l ≡ₚ x :: l.
Proof.
  induction l as [|y l IH]; simpl; [done|]. case_match; [done|].
  rewrite IH. apply Permutation_swap.
Qed.

Lemma sort_by_key_perm l : sort_by_key key l ≡ₚ l.
Proof. induction l; simpl; [done|]. rewrite insert_by_key_perm. by constructor. Qed.

Lemma insert_by_key_sorted x l :
  StronglySorted (fun a b => key a <= key b) l ->
  StronglySorted (fun a b => key a <= key b) (insert_by_key key x l).
Proof.
  induction 1 as [|y l Hs IH Hf]; simpl; [repeat constructor|].
  case_match eqn:E; bsimpl.
  - constructor; [by constructor|]. constructor; [done|].
    eapply Forall_impl; [exact Hf|]. simpl. lia.
  - constructor; [done|]. rewrite insert_by_key_perm. constructor; [lia|done].
Qed.

Lemma sort_by_key_sorted l :
  StronglySorted (fun a b => key a <= key b) (sort_by_key key l).
Proof. induction l; simpl; [constructor|]. by apply insert_by_key_sorted. Qed.

Lemma sort_by_key_length l : length (sort_by_key key l) = length l.
Proof. by rewrite sort_by_key_perm. Qed.

End sorting_by_key.

(** ** Sums: lemmas *)

#[global] Instance zsum_perm : Proper (Permutation ==> eq) zsum.
Proof. intros l k H. induction H; simpl; lia. Qed.

Lemma zsum_nonneg l : Forall (fun x => 0 <= x) l -> 0 <= zsum l.
Proof. induction 1 as [|x l Hx _ IH]; simpl; [lia|]. lia. Qed.

Lemma zsum_app l k : zsum (l ++ k) = zsum l + zsum k.
Proof. induction l; simpl; lia. Qed.

Section map_sums.
Context `{Countable K} {V : Type} (f : V -> Z).
Implicit Types m : gmap K V.

Lemma map_zsum_empty : map_zsum f (∅ : gmap K V) = 0.
Proof. unfold map_zsum. by rewrite map_to_list_empty. Qed.

Lemma map_zsum_insert m k v :
  m !! k = None -> map_zsum f (<[k:=v]> m) = f v + map_zsum f m.
Proof. intros. unfold map_zsum. by rewrite map_to_list_insert. Qed.

Lemma map_zsum_delete m k v :
  m !! k = Some v -> map_zsum f m = f v + map_zsum f (delete k m).
Proof.
  intros Hk. rewrite <- (insert_delete_id m k v Hk) at 1.
  apply map_zsum_insert, lookup_delete_eq.
Qed.

Lemma map_zsum_update m k v w :
  m !! k = Some v -> map_zsum f (<[k:=w]> m) = map_zsum f m - f v + f w.
Proof.
  intros Hk. rewrite (map_zsum_delete m k v Hk), <- insert_delete_eq.
  rewrite map_zsum_insert by apply lookup_delete_eq. lia.
Qed.

Lemma map_zsum_nonneg m : map_Forall (fun _ v => 0 <= f v) m -> 0 <= map_zsum f m.
Proof.
  induction m as [|k v m Hk IH] using map_ind; intros Hf.
  - rewrite map_zsum_empty. lia.
  - rewrite map_zsum_insert by done. apply map_Forall_insert in Hf as [? ?]; [|done].
    specialize (IH ltac:(done)). lia.
Qed.

Lemma map_zsum_le_size m b :
  map_Forall (fun _ v => f v <= b) m -> map_zsum f m <= b * Z.of_nat (size m).
Proof.
  induction m as [|k v m Hk IH] using map_ind; intros Hf.
  - rewrite map_zsum_empty, map_size_empty. lia.
  - rewrite map_zsum_insert, map_size_insert_None by done.
    apply map_Forall_insert in Hf as [? ?]; [|done]. specialize (IH ltac:(done)). lia.
Qed.

End map_sums.

Lemma map_size_delete_Z `{Countable K} {V} (m : gmap K V) k v :
  m !! k = Some v -> Z.of_nat (size (delete k m)) = Z.of_nat (size m) - 1.
Proof.
  intros Hk. rewrite map_size_delete, Hk. 
  assert (size m <> 0%nat); [|lia].
  intros Hz. apply map_size_empty_iff in Hz. subst. done.
Qed.

Lemma map_Forall_sub `{Countable K} {V} (P : K -> V -> Prop) (m m' : gmap K V) :
  m' ⊆ m -> map_Forall P m -> map_Forall P m'.
Proof. intros Hs Hm k v Hk. by eapply Hm, lookup_weaken. Qed.

Lemma elem_of_hash_iter `{Countable K, !HashOrder K} {V} (m : gmap K V) k v :
  (k, v) ∈ hash_iter m <-> m !! k = Some v.
Proof. by rewrite hash_iter_perm, elem_of_map_to_list. Qed.

Lemma map_size_filter_notin `{Countable K} {V} (m : gmap K V) (ks : list K) :
  NoDup ks -> Forall (fun k => is_Some (m !! k)) ks ->
  Z.of_nat (size (filter (fun kv => kv.1 ∉ ks) m)) = Z.of_nat (size m) - len ks.
Proof.
  intros Hnd. revert m. induction Hnd as [|k ks Hk Hnd IH]; intros m Hin.
  { rewrite map_filter_id; [simpl; lia|]. intros i x _. apply not_elem_of_nil. }
  apply Forall_cons in Hin as [[v Hv] Hin].
  assert (E : filter (fun kv => kv.1 ∉ k :: ks) m = filter (fun kv => kv.1 ∉ ks) (delete k m)).
  { apply map_eq. intros i. apply option_eq. intros x.
    rewrite !map_lookup_filter_Some, lookup_delete_Some. simpl. set_solver. }
  rewrite E, IH, (map_size_delete_Z m k v Hv).
  - simpl. lia.
  - apply Forall_forall. intros i Hi. rewrite Forall_forall in Hin.
    rewrite lookup_delete_ne by congruence. by apply Hin.
Qed.

Section oldest.
Context `{Countable K, !HashOrder K} {V : Type} (age : V -> Z) (n : Z) (m : gmap K V).

Lemma oldest_keys_spec :
  exists rest, oldest_keys age n m ++ rest ≡ₚ (map_to_list m).*1 /\
    length (oldest_keys age n m) = Nat.min (Z.to_nat n) (size m) /\
    (forall k k' v v', k ∈ oldest_keys age n m -> k' ∈ rest -> m !! k = Some v ->
      m !! k' = Some v' -> age v <= age v').
Proof.
  unfold oldest_keys. set (src := (fun kv => (age kv.2, kv.1)) <$> hash_iter m).
  assert (Hsrc : forall x, x ∈ src -> forall v, m !! x.2 = Some v -> x.1 = age v).
  { intros x Hx f Hf. apply list_elem_of_fmap in Hx as ([k g] & -> & Hx).
    apply elem_of_hash_iter in Hx. simpl in *. by simplify_eq. }
  pose proof (sort_by_key_perm fst src) as Hperm.
  pose proof (sort_by_key_sorted fst src) as Hsort.
  set (l := sort_by_key fst src) in *. set (c := Z.to_nat n).
  exists (drop c l).*2. split_and!.
  - rewrite <- fmap_app, take_drop, Hperm. unfold src. rewrite <- list_fmap_compose.
    by rewrite hash_iter_perm.
  - rewrite length_fmap, length_take, Hperm. unfold src.
    by rewrite length_fmap, hash_iter_perm, length_map_to_list.
  - intros k k' f f' Hk Hk' Hf Hf'.
    apply list_elem_of_fmap in Hk as (x & -> & Hx). apply list_elem_of_fmap in Hk' as (y & -> & Hy).
    assert (Hl : forall z, z ∈ take c l \/ z ∈ drop c l -> z ∈ src)
      by (intros z Hz; by rewrite <- Hperm, <- (take_drop c l), elem_of_app).
    rewrite <- (Hsrc x), <- (Hsrc y) by auto. rewrite <- (take_drop c l) in Hsort.
    exact (StronglySorted_app_1_elem_of _ _ _ x y Hsort Hx Hy).
Qed.

(** The keys taken are distinct keys of the map. *)
Lemma oldest_keys_in :
  NoDup (oldest_keys age n m) /\ Forall (fun k => is_Some (m !! k)) (oldest_keys age n m).
Proof.
  destruct oldest_keys_spec as (rest & Hp & _).
  assert (Hnd : NoDup (oldest_keys age n m ++ rest)) by (rewrite Hp; apply NoDup_fst_map_to_list).
  apply NoDup_app in Hnd as (Hnd & _ & _). split; [done|]. apply Forall_forall. intros k Hk.
  assert (Hin : k ∈ (map_to_list m).*1) by (rewrite <- Hp; set_solver).
  apply list_elem_of_fmap in Hin as ([? f] & -> & Hin). apply elem_of_map_to_list in Hin. by eexists.
Qed.

Lemma oldest_keys_size :
  0 <= n ->
  Z.of_nat (size (filter (fun kv => kv.1 ∉ oldest_keys age n m) m)) =
    Z.of_nat (size m) - Z.min n (Z.of_nat (size m)).
Proof.
  intros Hn. destruct oldest_keys_in as [Hnd Hin]. destruct oldest_keys_spec as (rest & _ & Hl & _).
  rewrite map_size_filter_notin, Hl by done. lia.
Qed.

(** What is taken is no younger than what is left. *)
Lemma oldest_keys_order k k' v v' :
  m !! k = Some v -> filter (fun kv => kv.1 ∉ oldest_keys age n m) m !! k = None ->
  filter (fun kv => kv.1 ∉ oldest_keys age n m) m !! k' = Some v' -> age v <= age v'.
Proof.
  intros Hk Hk' Hf'. destruct oldest_keys_spec as (rest & Hp & _ & Hold).
  apply map_lookup_filter_Some in Hf' as [Hf' Hn']. simpl in Hn'. apply (Hold k k'); try done.
  - apply map_lookup_filter_None in Hk' as [Hk'|Hk']; [congruence|].
    specialize (Hk' v Hk). simpl in Hk'.
    by destruct (decide (k ∈ oldest_keys age n m)) as [?|?]; [|exfalso; apply Hk'].
  - assert (Hx : k' ∈ oldest_keys age n m ++ rest).
    { rewrite Hp. apply list_elem_of_fmap. exists (k', v'). split; [done|].
      by apply elem_of_map_to_list. }
    set_solver.
Qed.

End oldest.

(** ** Counting: lemmas *)

Section counting.
Implicit Types (P Q : Z -> bool) (a b c : Z).

Lemma count_empty P a b : b <= a -> count P a b = 0.
Proof. intros. unfold count. by rewrite seqZ_nil by lia. Qed.

Lemma count_split P a b c : a <= b <= c -> count P a c = count P a b + count P b c.
Proof.
  intros. unfold count. replace (c - a) with ((b - a) + (c - b)) by lia.
  rewrite seqZ_app by lia.
  rewrite filter_app, length_app. replace (a + (b - a)) with b by lia. lia.
Qed.

Lemma filter_length_ext P Q (l : list Z) :
  Forall (fun i => P i = Q i) l ->
  length (filter (fun i => P i = true) l) = length (filter (fun i => Q i = true) l).
Proof.
  induction 1 as [|x l Hx _ IH]; [done|]. rewrite !filter_cons, Hx.
  case_decide; simpl; congruence.
Qed.

Lemma count_ext P Q a b : (forall i, a <= i < b -> P i = Q i) -> count P a b = count Q a b.
Proof.
  intros HPQ. unfold count. f_equal. apply filter_length_ext, Forall_forall.
  intros i Hi. apply elem_of_seqZ in Hi. apply HPQ. lia.
Qed.

Lemma filter_length_const (v : bool) (l : list Z) :
  length (filter (fun _ => v = true) l) = if v then length l else 0%nat.
Proof.
  induction l as [|x l IH]; [by destruct v|]. rewrite filter_cons.
  case_decide; destruct v; simpl; congruence.
Qed.

Lemma count_true P a b : a <= b -> (forall i, a <= i < b -> P i = true) -> count P a b = b - a.
Proof.
  intros Hab HP. rewrite (count_ext _ (fun _ => true)) by done. unfold count.
  rewrite filter_length_const, length_seqZ. lia.
Qed.

Lemma count_false P a b : (forall i, a <= i < b -> P i = false) -> count P a b = 0.
Proof.
  intros HP. rewrite (count_ext _ (fun _ => false)) by done. unfold count.
  by rewrite filter_length_const.
Qed.

Lemma count_bounds P a b : a <= b -> 0 <= count P a b <= b - a.
Proof.
  intros. unfold count. pose proof (length_filter (fun i => P i = true) (seqZ a (b - a))) as Hl.
  rewrite length_seqZ in Hl. lia.
Qed.

Lemma count_negb P a b : a <= b -> count (fun i => negb (P i)) a b = b - a - count P a b.
Proof.
  intros Hab. unfold count. 
  assert (Hg : forall l : list Z,
    len (filter (fun i => negb (P i) = true) l) = len l - len (filter (fun i => P i = true) l)).
  { induction l as [|x l IH]; [done|]. rewrite !filter_cons.
    destruct (P x); simpl; repeat case_decide; simpl; try done; lia. }
  rewrite Hg, length_seqZ. lia.
Qed.

End counting.

(** ** Deduplication of sorted lists *)

Lemma elem_of_dedup {A} `{EqDecision A} (x : A) l : x ∈ dedup l <-> x ∈ l.
Proof.
  induction l as [|y l IH]; [done|]. cbn [dedup]. destruct l as [|z l]; [done|].
  case_decide as Hd; [subst z|]; rewrite ?elem_of_cons, IH, ?elem_of_cons; naive_solver.
Qed.

(** Sorting indices and dropping the repeated ones gives them in strictly increasing order. *)
Lemma dedup_sorted (l : list nat) :
  StronglySorted (fun a b => Z.of_nat a <= Z.of_nat b) l -> StronglySorted lt (dedup l).
Proof.
  induction 1 as [|x l Hs IH Hf]; [constructor|]. cbn [dedup]. destruct l as [|y l]; [repeat constructor|].
  case_decide as Hd; [done|]. constructor; [done|]. apply Forall_forall. intros z Hz.
  rewrite elem_of_dedup in Hz. inversion_clear Hf as [|? ? Hxy _]. inversion_clear Hs as [|? ? _ Hyl].
  apply elem_of_cons in Hz as [->|Hz]; [lia|]. rewrite Forall_forall in Hyl. specialize (Hyl z Hz). simpl in *. lia.
Qed.

Lemma strictly_sorted_nodup (l : list nat) : StronglySorted lt l -> NoDup l.
Proof.
  induction 1 as [|x l Hs IH Hf]; constructor; [|done]. intros Hx. rewrite Forall_forall in Hf.
  specialize (Hf x Hx). lia.
Qed.

Lemma strictly_sorted_filter (P : nat -> Prop) `{!forall x, Decision (P x)} (l : list nat) :
  StronglySorted lt l -> StronglySorted lt (filter P l).
Proof.
  induction 1 as [|x l Hs IH Hf]; [constructor|]. rewrite filter_cons. case_decide; [|done].
  constructor; [done|]. rewrite Forall_forall in *. intros y Hy. apply list_elem_of_filter in Hy as [_ Hy]. by apply Hf.
Qed.

(** Two strictly increasing lists with the same elements are the same list. *)
Lemma strictly_sorted_eq (l k : list nat) :
  StronglySorted lt l -> StronglySorted lt k -> (forall x, x ∈ l <-> x ∈ k) -> l = k.
Proof.
  intros Hl. revert k. induction Hl as [|x l Hs IH Hf]; intros k Hk Heq.
  - destruct k as [|y k]; [done|]. exfalso. apply (not_elem_of_nil y), Heq. left.
  - destruct Hk as [|y k Hk Hfk]; [exfalso; apply (not_elem_of_nil x), Heq; left|].
    rewrite Forall_forall in Hf, Hfk.
    assert (x = y) as <-.
    { destruct (proj1 (elem_of_cons _ _ _) (proj1 (Heq x) ltac:(left))) as [|Hx]; [done|].
      destruct (proj1 (elem_of_cons _ _ _) (proj2 (Heq y) ltac:(left))) as [|Hy]; [done|].
      specialize (Hf y Hy). specialize (Hfk x Hx). lia. }
    f_equal. apply IH; [done|]. intros z. specialize (Heq z). rewrite !elem_of_cons in Heq.
    split; intros Hz; [specialize (Hf z Hz)|specialize (Hfk z Hz)]; destruct Heq as [H1 H2];
      [destruct H1|destruct H2]; auto; lia.
Qed.

(** A partial function collected over a strictly increasing list of indices that holds every index it
    is defined at gives the same as over any other such list. *)
Lemma omap_sorted {B} (f : nat -> option B) (l k : list nat) :
  StronglySorted lt l -> StronglySorted lt k ->
  (forall x, is_Some (f x) -> x ∈ l) -> (forall x, is_Some (f x) -> x ∈ k) -> omap f l = omap f k.
Proof.
  intros Hl Hk Hfl Hfk.
  assert (Hom : forall l : list nat, omap f l = omap f (filter (fun x => is_Some (f x)) l)).
  { intros m. induction m as [|x m IH]; [done|]. rewrite filter_cons. cbn. rewrite IH.
    case_decide as Hd; cbn; [done|]. destruct (f x) eqn:E; [|done]. destruct Hd. eauto. }
  rewrite (Hom l), (Hom k). f_equal. apply strictly_sorted_eq; try by apply strictly_sorted_filter.
  intros x. rewrite !list_elem_of_filter. naive_solver.
Qed.

Lemma seq_sorted a n : StronglySorted lt (seq a n).
Proof.
  revert a. induction n as [|n IH]; intros a; simpl; constructor; [done|].
  apply Forall_forall. intros x Hx. apply elem_of_seq in Hx. lia.
Qed.

(** ** Integers as bytes *)

(** The big-endian bytes of an [n]-byte integer. *)
Fixpoint be_bytes (n : nat) (x : Z) : list Z :=
  match n with
  | O => []
  | S n' => (x / 2 ^ (8 * Z.of_nat n')) mod 256 :: be_bytes n' x
  end.

(** The big-endian value of some bytes. *)
Definition from_be_bytes (bytes : list Z) : Z := foldl (fun acc b => acc * 256 + b) 0 bytes.

(** The little-endian order is the other way round. *)
Definition le_bytes (n : nat) (x : Z) : list Z := reverse (be_bytes n x).

Definition from_le_bytes (bytes : list Z) : Z := from_be_bytes (reverse bytes).

Lemma be_bytes_length n x : length (be_bytes n x) = n.
Proof. induction n as [|n IH]; simpl; [done|]. by rewrite IH. Qed.

Lemma be_bytes_range n x : Forall (fun b => 0 <= b < 256) (be_bytes n x).
Proof. induction n as [|n IH]; simpl; constructor; [apply Z.mod_pos_bound; lia|done]. Qed.

Lemma from_be_bytes_acc n x acc :
  0 <= x -> foldl (fun acc b => acc * 256 + b) acc (be_bytes n x) = acc * 2 ^ (8 * Z.of_nat n) + x mod 2 ^ (8 * Z.of_nat n).
Proof.
  intros Hx. revert acc. induction n as [|n IH]; intros acc; simpl be_bytes; cbn [foldl].
  - change (2 ^ (8 * Z.of_nat 0)) with 1. rewrite Z.mod_1_r. lia.
  - rewrite IH. replace (8 * Z.of_nat (S n)) with (8 * Z.of_nat n + 8) by lia. rewrite Z.pow_add_r by lia.
    set (p := 2 ^ (8 * Z.of_nat n)). assert (0 < p) by (apply Z.pow_pos_nonneg; lia). change (2 ^ 8) with 256.
    rewrite (Z.rem_mul_r x p 256) by lia. lia.
Qed.

Lemma from_be_bytes_be_bytes n x : 0 <= x < 2 ^ (8 * Z.of_nat n) -> from_be_bytes (be_bytes n x) = x.
Proof. intros Hx. unfold from_be_bytes. rewrite from_be_bytes_acc by lia. rewrite Z.mod_small by lia. lia. Qed.

Lemma from_le_bytes_le_bytes n x : 0 <= x < 2 ^ (8 * Z.of_nat n) -> from_le_bytes (le_bytes n x) = x.
Proof. intros Hx. unfold from_le_bytes, le_bytes. rewrite reverse_involutive. by apply from_be_bytes_be_bytes. Qed.

Lemma from_be_bytes_range bytes :
  Forall (fun b => 0 <= b < 256) bytes -> 0 <= from_be_bytes bytes < 2 ^ (8 * len bytes).
Proof.
  unfold from_be_bytes. induction bytes as [|b bytes IH] using rev_ind; intros Hb; [simpl; lia|].
  rewrite Forall_app in Hb. destruct Hb as [Hb H1]. apply Forall_inv in H1. specialize (IH Hb).
  rewrite foldl_snoc, length_app. cbn [length]. replace (8 * Z.of_nat (length bytes + 1)) with (8 * len bytes + 8) by lia.
  rewrite Z.pow_add_r by lia. change (2 ^ 8) with 256. lia.
Qed.
