(* ===== verification/Text.v ===== *)
(** Text: the string operations of the standard library that the parsers use, on lists of character
    codes. *)

From S2P Require Import Prelude.

Abbreviation text := (list Z).

(** A literal of the source. *)
Fixpoint of_string (s : string) : text :=
  match s with
  | EmptyString => []
  | String c s' => Z.of_N (Ascii.N_of_ascii c) :: of_string s'
  end.

(** [char::is_whitespace]. *)
Definition is_whitespace (c : Z) : bool :=
  ((9 <=? c) && (c <=? 13)) || (c =? 0x20) || (c =? 0x85) || (c =? 0xa0) || (c =? 0x1680) ||
  ((0x2000 <=? c) && (c <=? 0x200a)) || (c =? 0x2028) || (c =? 0x2029) || (c =? 0x202f) ||
  (c =? 0x205f) || (c =? 0x3000).

Fixpoint trim_start (t : text) : text :=
  match t with
  | c :: t' => if is_whitespace c then trim_start t' else t
  | [] => []
  end.

(** [str::trim]. *)
Definition trim (t : text) : text := reverse (trim_start (reverse (trim_start t))).

Definition trim_end (t : text) : text := reverse (trim_start (reverse t)).

(** [str::trim_start_matches] for one character. *)
Fixpoint trim_start_matches (c : Z) (t : text) : text :=
  match t with
  | x :: t' => if x =? c then trim_start_matches c t' else t
  | [] => []
  end.

(** [str::strip_prefix] and [str::strip_suffix] for one character. *)
Definition strip_prefix (c : Z) (t : text) : option text :=
  match t with
  | x :: t' => if x =? c then Some t' else None
  | [] => None
  end.

Definition strip_suffix (c : Z) (t : text) : option text := reverse <$> strip_prefix c (reverse t).

(** [str::split_once] for one character. *)
Fixpoint split_once (c : Z) (t : text) : option (text * text) :=
  match t with
  | [] => None
  | x :: t' => if x =? c then Some ([], t') else '(a, b) ← split_once c t'; Some (x :: a, b)
  end.

(** [str::starts_with]. *)
Fixpoint starts_with (t pattern : text) {struct pattern} : bool :=
  match pattern, t with
  | [], _ => true
  | c :: pattern', x :: t' => (x =? c) && starts_with t' pattern'
  | _ :: _, [] => false
  end.

(** [str::split_once] for a string. *)
Fixpoint split_once_text (pattern t : text) : option (text * text) :=
  if starts_with t pattern
  then Some ([], drop (length pattern) t)
  else match t with
  | [] => None
  | x :: t' => '(a, b) ← split_once_text pattern t'; Some (x :: a, b)
  end.

(** [str::rsplit_once] for one character: the text before and after its last occurrence. *)
Definition rsplit_once (c : Z) (t : text) : option (text * text) :=
  '(b, a) ← split_once c (reverse t); Some (reverse a, reverse b).

(** [str::split] on the characters that satisfy [sep]: one part more than there are separators. *)
Fixpoint split_where (sep : Z -> bool) (t : text) : list text :=
  match t with
  | [] => [[]]
  | c :: t' =>
      if sep c then [] :: split_where sep t'
      else match split_where sep t' with
      | part :: parts => (c :: part) :: parts
      | [] => [[c]]
      end
  end.

Definition split_char (c : Z) (t : text) : list text := split_where (Z.eqb c) t.

(** [str::split_whitespace]. *)
Definition split_whitespace (t : text) : list text :=
  filter (fun part => part <> []) (split_where is_whitespace t).

(** [str::find] of a character class, with the text before and from the match ([split_at]). *)
Fixpoint split_at_first (f : Z -> bool) (t : text) : option (text * text) :=
  match t with
  | [] => None
  | c :: t' => if f c then Some ([], t) else '(a, b) ← split_at_first f t'; Some (c :: a, b)
  end.

Definition to_ascii_lowercase (c : Z) : Z := if (65 <=? c) && (c <=? 90) then c + 32 else c.

(** [str::eq_ignore_ascii_case]. *)
Definition eq_ignore_ascii_case (a b : text) : bool :=
  bool_decide (to_ascii_lowercase <$> a = to_ascii_lowercase <$> b).

Definition digit (c : Z) : option Z := if (48 <=? c) && (c <=? 57) then Some (c - 48) else None.

(** The digits of a number, refusing a value above [max]. *)
Fixpoint parse_digits (max acc : Z) (t : text) : option Z :=
  match t with
  | [] => Some acc
  | c :: t' =>
      d ← digit c;
      let acc := acc * 10 + d in
      if max <? acc then None else parse_digits max acc t'
  end.

(** [str::parse] for an unsigned integer: an optional plus sign, then at least one digit. *)
Definition parse_unsigned (max : Z) (t : text) : option Z :=
  let t' := match t with c :: rest => if (c =? 43) && negb (bool_decide (rest = [])) then rest else t | [] => t end in
  match t' with [] => None | _ => parse_digits max 0 t' end.

(** [str::parse] for a signed integer. *)
Definition parse_signed (min max : Z) (t : text) : option Z :=
  match t with
  | [] => None
  | c :: rest =>
      if c =? 45 then match rest with [] => None | _ => Z.opp <$> parse_digits (- min) 0 rest end
      else if c =? 43 then match rest with [] => None | _ => parse_digits max 0 rest end
      else parse_digits max 0 t
  end.

(** [char::is_ascii_*]. *)
Definition is_ascii (c : Z) : bool := (0 <=? c) && (c <? 128).
Definition is_ascii_digit (c : Z) : bool := (48 <=? c) && (c <=? 57).
Definition is_ascii_alphanumeric (c : Z) : bool :=
  is_ascii_digit c || ((65 <=? c) && (c <=? 90)) || ((97 <=? c) && (c <=? 122)).
Definition is_ascii_hexdigit (c : Z) : bool :=
  is_ascii_digit c || ((65 <=? c) && (c <=? 70)) || ((97 <=? c) && (c <=? 102)).
Definition is_ascii_whitespace (c : Z) : bool :=
  (c =? 9) || (c =? 10) || (c =? 12) || (c =? 13) || (c =? 32).

(** [char::len_utf8] and [str::len]. *)
Definition len_utf8 (c : Z) : Z :=
  if c <? 0x80 then 1 else if c <? 0x800 then 2 else if c <? 0x10000 then 3 else 4.
Definition text_len (t : text) : Z := zsum (len_utf8 <$> t).

(** [str::lines]: a line ends at a newline, which takes a carriage return before it along; what
    follows the last newline is a line when it is not empty. *)
Fixpoint lines_from (line : text) (t : text) : list text :=
  match t with
  | [] => if decide (line = []) then [] else [line]
  | c :: t' =>
      if c =? 10 then unwrap_or line (strip_suffix 13 line) :: lines_from [] t'
      else lines_from (line ++ [c]) t'
  end.

Definition lines (t : text) : list text := lines_from [] t.

(** [str::contains]. *)
Fixpoint text_contains (t pattern : text) : bool :=
  starts_with t pattern || match t with [] => false | _ :: t' => text_contains t' pattern end.

(** The digits of a number below [radix ^ fuel], the most significant first: [{}] and [{:x}]. *)
Definition show_digit (d : Z) : Z := if d <? 10 then 48 + d else 87 + d.

Fixpoint show_digits (fuel : nat) (radix n : Z) (tail : text) : text :=
  match fuel with
  | O => tail
  | S fuel =>
      let tail := show_digit (n mod radix) :: tail in
      if n / radix =? 0 then tail else show_digits fuel radix (n / radix) tail
  end.

(** [haystack.windows(n).position(f)]. *)
Fixpoint window_position (n : nat) (f : list Z -> bool) (haystack : list Z) : option Z :=
  if (length haystack <? n)%nat then None
  else if f (take n haystack) then Some 0
  else match haystack with
  | [] => None
  | _ :: rest => Z.succ <$> window_position n f rest
  end.

(** ** Lengths *)

Lemma trim_start_length t : (length (trim_start t) <= length t)%nat.
Proof. induction t as [|c t IH]; simpl; [lia|]. destruct (is_whitespace c); simpl; lia. Qed.

Lemma trim_length t : (length (trim t) <= length t)%nat.
Proof.
  unfold trim. rewrite length_reverse. pose proof (trim_start_length (reverse (trim_start t))).
  pose proof (trim_start_length t). rewrite length_reverse in *. lia.
Qed.

Lemma strip_prefix_length c t t' : strip_prefix c t = Some t' -> length t = S (length t').
Proof. unfold strip_prefix. destruct t as [|x t]; [done|]. case_match; naive_solver. Qed.

Lemma strip_prefix_inv c t t' : strip_prefix c t = Some t' -> t = c :: t'.
Proof. unfold strip_prefix. destruct t as [|x t]; [done|]. destruct (Z.eqb_spec x c); naive_solver. Qed.

Lemma strip_suffix_length c t t' : strip_suffix c t = Some t' -> length t = S (length t').
Proof.
  unfold strip_suffix. intros H. apply fmap_Some in H as (r & Hr & ->).
  apply strip_prefix_length in Hr. by rewrite length_reverse in Hr |- *.
Qed.

(** ** Trimming text that needs none *)

Lemma trim_start_id c t : is_whitespace c = false -> trim_start (c :: t) = c :: t.
Proof. intros H. simpl. by rewrite H. Qed.

Lemma trim_id c t d : is_whitespace c = false -> is_whitespace d = false -> trim (c :: t ++ [d]) = c :: t ++ [d].
Proof.
  intros Hc Hd. unfold trim. rewrite trim_start_id by done.
  rewrite app_comm_cons, reverse_app, reverse_singleton. simpl. rewrite Hd.
  by rewrite reverse_cons, reverse_involutive.
Qed.

Lemma trim_ends t :
  (forall c, head t = Some c -> is_whitespace c = false) -> (forall c, last t = Some c -> is_whitespace c = false) ->
  trim t = t.
Proof.
  intros Hh Hl. destruct t as [|c t] using rev_ind; [done|]. rewrite last_snoc in Hl. specialize (Hl _ eq_refl).
  destruct t as [|d t].
  - unfold trim. simpl. rewrite Hl. simpl. by rewrite Hl.
  - apply trim_id; [by apply Hh|done].
Qed.

Definition no_whitespace (t : text) : Prop := Forall (fun c => is_whitespace c = false) t.

Lemma trim_start_none t : no_whitespace t -> trim_start t = t.
Proof. intros H. destruct H as [|c t Hc]; simpl; [done|]. by rewrite Hc. Qed.

Lemma trim_none t : no_whitespace t -> trim t = t.
Proof.
  intros H. unfold trim. rewrite (trim_start_none t) by done.
  rewrite trim_start_none by (by apply Forall_reverse). apply reverse_involutive.
Qed.

(** ** Splitting *)

Lemma split_where_parts sep t : Forall (Forall (fun c => sep c = false)) (split_where sep t).
Proof.
  induction t as [|c t IH]; simpl; [repeat constructor|]. destruct (sep c) eqn:Ec; [by constructor|].
  destruct IH as [|p ps Hp Hps]; repeat constructor; done.
Qed.

Lemma split_where_nonempty sep t : split_where sep t <> [].
Proof. destruct t as [|c t]; simpl; [done|]. destruct (sep c); [done|]. by destruct (split_where sep t). Qed.

Lemma split_where_snoc sep t : exists parts rest, split_where sep t = parts ++ [rest].
Proof.
  pose proof (split_where_nonempty sep t). destruct (split_where sep t) as [|rest parts] using rev_ind; [done|]. eauto.
Qed.

Lemma split_where_one sep part : Forall (fun c => sep c = false) part -> split_where sep part = [part].
Proof. induction 1 as [|c part Hc _ IH]; simpl; [done|]. by rewrite Hc, IH. Qed.

Lemma split_where_app sep part c t :
  Forall (fun c => sep c = false) part -> sep c = true ->
  split_where sep (part ++ c :: t) = part :: split_where sep t.
Proof. intros Hp Hc. induction Hp as [|x part Hx _ IH]; simpl; [by rewrite Hc|]. by rewrite Hx, IH. Qed.

Lemma split_whitespace_fields t : Forall (fun field => field <> [] /\ no_whitespace field) (split_whitespace t).
Proof.
  unfold split_whitespace. apply Forall_forall. intros f Hf. apply list_elem_of_filter in Hf as [H1 H2].
  split; [done|]. pose proof (split_where_parts is_whitespace t) as Hall. rewrite Forall_forall in Hall.
  by apply Hall.
Qed.

Lemma split_whitespace_one field : field <> [] -> no_whitespace field -> split_whitespace field = [field].
Proof. intros H1 H2. unfold split_whitespace. rewrite split_where_one by done. by rewrite filter_cons_True. Qed.

Lemma split_whitespace_app field c t :
  field <> [] -> no_whitespace field -> is_whitespace c = true ->
  split_whitespace (field ++ c :: t) = field :: split_whitespace t.
Proof.
  intros H1 H2 Hc. unfold split_whitespace. rewrite split_where_app by done. by rewrite filter_cons_True.
Qed.

Lemma split_once_none c t : Forall (fun x => x <> c) t -> split_once c t = None.
Proof. induction 1 as [|x t Hx _ IH]; simpl; [done|]. destruct (Z.eqb_spec x c); [done|]. by rewrite IH. Qed.

Lemma split_once_app c a b : Forall (fun x => x <> c) a -> split_once c (a ++ c :: b) = Some (a, b).
Proof.
  induction 1 as [|x a Hx _ IH]; simpl; [by rewrite Z.eqb_refl|].
  destruct (Z.eqb_spec x c); [done|]. by rewrite IH.
Qed.

Lemma split_once_inv c t a b : split_once c t = Some (a, b) -> t = a ++ c :: b.
Proof.
  revert a. induction t as [|x t IH]; intros a E; simpl in E; [done|].
  destruct (Z.eqb_spec x c) as [->|]; [by simplify_eq|].
  destruct (split_once c t) as [[a' b']|] eqn:E'; [|done]. simplify_eq/=. by rewrite (IH a').
Qed.

Lemma rsplit_once_app c a b : Forall (fun x => x <> c) b -> rsplit_once c (a ++ c :: b) = Some (a, b).
Proof.
  intros Hb. unfold rsplit_once. rewrite reverse_app, reverse_cons, <- app_assoc. simpl.
  rewrite split_once_app by (by apply Forall_reverse). simpl. by rewrite !reverse_involutive.
Qed.

(** ** Numbers *)

Lemma parse_digits_range max acc t n :
  0 <= acc <= max -> parse_digits max acc t = Some n -> 0 <= n <= max.
Proof.
  revert acc. induction t as [|c t IH]; intros acc Ha E; simpl in E; [by simplify_eq|].
  unfold digit in E. destruct ((48 <=? c) && (c <=? 57)) eqn:Ec; [|done]. bsimpl. simpl in E.
  destruct (Z.ltb_spec max (acc * 10 + (c - 48))); [done|]. eapply IH; [|exact E]. lia.
Qed.

Lemma parse_unsigned_range max t n : 0 <= max -> parse_unsigned max t = Some n -> 0 <= n <= max.
Proof.
  intros Hm. unfold parse_unsigned. set (t' := match t with [] => t | _ => _ end). clearbody t'.
  destruct t'; [done|]. apply parse_digits_range. lia.
Qed.

Lemma parse_signed_range min max t n :
  min <= 0 <= max -> parse_signed min max t = Some n -> min <= n <= max.
Proof.
  intros Hm. unfold parse_signed. destruct t as [|c rest]; [done|].
  destruct (c =? 45); [|destruct (c =? 43)].
  - destruct rest; [done|]. intros E. apply fmap_Some in E as (d & E & ->).
    apply parse_digits_range in E; lia.
  - destruct rest; [done|]. intros E. apply parse_digits_range in E; lia.
  - intros E. apply parse_digits_range in E; lia.
Qed.

(** A number that is printed is read back. *)
Lemma parse_show_digits max fuel n tail :
  0 <= n <= max -> n < 10 ^ Z.of_nat fuel ->
  (0 < fuel)%nat -> parse_digits max 0 (show_digits fuel 10 n tail) = parse_digits max n tail.
Proof.
  revert n tail. induction fuel as [|fuel IH]; intros n tail Hn Hf Hpos; [lia|]. cbn [show_digits].
  assert (Hd : forall acc, 0 <= acc -> acc * 10 + n mod 10 <= max ->
    parse_digits max acc (show_digit (n mod 10) :: tail) = parse_digits max (acc * 10 + n mod 10) tail).
  { intros acc Ha Hb. pose proof (Z.mod_pos_bound n 10). cbn [parse_digits].
    unfold show_digit, digit. zdec. cbn. zdec. repeat f_equal; lia. }
  pose proof (Z.div_mod n 10). destruct (Z.eqb_spec (n / 10) 0) as [E|E].
  - rewrite Hd by lia. f_equal. lia.
  - assert (0 < n / 10) by (pose proof (Z.div_pos n 10); lia).
    pose proof (Z.mod_pos_bound n 10). destruct fuel as [|fuel]; [change (10 ^ Z.of_nat 1) with 10 in Hf; lia|].
    rewrite IH; [|lia| |lia].
    + rewrite Hd by lia. f_equal. lia.
    + apply Z.div_lt_upper_bound; [lia|]. rewrite <- Z.pow_succ_r by lia. by rewrite <- Nat2Z.inj_succ.
Qed.

Lemma show_digits_digits fuel n tail :
  0 <= n -> Forall (fun c => is_ascii_digit c = true) tail ->
  Forall (fun c => is_ascii_digit c = true) (show_digits fuel 10 n tail).
Proof.
  revert n tail. induction fuel as [|fuel IH]; intros n tail Hn Ht; cbn [show_digits]; [done|].
  assert (Forall (fun c => is_ascii_digit c = true) (show_digit (n mod 10) :: tail)).
  { constructor; [|done]. pose proof (Z.mod_pos_bound n 10). unfold show_digit, is_ascii_digit. by zdec. }
  destruct (n / 10 =? 0); [done|]. apply IH; [apply Z.div_pos; lia|done].
Qed.

Lemma show_digits_nonempty fuel n tail : (0 < fuel)%nat -> show_digits fuel 10 n tail <> [].
Proof.
  intros Hf. destruct fuel as [|fuel]; [lia|]. clear Hf. revert n tail.
  induction fuel as [|fuel IH]; intros n tail; cbn [show_digits]; destruct (n / 10 =? 0); try done. apply IH.
Qed.

Lemma parse_unsigned_show max fuel n :
  0 <= n <= max -> n < 10 ^ Z.of_nat fuel -> (0 < fuel)%nat -> parse_unsigned max (show_digits fuel 10 n []) = Some n.
Proof.
  intros Hn Hf Hp. unfold parse_unsigned. pose proof (show_digits_digits fuel n [] ltac:(lia) ltac:(constructor)) as Hd.
  pose proof (show_digits_nonempty fuel n [] Hp) as Hne. pose proof (parse_show_digits max fuel n [] Hn Hf Hp) as Hs.
  destruct (show_digits fuel 10 n []) as [|c rest]; [done|]. apply Forall_cons in Hd as [Hc _].
  unfold is_ascii_digit in Hc. bsimpl. zdec. done.
Qed.

Lemma split_whitespace_space c t : is_whitespace c = true -> split_whitespace (c :: t) = split_whitespace t.
Proof. intros Hc. unfold split_whitespace. cbn [split_where]. rewrite Hc. by rewrite filter_cons_False by (by intros []). Qed.

(** A line is taken apart when its words hold no whitespace: [words] are joined by single spaces. *)
Fixpoint unwords (words : list text) : text :=
  match words with [] => [] | [w] => w | w :: words' => w ++ 32 :: unwords words' end.

Definition word (w : text) : Prop := w <> [] /\ no_whitespace w.

Lemma split_whitespace_unwords words : Forall word words -> split_whitespace (unwords words) = words.
Proof.
  induction 1 as [|w words [H1 H2] Hw IH]; [done|]. destruct words as [|v words]; [by apply split_whitespace_one|].
  cbn [unwords]. rewrite split_whitespace_app by done. f_equal. apply IH.
Qed.

(** Lines that hold neither a newline nor a carriage return are read back. *)
Definition line_text (t : text) : Prop := Forall (fun c => c <> 10 /\ c <> 13) t.

Lemma lines_from_app line t rest :
  line_text t -> lines_from line (t ++ rest) = lines_from (line ++ t) rest.
Proof.
  intros Ht. revert line. induction Ht as [|c t [Hc _] _ IH]; intros line; [by rewrite app_nil_r|].
  cbn. rewrite (proj2 (Z.eqb_neq _ _) Hc), IH. by rewrite <- app_assoc.
Qed.

Lemma strip_suffix_line t : line_text t -> strip_suffix 13 t = None.
Proof.
  intros Ht%Forall_reverse. unfold strip_suffix, strip_prefix. destruct (reverse t) as [|c r]; [done|].
  apply Forall_cons in Ht as [[_ Hc] _]. by rewrite (proj2 (Z.eqb_neq _ _) Hc).
Qed.

Lemma lines_cons t rest : line_text t -> lines (t ++ 10 :: rest) = t :: lines rest.
Proof. intros Ht. unfold lines. rewrite lines_from_app by done. cbn. by rewrite strip_suffix_line. Qed.

(** ** Windows *)

Lemma window_position_spec n f h :
  match window_position n f h with
  | Some p =>
      0 <= p /\ p + Z.of_nat n <= len h /\ f (take n (drop (Z.to_nat p) h)) = true /\
      forall q, 0 <= q < p -> f (take n (drop (Z.to_nat q) h)) = false
  | None => forall q, 0 <= q -> q + Z.of_nat n <= len h -> f (take n (drop (Z.to_nat q) h)) = false
  end.
Proof.
  induction h as [|x h IH]; cbn [window_position].
  - destruct (Nat.ltb_spec (length (@nil Z)) n) as [Hn|Hn]; [intros q ? ?; simpl in *; lia|].
    simpl in Hn. destruct n; [|lia]. simpl. destruct (f []) eqn:Ef; [repeat split; simpl; try done; lia|].
    intros q ? ?. simpl in *. replace q with 0 by lia. done.
  - destruct (Nat.ltb_spec (length (x :: h)) n) as [Hn|Hn]; [intros q ? ?; lia|].
    destruct (f (take n (x :: h))) eqn:Ef; [repeat split; try done; simpl in *; lia|].
    destruct (window_position n f h) as [p|]; simpl.
    + destruct IH as (H0 & H1 & H2 & H3). repeat split; [lia|lia| |].
      * replace (Z.to_nat (Z.succ p)) with (S (Z.to_nat p)) by lia. done.
      * intros q Hq. destruct (Z.eq_dec q 0) as [->|]; [done|].
        replace (Z.to_nat q) with (S (Z.to_nat (q - 1))) by lia. apply H3. lia.
    + intros q ? ?. destruct (Z.eq_dec q 0) as [->|]; [done|].
      replace (Z.to_nat q) with (S (Z.to_nat (q - 1))) by lia. apply IH; lia.
Qed.

Lemma window_position_app n f a b p :
  window_position n f a = Some p -> window_position n f (a ++ b) = Some p.
Proof.
  revert p. induction a as [|x a IH]; intros p E.
  - simpl in E. destruct n; simpl in E; [|done]. destruct (f []) eqn:Ef; [|done]. simplify_eq.
    destruct b; simpl; by rewrite Ef.
  - cbn [window_position app] in *. destruct (Nat.ltb_spec (length (x :: a)) n) as [|Hn]; [done|].
    destruct (Nat.ltb_spec (length (x :: a ++ b)) n) as [H'|_]; [simpl in *; rewrite length_app in H'; lia|].
    assert (take n (x :: a ++ b) = take n (x :: a)) as ->.
    { change (x :: a ++ b) with ((x :: a) ++ b). rewrite take_app_le by lia. done. }
    destruct (f (take n (x :: a))); [done|].
    destruct (window_position n f a) as [q|]; [|done]. rewrite (IH q eq_refl). done.
Qed.

Lemma window_position_new n f a b p :
  window_position n f a = None -> window_position n f (a ++ b) = Some p -> len a < p + Z.of_nat n.
Proof.
  intros Ea Eb. pose proof (window_position_spec n f a) as Ha. pose proof (window_position_spec n f (a ++ b)) as Hb.
  rewrite Ea in Ha. rewrite Eb in Hb. destruct Hb as (H0 & H1 & H2 & _).
  destruct (Z.le_gt_cases (p + Z.of_nat n) (len a)) as [Hle|]; [|lia]. exfalso.
  rewrite drop_app_le in H2 by lia. rewrite take_app_le in H2 by (rewrite length_drop; lia).
  rewrite Ha in H2; [done|lia|lia].
Qed.

(** ** Substrings *)

Lemma starts_with_spec t pattern : starts_with t pattern = true <-> exists rest, t = pattern ++ rest.
Proof.
  revert t. induction pattern as [|c pattern IH]; intros t; simpl.
  - split; [by exists t|done].
  - destruct t as [|x t]; [split; [done|naive_solver]|]. rewrite andb_true_iff, Z.eqb_eq, IH.
    split; [naive_solver|]. intros (rest & E). simplify_eq. eauto.
Qed.

Lemma text_contains_spec t pattern :
  text_contains t pattern = true <-> exists before rest, t = before ++ pattern ++ rest.
Proof.
  induction t as [|x t IH]; simpl; rewrite orb_true_iff, starts_with_spec.
  - split; [|intros (b & r & E); left; exists r; by destruct b].
    intros [[r E]|?]; [|done]. exists [], r. done.
  - rewrite IH. split.
    + intros [[r E]|(b & r & ->)]; [by exists [], r|by exists (x :: b), r].
    + intros ([|y b] & r & E); [left; eauto|right]. simpl in E. injection E as -> ->. by exists b, r.
Qed.

(** ** Lengths in bytes *)

Lemma len_utf8_range c : 1 <= len_utf8 c <= 4.
Proof. unfold len_utf8. repeat case_match; lia. Qed.

Lemma text_len_cons c t : text_len (c :: t) = len_utf8 c + text_len t.
Proof. done. Qed.

Lemma text_len_pos t : 0 <= text_len t.
Proof. induction t as [|c t IH]; [done|]. rewrite text_len_cons. pose proof (len_utf8_range c). lia. Qed.

Lemma text_len_app a b : text_len (a ++ b) = text_len a + text_len b.
Proof. induction a as [|c a IH]; [done|]. simpl. rewrite !text_len_cons, IH. lia. Qed.

(** ** UTF-8 *)

Definition REPLACEMENT : Z := 0xfffd.

Definition is_continuation (b : Z) : bool := (128 <=? b) && (b <=? 191).

(** How many continuation bytes a leading byte announces, and the range of the first of them. *)
Definition lead (b : Z) : option (nat * Z * Z) :=
  if (194 <=? b) && (b <=? 223) then Some (1%nat, 128, 191)
  else if b =? 224 then Some (2%nat, 160, 191)
  else if ((225 <=? b) && (b <=? 236)) || (b =? 238) || (b =? 239) then Some (2%nat, 128, 191)
  else if b =? 237 then Some (2%nat, 128, 159)
  else if b =? 240 then Some (3%nat, 144, 191)
  else if (241 <=? b) && (b <=? 243) then Some (3%nat, 128, 191)
  else if b =? 244 then Some (3%nat, 128, 143)
  else None.

(** The bits of the character in a leading byte. *)
Definition lead_bits (b : Z) : Z := if b <? 224 then b - 192 else if b <? 240 then b - 224 else b - 240.

(** [String::from_utf8_lossy]: [more] continuation bytes are still due, the next of them in
    [low..=high]; a sequence that breaks off is one replacement character. *)
Fixpoint utf8_lossy_from (more : nat) (low high acc : Z) (bytes : list Z) : text :=
  match bytes with
  | [] => match more with O => [] | S _ => [REPLACEMENT] end
  | b :: bytes' =>
      let fresh :=
        if b <? 128 then b :: utf8_lossy_from 0 0 0 0 bytes'
        else match lead b with
             | Some (n, l, h) => utf8_lossy_from n l h (lead_bits b) bytes'
             | None => REPLACEMENT :: utf8_lossy_from 0 0 0 0 bytes'
             end in
      match more with
      | O => fresh
      | S more' =>
          if (low <=? b) && (b <=? high) then
            let acc := acc * 64 + (b - 128) in
            match more' with
            | O => acc :: utf8_lossy_from 0 0 0 0 bytes'
            | S _ => utf8_lossy_from more' 128 191 acc bytes'
            end
          else REPLACEMENT :: fresh
      end
  end.

Definition utf8_lossy (bytes : list Z) : text := utf8_lossy_from 0 0 0 0 bytes.

(** [str::as_bytes]. *)
Definition utf8_char (c : Z) : list Z :=
  if c <? 0x80 then [c]
  else if c <? 0x800 then [192 + c / 64; 128 + c mod 64]
  else if c <? 0x10000 then [224 + c / 4096; 128 + c / 64 mod 64; 128 + c mod 64]
  else [240 + c / 262144; 128 + c / 4096 mod 64; 128 + c / 64 mod 64; 128 + c mod 64].
Definition as_bytes (t : text) : list Z := t ≫= utf8_char.

Definition ascii (t : list Z) : Prop := Forall (fun c => c < 128) t.

Lemma utf8_lossy_ascii t : ascii t -> utf8_lossy t = t.
Proof. unfold utf8_lossy. induction 1 as [|c t Hc _ IH]; cbn [utf8_lossy_from]; [done|]. zdec. by rewrite IH. Qed.

Lemma as_bytes_ascii t : ascii t -> as_bytes t = t.
Proof. induction 1 as [|c t Hc _ IH]; [done|]. unfold as_bytes in *. cbn. rewrite IH. unfold utf8_char. by zdec. Qed.

(** A sequence of several bytes never reads as an ASCII character. *)
Lemma utf8_lossy_wide bytes more low high acc :
  0 <= acc -> 128 <= low -> 128 <= (acc * 64 + (low - 128)) * 64 ^ Z.of_nat more ->
  exists c t, utf8_lossy_from (S more) low high acc bytes = c :: t /\ 128 <= c.
Proof.
  revert more low high acc. induction bytes as [|b bytes IH]; intros more low high acc Ha Hl Hm; cbn [utf8_lossy_from].
  { by exists REPLACEMENT, []. }
  destruct ((low <=? b) && (b <=? high)) eqn:Eb; [|by eexists REPLACEMENT, _]. bsimpl. destruct more as [|more].
  - eexists _, _. split; [done|]. cbn in Hm. lia.
  - apply IH; [lia|lia|]. rewrite Nat2Z.inj_succ, Z.pow_succ_r in Hm by lia.
    assert (0 < 64 ^ Z.of_nat more) by lia. nia.
Qed.

Lemma lead_wide b n l h :
  lead b = Some (n, l, h) ->
  exists k, n = S k /\ 0 <= lead_bits b /\ 128 <= l /\ 128 <= (lead_bits b * 64 + (l - 128)) * 64 ^ Z.of_nat k.
Proof.
  unfold lead, lead_bits. intros E.
  destruct ((194 <=? b) && (b <=? 223)) eqn:E1; [injection E as <- <- <-; bsimpl; exists 0%nat; zdec; cbn; lia|].
  destruct (Z.eqb_spec b 224) as [->|E2]; [injection E as <- <- <-; by exists 1%nat|].
  destruct (((225 <=? b) && (b <=? 236)) || (b =? 238) || (b =? 239)) eqn:E3; [injection E as <- <- <-; exists 1%nat|].
  { assert (225 <= b <= 239) as Hb by (bsimpl; lia). zdec. cbn. lia. }
  destruct (Z.eqb_spec b 237) as [->|E4]; [injection E as <- <- <-; by exists 1%nat|].
  destruct (Z.eqb_spec b 240) as [->|E5]; [injection E as <- <- <-; by exists 2%nat|].
  destruct ((241 <=? b) && (b <=? 243)) eqn:E6; [injection E as <- <- <-; bsimpl; exists 2%nat; zdec; cbn; lia|].
  destruct (Z.eqb_spec b 244) as [->|E7]; [injection E as <- <- <-; by exists 2%nat|done].
Qed.

(** What reads as ASCII is that ASCII text. *)
Lemma utf8_lossy_ascii_inj bytes t : ascii t -> utf8_lossy bytes = t -> bytes = t.
Proof.
  unfold utf8_lossy. revert t. induction bytes as [|b bytes IH]; intros t Ht E; cbn [utf8_lossy_from] in E; [done|].
  destruct (Z.ltb_spec b 128) as [Hb|Hb].
  - destruct t as [|c t]; [done|]. injection E as <- E. apply Forall_cons in Ht as [_ Ht]. f_equal. by apply IH.
  - exfalso. assert (exists c t', t = c :: t' /\ 128 <= c) as (c & t' & -> & Hc).
    { destruct (lead b) as [[[n l] h]|] eqn:El; [|by eexists REPLACEMENT, _]. rewrite <- E.
      apply lead_wide in El as (k & -> & H1 & H2 & H3). by apply utf8_lossy_wide. }
    apply Forall_cons in Ht as [Ht _]. lia.
Qed.
