(* ===== verification/Ordered.v ===== *)
(** Ordered collections: the orders that Rust derives for sequences and pairs, and [BTreeMap] as an
    association list in the order of its keys. *)

From S2P Require Import Prelude.

(** The laws of [Ord], for an order that agrees with equality. *)
Class OrderLaws {A : Type} (cmp : A -> A -> comparison) : Prop := {
  cmp_eq a b : cmp a b = Eq <-> a = b;
  cmp_anti a b : cmp b a = CompOpp (cmp a b);
  cmp_trans a b c : cmp a b = Lt -> cmp b c = Lt -> cmp a c = Lt
}.

#[export] Instance Z_order : OrderLaws Z.compare.
Proof. constructor; [apply Z.compare_eq_iff|intros; apply Z.compare_antisym|]. intros a b c. rewrite !Z.compare_lt_iff. lia. Qed.

(** The order of [Vec<T>]. *)
Fixpoint lex_compare {A : Type} (cmp : A -> A -> comparison) (l k : list A) : comparison :=
  match l, k with
  | [], [] => Eq
  | [], _ :: _ => Lt
  | _ :: _, [] => Gt
  | a :: l', b :: k' => match cmp a b with Eq => lex_compare cmp l' k' | c => c end
  end.

(** The order of a pair, or of a struct with two fields. *)
Definition pair_compare {A B : Type} (cmpA : A -> A -> comparison) (cmpB : B -> B -> comparison) (p q : A * B) : comparison :=
  match cmpA p.1 q.1 with Eq => cmpB p.2 q.2 | c => c end.

(** [BTreeMap::insert]: the value of a key that is there is replaced. *)
Fixpoint btree_insert {K V : Type} (cmp : K -> K -> comparison) (k : K) (v : V) (l : list (K * V)) : list (K * V) :=
  match l with
  | [] => [(k, v)]
  | (x, w) :: l' =>
      match cmp k x with
      | Eq => (x, v) :: l'
      | Lt => (k, v) :: l
      | Gt => (x, w) :: btree_insert cmp k v l'
      end
  end.

(** [BTreeMap::get]. *)
Fixpoint btree_lookup {K V : Type} (cmp : K -> K -> comparison) (k : K) (l : list (K * V)) : option V :=
  match l with
  | [] => None
  | (x, v) :: l' => match cmp k x with Eq => Some v | Lt => None | Gt => btree_lookup cmp k l' end
  end.

Section laws.
Context {A : Type} (cmp : A -> A -> comparison) `{!OrderLaws cmp}.

Lemma cmp_refl a : cmp a a = Eq.
Proof. by apply cmp_eq. Qed.

#[export] Instance lex_order : OrderLaws (lex_compare cmp).
Proof.
  constructor.
  - intros l. induction l as [|a l IH]; intros [|b k]; simpl; try done.
    destruct (cmp a b) eqn:E; [apply cmp_eq in E as ->; rewrite IH; naive_solver| |]; split; try done;
      intros [= -> ->]; by rewrite cmp_refl in E.
  - intros l. induction l as [|a l IH]; intros [|b k]; simpl; try done. rewrite (cmp_anti (cmp := cmp) a b). by destruct (cmp a b); simpl.
  - intros l. induction l as [|a l IH]; intros [|b k] [|c j]; simpl; try done.
    destruct (cmp a b) eqn:E1; [apply cmp_eq in E1 as ->|..]; [|intros _|done].
    + destruct (cmp b c); try done. apply IH.
    + destruct (cmp b c) eqn:E2; [apply cmp_eq in E2 as ->; by rewrite E1| |done]. by rewrite (cmp_trans (cmp := cmp) a b c).
Qed.
End laws.

#[export] Instance pair_order {A B : Type} (cmpA : A -> A -> comparison) (cmpB : B -> B -> comparison) :
  OrderLaws cmpA -> OrderLaws cmpB -> OrderLaws (pair_compare cmpA cmpB).
Proof.
  intros HA HB. unfold pair_compare. constructor.
  - intros [a b] [c d]. cbn. destruct (cmpA a c) eqn:E; [apply cmp_eq in E as ->; rewrite cmp_eq; naive_solver| |];
      (split; [done|]); intros [= -> ->]; by rewrite cmp_refl in E.
  - intros [a b] [c d]. cbn. rewrite (cmp_anti (cmp := cmpA) a c). destruct (cmpA a c); cbn; [apply cmp_anti|done|done].
  - intros [a b] [c d] [e f]. cbn. destruct (cmpA a c) eqn:E1; [apply cmp_eq in E1 as ->|..]; [|intros _|done].
    + destruct (cmpA c e) eqn:E2; [apply cmp_trans|done|done].
    + destruct (cmpA c e) eqn:E2; [apply cmp_eq in E2 as ->; by rewrite E1| |done]. by rewrite (cmp_trans (cmp := cmpA) a c e).
Qed.

Section btree.
Context {K V : Type} (cmp : K -> K -> comparison) `{!OrderLaws cmp}.

Definition in_order (l : list (K * V)) : Prop := StronglySorted (fun a b => cmp a b = Lt) l.*1.

Lemma btree_insert_keys k v (l : list (K * V)) x : x ∈ (btree_insert cmp k v l).*1 <-> x = k \/ x ∈ l.*1.
Proof.
  induction l as [|[y w] l IH]; cbn [btree_insert]; [rewrite !fmap_cons, !elem_of_cons; done|].
  destruct (cmp k y) eqn:E; rewrite ?fmap_cons, ?elem_of_cons; cbn [fst].
  - apply cmp_eq in E as ->. naive_solver.
  - done.
  - rewrite IH. naive_solver.
Qed.

Lemma btree_insert_elem k v (l : list (K * V)) e : e ∈ btree_insert cmp k v l -> e = (k, v) \/ e ∈ l.
Proof.
  induction l as [|[y w] l IH]; cbn [btree_insert]; [rewrite !elem_of_cons; tauto|].
  destruct (cmp k y) eqn:E; rewrite !elem_of_cons; [apply cmp_eq in E as ->| |]; naive_solver.
Qed.

Lemma btree_insert_length k v (l : list (K * V)) : (length l <= length (btree_insert cmp k v l) <= S (length l))%nat.
Proof. induction l as [|[y w] l IH]; cbn [btree_insert]; [simpl; lia|]. destruct (cmp k y); simpl; lia. Qed.

Lemma btree_insert_order k v (l : list (K * V)) : in_order l -> in_order (btree_insert cmp k v l).
Proof.
  unfold in_order. induction l as [|[y w] l IH]; cbn [btree_insert]; intros Hl; [by repeat constructor|].
  rewrite fmap_cons in Hl. apply StronglySorted_inv in Hl as [Hl Hy]. cbn [fst] in Hy.
  destruct (cmp k y) eqn:E; rewrite ?fmap_cons; cbn [fst].
  - by constructor.
  - constructor; [by constructor|]. constructor; [done|]. eapply Forall_impl; [exact Hy|]. intros x. by apply cmp_trans.
  - constructor; [by apply IH|]. apply Forall_forall. intros x Hx. apply btree_insert_keys in Hx as [->|Hx].
    + by rewrite (cmp_anti (cmp := cmp) k y), E.
    + rewrite Forall_forall in Hy. by apply Hy.
Qed.

Lemma btree_lookup_elem k v (l : list (K * V)) : btree_lookup cmp k l = Some v -> (k, v) ∈ l.
Proof.
  induction l as [|[x w] l IH]; cbn [btree_lookup]; [done|]. destruct (cmp k x) eqn:E; [|done|].
  - intros [= ->]. apply cmp_eq in E as ->. left.
  - right. auto.
Qed.

Lemma btree_lookup_in k v (l : list (K * V)) : in_order l -> (k, v) ∈ l -> btree_lookup cmp k l = Some v.
Proof.
  unfold in_order. induction l as [|[x w] l IH]; cbn [btree_lookup]; intros Hl Hin; [by apply elem_of_nil in Hin|].
  rewrite fmap_cons in Hl. apply StronglySorted_inv in Hl as [Hl Hx]. apply elem_of_cons in Hin as [[= -> ->]|Hin]; [by rewrite cmp_refl|].
  rewrite Forall_forall in Hx. specialize (Hx k). cbn [fst] in Hx. rewrite (cmp_anti (cmp := cmp) x k), Hx; [by apply IH|].
  apply list_elem_of_fmap. by exists (k, v).
Qed.

Lemma btree_lookup_insert `{EqDecision K} k v (l : list (K * V)) j :
  btree_lookup cmp j (btree_insert cmp k v l) = if decide (j = k) then Some v else btree_lookup cmp j l.
Proof.
  induction l as [|[x w] l IH]; cbn [btree_insert btree_lookup].
  - case_decide as Hj; [subst; by rewrite cmp_refl|]. destruct (cmp j k) eqn:E; try done. by apply cmp_eq in E.
  - destruct (cmp k x) eqn:E; cbn [btree_lookup].
    + apply cmp_eq in E as ->. case_decide as Hj; [subst; by rewrite cmp_refl|]. destruct (cmp j x) eqn:E; try done. by apply cmp_eq in E.
    + case_decide as Hj; [subst; by rewrite cmp_refl|]. destruct (cmp j k) eqn:Ej; [by apply cmp_eq in Ej| |done].
      by rewrite (cmp_trans (cmp := cmp) j k x).
    + case_decide as Hj; [subst; by rewrite E|]. by rewrite IH.
Qed.

Lemma in_order_nodup (l : list (K * V)) : in_order l -> NoDup l.*1.
Proof.
  unfold in_order. generalize l.*1. intros ks. induction 1 as [|x ks Hk IH Hx]; constructor; [|done].
  intros Hin. rewrite Forall_forall in Hx. specialize (Hx x Hin). by rewrite cmp_refl in Hx.
Qed.
End btree.

(** The entries of a map whose keys are not among some others. *)
Lemma filter_keys_nil {K V : Type} `{EqDecision K} (l : list (K * V)) (keys : list K) :
  (forall e, e ∈ l -> e.1 ∈ keys) -> filter (fun e => e.1 ∉ keys) l = [].
Proof.
  induction l as [|e l IH]; intros Hl; [done|]. rewrite filter_cons_False by (intros Hn; apply Hn, Hl; left).
  apply IH. intros x Hx. apply Hl. by right.
Qed.

Lemma filter_own_keys {K V : Type} `{EqDecision K} (l : list (K * V)) : filter (fun e => e.1 ∉ l.*1) l = [].
Proof. apply filter_keys_nil. intros e He. apply list_elem_of_fmap. eauto. Qed.

Lemma filter_no_keys {K V : Type} `{EqDecision K} (l : list (K * V)) : filter (fun e => e.1 ∉ @nil K) l = l.
Proof. induction l as [|e l IH]; [done|]. rewrite filter_cons_True by apply not_elem_of_nil. by rewrite IH. Qed.
