(* ===== verification/Clock.v ===== *)
(** Timestamps as text: [Display] of [Timestamp], [crates/common/src/time.rs].

    A timestamp is the nanoseconds since the epoch that [to_timestamp] gives. The calendar of the
    [time] crate is the class [Calendar]: the year, month and day of a day counted from the epoch. *)

From S2P Require Import Prelude Text Ordered.

(** ** Instants *)

(** The last second of the year 9999, past which a time has no representation. *)
Definition MAX_UNIX_SECONDS : Z := 253402300799.

(** [Timestamp::from_system_time]: nanoseconds since the epoch, cut down to the microsecond. *)
Definition to_timestamp (time : Z) : Z :=
  let since_epoch := unwrap_or 0 (duration_since time 0) in
  if since_epoch / 1000000000 <=? MAX_UNIX_SECONDS then since_epoch / 1000 * 1000 else 0.

(** [Timestamp::unix_timestamp]. *)
Definition unix_timestamp (t : Z) : Z := t / 1000000000.

(** ** The calendar *)

Definition DAYS : Z := 2932897.

Definition date_compare : Z * Z * Z -> Z * Z * Z -> comparison := pair_compare (pair_compare Z.compare Z.compare) Z.compare.

Class Calendar := {
  civil : Z -> Z * Z * Z;
  civil_range day : 0 <= day < DAYS ->
    let '(year, month, d) := civil day in 1970 <= year <= 9999 /\ 1 <= month <= 12 /\ 1 <= d <= 31;
  civil_order a b : 0 <= a < DAYS -> 0 <= b < DAYS -> date_compare (civil a) (civil b) = Z.compare a b
}.

(** ** Rendering *)

(** [{:0w}]: at least [w] digits. *)
Definition zero_padded (w : nat) (n : Z) : text :=
  let digits := show_digits 20 10 n [] in replicate (w - length digits) 48 ++ digits.

Section display.
Context `{Calendar}.

(** [Timestamp::fmt]. *)
Definition timestamp_to_string (t : Z) : text :=
  let seconds := unix_timestamp t in
  let '(year, month, day) := civil (seconds / 86400) in
  let of_day := seconds mod 86400 in
  zero_padded 4 year ++ [45] ++ zero_padded 2 month ++ [45] ++ zero_padded 2 day ++ [84] ++
  zero_padded 2 (of_day / 3600) ++ [58] ++ zero_padded 2 (of_day / 60 mod 60) ++ [58] ++ zero_padded 2 (of_day mod 60) ++ [46] ++
  zero_padded 6 (t mod 1000000000 / 1000) ++ [90].
End display.

(** ** Numbers of a fixed width *)

Fixpoint fixed_digits (w : nat) (n : Z) : text :=
  match w with O => [] | S w' => fixed_digits w' (n / 10) ++ [48 + n mod 10] end.

Lemma fixed_digits_length w n : length (fixed_digits w n) = w.
Proof. revert n. induction w as [|w IH]; intros n; cbn; [done|]. rewrite length_app, IH. cbn. lia. Qed.

Lemma fixed_digits_zero w : fixed_digits w 0 = replicate w 48.
Proof. induction w as [|w IH]; [done|]. cbn [fixed_digits]. change (0 / 10) with 0. rewrite IH. by rewrite replicate_S_end. Qed.

Lemma padded_tail fuel w n tail :
  (w <= fuel)%nat -> (1 <= w)%nat -> 0 <= n < 10 ^ Z.of_nat w ->
  replicate (w + length tail - length (show_digits fuel 10 n tail)) 48 ++ show_digits fuel 10 n tail = fixed_digits w n ++ tail.
Proof.
  revert w n tail. induction fuel as [|fuel IH]; intros w n tail Hf Hw Hn; [lia|]. destruct w as [|w]; [lia|]. cbn [show_digits fixed_digits].
  pose proof (Z.mod_pos_bound n 10 eq_refl). assert (show_digit (n mod 10) = 48 + n mod 10) as -> by (unfold show_digit; by rewrite (proj2 (Z.ltb_lt _ _)) by lia).
  rewrite Nat2Z.inj_succ, Z.pow_succ_r in Hn by lia. destruct (Z.eqb_spec (n / 10) 0) as [E|E].
  - rewrite E, fixed_digits_zero. cbn [length]. replace (S w + length tail - S (length tail))%nat with w by lia. by rewrite <- app_assoc.
  - assert (0 < n / 10) by (pose proof (Z.div_pos n 10); lia). assert (n / 10 < 10 ^ Z.of_nat w) by (apply Z.div_lt_upper_bound; lia).
    assert (1 <= w)%nat as Hw' by (destruct w; [cbn in *; lia|lia]).
    pose proof (IH w (n / 10) (48 + n mod 10 :: tail) ltac:(lia) Hw' ltac:(lia)) as IH'. cbn [length] in IH'.
    replace (w + S (length tail))%nat with (S w + length tail)%nat in IH' by lia. rewrite IH'. by rewrite <- app_assoc.
Qed.

Lemma zero_padded_fixed w n : (1 <= w <= 20)%nat -> 0 <= n < 10 ^ Z.of_nat w -> zero_padded w n = fixed_digits w n.
Proof.
  intros Hw Hn. unfold zero_padded. pose proof (padded_tail 20 w n [] ltac:(lia) ltac:(lia) Hn) as Hp.
  cbn [length] in Hp. by rewrite Nat.add_0_r, app_nil_r in Hp.
Qed.

(** ** Order *)

Lemma lex_compare_app (a b c d : text) :
  length a = length b -> lex_compare Z.compare (a ++ c) (b ++ d) = match lex_compare Z.compare a b with Eq => lex_compare Z.compare c d | o => o end.
Proof.
  revert b. induction a as [|x a IH]; intros [|y b] Hl; cbn in *; try lia; [done|]. destruct (x ?= y); try done. apply IH. lia.
Qed.

Lemma lex_compare_same (a : text) : lex_compare Z.compare a a = Eq.
Proof. induction a as [|x a IH]; cbn; [done|]. by rewrite Z.compare_refl. Qed.

(** The digits of numbers of one width are in the order of the numbers. *)
Lemma fixed_digits_compare w a b :
  0 <= a < 10 ^ Z.of_nat w -> 0 <= b < 10 ^ Z.of_nat w -> lex_compare Z.compare (fixed_digits w a) (fixed_digits w b) = Z.compare a b.
Proof.
  revert a b. induction w as [|w IH]; intros a b Ha Hb.
  - cbn in *. symmetry. apply Z.compare_eq_iff. lia.
  - rewrite Nat2Z.inj_succ, Z.pow_succ_r in Ha, Hb by lia. cbn [fixed_digits]. rewrite lex_compare_app by (by rewrite !fixed_digits_length).
    pose proof (Z.div_mod a 10 ltac:(lia)). pose proof (Z.div_mod b 10 ltac:(lia)).
    pose proof (Z.mod_pos_bound a 10 eq_refl). pose proof (Z.mod_pos_bound b 10 eq_refl).
    rewrite IH by (split; [apply Z.div_pos; lia|apply Z.div_lt_upper_bound; lia]). cbn [lex_compare].
    destruct (Z.compare_spec (a / 10) (b / 10)) as [E|E|E].
    + destruct (Z.compare_spec (48 + a mod 10) (48 + b mod 10)); symmetry; [apply Z.compare_eq_iff|apply Z.compare_lt_iff|apply Z.compare_gt_iff]; lia.
    + symmetry. apply Z.compare_lt_iff. lia.
    + symmetry. apply Z.compare_gt_iff. lia.
Qed.

(** Two numbers are compared by their quotients, then by their remainders. *)
Definition then_compare (o p : comparison) : comparison := match o with Eq => p | _ => o end.

Lemma then_compare_assoc o p q : then_compare (then_compare o p) q = then_compare o (then_compare p q).
Proof. by destruct o. Qed.

Lemma compare_digits k a b : 0 < k -> then_compare (a / k ?= b / k) (a mod k ?= b mod k) = (a ?= b).
Proof.
  intros Hk. pose proof (Z.div_mod a k ltac:(lia)). pose proof (Z.div_mod b k ltac:(lia)).
  pose proof (Z.mod_pos_bound a k Hk). pose proof (Z.mod_pos_bound b k Hk).
  destruct (Z.compare_spec (a / k) (b / k)) as [E|E|E]; cbn.
  - rewrite E in *. destruct (Z.compare_spec (a mod k) (b mod k)); symmetry; [apply Z.compare_eq_iff|apply Z.compare_lt_iff|apply Z.compare_gt_iff]; lia.
  - symmetry. apply Z.compare_lt_iff. nia.
  - symmetry. apply Z.compare_gt_iff. nia.
Qed.

Lemma lex_compare_block (w : nat) a b c d :
  0 <= a < 10 ^ Z.of_nat w -> 0 <= b < 10 ^ Z.of_nat w ->
  lex_compare Z.compare (fixed_digits w a ++ c) (fixed_digits w b ++ d) = then_compare (a ?= b) (lex_compare Z.compare c d).
Proof. intros Ha Hb. rewrite lex_compare_app by (by rewrite !fixed_digits_length). rewrite fixed_digits_compare by done. by destruct (a ?= b). Qed.

Lemma lex_compare_sep x (c d : text) : lex_compare Z.compare ([x] ++ c) ([x] ++ d) = lex_compare Z.compare c d.
Proof. cbn. by rewrite Z.compare_refl. Qed.

(** The timestamps there are. *)
Definition is_timestamp (t : Z) : Prop := 0 <= t /\ unix_timestamp t <= MAX_UNIX_SECONDS /\ t mod 1000 = 0.

Lemma to_timestamp_is time : is_timestamp (to_timestamp time).
Proof.
  unfold to_timestamp, is_timestamp, unix_timestamp. set (s := unwrap_or 0 _). assert (0 <= s) as Hs.
  { unfold s, duration_since. case_match; cbn; lia. }
  destruct (Z.leb_spec (s / 1000000000) MAX_UNIX_SECONDS); [|done]. split_and!.
  - assert (0 <= s / 1000) by (apply Z.div_pos; lia). lia.
  - assert (s / 1000 * 1000 / 1000000000 <= s / 1000000000) by (apply Z.div_le_mono; [lia|]; pose proof (Z.mul_div_le s 1000); lia). lia.
  - apply Z.mod_mul. lia.
Qed.

Section facts.
Context `{Calendar}.

(** The fields of a timestamp are in their ranges. *)
Lemma timestamp_fields t :
  is_timestamp t ->
  let '(year, month, day) := civil (unix_timestamp t / 86400) in
  timestamp_to_string t =
    fixed_digits 4 year ++ [45] ++ fixed_digits 2 month ++ [45] ++ fixed_digits 2 day ++ [84] ++
    fixed_digits 2 (unix_timestamp t mod 86400 / 3600) ++ [58] ++ fixed_digits 2 (unix_timestamp t mod 86400 / 60 mod 60) ++ [58] ++
    fixed_digits 2 (unix_timestamp t mod 86400 mod 60) ++ [46] ++ fixed_digits 6 (t mod 1000000000 / 1000) ++ [90] /\
  0 <= year < 10 ^ 4 /\ 0 <= month < 10 ^ 2 /\ 0 <= day < 10 ^ 2 /\ 0 <= unix_timestamp t mod 86400 / 3600 < 10 ^ 2 /\
  0 <= unix_timestamp t mod 86400 / 60 mod 60 < 10 ^ 2 /\ 0 <= unix_timestamp t mod 86400 mod 60 < 10 ^ 2 /\
  0 <= t mod 1000000000 / 1000 < 10 ^ 6 /\ 0 <= unix_timestamp t / 86400 < DAYS.
Proof.
  intros (H0 & H1 & _). unfold timestamp_to_string. set (s := unix_timestamp t) in *.
  assert (0 <= s) by (apply Z.div_pos; lia).
  assert (0 <= s / 86400 < DAYS) as Hd.
  { split; [apply Z.div_pos; lia|]. apply Z.div_lt_upper_bound; [lia|]. unfold DAYS, MAX_UNIX_SECONDS in *. lia. }
  pose proof (civil_range (s / 86400) Hd) as Hc. destruct (civil (s / 86400)) as [[year month] day].
  pose proof (Z.mod_pos_bound s 86400 eq_refl). pose proof (Z.mod_pos_bound (s mod 86400 / 60) 60 eq_refl).
  pose proof (Z.mod_pos_bound (s mod 86400) 60 eq_refl). pose proof (Z.mod_pos_bound t 1000000000 eq_refl).
  assert (0 <= s mod 86400 / 3600 < 24) by (split; [apply Z.div_pos; lia|apply Z.div_lt_upper_bound; lia]).
  assert (0 <= t mod 1000000000 / 1000 < 1000000) by (split; [apply Z.div_pos; lia|apply Z.div_lt_upper_bound; lia]).
  rewrite !zero_padded_fixed by (cbn; lia). split; [done|]. cbn. split_and!; lia.
Qed.

(** The timestamps of events sort as text. Whatever times the events carry, their timestamps are all written with exactly twenty-seven characters, and two of them compare as texts, character by character, exactly as the instants do; in particular two events have the same text only when their timestamps are equal. *)
Theorem timestamps_sort_as_text a b :
  is_timestamp a -> is_timestamp b ->
  length (timestamp_to_string a) = 27%nat /\
  lex_compare Z.compare (timestamp_to_string a) (timestamp_to_string b) = (a ?= b).
Proof.
  intros Ha Hb. pose proof (timestamp_fields a Ha) as Fa. pose proof (timestamp_fields b Hb) as Fb.
  destruct Ha as (_ & _ & Ma), Hb as (_ & _ & Mb).
  destruct (civil (unix_timestamp a / 86400)) as [[ya ma] da] eqn:Ea. destruct (civil (unix_timestamp b / 86400)) as [[yb mb] db] eqn:Eb.
  destruct Fa as (-> & A1 & A2 & A3 & A4 & A5 & A6 & A7 & A8), Fb as (-> & B1 & B2 & B3 & B4 & B5 & B6 & B7 & B8).
  split; [by rewrite !length_app, !fixed_digits_length|].
  repeat first [rewrite lex_compare_sep|rewrite lex_compare_block by done].
  rewrite (lex_compare_same [90]).
  assert (forall rest, then_compare (ya ?= yb) (then_compare (ma ?= mb) (then_compare (da ?= db) rest)) =
    then_compare (unix_timestamp a / 86400 ?= unix_timestamp b / 86400) rest) as ->.
  { intros rest. rewrite <- (civil_order _ _ A8 B8), Ea, Eb. unfold date_compare, pair_compare. cbn.
    by destruct (ya ?= yb), (ma ?= mb), (da ?= db). }
  set (sa := unix_timestamp a) in *. set (sb := unix_timestamp b) in *.
  assert (forall rest, then_compare (sa mod 86400 / 3600 ?= sb mod 86400 / 3600) (then_compare (sa mod 86400 / 60 mod 60 ?= sb mod 86400 / 60 mod 60)
    (then_compare (sa mod 86400 mod 60 ?= sb mod 86400 mod 60) rest)) = then_compare (sa mod 86400 ?= sb mod 86400) rest) as ->.
  { intros rest. change 3600 with (60 * 60). rewrite <- !Z.div_div by lia. rewrite <- then_compare_assoc, compare_digits by lia.
    rewrite <- then_compare_assoc, compare_digits by lia. done. }
  rewrite <- then_compare_assoc, compare_digits by lia.
  assert ((a mod 1000000000 / 1000 ?= b mod 1000000000 / 1000) = (a mod 1000000000 ?= b mod 1000000000)) as E.
  { rewrite <- (compare_digits 1000 (a mod 1000000000) (b mod 1000000000)) by lia.
    assert (forall x, x mod 1000 = 0 -> x mod 1000000000 mod 1000 = 0) as Hm.
    { intros x Hx. rewrite <- Znumtheory.Zmod_div_mod; [done|lia|lia|]. by exists 1000000. }
    rewrite !Hm by done. change (0 ?= 0) with Eq. by destruct (_ / 1000 ?= _). }
  rewrite E. assert (forall o, then_compare o Eq = o) as -> by (by intros []). by apply compare_digits.
Qed.
End facts.

(** No event is stamped with a time it had not reached. The timestamp of a time from the epoch up to the end of the year 9999 is at most that time and less than a microsecond before it, so timestamps keep the order of the times; a time before the epoch or past that end becomes the epoch. *)
Theorem timestamp_truncates time :
  to_timestamp time = if (0 <=? time) && (time / 1000000000 <=? MAX_UNIX_SECONDS) then time - time mod 1000 else 0.
Proof.
  unfold to_timestamp, duration_since. destruct (Z.leb_spec 0 time) as [Ht|Ht]; cbn [andb unwrap_or].
  - rewrite Z.sub_0_r. destruct (_ <=? _); [|done]. pose proof (Z.div_mod time 1000). lia.
  - done.
Qed.

(** ** The hypotheses can hold *)

(** The Gregorian calendar, day by day. *)
Definition leap (year : Z) : bool := (year mod 4 =? 0) && (negb (year mod 100 =? 0) || (year mod 400 =? 0)).

Definition days_in_month (year month : Z) : Z :=
  if month =? 2 then if leap year then 29 else 28
  else if (month =? 4) || (month =? 6) || (month =? 9) || (month =? 11) then 30 else 31.

Definition next_day (date : Z * Z * Z) : Z * Z * Z :=
  let '(year, month, day) := date in
  if day <? days_in_month year month then (year, month, day + 1)
  else if month <? 12 then (year, month + 1, 1) else (year + 1, 1, 1).

Definition gregorian (day : Z) : Z * Z * Z := N.iter (Z.to_N day) next_day (1970, 1, 1).

Definition date_ok (date : Z * Z * Z) : Prop := let '(year, month, day) := date in 1970 <= year /\ 1 <= month <= 12 /\ 1 <= day <= 31.

Lemma days_in_month_range year month : 28 <= days_in_month year month <= 31.
Proof. unfold days_in_month. destruct (month =? 2); [destruct (leap year); lia|]. match goal with |- context [if ?b then _ else _] => destruct b end; lia. Qed.

Lemma next_day_ok date : date_ok date -> date_ok (next_day date) /\ date_compare date (next_day date) = Lt.
Proof.
  destruct date as [[year month] day]. unfold date_ok, next_day, date_compare, pair_compare. intros (H1 & H2 & H3).
  pose proof (days_in_month_range year month). destruct (Z.ltb_spec day (days_in_month year month)).
  - cbn. rewrite !Z.compare_refl. split; [lia|]. apply Z.compare_lt_iff. lia.
  - destruct (Z.ltb_spec month 12); cbn.
    + rewrite Z.compare_refl, (proj2 (Z.compare_lt_iff month (month + 1))) by lia. split; [lia|done].
    + rewrite (proj2 (Z.compare_lt_iff year (year + 1))) by lia. split; [lia|done].
Qed.

Lemma gregorian_succ n : 0 <= n -> gregorian (n + 1) = next_day (gregorian n).
Proof. intros Hn. unfold gregorian. replace (Z.to_N (n + 1)) with (N.succ (Z.to_N n)) by lia. by rewrite N.iter_succ. Qed.

Lemma gregorian_ok n : 0 <= n -> date_ok (gregorian n).
Proof.
  intros Hn. revert n Hn. apply natlike_ind; [by unfold gregorian, date_ok; cbn; lia|].
  intros n Hn IH. rewrite <- Z.add_1_r, gregorian_succ by done. by apply next_day_ok.
Qed.

Lemma gregorian_later a k : 0 <= a -> 0 <= k -> date_compare (gregorian a) (gregorian (a + k + 1)) = Lt.
Proof.
  intros Ha. revert k. apply natlike_ind.
  - rewrite Z.add_0_r, gregorian_succ by done. by apply next_day_ok, gregorian_ok.
  - intros k Hk IH. rewrite <- Z.add_1_r, Z.add_assoc. rewrite (gregorian_succ (a + k + 1)) by lia.
    eapply (cmp_trans (cmp := date_compare)); [exact IH|]. apply next_day_ok, gregorian_ok. lia.
Qed.

Lemma gregorian_order a b : 0 <= a -> 0 <= b -> date_compare (gregorian a) (gregorian b) = Z.compare a b.
Proof.
  intros Ha Hb. destruct (Z.compare_spec a b) as [->|Hlt|Hlt].
  - by apply (cmp_eq (cmp := date_compare)).
  - pose proof (gregorian_later a (b - a - 1) Ha ltac:(lia)) as Hl. by replace (a + (b - a - 1) + 1) with b in Hl by lia.
  - pose proof (gregorian_later b (a - b - 1) Hb ltac:(lia)) as Hl. replace (b + (a - b - 1) + 1) with a in Hl by lia.
    rewrite (cmp_anti (cmp := date_compare) (gregorian b) (gregorian a)), Hl. done.
Qed.

(** The calendar repeats every four hundred years. *)
Definition later_years (n : Z) (date : Z * Z * Z) : Z * Z * Z := let '(year, month, day) := date in (year + n, month, day).

Lemma later_years_twice a b date : later_years a (later_years b date) = later_years (a + b) date.
Proof. destruct date as [[year month] day]. cbn. do 2 f_equal. lia. Qed.

Lemma leap_cycle year k : leap (year + 400 * k) = leap year.
Proof.
  unfold leap. replace (year + 400 * k) with (year + (100 * k) * 4) at 1 by lia. rewrite Z.mod_add by lia.
  replace (year + 400 * k) with (year + (4 * k) * 100) at 1 by lia. rewrite Z.mod_add by lia.
  replace (year + 400 * k) with (year + k * 400) by lia. by rewrite Z.mod_add by lia.
Qed.

Lemma next_day_cycle k date : next_day (later_years (400 * k) date) = later_years (400 * k) (next_day date).
Proof.
  destruct date as [[year month] day]. cbn [later_years next_day].
  replace (days_in_month (year + 400 * k) month) with (days_in_month year month) by (unfold days_in_month; by rewrite leap_cycle).
  destruct (day <? _); [done|]. destruct (month <? 12); [done|]. cbn. do 2 f_equal. lia.
Qed.

Lemma iter_cycle n k date : N.iter n next_day (later_years (400 * k) date) = later_years (400 * k) (N.iter n next_day date).
Proof.
  induction n as [|n IH] using N.peano_ind; [done|]. rewrite !N.iter_succ, IH. apply next_day_cycle.
Qed.

Lemma first_cycle : N.iter 146097 next_day (1970, 1, 1) = later_years 400 (1970, 1, 1).
Proof. vm_compute. reflexivity. Qed.

Lemma gregorian_cycle (k : nat) r : 0 <= r -> gregorian (146097 * Z.of_nat k + r) = later_years (400 * Z.of_nat k) (gregorian r).
Proof.
  intros Hr. induction k as [|k IH].
  - cbn [Z.of_nat]. rewrite !Z.mul_0_r, Z.add_0_l. destruct (gregorian r) as [[y m] d]. cbn. by rewrite Z.add_0_r.
  - unfold gregorian in *. replace (Z.to_N (146097 * Z.of_nat (S k) + r)) with (Z.to_N (146097 * Z.of_nat k + r) + 146097)%N by lia.
    rewrite N.iter_add, first_cycle. change 400 with (400 * 1) at 1. rewrite iter_cycle, IH. by rewrite later_years_twice, <- Z.mul_add_distr_l, Z.add_1_l, <- Nat2Z.inj_succ.
Qed.

Lemma gregorian_last : gregorian (DAYS - 1) = (9999, 12, 31).
Proof.
  change (DAYS - 1) with (146097 * Z.of_nat 20 + 10956). rewrite gregorian_cycle by lia. vm_compute (gregorian 10956). reflexivity.
Qed.

Lemma gregorian_range day :
  0 <= day < DAYS -> let '(year, month, d) := gregorian day in 1970 <= year <= 9999 /\ 1 <= month <= 12 /\ 1 <= d <= 31.
Proof.
  intros Hd. pose proof (gregorian_ok day ltac:(lia)) as Ho. assert (0 <= DAYS - 1) as H1 by done.
  pose proof (gregorian_order day (DAYS - 1) ltac:(lia) H1) as Hc. rewrite gregorian_last in Hc.
  destruct (gregorian day) as [[year month] d]. unfold date_ok, date_compare, pair_compare in *. cbn in Hc.
  destruct Ho as (? & ? & ?). split; [|done]. split; [done|].
  destruct (Z.compare_spec year 9999); [lia|lia|]. symmetry in Hc. apply Z.compare_gt_iff in Hc. lia.
Qed.

#[local] Instance gregorian_calendar : Calendar := {|
  civil := gregorian;
  civil_range := gregorian_range;
  civil_order a b Ha Hb := gregorian_order a b (proj1 Ha) (proj1 Hb)
|}.

Example rendered : timestamp_to_string (to_timestamp 1754325600123456999) = of_string "2025-08-04T16:40:00.123456Z".
Proof. vm_compute. reflexivity. Qed.

Lemma timestamps_sort_as_text_witness :
  length (timestamp_to_string 1754325600123456000) = 27%nat /\
  lex_compare Z.compare (timestamp_to_string 999999999999000) (timestamp_to_string 1754325600123456000) = Lt.
Proof.
  assert (is_timestamp 1754325600123456000) as H1 by (split_and!; [discriminate|discriminate|reflexivity]).
  assert (is_timestamp 999999999999000) as H2 by (split_and!; [discriminate|discriminate|reflexivity]).
  split.
  - exact (proj1 (timestamps_sort_as_text 1754325600123456000 1754325600123456000 H1 H1)).
  - exact (proj2 (timestamps_sort_as_text 999999999999000 1754325600123456000 H2 H1)).
Defined.
