(* ===== verification/Net.v ===== *)
(** Network addresses and CIDR ranges: [crates/common/src/net.rs], together with the total order
    on addresses and endpoints that the flow keys rely on.

    An IPv4 or IPv6 address is the integer of its octets; the theorems say which addresses a
    network contains. The textual form of an address
    ([parse_ip]) follows the reader of the standard library. *)

From S2P Require Import Prelude Text.

(** ** Addresses *)

(** [std::net::IpAddr], with [Ipv4Addr] as a [u32] and [Ipv6Addr] as a [u128]. *)
Inductive IpAddr :=
| V4 (octets : Z)
| V6 (octets : Z).

Definition ip_wf (a : IpAddr) : Prop :=
  match a with V4 x => 0 <= x < 2 ^ 32 | V6 x => 0 <= x < 2 ^ 128 end.

#[global] Instance IpAddr_eq_dec : EqDecision IpAddr.
Proof. solve_decision. Defined.

#[global] Instance IpAddr_countable : Countable IpAddr :=
  inj_countable'
    (fun a => match a with V4 x => inl x | V6 x => inr x end)
    (fun s => match s with inl x => V4 x | inr x => V6 x end)
    (fun a => match a with V4 _ => eq_refl | V6 _ => eq_refl end).

(** The derived [Ord] of [IpAddr]: every IPv4 address sorts before every IPv6 one. *)
Definition ip_cmp (a b : IpAddr) : comparison :=
  match a, b with
  | V4 x, V4 y => x ?= y
  | V6 x, V6 y => x ?= y
  | V4 _, V6 _ => Lt
  | V6 _, V4 _ => Gt
  end.

(** [Endpoint = (IpAddr, u16)], compared lexicographically. *)
Abbreviation Endpoint := (IpAddr * Z)%type.

Definition endpoint_leb (a b : Endpoint) : bool :=
  match ip_cmp a.1 b.1 with
  | Lt => true
  | Gt => false
  | Eq => a.2 <=? b.2
  end.

(** ** Networks *)

Record IpNetwork := mkIpNetwork {
  net_address : IpAddr;
  net_prefix_len : Z
}.

#[global] Instance IpNetwork_eq_dec : EqDecision IpNetwork.
Proof. solve_decision. Defined.

Inductive IpNetworkParseError :=
| BadAddress (t : text)
| BadPrefix (t : text)
| PrefixTooLong (prefix_len max : Z).

Definition max_prefix_len (a : IpAddr) : Z :=
  match a with V4 _ => 32 | V6 _ => 128 end.

Definition masked_v4 (address prefix_len : Z) : Z :=
  let mask :=
    if prefix_len =? 0 then 0
    else Z.land U32_MAX (Z.shiftl U32_MAX (32 - prefix_len)) in
  Z.land address mask.

Definition masked_v6 (address prefix_len : Z) : Z :=
  let mask :=
    if prefix_len =? 0 then 0
    else Z.land U128_MAX (Z.shiftl U128_MAX (128 - prefix_len)) in
  Z.land address mask.

Definition mask (address : IpAddr) (prefix_len : Z) : IpAddr :=
  match address with
  | V4 v4 => V4 (masked_v4 v4 prefix_len)
  | V6 v6 => V6 (masked_v6 v6 prefix_len)
  end.

(** [IpNetwork::new]: masks off the host bits, and refuses a prefix wider than the family. *)
Definition new (address : IpAddr) (prefix_len : Z) : IpNetworkParseError + IpNetwork :=
  let max := max_prefix_len address in
  if max <? prefix_len then inl (PrefixTooLong prefix_len max)
  else inr (mkIpNetwork (mask address prefix_len) prefix_len).

Definition host (address : IpAddr) : IpNetwork :=
  mkIpNetwork address (max_prefix_len address).

Definition contains (n : IpNetwork) (address : IpAddr) : bool :=
  match net_address n, address with
  | V4 network, V4 candidate => masked_v4 candidate (net_prefix_len n) =? network
  | V6 network, V6 candidate => masked_v6 candidate (net_prefix_len n) =? network
  | _, _ => false
  end.

(** ** The textual form of an address: [IpAddr::from_str] of the standard library

    A reader takes what is left of the text and gives a value with the rest, or fails and consumes
    nothing. *)

Definition hex_digit (c : Z) : option Z :=
  if (48 <=? c) && (c <=? 57) then Some (c - 48)
  else if (97 <=? c) && (c <=? 102) then Some (c - 87)
  else if (65 <=? c) && (c <=? 70) then Some (c - 55) else None.

(** The digits of one group: their value, how many there were, and the rest. *)
Fixpoint read_digits (digit : Z -> option Z) (radix max : Z) (max_digits : nat) (acc : Z) (count : nat)
    (t : text) : option (Z * nat * text) :=
  match t with
  | c :: t' =>
      match digit c with
      | Some d =>
          let acc := acc * radix + d in
          if max <? acc then None
          else if (max_digits <=? count)%nat then None
          else read_digits digit radix max max_digits acc (S count) t'
      | None => Some (acc, count, t)
      end
  | [] => Some (acc, count, [])
  end.

Definition read_number (digit : Z -> option Z) (radix max : Z) (max_digits : nat) (allow_zero_prefix : bool)
    (t : text) : option (Z * text) :=
  '(v, count, rest) ← read_digits digit radix max max_digits 0 0 t;
  let leading_zero := match t with c :: _ => c =? 48 | [] => false end in
  if (count =? 0)%nat then None
  else if negb allow_zero_prefix && leading_zero && (1 <? count)%nat then None
  else Some (v, rest).

Definition read_separator {A} (sep : Z) (index : nat) (inner : text -> option (A * text)) (t : text) :
    option (A * text) :=
  match index with
  | O => inner t
  | S _ => t' ← strip_prefix sep t; inner t'
  end.

Definition read_ipv4_addr (t : text) : option (Z * text) :=
  let octet := read_number digit 10 255 3 false in
  '(a, t) ← read_separator 46 0 octet t;
  '(b, t) ← read_separator 46 1 octet t;
  '(c, t) ← read_separator 46 2 octet t;
  '(d, t) ← read_separator 46 3 octet t;
  Some (((a * 256 + b) * 256 + c) * 256 + d, t).

(** [read_groups] for [left] groups from the [i]th on: the groups read, whether they end with an
    embedded IPv4 address, and the rest. *)
Fixpoint read_groups (left i : nat) (t : text) : list Z * bool * text :=
  match left with
  | O => ([], false, t)
  | S left' =>
      match (if (0 <? left')%nat then read_separator 58 i read_ipv4_addr t else None) with
      | Some (v4, t') => ([v4 / 65536; v4 mod 65536], true, t')
      | None =>
          match read_separator 58 i (read_number hex_digit 16 U16_MAX 4 true) t with
          | Some (g, t') =>
              let '(gs, ipv4, rest) := read_groups left' (S i) t' in (g :: gs, ipv4, rest)
          | None => ([], false, t)
          end
      end
  end.

Definition of_groups (gs : list Z) : Z := foldl (fun acc g => acc * 65536 + g) 0 gs.

Definition read_ipv6_addr (t : text) : option (Z * text) :=
  let '(head, head_ipv4, t) := read_groups 8 0 t in
  if (length head =? 8)%nat then Some (of_groups head, t)
  else if head_ipv4 then None
  else
    t ← strip_prefix 58 t;
    t ← strip_prefix 58 t;
    let '(tail, _, t) := read_groups (8 - (length head + 1)) 0 t in
    Some (of_groups (head ++ replicate (8 - length head - length tail) 0 ++ tail), t).

Definition parse_ip (t : text) : option IpAddr :=
  match read_ipv4_addr t with
  | Some (a, []) => Some (V4 a)
  | Some (_, _ :: _) => None
  | None =>
      match read_ipv6_addr t with
      | Some (a, []) => Some (V6 a)
      | _ => None
      end
  end.

(** ** [IpAddr::to_string] of the standard library *)

Definition show_v4 (a : Z) : text :=
  let octet x := show_digits 3 10 x [] in
  octet (a / 2 ^ 24) ++ [46] ++ octet (a / 2 ^ 16 mod 256) ++ [46] ++ octet (a / 2 ^ 8 mod 256) ++ [46] ++
  octet (a mod 256).

Definition segments (a : Z) : list Z :=
  (fun i => Z.shiftr a (112 - 16 * i) mod 65536) <$> [0; 1; 2; 3; 4; 5; 6; 7].

(** The longest run of zero segments, the first of several: its start and its length. *)
Fixpoint zero_run (i : nat) (current longest : nat * nat) (l : list Z) : nat * nat :=
  match l with
  | [] => longest
  | s :: l' =>
      if s =? 0 then
        let current := (if (current.2 =? 0)%nat then i else current.1, S current.2) in
        zero_run (S i) current (if (longest.2 <? current.2)%nat then current else longest) l'
      else zero_run (S i) (O, O) longest l'
  end.

Fixpoint show_groups (l : list Z) : text :=
  match l with
  | [] => []
  | [s] => show_digits 4 16 s []
  | s :: l' => show_digits 4 16 s [] ++ [58] ++ show_groups l'
  end.

Definition show_v6 (a : Z) : text :=
  if Z.shiftr a 32 =? 0xffff then of_string "::ffff:" ++ show_v4 (a mod 2 ^ 32)
  else
    let '(start, run) := zero_run 0 (O, O) (O, O) (segments a) in
    if (1 <? run)%nat
    then show_groups (take start (segments a)) ++ [58; 58] ++ show_groups (drop (start + run) (segments a))
    else show_groups (segments a).

Definition ip_to_string (a : IpAddr) : text := match a with V4 x => show_v4 x | V6 x => show_v6 x end.

(** [IpNetwork::from_str]. *)
Definition from_str (t : text) : IpNetworkParseError + IpNetwork :=
  let t := trim t in
  match split_once 47 t with
  | None =>
      match parse_ip t with
      | Some a => inr (host a)
      | None => inl (BadAddress t)
      end
  | Some (address, prefix) =>
      match parse_ip address with
      | None => inl (BadAddress address)
      | Some a =>
          match parse_unsigned 255 prefix with
          | None => inl (BadPrefix prefix)
          | Some n => new a n
          end
      end
  end.

(** Every network the program holds was built by [new] or [host]: its prefix fits the family and
    its host bits are clear. *)
Definition net_wf (n : IpNetwork) : Prop :=
  ip_wf (net_address n) /\
  0 <= net_prefix_len n <= max_prefix_len (net_address n) /\
  mask (net_address n) (net_prefix_len n) = net_address n.

(** What an address keeps of itself under a prefix of [prefix_len] bits. *)
Definition prefix_of (address : IpAddr) (prefix_len : Z) : Z :=
  match address with
  | V4 x => Z.shiftr x (32 - prefix_len)
  | V6 x => Z.shiftr x (128 - prefix_len)
  end.

Definition same_family (a b : IpAddr) : bool :=
  match a, b with V4 _, V4 _ | V6 _, V6 _ => true | _, _ => false end.

(** ** The order on endpoints *)

Lemma ip_cmp_eq a b : ip_cmp a b = Eq <-> a = b.
Proof.
  destruct a, b; simpl; try (split; congruence);
    rewrite Z.compare_eq_iff; split; congruence.
Qed.

Lemma ip_cmp_antisym a b : ip_cmp b a = CompOpp (ip_cmp a b).
Proof. destruct a, b; simpl; try done; apply Z.compare_antisym. Qed.

Lemma endpoint_leb_total a b : endpoint_leb a b = true \/ endpoint_leb b a = true.
Proof.
  unfold endpoint_leb. rewrite (ip_cmp_antisym a.1 b.1).
  destruct (ip_cmp a.1 b.1); simpl; auto. rewrite !Z.leb_le. lia.
Qed.

Lemma endpoint_leb_antisym a b :
  endpoint_leb a b = true -> endpoint_leb b a = true -> a = b.
Proof.
  unfold endpoint_leb. rewrite (ip_cmp_antisym a.1 b.1).
  destruct (ip_cmp a.1 b.1) eqn:E; simpl; intros; bsimpl; try done.
  apply ip_cmp_eq in E. destruct a, b; simpl in *. f_equal; [done|lia].
Qed.

(** ** Masks *)

(** Clearing the low [w - p] bits of a [w]-bit integer with the mask the code builds. *)
Lemma land_mask w p x :
  0 < p <= w -> 0 <= x < 2 ^ w ->
  Z.land x (Z.land (Z.ones w) (Z.shiftl (Z.ones w) (w - p))) =
  Z.shiftl (Z.shiftr x (w - p)) (w - p).
Proof.
  intros Hp Hx. apply Z.bits_inj'. intros i Hi.
  rewrite !Z.land_spec, !Z.shiftl_spec by lia.
  destruct (Z.ltb_spec i (w - p)).
  - rewrite !(Z.testbit_neg_r _ (i - (w - p))) by lia. by rewrite !andb_false_r.
  - rewrite Z.shiftr_spec by lia. replace (i - (w - p) + (w - p)) with i by lia.
    destruct (Z.ltb_spec i w).
    + rewrite !Z.ones_spec_low by lia. by rewrite !andb_true_r.
    + rewrite (Z.bits_above_log2 x i); [done|lia|].
      destruct (Z.eq_dec x 0) as [->|]; [simpl; lia|].
      apply Z.log2_lt_pow2; [lia|]. eapply Z.lt_le_trans; [apply Hx|].
      apply Z.pow_le_mono_r; lia.
Qed.

Lemma shiftr_small w x : 0 <= x < 2 ^ w -> 0 <= w -> Z.shiftr x w = 0.
Proof. intros Hx Hw. rewrite Z.shiftr_div_pow2 by lia. apply Z.div_small, Hx. Qed.

Lemma masked_v4_spec x p :
  0 <= p <= 32 -> 0 <= x < 2 ^ 32 ->
  masked_v4 x p = Z.shiftl (Z.shiftr x (32 - p)) (32 - p).
Proof.
  intros Hp Hx. unfold masked_v4. change U32_MAX with (Z.ones 32).
  destruct (Z.eqb_spec p 0) as [->|].
  - rewrite Z.land_0_r, (shiftr_small 32) by lia. done.
  - apply land_mask; lia.
Qed.

Lemma masked_v6_spec x p :
  0 <= p <= 128 -> 0 <= x < 2 ^ 128 ->
  masked_v6 x p = Z.shiftl (Z.shiftr x (128 - p)) (128 - p).
Proof.
  intros Hp Hx. unfold masked_v6. change U128_MAX with (Z.ones 128).
  destruct (Z.eqb_spec p 0) as [->|].
  - rewrite Z.land_0_r, (shiftr_small 128) by lia. done.
  - apply land_mask; lia.
Qed.

Lemma shiftr_shiftl_cancel x k : 0 <= k -> Z.shiftr (Z.shiftl x k) k = x.
Proof. intros. rewrite Z.shiftr_shiftl_l, Z.sub_diag, Z.shiftl_0_r; [done|lia]. Qed.

Lemma mask_eq_iff a b p :
  ip_wf a -> ip_wf b -> same_family a b = true -> 0 <= p <= max_prefix_len a ->
  mask a p = mask b p <-> prefix_of a p = prefix_of b p.
Proof.
  destruct a as [x|x], b as [y|y]; simpl; intros Ha Hb Hf Hp; try done.
  - rewrite !masked_v4_spec by lia. split; [|intros ->; done]. intros [= E].
    rewrite <- (shiftr_shiftl_cancel (Z.shiftr x (32 - p)) (32 - p)) by lia.
    rewrite E. apply shiftr_shiftl_cancel. lia.
  - rewrite !masked_v6_spec by lia. split; [|intros ->; done]. intros [= E].
    rewrite <- (shiftr_shiftl_cancel (Z.shiftr x (128 - p)) (128 - p)) by lia.
    rewrite E. apply shiftr_shiftl_cancel. lia.
Qed.

Lemma shiftl_shiftr_range x w k :
  0 <= x < 2 ^ w -> 0 <= k -> 0 <= Z.shiftl (Z.shiftr x k) k < 2 ^ w.
Proof.
  intros Hx Hk. rewrite Z.shiftl_mul_pow2, Z.shiftr_div_pow2 by lia.
  assert (0 < 2 ^ k) by (apply Z.pow_pos_nonneg; lia).
  pose proof (Z.div_pos x (2 ^ k)). pose proof (Z.mul_div_le x (2 ^ k)). nia.
Qed.

Lemma mask_wf a p : ip_wf a -> 0 <= p <= max_prefix_len a -> ip_wf (mask a p).
Proof.
  destruct a as [x|x]; simpl; intros Ha Hp.
  - rewrite masked_v4_spec by lia. apply shiftl_shiftr_range; lia.
  - rewrite masked_v6_spec by lia. apply shiftl_shiftr_range; lia.
Qed.

Lemma mask_idemp a p :
  ip_wf a -> 0 <= p <= max_prefix_len a -> mask (mask a p) p = mask a p.
Proof.
  intros Ha Hp. pose proof (mask_wf a p Ha Hp) as Hm. destruct a as [x|x]; simpl in *.
  - rewrite (masked_v4_spec (masked_v4 x p)), (masked_v4_spec x) by lia.
    by rewrite shiftr_shiftl_cancel by lia.
  - rewrite (masked_v6_spec (masked_v6 x p)), (masked_v6_spec x) by lia.
    by rewrite shiftr_shiftl_cancel by lia.
Qed.

Lemma network_new_wf a p n : ip_wf a -> 0 <= p -> new a p = inr n -> net_wf n.
Proof.
  unfold new. intros Ha Hp H. case_match eqn:E; simplify_eq. bsimpl.
  assert (max_prefix_len (mask a p) = max_prefix_len a) as Hm by by destruct a.
  split; [|split]; simpl.
  - apply mask_wf; [done|lia].
  - rewrite Hm. lia.
  - apply mask_idemp; [done|lia].
Qed.

Lemma host_wf a : ip_wf a -> net_wf (host a).
Proof.
  intros Ha. split; [done|]. split; [by destruct a|]. simpl.
  destruct a as [x|x]; simpl in *; f_equal.
  - rewrite masked_v4_spec by lia. by rewrite Z.shiftl_0_r, Z.shiftr_0_r.
  - rewrite masked_v6_spec by lia. by rewrite Z.shiftl_0_r, Z.shiftr_0_r.
Qed.

(** A well-formed network contains exactly the addresses of its family that share its prefix. *)
Lemma contains_spec n a :
  net_wf n -> ip_wf a ->
  contains n a = true <->
  same_family (net_address n) a = true /\
  prefix_of a (net_prefix_len n) = prefix_of (net_address n) (net_prefix_len n).
Proof.
  intros (Hn & Hp & Hm) Ha. unfold contains.
  assert (Hiff : same_family (net_address n) a = true ->
    mask a (net_prefix_len n) = net_address n <->
    prefix_of a (net_prefix_len n) = prefix_of (net_address n) (net_prefix_len n)).
  { intros Hf. rewrite <- Hm at 1. apply mask_eq_iff; try done.
    - by destruct (net_address n), a.
    - by destruct (net_address n), a. }
  destruct (net_address n) as [x|x], a as [y|y]; simpl in *;
    try (split; [done|intros [? _]; done]).
  - rewrite <- Hiff, Z.eqb_eq by done. split; [by intros ->|]. by intros [_ [= ->]].
  - rewrite <- Hiff, Z.eqb_eq by done. split; [by intros ->|]. by intros [_ [= ->]].
Qed.

(** ** What is read is an address, and a network *)

Lemma read_digits_range digit radix max md acc count t v k rest :
  (forall c d, digit c = Some d -> 0 <= d) -> 0 <= radix -> 0 <= acc <= max ->
  read_digits digit radix max md acc count t = Some (v, k, rest) -> 0 <= v <= max.
Proof.
  intros Hd Hr. revert acc count. induction t as [|c t IH]; intros acc count Ha E; simpl in E; [by simplify_eq|].
  destruct (digit c) as [d|] eqn:Ed; [|by simplify_eq]. apply Hd in Ed.
  destruct (Z.ltb_spec max (acc * radix + d)); [done|]. case_match; [done|]. eapply IH; [|exact E]. nia.
Qed.

Lemma read_number_range digit radix max md zero t v rest :
  (forall c d, digit c = Some d -> 0 <= d) -> 0 <= radix -> 0 <= max ->
  read_number digit radix max md zero t = Some (v, rest) -> 0 <= v <= max.
Proof.
  unfold read_number. intros Hd Hr Hm E.
  destruct (read_digits _ _ _ _ _ _ _) as [[[v' k] r]|] eqn:Er; [|done]. simpl in E.
  apply read_digits_range in Er; [|done|done|lia]. repeat case_match; by simplify_eq.
Qed.

Lemma digit_nonneg c d : digit c = Some d -> 0 <= d.
Proof. unfold digit. intros E. case_match eqn:B; simplify_eq. bsimpl. lia. Qed.

Lemma hex_digit_nonneg c d : hex_digit c = Some d -> 0 <= d.
Proof. unfold hex_digit. intros E. repeat (case_match; simplify_eq); bsimpl; lia. Qed.

Lemma read_separator_inv {A} sep i (inner : text -> option (A * text)) t x rest :
  read_separator sep i inner t = Some (x, rest) -> exists t', inner t' = Some (x, rest).
Proof. destruct i; simpl; [eauto|]. destruct (strip_prefix sep t); naive_solver. Qed.

Lemma read_ipv4_addr_range t a rest : read_ipv4_addr t = Some (a, rest) -> 0 <= a < 2 ^ 32.
Proof.
  unfold read_ipv4_addr. intros E.
  assert (Ho : forall i t x r, read_separator 46 i (read_number digit 10 255 3 false) t = Some (x, r) ->
    0 <= x <= 255).
  { intros i t' x r Hx. apply read_separator_inv in Hx as [? Hx].
    apply read_number_range in Hx; [done|apply digit_nonneg|lia|lia]. }
  destruct (read_separator 46 0 _ t) as [[a0 t0]|] eqn:E0; [|done]. cbn [mbind option_bind] in E.
  destruct (read_separator 46 1 _ t0) as [[a1 t1]|] eqn:E1; [|done]. cbn [mbind option_bind] in E.
  destruct (read_separator 46 2 _ t1) as [[a2 t2]|] eqn:E2; [|done]. cbn [mbind option_bind] in E.
  destruct (read_separator 46 3 _ t2) as [[a3 t3]|] eqn:E3; [|done]. cbn [mbind option_bind] in E. simplify_eq.
  apply Ho in E0, E1, E2, E3. lia.
Qed.

Lemma read_groups_spec left i t gs b rest :
  read_groups left i t = (gs, b, rest) ->
  Forall (fun g => 0 <= g < 65536) gs /\ (length gs <= left)%nat.
Proof.
  revert i t gs b rest. induction left as [|left IH]; intros i t gs b rest E; cbn [read_groups] in E; [by simplify_eq|].
  destruct (if (0 <? left)%nat then _ else None) as [[v4 t4]|] eqn:E4.
  - simplify_eq. destruct (Nat.ltb_spec 0 left); [|done].
    apply read_separator_inv in E4 as [? E4]. apply read_ipv4_addr_range in E4.
    split; [|simpl; lia]. repeat constructor; try (apply Z.mod_pos_bound; lia).
    + apply Z.div_pos; lia.
    + apply Z.div_lt_upper_bound; lia.
  - clear E4. destruct (read_separator 58 i (read_number _ _ _ _ _) t) as [[g t']|] eqn:Eg; [|by simplify_eq; split; [constructor|simpl; lia]].
    destruct (read_groups left (S i) t') as [[gs' b'] r'] eqn:Er. simplify_eq.
    apply IH in Er as [? ?]. apply read_separator_inv in Eg as [? Eg].
    apply read_number_range in Eg; [|apply hex_digit_nonneg|lia|done].
    split; [|simpl; lia]. constructor; [|done]. unfold U16_MAX in Eg. lia.
Qed.

Lemma of_groups_range gs : Forall (fun g => 0 <= g < 65536) gs -> 0 <= of_groups gs < 65536 ^ len gs.
Proof.
  unfold of_groups. intros H. induction gs as [|g gs IH] using rev_ind; [simpl; lia|].
  apply Forall_app in H as [Hgs Hg]. inversion_clear Hg. specialize (IH Hgs).
  rewrite foldl_app, length_app. simpl. rewrite Nat2Z.inj_add. simpl (Z.of_nat 1).
  rewrite Z.pow_add_r by lia. lia.
Qed.

Lemma read_ipv6_addr_range t a rest : read_ipv6_addr t = Some (a, rest) -> 0 <= a < 2 ^ 128.
Proof.
  unfold read_ipv6_addr. intros E.
  destruct (read_groups 8 0 t) as [[head b] t1] eqn:E1. apply read_groups_spec in E1 as [Hh Hl].
  destruct (Nat.eqb_spec (length head) 8) as [H8|H8].
  - simplify_eq. apply of_groups_range in Hh. rewrite H8 in Hh. done.
  - destruct b; [done|]. destruct (strip_prefix 58 t1) as [t2|]; [|done]. simpl in E.
    destruct (strip_prefix 58 t2) as [t3|]; [|done]. cbn [mbind option_bind] in E.
    destruct (read_groups (8 - (length head + 1)) 0 t3) as [[tail ?] t4] eqn:E2.
    apply read_groups_spec in E2 as [Ht Hlt]. simplify_eq.
    change (2 ^ 128) with (65536 ^ 8).
    replace 8 with (len (head ++ replicate (8 - length head - length tail) 0 ++ tail)).
    + apply of_groups_range. rewrite !Forall_app. split; [done|]. split; [|done].
      apply Forall_replicate. lia.
    + rewrite !length_app, length_replicate. lia.
Qed.

Lemma parse_ip_wf t a : parse_ip t = Some a -> ip_wf a.
Proof.
  unfold parse_ip. destruct (read_ipv4_addr t) as [[x [|? ?]]|] eqn:E4; [|done|].
  - intros [= <-]. by apply read_ipv4_addr_range in E4.
  - destruct (read_ipv6_addr t) as [[x [|? ?]]|] eqn:E6; [|done|done].
    intros [= <-]. by apply read_ipv6_addr_range in E6.
Qed.

(** What is read is a network: its host bits are clear and its prefix fits the family. *)
Lemma from_str_wf t n : from_str t = inr n -> net_wf n.
Proof.
  unfold from_str. destruct (split_once 47 (trim t)) as [[a p]|].
  - destruct (parse_ip a) as [ip|] eqn:Ea; [|done].
    destruct (parse_unsigned 255 p) as [k|] eqn:Ek; [|done].
    apply network_new_wf; [by eapply parse_ip_wf|]. apply parse_unsigned_range in Ek; lia.
  - destruct (parse_ip (trim t)) as [ip|] eqn:Ea; [|done]. intros [= <-]. by eapply host_wf, parse_ip_wf.
Qed.

Example parse_ip_examples :
  parse_ip (of_string "10.1.2.3") = Some (V4 167838211) /\
  parse_ip (of_string "10.01.2.3") = None /\
  parse_ip (of_string "fe80::1") = Some (V6 (0xfe80 * 2 ^ 112 + 1)) /\
  parse_ip (of_string "::ffff:1.2.3.4") = Some (V6 (0xffff * 2 ^ 32 + 0x01020304)) /\
  parse_ip (of_string "1:2:3:4:5:6:7:8") = Some (V6 0x00010002000300040005000600070008) /\
  parse_ip (of_string "1:2") = None.
Proof. vm_compute. auto 10. Qed.

Example ip_to_string_examples :
  ip_to_string (V4 167838211) = of_string "10.1.2.3" /\
  ip_to_string (V6 0) = of_string "::" /\ ip_to_string (V6 1) = of_string "::1" /\
  ip_to_string (V6 (0xfe80 * 2 ^ 112 + 0xab * 2 ^ 16 + 1)) = of_string "fe80::ab:1" /\
  ip_to_string (V6 (0xffff * 2 ^ 32 + 0x01020304)) = of_string "::ffff:1.2.3.4" /\
  ip_to_string (V6 0x00010000000300040005000600070008) = of_string "1:0:3:4:5:6:7:8".
Proof. vm_compute. auto 10. Qed.
