(* ===== verification/Event.v ===== *)
(** The parts of [crates/common/src/event.rs] that the engine reads: the 5-tuple of an event, and the
    bodies of the three host events. *)

From S2P Require Import Prelude Text Net.

Inductive Protocol := Tcp | Udp | Icmp | Ip.

#[global] Instance Protocol_eq_dec : EqDecision Protocol.
Proof. solve_decision. Defined.

(** [proto as u8]: the discriminant. *)
Definition protocol_as_u8 (p : Protocol) : Z :=
  match p with Tcp => 0 | Udp => 1 | Icmp => 2 | Ip => 3 end.

Record NetTuple := mkNetTuple {
  src_ip : IpAddr;
  src_port : option Z;
  dest_ip : IpAddr;
  dest_port : option Z;
  proto : Protocol
}.

(** ** Host events *)

Inductive FileChange := Created | Modified | AttributesChanged | Deleted | Renamed.

Definition file_change_as_str (c : FileChange) : text :=
  of_string match c with
  | Created => "created" | Modified => "modified" | AttributesChanged => "attributes_changed"
  | Deleted => "deleted" | Renamed => "renamed"
  end.

Inductive FimDetection := RealTime | BaselineRescan.

Record FimEvent := mkFimEvent {
  fim_path : text;
  fim_change : FileChange;
  fim_detected_by : FimDetection;
  fim_size : option Z;
  fim_sha256 : option text;
  fim_previous_sha256 : option text;
  fim_mode : option Z;
  fim_uid : option Z;
  fim_gid : option Z
}.

Inductive AuthOutcome := Success | Failure.

Definition auth_outcome_as_str (o : AuthOutcome) : text :=
  of_string match o with Success => "success" | Failure => "failure" end.

Record AuthEvent := mkAuthEvent {
  auth_outcome : AuthOutcome;
  auth_user : option text;
  auth_service : option text;
  auth_source_address : option IpAddr;
  auth_source_port : option Z;
  auth_message : text;
  auth_log_source : text;
  auth_suspicious : list text
}.

Inductive ProcessChange := Started | Exited | Listening.

Definition process_change_as_str (c : ProcessChange) : text :=
  of_string match c with Started => "started" | Exited => "exited" | Listening => "listening" end.

Record ProcessEvent := mkProcessEvent {
  process_change : ProcessChange;
  process_pid : Z;
  process_name : text;
  process_executable : option text;
  process_command_line : option text;
  process_uid : option Z;
  process_parent_pid : option Z
}.
