(* ===== verification/Config.v ===== *)
(** Configuration values the reassembler depends on: [crates/common/src/config.rs], the overlap
    policy, the per-network overrides and the [reassembly] section with its validation. *)

From S2P Require Import Prelude Net.

Inductive OverlapPolicy := First | Last.

#[global] Instance OverlapPolicy_eq_dec : EqDecision OverlapPolicy.
Proof. solve_decision. Defined.

Record HostPolicy := mkHostPolicy {
  hp_network : IpNetwork;
  hp_policy : OverlapPolicy
}.

Record ReassemblyConfig := mkReassemblyConfig {
  overlap_policy : OverlapPolicy;
  host_policies : list HostPolicy;
  max_fragment_sets : Z;
  max_fragment_bytes_total : Z;
  fragment_timeout_secs : Z;
  max_stream_bytes_per_flow : Z;
  max_stream_bytes_total : Z;
  delivery_flush_bytes : Z
}.

Definition ReassemblyConfig_default : ReassemblyConfig := {|
  overlap_policy := First;
  host_policies := [];
  max_fragment_sets := 4096;
  max_fragment_bytes_total := Z.shiftl 32 20;
  fragment_timeout_secs := 60;
  max_stream_bytes_per_flow := Z.shiftl 1 20;
  max_stream_bytes_total := Z.shiftl 256 20;
  delivery_flush_bytes := Z.shiftl 64 10
|}.

(** The [Error::ConfigInvalid] values of [check], by the key they name. *)
Inductive ConfigInvalid :=
| MaxFragmentSets
| FragmentTimeoutSecs
| MaxStreamBytesPerFlow
| MaxStreamBytesTotal
| DeliveryFlushBytesZero
| DeliveryFlushBytesTooLarge
| DuplicateHostPolicy (network : IpNetwork).

(** The loop over [host_policies]: a network that was already seen is refused. Networks are
    compared by their printed form in the source, which is injective on them. *)
Fixpoint first_duplicate (seen : list IpNetwork) (l : list HostPolicy) : option IpNetwork :=
  match l with
  | [] => None
  | e :: l' =>
      if decide (hp_network e ∈ seen) then Some (hp_network e)
      else first_duplicate (hp_network e :: seen) l'
  end.

(** [ReassemblyConfig::check]. *)
Definition check (c : ReassemblyConfig) : ConfigInvalid + unit :=
  if max_fragment_sets c =? 0 then inl MaxFragmentSets
  else if fragment_timeout_secs c =? 0 then inl FragmentTimeoutSecs
  else if max_stream_bytes_per_flow c =? 0 then inl MaxStreamBytesPerFlow
  else if max_stream_bytes_total c <? max_stream_bytes_per_flow c then inl MaxStreamBytesTotal
  else if delivery_flush_bytes c =? 0 then inl DeliveryFlushBytesZero
  else if max_stream_bytes_per_flow c <? delivery_flush_bytes c
  then inl DeliveryFlushBytesTooLarge
  else match first_duplicate [] (host_policies c) with
       | Some n => inl (DuplicateHostPolicy n)
       | None => inr tt
       end.

Lemma first_duplicate_None seen l :
  first_duplicate seen l = None <->
  NoDup (hp_network <$> l) /\ Forall (fun n => n ∉ seen) (hp_network <$> l).
Proof.
  revert seen. induction l as [|e l IH]; intros seen; simpl.
  { split; [|done]. intros _. split; constructor. }
  rewrite NoDup_cons, Forall_cons. case_decide as Hin; [naive_solver|].
  rewrite IH, !Forall_forall. set_solver.
Qed.

(** What a configuration that [check] accepts guarantees to the components it is handed to. *)
Lemma check_iff c :
  0 <= max_fragment_sets c -> 0 <= fragment_timeout_secs c ->
  0 <= max_stream_bytes_per_flow c -> 0 <= delivery_flush_bytes c ->
  check c = inr tt <->
  1 <= max_fragment_sets c /\ 1 <= fragment_timeout_secs c /\
  1 <= delivery_flush_bytes c <= max_stream_bytes_per_flow c /\
  max_stream_bytes_per_flow c <= max_stream_bytes_total c /\
  NoDup (hp_network <$> host_policies c).
Proof.
  intros ????. unfold check. split.
  - intros Hc. repeat case_match; simplify_eq. bsimpl. repeat split; try lia. by eapply first_duplicate_None.
  - intros (? & ? & ? & ? & Hn). zdec. destruct (first_duplicate [] (host_policies c)) eqn:E; [|done].
    assert (first_duplicate [] (host_policies c) = None) as E'; [|congruence]. apply first_duplicate_None.
    split; [done|]. apply Forall_forall. set_solver.
Qed.
