(* ===== verification/Settings.v ===== *)
(** The configuration file: [crates/common/src/config.rs], all of its sections with their defaults,
    the resolution of relative paths, the validation and the warnings, and the error type of
    [crates/common/src/error.rs].

    Reading YAML is the [serde_yaml] crate: [load] takes it as an argument. What its typed
    deserialization gives, every number inside the range of its field, is [config_typed]. Paths are
    Unix paths, as texts. The messages of the validation are values that name the offending key. *)

From S2P Require Import Prelude Text Net Config.

(** ** Sections *)

Record SensorConfig := mkSensorConfig { sensor_name : option text }.

Record PathsConfig := mkPathsConfig {
  data_dir : text;
  log_dir : text
}.

Record VarsConfig := mkVarsConfig {
  address_groups : gmap text text;
  port_groups : gmap text text
}.

Record CaptureConfig := mkCaptureConfig {
  capture_enabled : bool;
  interfaces : list text;
  snaplen : Z;
  promiscuous : bool;
  bpf_filter : option text;
  buffer_size_bytes : option Z
}.

Record DecodeConfig := mkDecodeConfig { decode_emit_anomaly_events : bool }.

Record FlowConfig := mkFlowConfig {
  max_flows : Z;
  timeout_secs : Z;
  emit_events : bool
}.

Record NormalizeConfig := mkNormalizeConfig {
  decode_rounds : Z;
  collapse_path : bool;
  backslash_is_separator : bool
}.

Record DetectConfig := mkDetectConfig {
  detect_enabled : bool;
  regex_size_limit : Z;
  regex_dfa_size_limit : Z;
  max_flow_states : Z;
  max_flowbits_per_flow : Z;
  inspection_window : Z;
  max_threshold_entries : Z
}.

Record RulesConfig := mkRulesConfig {
  directory : text;
  rule_files : list text
}.

Record OutputsConfig := mkOutputsConfig {
  stdout_enabled : bool;
  file_enabled : bool;
  file_path : text;
  syslog_enabled : bool;
  webhook_enabled : bool;
  webhook_url : option text
}.

Record LoggingConfig := mkLoggingConfig {
  level : text;
  queue_capacity : Z
}.

Record StatsConfig := mkStatsConfig {
  stats_enabled : bool;
  stats_interval_secs : Z
}.

Record PreventConfig := mkPreventConfig {
  prevent_enabled : bool;
  prevent_mode : text;
  prevent_fail_mode : text;
  queue : Z;
  queue_length : Z;
  allow_list : list text;
  source_block_secs : Z;
  max_blocked_flows : Z;
  max_blocked_sources : Z
}.

Record FimConfig := mkFimConfig {
  fim_enabled : bool;
  fim_paths : list text;
  baseline : text;
  rescan_interval_secs : Z;
  max_file_bytes : Z;
  max_depth : Z;
  max_entries : Z
}.

Record AuthConfig := mkAuthConfig {
  auth_enabled : bool;
  journald : bool;
  auth_files : list text
}.

Record ProcessConfig := mkProcessConfig {
  process_enabled : bool;
  proc_root : text;
  process_interval_secs : Z;
  max_processes : Z;
  max_sockets : Z
}.

Record HidsConfig := mkHidsConfig {
  hids_enabled : bool;
  fim : FimConfig;
  auth : AuthConfig;
  process : ProcessConfig
}.

Record CorrelationConfig := mkCorrelationConfig {
  correlation_enabled : bool;
  window_secs : Z;
  cooldown_secs : Z;
  correlation_max_hosts : Z;
  correlation_max_per_host : Z
}.

Record Config := mkConfig {
  sensor : SensorConfig;
  paths : PathsConfig;
  vars : VarsConfig;
  capture : CaptureConfig;
  decode : DecodeConfig;
  flow : FlowConfig;
  reassembly : ReassemblyConfig;
  normalize : NormalizeConfig;
  detect : DetectConfig;
  rules : RulesConfig;
  hids : HidsConfig;
  correlation : CorrelationConfig;
  prevent : PreventConfig;
  outputs : OutputsConfig;
  logging : LoggingConfig;
  stats : StatsConfig;
  source_path : option text;
  paths_resolved : bool
}.

(** ** Defaults *)

Definition PathsConfig_default : PathsConfig := mkPathsConfig (of_string "data") (of_string "logs").
Definition CaptureConfig_default : CaptureConfig := mkCaptureConfig false [] 65535 true None None.
Definition DecodeConfig_default : DecodeConfig := mkDecodeConfig true.
Definition FlowConfig_default : FlowConfig := mkFlowConfig 65536 300 true.
Definition NormalizeConfig_default : NormalizeConfig := mkNormalizeConfig 2 true false.
Definition DetectConfig_default : DetectConfig :=
  mkDetectConfig true (Z.shiftl 1 20) (Z.shiftl 1 20) 65536 64 (Z.shiftl 64 10) 65536.
Definition RulesConfig_default : RulesConfig := mkRulesConfig (of_string "rules") [of_string "cybersentinel.rules"].
Definition OutputsConfig_default : OutputsConfig := mkOutputsConfig true true (of_string "events.json") false false None.
Definition LoggingConfig_default : LoggingConfig := mkLoggingConfig (of_string "info") 8192.
Definition StatsConfig_default : StatsConfig := mkStatsConfig true 30.
Definition PreventConfig_default : PreventConfig :=
  mkPreventConfig false (of_string "detect") (of_string "open") 0 1024 [] 600 65536 16384.
Definition FimConfig_default : FimConfig :=
  mkFimConfig true
    [of_string "/etc"; of_string "/usr/bin"; of_string "/usr/sbin"; of_string "/bin"; of_string "/sbin"]
    (of_string "fim-baseline.db") 3600 (64 * 1024 * 1024) 16 50000.
Definition AuthConfig_default : AuthConfig :=
  mkAuthConfig true true [of_string "/var/log/auth.log"; of_string "/var/log/secure"].
Definition ProcessConfig_default : ProcessConfig := mkProcessConfig true (of_string "/proc") 5 16384 8192.
Definition HidsConfig_default : HidsConfig :=
  mkHidsConfig true FimConfig_default AuthConfig_default ProcessConfig_default.
Definition CorrelationConfig_default : CorrelationConfig := mkCorrelationConfig true 120 300 1024 256.

Definition Config_default : Config :=
  mkConfig (mkSensorConfig None) PathsConfig_default (mkVarsConfig ∅ ∅) CaptureConfig_default DecodeConfig_default
    FlowConfig_default ReassemblyConfig_default NormalizeConfig_default DetectConfig_default RulesConfig_default
    HidsConfig_default CorrelationConfig_default PreventConfig_default OutputsConfig_default LoggingConfig_default
    StatsConfig_default None false.

(** ** Paths *)

Definition is_relative (p : text) : bool := negb (starts_with p [47]).

(** [Path::join]: an absolute path replaces the base; otherwise a separator is put between them unless
    the base is empty or ends in one. *)
Definition join_path (base p : text) : text :=
  if is_relative p then
    match last base with
    | Some c => if c =? 47 then base ++ p else base ++ [47] ++ p
    | None => p
    end
  else p.

(** [if path.is_relative() { path = base.join(path) }]. *)
Definition under (base p : text) : text := if is_relative p then join_path base p else p.

Definition resolve_outputs (base : text) (o : OutputsConfig) : OutputsConfig :=
  mkOutputsConfig (stdout_enabled o) (file_enabled o) (under base (file_path o)) (syslog_enabled o) (webhook_enabled o)
    (webhook_url o).

Definition resolve_rules (r : RulesConfig) : RulesConfig :=
  mkRulesConfig (directory r) (under (directory r) <$> rule_files r).

Definition resolve_hids (base : text) (h : HidsConfig) : HidsConfig :=
  let f := fim h in
  mkHidsConfig (hids_enabled h)
    (mkFimConfig (fim_enabled f) (fim_paths f) (under base (baseline f)) (rescan_interval_secs f) (max_file_bytes f)
       (max_depth f) (max_entries f))
    (auth h) (process h).

(** [Config::resolve_paths]. *)
Definition resolve_paths (c : Config) : Config :=
  if paths_resolved c then c
  else
    mkConfig (sensor c) (paths c) (vars c) (capture c) (decode c) (flow c) (reassembly c) (normalize c) (detect c)
      (resolve_rules (rules c)) (resolve_hids (data_dir (paths c)) (hids c)) (correlation c) (prevent c)
      (resolve_outputs (log_dir (paths c)) (outputs c)) (logging c) (stats c) (source_path c) true.

(** ** Validation *)

(** The [Error::ConfigInvalid] values, by the key they name. *)
Inductive Invalid :=
| QueueCapacity | StatsInterval | OutputPath | WebhookUrl | Snaplen | MaxFlows | FlowTimeout
| Reassembly (e : ConfigInvalid)
| FimRescanInterval | FimMaxEntries | ProcessInterval
| PreventMode (got : text) | PreventFailMode (got : text) | AllowListEntry (entry : text) | SourceBlockSecs
| CorrelationWindow | InspectionWindow | MaxFlowStates | DecodeRounds
| LogLevel (got : text).

Definition is_one_of (names : list text) (t : text) : bool := bool_decide (t ∈ names).

Definition MODES : list text := [of_string "detect"; of_string "prevent"].
Definition FAIL_MODES : list text := [of_string "open"; of_string "closed"].
Definition LEVELS : list text :=
  [of_string "error"; of_string "warn"; of_string "info"; of_string "debug"; of_string "trace"].

(** The loop over the allow-list. *)
Fixpoint check_allow_list (entries : list text) : Invalid + unit :=
  match entries with
  | [] => inr tt
  | e :: entries' => match from_str e with inl _ => inl (AllowListEntry e) | inr _ => check_allow_list entries' end
  end.

(** [Config::check]. *)
Definition check_config (c : Config) : Invalid + unit :=
  refuse (queue_capacity (logging c) =? 0) QueueCapacity ≫= fun _ =>
  refuse (stats_enabled (stats c) && (stats_interval_secs (stats c) =? 0)) StatsInterval ≫= fun _ =>
  refuse (file_enabled (outputs c) && bool_decide (file_path (outputs c) = [])) OutputPath ≫= fun _ =>
  refuse (webhook_enabled (outputs c) && bool_decide (webhook_url (outputs c) = None)) WebhookUrl ≫= fun _ =>
  refuse (snaplen (capture c) =? 0) Snaplen ≫= fun _ =>
  refuse (max_flows (flow c) =? 0) MaxFlows ≫= fun _ =>
  refuse (timeout_secs (flow c) =? 0) FlowTimeout ≫= fun _ =>
  map_err Reassembly (check (reassembly c)) ≫= fun _ =>
  refuse (fim_enabled (fim (hids c)) && (rescan_interval_secs (fim (hids c)) =? 0)) FimRescanInterval ≫= fun _ =>
  refuse (fim_enabled (fim (hids c)) && (max_entries (fim (hids c)) =? 0)) FimMaxEntries ≫= fun _ =>
  refuse (process_enabled (process (hids c)) && (process_interval_secs (process (hids c)) =? 0)) ProcessInterval ≫= fun _ =>
  refuse (negb (is_one_of MODES (prevent_mode (prevent c)))) (PreventMode (prevent_mode (prevent c))) ≫= fun _ =>
  refuse (negb (is_one_of FAIL_MODES (prevent_fail_mode (prevent c)))) (PreventFailMode (prevent_fail_mode (prevent c)))
    ≫= fun _ =>
  check_allow_list (allow_list (prevent c)) ≫= fun _ =>
  refuse (prevent_enabled (prevent c) && (source_block_secs (prevent c) =? 0)) SourceBlockSecs ≫= fun _ =>
  refuse (correlation_enabled (correlation c) && (window_secs (correlation c) =? 0)) CorrelationWindow ≫= fun _ =>
  refuse (inspection_window (detect c) =? 0) InspectionWindow ≫= fun _ =>
  refuse (max_flow_states (detect c) =? 0) MaxFlowStates ≫= fun _ =>
  refuse (8 <? decode_rounds (normalize c)) DecodeRounds ≫= fun _ =>
  let lowered := to_ascii_lowercase <$> level (logging c) in
  refuse (negb (is_one_of LEVELS lowered)) (LogLevel lowered).

(** ** Warnings *)

Inductive Warning :=
| NoOutputs | NoRuleFiles | NoHomeNet | SyslogNotImplemented | WebhookNotImplemented
| SmallSnaplen (snaplen : Z) | FilterSet | DetectionOff | ManyInterfaces (count : Z).

Definition warn_if (condition : bool) (w : Warning) : list Warning := if condition then [w] else [].

(** [Config::warnings]. *)
Definition warnings (c : Config) : list Warning :=
  let o := outputs c in
  warn_if (negb (stdout_enabled o) && negb (file_enabled o) && negb (syslog_enabled o) && negb (webhook_enabled o)) NoOutputs ++
  warn_if (bool_decide (rule_files (rules c) = [])) NoRuleFiles ++
  warn_if (bool_decide (address_groups (vars c) !! of_string "HOME_NET" = None)) NoHomeNet ++
  warn_if (syslog_enabled o) SyslogNotImplemented ++
  warn_if (webhook_enabled o) WebhookNotImplemented ++
  warn_if (snaplen (capture c) <? 1518) (SmallSnaplen (snaplen (capture c))) ++
  warn_if (bool_decide (bpf_filter (capture c) <> None)) FilterSet ++
  warn_if (negb (detect_enabled (detect c))) DetectionOff ++
  warn_if (1 <? len (interfaces (capture c))) (ManyInterfaces (len (interfaces (capture c)))).

(** [Config::sensor_id_path]. *)
Definition sensor_id_path (c : Config) : text := join_path (data_dir (paths c)) (of_string "sensor-id").

(** ** Loading *)

(** [Error], with the underlying error as its text. *)
Inductive Error :=
| Io (path source : text)
| ConfigParse (path source : text)
| InvalidConfig (e : Invalid).

(** [Config::from_yaml]; [from_text] is [serde_yaml::from_str]. *)
Definition from_yaml (from_text : text -> text + Config) (t : text) : text + Config :=
  if bool_decide (trim t = []) then inr Config_default else from_text t.

Definition set_source_path (c : Config) (path : text) : Config :=
  mkConfig (sensor c) (paths c) (vars c) (capture c) (decode c) (flow c) (reassembly c) (normalize c) (detect c)
    (rules c) (hids c) (correlation c) (prevent c) (outputs c) (logging c) (stats c) (Some path) (paths_resolved c).

(** [Config::load]; [read] is [std::fs::read_to_string]. *)
Definition load (read : text -> text + text) (from_text : text -> text + Config) (path : text) : Error + Config :=
  t ← map_err (Io path) (read path);
  c ← map_err (ConfigParse path) (from_yaml from_text t);
  let c := resolve_paths (set_source_path c path) in
  _ ← map_err InvalidConfig (check_config c);
  mret c.

(** ** What a configuration guarantees *)

(** Every number is inside the range of its type, [usize] being 64 bits wide: what deserialization into
    the typed fields gives. *)
Record config_typed (c : Config) : Prop := {
  ct_flow : in_u64 (max_flows (flow c)) /\ in_u64 (timeout_secs (flow c));
  ct_reassembly : in_u64 (max_fragment_sets (reassembly c)) /\ in_u64 (max_fragment_bytes_total (reassembly c)) /\
    in_u64 (fragment_timeout_secs (reassembly c)) /\ in_u64 (max_stream_bytes_per_flow (reassembly c)) /\
    in_u64 (max_stream_bytes_total (reassembly c)) /\ in_u64 (delivery_flush_bytes (reassembly c));
  ct_detect : in_u64 (regex_size_limit (detect c)) /\ in_u64 (regex_dfa_size_limit (detect c)) /\
    in_u64 (max_flow_states (detect c)) /\ in_u64 (max_flowbits_per_flow (detect c)) /\
    in_u64 (inspection_window (detect c)) /\ in_u64 (max_threshold_entries (detect c));
  ct_prevent : in_u16 (queue (prevent c)) /\ in_u32 (queue_length (prevent c)) /\ in_u64 (source_block_secs (prevent c)) /\
    in_u64 (max_blocked_flows (prevent c)) /\ in_u64 (max_blocked_sources (prevent c));
  ct_correlation : in_u64 (window_secs (correlation c)) /\ in_u64 (cooldown_secs (correlation c)) /\
    in_u64 (correlation_max_hosts (correlation c)) /\ in_u64 (correlation_max_per_host (correlation c));
  ct_hids : in_u64 (rescan_interval_secs (fim (hids c))) /\ in_u64 (max_file_bytes (fim (hids c))) /\
    in_u64 (max_depth (fim (hids c))) /\ in_u64 (max_entries (fim (hids c))) /\
    in_u64 (process_interval_secs (process (hids c))) /\ in_u64 (max_processes (process (hids c))) /\
    in_u64 (max_sockets (process (hids c)));
  ct_capture : in_u32 (snaplen (capture c)) /\
    match buffer_size_bytes (capture c) with Some n => -2147483648 <= n <= 2147483647 | None => True end;
  ct_rest : in_u64 (queue_capacity (logging c)) /\ in_u64 (stats_interval_secs (stats c)) /\ in_u64 (decode_rounds (normalize c))
}.

(** What the components need of a configuration they are built from. *)
Record config_valid (c : Config) : Prop := {
  cv_queue : 1 <= queue_capacity (logging c);
  cv_stats : stats_enabled (stats c) = true -> 1 <= stats_interval_secs (stats c);
  cv_file : file_enabled (outputs c) = true -> file_path (outputs c) <> [];
  cv_webhook : webhook_enabled (outputs c) = true -> is_Some (webhook_url (outputs c));
  cv_snaplen : 1 <= snaplen (capture c);
  cv_flow : 1 <= max_flows (flow c) /\ 1 <= timeout_secs (flow c);
  cv_fragments : 1 <= max_fragment_sets (reassembly c) /\ 1 <= fragment_timeout_secs (reassembly c);
  cv_streams : 1 <= delivery_flush_bytes (reassembly c) <= max_stream_bytes_per_flow (reassembly c) /\
    max_stream_bytes_per_flow (reassembly c) <= max_stream_bytes_total (reassembly c);
  cv_policies : NoDup (hp_network <$> host_policies (reassembly c));
  cv_fim : fim_enabled (fim (hids c)) = true ->
    1 <= rescan_interval_secs (fim (hids c)) /\ 1 <= max_entries (fim (hids c));
  cv_process : process_enabled (process (hids c)) = true -> 1 <= process_interval_secs (process (hids c));
  cv_mode : prevent_mode (prevent c) ∈ MODES;
  cv_fail_mode : prevent_fail_mode (prevent c) ∈ FAIL_MODES;
  cv_allow_list : Forall (fun e => is_Some (match from_str e with inr n => Some n | inl _ => None end)) (allow_list (prevent c));
  cv_block : prevent_enabled (prevent c) = true -> 1 <= source_block_secs (prevent c);
  cv_window : correlation_enabled (correlation c) = true -> 1 <= window_secs (correlation c);
  cv_detect : 1 <= inspection_window (detect c) /\ 1 <= max_flow_states (detect c);
  cv_rounds : decode_rounds (normalize c) <= 8;
  cv_level : to_ascii_lowercase <$> level (logging c) ∈ LEVELS
}.

Lemma unit_bind_ok {E : Type} (m : E + unit) (f : unit -> E + unit) : m ≫= f = inr tt <-> m = inr tt /\ f tt = inr tt.
Proof. rewrite bind_ok. split; [by intros ([] & H)|eauto]. Qed.

Lemma check_allow_list_ok entries :
  check_allow_list entries = inr tt <->
  Forall (fun e => is_Some (match from_str e with inr n => Some n | inl _ => None end)) entries.
Proof.
  induction entries as [|e entries IH]; [done|]. cbn [check_allow_list]. rewrite Forall_cons, <- IH.
  destruct (from_str e); [|by naive_solver eauto]. split; [done|]. by intros [[? [=]] _].
Qed.

Lemma guarded (b : bool) (P : Prop) : b = false \/ P <-> (b = true -> P).
Proof. destruct b; naive_solver. Qed.

(** Use every condition under the flag that guards the goal. *)
Ltac by_guard :=
  let He := fresh in intros He;
  repeat match goal with Hi : ?b = true -> _ |- _ => first [specialize (Hi He)|clear Hi] end;
  first [lia|done|by apply not_eq_None_Some].

(** What the validation accepts. *)
Lemma check_config_spec c : config_typed c -> (check_config c = inr tt <-> config_valid c).
Proof.
  intros []. unfold in_u64, in_u32, in_u16 in *. unfold check_config. repeat (rewrite unit_bind_ok; cbv beta).
  rewrite !refuse_ok, map_err_ok, check_allow_list_ok, check_iff by tauto.
  rewrite !andb_false_iff, !negb_false_iff, !Z.eqb_neq, !Z.ltb_ge. unfold is_one_of. rewrite !bool_decide_eq_true, !bool_decide_eq_false.
  rewrite !guarded. split.
  - intros (? & ? & ? & Hw & ? & ? & ? & (? & ? & ? & ? & ?) & ? & ? & ? & ? & ? & ? & ? & ? & ? & ? & ? & ?).
    constructor; first [done|lia|by_guard].
  - intros []. split_and!; first [done|lia|by_guard].
Qed.

(** The sensor starts on exactly the configurations it can act on. For a file whose numbers fit
    their types, the validation answers Ok if and only if every condition of [config_valid] holds:
    each bound the components divide, wait or allocate by is at least one, the limits of reassembly
    are ordered, no network has two policies, every entry of the allow-list is a network, and the
    mode, the fail mode and the log level are words of their lists. *)
Theorem check_config_exact c : config_typed c -> (check_config c = inr tt <-> config_valid c).
Proof. apply check_config_spec. Qed.

(** *** Loading *)

Lemma under_absolute base p : is_relative base = false -> is_relative (under base p) = false.
Proof.
  intros Hb. unfold under, join_path. destruct (is_relative p) eqn:Hp; [|done].
  destruct base as [|b base]; [done|]. destruct (last (b :: base)) as [c|] eqn:El; [|by apply last_None in El].
  unfold is_relative in *. cbn in Hb. by destruct (c =? 47).
Qed.

(** The resolution of paths touches nothing the validation bounds. *)
Lemma resolve_typed c : config_typed c -> config_typed (resolve_paths c).
Proof. intros []. unfold resolve_paths. destruct (paths_resolved c); by constructor. Qed.

Lemma config_default_typed : config_typed Config_default.
Proof. by constructor. Qed.

(** Every directory a relative path is joined to is absolute. *)
Definition rooted (c : Config) : Prop :=
  is_relative (data_dir (paths c)) = false /\ is_relative (log_dir (paths c)) = false /\
  is_relative (directory (rules c)) = false.

(** A configuration that [load] returns is one the sensor can act on, every condition of
    [config_valid] holds for it, and it does not depend on the working directory: when the
    directories it names are absolute, so are the event file, the baseline and every rule file. *)
Theorem load_gives_usable read from_text path c :
  (forall t c0, from_text t = inr c0 -> config_typed c0 /\ paths_resolved c0 = false) ->
  load read from_text path = inr c ->
  config_valid c /\
  (rooted c ->
   is_relative (file_path (outputs c)) = false /\ is_relative (baseline (fim (hids c))) = false /\
   Forall (fun f => is_relative f = false) (rule_files (rules c))).
Proof.
  intros Hf. unfold load. rewrite bind_ok. intros (t & _ & H). apply bind_ok in H as (c0 & Ey & H).
  apply bind_ok in H as ([] & Ec & H). apply map_err_ok in Ey, Ec. injection H as <-.
  assert (config_typed c0 /\ paths_resolved c0 = false) as [Ht Hr].
  { unfold from_yaml in Ey. case_bool_decide; [|by eapply Hf]. simplify_eq. split; [apply config_default_typed|done]. }
  assert (config_typed (set_source_path c0 path)) as Ht' by (by destruct Ht; constructor).
  split; [by apply check_config_spec; [apply resolve_typed|]|].
  unfold resolve_paths. cbn [paths_resolved set_source_path]. rewrite Hr. intros (Hd & Hlog & Hdir). cbn in *.
  split; [by apply under_absolute|]. split; [by apply under_absolute|]. apply Forall_fmap, Forall_true. intros f. by apply under_absolute.
Qed.

(** A configuration with absolute directories and otherwise the defaults. *)
Definition sample_config : Config :=
  mkConfig (mkSensorConfig None) (mkPathsConfig (of_string "/var/lib/sensor") (of_string "/var/log/sensor"))
    (mkVarsConfig ∅ ∅) CaptureConfig_default DecodeConfig_default FlowConfig_default ReassemblyConfig_default
    NormalizeConfig_default DetectConfig_default (mkRulesConfig (of_string "/etc/rules") [of_string "local.rules"])
    HidsConfig_default CorrelationConfig_default PreventConfig_default OutputsConfig_default LoggingConfig_default
    StatsConfig_default None false.

Lemma check_config_exact_witness : check_config sample_config = inr tt /\ config_valid sample_config.
Proof. split; [reflexivity|]. apply check_config_exact; [by constructor|reflexivity]. Defined.

Lemma load_gives_usable_witness :
  exists c, load (fun _ => inr [123]) (fun _ => inr sample_config) (of_string "config.yaml") = inr c /\ config_valid c /\
    file_path (outputs c) = of_string "/var/log/sensor/events.json".
Proof.
  eexists. split; [reflexivity|]. split; [|reflexivity].
  eapply (load_gives_usable (fun _ => inr [123]) (fun _ => inr sample_config) (of_string "config.yaml")); [|reflexivity].
  intros t c0 [= <-]. split; [by constructor|done].
Defined.

(** The validation refuses an empty path of the event file, but [load] joins the path to the log
    directory first: a file that sets it empty loads, and the events go to the directory itself. *)
Definition pathless_config : Config :=
  mkConfig (mkSensorConfig None) PathsConfig_default (mkVarsConfig ∅ ∅) CaptureConfig_default DecodeConfig_default
    FlowConfig_default ReassemblyConfig_default NormalizeConfig_default DetectConfig_default RulesConfig_default
    HidsConfig_default CorrelationConfig_default PreventConfig_default (mkOutputsConfig true true [] false false None)
    LoggingConfig_default StatsConfig_default None false.

(** A configuration whose event file is enabled and has no path is refused by the validation on
    its own and accepted by [load], which has turned the empty path into the log directory. *)
Theorem empty_output_path_loads :
  check_config pathless_config = inl OutputPath /\
  exists c, load (fun _ => inr [123]) (fun _ => inr pathless_config) (of_string "config.yaml") = inr c /\
    file_enabled (outputs c) = true /\ file_path (outputs c) = of_string "logs/".
Proof. split; [reflexivity|]. eexists. split; [reflexivity|]. split; reflexivity. Qed.
