(* ===== verification/Privileges.v ===== *)
(** Dropping privileges: [crates/capture/src/privileges.rs], and the part of [crates/cli/src/run.rs]
    that decides what is kept and when.

    The kernel's four capability sets of a thread are [CapState]; the [caps] crate is the class [Caps],
    with the rules of capabilities(7) for what setting one of the sets does to the others. The log
    lines are left out. *)

From S2P Require Import Prelude Text Config Settings.

(** The capabilities the sensor names, and the others. *)
Inductive Capability := CAP_DAC_READ_SEARCH | CAP_NET_ADMIN | CAP_NET_RAW | OtherCapability (number : Z).

#[global] Instance Capability_eq_dec : EqDecision Capability.
Proof. solve_decision. Defined.

#[global] Instance Capability_countable : Countable Capability.
Proof.
  apply (inj_countable' (fun c => match c with CAP_DAC_READ_SEARCH => inl 0 | CAP_NET_ADMIN => inl 1 | CAP_NET_RAW => inl 2
      | OtherCapability n => inr n end : Z + Z)
    (fun s => match s with inl 0 => CAP_DAC_READ_SEARCH | inl 1 => CAP_NET_ADMIN | inl _ => CAP_NET_RAW | inr n => OtherCapability n end)).
  by intros [].
Defined.

Inductive CapSet := Ambient | Inheritable | Effective | Permitted.

#[global] Instance CapSet_eq_dec : EqDecision CapSet.
Proof. solve_decision. Defined.

Record CapState := mkCapState {
  cap_ambient : gset Capability;
  cap_inheritable : gset Capability;
  cap_effective : gset Capability;
  cap_permitted : gset Capability
}.

Definition cap_get (s : CapSet) (st : CapState) : gset Capability :=
  match s with
  | Ambient => cap_ambient st | Inheritable => cap_inheritable st | Effective => cap_effective st | Permitted => cap_permitted st
  end.

(** [caps::read] and [caps::set] on the calling thread: [None] is an error, which changes nothing. *)
Class Caps := {
  caps_read : CapState -> option (gset Capability);
  caps_set : CapSet -> gset Capability -> CapState -> option CapState;
  caps_read_permitted st held : caps_read st = Some held -> held = cap_permitted st;
  caps_set_exact s keep st st' : caps_set s keep st = Some st' -> cap_get s st' = keep;
  caps_set_others s keep st st' other :
    caps_set s keep st = Some st' -> other <> s -> other <> Ambient -> cap_get other st' = cap_get other st;
  caps_set_ambient s keep st st' :
    caps_set s keep st = Some st' -> s <> Ambient -> cap_ambient st' = cap_ambient st ∩ cap_permitted st' ∩ cap_inheritable st'
}.

(** [current_uid]: [owner] is what the metadata of [/proc/self] say. *)
Definition current_uid (owner : option Z) : Z := unwrap_or 0 owner.

Record PrivilegeReport := mkPrivilegeReport {
  pv_uid : Z;
  pv_capabilities_dropped : bool;
  pv_running_as_root : bool;
  pv_supported : bool;
  pv_retained : Z
}.

Definition is_overprivileged (r : PrivilegeReport) : bool := pv_running_as_root r.

Section drop.
Context `{Caps}.

(** One set is narrowed: the state, and whether that succeeded. *)
Definition narrow (s : CapSet) (keep : gset Capability) (st : CapState) : CapState * bool :=
  match caps_set s keep st with Some st' => (st', true) | None => (st, false) end.

Definition drop_after_capture_open_retaining (owner : option Z) (retain : list Capability) (st : CapState) :
    CapState * PrivilegeReport :=
  let uid := current_uid owner in
  let held := unwrap_or ∅ (caps_read st) in
  let keep := list_to_set (filter (fun c => c ∈ held) retain) : gset Capability in
  let '(st, _) := narrow Ambient keep st in
  let '(st, inheritable) := narrow Inheritable keep st in
  let '(st, effective) := narrow Effective keep st in
  let '(st, permitted) := narrow Permitted keep st in
  (st, mkPrivilegeReport uid (inheritable && effective && permitted) (uid =? 0) true (Z.of_nat (size keep))).

Definition drop_after_capture_open (owner : option Z) (st : CapState) : CapState * PrivilegeReport :=
  drop_after_capture_open_retaining owner [] st.

(** The same where the platform has no capabilities. *)
Definition drop_unsupported (owner : option Z) : PrivilegeReport :=
  mkPrivilegeReport (current_uid owner) false (current_uid owner =? 0) false 0.

(** ** When the sensor drops them *)

Definition HOST_READ_CAPABILITY : Capability := CAP_DAC_READ_SEARCH.

Definition retained_capabilities (c : Config) : list Capability :=
  (if hids_enabled (hids c) then [HOST_READ_CAPABILITY] else []) ++
  (if prevent_enabled (prevent c) then [CAP_NET_ADMIN] else []).

Definition drop_privileges (c : Config) (owner : option Z) (st : CapState) : CapState * PrivilegeReport :=
  let retain := retained_capabilities c in
  if bool_decide (retain = []) then drop_after_capture_open owner st
  else drop_after_capture_open_retaining owner retain st.

(** In [run], before any other thread exists: nothing is dropped when there is neither a capture
    source nor a bound queue. *)
Definition settle_privileges (c : Config) (has_source queue_bound : bool) (owner : option Z) (st : CapState) :
    CapState * option PrivilegeReport :=
  if negb has_source && negb queue_bound then (st, None)
  else let '(st, report) := drop_privileges c owner st in (st, Some report).

(** ** What is left *)

Lemma narrow_spec s keep st :
  let '(st', ok) := narrow s keep st in
  if ok then cap_get s st' = keep /\ (forall other, other <> s -> other <> Ambient -> cap_get other st' = cap_get other st) /\
    (s <> Ambient -> cap_ambient st' ⊆ cap_permitted st' ∩ cap_inheritable st')
  else st' = st.
Proof.
  unfold narrow. destruct (caps_set s keep st) as [st'|] eqn:E; [|done]. split_and!.
  - by eapply caps_set_exact.
  - intros other H1 H2. by eapply caps_set_others.
  - intros Hs. rewrite (caps_set_ambient _ _ _ _ E Hs). set_solver.
Qed.

(** The sets after the four calls, when the three that count succeeded. *)
Lemma drop_sets owner retain st st' report :
  drop_after_capture_open_retaining owner retain st = (st', report) -> pv_capabilities_dropped report = true ->
  let keep := list_to_set (filter (fun c => c ∈ unwrap_or ∅ (caps_read st)) retain) : gset Capability in
  cap_permitted st' = keep /\ cap_effective st' = keep /\ cap_inheritable st' = keep /\ cap_ambient st' ⊆ keep.
Proof.
  unfold drop_after_capture_open_retaining. set (keep := list_to_set _). intros E Hd.
  destruct (narrow Ambient keep st) as [st1 ok1]. pose proof (narrow_spec Inheritable keep st1) as N2.
  destruct (narrow Inheritable keep st1) as [st2 ok2]. pose proof (narrow_spec Effective keep st2) as N3.
  destruct (narrow Effective keep st2) as [st3 ok3]. pose proof (narrow_spec Permitted keep st3) as N4.
  destruct (narrow Permitted keep st3) as [st4 ok4]. injection E as <- <-. cbn in Hd.
  destruct ok2, ok3, ok4; try discriminate Hd. destruct N2 as (G2 & _ & _), N3 as (G3 & O3 & _), N4 as (G4 & O4 & A4).
  cbn in G2, G3, G4. specialize (A4 ltac:(done)).
  pose proof (O4 Effective ltac:(done) ltac:(done)) as Q1. pose proof (O4 Inheritable ltac:(done) ltac:(done)) as Q2.
  pose proof (O3 Inheritable ltac:(done) ltac:(done)) as Q3. cbn in Q1, Q2, Q3.
  split_and!; [done|congruence|congruence|]. rewrite G4 in A4. set_solver.
Qed.

(** C16: least privilege. When the sensor captures or enforces and the drop is reported as done, then what is left is exactly those capabilities that the process read as permitted to it and that the configuration has a use for, the capability to read files it does not own with host monitoring enabled and the one to administer the network with prevention enabled: these are the permitted, the effective and the inheritable set, and the ambient set holds nothing else. The report counts them, and says of a process of root or of an owner that cannot be read, and only of one, that it holds more than it needs. *)
Theorem least_privilege c has_source queue_bound owner st st' report :
  has_source || queue_bound = true -> settle_privileges c has_source queue_bound owner st = (st', Some report) ->
  pv_capabilities_dropped report = true ->
  (forall cap, cap ∈ cap_permitted st' <-> is_Some (caps_read st) /\ cap ∈ cap_permitted st /\
     ((cap = CAP_DAC_READ_SEARCH /\ hids_enabled (hids c) = true) \/ (cap = CAP_NET_ADMIN /\ prevent_enabled (prevent c) = true))) /\
  cap_effective st' = cap_permitted st' /\ cap_inheritable st' = cap_permitted st' /\ cap_ambient st' ⊆ cap_permitted st' /\
  pv_retained report = Z.of_nat (size (cap_permitted st')) /\ (is_overprivileged report = true <-> unwrap_or 0 owner = 0).
Proof.
  intros Hs E Hd. unfold settle_privileges in E. assert (negb has_source && negb queue_bound = false) as Hn by (by destruct has_source, queue_bound).
  rewrite Hn in E. destruct (drop_privileges c owner st) as [st1 report1] eqn:Ed. injection E as -> ->.
  assert (drop_after_capture_open_retaining owner (retained_capabilities c) st = (st', report)) as Er.
  { unfold drop_privileges in Ed. case_bool_decide as Hr; [by rewrite Hr|done]. }
  destruct (drop_sets _ _ _ _ _ Er Hd) as (P1 & P2 & P3 & P4).
  set (keep := list_to_set _ : gset Capability) in *.
  assert (forall cap, cap ∈ keep <-> cap ∈ unwrap_or ∅ (caps_read st) /\ cap ∈ retained_capabilities c) as Hk.
  { intros cap. unfold keep. by rewrite elem_of_list_to_set, list_elem_of_filter. }
  assert (forall cap, cap ∈ unwrap_or ∅ (caps_read st) <-> is_Some (caps_read st) /\ cap ∈ cap_permitted st) as Hheld.
  { intros cap. destruct (caps_read st) as [held|] eqn:Eh; [apply caps_read_permitted in Eh as ->; cbn; naive_solver|].
    cbn. split; [set_solver|by intros [[? [=]] _]]. }
  assert (forall cap, cap ∈ retained_capabilities c <->
    (cap = CAP_DAC_READ_SEARCH /\ hids_enabled (hids c) = true) \/ (cap = CAP_NET_ADMIN /\ prevent_enabled (prevent c) = true)) as Hret.
  { intros cap. unfold retained_capabilities, HOST_READ_CAPABILITY. rewrite elem_of_app.
    destruct (hids_enabled _), (prevent_enabled _); set_solver. }
  assert (pv_retained report = Z.of_nat (size keep) /\ is_overprivileged report = (current_uid owner =? 0)) as [R1 R2].
  { unfold drop_after_capture_open_retaining in Er. repeat (destruct (narrow _ _ _) in Er). by injection Er as _ <-. }
  rewrite P1, P2, P3, R2. split_and!; try done.
  - intros cap. rewrite Hk, Hheld, Hret. tauto.
  - by rewrite Z.eqb_eq.
Qed.

(** A sensor that only watches its host drops nothing: with host monitoring enabled, no capture and no
    queue, every capability it was started with is still there afterwards. *)
Theorem host_only_keeps_capabilities c owner st :
  settle_privileges c false false owner st = (st, None).
Proof. reflexivity. Qed.
End drop.

(** ** The hypotheses can hold *)

Definition cap_put (s : CapSet) (keep : gset Capability) (st : CapState) : CapState :=
  let '(mkCapState a i e p) := st in
  match s with
  | Ambient => mkCapState keep i e p
  | Inheritable => mkCapState (a ∩ p ∩ keep) keep e p
  | Effective => mkCapState (a ∩ p ∩ i) i keep p
  | Permitted => mkCapState (a ∩ keep ∩ i) i e keep
  end.

(** The rules of the kernel for a process that may not add to its sets. *)
Definition cap_allowed (s : CapSet) (keep : gset Capability) (st : CapState) : bool :=
  match s with
  | Ambient => bool_decide (keep ⊆ cap_permitted st ∩ cap_inheritable st)
  | Inheritable => bool_decide (keep ⊆ cap_inheritable st ∪ cap_permitted st)
  | Effective => bool_decide (keep ⊆ cap_permitted st)
  | Permitted => bool_decide (keep ⊆ cap_permitted st) && bool_decide (cap_effective st ⊆ keep)
  end.

#[local] Program Instance kernel_caps : Caps := {|
  caps_read st := Some (cap_permitted st);
  caps_set s keep st := if cap_allowed s keep st then Some (cap_put s keep st) else None
|}.
Next Obligation. by intros st held [= <-]. Qed.
Next Obligation. intros s keep [a i e p] st' E. cbn in E. destruct (cap_allowed _ _ _); [|done]. injection E as <-. by destruct s. Qed.
Next Obligation.
  intros s keep [a i e p] st' other E H1 H2. cbn in E. destruct (cap_allowed _ _ _); [|done]. injection E as <-. by destruct s, other.
Qed.
Next Obligation.
  intros s keep [a i e p] st' E Hs. cbn in E. destruct (cap_allowed _ _ _); [|done]. injection E as <-. by destruct s.
Qed.

Definition service_caps : CapState :=
  let all := {[CAP_DAC_READ_SEARCH; CAP_NET_ADMIN; CAP_NET_RAW; OtherCapability 21]} in mkCapState ∅ ∅ all all.

Lemma least_privilege_witness :
  exists st' report, settle_privileges Config_default true false (Some 990) service_caps = (st', Some report) /\
    CAP_NET_RAW ∉ cap_permitted st' /\ pv_capabilities_dropped report = true.
Proof.
  destruct (settle_privileges Config_default true false (Some 990) service_caps) as [st' report] eqn:E.
  destruct report as [report|]; [|discriminate E]. exists st', report.
  assert (pv_capabilities_dropped report = true) as Hd by (injection E as <- <-; vm_compute; reflexivity).
  destruct (least_privilege Config_default true false (Some 990) service_caps st' report eq_refl E Hd) as (H1 & _).
  split; [reflexivity|]. split; [|exact Hd]. intros Hin. destruct (proj1 (H1 CAP_NET_RAW) Hin) as (_ & _ & [[E1 _]|[E1 _]]); discriminate E1.
Defined.
