(* ===== verification/Identity.v ===== *)
(** The identity of the sensor: [crates/common/src/sensor.rs].

    The id file is its text, or [None] when it cannot be read. The [uuid] crate is the class [Uuid]:
    which texts it reads as one, and that an id it makes is such a text and holds no blank. A start
    brings the id that the generator would make, whether the directories could be created, and what
    becomes of a write: it succeeds, or fails and leaves anything at all in the file. *)

From S2P Require Import Prelude Text Config Settings.

Class Uuid := {
  uuid_parses : text -> bool;
  new_v4 : Z -> text;
  new_v4_parses seed : uuid_parses (new_v4 seed) = true;
  new_v4_clean seed : no_whitespace (new_v4 seed)
}.

Section identity.
Context `{Uuid}.

Definition host_name (raw : text) : text :=
  let name := trim raw in
  if bool_decide (name = []) then of_string "unknown-host" else name.

Record Start := mkStart {
  st_seed : Z;
  st_dirs : bool;
  st_write : option text + unit
}.

(** [load_or_create_id]: the file afterwards, and the id or an I/O error. *)
Definition load_or_create_id (s : Start) (file : option text) : option text * option text :=
  let fresh :=
    let id := new_v4 (st_seed s) in
    if negb (st_dirs s) then (file, None)
    else match st_write s with
         | inr _ => (Some (id ++ [10]), Some id)
         | inl left_behind => (left_behind, None)
         end in
  match file with
  | Some existing =>
      let trimmed := trim existing in
      if uuid_parses trimmed then (file, Some trimmed) else fresh
  | None => fresh
  end.

(** [resolve]: the name and the id. *)
Definition resolve (c : Config) (raw_host : text) (s : Start) (file : option text) : option text * option (text * text) :=
  let name := unwrap_or (host_name raw_host) (sensor_name (Settings.sensor c)) in
  let '(file, id) := load_or_create_id s file in
  (file, (fun id => (name, id)) <$> id).

(** One start after the other. *)
Fixpoint starts (l : list Start) (file : option text) : option text * list (option text) :=
  match l with
  | [] => (file, [])
  | s :: l' =>
      let '(file, id) := load_or_create_id s file in
      let '(file, ids) := starts l' file in (file, id :: ids)
  end.

Lemma host_name_nonempty raw : host_name raw <> [].
Proof. unfold host_name. case_bool_decide; [discriminate|done]. Qed.

Lemma trim_new_line id : no_whitespace id -> trim (id ++ [10]) = id.
Proof.
  intros Hi. unfold trim. destruct id as [|c id]; [done|]. pose proof Hi as Hc%Forall_inv. cbn [app]. rewrite trim_start_id by done.
  rewrite app_comm_cons, reverse_app. cbn [reverse app]. change (reverse [10] ++ reverse (c :: id)) with (10 :: reverse (c :: id)).
  cbn [trim_start]. change (is_whitespace 10) with true. cbn [trim_start].
  rewrite trim_start_none by (by apply Forall_reverse). by rewrite reverse_involutive.
Qed.

(** The id that the file gives to every start. *)
Definition settled (file : option text) (id : text) : Prop :=
  exists existing, file = Some existing /\ trim existing = id /\ uuid_parses id = true.

Lemma settled_start s file id : settled file id -> load_or_create_id s file = (file, Some id).
Proof. intros (existing & -> & E & Hu). unfold load_or_create_id. by rewrite E, Hu. Qed.

Lemma load_or_create_settles s file file' id : load_or_create_id s file = (file', Some id) -> settled file' id.
Proof.
  unfold load_or_create_id. set (fresh := if _ : bool then _ else _).
  assert (fresh = (file', Some id) -> settled file' id) as Hf.
  { unfold fresh. destruct (negb (st_dirs s)); [done|]. destruct (st_write s) as [|[]]; [done|]. intros [= <- <-].
    eexists. split; [done|]. split; [apply trim_new_line, new_v4_clean|apply new_v4_parses]. }
  destruct file as [existing|]; [|done]. destruct (uuid_parses (trim existing)) eqn:Eu; [|done]. intros [= <- <-]. by exists existing.
Qed.

(** A sensor keeps its identity. Over any number of starts, whatever the file held at first, whether directories and writes fail and whatever a failed write leaves behind, every start that gets an id gets the same one, a well-formed one, and once there is one no later start fails. *)
Theorem sensor_id_is_stable l file file' ids :
  starts l file = (file', ids) ->
  exists id, Forall (fun got => got = None \/ got = Some id) ids /\
    (forall i j, ids !! i = Some (Some id) -> (i <= j < length ids)%nat -> ids !! j = Some (Some id)) /\
    (Some id ∈ ids -> uuid_parses id = true).
Proof.
  revert file ids. induction l as [|s l IH]; intros file ids E; cbn [starts] in E.
  - injection E as <- <-. exists []. split_and!; [constructor|done|]. intros Hin. by apply not_elem_of_nil in Hin.
  - destruct (load_or_create_id s file) as [file1 got] eqn:E1. destruct (starts l file1) as [file2 ids2] eqn:E2. injection E as <- <-.
    destruct got as [id|]; cycle 1.
    + destruct (IH _ _ E2) as (id & H1 & H2 & H3). exists id. split_and!.
      * constructor; [by left|done].
      * intros [|i] [|j] Hi Hj; cbn in *; try done; [lia|]. apply (H2 i); [done|lia].
      * intros Hin. apply H3. by apply elem_of_cons in Hin as [|].
    + exists id. apply load_or_create_settles in E1 as Hs.
      assert (forall l file2 ids2, starts l file1 = (file2, ids2) -> Forall (fun got => got = Some id) ids2) as Hall.
      { clear -Hs. induction l as [|s l IH]; intros file2 ids2 E; cbn [starts] in E; [by injection E as <- <-|].
        rewrite (settled_start s file1 id Hs) in E. destruct (starts l file1) as [file3 ids3] eqn:E3. injection E as <- <-.
        constructor; [done|]. by eapply IH. }
      apply Hall in E2 as H2. split_and!.
      * constructor; [by right|]. eapply Forall_impl; [exact H2|]. auto.
      * intros i [|j] _ Hj; [done|]. cbn [length] in Hj. destruct (lookup_lt_is_Some_2 ids2 j) as [x Hx]; [lia|].
        change (ids2 !! j = Some (Some id)). rewrite Hx. f_equal. exact (Forall_lookup_1 _ _ _ _ H2 Hx).
      * by destruct Hs as (_ & _ & _ & ?).
Qed.
End identity.

(** ** The hypotheses can hold *)

#[local] Program Instance toy_uuid : Uuid := {|
  uuid_parses t := bool_decide (t <> []) && forallb is_ascii_digit t;
  new_v4 seed := [48 + seed mod 10]
|}.
Next Obligation.
  intros seed. cbn. pose proof (Z.mod_pos_bound seed 10 eq_refl). unfold is_ascii_digit. rewrite (proj2 (Z.leb_le _ _)), (proj2 (Z.leb_le _ _)) by lia. done.
Qed.
Next Obligation.
  intros seed. repeat constructor. pose proof (Z.mod_pos_bound seed 10 eq_refl). unfold is_whitespace.
  repeat (apply orb_false_iff; split); first [apply Z.eqb_neq; lia|apply andb_false_iff; lia].
Qed.

Definition rough_starts : list Start := [mkStart 3 false (inr tt); mkStart 4 true (inl (Some [120])); mkStart 5 true (inr tt); mkStart 6 false (inl None)].

Lemma sensor_id_is_stable_witness :
  exists file ids id, starts rough_starts None = (file, ids) /\ ids = [None; None; Some [53]; Some [53]] /\
    Forall (fun got => got = None \/ got = Some id) ids.
Proof.
  destruct (starts rough_starts None) as [file ids] eqn:E. destruct (sensor_id_is_stable rough_starts None file ids E) as (id & H1 & _).
  exists file, ids, id. split; [reflexivity|]. split; [|exact H1]. vm_compute in E. injection E as _ <-. reflexivity.
Defined.
