(* ===== verification/RangeBuffer.v ===== *)
(** The bounded byte buffer addressed by absolute offset:
    [crates/reassembly/src/range_buffer.rs].

    The record and the operations follow the source; an indexing expression that would panic makes
    the operation return [None]. The abstract view of a buffer is the partial function [byte_at]
    from absolute offsets to bytes; [write_spec] says what a write does to it under each overlap
    policy, [mark_covered_spec] and [consume_spec] say that the coverage list keeps describing it,
    and [rb_wf] is the invariant every operation preserves. *)

From S2P Require Import Prelude Config.

Record WriteOutcome := mkWriteOutcome {
  accepted : Z;
  overlapped : Z;
  conflicting : Z;
  replaced : Z;
  refused : Z;
  before_window : Z
}.

Definition WriteOutcome_default : WriteOutcome := mkWriteOutcome 0 0 0 0 0 0.

Definition lost_data (o : WriteOutcome) : bool := 0 <? refused o.

(** [Range<u64>]: start and end. *)
Abbreviation Range := (Z * Z)%type.

Record RangeBuffer := mkRangeBuffer {
  rb_base : Z;
  rb_data : list Z;
  rb_covered : list Range;
  rb_byte_limit : Z;
  rb_range_limit : Z
}.

Definition with_data (b : RangeBuffer) (d : list Z) : RangeBuffer :=
  mkRangeBuffer (rb_base b) d (rb_covered b) (rb_byte_limit b) (rb_range_limit b).

Definition with_covered (b : RangeBuffer) (c : list Range) : RangeBuffer :=
  mkRangeBuffer (rb_base b) (rb_data b) c (rb_byte_limit b) (rb_range_limit b).

Definition new (base byte_limit range_limit : Z) : RangeBuffer :=
  mkRangeBuffer base [] [] (Z.max byte_limit 1) (Z.max range_limit 1).

Definition buffered_bytes (b : RangeBuffer) : Z :=
  zsum ((fun r => r.2 - r.1) <$> rb_covered b).

Definition range_count (b : RangeBuffer) : Z := len (rb_covered b).

Definition is_empty (b : RangeBuffer) : bool :=
  match rb_covered b with [] => true | _ => false end.

Definition contiguous_end (b : RangeBuffer) : Z :=
  match rb_covered b with
  | first :: _ => if first.1 =? rb_base b then first.2 else rb_base b
  | [] => rb_base b
  end.

Definition covered_end (b : RangeBuffer) : Z :=
  match last (rb_covered b) with Some r => r.2 | None => rb_base b end.

Definition copy_in (b : RangeBuffer) (from to write_offset : Z) (bytes : list Z) :
    option RangeBuffer :=
  src ← slice bytes (from - write_offset) (to - write_offset);
  d ← copy_from_slice (rb_data b) (from - rb_base b) (to - rb_base b) src;
  Some (with_data b d).

Definition count_differing (b : RangeBuffer) (from to write_offset : Z) (bytes : list Z) :
    option Z :=
  target ← slice (rb_data b) (from - rb_base b) (to - rb_base b);
  src ← slice bytes (from - write_offset) (to - write_offset);
  Some (len (filter (fun p => p.1 <> p.2) (zip target src))).

Definition touches_existing (b : RangeBuffer) (start end_ : Z) : bool :=
  existsb (fun r => (start <=? r.2) && (r.1 <=? end_)) (rb_covered b).

(** The loop of [mark_covered]: what it pushes for the ranges still to be drained, given the
    range absorbed so far and whether it has been pushed. *)
Fixpoint mark_loop (rs : list Range) (merged : Range) (inserted : bool) : list Range :=
  match rs with
  | [] => if inserted then [] else [merged]
  | r :: rs' =>
      if r.2 <? merged.1 then r :: mark_loop rs' merged inserted
      else if merged.2 <? r.1 then
        (if inserted then [] else [merged]) ++ r :: mark_loop rs' merged true
      else mark_loop rs' (Z.min merged.1 r.1, Z.max merged.2 r.2) inserted
  end.

Definition mark_covered (b : RangeBuffer) (start end_ : Z) : RangeBuffer :=
  with_covered b (mark_loop (rb_covered b) (start, end_) false).

Definition add_accepted (o : WriteOutcome) (n : Z) : WriteOutcome :=
  mkWriteOutcome (accepted o + n) (overlapped o) (conflicting o) (replaced o) (refused o)
    (before_window o).

Definition add_overlap (o : WriteOutcome) (n differing repl : Z) : WriteOutcome :=
  mkWriteOutcome (accepted o) (overlapped o + n) (conflicting o + differing) (replaced o + repl)
    (refused o) (before_window o).

(** The uncovered gap before an existing range. *)
Definition fill_gap (b : RangeBuffer) (cursor : Z) (o : WriteOutcome)
    (start end_ offset : Z) (bytes : list Z) : option (RangeBuffer * Z * WriteOutcome) :=
  if cursor <? start then
    let gap_end := Z.min start end_ in
    b' ← copy_in b cursor gap_end offset bytes;
    Some (b', gap_end, add_accepted o (gap_end - cursor))
  else Some (b, cursor, o).

(** The stretch that overlaps an existing range. *)
Definition resolve_overlap (b : RangeBuffer) (cursor : Z) (o : WriteOutcome)
    (overlap_end offset : Z) (bytes : list Z) (policy : OverlapPolicy) :
    option (RangeBuffer * Z * WriteOutcome) :=
  if cursor <? overlap_end then
    differing ← count_differing b cursor overlap_end offset bytes;
    match policy with
    | Last =>
        b' ← copy_in b cursor overlap_end offset bytes;
        Some (b', overlap_end, add_overlap o (overlap_end - cursor) differing differing)
    | First => Some (b, overlap_end, add_overlap o (overlap_end - cursor) differing 0)
    end
  else Some (b, cursor, o).

(** The [for existing in self.covered.clone()] loop of [write]. *)
Fixpoint walk (rs : list Range) (b : RangeBuffer) (cursor : Z) (o : WriteOutcome)
    (end_ offset : Z) (bytes : list Z) (policy : OverlapPolicy) :
    option (RangeBuffer * Z * WriteOutcome) :=
  match rs with
  | [] => Some (b, cursor, o)
  | existing :: rs' =>
      if existing.2 <=? cursor then walk rs' b cursor o end_ offset bytes policy
      else if end_ <=? existing.1 then Some (b, cursor, o)
      else
        '(b1, c1, o1) ← fill_gap b cursor o existing.1 end_ offset bytes;
        '(b2, c2, o2) ← resolve_overlap b1 c1 o1 (Z.min existing.2 end_) offset bytes policy;
        walk rs' b2 c2 o2 end_ offset bytes policy
  end.

(** [if self.data.len() < needed { self.data.resize(needed, 0) }]. *)
Definition grow (b : RangeBuffer) (needed : Z) : RangeBuffer :=
  if len (rb_data b) <? needed then with_data b (resize (rb_data b) needed 0) else b.

(** [write] once the bytes have been trimmed to the window: from the second computation of [end]
    on. [o] holds what trimming already counted. *)
Definition write_window (b : RangeBuffer) (offset : Z) (bytes : list Z) (policy : OverlapPolicy)
    (o : WriteOutcome) : option (RangeBuffer * WriteOutcome) :=
  let end_ := sat_add offset (len bytes) in
  if (rb_range_limit b <=? range_count b) && negb (touches_existing b offset end_) then
    Some (b, mkWriteOutcome (accepted o) (overlapped o) (conflicting o) (replaced o)
               (refused o + len bytes) (before_window o))
  else
    let b := grow b (end_ - rb_base b) in
    '(b1, cursor, o1) ← walk (rb_covered b) b offset o end_ offset bytes policy;
    '(b2, o2) ← (if cursor <? end_ then
                   b' ← copy_in b1 cursor end_ offset bytes;
                   Some (b', add_accepted o1 (end_ - cursor))
                 else Some (b1, o1));
    Some (mark_covered b2 offset end_, o2).

(** [RangeBuffer::write]. *)
Definition write (b : RangeBuffer) (offset : Z) (bytes : list Z) (policy : OverlapPolicy) :
    option (RangeBuffer * WriteOutcome) :=
  if len bytes =? 0 then Some (b, WriteOutcome_default)
  else
    let end_ := sat_add offset (len bytes) in
    if end_ <=? rb_base b then Some (b, mkWriteOutcome 0 0 0 0 0 (len bytes))
    else
      let skip := if offset <? rb_base b then rb_base b - offset else 0 in
      let offset := if offset <? rb_base b then rb_base b else offset in
      bytes ← slice bytes skip (len bytes);
      let window_end := sat_add (rb_base b) (rb_byte_limit b) in
      if window_end <=? offset then Some (b, mkWriteOutcome 0 0 0 0 (len bytes) skip)
      else
        let keep := if window_end <? sat_add offset (len bytes) then window_end - offset
                    else len bytes in
        kept ← slice bytes 0 keep;
        let o := mkWriteOutcome 0 0 0 0 (len bytes - keep) skip in
        if len kept =? 0 then Some (b, o) else write_window b offset kept policy o.

(** [retain_mut] of [consume]: ranges are clipped to the new base and dropped when empty. *)
Definition clip_ranges (base : Z) (rs : list Range) : list Range :=
  filter (fun r => base < r.2) ((fun r => (Z.max r.1 base, r.2)) <$> rs).

Definition consume (b : RangeBuffer) (n : Z) : option RangeBuffer :=
  d ← slice (rb_data b) n (len (rb_data b));
  let base := rb_base b + n in
  Some (mkRangeBuffer base d (clip_ranges base (rb_covered b)) (rb_byte_limit b)
          (rb_range_limit b)).

(** [drain_contiguous_upto]: the buffer, [out] with the bytes appended, and how many moved. *)
Definition drain_contiguous_upto (b : RangeBuffer) (limit : Z) (out : list Z) :
    option (RangeBuffer * list Z * Z) :=
  let end_ := Z.min (contiguous_end b) limit in
  if end_ <=? rb_base b then Some (b, out, 0)
  else
    let n := end_ - rb_base b in
    taken ← slice (rb_data b) 0 n;
    b' ← consume b n;
    Some (b', out ++ taken, n).

Definition drain_contiguous (b : RangeBuffer) (out : list Z) : option (RangeBuffer * list Z * Z) :=
  drain_contiguous_upto b U64_MAX out.

Definition reset (b : RangeBuffer) (base : Z) : RangeBuffer :=
  mkRangeBuffer base [] [] (rb_byte_limit b) (rb_range_limit b).

Definition peek_contiguous (b : RangeBuffer) : option (list Z) :=
  slice (rb_data b) 0 (Z.min (contiguous_end b - rb_base b) (len (rb_data b))).

(** ** The abstract view and the invariant *)

Definition covered_in (rs : list Range) (i : Z) : bool :=
  existsb (fun r => (r.1 <=? i) && (i <? r.2)) rs.

(** The byte a buffer holds at an absolute offset. *)
Definition byte_at (b : RangeBuffer) (i : Z) : option Z :=
  if covered_in (rb_covered b) i then rb_data b !! Z.to_nat (i - rb_base b) else None.

(** Non-empty ranges at or above [lo], in order, with at least one uncovered offset between two
    neighbours. *)
Fixpoint ranges_ok (lo : Z) (rs : list Range) : Prop :=
  match rs with
  | [] => True
  | r :: rs' => lo <= r.1 /\ r.1 < r.2 /\ ranges_ok (r.2 + 1) rs'
  end.

Record rb_wf (b : RangeBuffer) : Prop := {
  wf_base : 0 <= rb_base b;
  wf_byte_limit : 1 <= rb_byte_limit b;
  wf_range_limit : 1 <= rb_range_limit b;
  wf_covered : ranges_ok (rb_base b) (rb_covered b);
  wf_ends : Forall (fun r => r.2 <= rb_base b + len (rb_data b)) (rb_covered b);
  wf_data : len (rb_data b) <= rb_byte_limit b;
  wf_top : rb_base b + len (rb_data b) <= U64_MAX;
  wf_ranges : range_count b <= rb_range_limit b
}.

(** ** Coverage lists *)

Lemma covered_in_cons r rs i :
  covered_in (r :: rs) i = (r.1 <=? i) && (i <? r.2) || covered_in rs i.
Proof. done. Qed.

Lemma ranges_ok_weaken lo lo' rs : lo' <= lo -> ranges_ok lo rs -> ranges_ok lo' rs.
Proof. destruct rs; simpl; [done|]. intros ? (? & ? & ?). repeat split; try done. lia. Qed.

Lemma ranges_ok_below lo rs i : ranges_ok lo rs -> i < lo -> covered_in rs i = false.
Proof.
  revert lo. induction rs as [|r rs IH]; simpl; intros lo Hok Hi; [done|].
  destruct Hok as (? & ? & Hok). rewrite (IH _ Hok) by lia.
  zdec. done.
Qed.

Lemma covered_in_above rs hi i :
  Forall (fun r => r.2 <= hi) rs -> hi <= i -> covered_in rs i = false.
Proof.
  induction 1 as [|r rs Hr _ IH]; intros; [done|]. rewrite covered_in_cons, IH by done.
  zcase; [|done]. zdec. done.
Qed.

Lemma mark_loop_inserted rs m : ranges_ok (m.2 + 1) rs -> m.1 < m.2 -> mark_loop rs m true = rs.
Proof.
  revert m. induction rs as [|r rs IH]; intros m Hok Hm; simpl; [done|].
  destruct Hok as (? & ? & Hok). zdec. simpl. f_equal.
  apply IH; [|done]. eapply ranges_ok_weaken; [|exact Hok]. lia.
Qed.

Lemma mark_loop_ok lo rs m :
  ranges_ok lo rs -> m.1 < m.2 -> ranges_ok (Z.min lo m.1) (mark_loop rs m false).
Proof.
  revert lo m. induction rs as [|r rs IH]; intros lo m Hok Hm; simpl.
  { simpl. repeat split; try done; lia. }
  destruct Hok as (? & ? & Hok). repeat case_match; bsimpl; simpl.
  - repeat split; try lia. eapply ranges_ok_weaken; [|by apply (IH (r.2 + 1) m)]. lia.
  - rewrite mark_loop_inserted; [|eapply ranges_ok_weaken; [|exact Hok]; lia|done].
    repeat split; try done; lia.
  - eapply ranges_ok_weaken; [|apply (IH (r.2 + 1)); [done|simpl; lia]]. simpl. lia.
Qed.

Lemma mark_loop_covered lo rs m i :
  ranges_ok lo rs -> m.1 < m.2 ->
  covered_in (mark_loop rs m false) i = covered_in rs i || (m.1 <=? i) && (i <? m.2).
Proof.
  revert lo m. induction rs as [|r rs IH]; intros lo m Hok Hm; simpl.
  { by rewrite orb_false_r. }
  destruct Hok as (? & ? & Hok). repeat case_match; bsimpl; simpl.
  - rewrite (IH _ _ Hok Hm). apply orb_assoc.
  - rewrite mark_loop_inserted; [|eapply ranges_ok_weaken; [|exact Hok]; lia|done].
    by rewrite orb_comm.
  - rewrite (IH _ _ Hok) by (simpl; lia). simpl.
    destruct (covered_in rs i); simpl; [by rewrite orb_true_r|]. rewrite orb_false_r.
    repeat zcase; simpl; try done; lia.
Qed.

Lemma mark_loop_ends hi rs m :
  Forall (fun r => r.2 <= hi) rs -> m.2 <= hi ->
  forall ins, Forall (fun r => r.2 <= hi) (mark_loop rs m ins).
Proof.
  intros Hf. revert m. induction Hf as [|r rs Hr Hf IH]; intros m Hm ins; simpl.
  { destruct ins; repeat constructor; done. }
  repeat case_match; simpl; repeat constructor; try done; try by apply IH.
  apply IH. simpl. lia.
Qed.

Lemma mark_loop_length rs m ins : (length (mark_loop rs m ins) <= S (length rs))%nat.
Proof.
  revert m ins. induction rs as [|r rs IH]; intros m ins; simpl; [case_match; simpl; lia|].
  assert (Ht : forall ins', ins' = true -> (length (mark_loop rs m ins') <= length rs)%nat).
  { clear. intros ? ->. revert m. induction rs as [|r rs IH]; intros m; simpl; [done|].
    repeat case_match; simpl; try (specialize (IH m); lia).
    specialize (IH (Z.min m.1 r.1, Z.max m.2 r.2)). lia. }
  repeat case_match; simpl; try (specialize (IH m ins); lia).
  - specialize (Ht true eq_refl). lia.
  - specialize (Ht true eq_refl). lia.
  - specialize (IH (Z.min m.1 r.1, Z.max m.2 r.2) ins). lia.
Qed.

Lemma mark_loop_length_touching lo rs m :
  ranges_ok lo rs -> m.1 < m.2 ->
  existsb (fun r => (m.1 <=? r.2) && (r.1 <=? m.2)) rs = true ->
  (length (mark_loop rs m false) <= length rs)%nat.
Proof.
  revert lo. induction rs as [|r rs IH]; intros lo Hok Hm Ht; simpl in *; [done|].
  destruct Hok as (? & ? & Hok). repeat case_match; bsimpl; simpl.
  - assert (m.1 <=? r.2 = false) as E by (apply Z.leb_gt; lia). rewrite E in Ht. simpl in Ht.
    specialize (IH _ Hok Hm Ht). lia.
  - exfalso. assert (r.1 <=? m.2 = false) as E by (apply Z.leb_gt; lia).
    rewrite E, andb_false_r in Ht. simpl in Ht.
    apply existsb_exists in Ht as (r' & Hin & Ht). bsimpl.
    apply list_elem_of_In in Hin.
    assert (Hlow : r.2 + 1 <= r'.1); [|lia].
    { clear -Hok Hin. assert (forall lo, ranges_ok lo rs -> lo <= r'.1) as Hg; [|by apply Hg].
      clear Hok. induction Hin as [|r' q rs Hin IH]; intros lo; simpl; intros (? & ? & Hok); [done|].
      specialize (IH _ Hok). lia. }
  - pose proof (mark_loop_length rs (Z.min m.1 r.1, Z.max m.2 r.2) false). lia.
Qed.

Lemma clip_ranges_ok base base' rs :
  ranges_ok base rs -> base <= base' -> ranges_ok base' (clip_ranges base' rs).
Proof.
  intros Hok Hb. unfold clip_ranges. revert base Hok Hb.
  induction rs as [|r rs IH]; intros base Hok Hb; [done|]. destruct Hok as (? & ? & Hok).
  rewrite fmap_cons, filter_cons. simpl. case_decide.
  - simpl. repeat split; try lia. 
    assert (Hid : forall lo q, ranges_ok lo q -> base' < lo ->
      filter (fun r : Range => base' < r.2) ((fun r => (Z.max r.1 base', r.2)) <$> q) = q).
    { clear. intros lo q. revert lo. induction q as [|r q IH]; intros lo Hok Hlo; [done|].
      destruct Hok as (? & ? & Hok). rewrite fmap_cons, filter_cons_True by (simpl; lia).
      rewrite (IH _ Hok) by lia. destruct r; simpl in *. do 2 f_equal; lia. }
    rewrite (Hid _ _ Hok) by lia. done.
  - apply (IH r.2); [|lia]. eapply ranges_ok_weaken; [|exact Hok]. lia.
Qed.

Lemma clip_ranges_covered base' rs i :
  base' <= i -> covered_in (clip_ranges base' rs) i = covered_in rs i.
Proof.
  intros Hi. unfold clip_ranges. induction rs as [|r rs IH]; [done|].
  rewrite fmap_cons, filter_cons, covered_in_cons. simpl. case_decide.
  - rewrite covered_in_cons, IH. simpl. f_equal. repeat zcase; simpl; try done; lia.
  - rewrite IH. zcase; simpl; [|done]. zdec. done.
Qed.

Lemma zsum_lengths lo hi rs :
  ranges_ok lo rs -> Forall (fun r => r.2 <= hi) rs -> lo <= hi ->
  zsum ((fun r : Range => r.2 - r.1) <$> rs) = count (covered_in rs) lo hi.
Proof.
  intros Hok Hf. revert lo Hok. induction Hf as [|r rs Hr Hf IH]; intros lo Hok Hlo.
  { by rewrite count_false. }
  destruct Hok as (? & ? & Hok). simpl in Hr.
  rewrite (count_split _ lo r.1 hi), (count_split _ r.1 r.2 hi) by lia.
  rewrite (count_false _ lo r.1), (count_true _ r.1 r.2).
  - rewrite (count_ext _ (covered_in rs) r.2 hi).
    + rewrite fmap_cons. cbn [zsum foldr]. fold (zsum ((fun r : Range => r.2 - r.1) <$> rs)).
      destruct (decide (r.2 = hi)) as [E|].
      * rewrite (count_empty _ r.2 hi) by lia.
        destruct rs as [|q rs]; [simpl; lia|]. exfalso. inversion Hf. subst.
        destruct Hok as (? & ? & ?). lia.
      * rewrite (IH (r.2 + 1)), (count_split _ r.2 (r.2 + 1) hi) by (done || lia).
        rewrite (count_false _ r.2); [lia|]. intros i ?. eapply ranges_ok_below; [exact Hok|lia].
    + intros i ?. rewrite covered_in_cons. zdec. by rewrite andb_false_r.
  - lia.
  - intros i ?. rewrite covered_in_cons. zdec. done.
  - intros i ?. rewrite covered_in_cons. zdec. simpl. eapply ranges_ok_below; [exact Hok|lia].
Qed.

(** ** The walk of [write]

    Throughout the loop the buffer is the initial one with the offsets of [[offset, cursor)]
    settled by the policy, and the outcome has counted exactly those offsets. *)

Section walk.
Context (b0 : RangeBuffer) (o0 : WriteOutcome) (offset end_ : Z) (bytes : list Z)
        (policy : OverlapPolicy) (cov : Z -> bool).

(** What [write] leaves at an offset of its range. *)
Definition settled (i : Z) : option Z :=
  if cov i && bool_decide (policy = First) then rb_data b0 !! Z.to_nat (i - rb_base b0)
  else bytes !! Z.to_nat (i - offset).

(** The two copies of an offset disagree. *)
Definition differs (i : Z) : bool :=
  bool_decide (rb_data b0 !! Z.to_nat (i - rb_base b0) <> bytes !! Z.to_nat (i - offset)).

Record settled_upto (b : RangeBuffer) (c : Z) (o : WriteOutcome) : Prop := {
  su_cursor : offset <= c <= end_;
  su_base : rb_base b = rb_base b0;
  su_covered : rb_covered b = rb_covered b0;
  su_byte_limit : rb_byte_limit b = rb_byte_limit b0;
  su_range_limit : rb_range_limit b = rb_range_limit b0;
  su_length : len (rb_data b) = len (rb_data b0);
  su_data : forall i, rb_base b0 <= i ->
    rb_data b !! Z.to_nat (i - rb_base b0) =
      if (offset <=? i) && (i <? c) then settled i else rb_data b0 !! Z.to_nat (i - rb_base b0);
  su_accepted : accepted o = accepted o0 + count (fun i => negb (cov i)) offset c;
  su_overlapped : overlapped o = overlapped o0 + count cov offset c;
  su_conflicting :
    conflicting o = conflicting o0 + count (fun i => cov i && differs i) offset c;
  su_replaced :
    replaced o = replaced o0 +
      (if bool_decide (policy = Last) then count (fun i => cov i && differs i) offset c else 0);
  su_refused : refused o = refused o0;
  su_before : before_window o = before_window o0
}.

Context (Hbase : rb_base b0 <= offset) (Hend : end_ - rb_base b0 <= len (rb_data b0))
        (Hbytes : end_ - offset <= len bytes).

Lemma settled_upto_start : offset <= end_ -> settled_upto b0 offset o0.
Proof.
  intros. split; try done; try lia; try (rewrite count_empty; lia).
  - intros i Hi. zcase; simpl; [|done]. by zdec.
  - rewrite count_empty by lia. case_bool_decide; lia.
Qed.

Lemma copy_in_settled b c o c1 :
  settled_upto b c o -> c <= c1 <= end_ ->
  exists b', copy_in b c c1 offset bytes = Some b' /\
    rb_base b' = rb_base b /\ rb_covered b' = rb_covered b /\
    rb_byte_limit b' = rb_byte_limit b /\ rb_range_limit b' = rb_range_limit b /\
    len (rb_data b') = len (rb_data b) /\
    forall i, rb_base b0 <= i ->
      rb_data b' !! Z.to_nat (i - rb_base b0) =
        if (c <=? i) && (i <? c1) then bytes !! Z.to_nat (i - offset)
        else rb_data b !! Z.to_nat (i - rb_base b0).
Proof.
  intros [Hcur Hb Hcov Hbl Hrl Hlen Hdat _ _ _ _ _ _] Hc. unfold copy_in.
  destruct (slice bytes (c - offset) (c1 - offset)) as [src|] eqn:Hsrc;
    [|rewrite slice_Some in Hsrc by lia; done].
  pose proof (slice_length _ _ _ _ Hsrc) as Hsl. simpl.
  rewrite copy_from_slice_Some by lia. simpl. eexists. split; [done|]. simpl.
  rewrite length_inserts. repeat split.
  intros i Hi. rewrite Hb, list_inserts_lookup by lia.
  replace (c - rb_base b0 <=? i - rb_base b0) with (c <=? i) by (repeat zcase; lia).
  replace (i - rb_base b0 <? c - rb_base b0 + len src) with (i <? c1) by (repeat zcase; lia).
  destruct (Z.leb_spec c i), (Z.ltb_spec i c1); simpl; try done.
  rewrite (slice_lookup _ _ _ _ _ Hsrc) by lia. f_equal. lia.
Qed.

(** Copying over offsets the list does not cover. *)
Lemma gap_settled b c o c1 :
  settled_upto b c o -> c <= c1 <= end_ -> (forall i, c <= i < c1 -> cov i = false) ->
  exists b', copy_in b c c1 offset bytes = Some b' /\
    settled_upto b' c1 (add_accepted o (c1 - c)).
Proof.
  intros Hs Hc Hcov. destruct (copy_in_settled b c o c1 Hs Hc)
    as (b' & Hcp & ? & ? & ? & ? & ? & Hdat'). exists b'. split; [done|].
  assert (Hz : forall P, count (fun i => cov i && P i) c c1 = 0).
  { intros P. apply count_false. intros i Hi. by rewrite Hcov. }
  destruct Hs as [Hcur Hb Hcv Hbl Hrl Hlen Hdat Ha Ho Hco Hr Href Hbef].
  split; simpl; try congruence; try lia.
  - intros i Hi. rewrite Hdat', Hdat by done. unfold settled.
    destruct (Z.leb_spec c i), (Z.ltb_spec i c1), (Z.leb_spec offset i), (Z.ltb_spec i c);
      simpl; try done; try lia. by rewrite Hcov by lia.
  - rewrite (count_split _ offset c c1), (count_true _ c c1) by
      (lia || (intros i Hi; rewrite Hcov by done; done)). lia.
  - rewrite (count_split _ offset c c1), (count_false _ c c1) by (lia || done). lia.
  - rewrite (count_split _ offset c c1), Hz by lia. lia.
  - rewrite (count_split _ offset c c1), Hz by lia. rewrite Z.add_0_r. done.
Qed.

Lemma count_differing_settled b c o c1 :
  settled_upto b c o -> c <= c1 <= end_ -> (forall i, c <= i < c1 -> cov i = true) ->
  count_differing b c c1 offset bytes = Some (count (fun i => cov i && differs i) c c1).
Proof.
  intros [Hcur Hb Hcv Hbl Hrl Hlen Hdat _ _ _ _ _ _] Hc Hcov. unfold count_differing.
  destruct (slice bytes (c - offset) (c1 - offset)) as [src|] eqn:Hsrc;
    [|rewrite slice_Some in Hsrc by lia; done].
  destruct (slice (rb_data b) (c - rb_base b) (c1 - rb_base b)) as [tgt|] eqn:Htgt;
    [|rewrite slice_Some in Htgt by lia; done].
  simpl. f_equal. pose proof (slice_length _ _ _ _ Hsrc). pose proof (slice_length _ _ _ _ Htgt).
  assert (Hlk : forall j, 0 <= j < c1 - c ->
    tgt !! Z.to_nat j = rb_data b0 !! Z.to_nat (c + j - rb_base b0) /\
    src !! Z.to_nat j = bytes !! Z.to_nat (c + j - offset)).
  { intros j Hj. rewrite (slice_lookup _ _ _ _ _ Hsrc), (slice_lookup _ _ _ _ _ Htgt) by lia.
    rewrite Hb. replace (c - rb_base b0 + j) with (c + j - rb_base b0) by lia.
    rewrite Hdat by lia. zdec. rewrite andb_false_r. split; do 2 f_equal; lia. }
  clear Hsrc Htgt Hdat. revert c src Hcov Hlk Hc Hcur H H0. clear -Hbase Hend Hbytes.
  induction tgt as [|x tgt IH]; intros c src Hcov Hlk Hc Hcur Hs Ht.
  { simpl in *. rewrite count_empty by lia. done. }
  destruct src as [|y src]; simpl in Hs, Ht; [lia|].
  rewrite (count_split _ c (c + 1) c1) by lia.
  assert (Hc0 : count (fun i => cov i && differs i) c (c + 1) =
                if decide (x <> y) then 1 else 0).
  { unfold count. replace (c + 1 - c) with 1 by lia. change (seqZ c 1) with [c].
    destruct (Hlk 0 ltac:(lia)) as [Hx Hy]. simpl in Hx, Hy. rewrite Z.add_0_r in Hx, Hy.
    rewrite filter_cons, filter_nil. unfold differs. rewrite <- Hx, <- Hy, Hcov by lia.
    simpl. repeat case_decide; case_bool_decide; simpl; try done; congruence. }
  rewrite Hc0, <- (IH (c + 1) src); try lia.
  - cbn [zip zip_with]. rewrite filter_cons. simpl. repeat case_decide; simpl; try done; lia.
  - intros i Hi. apply Hcov. lia.
  - intros j Hj. destruct (Hlk (j + 1) ltac:(lia)) as [Hx Hy].
    replace (Z.to_nat (j + 1)) with (S (Z.to_nat j)) in Hx, Hy by lia. simpl in Hx, Hy.
    rewrite Hx, Hy. split; do 2 f_equal; lia.
Qed.

(** Resolving offsets the list covers. *)
Lemma overlap_settled b c o c1 :
  settled_upto b c o -> c <= c1 <= end_ -> (forall i, c <= i < c1 -> cov i = true) ->
  exists b' o', resolve_overlap b c o c1 offset bytes policy = Some (b', c1, o') /\
    settled_upto b' c1 o'.
Proof.
  intros Hs Hc Hcov. unfold resolve_overlap. destruct (Z.ltb_spec c c1); cycle 1.
  { assert (c1 = c) as -> by lia. eauto. }
  rewrite (count_differing_settled b c o c1) by done. simpl.
  pose proof (count_split (fun i => cov i && differs i) offset c c1) as Hsp.
  destruct (copy_in_settled b c o c1 Hs Hc) as (b' & Hcp & ? & ? & ? & ? & ? & Hdat').
  destruct Hs as [Hcur Hb Hcv Hbl Hrl Hlen Hdat Ha Ho Hco Hr Href Hbef].
  specialize (Hsp ltac:(lia)).
  assert (Hn : count (fun i => negb (cov i)) offset c1 = count (fun i => negb (cov i)) offset c).
  { rewrite (count_split _ offset c c1), (count_false _ c c1); [lia| |lia].
    intros i Hi. by rewrite Hcov. }
  assert (Hy : count cov offset c1 = count cov offset c + (c1 - c)).
  { rewrite (count_split _ offset c c1), (count_true _ c c1) by (lia || done). lia. }
  unfold settled in Hdat. case_bool_decide as Hp.
  - destruct policy eqn:Epol; [done|]. rewrite Hcp. simpl. do 2 eexists. split; [done|].
    split; simpl; try congruence; try lia.
    + intros i Hi. rewrite Hdat', Hdat by done. unfold settled. rewrite Epol.
      destruct (Z.leb_spec c i), (Z.ltb_spec i c1), (Z.leb_spec offset i), (Z.ltb_spec i c);
        simpl; try done; try lia; rewrite ?andb_false_r; try done.
    + rewrite bool_decide_eq_true_2 in * by done. lia.
  - destruct policy eqn:Epol; [|done]. do 2 eexists. split; [done|].
    split; simpl; try congruence; try lia.
    + intros i Hi. rewrite Hdat by done. unfold settled. rewrite Epol.
      destruct (Z.leb_spec offset i), (Z.ltb_spec i c), (Z.ltb_spec i c1); simpl; try done; try lia.
      by rewrite Hcov by lia.
    + rewrite bool_decide_eq_false_2 in * by congruence. lia.
Qed.

Lemma walk_settled rs lo b c o :
  settled_upto b c o -> ranges_ok lo rs ->
  (forall i, c <= i < end_ -> cov i = covered_in rs i) ->
  exists b' c' o', walk rs b c o end_ offset bytes policy = Some (b', c', o') /\
    settled_upto b' c' o' /\ forall i, c' <= i < end_ -> cov i = false.
Proof.
  revert lo b c o. induction rs as [|r rs IH]; intros lo b c o Hs Hok Hcov; simpl; [by eauto 8|].
  destruct Hok as (Hlo & Hr & Hok). pose proof (su_cursor _ _ _ Hs) as Hcur.
  assert (Hin : forall i, c <= i < end_ ->
    cov i = (r.1 <=? i) && (i <? r.2) || covered_in rs i) by done.
  destruct (Z.leb_spec r.2 c).
  { eapply IH; [done|exact Hok|]. intros i Hi. rewrite Hin by done. zdec.
    by rewrite andb_false_r. }
  destruct (Z.leb_spec end_ r.1).
  { do 3 eexists. split; [done|]. split; [done|]. intros i Hi. rewrite Hin by done. zdec. simpl.
    eapply ranges_ok_below; [exact Hok|lia]. }
  assert (Hg : exists b1 o1, fill_gap b c o r.1 end_ offset bytes = Some (b1, Z.max c r.1, o1) /\
    settled_upto b1 (Z.max c r.1) o1).
  { unfold fill_gap. destruct (Z.ltb_spec c r.1).
    - replace (Z.min r.1 end_) with (Z.max c r.1) by lia.
      destruct (gap_settled b c o (Z.max c r.1) Hs) as (b1 & -> & ?); [lia| |by eauto].
      intros i Hi. rewrite Hin by lia. zdec. simpl. eapply ranges_ok_below; [exact Hok|lia].
    - replace (Z.max c r.1) with c by lia. eauto. }
  destruct Hg as (b1 & o1 & -> & Hs1). simpl.
  destruct (overlap_settled b1 (Z.max c r.1) o1 (Z.min r.2 end_) Hs1) as (b2 & o2 & -> & Hs2).
  { lia. }
  { intros i Hi. rewrite Hin by lia. by zdec. }
  simpl. eapply IH; [done|exact Hok|]. intros i Hi. rewrite Hin by lia. zdec.
  by rewrite andb_false_r.
Qed.

End walk.

(** ** What [write] promises *)

(** The part of a write that is stored: from the base of the window, and up to the byte cap, unless
    the write would need a range the range cap refuses. *)
Definition lower (b : RangeBuffer) (offset : Z) : Z := Z.max offset (rb_base b).

Definition upper (b : RangeBuffer) (offset : Z) (bytes : list Z) : Z :=
  let lo := lower b offset in
  let hi := Z.min (sat_add offset (len bytes)) (sat_add (rb_base b) (rb_byte_limit b)) in
  if (lo <? hi) && negb ((rb_range_limit b <=? range_count b) && negb (touches_existing b lo hi))
  then hi else lo.

(** The byte at [i] once the write is applied: the policy decides only where a byte was held. *)
Definition write_at (b : RangeBuffer) (offset : Z) (bytes : list Z) (policy : OverlapPolicy)
    (i : Z) : option Z :=
  if (lower b offset <=? i) && (i <? upper b offset bytes) then
    match policy, byte_at b i with
    | First, Some x => Some x
    | _, _ => bytes !! Z.to_nat (i - offset)
    end
  else byte_at b i.

(** The buffer holds a byte at [i] and the write disagrees with it. *)
Definition conflicts_at (b : RangeBuffer) (offset : Z) (bytes : list Z) (i : Z) : bool :=
  match byte_at b i with
  | Some x => bool_decide (bytes !! Z.to_nat (i - offset) <> Some x)
  | None => false
  end.

Record write_post (b : RangeBuffer) (offset : Z) (bytes : list Z) (policy : OverlapPolicy)
    (b' : RangeBuffer) (o : WriteOutcome) : Prop := {
  wp_wf : rb_wf b';
  wp_base : rb_base b' = rb_base b;
  wp_byte_limit : rb_byte_limit b' = rb_byte_limit b;
  wp_range_limit : rb_range_limit b' = rb_range_limit b;
  wp_range_count : range_count b' <= range_count b + 1;
  wp_bytes : forall i, byte_at b' i = write_at b offset bytes policy i;
  wp_accepted : accepted o =
    count (fun i => negb (covered_in (rb_covered b) i)) (lower b offset) (upper b offset bytes);
  wp_overlapped : overlapped o =
    count (covered_in (rb_covered b)) (lower b offset) (upper b offset bytes);
  wp_conflicting : conflicting o =
    count (conflicts_at b offset bytes) (lower b offset) (upper b offset bytes);
  wp_replaced : replaced o = if bool_decide (policy = Last) then conflicting o else 0;
  wp_accounted : offset + len bytes <= U64_MAX ->
    accepted o + overlapped o + refused o + before_window o = len bytes /\
    before_window o = Z.min (len bytes) (Z.max 0 (rb_base b - offset))
}.

Lemma covered_bounds b i :
  rb_wf b -> covered_in (rb_covered b) i = true -> rb_base b <= i < rb_base b + len (rb_data b).
Proof.
  intros Hwf Hc. split.
  - apply Z.nlt_ge. intros Hi. rewrite (ranges_ok_below _ _ _ (wf_covered _ Hwf) Hi) in Hc. done.
  - apply Z.nle_gt. intros Hi. rewrite (covered_in_above _ _ _ (wf_ends _ Hwf) Hi) in Hc. done.
Qed.

Lemma byte_at_covered b i : rb_wf b -> covered_in (rb_covered b) i = true <-> is_Some (byte_at b i).
Proof.
  intros Hwf. unfold byte_at. destruct (covered_in _ i) eqn:Hc.
  - pose proof (covered_bounds b i Hwf Hc). split; [|done]. intros _. apply lookup_lt_is_Some. lia.
  - split; [done|]. by intros [? ?].
Qed.

Lemma rb_new_wf base bl rl : 0 <= base <= U64_MAX -> rb_wf (new base bl rl).
Proof. intros. split; simpl; try done; try lia; unfold range_count; simpl; lia. Qed.

(** Nothing stored: the buffer is unchanged. *)
Lemma write_nothing b offset bytes policy o :
  rb_wf b -> upper b offset bytes = lower b offset ->
  accepted o = 0 -> overlapped o = 0 -> conflicting o = 0 -> replaced o = 0 ->
  (offset + len bytes <= U64_MAX ->
   refused o + before_window o = len bytes /\
   before_window o = Z.min (len bytes) (Z.max 0 (rb_base b - offset))) ->
  write_post b offset bytes policy b o.
Proof.
  intros Hwf Hu Ha Ho Hc Hr Hacc. split; try done; rewrite ?Hu, ?count_empty by lia; try done.
  - lia.
  - intros i. unfold write_at. rewrite Hu. zcase; [|done]. by zdec.
  - rewrite Hr, Hc. by case_bool_decide.
  - intros Hs. destruct (Hacc Hs). lia.
Qed.

Lemma grow_spec b needed :
  rb_wf b ->
  rb_base (grow b needed) = rb_base b /\ rb_covered (grow b needed) = rb_covered b /\
  rb_byte_limit (grow b needed) = rb_byte_limit b /\
  rb_range_limit (grow b needed) = rb_range_limit b /\
  len (rb_data (grow b needed)) = Z.max (len (rb_data b)) needed /\
  forall i, covered_in (rb_covered b) i = true ->
    rb_data (grow b needed) !! Z.to_nat (i - rb_base b) = byte_at b i.
Proof.
  intros Hwf. unfold grow. destruct (Z.ltb_spec (len (rb_data b)) needed); simpl; repeat split.
  - rewrite resize_length; lia.
  - intros i Hi. pose proof (covered_bounds b i Hwf Hi). unfold byte_at. rewrite Hi.
    apply resize_lookup. lia.
  - lia.
  - intros i Hi. unfold byte_at. by rewrite Hi.
Qed.

(** Marking a stored range keeps the invariant, under the two caps. *)
Lemma marked_wf b d start end_ :
  rb_wf b -> rb_base b <= start < end_ -> end_ <= rb_base b + rb_byte_limit b -> end_ <= U64_MAX ->
  (rb_range_limit b <=? range_count b) && negb (touches_existing b start end_) = false ->
  len d = Z.max (len (rb_data b)) (end_ - rb_base b) ->
  rb_wf (mkRangeBuffer (rb_base b) d (mark_loop (rb_covered b) (start, end_) false)
           (rb_byte_limit b) (rb_range_limit b)).
Proof.
  intros [W1 W2 W3 W4 W5 W6 W7 W8] Hs He Htop Hcap Hd. split; simpl; try done; try lia.
  - eapply ranges_ok_weaken; [|apply (mark_loop_ok (rb_base b)); [done|simpl; lia]]. simpl. lia.
  - apply mark_loop_ends; simpl; [|lia]. eapply Forall_impl; [exact W5|]. simpl. lia.
  - unfold range_count, touches_existing in *. simpl.
    apply andb_false_iff in Hcap as [Hcap|Hcap]; bsimpl.
    + pose proof (mark_loop_length (rb_covered b) (start, end_) false). lia.
    + pose proof (mark_loop_length_touching (rb_base b) (rb_covered b) (start, end_) W4
        ltac:(simpl; lia) Hcap). lia.
Qed.

Lemma write_window_spec b offset bytes policy o end_ :
  rb_wf b -> rb_base b <= offset -> end_ = sat_add offset (len bytes) -> offset < end_ ->
  end_ <= rb_base b + rb_byte_limit b ->
  (rb_range_limit b <=? range_count b) && negb (touches_existing b offset end_) = false ->
  exists b' o' d, write_window b offset bytes policy o = Some (b', o') /\
    b' = mkRangeBuffer (rb_base b) d (mark_loop (rb_covered b) (offset, end_) false)
           (rb_byte_limit b) (rb_range_limit b) /\
    rb_wf b' /\
    (forall i, rb_base b <= i -> covered_in (rb_covered b) i || (offset <=? i) && (i <? end_) = true ->
      d !! Z.to_nat (i - rb_base b) =
        if (offset <=? i) && (i <? end_) then
          match policy, byte_at b i with
          | First, Some x => Some x
          | _, _ => bytes !! Z.to_nat (i - offset)
          end
        else byte_at b i) /\
    accepted o' = accepted o + count (fun i => negb (covered_in (rb_covered b) i)) offset end_ /\
    overlapped o' = overlapped o + count (covered_in (rb_covered b)) offset end_ /\
    conflicting o' = conflicting o + count (conflicts_at b offset bytes) offset end_ /\
    replaced o' = replaced o +
      (if bool_decide (policy = Last) then count (conflicts_at b offset bytes) offset end_ else 0) /\
    refused o' = refused o /\ before_window o' = before_window o.
Proof.
  intros Hwf Hb He Hlt Hbl Hcap. unfold write_window. rewrite <- He, Hcap.
  destruct (grow_spec b (end_ - rb_base b) Hwf) as (E1 & E2 & E3 & E4 & E5 & E6).
  set (b1 := grow b (end_ - rb_base b)) in *. clearbody b1.
  assert (Hby : end_ - offset <= len bytes) by (subst end_; unfold sat_add; lia).
  destruct (walk_settled b1 o offset end_ bytes policy (covered_in (rb_covered b))
      ltac:(lia) ltac:(lia) Hby (rb_covered b1) (rb_base b) b1 offset o) as (b2 & c & o1 & -> & Hs & Hn).
  { apply settled_upto_start. lia. }
  { rewrite E2. apply Hwf. }
  { by rewrite E2. }
  simpl.
  assert (Hf : exists b3 o3, (if c <? end_ then
      b' ← copy_in b2 c end_ offset bytes; Some (b', add_accepted o1 (end_ - c))
      else Some (b2, o1)) = Some (b3, o3) /\
      settled_upto b1 o offset end_ bytes policy (covered_in (rb_covered b)) b3 end_ o3).
  { pose proof (su_cursor _ _ _ _ _ _ _ _ _ _ Hs). destruct (Z.ltb_spec c end_).
    - destruct (gap_settled b1 o offset end_ bytes policy _
        ltac:(lia) ltac:(lia) Hby b2 c o1 end_ Hs ltac:(lia) Hn) as (b3 & -> & ?). simpl. eauto.
    - assert (c = end_) as -> by lia. eauto. }
  destruct Hf as (b3 & o3 & -> & [Hcur Hb3 Hcv Hbl3 Hrl Hlen Hdat Ha Ho Hc Hr Href Hbef]). simpl.
  assert (Hdf : count (fun i => covered_in (rb_covered b) i && differs b1 offset bytes i) offset end_ =
                count (conflicts_at b offset bytes) offset end_).
  { apply count_ext. intros i Hi. unfold conflicts_at, differs. rewrite E1.
    destruct (covered_in (rb_covered b) i) eqn:Hci; simpl.
    - rewrite E6 by done. apply byte_at_covered in Hci as [x ->]; [|done].
      apply bool_decide_ext. naive_solver.
    - unfold byte_at. by rewrite Hci. }
  rewrite Hdf in *.
  do 3 eexists. split; [done|].
  split; [unfold mark_covered, with_covered; simpl; f_equal; congruence|].
  split; [|split; [|repeat split; done]].
  - unfold mark_covered, with_covered. rewrite Hcv, Hb3, Hbl3, Hrl, E1, E2, E3, E4.
    apply marked_wf; try done; [subst end_; unfold sat_add; lia|lia].
  - intros i Hi Hor. rewrite <- E1, Hdat, E1 by lia. unfold settled. rewrite E1.
    destruct ((offset <=? i) && (i <? end_)).
    + destruct (covered_in (rb_covered b) i) eqn:Hci; simpl.
      * rewrite E6 by done. destruct policy; simpl.
        -- assert (is_Some (byte_at b i)) as [x ->] by (by apply byte_at_covered). done.
        -- done.
      * unfold byte_at. rewrite Hci. by destruct policy.
    + rewrite orb_false_r in Hor. by apply E6.
Qed.

(** A write of bytes trimmed to the window satisfies the postcondition of the whole write. *)
Lemma write_window_post b offset bytes kept policy end_ skip ref :
  rb_wf b -> 0 <= offset <= U64_MAX ->
  lower b offset < end_ -> end_ = Z.min (sat_add offset (len bytes)) (sat_add (rb_base b) (rb_byte_limit b)) ->
  end_ = sat_add (lower b offset) (len kept) -> end_ - lower b offset <= len kept ->
  (forall i, lower b offset <= i < end_ ->
    kept !! Z.to_nat (i - lower b offset) = bytes !! Z.to_nat (i - offset)) ->
  skip = Z.max 0 (rb_base b - offset) ->
  (offset + len bytes <= U64_MAX ->
    len kept = end_ - lower b offset /\ len kept + ref + skip = len bytes) ->
  exists b' o', write_window b (lower b offset) kept policy (mkWriteOutcome 0 0 0 0 ref skip)
      = Some (b', o') /\ write_post b offset bytes policy b' o'.
Proof.
  intros Hwf Hoff Hlt He Hek Hkl Hk Hskip Hacc. unfold sat_add in He.
  destruct ((rb_range_limit b <=? range_count b) &&
            negb (touches_existing b (lower b offset) end_)) eqn:Hcap.
  { unfold write_window. rewrite <- Hek, Hcap. do 2 eexists. split; [done|].
    apply write_nothing; try done; simpl.
    - unfold upper, sat_add. rewrite <- He, Hcap. simpl. by rewrite andb_false_r.
    - intros Hs. destruct (Hacc Hs). unfold lower in *. lia. }
  destruct (write_window_spec b (lower b offset) kept policy (mkWriteOutcome 0 0 0 0 ref skip) end_)
    as (b' & o' & d & -> & -> & Hwf' & Hd & Ha & Ho & Hc & Hr & Href & Hbef); try done.
  { unfold lower. lia. }
  { lia. }
  assert (Hup : upper b offset bytes = end_).
  { unfold upper, sat_add. rewrite <- He, Hcap. zdec. done. }
  assert (Hcf : count (conflicts_at b (lower b offset) kept) (lower b offset) end_ =
                count (conflicts_at b offset bytes) (lower b offset) end_).
  { apply count_ext. intros i Hi. unfold conflicts_at. by rewrite Hk. }
  rewrite Hcf in *. simpl in *. do 2 eexists. split; [done|].
  split; simpl; rewrite ?Hup; try done; try lia.
  - unfold range_count. simpl.
    pose proof (mark_loop_length (rb_covered b) (lower b offset, end_) false). lia.
  - intros i. unfold write_at. rewrite Hup. unfold byte_at at 1. simpl.
    rewrite (mark_loop_covered (rb_base b)) by (apply Hwf || (simpl; lia)). simpl.
    destruct (covered_in (rb_covered b) i || _) eqn:Hor.
    + assert (rb_base b <= i).
      { apply orb_true_iff in Hor as [Hor|Hor].
        - eapply covered_bounds; eauto.
        - bsimpl. unfold lower in *. lia. }
      rewrite Hd by done. destruct ((lower b offset <=? i) && (i <? end_)) eqn:Hin; [|done].
      bsimpl. by rewrite Hk by lia.
    + apply orb_false_iff in Hor as [Hor ->]. unfold byte_at. by rewrite Hor.
  - rewrite Hr, Hc. by case_bool_decide.
  - intros Hs. destruct (Hacc Hs) as [Hl1 Hl2].
    rewrite Ha, Ho, Href, Hbef, count_negb by lia. unfold lower in *. lia.
Qed.

(** [write] never panics, and does what [write_post] says. *)
Lemma write_ok b offset bytes policy :
  rb_wf b -> 0 <= offset <= U64_MAX ->
  exists b' o, write b offset bytes policy = Some (b', o) /\
    write_post b offset bytes policy b' o.
Proof.
  intros Hwf Hoff. pose proof (wf_base _ Hwf). pose proof (wf_byte_limit _ Hwf).
  pose proof (wf_top _ Hwf). unfold write. 
  assert (Hup : forall hi, hi = Z.min (sat_add offset (len bytes)) (sat_add (rb_base b) (rb_byte_limit b)) ->
    hi <= lower b offset -> upper b offset bytes = lower b offset).
  { intros hi -> Hle. unfold upper. zdec. done. }
  unfold lower, sat_add in *.
  destruct (Z.eqb_spec (len bytes) 0).
  { do 2 eexists. split; [done|]. apply write_nothing; try done; simpl; try lia.
    eapply Hup; [done|]. lia. }
  destruct (Z.leb_spec (Z.min U64_MAX (offset + len bytes)) (rb_base b)).
  { do 2 eexists. split; [done|]. apply write_nothing; try done; simpl; try lia.
    eapply Hup; [done|]. lia. }
  set (skip := if offset <? rb_base b then rb_base b - offset else 0).
  assert (Hskip : skip = Z.max 0 (rb_base b - offset)) by (unfold skip; zcase; lia).
  set (lo := if offset <? rb_base b then rb_base b else offset).
  assert (Hlo : lo = lower b offset) by (unfold lo, lower; zcase; lia).
  clearbody skip lo. unfold lower in *.
  destruct (slice bytes skip (len bytes)) as [rest|] eqn:Hrest;
    [|rewrite slice_Some in Hrest by lia; done].
  pose proof (slice_length _ _ _ _ Hrest) as Hrl. simpl.
  destruct (Z.leb_spec (Z.min U64_MAX (rb_base b + rb_byte_limit b)) lo).
  { do 2 eexists. split; [done|]. apply write_nothing; try done; simpl; try lia.
    eapply Hup; [done|]. lia. }
  set (keep := if Z.min U64_MAX (rb_base b + rb_byte_limit b) <? Z.min U64_MAX (lo + len rest)
               then Z.min U64_MAX (rb_base b + rb_byte_limit b) - lo else len rest).
  assert (Hkeep : 0 < keep <= len rest /\
    (Z.min U64_MAX (lo + keep) = Z.min (Z.min U64_MAX (offset + len bytes))
       (Z.min U64_MAX (rb_base b + rb_byte_limit b)))).
  { unfold keep. zcase; lia. }
  assert (Hkeep' : offset + len bytes <= U64_MAX ->
    lo + keep = Z.min (offset + len bytes) (Z.min U64_MAX (rb_base b + rb_byte_limit b))).
  { unfold keep. zcase; lia. }
  clearbody keep. destruct Hkeep as [Hk1 Hk2].
  destruct (slice rest 0 keep) as [kept|] eqn:Hkept; [|rewrite slice_Some in Hkept by lia; done].
  pose proof (slice_length _ _ _ _ Hkept) as Hkl. simpl. zdec. rewrite Hlo.
  eapply (write_window_post b offset bytes kept policy (Z.min U64_MAX (lo + keep))); try done;
    unfold lower, sat_add; rewrite <- ?Hlo; try lia.
  intros i Hi. rewrite (slice_lookup _ _ _ _ _ Hkept), (slice_lookup _ _ _ _ _ Hrest) by lia.
  f_equal. lia.
Qed.

(** The bytes a write leaves agree with [S] when the buffer and the bytes written do. *)
Lemma write_agrees (S : Z -> option Z) b offset bytes policy b' o :
  write_post b offset bytes policy b' o ->
  (forall i x, byte_at b i = Some x -> S i = Some x) ->
  (forall j x, bytes !! j = Some x -> S (offset + Z.of_nat j) = Some x) ->
  forall i x, byte_at b' i = Some x -> S i = Some x.
Proof.
  intros Hp Hb Hpay i x Hx. rewrite (wp_bytes _ _ _ _ _ _ Hp) in Hx. unfold write_at in Hx.
  destruct ((lower _ _ <=? i) && _) eqn:Ec; [|by eauto]. bsimpl. unfold lower in *.
  assert (Hnew : bytes !! Z.to_nat (i - offset) = Some x -> S i = Some x).
  { intros Hn. apply Hpay in Hn. rewrite <- Hn. f_equal. lia. }
  destruct policy; [|by eauto]. destruct (byte_at b i) eqn:Ei; [|by eauto].
  simplify_eq. eauto.
Qed.

(** ** Draining *)

Lemma contiguous_end_bounds b :
  rb_wf b -> rb_base b <= contiguous_end b <= rb_base b + len (rb_data b).
Proof.
  intros [? ? ? Hok He ? ? ?]. unfold contiguous_end.
  destruct (rb_covered b) as [|r rs]; [lia|]. destruct Hok as (? & ? & ?).
  inversion_clear He. zcase; lia.
Qed.

Lemma contiguous_end_covered b i :
  rb_wf b -> rb_base b <= i < contiguous_end b -> covered_in (rb_covered b) i = true.
Proof.
  unfold contiguous_end. intros Hwf. destruct (rb_covered b) as [|r rs]; [lia|].
  zcase; [|lia]. intros. rewrite covered_in_cons. by zdec.
Qed.

(** The run ends at the first missing byte. *)
Lemma contiguous_end_maximal b : rb_wf b -> byte_at b (contiguous_end b) = None.
Proof.
  intros Hwf. unfold byte_at, contiguous_end. pose proof (wf_covered _ Hwf) as Hok.
  destruct (rb_covered b) as [|r rs]; [done|]. destruct Hok as (? & ? & Hok).
  rewrite covered_in_cons. destruct (Z.eqb_spec r.1 (rb_base b)).
  - zdec. simpl. rewrite (ranges_ok_below _ _ _ Hok) by lia. done.
  - zdec. simpl. rewrite (ranges_ok_below _ _ _ Hok) by lia. done.
Qed.

Lemma consume_ok b n :
  rb_wf b -> 0 <= n <= len (rb_data b) ->
  exists b', consume b n = Some b' /\ rb_wf b' /\ rb_base b' = rb_base b + n /\
    rb_byte_limit b' = rb_byte_limit b /\ rb_range_limit b' = rb_range_limit b /\
    forall i, rb_base b' <= i -> byte_at b' i = byte_at b i.
Proof.
  intros [W1 W2 W3 W4 W5 W6 W7 W8] Hn. unfold consume.
  destruct (slice (rb_data b) n (len (rb_data b))) as [d|] eqn:Hd;
    [|rewrite slice_Some in Hd by lia; done].
  pose proof (slice_length _ _ _ _ Hd) as Hdl. simpl. eexists. split; [done|]. simpl.
  split; [|repeat split].
  - split; simpl; try done; try lia.
    + eapply clip_ranges_ok; [done|lia].
    + unfold clip_ranges. apply Forall_forall. intros r Hr.
      apply list_elem_of_filter in Hr as [_ Hr]. apply list_elem_of_fmap in Hr as (q & -> & Hq).
      rewrite Forall_forall in W5. specialize (W5 _ Hq). simpl in *. lia.
    + unfold range_count, clip_ranges in *. simpl.
      pose proof (length_filter (fun r : Range => rb_base b + n < r.2)
        ((fun r => (Z.max r.1 (rb_base b + n), r.2)) <$> rb_covered b)) as Hl.
      rewrite length_fmap in Hl. lia.
  - intros i Hi. unfold byte_at. simpl. rewrite clip_ranges_covered by done.
    destruct (covered_in (rb_covered b) i) eqn:Hc; [|done].
    assert (i < rb_base b + len (rb_data b)).
    { apply Z.nle_gt. intros Hge. by rewrite (covered_in_above _ _ _ W5 Hge) in Hc. }
    rewrite (slice_lookup _ _ _ _ _ Hd) by lia. f_equal. lia.
Qed.

(** What a drain moves: the contiguous prefix below [limit], byte for byte; the window advances past
    it and nothing above it changes. *)
Record drain_post (b : RangeBuffer) (limit : Z) (out : list Z) (b' : RangeBuffer) (out' : list Z)
    (n : Z) : Prop := {
  dp_wf : rb_wf b';
  dp_count : n = Z.max 0 (Z.min (contiguous_end b) limit - rb_base b);
  dp_base : rb_base b' = rb_base b + n;
  dp_byte_limit : rb_byte_limit b' = rb_byte_limit b;
  dp_range_limit : rb_range_limit b' = rb_range_limit b;
  dp_rest : forall i, rb_base b' <= i -> byte_at b' i = byte_at b i;
  dp_out : exists taken, out' = out ++ taken /\ len taken = n /\
    forall j, 0 <= j < n -> taken !! Z.to_nat j = byte_at b (rb_base b + j)
}.

Lemma drain_ok b limit out :
  rb_wf b ->
  exists b' out' n, drain_contiguous_upto b limit out = Some (b', out', n) /\
    drain_post b limit out b' out' n.
Proof.
  intros Hwf. pose proof (contiguous_end_bounds b Hwf) as Hce.
  unfold drain_contiguous_upto. zcase.
  { do 3 eexists. split; [done|]. split; try done; try lia.
    exists []. rewrite app_nil_r. repeat split. simpl. lia. }
  set (e := Z.min (contiguous_end b) limit) in *.
  destruct (slice (rb_data b) 0 (e - rb_base b)) as [taken|] eqn:Ht;
    [|rewrite slice_Some in Ht by lia; done].
  destruct (consume_ok b (e - rb_base b) Hwf ltac:(lia)) as (b' & Hc & Hwf' & Hb & Hbl & Hrl & Hr).
  rewrite Hc. simpl. do 3 eexists. split; [done|]. split; try done; try lia.
  exists taken. pose proof (slice_length _ _ _ _ Ht). repeat split; [lia|].
  intros j Hj. rewrite (slice_lookup _ _ _ _ _ Ht) by lia. unfold byte_at.
  rewrite contiguous_end_covered by (done || lia). f_equal. lia.
Qed.

Lemma reset_wf b base : rb_wf b -> 0 <= base <= U64_MAX -> rb_wf (reset b base).
Proof. intros [] ?. split; simpl; try done; try lia; unfold range_count; simpl; lia. Qed.

(** The bytes held fit the byte cap, whatever was written. *)
Lemma buffered_bytes_bounds b : rb_wf b -> 0 <= buffered_bytes b <= rb_byte_limit b.
Proof.
  intros [W1 W2 W3 W4 W5 W6 W7 W8]. unfold buffered_bytes.
  rewrite (zsum_lengths (rb_base b) (rb_base b + len (rb_data b))) by (done || lia).
  pose proof (count_bounds (covered_in (rb_covered b)) (rb_base b)
    (rb_base b + len (rb_data b)) ltac:(lia)). lia.
Qed.

Lemma new_empty base bl rl : buffered_bytes (new base bl rl) = 0.
Proof. done. Qed.

Lemma reset_empty b base : buffered_bytes (reset b base) = 0.
Proof. done. Qed.

#[export] Hint Resolve rb_new_wf reset_wf : sensor.

(** ** Sequences of operations *)

Inductive Op :=
| OpWrite (offset : Z) (bytes : list Z) (policy : OverlapPolicy)
| OpDrain (limit : Z)
| OpReset (base : Z).

(** An operation whose offsets are [u64] values. *)
Definition op_ok (op : Op) : Prop :=
  match op with
  | OpWrite offset _ _ => 0 <= offset <= U64_MAX
  | OpDrain _ => True
  | OpReset base => 0 <= base <= U64_MAX
  end.

Definition run_op (b : RangeBuffer) (op : Op) : option RangeBuffer :=
  match op with
  | OpWrite offset bytes policy => fst <$> write b offset bytes policy
  | OpDrain limit => (fun r => r.1.1) <$> drain_contiguous_upto b limit []
  | OpReset base => Some (reset b base)
  end.

Definition run_ops (b : RangeBuffer) (ops : list Op) : option RangeBuffer :=
  foldl (fun acc op => acc ≫= fun b => run_op b op) (Some b) ops.

Lemma run_op_ok b op :
  rb_wf b -> op_ok op ->
  exists b', run_op b op = Some b' /\ rb_wf b' /\
    rb_byte_limit b' = rb_byte_limit b /\ rb_range_limit b' = rb_range_limit b.
Proof.
  intros Hwf Hop. destruct op as [offset bytes policy|limit|base]; simpl in *.
  - destruct (write_ok b offset bytes policy Hwf Hop) as (b' & o & -> & []). simpl. eauto.
  - destruct (drain_ok b limit [] Hwf) as (b' & out & n & -> & []). simpl. eauto.
  - exists (reset b base). split; [done|]. split; [by apply reset_wf|done].
Qed.

Lemma run_ops_ok b ops :
  rb_wf b -> Forall op_ok ops ->
  exists b', run_ops b ops = Some b' /\ rb_wf b' /\
    rb_byte_limit b' = rb_byte_limit b /\ rb_range_limit b' = rb_range_limit b.
Proof.
  intros Hwf Hops. revert b Hwf. induction Hops as [|op ops Hop _ IH]; intros b Hwf; [by eauto|].
  destruct (run_op_ok b op Hwf Hop) as (b1 & E1 & Hwf1 & Hb1 & Hr1).
  destruct (IH b1 Hwf1) as (b2 & E2 & Hwf2 & Hb2 & Hr2).
  exists b2. unfold run_ops in *. simpl. rewrite E1. split; [done|]. split; [done|]. split; congruence.
Qed.

(** ** Properties *)

(** C2: [write] refines the abstract buffer: on a well-formed buffer it never panics, keeps the
    invariant and the window, and the byte at every absolute offset afterwards is the one the overlap
    policy asks for. Where the write is stored, [First] keeps a byte that was already held and [Last]
    replaces it, and an offset nobody had written gets the new byte; outside the stored part nothing
    changes. *)
Theorem write_refines (b : RangeBuffer) (offset : Z) (bytes : list Z) (policy : OverlapPolicy) :
  rb_wf b -> 0 <= offset <= U64_MAX ->
  exists b' o, write b offset bytes policy = Some (b', o) /\ rb_wf b' /\
    rb_base b' = rb_base b /\
    forall i, byte_at b' i = write_at b offset bytes policy i.
Proof. intros Hwf Ho. destruct (write_ok b offset bytes policy Hwf Ho) as (b' & o & ? & []). eauto 8. Qed.

Lemma write_refines_witness :
  exists b' o, write (new 10 100 4) 12 [7; 8; 9] Last = Some (b', o) /\ rb_wf b' /\
    rb_base b' = 10 /\ forall i, byte_at b' i = write_at (new 10 100 4) 12 [7; 8; 9] Last i.
Proof. apply (write_refines (new 10 100 4) 12 [7; 8; 9] Last); [apply rb_new_wf|]; unfold U64_MAX; lia. Defined.

(** The outcome of [write] is exact. It counts as accepted the offsets of the stored part that
    held nothing, as overlapped those that held a byte, as conflicting those whose two copies
    disagree, as replaced the conflicting ones under [Last] and none under [First]; and unless the
    end of the write passes the top of the offset space, every byte offered is accounted for exactly
    once as accepted, overlapped, refused or before the window. *)
Theorem write_outcome_exact (b : RangeBuffer) (offset : Z) (bytes : list Z) (policy : OverlapPolicy)
    (b' : RangeBuffer) (o : WriteOutcome) :
  rb_wf b -> 0 <= offset <= U64_MAX -> write b offset bytes policy = Some (b', o) ->
  let lo := lower b offset in let hi := upper b offset bytes in
  accepted o = count (fun i => negb (covered_in (rb_covered b) i)) lo hi /\
  overlapped o = count (covered_in (rb_covered b)) lo hi /\
  conflicting o = count (conflicts_at b offset bytes) lo hi /\
  replaced o = (if bool_decide (policy = Last) then conflicting o else 0) /\
  (offset + len bytes <= U64_MAX ->
   accepted o + overlapped o + refused o + before_window o = len bytes).
Proof.
  intros Hwf Ho Hw. destruct (write_ok b offset bytes policy Hwf Ho) as (? & ? & E & []).
  simplify_eq. repeat split; try done. intros Hs. by destruct (wp_accounted0 Hs).
Qed.

Lemma write_outcome_exact_witness :
  exists b1 o1 b2 o2, write (new 10 8 4) 12 [7; 8; 9] First = Some (b1, o1) /\
    write b1 9 [1; 2; 3; 7; 0; 0; 0; 0; 0; 0; 0] First = Some (b2, o2) /\
    accepted o2 + overlapped o2 + refused o2 + before_window o2 = 11 /\ conflicting o2 = 2 /\
    conflicting o2 = count (conflicts_at b1 9 [1; 2; 3; 7; 0; 0; 0; 0; 0; 0; 0])
      (lower b1 9) (upper b1 9 [1; 2; 3; 7; 0; 0; 0; 0; 0; 0; 0]).
Proof.
  destruct (write_ok (new 10 8 4) 12 [7; 8; 9] First) as (b1 & o1 & E1 & [Hwf _ _ _ _ _ _ _ _ _]);
    [apply rb_new_wf; unfold U64_MAX; lia|unfold U64_MAX; lia|].
  pose proof E1 as E1'. vm_compute in E1'. simplify_eq.
  eexists _, _, _, _. split; [exact E1|]. split; [vm_compute; reflexivity|].
  pose proof (write_outcome_exact _ 9 [1; 2; 3; 7; 0; 0; 0; 0; 0; 0; 0] First _ _ Hwf
    ltac:(unfold U64_MAX; lia) ltac:(vm_compute; reflexivity)) as (_ & _ & Hc & _ & Ha).
  split; [apply Ha; unfold U64_MAX; simpl; lia|]. split; [reflexivity|exact Hc].
Defined.

(** Draining hands out exactly the contiguous prefix. On a well-formed buffer it never panics;
    it appends the bytes held from the base of the window up to the first missing offset or the
    limit, whichever comes first, advances the window past them, and leaves every byte above them
    as it was. *)
Theorem drain_delivers_prefix (b : RangeBuffer) (limit : Z) (out : list Z) :
  rb_wf b ->
  exists b' taken, drain_contiguous_upto b limit out = Some (b', out ++ taken, len taken) /\
    rb_wf b' /\ rb_base b' = rb_base b + len taken /\
    len taken = Z.max 0 (Z.min (contiguous_end b) limit - rb_base b) /\
    byte_at b (contiguous_end b) = None /\
    (forall j, 0 <= j < len taken -> taken !! Z.to_nat j = byte_at b (rb_base b + j)) /\
    (forall i, rb_base b' <= i -> byte_at b' i = byte_at b i).
Proof.
  intros Hwf. destruct (drain_ok b limit out Hwf) as (b' & out' & n & E & []).
  destruct dp_out0 as (taken & -> & <- & ?). exists b', taken.
  split_and!; try done. by apply contiguous_end_maximal.
Qed.

Lemma drain_delivers_prefix_witness :
  exists b1 o1, write (new 10 8 4) 10 [7; 8; 9] First = Some (b1, o1) /\
    exists b' taken, drain_contiguous_upto b1 12 [1] = Some (b', [1] ++ taken, len taken) /\
      rb_base b' = 12 /\ taken = [7; 8].
Proof.
  destruct (write_ok (new 10 8 4) 10 [7; 8; 9] First) as (b1 & o1 & E1 & [Hwf _ _ _ _ _ _ _ _ _]);
    [apply rb_new_wf; unfold U64_MAX; lia|unfold U64_MAX; lia|].
  exists b1, o1. split; [exact E1|].
  destruct (drain_delivers_prefix b1 12 [1] Hwf) as (b' & taken & E & _).
  exists b', taken. split; [exact E|].
  vm_compute in E1. injection E1 as <- <-. vm_compute in E. by injection E as <- <-.
Defined.

(** The buffer is bounded twice over and never panics. From a fresh buffer, any sequence of
    writes, drains and resets at [u64] offsets runs to completion, holds at most the byte limit and
    tracks at most the range limit of disjoint ranges. *)
Theorem range_buffer_bounded (base byte_limit range_limit : Z) (ops : list Op) :
  0 <= base <= U64_MAX -> Forall op_ok ops ->
  exists b, run_ops (new base byte_limit range_limit) ops = Some b /\
    0 <= buffered_bytes b <= Z.max byte_limit 1 /\
    range_count b <= Z.max range_limit 1 /\
    len (rb_data b) <= Z.max byte_limit 1.
Proof.
  intros Hb Hops.
  destruct (run_ops_ok (new base byte_limit range_limit) ops) as (b & E & Hwf & Hbl & Hrl); auto with sensor.
  exists b. pose proof (buffered_bytes_bounds b Hwf). destruct Hwf. simpl in *.
  repeat split; try done; lia.
Qed.

Lemma range_buffer_bounded_witness :
  exists b, run_ops (new 0 4 2) [OpWrite 0 [1] First; OpWrite 2 [2] First; OpWrite 4 [3] Last;
      OpDrain 9; OpWrite 6 [5; 6] First; OpReset 5] = Some b /\
    0 <= buffered_bytes b <= 4 /\ range_count b <= 2 /\ len (rb_data b) <= 4.
Proof.
  apply (range_buffer_bounded 0 4 2); [unfold U64_MAX; lia|].
  repeat constructor; simpl; unfold U64_MAX; lia.
Defined.
