(* ===== verification/Policy.v ===== *)
(** Resolving the overlap policy for a destination: [crates/reassembly/src/policy.rs]. *)

From S2P Require Import Prelude Net Config.

Record PolicyResolver := mkPolicyResolver {
  pr_default_policy : OverlapPolicy;
  pr_entries : list (IpNetwork * OverlapPolicy)
}.

(** [PolicyResolver::new]: the overrides, stably sorted by descending prefix length. *)
Definition new (default_policy : OverlapPolicy) (overrides : list HostPolicy) : PolicyResolver :=
  mkPolicyResolver default_policy
    (sort_by_key (fun e => - net_prefix_len e.1)
       ((fun e => (hp_network e, hp_policy e)) <$> overrides)).

Definition from_config (c : ReassemblyConfig) : PolicyResolver :=
  new (overlap_policy c) (host_policies c).

Definition for_destination (r : PolicyResolver) (address : IpAddr) : OverlapPolicy :=
  match List.find (fun e => contains e.1 address) (pr_entries r) with
  | Some e => e.2
  | None => pr_default_policy r
  end.

Definition default_policy (r : PolicyResolver) : OverlapPolicy := pr_default_policy r.

Definition override_count (r : PolicyResolver) : Z := len (pr_entries r).

(** [e] is an override for [address] than which none is more specific. *)
Definition most_specific (overrides : list HostPolicy) (address : IpAddr) (e : HostPolicy) : Prop :=
  e ∈ overrides /\ contains (hp_network e) address = true /\
  forall e', e' ∈ overrides -> contains (hp_network e') address = true ->
    net_prefix_len (hp_network e') <= net_prefix_len (hp_network e).

(** Two networks of the same length that contain the same address are the same network. *)
Lemma contains_unique n1 n2 a :
  contains n1 a = true -> contains n2 a = true -> net_prefix_len n1 = net_prefix_len n2 -> n1 = n2.
Proof.
  unfold contains. destruct n1 as [x1 p1], n2 as [x2 p2]; simpl. intros H1 H2 ->.
  destruct x1, x2, a; try done; bsimpl; subst; done.
Qed.

Lemma entries_elem d overrides n p :
  (n, p) ∈ pr_entries (new d overrides) <-> mkHostPolicy n p ∈ overrides.
Proof.
  simpl. rewrite sort_by_key_perm, list_elem_of_fmap. split.
  - intros ([n' p'] & ? & ?). simpl in *. by simplify_eq.
  - intros H. by exists (mkHostPolicy n p).
Qed.

Lemma find_sorted_most_specific d overrides address e :
  List.find (fun e => contains e.1 address) (pr_entries (new d overrides)) = Some e ->
  most_specific overrides address (mkHostPolicy e.1 e.2).
Proof.
  intros Hf. pose proof (List.find_some _ _ Hf) as [Hin Hc]. apply list_elem_of_In in Hin.
  destruct e as [n p]. simpl in *. split; [by apply (entries_elem d)|]. split; [done|].
  intros [n' p'] Hin' Hc'. simpl in *. apply (entries_elem d) in Hin'. simpl in Hin', Hin.
  pose proof (sort_by_key_sorted (fun e : IpNetwork * OverlapPolicy => - net_prefix_len e.1)
    ((fun e => (hp_network e, hp_policy e)) <$> overrides)) as Hs.
  revert Hs Hf Hin'. generalize (sort_by_key (fun e : IpNetwork * OverlapPolicy => - net_prefix_len e.1)
    ((fun e => (hp_network e, hp_policy e)) <$> overrides)). intros l Hs Hf Hin'.
  induction Hs as [|q l Hs IH Hall]; [done|]. simpl in Hf.
  destruct (contains q.1 address) eqn:Hq.
  - simplify_eq. apply elem_of_cons in Hin' as [[= -> ->]|Hin']; [lia|].
    rewrite Forall_forall in Hall. specialize (Hall _ Hin'). simpl in Hall. lia.
  - apply IH; [done|]. apply elem_of_cons in Hin' as [<-|]; [|done]. simpl in Hq. congruence.
Qed.

Lemma find_none_no_override d overrides address :
  List.find (fun e => contains e.1 address) (pr_entries (new d overrides)) = None ->
  forall e, e ∈ overrides -> contains (hp_network e) address = false.
Proof.
  intros Hf [n p] Hin. apply (entries_elem d) in Hin. apply list_elem_of_In in Hin.
  exact (List.find_none _ _ Hf _ Hin).
Qed.

Lemma for_destination_cases d overrides address :
  (exists e, most_specific overrides address e /\
     for_destination (new d overrides) address = hp_policy e) \/
  ((forall e, e ∈ overrides -> contains (hp_network e) address = false) /\
   for_destination (new d overrides) address = d).
Proof.
  unfold for_destination. destruct (List.find _ _) as [e|] eqn:Hf.
  - left. eexists. split; [by eapply find_sorted_most_specific|done].
  - right. split; [by eapply find_none_no_override|done].
Qed.

(** ** Properties *)

(** Longest prefix wins, whatever the order of the file. When a configuration's overrides name
    no network twice (which [check] enforces), the policy for a destination is that of the most
    specific override containing it, for every ordering of the overrides, and the default when no
    override contains it. *)
Theorem longest_prefix_wins (d : OverlapPolicy) (overrides : list HostPolicy) (address : IpAddr)
    (e : HostPolicy) (reordered : list HostPolicy) :
  NoDup (hp_network <$> overrides) -> reordered ≡ₚ overrides ->
  (most_specific overrides address e ->
   for_destination (new d reordered) address = hp_policy e) /\
  ((forall e', e' ∈ overrides -> contains (hp_network e') address = false) ->
   for_destination (new d reordered) address = d).
Proof.
  intros Hnd Hp. destruct (for_destination_cases d reordered address)
    as [(e1 & (Hin1 & Hc1 & Hm1) & ->)|(Hno & ->)].
  - rewrite Hp in Hin1. split.
    + intros (Hin & Hc & Hm). 
      assert (hp_network e1 = hp_network e) as Hn.
      { eapply contains_unique; [done..|]. apply Z.le_antisymm; [by apply Hm|].
        apply Hm1; [by rewrite Hp|done]. }
      destruct (list_elem_of_lookup_1 _ _ Hin1) as [i Hi].
      destruct (list_elem_of_lookup_1 _ _ Hin) as [j Hj].
      assert (i = j) as ->; [|by simplify_eq].
      eapply (NoDup_lookup (hp_network <$> overrides)); [done|by rewrite list_lookup_fmap, Hi|].
      rewrite list_lookup_fmap, Hj. simpl. by rewrite Hn.
    + intros Hno. rewrite (Hno _ Hin1) in Hc1. done.
  - split; [|done]. intros (Hin & Hc & _). rewrite <- Hp in Hin. rewrite (Hno _ Hin) in Hc. done.
Qed.

Lemma longest_prefix_wins_witness :
  let wide := mkHostPolicy (mkIpNetwork (V4 (Z.shiftl 10 24)) 8) First in
  let narrow := mkHostPolicy (mkIpNetwork (V4 (Z.shiftl 10 24 + 5)) 32) Last in
  for_destination (new First [wide; narrow]) (V4 (Z.shiftl 10 24 + 5)) = Last /\
  for_destination (new First [narrow; wide]) (V4 (Z.shiftl 11 24)) = First.
Proof.
  intros wide narrow.
  assert (Hnd : NoDup (hp_network <$> [wide; narrow])).
  { apply (bool_decide_eq_true_1 (NoDup (hp_network <$> [wide; narrow]))). vm_compute. reflexivity. }
  split.
  - apply (longest_prefix_wins First [wide; narrow] (V4 (Z.shiftl 10 24 + 5)) narrow [wide; narrow]);
      [exact Hnd|reflexivity|].
    split; [right; left|]. split; [reflexivity|]. intros e' He' _.
    apply elem_of_cons in He' as [->|He']; [vm_compute; discriminate|].
    apply list_elem_of_singleton in He' as ->. vm_compute. discriminate.
  - apply (longest_prefix_wins First [wide; narrow] (V4 (Z.shiftl 11 24)) narrow [narrow; wide]);
      [exact Hnd|apply Permutation_swap|].
    intros e' He'. apply elem_of_cons in He' as [->|He']; [reflexivity|].
    apply list_elem_of_singleton in He' as ->. reflexivity.
Defined.
