(* ===== verification/Stream.v ===== *)
(** TCP stream reassembly: [crates/reassembly/src/stream.rs].

    [Stream] is one direction, [StreamPair] a conversation. Every operation returns [None] where the
    source would panic, and the theorems show it never does. Sequence numbers are 32-bit and wrap;
    absolute offsets are 64-bit. Counters are integers without wrap-around. *)

From S2P Require Import Prelude Config RangeBuffer.

(** ** Segments *)

(** [mod flags]. *)
Definition FIN : Z := 1.
Definition SYN : Z := 2.
Definition RST : Z := 4.
Definition ACK : Z := 16.

Definition MAX_HOLES_PER_STREAM : Z := 256.
Definition RST_SEQUENCE_SLACK : Z := 65535.

Record TcpSegment := mkTcpSegment {
  sequence : Z;
  acknowledgment : Z;
  seg_flags : Z;
  seg_payload : list Z
}.

Definition has (s : TcpSegment) (flag : Z) : bool := negb (Z.land (seg_flags s) flag =? 0).

(** ** Output and counters *)

Record StreamReady := mkStreamReady {
  ready_to_server : list Z;
  ready_to_client : list Z
}.

Definition StreamReady_default : StreamReady := mkStreamReady [] [].

Definition StreamReady_clear (_ : StreamReady) : StreamReady := mkStreamReady [] [].

Definition StreamReady_is_empty (r : StreamReady) : bool :=
  (len (ready_to_server r) =? 0) && (len (ready_to_client r) =? 0).

Definition StreamReady_len (r : StreamReady) : Z :=
  len (ready_to_server r) + len (ready_to_client r).

Record StreamCounters := mkStreamCounters {
  segments : Z;
  bytes_accepted : Z;
  bytes_delivered : Z;
  overlaps : Z;
  conflicting_overlaps : Z;
  refused_bytes : Z;
  out_of_window : Z;
  sc_before_window : Z;
  after_fin : Z;
  syn_data : Z;
  flushed_unacked : Z;
  dropped_incomplete : Z
}.

Definition StreamCounters_default : StreamCounters := mkStreamCounters 0 0 0 0 0 0 0 0 0 0 0 0.

(** [StreamCounters::merge]. *)
Definition merge (a b : StreamCounters) : StreamCounters := {|
  segments := segments a + segments b;
  bytes_accepted := bytes_accepted a + bytes_accepted b;
  bytes_delivered := bytes_delivered a + bytes_delivered b;
  overlaps := overlaps a + overlaps b;
  conflicting_overlaps := conflicting_overlaps a + conflicting_overlaps b;
  refused_bytes := refused_bytes a + refused_bytes b;
  out_of_window := out_of_window a + out_of_window b;
  sc_before_window := sc_before_window a + sc_before_window b;
  after_fin := after_fin a + after_fin b;
  syn_data := syn_data a + syn_data b;
  flushed_unacked := flushed_unacked a + flushed_unacked b;
  dropped_incomplete := dropped_incomplete a + dropped_incomplete b
|}.

(** The increments the operations make, as counters to merge in. *)
Definition count_segment : StreamCounters := mkStreamCounters 1 0 0 0 0 0 0 0 0 0 0 0.
Definition count_syn_data (n : Z) : StreamCounters := mkStreamCounters 0 0 0 0 0 0 0 0 0 n 0 0.
Definition count_before_window (n : Z) : StreamCounters := mkStreamCounters 0 0 0 0 0 0 0 n 0 0 0 0.
Definition count_out_of_window (n : Z) : StreamCounters := mkStreamCounters 0 0 0 0 0 0 n 0 0 0 0 0.
Definition count_after_fin (n : Z) : StreamCounters := mkStreamCounters 0 0 0 0 0 0 0 0 n 0 0 0.
Definition count_write (o : WriteOutcome) : StreamCounters :=
  mkStreamCounters 0 (accepted o) 0 (overlapped o) (conflicting o) (refused o) 0 (before_window o)
    0 0 0 0.
Definition count_flushed (n : Z) : StreamCounters := mkStreamCounters 0 0 0 0 0 0 0 0 0 0 n 0.
Definition count_delivered (n : Z) : StreamCounters := mkStreamCounters 0 0 n 0 0 0 0 0 0 0 0 0.
Definition count_dropped (n : Z) : StreamCounters := mkStreamCounters 0 0 0 0 0 0 0 0 0 0 0 n.

(** ** One direction *)

Record Stream := mkStream {
  base_sequence : Z;
  established : bool;
  buffer : RangeBuffer;
  acknowledged_upto : Z;
  fin_at : option Z;
  byte_limit : Z;
  flush_bytes : Z;
  counters : StreamCounters
}.

Definition set_anchor (s : Stream) (seq : Z) : Stream :=
  mkStream seq true (buffer s) (acknowledged_upto s) (fin_at s) (byte_limit s) (flush_bytes s)
    (counters s).

Definition set_buffer (s : Stream) (b : RangeBuffer) : Stream :=
  mkStream (base_sequence s) (established s) b (acknowledged_upto s) (fin_at s) (byte_limit s)
    (flush_bytes s) (counters s).

Definition set_acknowledged (s : Stream) (a : Z) : Stream :=
  mkStream (base_sequence s) (established s) (buffer s) a (fin_at s) (byte_limit s) (flush_bytes s)
    (counters s).

Definition set_fin (s : Stream) (f : Z) : Stream :=
  mkStream (base_sequence s) (established s) (buffer s) (acknowledged_upto s) (Some f) (byte_limit s)
    (flush_bytes s) (counters s).

Definition bump (s : Stream) (c : StreamCounters) : Stream :=
  mkStream (base_sequence s) (established s) (buffer s) (acknowledged_upto s) (fin_at s)
    (byte_limit s) (flush_bytes s) (merge (counters s) c).

Definition new (byte_limit flush_bytes : Z) : Stream := {|
  base_sequence := 0;
  established := false;
  buffer := RangeBuffer.new 0 byte_limit MAX_HOLES_PER_STREAM;
  acknowledged_upto := 0;
  fin_at := None;
  byte_limit := byte_limit;
  flush_bytes := flush_bytes;
  counters := StreamCounters_default
|}.

(** [Stream::absolute]: an [i64]. *)
Definition absolute (s : Stream) (seq : Z) : Z :=
  as_i64 (rb_base (buffer s)) + as_i32 (wrapping_sub32 seq (base_sequence s)).

Definition establish (s : Stream) (seg : TcpSegment) : Stream :=
  if established s then s
  else if has seg SYN then set_anchor s (wrapping_add32 (sequence seg) 1)
  else if negb (len (seg_payload seg) =? 0) then set_anchor s (sequence seg)
  else s.

Definition store (s : Stream) (seq : Z) (payload : list Z) (policy : OverlapPolicy) :
    option Stream :=
  let offset := absolute s seq in
  if offset + len payload <=? as_i64 (rb_base (buffer s)) then
    Some (bump s (count_before_window (len payload)))
  else
    let window_end := rb_base (buffer s) + byte_limit s in
    if (offset <? 0) || (window_end <=? offset) then
      Some (bump s (count_out_of_window (len payload)))
    else
      let past_fin := match fin_at s with Some f => f <=? offset | None => false end in
      if past_fin then Some (bump s (count_after_fin (len payload)))
      else
        '(b, outcome) ← RangeBuffer.write (buffer s) offset payload policy;
        Some (bump (set_buffer s b) (count_write outcome)).

(** The sequence number of the first payload byte. *)
Definition data_sequence (seg : TcpSegment) : Z :=
  if has seg SYN then wrapping_add32 (sequence seg) 1 else sequence seg.

Definition push (s : Stream) (seg : TcpSegment) (policy : OverlapPolicy) : option Stream :=
  let s := establish s seg in
  if negb (established s) then Some s
  else
    let has_payload := negb (len (seg_payload seg) =? 0) in
    let s := if has_payload then bump s count_segment else s in
    let s := if has seg SYN && has_payload then bump s (count_syn_data (len (seg_payload seg)))
             else s in
    let seq := data_sequence seg in
    s ← (if has_payload then store s seq (seg_payload seg) policy else Some s);
    if has seg FIN then
      let fin := Z.max (absolute s seq) 0 + len (seg_payload seg) in
      Some (set_fin s (match fin_at s with Some existing => Z.min existing fin | None => fin end))
    else Some s.

Definition acknowledge (s : Stream) (ack : Z) : Stream :=
  if negb (established s) then s
  else
    let offset := absolute s ack in
    if 0 <? offset then set_acknowledged s (Z.max (acknowledged_upto s) offset) else s.

(** [Stream::deliver]: the stream and [out] with the settled bytes appended. *)
Definition deliver (s : Stream) (out : list Z) (force : bool) : option (Stream * list Z) :=
  let contiguous := contiguous_end (buffer s) in
  let available := sat_sub contiguous (rb_base (buffer s)) in
  let flush := negb force && (flush_bytes s <=? available) in
  let s := if flush then bump s (count_flushed available) else s in
  let limit := if force || flush then contiguous else Z.min (acknowledged_upto s) contiguous in
  '(b, out', _) ← drain_contiguous_upto (buffer s) limit out;
  let moved := len out' - len out in
  let s := bump (set_buffer s b) (count_delivered moved) in
  Some (mkStream (wrapping_add32 (base_sequence s) (as_u32 moved)) (established s) (buffer s)
          (acknowledged_upto s) (fin_at s) (byte_limit s) (flush_bytes s) (counters s), out').

Definition rst_is_in_window (s : Stream) (seq : Z) : bool :=
  if negb (established s) then false
  else
    let offset := absolute s seq in
    (0 <=? offset) && (offset <=? covered_end (buffer s) + RST_SEQUENCE_SLACK).

Definition discard (s : Stream) : Stream :=
  let s := bump s (count_dropped (RangeBuffer.buffered_bytes (buffer s))) in
  set_buffer s (reset (buffer s) (rb_base (buffer s))).

Definition buffered_bytes (s : Stream) : Z := RangeBuffer.buffered_bytes (buffer s).

(** ** Both directions *)

Record StreamPair := mkStreamPair {
  to_server : Stream;
  to_client : Stream
}.

Definition pair_new (c : ReassemblyConfig) : StreamPair :=
  let limit := Z.max (max_stream_bytes_per_flow c) 1 in
  let flush := Z.max 1 (Z.min (delivery_flush_bytes c) limit) in
  mkStreamPair (new limit flush) (new limit flush).

(** [StreamPair::push]. *)
Definition pair_push (p : StreamPair) (towards_server : bool) (seg : TcpSegment)
    (policy_to_server policy_to_client : OverlapPolicy) (ready : StreamReady) :
    option (StreamPair * StreamReady) :=
  p ← (if towards_server then
         s ← push (to_server p) seg policy_to_server;
         Some (mkStreamPair s
                 (if has seg ACK then acknowledge (to_client p) (acknowledgment seg)
                  else to_client p))
       else
         c ← push (to_client p) seg policy_to_client;
         Some (mkStreamPair
                 (if has seg ACK then acknowledge (to_server p) (acknowledgment seg)
                  else to_server p) c));
  '(s, out_s) ← deliver (to_server p) (ready_to_server ready) false;
  '(c, out_c) ← deliver (to_client p) (ready_to_client ready) false;
  Some (mkStreamPair s c, mkStreamReady out_s out_c).

Definition rst_should_close (p : StreamPair) (towards_server : bool) (seq : Z) : bool :=
  rst_is_in_window (if towards_server then to_server p else to_client p) seq.

(** [StreamPair::flush]. *)
Definition pair_flush (p : StreamPair) (ready : StreamReady) : option (StreamPair * StreamReady) :=
  '(s, out_s) ← deliver (to_server p) (ready_to_server ready) true;
  '(c, out_c) ← deliver (to_client p) (ready_to_client ready) true;
  Some (mkStreamPair (discard s) (discard c), mkStreamReady out_s out_c).

Definition pair_buffered_bytes (p : StreamPair) : Z :=
  buffered_bytes (to_server p) + buffered_bytes (to_client p).

Definition pair_counters (p : StreamPair) : StreamCounters :=
  merge (counters (to_server p)) (counters (to_client p)).

Definition direction_counters (p : StreamPair) (towards_server : bool) : StreamCounters :=
  if towards_server then counters (to_server p) else counters (to_client p).

(** ** The invariant *)

Record stream_wf (s : Stream) : Prop := {
  sw_buffer : rb_wf (buffer s);
  sw_sequence : 0 <= base_sequence s < 2 ^ 32;
  sw_limit : 1 <= byte_limit s;
  sw_byte_limit : rb_byte_limit (buffer s) = byte_limit s;
  sw_flush : 1 <= flush_bytes s <= byte_limit s;
  sw_ack : 0 <= acknowledged_upto s;
  sw_fin : forall f, fin_at s = Some f -> 0 <= f;
  sw_delivered : bytes_delivered (counters s) = rb_base (buffer s)
}.

Definition pair_wf (p : StreamPair) : Prop := stream_wf (to_server p) /\ stream_wf (to_client p).

(** The fields of a segment are 32-bit. *)
Definition segment_ok (seg : TcpSegment) : Prop :=
  0 <= sequence seg < 2 ^ 32 /\ 0 <= acknowledgment seg < 2 ^ 32.

(** ** Sequence arithmetic *)

Lemma as_i32_mod d : - 2 ^ 31 <= d < 2 ^ 31 -> as_i32 (d mod 2 ^ 32) = d.
Proof.
  intros Hd. unfold as_i32. destruct (Z.leb_spec 0 d).
  - rewrite Z.mod_small by lia. by zdec.
  - rewrite <- (Z_mod_plus_full d 1), Z.mod_small by lia. zdec. lia.
Qed.

Lemma as_i64_small x : 0 <= x < 2 ^ 63 -> as_i64 x = x.
Proof. intros. unfold as_i64. by zdec. Qed.

Lemma as_i64_bounds x : 0 <= x <= U64_MAX -> - 2 ^ 63 <= as_i64 x < 2 ^ 63.
Proof. unfold as_i64, U64_MAX. intros. zcase; lia. Qed.

Lemma as_i32_bounds x : 0 <= x < 2 ^ 32 -> - 2 ^ 31 <= as_i32 x < 2 ^ 31.
Proof. unfold as_i32. intros. zcase; lia. Qed.

(** A sequence number within half the space of the anchor maps to the offset it stands for. *)
Lemma absolute_at s d :
  0 <= rb_base (buffer s) < 2 ^ 63 -> - 2 ^ 31 <= d < 2 ^ 31 ->
  absolute s ((base_sequence s + d) mod 2 ^ 32) = rb_base (buffer s) + d.
Proof.
  intros Hb Hd. unfold absolute, wrapping_sub32. rewrite as_i64_small by done. f_equal.
  rewrite Zminus_mod_idemp_l. replace (base_sequence s + d - base_sequence s) with d by lia.
  by apply as_i32_mod.
Qed.

Lemma absolute_bounds s seq :
  stream_wf s -> - 2 ^ 63 - 2 ^ 31 <= absolute s seq <= U64_MAX.
Proof.
  intros Hs. pose proof (wf_base _ (sw_buffer _ Hs)). pose proof (wf_top _ (sw_buffer _ Hs)).
  pose proof (as_i64_bounds (rb_base (buffer s)) ltac:(lia)).
  pose proof (as_i32_bounds (wrapping_sub32 seq (base_sequence s))
    ltac:(apply Z.mod_pos_bound; lia)).
  unfold absolute, U64_MAX in *. lia.
Qed.

(** ** The operations keep the invariant *)

Lemma stream_new_wf limit flush : 1 <= flush <= limit -> stream_wf (new limit flush).
Proof.
  intros. split; simpl; try done; try lia.
  - apply rb_new_wf. unfold U64_MAX. lia.
Qed.

Lemma bump_wf s c : stream_wf s -> bytes_delivered c = 0 -> stream_wf (bump s c).
Proof. intros [] Hc. split; simpl; try done. lia. Qed.

Lemma establish_wf s seg : stream_wf s -> segment_ok seg -> stream_wf (establish s seg).
Proof.
  intros Hs [Hq _]. unfold establish. destruct Hs. repeat case_match; split; simpl; try done.
  apply Z.mod_pos_bound. lia.
Qed.

Lemma establish_buffer s seg :
  buffer (establish s seg) = buffer s /\ acknowledged_upto (establish s seg) = acknowledged_upto s /\
  fin_at (establish s seg) = fin_at s /\ byte_limit (establish s seg) = byte_limit s /\
  flush_bytes (establish s seg) = flush_bytes s /\ counters (establish s seg) = counters s.
Proof. unfold establish. by repeat case_match. Qed.

(** What storing a payload leaves alone. *)
Record same_stream (s s' : Stream) : Prop := {
  ss_sequence : base_sequence s' = base_sequence s;
  ss_established : established s' = established s;
  ss_base : rb_base (buffer s') = rb_base (buffer s);
  ss_ack : acknowledged_upto s' = acknowledged_upto s;
  ss_limit : byte_limit s' = byte_limit s;
  ss_flush : flush_bytes s' = flush_bytes s;
  ss_flushed : flushed_unacked (counters s') = flushed_unacked (counters s)
}.

Lemma same_stream_refl s : same_stream s s.
Proof. done. Qed.

Lemma same_stream_trans s1 s2 s3 : same_stream s1 s2 -> same_stream s2 s3 -> same_stream s1 s3.
Proof. intros [] []. split; congruence. Qed.

Lemma bump_same s c : flushed_unacked c = 0 -> same_stream s (bump s c).
Proof. intros. split; simpl; try done. lia. Qed.

(** Either nothing was stored, or the buffer took the payload at its absolute offset. *)
Definition stored (s : Stream) (seq : Z) (payload : list Z) (policy : OverlapPolicy)
    (b' : RangeBuffer) : Prop :=
  b' = buffer s \/
  exists o, 0 <= absolute s seq <= U64_MAX /\
    write_post (buffer s) (absolute s seq) payload policy b' o.

Lemma store_ok s seq payload policy :
  stream_wf s ->
  exists s', store s seq payload policy = Some s' /\ stream_wf s' /\ same_stream s s' /\
    fin_at s' = fin_at s /\ stored s seq payload policy (buffer s').
Proof.
  intros Hs. pose proof (absolute_bounds s seq Hs) as Hab. unfold store.
  assert (Hb : forall c, bytes_delivered c = 0 -> flushed_unacked c = 0 ->
    exists s', Some (bump s c) = Some s' /\ stream_wf s' /\ same_stream s s' /\
      fin_at s' = fin_at s /\ stored s seq payload policy (buffer s')).
  { intros c Hc1 Hc2. eexists. split; [done|]. split; [by apply bump_wf|].
    split; [by apply bump_same|]. split; [done|]. by left. }
  zcase; [by apply Hb|]. destruct ((_ <? 0) || _) eqn:Hw; [by apply Hb|]. bsimpl.
  case_match; [by apply Hb|].
  destruct (write_ok (buffer s) (absolute s seq) payload policy (sw_buffer _ Hs))
    as (b' & o & -> & Hp); [lia|]. simpl. eexists. split; [done|].
  pose proof Hp as [P1 P2 P3 P4 _ _ _ _ _ _]. destruct Hs. split; [split; simpl; try done; lia|].
  split; [split; simpl; try done; lia|]. split; [done|]. right. exists o. split; [lia|done].
Qed.

Lemma push_ok s seg policy :
  stream_wf s -> segment_ok seg ->
  exists s', push s seg policy = Some s' /\ stream_wf s' /\ same_stream (establish s seg) s' /\
    stored (establish s seg) (data_sequence seg) (seg_payload seg) policy (buffer s') /\
    (established s' = false -> s' = s) /\
    (forall f, fin_at s = Some f -> exists f', fin_at s' = Some f' /\ f' <= f).
Proof.
  intros Hs Hseg. unfold push. pose proof (establish_wf s seg Hs Hseg) as He.
  pose proof (establish_buffer s seg) as (_ & _ & Hfin & _).
  assert (Hne : established (establish s seg) = false -> establish s seg = s).
  { unfold establish. by repeat case_match. }
  set (e := establish s seg) in *. clearbody e.
  destruct (established e) eqn:Hest; simpl; cycle 1.
  { exists e. split; [done|]. split; [done|]. split; [done|]. split; [by left|].
    split; [by intros _; apply Hne|]. rewrite <- Hfin. eauto with lia. }
  set (s1 := if has seg SYN && _ then _ else _).
  assert (H1 : stream_wf s1 /\ same_stream e s1 /\ fin_at s1 = fin_at e /\ buffer s1 = buffer e).
  { unfold s1. repeat case_match; (split; [repeat apply bump_wf; done|]);
      (split; [|done]); split; simpl; try done; lia. }
  clearbody s1. destruct H1 as (Hw1 & Hs1 & Hf1 & Hb1).
  assert (Habs : absolute s1 (data_sequence seg) = absolute e (data_sequence seg)).
  { unfold absolute. by rewrite Hb1, (ss_sequence _ _ Hs1). }
  assert (Hst : exists s2, (if negb (len (seg_payload seg) =? 0)
      then store s1 (data_sequence seg) (seg_payload seg) policy else Some s1) = Some s2 /\
      stream_wf s2 /\ same_stream e s2 /\ fin_at s2 = fin_at e /\
      stored e (data_sequence seg) (seg_payload seg) policy (buffer s2)).
  { zcase; simpl.
    - exists s1. split; [done|]. split; [done|]. split; [done|]. split; [done|]. by left.
    - destruct (store_ok s1 (data_sequence seg) (seg_payload seg) policy Hw1)
        as (s2 & -> & Hw2 & Hs2 & Hf2 & Hst). exists s2. split; [done|]. split; [done|].
      split; [by eapply same_stream_trans|]. split; [congruence|].
      unfold stored in *. by rewrite Hb1, Habs in Hst. }
  destruct Hst as (s2 & -> & Hw2 & Hs2 & Hf2 & Hst2). simpl.
  assert (Hest2 : established s2 = true) by (rewrite (ss_established _ _ Hs2); done).
  case_match.
  - eexists. split; [done|]. split; [|split; [|split; [done|split; [simpl; congruence|]]]].
    + destruct Hw2. split; simpl; try done. intros f [= <-].
      destruct (fin_at s2) as [f|] eqn:Ef; [specialize (sw_fin0 f eq_refl)|]; lia.
    + destruct Hs2. split; done.
    + intros f Hf. simpl. assert (fin_at s2 = Some f) as -> by congruence. eauto with lia.
  - exists s2. split; [done|]. split; [done|]. split; [done|]. split; [done|].
    split; [congruence|]. intros f Hf. exists f. split; [congruence|lia].
Qed.

Lemma acknowledge_ok s a :
  stream_wf s -> stream_wf (acknowledge s a) /\
  buffer (acknowledge s a) = buffer s /\ base_sequence (acknowledge s a) = base_sequence s /\
  established (acknowledge s a) = established s /\ fin_at (acknowledge s a) = fin_at s /\
  counters (acknowledge s a) = counters s /\
  byte_limit (acknowledge s a) = byte_limit s /\ flush_bytes (acknowledge s a) = flush_bytes s /\
  acknowledged_upto s <= acknowledged_upto (acknowledge s a).
Proof.
  intros []. unfold acknowledge. repeat case_match; bsimpl; simpl; split_and!; try done; try lia;
    split; simpl; try done; lia.
Qed.

(** What a delivery does. *)
Record deliver_post (s : Stream) (force : bool) (s' : Stream) (taken : list Z) : Prop := {
  del_wf : stream_wf s';
  del_base : rb_base (buffer s') = rb_base (buffer s) + len taken;
  del_sequence : base_sequence s' = (base_sequence s + len taken) mod 2 ^ 32;
  del_established : established s' = established s;
  del_ack : acknowledged_upto s' = acknowledged_upto s;
  del_fin : fin_at s' = fin_at s;
  del_limit : byte_limit s' = byte_limit s;
  del_count :
    rb_base (buffer s') =
      if force || (flush_bytes s <=? contiguous_end (buffer s) - rb_base (buffer s))
      then contiguous_end (buffer s)
      else Z.max (rb_base (buffer s)) (Z.min (acknowledged_upto s) (contiguous_end (buffer s)));
  del_flushed : flushed_unacked (counters s') = flushed_unacked (counters s) +
    (if negb force && (flush_bytes s <=? contiguous_end (buffer s) - rb_base (buffer s))
     then contiguous_end (buffer s) - rb_base (buffer s) else 0);
  del_bytes : forall j, 0 <= j < len taken ->
    taken !! Z.to_nat j = byte_at (buffer s) (rb_base (buffer s) + j);
  del_rest : forall i, rb_base (buffer s') <= i -> byte_at (buffer s') i = byte_at (buffer s) i
}.

Lemma deliver_ok s out force :
  stream_wf s ->
  exists s' taken, deliver s out force = Some (s', out ++ taken) /\ deliver_post s force s' taken.
Proof.
  intros Hs. pose proof (contiguous_end_bounds _ (sw_buffer _ Hs)) as Hce. unfold deliver.
  replace (sat_sub (contiguous_end (buffer s)) (rb_base (buffer s)))
    with (contiguous_end (buffer s) - rb_base (buffer s)) by (unfold sat_sub; lia).
  set (avail := contiguous_end (buffer s) - rb_base (buffer s)) in *.
  set (flush := negb force && (flush_bytes s <=? avail)).
  set (s1 := if flush then bump s (count_flushed avail) else s).
  assert (H1 : stream_wf s1 /\ buffer s1 = buffer s /\ base_sequence s1 = base_sequence s /\
    established s1 = established s /\ acknowledged_upto s1 = acknowledged_upto s /\
    fin_at s1 = fin_at s /\ byte_limit s1 = byte_limit s /\
    flushed_unacked (counters s1) = flushed_unacked (counters s) + if flush then avail else 0).
  { unfold s1. case_match; simpl; split_and!; try done; [by apply bump_wf|lia]. }
  clearbody s1. destruct H1 as (Hw1 & Hb & Hq & Hes & Ha & Hf & Hl & Hfl). rewrite Hb, Ha.
  set (limit := if force || flush then _ else _).
  destruct (drain_ok (buffer s) limit out (sw_buffer _ Hs)) as (b' & out' & n & -> & [D1 D2 D3 D4 D5 D6 D7]).
  destruct D7 as (taken & -> & Hn & Htk). simpl. eexists _, taken. split; [done|].
  rewrite length_app. replace (Z.of_nat (length out + length taken) - len out) with n by lia.
  destruct Hw1. split; simpl; try done; try lia; try congruence.
  - split; simpl; try done; try lia; try congruence.
    apply Z.mod_pos_bound. lia.
  - unfold wrapping_add32, as_u32. rewrite Hn, Zplus_mod_idemp_r, Hq. done.
  - rewrite D3, D2. unfold limit, flush, avail. destruct force; simpl; [lia|]. zcase; lia.
  - rewrite Hfl, Z.add_0_r. done.
  - intros j Hj. apply Htk. lia.
Qed.

(** After a delivery nothing is left that is both contiguous and acknowledged. *)
Lemma deliver_settles s force s' taken :
  stream_wf s -> deliver_post s force s' taken ->
  Z.min (acknowledged_upto s') (contiguous_end (buffer s')) <= rb_base (buffer s').
Proof.
  intros Hs D. pose proof (sw_buffer _ (del_wf _ _ _ _ D)) as Hw'.
  pose proof (contiguous_end_bounds _ (sw_buffer _ Hs)).
  pose proof (contiguous_end_maximal _ (sw_buffer _ Hs)) as Hnone.
  pose proof (del_count _ _ _ _ D) as Hc. rewrite (del_ack _ _ _ _ D).
  assert (Hle : contiguous_end (buffer s') <= contiguous_end (buffer s)).
  { apply Z.nlt_ge. intros Hlt.
    assert (rb_base (buffer s') <= contiguous_end (buffer s)) by (case_match; lia).
    pose proof (contiguous_end_covered _ (contiguous_end (buffer s)) Hw' ltac:(lia)) as Hcv.
    apply byte_at_covered in Hcv as [x Hx]; [|done].
    rewrite (del_rest _ _ _ _ D) in Hx by lia. congruence. }
  case_match; lia.
Qed.

Lemma discard_wf s : stream_wf s -> stream_wf (discard s).
Proof.
  intros []. pose proof (wf_base _ sw_buffer0). pose proof (wf_top _ sw_buffer0).
  split; simpl; try done; try lia. apply reset_wf; [done|lia].
Qed.

Lemma pair_new_wf c : pair_wf (pair_new c).
Proof. split; simpl; apply stream_new_wf; lia. Qed.

(** [pair_push] as the composition of a push, an acknowledgement and two deliveries, none of which
    panics. *)
Lemma pair_push_ok p dir seg pol_s pol_c ready :
  pair_wf p -> segment_ok seg ->
  exists s1 c1 s2 c2 ts tc,
    pair_push p dir seg pol_s pol_c ready =
      Some (mkStreamPair s2 c2,
            mkStreamReady (ready_to_server ready ++ ts) (ready_to_client ready ++ tc)) /\
    (if dir then push (to_server p) seg pol_s = Some s1 /\
        c1 = (if has seg ACK then acknowledge (to_client p) (acknowledgment seg) else to_client p)
     else push (to_client p) seg pol_c = Some c1 /\
        s1 = (if has seg ACK then acknowledge (to_server p) (acknowledgment seg) else to_server p)) /\
    stream_wf s1 /\ stream_wf c1 /\
    deliver_post s1 false s2 ts /\ deliver_post c1 false c2 tc.
Proof.
  intros [Hs Hc] Hseg.
  assert (Hack : forall s, stream_wf s ->
    stream_wf (if has seg ACK then acknowledge s (acknowledgment seg) else s)).
  { intros s Hw. case_match; [by apply acknowledge_ok|done]. }
  unfold pair_push. destruct dir.
  - destruct (push_ok (to_server p) seg pol_s Hs Hseg) as (s1 & E1 & Hw1 & _). rewrite E1. simpl.
    destruct (deliver_ok s1 (ready_to_server ready) false Hw1) as (s2 & ts & -> & Ds). simpl.
    destruct (deliver_ok _ (ready_to_client ready) false (Hack _ Hc)) as (c2 & tc & -> & Dc).
    simpl. eauto 20.
  - destruct (push_ok (to_client p) seg pol_c Hc Hseg) as (c1 & E1 & Hw1 & _). rewrite E1. simpl.
    destruct (deliver_ok _ (ready_to_server ready) false (Hack _ Hs)) as (s2 & ts & -> & Ds). simpl.
    destruct (deliver_ok c1 (ready_to_client ready) false Hw1) as (c2 & tc & -> & Dc).
    simpl. eauto 20.
Qed.

Lemma pair_push_wf p dir seg pol_s pol_c ready :
  pair_wf p -> segment_ok seg ->
  exists p' ready', pair_push p dir seg pol_s pol_c ready = Some (p', ready') /\ pair_wf p'.
Proof.
  intros Hp Hseg. destruct (pair_push_ok p dir seg pol_s pol_c ready Hp Hseg)
    as (s1 & c1 & s2 & c2 & ts & tc & E & _ & _ & _ & Ds & Dc).
  do 2 eexists. split; [exact E|]. split; [apply Ds|apply Dc].
Qed.

Lemma pair_flush_ok p ready :
  pair_wf p ->
  exists s2 c2 ts tc,
    pair_flush p ready =
      Some (mkStreamPair (discard s2) (discard c2),
            mkStreamReady (ready_to_server ready ++ ts) (ready_to_client ready ++ tc)) /\
    deliver_post (to_server p) true s2 ts /\ deliver_post (to_client p) true c2 tc.
Proof.
  intros [Hs Hc]. unfold pair_flush.
  destruct (deliver_ok _ (ready_to_server ready) true Hs) as (s2 & ts & -> & Ds). simpl.
  destruct (deliver_ok _ (ready_to_client ready) true Hc) as (c2 & tc & -> & Dc). simpl. eauto 10.
Qed.

Lemma pair_flush_wf p ready :
  pair_wf p ->
  exists p' ready', pair_flush p ready = Some (p', ready') /\ pair_wf p' /\ pair_buffered_bytes p' = 0.
Proof.
  intros Hp. destruct (pair_flush_ok p ready Hp) as (s2 & c2 & ts & tc & -> & Ds & Dc).
  do 2 eexists. split; [done|]. split; [|done].
  split; apply discard_wf; [apply Ds|apply Dc].
Qed.

Lemma buffered_bytes_ok s : stream_wf s -> 0 <= buffered_bytes s <= byte_limit s.
Proof.
  intros []. unfold buffered_bytes. rewrite <- sw_byte_limit0. by apply buffered_bytes_bounds.
Qed.

Lemma pair_buffered_ok p :
  pair_wf p -> 0 <= pair_buffered_bytes p <= byte_limit (to_server p) + byte_limit (to_client p).
Proof.
  intros [Hs Hc]. pose proof (buffered_bytes_ok _ Hs). pose proof (buffered_bytes_ok _ Hc).
  unfold pair_buffered_bytes. lia.
Qed.

(** The limits of a pair never change. *)
Lemma pair_push_limits p dir seg pol_s pol_c ready p' ready' :
  pair_wf p -> segment_ok seg -> pair_push p dir seg pol_s pol_c ready = Some (p', ready') ->
  byte_limit (to_server p') = byte_limit (to_server p) /\
  byte_limit (to_client p') = byte_limit (to_client p).
Proof.
  intros Hp Hseg E. destruct (pair_push_ok p dir seg pol_s pol_c ready Hp Hseg)
    as (s1 & c1 & s2 & c2 & ts & tc & E' & Hd & Hw1 & Hw2 & Ds & Dc). simplify_eq. simpl.
  rewrite (del_limit _ _ _ _ Ds), (del_limit _ _ _ _ Dc). destruct Hp as [Hs Hc].
  assert (Hpush : forall s pol s', stream_wf s -> push s seg pol = Some s' -> byte_limit s' = byte_limit s).
  { intros s pol s' Hw Hps. destruct (push_ok s seg pol Hw Hseg) as (? & ? & _ & [] & _).
    simplify_eq. rewrite ss_limit0. apply establish_buffer. }
  assert (Hack : forall s, stream_wf s ->
    byte_limit (if has seg ACK then acknowledge s (acknowledgment seg) else s) = byte_limit s).
  { intros s Hw. destruct (has seg ACK); [by apply acknowledge_ok|done]. }
  destruct dir, Hd as [Hps ->]; split; eauto.
Qed.

(** ** Faithful reassembly

    [S] is the byte stream the sender is sending, from absolute offset 0; [seq0] the sequence number
    of offset 0. A segment is honest when its payload is the part of [S] its sequence number
    addresses; it may be lost, duplicated, reordered or overlap others in any way. *)

Definition honest_segment (S : Z -> Z) (seq0 : Z) (s : Stream) (seg : TcpSegment) : Prop :=
  has seg SYN = true \/ seg_payload seg <> [] ->
  exists d, data_sequence seg = (seq0 + d) mod 2 ^ 32 /\
    (forall j x, seg_payload seg !! j = Some x -> x = S (d + Z.of_nat j)) /\
    if established s
    then - 2 ^ 31 <= d - rb_base (buffer s) < 2 ^ 31 /\ rb_base (buffer s) < 2 ^ 63
    else d = 0.

Record honest (S : Z -> Z) (seq0 : Z) (s : Stream) (out : list Z) : Prop := {
  h_wf : stream_wf s;
  h_anchor : established s = true -> base_sequence s = (seq0 + rb_base (buffer s)) mod 2 ^ 32;
  h_fresh : established s = false ->
    rb_base (buffer s) = 0 /\ forall i, byte_at (buffer s) i = None;
  h_bytes : forall i x, byte_at (buffer s) i = Some x -> x = S i;
  h_out : out = S <$> seqZ 0 (rb_base (buffer s))
}.

Lemma honest_new S seq0 limit flush : 1 <= flush <= limit -> honest S seq0 (new limit flush) [].
Proof. intros. split; try done. by apply stream_new_wf. Qed.

(** The bytes a write leaves agree with [S] when the payload and the buffer do. *)
Lemma stored_agrees (S : Z -> Z) s d seq payload policy b' :
  stored s seq payload policy b' -> absolute s seq = d ->
  (forall i x, byte_at (buffer s) i = Some x -> x = S i) ->
  (forall j x, payload !! j = Some x -> x = S (d + Z.of_nat j)) ->
  forall i x, byte_at b' i = Some x -> x = S i.
Proof.
  intros Hst Hd Hb Hpay i x Hx. unfold stored in Hst. rewrite Hd in Hst.
  destruct Hst as [->|(o & Hd0 & Hpost)]; [eauto|].
  assert (Hs : Some (S i) = Some x); [|by simplify_eq].
  apply (write_agrees (fun i => Some (S i)) _ _ _ _ _ _ Hpost); [| |done].
  - intros k y Hy. f_equal. symmetry. eauto.
  - intros k y Hy. f_equal. symmetry. eauto.
Qed.

(** An honest segment is addressed where its bytes belong. *)
Lemma honest_address S seq0 s out seg :
  honest S seq0 s out -> has seg SYN = true \/ seg_payload seg <> [] ->
  honest_segment S seq0 s seg ->
  established (establish s seg) = true /\
  base_sequence (establish s seg) = (seq0 + rb_base (buffer s)) mod 2 ^ 32 /\
  forall j x, seg_payload seg !! j = Some x ->
    x = S (absolute (establish s seg) (data_sequence seg) + Z.of_nat j).
Proof.
  intros [Hw Ha Hf _ _] Hd Hh. destruct (Hh Hd) as (d & Hds & Hpay & Hdist).
  pose proof (establish_buffer s seg) as (Hbuf & _). pose proof (wf_base _ (sw_buffer _ Hw)).
  destruct (established s) eqn:Es.
  - assert (establish s seg = s) as -> by (unfold establish; by rewrite Es).
    split; [done|]. split; [by apply Ha|]. destruct Hdist as [Hdist Hbb].
    assert (absolute s (data_sequence seg) = d) as ->; [|done].
    transitivity (rb_base (buffer s) + (d - rb_base (buffer s))); [|lia].
    rewrite <- absolute_at by lia. f_equal. rewrite Hds, Ha, Zplus_mod_idemp_l by done.
    f_equal. lia.
  - destruct (Hf eq_refl) as [Hb0 _]. subst d.
    assert (established (establish s seg) = true /\
            base_sequence (establish s seg) = data_sequence seg) as [-> Hbs].
    { unfold establish, data_sequence. rewrite Es. destruct (has seg SYN) eqn:?; [done|].
      destruct (seg_payload seg); [naive_solver|done]. }
    split; [done|]. split; [by rewrite Hbs, Hds, Hb0|].
    assert (absolute (establish s seg) (data_sequence seg) = 0) as ->; [|done].
    unfold absolute, wrapping_sub32. by rewrite Hbs, Z.sub_diag, Hbuf, Hb0.
Qed.

Lemma push_honest S seq0 s out seg policy s' :
  honest S seq0 s out -> segment_ok seg -> honest_segment S seq0 s seg ->
  push s seg policy = Some s' -> honest S seq0 s' out.
Proof.
  intros Hhon Hseg Hh E. pose proof Hhon as [Hw Ha Hf Hb Ho].
  destruct (push_ok s seg policy Hw Hseg) as (? & E' & Hw' & Hsame & Hst & Hne & _). simplify_eq.
  pose proof (establish_buffer s seg) as (Hbuf & _).
  assert (Hcase : (established (establish s seg) = true ->
      base_sequence (establish s seg) = (seq0 + rb_base (buffer s)) mod 2 ^ 32) /\
    forall j x, seg_payload seg !! j = Some x ->
      x = S (absolute (establish s seg) (data_sequence seg) + Z.of_nat j)).
  { destruct (decide (has seg SYN = true \/ seg_payload seg <> [])) as [Hd|Hd].
    - destruct (honest_address _ _ _ _ _ Hhon Hd Hh) as (_ & ? & ?). done.
    - destruct (seg_payload seg) eqn:Ep; [|naive_solver]. split; [|done].
      assert (establish s seg = s) as ->; [|done].
      unfold establish. destruct (established s); [done|].
      destruct (has seg SYN); [naive_solver|]. by rewrite Ep. }
  destruct Hcase as [Hanch Hpay]. destruct Hsame. rewrite Hbuf in *.
  split; try done; try congruence.
  - rewrite ss_established0, ss_sequence0, ss_base0. done.
  - intros Hes. pose proof (Hne Hes) as Heq. rewrite Heq in Hes |- *. by apply Hf.
  - eapply stored_agrees; [exact Hst|done|by rewrite Hbuf|done].
Qed.

Lemma acknowledge_honest S seq0 s out a :
  honest S seq0 s out -> honest S seq0 (acknowledge s a) out.
Proof.
  intros [Hw Ha Hf Hb Ho]. destruct (acknowledge_ok s a Hw) as (? & E1 & E2 & E3 & _).
  split; rewrite ?E1, ?E2, ?E3; done.
Qed.

Lemma byte_at_below b i : rb_wf b -> i < rb_base b -> byte_at b i = None.
Proof.
  intros Hw Hi. unfold byte_at. by rewrite (ranges_ok_below _ _ _ (wf_covered _ Hw) Hi).
Qed.

Lemma deliver_honest S seq0 s out force s' taken :
  honest S seq0 s out -> deliver_post s force s' taken -> honest S seq0 s' (out ++ taken).
Proof.
  intros [Hw Ha Hf Hb Ho] [D1 D2 D3 D4 D5 D6 D7 D8 D9 D10 D11].
  pose proof (wf_base _ (sw_buffer _ Hw)).
  assert (Hall : forall i, byte_at (buffer s') i = byte_at (buffer s) i \/
                           byte_at (buffer s') i = None).
  { intros i. destruct (decide (rb_base (buffer s') <= i)); [left; by apply D11|right].
    apply byte_at_below; [apply D1|lia]. }
  split; try done.
  - intros Hes. rewrite D3, D2, Ha, Zplus_mod_idemp_l by congruence. f_equal. lia.
  - intros Hes. rewrite D4 in Hes. destruct (Hf Hes) as [Hb0 Hno]. split.
    + destruct taken as [|x taken]; [simpl in D2; lia|].
      specialize (D10 0 ltac:(simpl; lia)). rewrite Hno in D10. done.
    + intros i. destruct (Hall i) as [->| ->]; [apply Hno|done].
  - intros i x Hx. destruct (Hall i) as [E|E]; rewrite E in Hx; [eauto|done].
  - rewrite Ho, D2, seqZ_app, fmap_app, Z.add_0_l by lia. f_equal.
    apply list_eq. intros j. destruct (decide (j < length taken)%nat) as [Hj|Hj].
    + rewrite list_lookup_fmap, lookup_seqZ_lt by lia. simpl.
      specialize (D10 (Z.of_nat j) ltac:(lia)). rewrite Nat2Z.id in D10.
      destruct (lookup_lt_is_Some_2 taken j Hj) as [x Hx]. rewrite Hx in *. f_equal.
      symmetry in D10. by apply Hb in D10.
    + rewrite !lookup_ge_None_2; [done| |lia]. rewrite length_fmap, length_seqZ. lia.
Qed.

Lemma discard_honest S seq0 s out : honest S seq0 s out -> honest S seq0 (discard s) out.
Proof.
  intros [Hw Ha Hf Hb Ho]. split; simpl; try done; [by apply discard_wf|].
  intros Hes. destruct (Hf Hes). done.
Qed.

(** The conversations a pair can see when both endpoints send honest segments: [Sc] and [Ss] are the
    streams towards the server and towards the client. Segments may be of either direction, in any
    order, lost or repeated, with any flags and acknowledgements. *)
Inductive honest_trace (cfg : ReassemblyConfig) (Sc Ss : Z -> Z) (seqc seqs : Z) :
    StreamPair -> StreamReady -> Prop :=
| ht_new : honest_trace cfg Sc Ss seqc seqs (pair_new cfg) StreamReady_default
| ht_push p r (dir : bool) seg pol_s pol_c p' r' :
    honest_trace cfg Sc Ss seqc seqs p r -> segment_ok seg ->
    honest_segment (if dir then Sc else Ss) (if dir then seqc else seqs)
      (if dir then to_server p else to_client p) seg ->
    pair_push p dir seg pol_s pol_c r = Some (p', r') ->
    honest_trace cfg Sc Ss seqc seqs p' r'
| ht_flush p r p' r' :
    honest_trace cfg Sc Ss seqc seqs p r -> pair_flush p r = Some (p', r') ->
    honest_trace cfg Sc Ss seqc seqs p' r'.

Lemma honest_trace_inv cfg Sc Ss seqc seqs p r :
  honest_trace cfg Sc Ss seqc seqs p r ->
  honest Sc seqc (to_server p) (ready_to_server r) /\ honest Ss seqs (to_client p) (ready_to_client r).
Proof.
  induction 1 as [|p r dir seg pol_s pol_c p' r' _ [IHs IHc] Hseg Hh E|p r p' r' _ [IHs IHc] E].
  - split; apply honest_new; lia.
  - destruct (pair_push_ok p dir seg pol_s pol_c r (conj (h_wf _ _ _ _ IHs) (h_wf _ _ _ _ IHc)) Hseg)
      as (s1 & c1 & s2 & c2 & ts & tc & E' & Hd & _ & _ & Ds & Dc). simplify_eq. simpl.
    destruct dir, Hd as [Hps ->].
    + split; (eapply deliver_honest; [|done]); [by eapply push_honest|].
      destruct (has seg ACK); [by apply acknowledge_honest|done].
    + split; (eapply deliver_honest; [|done]); [|by eapply push_honest].
      destruct (has seg ACK); [by apply acknowledge_honest|done].
  - destruct (pair_flush_ok p r (conj (h_wf _ _ _ _ IHs) (h_wf _ _ _ _ IHc)))
      as (s2 & c2 & ts & tc & E' & Ds & Dc). simplify_eq. simpl.
    split; apply discard_honest; by eapply deliver_honest.
Qed.

(** ** Sequences of operations on a pair *)

Inductive PairOp :=
| PushOp (dir : bool) (seg : TcpSegment) (pol_s pol_c : OverlapPolicy)
| FlushOp.

Definition pair_op_ok (op : PairOp) : Prop :=
  match op with PushOp _ seg _ _ => segment_ok seg | FlushOp => True end.

Definition run_pair_op (pr : StreamPair * StreamReady) (op : PairOp) :
    option (StreamPair * StreamReady) :=
  match op with
  | PushOp dir seg pol_s pol_c => pair_push pr.1 dir seg pol_s pol_c pr.2
  | FlushOp => pair_flush pr.1 pr.2
  end.

Definition run_pair_ops (pr : StreamPair * StreamReady) (ops : list PairOp) :
    option (StreamPair * StreamReady) :=
  foldl (fun acc op => acc ≫= fun pr => run_pair_op pr op) (Some pr) ops.

Lemma run_pair_op_ok pr op :
  pair_wf pr.1 -> pair_op_ok op ->
  exists pr', run_pair_op pr op = Some pr' /\ pair_wf pr'.1 /\
    byte_limit (to_server pr'.1) = byte_limit (to_server pr.1) /\
    byte_limit (to_client pr'.1) = byte_limit (to_client pr.1).
Proof.
  destruct pr as [p r]. simpl. intros Hp Hop. destruct op as [dir seg pol_s pol_c|]; simpl in *.
  - destruct (pair_push_wf p dir seg pol_s pol_c r Hp Hop) as (p' & r' & E & Hp').
    exists (p', r'). split; [done|]. split; [done|]. by eapply pair_push_limits.
  - destruct (pair_flush_ok p r Hp) as (s2 & c2 & ts & tc & E & Ds & Dc).
    destruct (pair_flush_wf p r Hp) as (p' & r' & E' & Hp' & _). simplify_eq.
    eexists. split; [exact E|]. split; [done|]. split; [apply Ds|apply Dc].
Qed.

Lemma run_pair_ops_ok pr ops :
  pair_wf pr.1 -> Forall pair_op_ok ops ->
  exists pr', run_pair_ops pr ops = Some pr' /\ pair_wf pr'.1 /\
    byte_limit (to_server pr'.1) = byte_limit (to_server pr.1) /\
    byte_limit (to_client pr'.1) = byte_limit (to_client pr.1).
Proof.
  intros Hp Hops. revert pr Hp. induction Hops as [|op ops Hop _ IH]; intros pr Hp; [by eauto|].
  destruct (run_pair_op_ok pr op Hp Hop) as (pr1 & E1 & Hp1 & Hs1 & Hc1).
  destruct (IH pr1 Hp1) as (pr2 & E2 & Hp2 & Hs2 & Hc2).
  exists pr2. unfold run_pair_ops in *. simpl. rewrite E1. split; [done|]. split; [done|].
  split; congruence.
Qed.

(** ** Properties *)

(** C1: faithful reassembly. Whatever honest segments a conversation shows the sensor (in any order,
    lost, repeated, overlapping, across the wrap of the sequence space, under any overlap policies),
    the bytes delivered in each direction are exactly the sender's stream from its first byte up to
    the delivery point, with nothing missing, repeated or altered; and the next segment can always
    be processed. *)
Theorem reassembly_faithful (cfg : ReassemblyConfig) (Sc Ss : Z -> Z) (seqc seqs : Z)
    (p : StreamPair) (r : StreamReady) :
  honest_trace cfg Sc Ss seqc seqs p r ->
  ready_to_server r = Sc <$> seqZ 0 (rb_base (buffer (to_server p))) /\
  ready_to_client r = Ss <$> seqZ 0 (rb_base (buffer (to_client p))) /\
  forall dir seg pol_s pol_c, segment_ok seg ->
    exists p' r', pair_push p dir seg pol_s pol_c r = Some (p', r').
Proof.
  intros Ht. destruct (honest_trace_inv _ _ _ _ _ _ _ Ht) as [Hs Hc].
  split; [apply Hs|]. split; [apply Hc|]. intros dir seg pol_s pol_c Hseg.
  destruct (pair_push_wf p dir seg pol_s pol_c r) as (p' & r' & E & _); eauto.
  split; [apply Hs|apply Hc].
Qed.

(** A client sends [10; 11; 12; 13] as two segments after its SYN; the second arrives first, and the
    server's acknowledgement settles all four bytes. The sequence space wraps in between. *)
Definition demo_stream (i : Z) : Z := 10 + i.
Definition demo_ops : list PairOp := [
  PushOp true (mkTcpSegment 4294967293 0 SYN []) First First;
  PushOp true (mkTcpSegment 0 0 0 [12; 13]) First First;
  PushOp true (mkTcpSegment 4294967294 0 0 [10; 11]) First First;
  PushOp false (mkTcpSegment 7 2 ACK []) First First ].

(** Running one more push of a conversation known to be honest. *)
Lemma honest_trace_push cfg Sc Ss seqc seqs p r (dir : bool) seg pol_s pol_c :
  honest_trace cfg Sc Ss seqc seqs p r -> segment_ok seg ->
  honest_segment (if dir then Sc else Ss) (if dir then seqc else seqs)
    (if dir then to_server p else to_client p) seg ->
  match pair_push p dir seg pol_s pol_c r with
  | Some (p', r') => honest_trace cfg Sc Ss seqc seqs p' r'
  | None => True
  end.
Proof. intros. destruct (pair_push p dir seg pol_s pol_c r) as [[p' r']|] eqn:E; [|done]. by econstructor. Qed.

Lemma reassembly_faithful_witness :
  exists p r, run_pair_ops (pair_new ReassemblyConfig_default, StreamReady_default) demo_ops = Some (p, r) /\
    ready_to_server r = [10; 11; 12; 13] /\
    ready_to_server r = demo_stream <$> seqZ 0 (rb_base (buffer (to_server p))).
Proof.
  pose proof (ht_new ReassemblyConfig_default demo_stream (fun _ => 0) 4294967294 7) as H.
  apply (honest_trace_push _ _ _ _ _ _ _ true (mkTcpSegment 4294967293 0 SYN []) First First) in H;
    [|split; simpl; lia|].
  2:{ intros _. exists 0. split; [reflexivity|]. split; [|reflexivity].
      intros [|j] x; discriminate. }
  vm_compute in H.
  apply (honest_trace_push _ _ _ _ _ _ _ true (mkTcpSegment 0 0 0 [12; 13]) First First) in H;
    [|split; simpl; lia|].
  2:{ intros _. exists 2. split; [reflexivity|]. split; [|simpl; lia].
      intros [|[|j]] x; simpl; intros [=]; subst; reflexivity. }
  vm_compute in H.
  apply (honest_trace_push _ _ _ _ _ _ _ true (mkTcpSegment 4294967294 0 0 [10; 11]) First First) in H;
    [|split; simpl; lia|].
  2:{ intros _. exists 0. split; [reflexivity|]. split; [|simpl; lia].
      intros [|[|j]] x; simpl; intros [=]; subst; reflexivity. }
  vm_compute in H.
  apply (honest_trace_push _ _ _ _ _ _ _ false (mkTcpSegment 7 2 ACK []) First First) in H;
    [|split; simpl; lia|intros [[=]|[]]; reflexivity].
  vm_compute in H.
  eexists _, _. split; [vm_compute; reflexivity|]. split; [reflexivity|].
  exact (proj1 (reassembly_faithful _ _ _ _ _ _ _ H)).
Defined.

(** Settled data is delivered. After a segment has been processed, neither direction still holds
    a byte that is both contiguous with the delivery point and acknowledged by the peer. *)
Theorem acknowledged_data_is_delivered (p : StreamPair) (dir : bool) (seg : TcpSegment)
    (pol_s pol_c : OverlapPolicy) (r : StreamReady) (p' : StreamPair) (r' : StreamReady) :
  pair_wf p -> segment_ok seg -> pair_push p dir seg pol_s pol_c r = Some (p', r') ->
  let settled_in s := Z.min (acknowledged_upto s) (contiguous_end (buffer s)) <= rb_base (buffer s) in
  settled_in (to_server p') /\ settled_in (to_client p').
Proof.
  intros Hp Hseg E. destruct (pair_push_ok p dir seg pol_s pol_c r Hp Hseg)
    as (s1 & c1 & s2 & c2 & ts & tc & E' & _ & Hw1 & Hw2 & Ds & Dc). simplify_eq. simpl.
  split; [by apply (deliver_settles s1 false s2 ts)|by apply (deliver_settles c1 false c2 tc)].
Qed.

Lemma acknowledged_data_is_delivered_witness :
  exists p r, pair_push (pair_new ReassemblyConfig_default) true (mkTcpSegment 5 0 0 [1; 2]) First Last
      StreamReady_default = Some (p, r) /\
    Z.min (acknowledged_upto (to_server p)) (contiguous_end (buffer (to_server p)))
      <= rb_base (buffer (to_server p)).
Proof.
  destruct (pair_push_wf (pair_new ReassemblyConfig_default) true (mkTcpSegment 5 0 0 [1; 2])
    First Last StreamReady_default) as (p & r & E & _);
    [apply pair_new_wf|split; simpl; lia|].
  exists p, r. split; [exact E|].
  exact (proj1 (acknowledged_data_is_delivered _ true (mkTcpSegment 5 0 0 [1; 2]) First Last _ p r
    (pair_new_wf ReassemblyConfig_default) ltac:(split; simpl; lia) E)).
Defined.

(** Delivery is gated on acknowledgement. Processing a segment never moves the delivery point of
    a direction past what the peer has acknowledged, unless the un-acknowledged contiguous data had
    reached the flush threshold, and that is counted in [flushed_unacked]. *)
Theorem delivery_gated_by_ack (p : StreamPair) (dir : bool) (seg : TcpSegment)
    (pol_s pol_c : OverlapPolicy) (r : StreamReady) (p' : StreamPair) (r' : StreamReady) :
  pair_wf p -> segment_ok seg -> pair_push p dir seg pol_s pol_c r = Some (p', r') ->
  let gated s s' :=
    rb_base (buffer s') <= Z.max (rb_base (buffer s)) (acknowledged_upto s') \/
    flushed_unacked (counters s) + flush_bytes s <= flushed_unacked (counters s') in
  gated (to_server p) (to_server p') /\ gated (to_client p) (to_client p').
Proof.
  intros Hp Hseg E. destruct (pair_push_ok p dir seg pol_s pol_c r Hp Hseg)
    as (s1 & c1 & s2 & c2 & ts & tc & E' & Hd & Hw1 & Hw2 & Ds & Dc). simplify_eq. simpl.
  assert (Hdel : forall s s1 s2 t, deliver_post s1 false s2 t ->
    rb_base (buffer s1) = rb_base (buffer s) -> flush_bytes s1 = flush_bytes s ->
    flushed_unacked (counters s1) = flushed_unacked (counters s) ->
    rb_base (buffer s2) <= Z.max (rb_base (buffer s)) (acknowledged_upto s2) \/
    flushed_unacked (counters s) + flush_bytes s <= flushed_unacked (counters s2)).
  { intros s s3 s4 t D Hb Hf Hfl. pose proof (del_count _ _ _ _ D) as Hc.
    pose proof (del_flushed _ _ _ _ D) as Hf2. rewrite (del_ack _ _ _ _ D). simpl in *.
    destruct (Z.leb_spec (flush_bytes s3) (contiguous_end (buffer s3) - rb_base (buffer s3))); lia. }
  assert (Hack : forall s, stream_wf s ->
    let s' := if has seg ACK then acknowledge s (acknowledgment seg) else s in
    rb_base (buffer s') = rb_base (buffer s) /\ flush_bytes s' = flush_bytes s /\
    flushed_unacked (counters s') = flushed_unacked (counters s)).
  { intros s Hw. destruct (has seg ACK); simpl; [|done].
    destruct (acknowledge_ok s (acknowledgment seg) Hw) as (_ & -> & _ & _ & _ & -> & _ & -> & _). done. }
  assert (Hpu : forall s pol s', stream_wf s -> push s seg pol = Some s' ->
    rb_base (buffer s') = rb_base (buffer s) /\ flush_bytes s' = flush_bytes s /\
    flushed_unacked (counters s') = flushed_unacked (counters s)).
  { intros s pol s' Hw Hps. destruct (push_ok s seg pol Hw Hseg) as (? & ? & _ & [] & _). simplify_eq.
    destruct (establish_buffer s seg) as (E1 & _ & _ & _ & E2 & E3). split_and!; congruence. }
  destruct Hp as [Hws Hwc]. destruct dir, Hd as [Hps ->].
  - destruct (Hpu _ _ _ Hws Hps) as (? & ? & ?), (Hack _ Hwc) as (? & ? & ?). split; eauto.
  - destruct (Hpu _ _ _ Hwc Hps) as (? & ? & ?), (Hack _ Hws) as (? & ? & ?). split; eauto.
Qed.

Lemma delivery_gated_by_ack_witness :
  exists p r, pair_push (pair_new ReassemblyConfig_default) true (mkTcpSegment 5 0 0 [1; 2]) First Last
      StreamReady_default = Some (p, r) /\
    (rb_base (buffer (to_server p)) <= 0 \/ 65536 <= flushed_unacked (counters (to_server p))).
Proof.
  destruct (pair_push_wf (pair_new ReassemblyConfig_default) true (mkTcpSegment 5 0 0 [1; 2])
    First Last StreamReady_default) as (p & r & E & _); [apply pair_new_wf|split; simpl; lia|].
  exists p, r. split; [exact E|].
  pose proof (delivery_gated_by_ack _ true (mkTcpSegment 5 0 0 [1; 2]) First Last _ p r
    (pair_new_wf ReassemblyConfig_default) ltac:(split; simpl; lia) E) as [H _].
  assert (Ha : acknowledged_upto (to_server p) = 0) by (vm_compute in E; injection E as <- <-; reflexivity).
  rewrite Ha in H. exact H.
Defined.

(** Reassembly state is bounded and total. From a fresh pair, any sequence of segments in either
    direction (honest or not) and flushes is processed without a panic, and what is buffered never
    exceeds the per-flow limit in either direction. *)
Theorem stream_pair_bounded (cfg : ReassemblyConfig) (ops : list PairOp) :
  Forall pair_op_ok ops ->
  exists p r, run_pair_ops (pair_new cfg, StreamReady_default) ops = Some (p, r) /\
    0 <= buffered_bytes (to_server p) <= Z.max (max_stream_bytes_per_flow cfg) 1 /\
    0 <= buffered_bytes (to_client p) <= Z.max (max_stream_bytes_per_flow cfg) 1.
Proof.
  intros Hops. destruct (run_pair_ops_ok (pair_new cfg, StreamReady_default) ops) as ([p r] & E & [Hs Hc] & Ls & Lc);
    [apply pair_new_wf|done|].
  exists p, r. split; [done|]. simpl in *.
  pose proof (buffered_bytes_ok _ Hs). pose proof (buffered_bytes_ok _ Hc). lia.
Qed.

Lemma stream_pair_bounded_witness :
  exists p r, run_pair_ops (pair_new ReassemblyConfig_default, StreamReady_default) demo_ops = Some (p, r) /\
    0 <= buffered_bytes (to_server p) <= 1048576 /\ 0 <= buffered_bytes (to_client p) <= 1048576.
Proof.
  apply (stream_pair_bounded ReassemblyConfig_default demo_ops).
  repeat constructor; simpl; lia.
Defined.

(** The wire-to-offset map is correct across the 32-bit wrap. As long as the stream is shorter
    than 2^63 bytes, the sequence number that lies [d] bytes from the anchor, for any [d] within half
    the sequence space on either side, maps to the absolute offset [d] bytes from the window base;
    so a sequence number behind the window gets a smaller offset, never a huge one. *)
Theorem sequence_maps_across_wrap (s : Stream) (d : Z) :
  stream_wf s -> rb_base (buffer s) < 2 ^ 63 -> - 2 ^ 31 <= d < 2 ^ 31 ->
  absolute s (wrapping_add32 (base_sequence s) (d mod 2 ^ 32)) = rb_base (buffer s) + d.
Proof.
  intros Hs Hb Hd. pose proof (wf_base _ (sw_buffer _ Hs)).
  unfold wrapping_add32. rewrite Zplus_mod_idemp_r. by apply absolute_at.
Qed.

Lemma sequence_maps_across_wrap_witness :
  absolute (set_anchor (new 10 1) 4294967295) (wrapping_add32 4294967295 (3 mod 2 ^ 32)) = 3 /\
  absolute (set_anchor (new 10 1) 4294967295) 2 = 3.
Proof.
  split; [|reflexivity].
  apply (sequence_maps_across_wrap (set_anchor (new 10 1) 4294967295) 3); simpl; try lia.
  destruct (stream_new_wf 10 1 ltac:(lia)). split; simpl; try done. 
Defined.

(** What a FIN closes. Once a FIN at offset [f] has been seen, a payload that starts at or past [f]
    changes nothing and is counted in [after_fin]; but a payload that starts before [f] is written
    whole, so where it runs past [f] into space that held nothing, the bytes after the FIN are
    stored too. *)
Theorem fin_closes_by_start_only (s : Stream) (seq : Z) (payload : list Z) (policy : OverlapPolicy)
    (f : Z) :
  stream_wf s -> fin_at s = Some f -> rb_base (buffer s) < 2 ^ 63 ->
  rb_base (buffer s) <= absolute s seq < rb_base (buffer s) + byte_limit s -> payload <> [] ->
  exists s', store s seq payload policy = Some s' /\
    (f <= absolute s seq ->
       buffer s' = buffer s /\
       after_fin (counters s') = after_fin (counters s) + len payload) /\
    (absolute s seq < f -> forall i,
       f <= i < upper (buffer s) (absolute s seq) payload -> byte_at (buffer s) i = None ->
       byte_at (buffer s') i = payload !! Z.to_nat (i - absolute s seq)).
Proof.
  intros Hs Hf Hb Hoff Hne. pose proof (absolute_bounds s seq Hs).
  pose proof (wf_base _ (sw_buffer _ Hs)). unfold store. rewrite Hf, as_i64_small by lia.
  assert (1 <= len payload) by (destruct payload; [done|simpl; lia]). zdec. simpl.
  destruct (Z.leb_spec f (absolute s seq)).
  - eexists. split; [done|]. split; [done|lia].
  - destruct (write_ok (buffer s) (absolute s seq) payload policy (sw_buffer _ Hs))
      as (b' & o & -> & [_ _ _ _ _ Hwb _ _ _ _ _]); [lia|].
    simpl. eexists. split; [done|]. split; [lia|]. intros _ i Hi Hnone. simpl.
    rewrite Hwb. unfold write_at, lower. rewrite Hnone. zdec. simpl. by destruct policy.
Qed.

Lemma fin_closes_by_start_only_witness :
  let s := set_fin (set_anchor (new 100 1) 50) 4 in
  exists s', store s 52 [1; 2; 3; 4] First = Some s' /\
    byte_at (buffer s') 5 = Some 4 /\ contiguous_end (buffer s') = 0.
Proof.
  intros s. assert (Hs : stream_wf s).
  { destruct (stream_new_wf 100 1 ltac:(lia)). split; simpl; try done. intros f [= <-]. lia. }
  destruct (fin_closes_by_start_only s 52 [1; 2; 3; 4] First 4 Hs eq_refl) as (s' & E & _ & H);
    [vm_compute; reflexivity|split; vm_compute; congruence|discriminate|].
  exists s'. split; [exact E|]. split.
  - apply H; [reflexivity|split; vm_compute; congruence|reflexivity].
  - vm_compute in E. injection E as <-. reflexivity.
Defined.

(** The reset window is not a window: it reaches back to the start of the stream. A reset is
    believed exactly when its sequence number lies between the first byte ever seen and 65535 past the
    last byte held; so once [n] bytes have been delivered, every one of the [n] sequence numbers just
    behind the delivery point (up to half the space) tears the flow down, although the destination
    would ignore it. *)
Theorem rst_window_reaches_back (s : Stream) (d : Z) :
  stream_wf s -> established s = true -> rb_base (buffer s) < 2 ^ 63 -> - 2 ^ 31 <= d < 2 ^ 31 ->
  rst_is_in_window s (wrapping_add32 (base_sequence s) (d mod 2 ^ 32)) = true <->
  - bytes_delivered (counters s) <= d <= covered_end (buffer s) - rb_base (buffer s) + 65535.
Proof.
  intros Hs He Hb Hd. pose proof (wf_base _ (sw_buffer _ Hs)). unfold rst_is_in_window.
  rewrite He. unfold wrapping_add32. rewrite Zplus_mod_idemp_r. simpl.
  rewrite absolute_at, (sw_delivered _ Hs) by lia. unfold RST_SEQUENCE_SLACK.
  rewrite andb_true_iff, !Z.leb_le. lia.
Qed.

Lemma rst_window_reaches_back_witness :
  exists p r, run_pair_ops (pair_new ReassemblyConfig_default, StreamReady_default) demo_ops = Some (p, r) /\
    bytes_delivered (counters (to_server p)) = 4 /\
    rst_is_in_window (to_server p) (wrapping_add32 (base_sequence (to_server p)) ((-4) mod 2 ^ 32)) = true.
Proof.
  destruct (run_pair_ops_ok (pair_new ReassemblyConfig_default, StreamReady_default) demo_ops)
    as ([p r] & E & [Hs _] & _); [apply pair_new_wf|repeat constructor; simpl; lia|].
  exists p, r. split; [exact E|].
  assert (Hd : bytes_delivered (counters (to_server p)) = 4 /\ established (to_server p) = true /\
    rb_base (buffer (to_server p)) = 4 /\ covered_end (buffer (to_server p)) = 4).
  { vm_compute in E. injection E as <- <-. repeat split. }
  destruct Hd as (H1 & H2 & H3 & H4). split; [exact H1|].
  apply (rst_window_reaches_back (to_server p) (-4) Hs H2); rewrite ?H1, ?H3, ?H4; lia.
Defined.

(** A FIN can only ever close earlier. Whatever a later segment claims, the offset at which a
    direction is considered closed never moves up, so data cannot be reopened past the earliest FIN. *)
Theorem fin_never_moves_later (s : Stream) (seg : TcpSegment) (policy : OverlapPolicy) (f : Z) :
  stream_wf s -> segment_ok seg -> fin_at s = Some f ->
  exists s' f', push s seg policy = Some s' /\ fin_at s' = Some f' /\ f' <= f.
Proof.
  intros Hs Hseg Hf. destruct (push_ok s seg policy Hs Hseg) as (s' & E & _ & _ & _ & _ & Hm).
  destruct (Hm f Hf) as (f' & ? & ?). eauto.
Qed.

Lemma fin_never_moves_later_witness :
  exists s' f', push (set_fin (set_anchor (new 100 1) 50) 4) (mkTcpSegment 60 0 FIN [1]) Last = Some s' /\
    fin_at s' = Some f' /\ f' <= 4.
Proof.
  apply (fin_never_moves_later (set_fin (set_anchor (new 100 1) 50) 4)).
  - destruct (stream_new_wf 100 1 ltac:(lia)). split; simpl; try done. intros f [= <-]. lia.
  - split; simpl; lia.
  - reflexivity.
Defined.
