(* ===== verification/Flow.v ===== *)
(** Flow tracking: [crates/reassembly/src/flow.rs] and [Limits] of [crates/reassembly/src/lib.rs].

    The table is a [gmap] from canonical keys to flows; sweeps and evictions iterate it in an
    unspecified order ([HashOrder]). [table_wf] is the invariant: every flow sits under its own
    canonical key with well-formed reassembly state, the running byte total is the sum over the
    flows, and the table is inside its cap. *)

From Stdlib Require Import Ascii.
From S2P Require Import Prelude Net Config RangeBuffer Stream.

(** ** Data *)

Record Limits := mkLimits {
  max_flows : Z;
  max_bytes_per_flow : Z;
  max_bytes_total : Z;
  limit_fragment_sets : Z;
  flow_timeout : Z;
  fragment_timeout : Z
}.

Definition Limits_default : Limits := {|
  max_flows := 65536;
  max_bytes_per_flow := Z.shiftl 1 20;
  max_bytes_total := Z.shiftl 512 20;
  limit_fragment_sets := 4096;
  flow_timeout := secs 300;
  fragment_timeout := secs 60
|}.

(** [FlowId] is the 64-bit number itself. *)
Abbreviation FlowId := Z.

Record FlowKey := mkFlowKey {
  protocol : Z;
  first : Endpoint;
  second : Endpoint
}.

#[global] Instance FlowKey_eq_dec : EqDecision FlowKey.
Proof. solve_decision. Defined.

#[global] Instance FlowKey_countable : Countable FlowKey :=
  inj_countable'
    (fun k => (protocol k, first k, second k))
    (fun t => mkFlowKey t.1.1 t.1.2 t.2)
    (fun k => match k with mkFlowKey _ _ _ => eq_refl end).

(** [FlowKey::new]. *)
Definition key_new (proto : Z) (source destination : Endpoint) : FlowKey :=
  if endpoint_leb source destination then mkFlowKey proto source destination
  else mkFlowKey proto destination source.

Record DirectionCounters := mkDirectionCounters {
  dc_packets : Z;
  dc_bytes : Z
}.

Record Flow := mkFlow {
  id : FlowId;
  key : FlowKey;
  initiator : Endpoint;
  start : Z;
  last_seen : Z;
  flow_to_server : DirectionCounters;
  flow_to_client : DirectionCounters;
  tcp_flags_seen : Z;
  fin_from_initiator : bool;
  fin_from_responder : bool;
  saw_reset : bool;
  streams : option StreamPair
}.

Definition TCP_PROTOCOL : Z := 6.

Definition responder (f : Flow) : Endpoint :=
  if decide (initiator f = first (key f)) then second (key f) else first (key f).

Definition oriented_tuple (f : Flow) : Endpoint * Endpoint := (initiator f, responder f).

Definition duration (f : Flow) : Z := unwrap_or 0 (duration_since (last_seen f) (start f)).

Definition is_closed (f : Flow) : bool :=
  saw_reset f || (fin_from_initiator f && fin_from_responder f).

Definition flow_stream_counters (f : Flow) : option StreamCounters := pair_counters <$> streams f.

Definition flow_buffered_bytes (f : Flow) : Z :=
  match streams f with Some p => pair_buffered_bytes p | None => 0 end.

(** [Flow::tcp_flags_string]. *)
Definition tcp_flags_string (f : Flow) : option (list ascii) :=
  if negb (protocol (key f) =? TCP_PROTOCOL) then None
  else Some (omap (fun '(bit, letter) =>
         if negb (Z.land (tcp_flags_seen f) (Z.shiftl 1 bit) =? 0) then Some letter else None)
       [(0, "F"); (1, "S"); (2, "R"); (3, "P"); (4, "A"); (5, "U"); (6, "E"); (7, "C")]%char).

Inductive EndReason := Closed | TimedOut | Evicted | SensorStopped.

Record EndedFlow := mkEndedFlow {
  ended_flow : Flow;
  end_reason : EndReason;
  final_ready : StreamReady
}.

Record Observed := mkObserved {
  observed_flow_id : FlowId;
  observed_to_server : bool;
  is_new : bool
}.

Record FlowCounters := mkFlowCounters {
  created : Z;
  closed : Z;
  timed_out : Z;
  evicted : Z;
  resets_ignored : Z
}.

Record PacketSummary := mkPacketSummary {
  pkt_protocol : Z;
  pkt_source : Endpoint;
  pkt_destination : Endpoint;
  pkt_timestamp : Z;
  pkt_frame_len : Z;
  pkt_payload : list Z;
  pkt_tcp : option TcpSegment
}.

Record FlowTable := mkFlowTable {
  flows : gmap FlowKey Flow;
  limits : Limits;
  reassembly : ReassemblyConfig;
  stream_bytes : Z;
  finished_stream_counters : StreamCounters;
  flow_counters : FlowCounters;
  ended : list EndedFlow;
  last_sweep : option Z
}.

Definition SWEEP_INTERVAL : Z := secs 10.
Definition EVICTION_BATCH_FRACTION : Z := 10.

Definition with_reassembly (l : Limits) (r : ReassemblyConfig) : FlowTable :=
  mkFlowTable ∅ l r 0 StreamCounters_default (mkFlowCounters 0 0 0 0 0) [] None.

Definition new (l : Limits) : FlowTable := with_reassembly l ReassemblyConfig_default.

Definition table_len (t : FlowTable) : Z := Z.of_nat (size (flows t)).

(** ** Flow identifiers: FNV-1a over the canonical key and the start time *)

Definition octets (a : IpAddr) : list Z :=
  match a with V4 x => be_bytes 4 x | V6 x => be_bytes 16 x end.

Definition FNV_OFFSET_BASIS : Z := 0xcbf29ce484222325.
Definition FNV_PRIME : Z := 0x00000100000001b3.

(** The closure [mix]. *)
Definition mix (hash : Z) (bytes : list Z) : Z :=
  foldl (fun h b => (Z.lxor h b * FNV_PRIME) mod 2 ^ 64) hash bytes.

Definition derive_flow_id (k : FlowKey) (start : Z) : Z :=
  let hash := mix FNV_OFFSET_BASIS [protocol k] in
  let hash := foldl (fun h (e : Endpoint) => mix (mix h (octets e.1)) (be_bytes 2 e.2)) hash
                [first k; second k] in
  let nanos := as_u64 (unwrap_or 0 (duration_since start 0)) in
  let hash := mix hash (be_bytes 8 nanos) in
  if hash =? 0 then 1 else hash.

(** ** Operations *)

Definition set_flows (t : FlowTable) (m : gmap FlowKey Flow) : FlowTable :=
  mkFlowTable m (limits t) (reassembly t) (stream_bytes t) (finished_stream_counters t)
    (flow_counters t) (ended t) (last_sweep t).

Definition set_counters (t : FlowTable) (c : FlowCounters) : FlowTable :=
  mkFlowTable (flows t) (limits t) (reassembly t) (stream_bytes t) (finished_stream_counters t) c
    (ended t) (last_sweep t).

Definition set_stream_bytes (t : FlowTable) (n : Z) : FlowTable :=
  mkFlowTable (flows t) (limits t) (reassembly t) n (finished_stream_counters t) (flow_counters t)
    (ended t) (last_sweep t).

Definition set_streams (f : Flow) (p : option StreamPair) : Flow :=
  mkFlow (id f) (key f) (initiator f) (start f) (last_seen f) (flow_to_server f) (flow_to_client f)
    (tcp_flags_seen f) (fin_from_initiator f) (fin_from_responder f) (saw_reset f) p.

(** The counter a removal increments. *)
Definition count_end (c : FlowCounters) (r : EndReason) : FlowCounters :=
  match r with
  | Closed => mkFlowCounters (created c) (closed c + 1) (timed_out c) (evicted c) (resets_ignored c)
  | TimedOut => mkFlowCounters (created c) (closed c) (timed_out c + 1) (evicted c) (resets_ignored c)
  | Evicted => mkFlowCounters (created c) (closed c) (timed_out c) (evicted c + 1) (resets_ignored c)
  | SensorStopped => c
  end.

(** [end_flow]. *)
Definition end_flow (t : FlowTable) (f : Flow) (reason : EndReason) : option FlowTable :=
  let released := flow_buffered_bytes f in
  '(f, ready) ← (match streams f with
                 | Some p =>
                     '(p', ready) ← pair_flush p StreamReady_default;
                     Some (set_streams f (Some p'), ready)
                 | None => Some (f, StreamReady_default)
                 end);
  let finished := match flow_stream_counters f with
                  | Some c => merge (finished_stream_counters t) c
                  | None => finished_stream_counters t
                  end in
  Some (mkFlowTable (flows t) (limits t) (reassembly t) (sat_sub (stream_bytes t) released) finished
          (flow_counters t) (ended t ++ [mkEndedFlow f reason ready]) (last_sweep t)).

(** [if let Some(flow) = self.flows.remove(&key) { count; self.end_flow(flow, reason) }]. *)
Definition remove_flow (t : FlowTable) (k : FlowKey) (reason : EndReason) : option FlowTable :=
  match flows t !! k with
  | Some f =>
      end_flow (set_counters (set_flows t (delete k (flows t))) (count_end (flow_counters t) reason))
        f reason
  | None => Some t
  end.

(** A [for key in keys] loop over [remove_flow]. *)
Definition remove_flows (t : FlowTable) (ks : list FlowKey) (reason : EndReason) : option FlowTable :=
  foldl (fun acc k => acc ≫= fun t => remove_flow t k reason) (Some t) ks.

Section table.
Context `{!HashOrder FlowKey}.

(** [sweep]. *)
Definition sweep (t : FlowTable) (now : Z) : option FlowTable :=
  let t := mkFlowTable (flows t) (limits t) (reassembly t) (stream_bytes t)
             (finished_stream_counters t) (flow_counters t) (ended t) (Some now) in
  let expired :=
    (filter (fun kf => flow_timeout (limits t) <= unwrap_or 0 (duration_since now (last_seen kf.2)))
       (hash_iter (flows t))).*1 in
  remove_flows t expired TimedOut.

Definition sweep_due (t : FlowTable) (now : Z) : bool :=
  match last_sweep t with
  | None => true
  | Some last =>
      match duration_since now last with
      | Some elapsed => SWEEP_INTERVAL <=? elapsed
      | None => false
      end
  end.

Definition maybe_sweep (t : FlowTable) (now : Z) : option FlowTable :=
  if sweep_due t now then sweep t now else Some t.

Definition within_limits (t : FlowTable) : bool :=
  (table_len t <? max_flows (limits t)) &&
  (stream_bytes t <? max_stream_bytes_total (reassembly t)).

(** The keys [make_room] evicts: the [batch] least recently seen. *)
Definition eviction_batch (t : FlowTable) : list FlowKey :=
  let batch := Z.max (max_flows (limits t) / EVICTION_BATCH_FRACTION) 1 in
  oldest_keys last_seen batch (flows t).

Definition make_room (t : FlowTable) (now : Z) : option FlowTable :=
  if within_limits t then Some t
  else
    t ← sweep t now;
    if within_limits t then Some t
    else remove_flows t (eviction_batch t) Evicted.

(** [flush]: shutdown, or the end of a capture. *)
Definition flush (t : FlowTable) : option FlowTable :=
  foldl (fun acc kf => acc ≫= fun t => end_flow t kf.2 SensorStopped)
    (Some (set_flows t ∅)) (hash_iter (flows t)).

(** [stream_counters]: totals over live and finished flows. *)
Definition stream_counters (t : FlowTable) : StreamCounters :=
  foldl (fun totals kf => match flow_stream_counters kf.2 with
                          | Some c => merge totals c
                          | None => totals
                          end)
    (finished_stream_counters t) (hash_iter (flows t)).

(** The flow [or_insert_with] builds for a key that is not in the table. *)
Definition fresh_flow (t : FlowTable) (k : FlowKey) (pkt : PacketSummary) : Flow := {|
  id := derive_flow_id k (pkt_timestamp pkt);
  key := k;
  initiator := pkt_source pkt;
  start := pkt_timestamp pkt;
  last_seen := pkt_timestamp pkt;
  flow_to_server := mkDirectionCounters 0 0;
  flow_to_client := mkDirectionCounters 0 0;
  tcp_flags_seen := 0;
  fin_from_initiator := false;
  fin_from_responder := false;
  saw_reset := false;
  streams := if pkt_protocol pkt =? TCP_PROTOCOL then Some (pair_new (reassembly t)) else None
|}.

Definition bump_direction (c : DirectionCounters) (n : Z) : DirectionCounters :=
  mkDirectionCounters (dc_packets c + 1) (dc_bytes c + n).

(** The packet and byte counts, and [last_seen], which never goes backwards. *)
Definition touch_flow (f : Flow) (towards_server : bool) (pkt : PacketSummary) : Flow :=
  mkFlow (id f) (key f) (initiator f) (start f)
    (if last_seen f <? pkt_timestamp pkt then pkt_timestamp pkt else last_seen f)
    (if towards_server then bump_direction (flow_to_server f) (pkt_frame_len pkt)
     else flow_to_server f)
    (if towards_server then flow_to_client f
     else bump_direction (flow_to_client f) (pkt_frame_len pkt))
    (tcp_flags_seen f) (fin_from_initiator f) (fin_from_responder f) (saw_reset f) (streams f).

(** The TCP half of [observe]: flags, reassembly and the reset decision. The boolean says that a
    reset was ignored. *)
Definition tcp_step (f : Flow) (towards_server : bool) (seg : TcpSegment)
    (policy : IpAddr -> OverlapPolicy) (ready : StreamReady) : option (Flow * StreamReady * bool) :=
  let fin := has seg FIN in
  let f := mkFlow (id f) (key f) (initiator f) (start f) (last_seen f) (flow_to_server f)
             (flow_to_client f) (Z.lor (tcp_flags_seen f) (seg_flags seg))
             (fin_from_initiator f || (fin && towards_server))
             (fin_from_responder f || (fin && negb towards_server)) (saw_reset f) (streams f) in
  let policy_to_server := policy (responder f).1 in
  let policy_to_client := policy (initiator f).1 in
  let reset (f : Flow) := mkFlow (id f) (key f) (initiator f) (start f) (last_seen f)
             (flow_to_server f) (flow_to_client f) (tcp_flags_seen f) (fin_from_initiator f)
             (fin_from_responder f) true (streams f) in
  match streams f with
  | Some p =>
      '(p', ready') ← pair_push p towards_server seg policy_to_server policy_to_client ready;
      let f := set_streams f (Some p') in
      if has seg RST then
        if rst_should_close p' towards_server (sequence seg) then Some (reset f, ready', false)
        else Some (f, ready', true)
      else Some (f, ready', false)
  | None => Some (if has seg RST then reset f else f, ready, false)
  end.

Definition bump_created (c : FlowCounters) : FlowCounters :=
  mkFlowCounters (created c + 1) (closed c) (timed_out c) (evicted c) (resets_ignored c).

Definition bump_resets (c : FlowCounters) : FlowCounters :=
  mkFlowCounters (created c) (closed c) (timed_out c) (evicted c) (resets_ignored c + 1).

(** The [entry(key).or_insert_with(...)] of [observe]. *)
Definition entry_flow (t : FlowTable) (k : FlowKey) (pkt : PacketSummary) : FlowTable * Flow :=
  match flows t !! k with
  | Some f => (t, f)
  | None => (set_counters t (bump_created (flow_counters t)), fresh_flow t k pkt)
  end.

(** What [observe] does to the flow it found: counts, reassembly, the byte total, closing. *)
Definition update_flow (t : FlowTable) (k : FlowKey) (f : Flow) (fresh : bool)
    (pkt : PacketSummary) (policy : IpAddr -> OverlapPolicy) (ready : StreamReady) :
    option (FlowTable * StreamReady * Observed) :=
  let towards_server := bool_decide (pkt_source pkt = initiator f) in
  let f := touch_flow f towards_server pkt in
  let buffered_before := flow_buffered_bytes f in
  '(f, ready, ignored) ← (match pkt_tcp pkt with
                          | Some seg => tcp_step f towards_server seg policy ready
                          | None => Some (f, ready, false)
                          end);
  let t := if (ignored : bool) then set_counters t (bump_resets (flow_counters t)) else t in
  let buffered_after := flow_buffered_bytes f in
  total ← checked_sub (stream_bytes t + buffered_after) buffered_before;
  let t := set_stream_bytes (set_flows t (<[k:=f]> (flows t))) total in
  let observed := mkObserved (id f) towards_server fresh in
  t ← (if is_closed f then remove_flow t k Closed else Some t);
  Some (t, ready, observed).

(** [observe]: attribute a packet to a flow. *)
Definition observe (t : FlowTable) (pkt : PacketSummary) (policy : IpAddr -> OverlapPolicy)
    (ready : StreamReady) : option (FlowTable * StreamReady * Observed) :=
  t ← maybe_sweep t (pkt_timestamp pkt);
  let k := key_new (pkt_protocol pkt) (pkt_source pkt) (pkt_destination pkt) in
  let fresh := bool_decide (flows t !! k = None) in
  t ← (if fresh then make_room t (pkt_timestamp pkt) else Some t);
  let '(t, f) := entry_flow t k pkt in
  update_flow t k f fresh pkt policy ready.

End table.

(** ** The invariant *)

(** The per-direction byte limit of a configuration. *)
Definition stream_limit (c : ReassemblyConfig) : Z := Z.max (max_stream_bytes_per_flow c) 1.

Record flow_wf (c : ReassemblyConfig) (k : FlowKey) (f : Flow) : Prop := {
  fw_key : key f = k;
  fw_canonical : endpoint_leb (first k) (second k) = true;
  fw_initiator : initiator f = first k \/ initiator f = second k;
  fw_time : start f <= last_seen f;
  fw_streams : forall p, streams f = Some p ->
    pair_wf p /\ byte_limit (to_server p) = stream_limit c /\
    byte_limit (to_client p) = stream_limit c;
  fw_tcp : streams f = None <-> protocol k <> TCP_PROTOCOL
}.

(** Every flow is well formed and still open, and the running total is exact. *)
Record table_inv (t : FlowTable) : Prop := {
  ti_flows : map_Forall (flow_wf (reassembly t)) (flows t);
  ti_open : map_Forall (fun _ f => is_closed f = false) (flows t);
  ti_bytes : stream_bytes t = map_zsum flow_buffered_bytes (flows t)
}.

Definition table_wf (t : FlowTable) : Prop :=
  table_inv t /\ table_len t <= Z.max (max_flows (limits t)) 1.

(** Flows created that are neither live nor counted as ended. *)
Definition balance (t : FlowTable) : Z :=
  created (flow_counters t) - closed (flow_counters t) - timed_out (flow_counters t)
  - evicted (flow_counters t) - table_len t.

Definition packet_ok (pkt : PacketSummary) : Prop :=
  match pkt_tcp pkt with Some seg => segment_ok seg | None => True end.

(** What every operation leaves alone. *)
Definition same_config (t t' : FlowTable) : Prop :=
  limits t' = limits t /\ reassembly t' = reassembly t.

(** ** Keys *)

Lemma key_new_sym proto a b : key_new proto a b = key_new proto b a.
Proof.
  unfold key_new. destruct (endpoint_leb a b) eqn:E1, (endpoint_leb b a) eqn:E2; try done.
  - by rewrite (endpoint_leb_antisym a b E1 E2).
  - destruct (endpoint_leb_total a b); congruence.
Qed.

Lemma key_new_canonical proto a b :
  endpoint_leb (first (key_new proto a b)) (second (key_new proto a b)) = true /\
  protocol (key_new proto a b) = proto /\
  (a = first (key_new proto a b) /\ b = second (key_new proto a b) \/
   a = second (key_new proto a b) /\ b = first (key_new proto a b)).
Proof.
  unfold key_new. destruct (endpoint_leb a b) eqn:E; simpl; [by eauto|].
  destruct (endpoint_leb_total a b); [congruence|]. eauto.
Qed.

(** ** Ending flows *)

Lemma flow_buffered_ok c k f :
  flow_wf c k f -> 0 <= flow_buffered_bytes f <= 2 * stream_limit c.
Proof.
  intros [_ _ _ _ Hs _]. unfold flow_buffered_bytes. destruct (streams f) as [p|].
  - destruct (Hs p eq_refl) as (Hp & E1 & E2). pose proof (pair_buffered_ok p Hp). lia.
  - unfold stream_limit. lia.
Qed.

Lemma flows_buffered_nonneg c (m : gmap FlowKey Flow) :
  map_Forall (flow_wf c) m -> 0 <= map_zsum flow_buffered_bytes m.
Proof.
  intros Hm. apply map_zsum_nonneg. intros k f Hf. by eapply flow_buffered_ok, Hm.
Qed.

Lemma end_flow_ok t c k f reason :
  flow_wf c k f ->
  exists t' e, end_flow t f reason = Some t' /\ flows t' = flows t /\ same_config t t' /\
    flow_counters t' = flow_counters t /\ last_sweep t' = last_sweep t /\
    stream_bytes t' = sat_sub (stream_bytes t) (flow_buffered_bytes f) /\
    ended t' = ended t ++ [e] /\ end_reason e = reason /\ id (ended_flow e) = id f /\
    flow_buffered_bytes (ended_flow e) = 0.
Proof.
  intros Hf. unfold end_flow. destruct (streams f) as [p|] eqn:Es.
  - destruct (fw_streams _ _ _ Hf p Es) as (Hp & _ & _).
    destruct (pair_flush_wf p StreamReady_default Hp) as (p' & r' & -> & Hp' & Hz). simpl.
    eexists _, _. split; [done|]. simpl. split_and!; try done.
  - simpl. eexists _, _. split; [done|]. simpl. split_and!; try done.
    unfold flow_buffered_bytes. simpl. by rewrite Es.
Qed.

Lemma count_end_balance t (m' : gmap FlowKey Flow) c r :
  r <> SensorStopped -> flow_counters t = count_end c r ->
  Z.of_nat (size (flows t)) = Z.of_nat (size m') - 1 ->
  balance t = created c - closed c - timed_out c - evicted c - Z.of_nat (size m').
Proof. intros Hr Hc Hs. unfold balance, table_len. rewrite Hc, Hs. destruct r; simpl; try done; lia. Qed.

(** Removing one key keeps the invariant and the balance of the counters; the flow under that key
    may be closed already. *)
Lemma remove_flow_pre t k reason :
  map_Forall (flow_wf (reassembly t)) (flows t) ->
  map_Forall (fun _ f => is_closed f = false) (delete k (flows t)) ->
  stream_bytes t = map_zsum flow_buffered_bytes (flows t) -> reason <> SensorStopped ->
  exists t', remove_flow t k reason = Some t' /\ table_inv t' /\ same_config t t' /\
    flows t' = delete k (flows t) /\ balance t' = balance t /\ last_sweep t' = last_sweep t /\
    created (flow_counters t') = created (flow_counters t).
Proof.
  intros Hf Ho Hb Hr. unfold remove_flow. destruct (flows t !! k) as [f|] eqn:Ek; cycle 1.
  { rewrite delete_id in Ho by done. exists t. split_and!; try done. by rewrite delete_id. }
  destruct (end_flow_ok (set_counters (set_flows t (delete k (flows t)))
    (count_end (flow_counters t) reason)) (reassembly t) k f reason (Hf _ _ Ek))
    as (t' & e & -> & E1 & E2 & E3 & E4 & E5 & _). simpl in *.
  exists t'. split; [done|]. destruct E2 as [E2 E2']. simpl in *.
  split; [|split_and!; try done].
  - split; rewrite ?E1, ?E2'.
    + by apply map_Forall_delete.
    + done.
    + rewrite E5, Hb, (map_zsum_delete _ _ _ _ Ek).
      pose proof (flows_buffered_nonneg (reassembly t) (delete k (flows t))
        ltac:(by apply map_Forall_delete)). unfold sat_sub. lia.
  - apply (count_end_balance t' (flows t) _ reason); [done|done|].
    rewrite E1. by eapply map_size_delete_Z.
  - rewrite E3. by destruct reason.
Qed.

Lemma remove_flow_ok t k reason :
  table_inv t -> reason <> SensorStopped ->
  exists t', remove_flow t k reason = Some t' /\ table_inv t' /\ same_config t t' /\
    flows t' = delete k (flows t) /\ balance t' = balance t /\ last_sweep t' = last_sweep t /\
    created (flow_counters t') = created (flow_counters t).
Proof. intros [Hf Ho Hb] Hr. apply remove_flow_pre; try done. by apply map_Forall_delete. Qed.

Lemma remove_flows_ok t ks reason :
  table_inv t -> reason <> SensorStopped ->
  exists t', remove_flows t ks reason = Some t' /\ table_inv t' /\ same_config t t' /\
    flows t' = filter (fun kf => kf.1 ∉ ks) (flows t) /\ balance t' = balance t /\
    last_sweep t' = last_sweep t /\ created (flow_counters t') = created (flow_counters t).
Proof.
  intros Ht Hr. revert t Ht. induction ks as [|k ks IH]; intros t Ht.
  { exists t. split_and!; try done. symmetry. apply map_filter_id. intros i x Hi Hx.
    by apply elem_of_nil in Hx. }
  destruct (remove_flow_ok t k reason Ht Hr) as (t1 & E1 & Ht1 & [C1 C1'] & F1 & B1 & S1 & N1).
  destruct (IH t1 Ht1) as (t2 & E2 & Ht2 & [C2 C2'] & F2 & B2 & S2 & N2).
  exists t2. unfold remove_flows in *. simpl. rewrite E1. split_and!; try done; try congruence.
  - split; congruence.
  - rewrite F2, F1. apply map_eq. intros i. apply option_eq. intros x.
    rewrite !map_lookup_filter_Some, lookup_delete_Some. simpl. set_solver.
Qed.

#[local] Opaque derive_flow_id.

(** ** Sweeping and evicting *)

Section table_lemmas.
Context `{!HashOrder FlowKey}.
Implicit Types (t : FlowTable) (pkt : PacketSummary).

(** How long a flow has been idle. *)
Definition idle (now : Z) (f : Flow) : Z := unwrap_or 0 (duration_since now (last_seen f)).

Lemma sweep_ok t now :
  table_inv t ->
  exists t', sweep t now = Some t' /\ table_inv t' /\ same_config t t' /\
    flows t' = filter (fun kf => idle now kf.2 < flow_timeout (limits t)) (flows t) /\
    balance t' = balance t /\ last_sweep t' = Some now /\
    created (flow_counters t') = created (flow_counters t).
Proof.
  intros [Hf Ho Hb]. unfold sweep. simpl.
  match goal with |- context [remove_flows ?t0 ?ks TimedOut] =>
    destruct (remove_flows_ok t0 ks TimedOut) as (t' & -> & Ht & [C1 C2] & F & B & S & N) end;
    [by split|done|].
  exists t'. split_and!; try done. rewrite F. simpl. apply map_filter_ext. intros k f Hk. simpl.
  rewrite list_elem_of_fmap. split.
  - intros Hn. apply Z.nle_gt. intros Hle. apply Hn. exists (k, f). split; [done|].
    apply list_elem_of_filter. split; [done|]. by apply elem_of_hash_iter.
  - intros Hlt ([k' f'] & -> & Hx). apply list_elem_of_filter in Hx as [Hx Hin]. simpl in *.
    apply elem_of_hash_iter in Hin. simplify_eq. unfold idle in Hlt. lia.
Qed.

Lemma maybe_sweep_ok t now :
  table_inv t ->
  exists t', maybe_sweep t now = Some t' /\ table_inv t' /\ same_config t t' /\
    flows t' ⊆ flows t /\ balance t' = balance t /\
    created (flow_counters t') = created (flow_counters t) /\
    (forall k f, flows t !! k = Some f -> idle now f < flow_timeout (limits t) ->
      flows t' !! k = Some f).
Proof.
  intros Ht. unfold maybe_sweep. destruct (sweep_due t now).
  - destruct (sweep_ok t now Ht) as (t' & E & Ht' & C & F & B & S & N). exists t'.
    split_and!; try done.
    + rewrite F. apply map_filter_subseteq.
    + intros k f Hk Hi. rewrite F. by apply map_lookup_filter_Some.
  - exists t. by split_and!.
Qed.

(** One eviction frees a tenth of the table, at least one flow. *)
Lemma evict_ok t :
  table_inv t ->
  exists t', remove_flows t (eviction_batch t) Evicted = Some t' /\ table_inv t' /\
    same_config t t' /\ flows t' ⊆ flows t /\ balance t' = balance t /\
    created (flow_counters t') = created (flow_counters t) /\
    table_len t' = table_len t -
      Z.min (Z.max (max_flows (limits t) / EVICTION_BATCH_FRACTION) 1) (table_len t) /\
    (forall k k' f f', flows t !! k = Some f -> flows t' !! k = None -> flows t' !! k' = Some f' ->
      last_seen f <= last_seen f').
Proof.
  intros Ht. destruct (remove_flows_ok t (eviction_batch t) Evicted Ht)
    as (t' & E & Ht' & C & F & B & _ & N); [done|].
  unfold eviction_batch in F. set (n := Z.max _ 1) in *. exists t'. split_and!; try done.
  - rewrite F. apply map_filter_subseteq.
  - unfold table_len. rewrite F. apply oldest_keys_size. lia.
  - intros k k' f f' Hk Hk' Hf'. rewrite F in Hk', Hf'. by eapply oldest_keys_order.
Qed.

Lemma make_room_ok t now :
  table_wf t ->
  exists t', make_room t now = Some t' /\ table_inv t' /\ same_config t t' /\
    flows t' ⊆ flows t /\ balance t' = balance t /\
    created (flow_counters t') = created (flow_counters t) /\
    table_len t' < Z.max (max_flows (limits t)) 1.
Proof.
  intros [Ht Hcap]. unfold make_room. destruct (within_limits t) eqn:Ew.
  { exists t. unfold within_limits in Ew. bsimpl. split_and!; try done. lia. }
  destruct (sweep_ok t now Ht) as (t1 & -> & Ht1 & [C1 C1'] & F1 & B1 & _ & N1). simpl.
  assert (Hsub : flows t1 ⊆ flows t) by (rewrite F1; apply map_filter_subseteq).
  destruct (within_limits t1) eqn:Ew1.
  { exists t1. unfold within_limits in Ew1. bsimpl. rewrite C1 in *. split_and!; try done. lia. }
  destruct (evict_ok t1 Ht1) as (t2 & -> & Ht2 & [C2 C2'] & F2 & B2 & N2 & L2 & _).
  exists t2. split_and!; try done; try congruence; [by split; congruence|by etrans|].
  assert (table_len t1 <= table_len t)
    by (unfold table_len; pose proof (map_subseteq_size _ _ Hsub); lia).
  unfold table_len in *. lia.
Qed.

(** ** Observing packets *)

Lemma tcp_step_ok c k f dir seg pol ready :
  flow_wf c k f -> segment_ok seg ->
  exists f' ready' ig, tcp_step f dir seg pol ready = Some (f', ready', ig) /\ flow_wf c k f' /\
    id f' = id f /\ initiator f' = initiator f /\ last_seen f' = last_seen f /\
    start f' = start f.
Proof.
  intros [Hk Hc Hi Htm Hs Htcp] Hseg. unfold tcp_step. simpl.
  destruct (streams f) as [p|] eqn:Es; cycle 1.
  { eexists _, _, _. split; [done|]. destruct (has seg RST); split_and!; try done;
      split; simpl; try done; congruence. }
  destruct (Hs p eq_refl) as (Hp & L1 & L2).
  match goal with |- context [pair_push p dir seg ?a ?b ready] =>
    destruct (pair_push_wf p dir seg a b ready Hp Hseg) as (p' & r' & E & Hp');
    pose proof (pair_push_limits p dir seg a b ready p' r' Hp Hseg E) as [M1 M2];
    rewrite E end. simpl.
  assert (Hnew : forall q, Some p' = Some q -> pair_wf q /\
    byte_limit (to_server q) = stream_limit c /\ byte_limit (to_client q) = stream_limit c)
    by (intros q [= <-]; split_and!; congruence).
  assert (Htcp' : Some p' = None <-> protocol k <> TCP_PROTOCOL)
    by (split; [done|intros Hn; by apply Htcp in Hn]).
  destruct (has seg RST); [destruct (rst_should_close _ _ _)|];
    eexists _, _, _; (split; [done|]); split_and!; try done; by split.
Qed.

Lemma touch_flow_ok c k f dir pkt :
  flow_wf c k f -> flow_wf c k (touch_flow f dir pkt) /\
  flow_buffered_bytes (touch_flow f dir pkt) = flow_buffered_bytes f /\
  last_seen (touch_flow f dir pkt) = Z.max (last_seen f) (pkt_timestamp pkt).
Proof.
  intros [Hk Hc Hi Htm Hs Htcp]. split_and!; [split; simpl; try done; zcase; lia|done|].
  simpl. zcase; lia.
Qed.

Lemma step_flow_ok c k f dir pkt pol ready :
  flow_wf c k f -> packet_ok pkt ->
  exists g ready' ig, match pkt_tcp pkt with
      | Some seg => tcp_step (touch_flow f dir pkt) dir seg pol ready
      | None => Some (touch_flow f dir pkt, ready, false) end = Some (g, ready', ig) /\
    flow_wf c k g /\ id g = id f /\ initiator g = initiator f /\
    last_seen g = Z.max (last_seen f) (pkt_timestamp pkt).
Proof.
  intros Hw Hp. destruct (touch_flow_ok _ _ _ dir pkt Hw) as (Hw1 & Hb1 & Hl1).
  unfold packet_ok in Hp. destruct (pkt_tcp pkt) as [seg|]; [|by eauto 10].
  destruct (tcp_step_ok _ _ _ dir seg pol ready Hw1 Hp) as (g & r' & ig & E & Hg & E1 & E2 & E3 & _).
  exists g, r', ig. split_and!; try done. congruence.
Qed.

(** The flow [f] is the entry of [k], or a new one that buffers nothing. *)
Definition entry_ok (t : FlowTable) (k : FlowKey) (f : Flow) : Prop :=
  flows t !! k = Some f \/ flows t !! k = None /\ flow_buffered_bytes f = 0.

Lemma entry_zsum t k f g :
  entry_ok t k f ->
  map_zsum flow_buffered_bytes (<[k:=g]> (flows t)) =
    map_zsum flow_buffered_bytes (flows t) - flow_buffered_bytes f + flow_buffered_bytes g.
Proof.
  intros [Hk|[Hk Hz]]; [by apply map_zsum_update|]. rewrite map_zsum_insert by done. lia.
Qed.

Lemma update_flow_ok t k f fresh pkt pol ready :
  table_inv t -> flow_wf (reassembly t) k f -> entry_ok t k f -> packet_ok pkt ->
  exists t' ready' g, update_flow t k f fresh pkt pol ready =
      Some (t', ready', mkObserved (id f) (bool_decide (pkt_source pkt = initiator f)) fresh) /\
    table_inv t' /\ same_config t t' /\
    flows t' = (if is_closed g then delete k (flows t) else <[k:=g]> (flows t)) /\
    id g = id f /\ initiator g = initiator f /\
    last_seen g = Z.max (last_seen f) (pkt_timestamp pkt) /\
    created (flow_counters t') = created (flow_counters t) /\
    balance t' = balance t + table_len t - Z.of_nat (size (<[k:=g]> (flows t))).
Proof.
  intros [Hf Ho Hb] Hw He Hp. unfold update_flow.
  set (dir := bool_decide (pkt_source pkt = initiator f)).
  destruct (touch_flow_ok _ _ _ dir pkt Hw) as (_ & Hb1 & _).
  destruct (step_flow_ok _ _ _ dir pkt pol ready Hw Hp)
    as (g & ready' & ig & -> & Hg & Eid & Ein & Els). simpl.
  set (t1 := if ig then _ else t).
  assert (Ht1 : flows t1 = flows t /\ limits t1 = limits t /\ reassembly t1 = reassembly t /\
    stream_bytes t1 = stream_bytes t /\ created (flow_counters t1) = created (flow_counters t) /\
    (forall n, created (flow_counters t1) - closed (flow_counters t1) - timed_out (flow_counters t1)
      - evicted (flow_counters t1) - n = balance t + table_len t - n)).
  { unfold t1, balance. destruct ig; simpl; split_and!; try done; lia. }
  destruct Ht1 as (F1 & L1 & R1 & S1 & N1 & B1).
  rewrite S1, Hb1, Hb. pose proof (flows_buffered_nonneg _ _ Hf) as Hnn.
  pose proof (flow_buffered_ok _ _ _ Hw) as Hbf. pose proof (flow_buffered_ok _ _ _ Hg) as Hbg.
  assert (Hle : flow_buffered_bytes f <= map_zsum flow_buffered_bytes (flows t)
    + flow_buffered_bytes g).
  { pose proof (entry_zsum t k f g He) as Hz. destruct He as [Hk|[Hk ->]]; [|lia].
    pose proof (map_zsum_delete flow_buffered_bytes _ _ _ Hk).
    pose proof (flows_buffered_nonneg (reassembly t) (delete k (flows t))
      ltac:(by apply map_Forall_delete)). lia. }
  unfold checked_sub. zdec. simpl. rewrite Eid.
  set (t2 := set_stream_bytes _ _).
  assert (Hw2 : map_Forall (flow_wf (reassembly t)) (<[k:=g]> (flows t)))
    by (by apply map_Forall_insert_2).
  assert (Hb2 : stream_bytes t2 = map_zsum flow_buffered_bytes (<[k:=g]> (flows t)))
    by (simpl; rewrite (entry_zsum t k f g He); lia).
  assert (Hbal : balance t2 = balance t + table_len t - Z.of_nat (size (<[k:=g]> (flows t))))
    by (unfold balance, table_len; simpl; rewrite F1; apply B1).
  destruct (is_closed g) eqn:Ec.
  - destruct (remove_flow_pre t2 k Closed) as (t3 & -> & Ht3 & [C3 C3'] & F3 & B3 & _ & N3);
      simpl; rewrite ?F1, ?R1; try done.
    { rewrite delete_insert_eq. by apply map_Forall_delete. }
    simpl in *. eexists _, _, g. split; [done|]. rewrite Ec.
    split_and!; try done; try congruence; [by split; congruence|].
    rewrite F3, F1. by rewrite delete_insert_eq.
  - simpl. eexists _, _, g. split; [done|]. rewrite Ec. simpl. rewrite ?F1.
    split_and!; try done. split; simpl; rewrite ?F1, ?R1; try done. by apply map_Forall_insert_2.
Qed.

Lemma fresh_flow_ok t pkt :
  let k := key_new (pkt_protocol pkt) (pkt_source pkt) (pkt_destination pkt) in
  flow_wf (reassembly t) k (fresh_flow t k pkt) /\ flow_buffered_bytes (fresh_flow t k pkt) = 0.
Proof.
  intros k. destruct (key_new_canonical (pkt_protocol pkt) (pkt_source pkt) (pkt_destination pkt))
    as (Hc & Hp & Hs). fold k in Hc, Hp, Hs. split.
  - split; simpl; try done; try lia; [naive_solver| |].
    + intros p. case_match; [|done]. intros [= <-]. split; [apply pair_new_wf|done].
    + rewrite Hp. case_match eqn:E; bsimpl; by split.
  - unfold flow_buffered_bytes, fresh_flow. simpl. by destruct (pkt_protocol pkt =? TCP_PROTOCOL).
Qed.

(** [observe] in full: which flow is found, what becomes of the table. *)
Lemma observe_spec t pkt pol ready :
  table_wf t -> packet_ok pkt ->
  let k := key_new (pkt_protocol pkt) (pkt_source pkt) (pkt_destination pkt) in
  exists t' ready' f g fresh,
    observe t pkt pol ready =
      Some (t', ready', mkObserved (id f) (bool_decide (pkt_source pkt = initiator f)) fresh) /\
    table_wf t' /\ same_config t t' /\ balance t' = balance t /\
    flows t' !! k = (if is_closed g then None else Some g) /\
    id g = id f /\ initiator g = initiator f /\
    last_seen g = Z.max (last_seen f) (pkt_timestamp pkt) /\
    (forall f0, flows t !! k = Some f0 -> idle (pkt_timestamp pkt) f0 < flow_timeout (limits t) ->
      f = f0 /\ fresh = false) /\
    (flows t !! k = None ->
      fresh = true /\ f = fresh_flow t k pkt /\
      created (flow_counters t') = created (flow_counters t) + 1).
Proof.
  intros [Ht Hcap] Hp k. unfold observe. fold k.
  destruct (maybe_sweep_ok t (pkt_timestamp pkt) Ht)
    as (t1 & -> & Ht1 & [C1 C1'] & F1 & B1 & N1 & K1). simpl.
  assert (Hcap1 : table_len t1 <= Z.max (max_flows (limits t1)) 1).
  { rewrite C1. pose proof (map_subseteq_size _ _ F1). unfold table_len in *. lia. }
  destruct (flows t1 !! k) as [f|] eqn:Ek.
  - rewrite bool_decide_eq_false_2 by done. simpl. unfold entry_flow. rewrite Ek.
    destruct (update_flow_ok t1 k f false pkt pol ready Ht1 (ti_flows _ Ht1 _ _ Ek) ltac:(by left) Hp)
      as (t2 & r2 & g & -> & Ht2 & [C2 C2'] & F2 & Eid & Ein & Els & N2 & B2).
    rewrite map_size_insert, Ek in B2.
    exists t2, r2, f, g, false. split_and!; try done; try congruence.
    + split; [done|]. unfold table_len in *. rewrite F2, C2. destruct (is_closed g).
      * rewrite (map_size_delete_Z _ _ _ Ek). lia.
      * by rewrite map_size_insert, Ek.
    + split; congruence.
    + rewrite B2, B1. unfold table_len in *. simpl in *. lia.
    + rewrite F2. destruct (is_closed g); [apply lookup_delete_eq|apply lookup_insert_eq].
    + intros f0 Hf0 Hi. specialize (K1 _ _ Hf0 Hi). by simplify_eq.
    + intros Hn. by rewrite (lookup_weaken_None _ _ _ Hn F1) in Ek.
  - rewrite bool_decide_eq_true_2 by done.
    destruct (make_room_ok t1 (pkt_timestamp pkt) (conj Ht1 Hcap1))
      as (t2 & -> & Ht2 & [C2 C2'] & F2 & B2 & N2 & L2). simpl.
    pose proof (lookup_weaken_None _ _ _ Ek F2) as Ek2. unfold entry_flow. rewrite Ek2.
    destruct (fresh_flow_ok t2 pkt) as [Hw Hz]. fold k in Hw, Hz.
    set (t3 := set_counters t2 _).
    assert (Ht3 : table_inv t3) by (by destruct Ht2; split).
    destruct (update_flow_ok t3 k (fresh_flow t2 k pkt) true pkt pol ready Ht3 Hw
      ltac:(by right) Hp)
      as (t4 & r4 & g & -> & Ht4 & [C4 C4'] & F4 & Eid & Ein & Els & N4 & B4).
    simpl in *. rewrite map_size_insert, Ek2 in B4.
    exists t4, r4, (fresh_flow t2 k pkt), g, true. split_and!; try done; try congruence.
    + split; [done|]. unfold table_len in *. rewrite F4, C4. destruct (is_closed g).
      * rewrite delete_id by done. simpl. rewrite C2. lia.
      * rewrite map_size_insert, Ek2. simpl. rewrite C2. lia.
    + split; congruence.
    + rewrite B4, <- B1, <- B2. unfold balance, table_len. simpl. lia.
    + rewrite F4. destruct (is_closed g); [apply lookup_delete_eq|apply lookup_insert_eq].
    + intros f0 Hf0 Hi. specialize (K1 _ _ Hf0 Hi). congruence.
    + intros _. split_and!; [done| |congruence].
      unfold fresh_flow. by rewrite C2', C1'.
Qed.

(** ** Shutdown *)

Lemma end_flows_ok l t :
  Forall (fun kf => flow_wf (reassembly t) kf.1 kf.2) l ->
  0 <= stream_bytes t ->
  exists t', foldl (fun acc kf => acc ≫= fun t => end_flow t kf.2 SensorStopped) (Some t) l = Some t' /\
    flows t' = flows t /\ same_config t t' /\ flow_counters t' = flow_counters t /\
    stream_bytes t' = Z.max 0 (stream_bytes t - zsum ((fun kf => flow_buffered_bytes kf.2) <$> l)) /\
    id ∘ ended_flow <$> ended t' = (id ∘ ended_flow <$> ended t) ++ ((fun kf => id kf.2) <$> l).
Proof.
  revert t. induction l as [|[k f] l IH]; intros t Hl Hn.
  { exists t. simpl. rewrite app_nil_r. split_and!; try done. lia. }
  apply Forall_cons in Hl as [Hf Hl]. simpl in Hf.
  destruct (end_flow_ok t _ k f SensorStopped Hf)
    as (t1 & e & E1 & F1 & [C1 C1'] & N1 & _ & S1 & D1 & _ & I1 & _).
  destruct (IH t1) as (t2 & E2 & F2 & [C2 C2'] & N2 & S2 & D2);
    [by rewrite C1'|rewrite S1; unfold sat_sub; lia|].
  exists t2. simpl. rewrite E1. split_and!; try done; try congruence; [by split; congruence| |].
  - rewrite S2, S1. pose proof (flow_buffered_ok _ _ _ Hf). unfold sat_sub.
    unfold fmap in *. set (z := zsum _). assert (0 <= z); [|lia]. unfold z.
    clear -Hl. induction Hl as [|[k f] l Hf _ IH]; simpl; [lia|].
    pose proof (flow_buffered_ok _ _ _ Hf). simpl in *. lia.
  - rewrite D2, D1, fmap_app, <- app_assoc. simpl. by rewrite I1.
Qed.

Lemma flush_ok t :
  table_inv t ->
  exists t', flush t = Some t' /\ flows t' = ∅ /\ stream_bytes t' = 0 /\
    flow_counters t' = flow_counters t /\
    exists l, l ≡ₚ map_to_list (flows t) /\
      id ∘ ended_flow <$> ended t' = (id ∘ ended_flow <$> ended t) ++ ((fun kf => id kf.2) <$> l).
Proof.
  intros [Hf Ho Hb]. unfold flush.
  destruct (end_flows_ok (hash_iter (flows t)) (set_flows t ∅))
    as (t' & -> & F & _ & N & S & D); simpl in *.
  - apply Forall_forall. intros [k f] Hk. apply elem_of_hash_iter in Hk. by apply Hf.
  - rewrite Hb. by eapply flows_buffered_nonneg.
  - exists t'. split_and!; try done.
    + rewrite S, Hb. unfold map_zsum. rewrite <- hash_iter_perm. lia.
    + exists (hash_iter (flows t)). split; [apply hash_iter_perm|done].
Qed.

(** ** Runs of the table *)

Inductive TableOp :=
| ObserveOp (pkt : PacketSummary) (policy : IpAddr -> OverlapPolicy)
| SweepOp (now : Z).

Definition table_op_ok (op : TableOp) : Prop :=
  match op with ObserveOp pkt _ => packet_ok pkt | SweepOp _ => True end.

Definition run_table_op (t : FlowTable) (op : TableOp) : option FlowTable :=
  match op with
  | ObserveOp pkt policy => '(t', _, _) ← observe t pkt policy StreamReady_default; Some t'
  | SweepOp now => sweep t now
  end.

Definition run_table (t : FlowTable) (ops : list TableOp) : option FlowTable :=
  foldl (fun acc op => acc ≫= fun t => run_table_op t op) (Some t) ops.

Lemma run_table_ok ops t :
  Forall table_op_ok ops -> table_wf t ->
  exists t', run_table t ops = Some t' /\ table_wf t' /\ same_config t t' /\ balance t' = balance t.
Proof.
  intros Hops. revert t. induction Hops as [|op ops Hop _ IH]; intros t Ht; [by exists t|].
  assert (Hstep : exists t1, run_table_op t op = Some t1 /\ table_wf t1 /\ same_config t t1 /\
    balance t1 = balance t).
  { destruct op as [pkt pol|now]; simpl in *.
    - destruct (observe_spec t pkt pol StreamReady_default Ht Hop)
        as (t1 & r & f & g & fresh & -> & Ht1 & C & B & _). by eexists.
    - destruct Ht as [Ht Hcap]. destruct (sweep_ok t now Ht)
        as (t1 & -> & Ht1 & [C1 C1'] & F & B & _). eexists. split_and!; try done. split; [done|].
      rewrite C1. pose proof (map_subseteq_size (flows t1) (flows t)
        ltac:(rewrite F; apply map_filter_subseteq)). unfold table_len in *. lia. }
  destruct Hstep as (t1 & E1 & Ht1 & [C1 C1'] & B1).
  destruct (IH t1 Ht1) as (t2 & E2 & Ht2 & [C2 C2'] & B2).
  exists t2. unfold run_table in *. simpl. rewrite E1. split_and!; try done; try congruence.
  split; congruence.
Qed.

Lemma with_reassembly_wf l r : table_wf (with_reassembly l r) /\ balance (with_reassembly l r) = 0.
Proof.
  split; [|done]. split; [|simpl; unfold table_len; simpl; rewrite map_size_empty; lia].
  split; simpl; [apply map_Forall_empty|apply map_Forall_empty|by rewrite map_zsum_empty].
Qed.

Lemma table_bytes_bound t :
  table_wf t ->
  0 <= stream_bytes t <= 2 * stream_limit (reassembly t) * Z.max (max_flows (limits t)) 1.
Proof.
  intros [[Hf Ho Hb] Hcap]. rewrite Hb. split; [by eapply flows_buffered_nonneg|].
  etrans; [apply map_zsum_le_size; intros k f Hk; by eapply flow_buffered_ok, Hf|].
  unfold table_len in Hcap. apply Z.mul_le_mono_nonneg_l; [unfold stream_limit; lia|done].
Qed.

End table_lemmas.

(** ** Properties *)

(** C21: whatever packets arrive, in whatever order the hash table is iterated, the flow table never
    panics; it stays inside [max_flows], every flow stays well formed under its canonical key and is
    still open, the running byte total is exactly what the flows buffer and is bounded by the
    configuration, and every flow ever created is live or counted once as closed, timed out or
    evicted. *)
Theorem flow_table_invariant `{!HashOrder FlowKey} (l : Limits) (r : ReassemblyConfig)
    (ops : list TableOp) :
  Forall table_op_ok ops ->
  exists t, run_table (with_reassembly l r) ops = Some t /\
    table_len t <= Z.max (max_flows l) 1 /\
    map_Forall (flow_wf r) (flows t) /\
    map_Forall (fun _ f => is_closed f = false) (flows t) /\
    stream_bytes t = map_zsum flow_buffered_bytes (flows t) /\
    stream_bytes t <= 2 * Z.max (max_stream_bytes_per_flow r) 1 * Z.max (max_flows l) 1 /\
    created (flow_counters t) =
      table_len t + closed (flow_counters t) + timed_out (flow_counters t) + evicted (flow_counters t).
Proof.
  intros Hops. destruct (with_reassembly_wf l r) as [Hw Hbal].
  destruct (run_table_ok ops _ Hops Hw) as (t & E & Ht & [C C'] & B). exists t.
  pose proof (table_bytes_bound t Ht) as Hb. destruct Ht as [[Hf Ho Hs] Hcap]. simpl in *.
  rewrite C, C' in *. split_and!; try done; [unfold stream_limit in Hb; lia|]. rewrite Hbal in B. unfold balance in B. lia.
Qed.

(** A sweep removes exactly the flows that have been idle for the timeout or longer, and leaves
    every other flow as it was. *)
Theorem sweep_removes_exactly_the_idle `{!HashOrder FlowKey} (t : FlowTable) (now : Z) :
  table_wf t ->
  exists t', sweep t now = Some t' /\ table_wf t' /\
    forall k f, flows t' !! k = Some f <->
      flows t !! k = Some f /\
      unwrap_or 0 (duration_since now (last_seen f)) < flow_timeout (limits t).
Proof.
  intros [Ht Hcap]. destruct (sweep_ok t now Ht) as (t' & E & Ht' & [C C'] & F & _).
  exists t'. split_and!; [done| |].
  - split; [done|]. rewrite C. pose proof (map_subseteq_size (flows t') (flows t)
      ltac:(rewrite F; apply map_filter_subseteq)). unfold table_len in *. lia.
  - intros k f. by rewrite F, map_lookup_filter_Some.
Qed.

(** Making room always leaves a free entry, never removes a flow when the table is inside its
    limits, and what it evicts is older than what it keeps: a flow that is gone had timed out, or was
    seen no later than every survivor. *)
Theorem make_room_evicts_oldest_first `{!HashOrder FlowKey} (t : FlowTable) (now : Z) :
  table_wf t ->
  exists t', make_room t now = Some t' /\
    table_len t' < Z.max (max_flows (limits t)) 1 /\
    flows t' ⊆ flows t /\
    (within_limits t = true -> t' = t) /\
    (forall k f, flows t !! k = Some f -> flows t' !! k = None ->
      flow_timeout (limits t) <= unwrap_or 0 (duration_since now (last_seen f)) \/
      forall k' f', flows t' !! k' = Some f' -> last_seen f <= last_seen f').
Proof.
  intros Ht. destruct (make_room_ok t now Ht) as (t' & E & _ & _ & Hsub & _ & _ & Hlen).
  exists t'. split_and!; try done.
  - intros Hw. unfold make_room in E. rewrite Hw in E. congruence.
  - intros k f Hk Hk'. unfold make_room in E. destruct (within_limits t); [congruence|].
    destruct (sweep_ok t now (proj1 Ht)) as (t1 & E1 & Ht1 & [C1 C1'] & F1 & _).
    rewrite E1 in E. simpl in E.
    destruct (Z.le_gt_cases (flow_timeout (limits t)) (idle now f)) as [Hi|Hi]; [by left|right].
    assert (Hk1 : flows t1 !! k = Some f) by (rewrite F1; by apply map_lookup_filter_Some).
    destruct (within_limits t1); [congruence|].
    destruct (evict_ok t1 Ht1) as (t2 & E2 & _ & _ & _ & _ & _ & _ & Hold).
    rewrite E2 in E. simplify_eq. intros k' f' Hf'. by eapply Hold.
Qed.

(** The two directions of a conversation are one flow: after a packet that left its flow open, a
    packet with the endpoints swapped that arrives before the idle timeout is attributed to the same
    flow, is not a new flow, and (unless both endpoints are the same) travels in the opposite
    direction. *)
Theorem reply_joins_flow `{!HashOrder FlowKey} (t t1 : FlowTable) (p q : PacketSummary)
    (pol : IpAddr -> OverlapPolicy) (ready r1 : StreamReady) (o1 : Observed) :
  table_wf t -> packet_ok p -> packet_ok q ->
  observe t p pol ready = Some (t1, r1, o1) ->
  pkt_protocol q = pkt_protocol p -> pkt_source q = pkt_destination p ->
  pkt_destination q = pkt_source p ->
  flows t1 !! key_new (pkt_protocol p) (pkt_source p) (pkt_destination p) <> None ->
  0 < flow_timeout (limits t) ->
  pkt_timestamp q < pkt_timestamp p + flow_timeout (limits t) ->
  exists t2 r2 o2, observe t1 q pol r1 = Some (t2, r2, o2) /\
    observed_flow_id o2 = observed_flow_id o1 /\ is_new o2 = false /\
    (pkt_source p <> pkt_destination p -> observed_to_server o2 = negb (observed_to_server o1)).
Proof.
  intros Ht Hp Hq E Eproto Es Ed Hopen Hpos Hts.
  destruct (observe_spec t p pol ready Ht Hp)
    as (t1' & r1' & f & g & fr & E1 & Ht1 & [C C'] & _ & Hg & Hid & Hin & Hls & _).
  rewrite E in E1. simplify_eq. simpl in *.
  destruct (is_closed g); [done|].
  destruct (observe_spec t1' q pol r1' Ht1 Hq)
    as (t2 & r2 & f2 & g2 & fr2 & E2 & _ & _ & _ & _ & _ & _ & _ & Hsame & _).
  rewrite Eproto, Es, Ed, key_new_sym in Hsame.
  destruct (Hsame g Hg) as [-> ->].
  { rewrite C. unfold idle, duration_since. zcase; simpl; lia. }
  do 3 eexists. split; [exact E2|]. simpl. split_and!; try done. intros Hne.
  rewrite Es, Hin. pose proof (ti_flows _ (proj1 Ht1) _ _ Hg) as Hwf.
  pose proof (fw_initiator _ _ _ Hwf) as Hini. rewrite Hin in Hini.
  destruct (key_new_canonical (pkt_protocol p) (pkt_source p) (pkt_destination p)) as (_ & _ & Hc).
  repeat case_bool_decide; naive_solver congruence.
Qed.

(** Shutting down ends every live flow exactly once, with nothing left buffered, and leaves the
    table empty. *)
Theorem flush_ends_every_flow `{!HashOrder FlowKey} (t : FlowTable) :
  table_wf t ->
  exists t', flush t = Some t' /\ flows t' = ∅ /\ stream_bytes t' = 0 /\
    exists l, l ≡ₚ map_to_list (flows t) /\
      (fun e => id (ended_flow e)) <$> ended t' =
        ((fun e => id (ended_flow e)) <$> ended t) ++ ((fun kf => id kf.2) <$> l).
Proof.
  intros [Ht _]. destruct (flush_ok t Ht) as (t' & E & F & S & _ & Hl). by exists t'.
Qed.

(** The cap on the bytes buffered across all flows is soft: it is only consulted when a flow is
    created, so under a valid configuration the total can exceed [max_stream_bytes_total]. *)
Theorem global_byte_cap_is_soft :
  exists (l : Limits) (r : ReassemblyConfig) (ops : list TableOp) (t : FlowTable),
    check r = inr () /\ Forall table_op_ok ops /\
    run_table (with_reassembly l r) ops = Some t /\
    max_stream_bytes_total r < stream_bytes t.
Proof.
  set (r := mkReassemblyConfig First [] 16 1024 60 4 4 4).
  set (pkt := fun port => mkPacketSummary 6 (V4 1, port) (V4 2, 80) 0 60 [1; 2; 3]
                (Some (mkTcpSegment 100 0 16 [1; 2; 3]))).
  exists Limits_default, r, [ObserveOp (pkt 1000) (fun _ => First); ObserveOp (pkt 1001) (fun _ => First)].
  eexists. split_and!; [done| |vm_compute; reflexivity|vm_compute; reflexivity].
  repeat constructor; simpl; lia.
Qed.

(** ** Witnesses *)

Module demo.

Definition policy (_ : IpAddr) : OverlapPolicy := First.

(** A segment of client port [port], seen at second [at_]. *)
Definition packet (port at_ : Z) : PacketSummary :=
  mkPacketSummary 6 (V4 1, port) (V4 2, 80) (secs at_) 60 [7; 8]
    (Some (mkTcpSegment 100 0 16 [7; 8])).

Definition reply (port at_ : Z) : PacketSummary :=
  mkPacketSummary 6 (V4 2, 80) (V4 1, port) (secs at_) 60 []
    (Some (mkTcpSegment 500 102 16 [])).

Definition limits : Limits := mkLimits 2 1024 4096 16 (secs 300) (secs 60).

Definition ops : list TableOp :=
  [ObserveOp (packet 1000 1) policy; ObserveOp (packet 1001 2) policy;
   ObserveOp (packet 1002 3) policy; SweepOp (secs 100)].

Lemma packet_is_ok port at_ : packet_ok (packet port at_).
Proof. split; simpl; lia. Qed.

Lemma reply_is_ok port at_ : packet_ok (reply port at_).
Proof. split; simpl; lia. Qed.

Lemma ops_ok : Forall table_op_ok ops.
Proof. repeat constructor; simpl; lia. Qed.

(** The table after the operations: two flows of the three, the first one evicted. *)
Definition table : FlowTable :=
  unwrap_or (new limits) (run_table (with_reassembly limits ReassemblyConfig_default) ops).

Lemma table_is_wf : table_wf table.
Proof.
  destruct (run_table_ok ops _ ops_ok (proj1 (with_reassembly_wf limits ReassemblyConfig_default)))
    as (t & E & Ht & _).
  unfold table. by rewrite E.
Qed.

End demo.

Lemma flow_table_invariant_witness :
  exists t, run_table (with_reassembly demo.limits ReassemblyConfig_default) demo.ops = Some t /\
    table_len t <= 2 /\
    created (flow_counters t) =
      table_len t + closed (flow_counters t) + timed_out (flow_counters t) + evicted (flow_counters t).
Proof.
  destruct (flow_table_invariant demo.limits ReassemblyConfig_default demo.ops demo.ops_ok)
    as (t & E & Hlen & _ & _ & _ & _ & Hc).
  exists t. split; [exact E|]. split; [exact Hlen|exact Hc].
Defined.

Lemma sweep_removes_exactly_the_idle_witness :
  exists t', sweep demo.table (secs 303) = Some t' /\ table_wf t'.
Proof.
  destruct (sweep_removes_exactly_the_idle demo.table (secs 303) demo.table_is_wf)
    as (t' & E & Hw & _).
  exists t'. split; [exact E|exact Hw].
Defined.

Lemma make_room_evicts_oldest_first_witness :
  exists t', make_room demo.table (secs 10) = Some t' /\ table_len t' < 2.
Proof.
  destruct (make_room_evicts_oldest_first demo.table (secs 10) demo.table_is_wf)
    as (t' & E & Hl & _).
  exists t'. split; [exact E|exact Hl].
Defined.

Lemma flush_ends_every_flow_witness : exists t', flush demo.table = Some t' /\ flows t' = ∅.
Proof.
  destruct (flush_ends_every_flow demo.table demo.table_is_wf) as (t' & E & F & _).
  exists t'. split; [exact E|exact F].
Defined.

Lemma reply_joins_flow_witness :
  exists t1 r1 o1 t2 r2 o2,
    observe demo.table (demo.packet 1005 4) demo.policy StreamReady_default = Some (t1, r1, o1) /\
    observe t1 (demo.reply 1005 5) demo.policy r1 = Some (t2, r2, o2) /\
    observed_flow_id o2 = observed_flow_id o1 /\ is_new o2 = false.
Proof.
  assert (E : is_Some (observe demo.table (demo.packet 1005 4) demo.policy StreamReady_default))
    by (eexists; vm_compute; reflexivity).
  destruct (observe demo.table (demo.packet 1005 4) demo.policy StreamReady_default)
    as [[[t1 r1] o1]|] eqn:Eo; [|destruct E as [? [=]]].
  destruct (reply_joins_flow demo.table t1 (demo.packet 1005 4) (demo.reply 1005 5) demo.policy
    StreamReady_default r1 o1 demo.table_is_wf (demo.packet_is_ok _ _) (demo.reply_is_ok _ _) Eo
    eq_refl eq_refl eq_refl) as (t2 & r2 & o2 & E2 & Hid & Hn & _).
  - vm_compute in Eo. injection Eo as <- _ _. vm_compute. discriminate.
  - vm_compute. reflexivity.
  - vm_compute. reflexivity.
  - exists t1, r1, o1, t2, r2, o2. split; [reflexivity|]. split; [exact E2|]. split; [exact Hid|exact Hn].
Defined.
