(* ===== verification/Decode.v ===== *)
(** Packet decoding: [crates/decode/src/{anomaly,layers,lib}.rs].

    A slice the decoder holds is always what is budget of the frame from some offset, so it is that
    offset; [offset_of] is then the identity. The header readers are those of the [etherparse]
    crate: the class [Etherparse], with what its documentation says of them. Indexing out of range
    is [None]. *)

From S2P Require Import Prelude Net Text Event.

(** ** Anomalies *)

Inductive Layer := LEthernet | LVlan | LIpv4 | LIpv6 | LTcp | LUdp | LIcmp.

#[global] Instance Layer_eq_dec : EqDecision Layer.
Proof. solve_decision. Defined.

Definition layer_as_str (l : Layer) : text :=
  of_string match l with
  | LEthernet => "ethernet" | LVlan => "vlan" | LIpv4 => "ipv4" | LIpv6 => "ipv6" | LTcp => "tcp"
  | LUdp => "udp" | LIcmp => "icmp"
  end.

Inductive AnomalyKind :=
| TruncatedHeader | LengthMismatch | ImpossibleLength | UnknownIpVersion | BadIpv4Checksum | TooManyLayers
| EmptyFrame.

#[global] Instance AnomalyKind_eq_dec : EqDecision AnomalyKind.
Proof. solve_decision. Defined.

Definition anomaly_kind_as_str (k : AnomalyKind) : text :=
  of_string match k with
  | TruncatedHeader => "truncated_header" | LengthMismatch => "length_mismatch"
  | ImpossibleLength => "impossible_length" | UnknownIpVersion => "unknown_ip_version"
  | BadIpv4Checksum => "bad_ipv4_checksum" | TooManyLayers => "too_many_layers" | EmptyFrame => "empty_frame"
  end.

Record Anomaly := mkAnomaly {
  an_layer : Layer;
  an_kind : AnomalyKind
}.

#[global] Instance Anomaly_eq_dec : EqDecision Anomaly.
Proof. solve_decision. Defined.

(** [Display] of an anomaly. *)
Definition anomaly_fmt (a : Anomaly) : text := layer_as_str (an_layer a) ++ [46] ++ anomaly_kind_as_str (an_kind a).

Record AnomalySet := mkAnomalySet {
  as_found : list Anomaly;
  as_overflowed : bool
}.

Definition anomalies_default : AnomalySet := mkAnomalySet [] false.

Definition CAP : Z := 8.

Definition anomalies_push (s : AnomalySet) (a : Anomaly) : AnomalySet :=
  if decide (a ∈ as_found s) then s
  else if CAP <=? len (as_found s) then mkAnomalySet (as_found s) true
  else mkAnomalySet (as_found s ++ [a]) (as_overflowed s).

Definition anomalies_is_empty (s : AnomalySet) : bool := bool_decide (as_found s = []).
Definition anomalies_len (s : AnomalySet) : Z := len (as_found s).
Definition anomalies_contains (s : AnomalySet) (layer : Layer) (kind : AnomalyKind) : bool :=
  bool_decide (mkAnomaly layer kind ∈ as_found s).

(** ** Layers *)

Record Ipv4Info := mkIpv4Info {
  v4_source : Z;
  v4_destination : Z;
  v4_protocol : Z;
  v4_ttl : Z;
  v4_identification : Z;
  v4_fragment_offset : Z;
  v4_more_fragments : bool;
  v4_header_len : Z;
  v4_total_len : Z
}.

(** [Ipv4Info::is_fragment]. *)
Definition ipv4_is_fragment (i : Ipv4Info) : bool := v4_more_fragments i || negb (v4_fragment_offset i =? 0).

Record Ipv6Info := mkIpv6Info {
  v6_source : Z;
  v6_destination : Z;
  v6_protocol : Z;
  v6_hop_limit : Z;
  v6_payload_length : Z;
  v6_header_len : Z;
  v6_is_fragment : bool;
  v6_fragment_offset : Z;
  v6_more_fragments : bool;
  v6_identification : Z
}.

Inductive Network := Ipv4 (i : Ipv4Info) | Ipv6 (i : Ipv6Info).

Definition net_source (n : Network) : IpAddr :=
  match n with Ipv4 i => V4 (v4_source i) | Ipv6 i => V6 (v6_source i) end.
Definition net_destination (n : Network) : IpAddr :=
  match n with Ipv4 i => V4 (v4_destination i) | Ipv6 i => V6 (v6_destination i) end.
Definition net_protocol (n : Network) : Z :=
  match n with Ipv4 i => v4_protocol i | Ipv6 i => v6_protocol i end.
Definition net_is_fragment (n : Network) : bool :=
  match n with Ipv4 i => ipv4_is_fragment i | Ipv6 i => v6_is_fragment i end.

Record TcpFlags := mkTcpFlags {
  fl_fin : bool;
  fl_syn : bool;
  fl_rst : bool;
  fl_psh : bool;
  fl_ack : bool;
  fl_urg : bool;
  fl_ece : bool;
  fl_cwr : bool
}.

(** [TcpFlags::bits]. *)
Definition flag_bits (f : TcpFlags) : Z :=
  foldr Z.lor 0
    [Z.b2z (fl_fin f); Z.shiftl (Z.b2z (fl_syn f)) 1; Z.shiftl (Z.b2z (fl_rst f)) 2; Z.shiftl (Z.b2z (fl_psh f)) 3;
     Z.shiftl (Z.b2z (fl_ack f)) 4; Z.shiftl (Z.b2z (fl_urg f)) 5; Z.shiftl (Z.b2z (fl_ece f)) 6;
     Z.shiftl (Z.b2z (fl_cwr f)) 7].

(** [TcpFlags::to_short_string]. *)
Definition to_short_string (f : TcpFlags) : text :=
  omap (fun p : bool * Z => if p.1 then Some p.2 else None)
    (zip [fl_fin f; fl_syn f; fl_rst f; fl_psh f; fl_ack f; fl_urg f; fl_ece f; fl_cwr f]
       (of_string "FSRPAUEC")).

Record TcpInfo := mkTcpInfo {
  tcp_source_port : Z;
  tcp_destination_port : Z;
  tcp_sequence_number : Z;
  tcp_acknowledgment_number : Z;
  tcp_window_size : Z;
  tcp_flags : TcpFlags;
  tcp_header_len : Z
}.

Record UdpInfo := mkUdpInfo {
  udp_source_port : Z;
  udp_destination_port : Z;
  udp_length : Z
}.

Record IcmpInfo := mkIcmpInfo {
  icmp_type : Z;
  icmp_code : Z;
  icmp_is_v6 : bool
}.

Inductive Transport :=
| TTcp (t : TcpInfo)
| TUdp (u : UdpInfo)
| TIcmp (i : IcmpInfo)
| TOther (protocol : Z).

Definition transport_source_port (t : Transport) : option Z :=
  match t with TTcp t => Some (tcp_source_port t) | TUdp u => Some (udp_source_port u) | _ => None end.
Definition transport_destination_port (t : Transport) : option Z :=
  match t with TTcp t => Some (tcp_destination_port t) | TUdp u => Some (udp_destination_port u) | _ => None end.
Definition transport_protocol (t : Transport) : Protocol :=
  match t with TTcp _ => Tcp | TUdp _ => Udp | TIcmp _ => Icmp | TOther _ => Ip end.

(** ** The header readers of [etherparse]

    Each takes a slice and gives the header with the number of bytes it used, the rest of the slice
    being the remainder it returns; it fails on a slice that is too short. *)

Class Etherparse := {
  Ipv4Header : Type;
  ih_source : Ipv4Header -> Z;
  ih_destination : Ipv4Header -> Z;
  ih_protocol : Ipv4Header -> Z;
  ih_time_to_live : Ipv4Header -> Z;
  ih_identification : Ipv4Header -> Z;
  ih_fragment_offset : Ipv4Header -> Z;
  ih_more_fragments : Ipv4Header -> bool;
  ih_total_len : Ipv4Header -> Z;
  ih_header_checksum : Ipv4Header -> Z;
  calc_header_checksum : Ipv4Header -> Z;
  (* the ether type *)
  ethernet2_from_slice : list Z -> option (Z * Z);
  (* the VLAN identifier and the ether type *)
  vlan_from_slice : list Z -> option (Z * Z * Z);
  ipv4_from_slice : list Z -> option (Ipv4Header * Z);
  (* source, destination, next header, hop limit, payload length *)
  ipv6_from_slice : list Z -> option (Z * Z * Z * Z * Z * Z);
  (* source and destination port, sequence and acknowledgement number, window, flags *)
  tcp_from_slice : list Z -> option (Z * Z * Z * Z * Z * TcpFlags);
  (* source and destination port, length *)
  udp_from_slice : list Z -> option (Z * Z * Z);
  (* an Ethernet header has 14 bytes, a VLAN tag 4, an IPv6 header 40, and an IPv4 header as many
     words of 4 as the low half of its first byte says *)
  ethernet2_used : forall s ty n, ethernet2_from_slice s = Some (ty, n) -> n = 14 /\ 14 <= len s;
  vlan_used : forall s id ty n, vlan_from_slice s = Some (id, ty, n) -> n = 4 /\ 4 <= len s;
  ipv4_used : forall s h n b, ipv4_from_slice s = Some (h, n) -> s !! 0%nat = Some b ->
    n = Z.land b 15 * 4 /\ n <= len s;
  ipv6_used : forall s src dst next hops plen n, ipv6_from_slice s = Some (src, dst, next, hops, plen, n) ->
    n = 40 /\ 40 <= len s;
  (* the lengths and the fragment offset are in the ranges of their fields *)
  ipv4_lengths : forall h, in_u16 (ih_total_len h) /\ 0 <= ih_fragment_offset h < 8192;
  ipv6_length : forall s src dst next hops plen n,
    ipv6_from_slice s = Some (src, dst, next, hops, plen, n) -> in_u16 plen;
  udp_length_range : forall s sp dp n, udp_from_slice s = Some (sp, dp, n) -> in_u16 n;
  tcp_sequence_range : forall s sp dp seq ack win flags,
    tcp_from_slice s = Some (sp, dp, seq, ack, win, flags) -> in_u32 seq /\ in_u32 ack
}.

(** [EtherType] and [IpNumber] constants. *)
Definition ETHER_IPV4 : Z := 0x0800.
Definition ETHER_IPV6 : Z := 0x86dd.
Definition VLAN_TAGGED_FRAME : Z := 0x8100.
Definition PROVIDER_BRIDGING : Z := 0x88a8.
Definition VLAN_DOUBLE_TAGGED_FRAME : Z := 0x9100.
Definition IPV6_HEADER_HOP_BY_HOP : Z := 0.
Definition IPV6_ROUTE_HEADER : Z := 43.
Definition IPV6_FRAGMENTATION_HEADER : Z := 44.
Definition AUTHENTICATION_HEADER : Z := 51.
Definition IPV6_DESTINATION_OPTIONS : Z := 60.
Definition MOBILITY_HEADER : Z := 135.
Definition IP_ICMP : Z := 1.
Definition IP_TCP : Z := 6.
Definition IP_UDP : Z := 17.
Definition IP_IPV6_ICMP : Z := 58.

(** ** The decoded frame *)

Definition MAX_VLAN_TAGS : nat := 2.
Definition MAX_IPV6_EXTENSION_HEADERS : nat := 8.
Definition ICMP_HEADER_LEN : Z := 8.

Record Decoded := mkDecoded {
  d_frame : list Z;
  d_original_len : Z;
  d_ether_type : option Z;
  d_vlan_ids : list (option Z);
  d_network : option Network;
  d_transport : option Transport;
  d_payload : Z * Z;
  d_network_payload : Z * Z;
  d_anomalies : AnomalySet
}.

Definition decoded_new (frame : list Z) (original_len : Z) : Decoded :=
  mkDecoded frame original_len None (replicate MAX_VLAN_TAGS None) None None (0, 0) (0, 0) anomalies_default.

Definition is_snapped (d : Decoded) : bool := len (d_frame d) <? d_original_len d.

(** [self.frame.get(range).unwrap_or(&[])]. *)
Definition bytes_of (frame : list Z) (range : Z * Z) : list Z := unwrap_or [] (slice frame range.1 range.2).

Definition payload_bytes (d : Decoded) : list Z := bytes_of (d_frame d) (d_payload d).
Definition network_payload_bytes (d : Decoded) : list Z := bytes_of (d_frame d) (d_network_payload d).

(** [Range::len]. *)
Definition payload_len (d : Decoded) : Z := sat_sub (d_payload d).2 (d_payload d).1.

Definition five_tuple (d : Decoded) : option NetTuple :=
  network ← d_network d;
  let '(src_port, dest_port, p) :=
    match d_transport d with
    | Some t => (transport_source_port t, transport_destination_port t, transport_protocol t)
    | None => (None, None, Ip)
    end in
  Some (mkNetTuple (net_source network) src_port (net_destination network) dest_port p).

Definition note (d : Decoded) (layer : Layer) (kind : AnomalyKind) : Decoded :=
  let '(mkDecoded frame original ether vlans network transport payload network_payload anomalies) := d in
  mkDecoded frame original ether vlans network transport payload network_payload
    (anomalies_push anomalies (mkAnomaly layer kind)).

Definition set_vlan_ids (d : Decoded) (vlans : list (option Z)) : Decoded :=
  let '(mkDecoded frame original ether _ network transport payload network_payload anomalies) := d in
  mkDecoded frame original ether vlans network transport payload network_payload anomalies.

Definition set_ether_type (d : Decoded) (ether : Z) : Decoded :=
  let '(mkDecoded frame original _ vlans network transport payload network_payload anomalies) := d in
  mkDecoded frame original (Some ether) vlans network transport payload network_payload anomalies.

Definition set_network (d : Decoded) (network : Network) (network_payload : Z * Z) : Decoded :=
  let '(mkDecoded frame original ether vlans _ transport payload _ anomalies) := d in
  mkDecoded frame original ether vlans (Some network) transport payload network_payload anomalies.

Definition set_payload (d : Decoded) (payload : Z * Z) : Decoded :=
  let '(mkDecoded frame original ether vlans network transport _ network_payload anomalies) := d in
  mkDecoded frame original ether vlans network transport payload network_payload anomalies.

Definition set_transport (d : Decoded) (t : Transport) : Decoded :=
  let '(mkDecoded frame original ether vlans network _ payload network_payload anomalies) := d in
  mkDecoded frame original ether vlans network (Some t) payload network_payload anomalies.

(** ** Counters *)

Record DecodeCounters := mkDecodeCounters {
  dc_packets : Z;
  dc_ipv4 : Z;
  dc_ipv6 : Z;
  dc_tcp : Z;
  dc_udp : Z;
  dc_icmp : Z;
  dc_other_transport : Z;
  dc_non_ip : Z;
  dc_fragments : Z;
  dc_snapped : Z;
  dc_anomalous : Z;
  dc_anomalies : Z
}.

Definition counters_default : DecodeCounters := mkDecodeCounters 0 0 0 0 0 0 0 0 0 0 0 0.

(** [DecodeCounters::record]. *)
Definition record (c : DecodeCounters) (d : Decoded) : DecodeCounters :=
  let on (b : bool) (n : Z) := if b then n + 1 else n in
  let anomalous := negb (anomalies_is_empty (d_anomalies d)) in
  mkDecodeCounters (dc_packets c + 1)
    (on match d_network d with Some (Ipv4 _) => true | _ => false end (dc_ipv4 c))
    (on match d_network d with Some (Ipv6 _) => true | _ => false end (dc_ipv6 c))
    (on match d_transport d with Some (TTcp _) => true | _ => false end (dc_tcp c))
    (on match d_transport d with Some (TUdp _) => true | _ => false end (dc_udp c))
    (on match d_transport d with Some (TIcmp _) => true | _ => false end (dc_icmp c))
    (on match d_transport d with Some (TOther _) => true | _ => false end (dc_other_transport c))
    (on match d_network d with None => true | _ => false end (dc_non_ip c))
    (on match d_network d with Some n => net_is_fragment n | None => false end (dc_fragments c))
    (on (is_snapped d) (dc_snapped c))
    (on anomalous (dc_anomalous c))
    (if anomalous then dc_anomalies c + anomalies_len (d_anomalies d) else dc_anomalies c).

(** ** Decoding *)

(** [clamp_range]. *)
Definition clamp_range (start end_ frame_len : Z) : Z * Z :=
  let start := Z.min start frame_len in
  (start, Z.max (Z.min end_ frame_len) start).

Definition is_vlan (ether_type : Z) : bool :=
  (ether_type =? VLAN_TAGGED_FRAME) || (ether_type =? PROVIDER_BRIDGING) || (ether_type =? VLAN_DOUBLE_TAGGED_FRAME).

Definition is_ipv6_extension (protocol : Z) : bool :=
  (protocol =? IPV6_HEADER_HOP_BY_HOP) || (protocol =? IPV6_ROUTE_HEADER) || (protocol =? IPV6_FRAGMENTATION_HEADER) ||
  (protocol =? IPV6_DESTINATION_OPTIONS) || (protocol =? AUTHENTICATION_HEADER) || (protocol =? MOBILITY_HEADER).

(** The outer option is the panic of an index, the inner one the result. *)
Definition ipv6_extension_len (protocol : Z) (s : list Z) : option (option Z) :=
  if len s <? 2 then Some None
  else
    n ← (if protocol =? IPV6_FRAGMENTATION_HEADER then Some 8
         else if protocol =? AUTHENTICATION_HEADER then b ← s !! 1%nat; Some ((b + 2) * 4)
         else b ← s !! 1%nat; Some ((b + 1) * 8));
    Some (if n <=? len s then Some n else None).

Section decode.
Context {EP : Etherparse}.

Definition decode_tcp (d : Decoded) (s : list Z) (start end_ : Z) : option Decoded :=
  if len s <? 20 then Some (note d LTcp TruncatedHeader)
  else
    b ← s !! 12%nat;
    let data_offset := Z.shiftr b 4 in
    if data_offset <? 5 then Some (note d LTcp ImpossibleLength)
    else
      let header_len := data_offset * 4 in
      if len s <? header_len then Some (note d LTcp TruncatedHeader)
      else Some match tcp_from_slice s with
      | None => note d LTcp TruncatedHeader
      | Some (source_port, destination_port, sequence, acknowledgment, window, flags) =>
          set_payload
            (set_transport d (TTcp (mkTcpInfo source_port destination_port sequence acknowledgment window flags header_len)))
            (clamp_range (start + header_len) end_ (len (d_frame d)))
      end.

Definition UDP_HEADER_LEN : Z := 8.

Definition decode_udp (d : Decoded) (s : list Z) (start end_ : Z) : Decoded :=
  if len s <? UDP_HEADER_LEN then note d LUdp TruncatedHeader
  else match udp_from_slice s with
  | None => note d LUdp TruncatedHeader
  | Some (source_port, destination_port, claimed) =>
      let d :=
        if claimed <? UDP_HEADER_LEN then note d LUdp ImpossibleLength
        else if (len s <? claimed) && negb (is_snapped d) then note d LUdp LengthMismatch
        else d in
      let udp_end := sat_add start (Z.max claimed UDP_HEADER_LEN) in
      set_payload (set_transport d (TUdp (mkUdpInfo source_port destination_port claimed)))
        (clamp_range (start + UDP_HEADER_LEN) (Z.min udp_end end_) (len (d_frame d)))
  end.

Definition decode_icmp (d : Decoded) (s : list Z) (start end_ : Z) (is_v6 : bool) : option Decoded :=
  if len s <? ICMP_HEADER_LEN then
    let d := note d LIcmp TruncatedHeader in
    if 2 <=? len s then
      ty ← s !! 0%nat; code ← s !! 1%nat;
      Some (set_transport d (TIcmp (mkIcmpInfo ty code is_v6)))
    else Some d
  else
    ty ← s !! 0%nat; code ← s !! 1%nat;
    Some (set_payload (set_transport d (TIcmp (mkIcmpInfo ty code is_v6)))
            (clamp_range (start + ICMP_HEADER_LEN) end_ (len (d_frame d)))).

Definition decode_transport (d : Decoded) (protocol start end_ : Z) : option Decoded :=
  let frame_len := len (d_frame d) in
  let available := bytes_of (d_frame d) (start, Z.min end_ frame_len) in
  if protocol =? IP_TCP then decode_tcp d available start end_
  else if protocol =? IP_UDP then Some (decode_udp d available start end_)
  else if (protocol =? IP_ICMP) || (protocol =? IP_IPV6_ICMP)
  then decode_icmp d available start end_ (protocol =? IP_IPV6_ICMP)
  else Some (set_payload (set_transport d (TOther protocol)) (clamp_range start end_ frame_len)).

Definition decode_transport_bytes (bytes : list Z) (protocol : Z) : option Decoded :=
  decode_transport (decoded_new bytes (len bytes)) protocol 0 (len bytes).

(** [slice] is the frame from [start] on. *)
Definition decode_ipv4 (d : Decoded) (start : Z) : option Decoded :=
  let s := drop (Z.to_nat start) (d_frame d) in
  match s !! 0%nat with
  | None => Some (note d LIpv4 TruncatedHeader)
  | Some first =>
      if negb (Z.shiftr first 4 =? 4) then Some (note d LIpv4 UnknownIpVersion)
      else
        let ihl := Z.land first 15 in
        if ihl <? 5 then Some (note d LIpv4 ImpossibleLength)
        else
          let header_len := ihl * 4 in
          if len s <? header_len then Some (note d LIpv4 TruncatedHeader)
          else match ipv4_from_slice s with
          | None => Some (note d LIpv4 TruncatedHeader)
          | Some (header, used) =>
              let d := if ih_header_checksum header =? calc_header_checksum header then d
                       else note d LIpv4 BadIpv4Checksum in
              let total_len := ih_total_len header in
              let d :=
                if total_len <? header_len then note d LIpv4 ImpossibleLength
                else if (len s <? total_len) && negb (is_snapped d) then note d LIpv4 LengthMismatch
                else d in
              let info :=
                mkIpv4Info (ih_source header) (ih_destination header) (ih_protocol header) (ih_time_to_live header)
                  (ih_identification header) (ih_fragment_offset header) (ih_more_fragments header) header_len
                  total_len in
              let claimed_end := sat_add start (Z.max total_len header_len) in
              let end_ := Z.min claimed_end (len (d_frame d)) in
              let transport_start := start + used in
              let range := clamp_range transport_start end_ (len (d_frame d)) in
              let d := set_network d (Ipv4 info) range in
              if ipv4_is_fragment info && negb (ih_fragment_offset header =? 0) then Some (set_payload d range)
              else decode_transport d (ih_protocol header) transport_start end_
          end
  end.

(** What the walk of the extension headers finds. *)
Record Walk := mkWalk {
  w_decoded : Decoded;
  w_protocol : Z;
  w_cursor : Z;
  w_is_fragment : bool;
  w_fragment_offset : Z;
  w_more_fragments : bool;
  w_identification : Z
}.

(** The fields of a fragment header at the front of [s]. *)
Definition fragment_fields (w : Walk) (s : list Z) : Walk :=
  let '(offset, more) :=
    match s !! 2%nat, s !! 3%nat with
    | Some hi, Some lo => (Z.shiftr (Z.lor (Z.shiftl hi 8) lo) 3, negb (Z.land lo 1 =? 0))
    | _, _ => (w_fragment_offset w, w_more_fragments w)
    end in
  let identification :=
    match slice s 4 8 with
    | Some [a; b; c; e] => ((a * 256 + b) * 256 + c) * 256 + e
    | _ => w_identification w
    end in
  mkWalk (w_decoded w) (w_protocol w) (w_cursor w) true offset more identification.

(** The [while] loop, with [budget] headers to go before the limit. *)
Fixpoint walk_extensions (budget : nat) (w : Walk) : option Walk :=
  if negb (is_ipv6_extension (w_protocol w)) then Some w
  else
    let stop kind :=
      Some (mkWalk (note (w_decoded w) LIpv6 kind) (w_protocol w) (w_cursor w) (w_is_fragment w)
              (w_fragment_offset w) (w_more_fragments w) (w_identification w)) in
    match budget with
    | O => stop TooManyLayers
    | S budget =>
        let s := drop (Z.to_nat (w_cursor w)) (d_frame (w_decoded w)) in
        ext ← ipv6_extension_len (w_protocol w) s;
        match ext with
        | None => stop TruncatedHeader
        | Some ext_len =>
            let w := if w_protocol w =? IPV6_FRAGMENTATION_HEADER then fragment_fields w s else w in
            protocol ← s !! 0%nat;
            walk_extensions budget
              (mkWalk (w_decoded w) protocol (w_cursor w + ext_len) (w_is_fragment w) (w_fragment_offset w)
                 (w_more_fragments w) (w_identification w))
        end
    end.

Definition decode_ipv6 (d : Decoded) (start : Z) : option Decoded :=
  let s := drop (Z.to_nat start) (d_frame d) in
  match s !! 0%nat with
  | None => Some (note d LIpv6 TruncatedHeader)
  | Some first =>
      if negb (Z.shiftr first 4 =? 6) then Some (note d LIpv6 UnknownIpVersion)
      else match ipv6_from_slice s with
      | None => Some (note d LIpv6 TruncatedHeader)
      | Some (source, destination, next_header, hop_limit, payload_length, used) =>
          let after := len s - used in
          let d := if (after <? payload_length) && negb (is_snapped d) then note d LIpv6 LengthMismatch else d in
          w ← walk_extensions MAX_IPV6_EXTENSION_HEADERS (mkWalk d next_header (start + used) false 0 false 0);
          let d := w_decoded w in
          let info :=
            mkIpv6Info source destination (w_protocol w) hop_limit payload_length (sat_sub (w_cursor w) start)
              (w_is_fragment w) (w_fragment_offset w) (w_more_fragments w) (w_identification w) in
          let claimed_end := sat_add (sat_add start 40) payload_length in
          let end_ := Z.min claimed_end (len (d_frame d)) in
          let range := clamp_range (w_cursor w) end_ (len (d_frame d)) in
          let d := set_network d (Ipv6 info) range in
          if w_is_fragment w && negb (w_fragment_offset w =? 0) then Some (set_payload d range)
          else decode_transport d (w_protocol w) (w_cursor w) end_
      end
  end.

(** The loop over the VLAN tags: [tags] were read; [None] inside is the early return. *)
Fixpoint read_vlans (budget tags : nat) (d : Decoded) (ether_type rest : Z) : option (Decoded * option (Z * Z)) :=
  if negb (is_vlan ether_type) then Some (d, Some (ether_type, rest))
  else match budget with
  | O => Some (note d LVlan TooManyLayers, None)
  | S budget =>
      match vlan_from_slice (drop (Z.to_nat rest) (d_frame d)) with
      | None => Some (note d LVlan TruncatedHeader, None)
      | Some (vlan_id, ether_type, used) =>
          _ ← d_vlan_ids d !! tags;
          read_vlans budget (S tags) (set_vlan_ids d (<[tags := Some vlan_id]> (d_vlan_ids d))) ether_type (rest + used)
      end
  end.

Definition decode (frame : list Z) (original_len : Z) : option Decoded :=
  let d := decoded_new frame original_len in
  if bool_decide (frame = []) then Some (note d LEthernet EmptyFrame)
  else match ethernet2_from_slice frame with
  | None => Some (note d LEthernet TruncatedHeader)
  | Some (ether_type, used) =>
      '(d, next) ← read_vlans MAX_VLAN_TAGS 0 d ether_type used;
      match next with
      | None => Some d
      | Some (ether_type, rest) =>
          let d := set_ether_type d ether_type in
          if ether_type =? ETHER_IPV4 then decode_ipv4 d rest
          else if ether_type =? ETHER_IPV6 then decode_ipv6 d rest
          else Some d
      end
  end.
End decode.

(** ** Decoding never fails, and its ranges are in the frame *)

Definition range_in (n : Z) (r : Z * Z) : Prop := 0 <= r.1 <= r.2 /\ r.2 <= n.

Definition net_fragment_offset (n : Network) : Z :=
  match n with Ipv4 i => v4_fragment_offset i | Ipv6 i => v6_fragment_offset i end.

(** A packet that carries a later part of a datagram. *)
Definition later_fragment (d : Decoded) : Prop := exists n, d_network d = Some n /\ net_fragment_offset n <> 0.

(** What holds of the anomalies and the tags at every step. *)
Record base_wf (d : Decoded) : Prop := {
  bw_cap : len (as_found (d_anomalies d)) <= CAP;
  bw_nodup : NoDup (as_found (d_anomalies d));
  bw_vlans : length (d_vlan_ids d) = MAX_VLAN_TAGS;
  bw_snapped : is_snapped d = true -> forall layer, mkAnomaly layer LengthMismatch ∉ as_found (d_anomalies d)
}.

Definition tcp_in_range (t : TcpInfo) : Prop :=
  in_u32 (tcp_sequence_number t) /\ in_u32 (tcp_acknowledgment_number t).

Record decoded_wf (d : Decoded) : Prop := {
  dw_base : base_wf d;
  dw_payload : range_in (len (d_frame d)) (d_payload d);
  dw_network_payload : range_in (len (d_frame d)) (d_network_payload d);
  dw_inside : d_payload d = (0, 0) \/
    (d_network_payload d).1 <= (d_payload d).1 /\ (d_payload d).2 <= (d_network_payload d).2;
  dw_fragment : later_fragment d -> d_transport d = None /\ d_payload d = d_network_payload d;
  dw_tcp : forall t, d_transport d = Some (TTcp t) -> tcp_in_range t;
  dw_offset : forall n, d_network d = Some n -> 0 <= net_fragment_offset n < 8192
}.

(** Decoding does not change the frame. *)
Definition same_frame (d d' : Decoded) : Prop := d_frame d' = d_frame d /\ d_original_len d' = d_original_len d.

Lemma same_frame_trans d1 d2 d3 : same_frame d1 d2 -> same_frame d2 d3 -> same_frame d1 d3.
Proof. intros [H1 H2] [H3 H4]. split; congruence. Qed.

(** A frame of which no layer above the link was read. *)
Definition fresh (d : Decoded) : Prop :=
  base_wf d /\ d_network d = None /\ d_transport d = None /\ d_payload d = (0, 0) /\ d_network_payload d = (0, 0).

Lemma anomalies_push_wf s a :
  len (as_found s) <= CAP -> NoDup (as_found s) ->
  len (as_found (anomalies_push s a)) <= CAP /\ NoDup (as_found (anomalies_push s a)) /\
  forall x, x ∈ as_found (anomalies_push s a) -> x ∈ as_found s \/ x = a.
Proof.
  intros Hc Hn. unfold anomalies_push. case_decide as Ha; [auto|].
  destruct (Z.leb_spec CAP (len (as_found s))); cbn; [auto|]. rewrite length_app. cbn.
  split; [lia|]. split.
  - apply NoDup_app. split; [done|]. split; [|apply NoDup_singleton]. by intros x Hx ->%list_elem_of_singleton.
  - intros x [?| ->%list_elem_of_singleton]%elem_of_app; auto.
Qed.

Lemma note_base d layer kind :
  base_wf d -> (kind = LengthMismatch -> is_snapped d = false) -> base_wf (note d layer kind).
Proof.
  destruct d. intros [Hc Hn Hv Hs] Hk. cbn in *.
  destruct (anomalies_push_wf d_anomalies0 (mkAnomaly layer kind) Hc Hn) as (H1 & H2 & H3).
  constructor; cbn; try done. intros Hsn l Hin. apply H3 in Hin as [Hin|[= -> <-]]; [by eapply Hs|].
  unfold is_snapped in *. cbn in *. rewrite Hk in Hsn by done. done.
Qed.

Lemma note_same d layer kind : same_frame d (note d layer kind).
Proof. by destruct d. Qed.

Lemma fresh_note d layer kind : fresh d -> kind <> LengthMismatch -> fresh (note d layer kind).
Proof.
  intros (Hb & ? & ? & ? & ?) Hk. split; [by apply note_base|]. by destruct d.
Qed.

Lemma fresh_wf d : fresh d -> decoded_wf d.
Proof.
  intros (Hb & Hn & Ht & Hp & Hnp). constructor; [done|..]; rewrite ?Hp, ?Hnp.
  - split; cbn; lia.
  - split; cbn; lia.
  - auto.
  - intros (n & E & _). by rewrite Hn in E.
  - intros t E. by rewrite Ht in E.
  - intros n E. by rewrite Hn in E.
Qed.

Lemma base_wf_ext d d' :
  d_frame d' = d_frame d -> d_original_len d' = d_original_len d -> d_anomalies d' = d_anomalies d ->
  d_vlan_ids d' = d_vlan_ids d -> base_wf d -> base_wf d'.
Proof. intros Hf Ho Ha Hv []. unfold is_snapped in *. constructor; unfold is_snapped; by rewrite ?Hf, ?Ho, ?Ha, ?Hv. Qed.

(** The link and network layers are read: what the transport decoders start from. *)
Record ready (d : Decoded) (start end_ : Z) : Prop := {
  rd_base : base_wf d;
  rd_transport : d_transport d = None;
  rd_payload : d_payload d = (0, 0);
  rd_network_payload : d_network_payload d = clamp_range start end_ (len (d_frame d));
  rd_bounds : 0 <= start <= len (d_frame d) /\ end_ <= len (d_frame d);
  rd_first : ~ later_fragment d
}.

Lemma clamp_range_in start end_ n : 0 <= start -> 0 <= n -> range_in n (clamp_range start end_ n).
Proof. intros. unfold range_in, clamp_range. cbn. lia. Qed.

Lemma bytes_of_length frame a b :
  0 <= a -> len (bytes_of frame (a, b)) = if (a <=? b) && (b <=? len frame) then b - a else 0.
Proof.
  intros Ha. unfold bytes_of, slice. cbn. rewrite (proj2 (Z.leb_le 0 a)) by done. cbn [andb].
  destruct ((a <=? b) && (b <=? len frame)) eqn:E; [|done]. bsimpl. cbn. rewrite length_take, length_drop. lia.
Qed.

(** A transport decoder that stops early. *)
Lemma ready_note d start end_ layer kind :
  ready d start end_ -> (kind = LengthMismatch -> is_snapped d = false) -> ready (note d layer kind) start end_.
Proof.
  intros [] Hk. assert (base_wf (note d layer kind)) by (by apply note_base). by destruct d; constructor.
Qed.

Lemma first_fragment_offset d :
  ~ later_fragment d -> forall n, d_network d = Some n -> 0 <= net_fragment_offset n < 8192.
Proof.
  intros Hl n E. destruct (decide (net_fragment_offset n = 0)) as [->|]; [lia|]. destruct Hl. by exists n.
Qed.

Lemma ready_wf d start end_ : ready d start end_ -> decoded_wf d.
Proof.
  intros [Hb Ht Hp Hn Hr Hl]. constructor; [done|..]; rewrite ?Hp.
  - split; cbn; lia.
  - rewrite Hn. apply clamp_range_in; lia.
  - auto.
  - done.
  - intros t E. by rewrite Ht in E.
  - by apply first_fragment_offset.
Qed.

(** A transport decoder that finds its header. *)
Lemma ready_transport d start end_ t payload :
  ready d start end_ -> range_in (len (d_frame d)) payload ->
  (clamp_range start end_ (len (d_frame d))).1 <= payload.1 /\ payload.2 <= (clamp_range start end_ (len (d_frame d))).2 ->
  (forall x, t = TTcp x -> tcp_in_range x) ->
  decoded_wf (set_payload (set_transport d t) payload) /\ same_frame d (set_payload (set_transport d t) payload).
Proof.
  intros [Hb Ht Hp Hn Hr Hl] Hin Hsub Hx. pose proof (first_fragment_offset d Hl) as Ho.
  destruct d. cbn in *. split; [|done]. constructor; cbn; try done.
  - by eapply base_wf_ext; [..|exact Hb].
  - rewrite Hn. apply clamp_range_in; lia.
  - right. by rewrite Hn.
  - intros x [= ->]. by apply Hx.
Qed.

Section decode_facts.
Context {EP : Etherparse}.

Notation steps_to d d' := (decoded_wf d' /\ same_frame d d').

Lemma decode_tcp_wf d start end_ s :
  ready d start end_ -> s = bytes_of (d_frame d) (start, end_) ->
  exists d', decode_tcp d s start end_ = Some d' /\ steps_to d d'.
Proof.
  intros Hr Hs. pose proof (rd_bounds _ _ _ Hr) as [Hb1 Hb2]. pose proof (bytes_of_length (d_frame d) start end_ ltac:(lia)) as Hlen.
  rewrite <- Hs in Hlen. unfold decode_tcp.
  assert (Hstop : forall kind, kind <> LengthMismatch -> exists d', Some (note d LTcp kind) = Some d' /\ steps_to d d').
  { intros kind Hk. eexists. split; [done|]. split; [|apply note_same]. eapply ready_wf, ready_note; done. }
  destruct (Z.ltb_spec (len s) 20) as [|H20]; [by apply Hstop|].
  destruct (lookup_lt_is_Some_2 s 12) as [b Eb]; [lia|]. rewrite Eb. cbn [mbind option_bind].
  destruct (Z.ltb_spec (Z.shiftr b 4) 5); [by apply Hstop|].
  destruct (Z.ltb_spec (len s) (Z.shiftr b 4 * 4)); [by apply Hstop|].
  destruct (tcp_from_slice s) as [[[[[[sp dp] sq] ack] win] flags]|] eqn:Et; [|by apply Hstop].
  apply tcp_sequence_range in Et.
  eexists. split; [done|]. destruct ((start <=? end_) && (end_ <=? len (d_frame d))) eqn:E; [|lia]. bsimpl.
  apply (ready_transport d start end_); [done|apply clamp_range_in; lia|unfold clamp_range; cbn; lia|].
  by intros x [= <-].
Qed.

Lemma decode_udp_wf d start end_ s :
  ready d start end_ -> s = bytes_of (d_frame d) (start, end_) -> steps_to d (decode_udp d s start end_).
Proof.
  intros Hr Hs. pose proof (rd_bounds _ _ _ Hr) as [Hb1 Hb2]. pose proof (bytes_of_length (d_frame d) start end_ ltac:(lia)) as Hlen.
  rewrite <- Hs in Hlen. unfold decode_udp, UDP_HEADER_LEN.
  assert (Hstop : steps_to d (note d LUdp TruncatedHeader)).
  { split; [|apply note_same]. eapply ready_wf, ready_note; done. }
  destruct (Z.ltb_spec (len s) 8) as [|H8]; [done|]. destruct (udp_from_slice s) as [[[sp dp] claimed]|] eqn:Eu; [|done].
  set (d1 := if claimed <? 8 then _ else _).
  assert (ready d1 start end_ /\ same_frame d d1) as [Hr1 Hsf].
  { unfold d1. destruct (claimed <? 8); [split; [by apply ready_note|apply note_same]|].
    destruct ((len s <? claimed) && negb (is_snapped d)) eqn:E; [|done].
    bsimpl. split; [by apply ready_note|apply note_same]. }
  destruct ((start <=? end_) && (end_ <=? len (d_frame d))) eqn:E; [|lia]. bsimpl.
  replace (len (d_frame d)) with (len (d_frame d1)) by (by destruct Hsf as [-> _]).
  apply udp_length_range in Eu. unfold in_u16, U16_MAX in Eu.
  destruct (ready_transport d1 start end_ (TUdp (mkUdpInfo sp dp claimed))
    (clamp_range (start + 8) (Z.min (sat_add start (Z.max claimed 8)) end_) (len (d_frame d1)))) as [Hw [Hf1 Ho1]];
    [done|destruct Hsf as [-> _]; apply clamp_range_in; lia| |done|].
  - destruct Hsf as [-> _]. unfold clamp_range, sat_add. cbn. lia.
  - split; [done|]. destruct Hsf as [Hf Ho]. split; [by rewrite Hf1|by rewrite Ho1].
Qed.

Lemma decode_icmp_wf d start end_ s is_v6 :
  ready d start end_ -> s = bytes_of (d_frame d) (start, end_) ->
  exists d', decode_icmp d s start end_ is_v6 = Some d' /\ steps_to d d'.
Proof.
  intros Hr Hs. pose proof (rd_bounds _ _ _ Hr) as [Hb1 Hb2]. pose proof (bytes_of_length (d_frame d) start end_ ltac:(lia)) as Hlen.
  rewrite <- Hs in Hlen. unfold decode_icmp, ICMP_HEADER_LEN.
  assert (ready (note d LIcmp TruncatedHeader) start end_) as Hn by (by apply ready_note).
  destruct (Z.ltb_spec (len s) 8) as [|H8]; [destruct (Z.leb_spec 2 (len s)) as [H2|H2]|].
  - destruct (lookup_lt_is_Some_2 s 0) as [a ->]; [lia|]. destruct (lookup_lt_is_Some_2 s 1) as [b ->]; [lia|].
    cbn [mbind option_bind]. eexists. split; [done|]. destruct Hn as [Hb Ht Hp Hnp Hrg Hl].
    pose proof (first_fragment_offset _ Hl) as Ho. destruct d. cbn in *. split; [|done]. constructor; cbn; try done.
    + by eapply base_wf_ext; [..|exact Hb].
    + rewrite Hp. split; cbn; lia.
    + rewrite Hnp. apply clamp_range_in; lia.
    + auto.
  - eexists. split; [done|]. split; [by eapply ready_wf|apply note_same].
  - destruct (lookup_lt_is_Some_2 s 0) as [a ->]; [lia|]. destruct (lookup_lt_is_Some_2 s 1) as [b ->]; [lia|].
    cbn [mbind option_bind]. eexists. split; [done|]. destruct ((start <=? end_) && (end_ <=? len (d_frame d))) eqn:E; [|lia].
    bsimpl. apply (ready_transport d start end_); [done|apply clamp_range_in; lia| |done]. unfold clamp_range. cbn. lia.
Qed.

Lemma decode_transport_wf d protocol start end_ :
  ready d start end_ -> exists d', decode_transport d protocol start end_ = Some d' /\ steps_to d d'.
Proof.
  intros Hr. pose proof (rd_bounds _ _ _ Hr) as [Hb1 Hb2]. unfold decode_transport.
  replace (Z.min end_ (len (d_frame d))) with end_ by lia.
  destruct (protocol =? IP_TCP); [by apply decode_tcp_wf|].
  destruct (protocol =? IP_UDP); [eexists; split; [done|]; by apply decode_udp_wf|].
  destruct ((protocol =? IP_ICMP) || (protocol =? IP_IPV6_ICMP)); [by apply decode_icmp_wf|].
  eexists. split; [done|]. apply (ready_transport d start end_); [done|apply clamp_range_in; lia|done|done].
Qed.

Lemma set_network_ready d n start end_ :
  fresh d -> 0 <= start <= len (d_frame d) -> end_ <= len (d_frame d) -> net_fragment_offset n = 0 ->
  ready (set_network d n (clamp_range start end_ (len (d_frame d)))) start end_.
Proof.
  intros (Hb & Hn & Ht & Hp & Hnp) Hs He Hf. destruct d. cbn in *. constructor; cbn; try done.
  - by eapply base_wf_ext; [..|exact Hb].
  - intros (m & [= <-] & Hm). done.
Qed.

Lemma later_fragment_wf d n start end_ :
  fresh d -> 0 <= start <= len (d_frame d) -> 0 <= net_fragment_offset n < 8192 ->
  let range := clamp_range start end_ (len (d_frame d)) in
  steps_to d (set_payload (set_network d n range) range).
Proof.
  intros (Hb & Hn & Ht & Hp & Hnp) Hs Ho. destruct d. cbn in *. split; [|done].
  constructor; cbn; try done; try (apply clamp_range_in; lia).
  - by eapply base_wf_ext; [..|exact Hb].
  - right. lia.
  - intros t E. by rewrite Ht in E.
  - by intros m [= <-].
Qed.

(** The last step of both network decoders. *)
Lemma network_step d0 d n start end_ protocol (later : bool) :
  fresh d -> same_frame d0 d -> 0 <= start <= len (d_frame d) -> end_ <= len (d_frame d) ->
  0 <= net_fragment_offset n < 8192 -> (later = false -> net_fragment_offset n = 0) ->
  let range := clamp_range start end_ (len (d_frame d)) in
  exists d', (if later then Some (set_payload (set_network d n range) range)
              else decode_transport (set_network d n range) protocol start end_) = Some d' /\ steps_to d0 d'.
Proof.
  intros Hf Hsame Hs He Ho Hl range. destruct later.
  - eexists. split; [done|]. destruct (later_fragment_wf d n start end_ Hf Hs Ho) as [? ?]. split; [done|].
    by eapply same_frame_trans.
  - pose proof (set_network_ready d n start end_ Hf Hs He (Hl eq_refl)) as Hr.
    destruct (decode_transport_wf _ protocol _ _ Hr) as (d' & E & Hw & Hd). exists d'. split; [done|]. split; [done|].
    eapply same_frame_trans; [exact Hsame|]. eapply same_frame_trans; [|exact Hd]. by destruct d.
Qed.

Lemma decode_ipv4_wf d start :
  fresh d -> 0 <= start <= len (d_frame d) -> exists d', decode_ipv4 d start = Some d' /\ steps_to d d'.
Proof.
  intros Hf Hs. unfold decode_ipv4. set (s := drop (Z.to_nat start) (d_frame d)).
  assert (Hlen : len s = len (d_frame d) - start) by (unfold s; rewrite length_drop; lia).
  assert (Hstop : forall kind, kind <> LengthMismatch -> exists d', Some (note d LIpv4 kind) = Some d' /\ steps_to d d').
  { intros kind Hk. eexists. split; [done|]. split; [|apply note_same]. by apply fresh_wf, fresh_note. }
  destruct (s !! 0%nat) as [first|] eqn:E0; [|by apply Hstop].
  destruct (negb (Z.shiftr first 4 =? 4)); [by apply Hstop|].
  destruct (Z.ltb_spec (Z.land first 15) 5); [by apply Hstop|].
  destruct (Z.ltb_spec (len s) (Z.land first 15 * 4)); [by apply Hstop|].
  destruct (ipv4_from_slice s) as [[h used]|] eqn:Eh; [|by apply Hstop].
  destruct (ipv4_used s h used first Eh E0) as [Hu1 Hu2].
  set (d1 := if ih_header_checksum h =? calc_header_checksum h then d else _).
  assert (fresh d1 /\ same_frame d d1) as [Hf1 Hs1].
  { unfold d1. destruct (_ =? _); [done|]. split; [by apply fresh_note|apply note_same]. }
  clearbody d1. set (d2 := if ih_total_len h <? Z.land first 15 * 4 then _ else _).
  assert (fresh d2 /\ same_frame d d2) as [Hf2 Hs2].
  { unfold d2. destruct (_ <? _); [split; [by apply fresh_note|destruct Hs1; by destruct d1]|].
    destruct ((len s <? ih_total_len h) && negb (is_snapped d1)) eqn:E; [|done]. bsimpl.
    split; [|destruct Hs1; by destruct d1]. destruct Hf1 as (Hb & ? & ? & ? & ?).
    split; [by apply note_base|by destruct d1]. }
  clearbody d2. rewrite <- (proj1 Hs2) in Hs, Hlen. apply network_step; try done; [lia|lia|apply ipv4_lengths|].
  unfold ipv4_is_fragment. cbn. intros Hz. destruct (Z.eqb_spec (ih_fragment_offset h) 0); [done|].
  rewrite orb_true_r in Hz. done.
Qed.

Definition walk_wf (d0 : Decoded) (w : Walk) : Prop :=
  fresh (w_decoded w) /\ same_frame d0 (w_decoded w) /\ 0 <= w_cursor w <= len (d_frame d0) /\
  (w_is_fragment w = false -> w_fragment_offset w = 0) /\ 0 <= w_fragment_offset w < 8192.

Lemma ipv6_extension_len_total protocol s :
  Forall in_u8 s -> exists r, ipv6_extension_len protocol s = Some r /\
    (forall n, r = Some n -> 0 <= n <= len s /\ is_Some (s !! 0%nat)).
Proof.
  intros Hu. unfold ipv6_extension_len. destruct (Z.ltb_spec (len s) 2); [by eexists|].
  destruct s as [|a [|b s]]; cbn [length] in *; [lia|lia|]. inversion Hu as [|? ? _ Hu']; subst.
  inversion Hu' as [|? ? Hb _]; subst. unfold in_u8 in Hb. cbn [lookup list_lookup mbind option_bind].
  set (n := if protocol =? IPV6_FRAGMENTATION_HEADER then Some 8 else _).
  assert (exists m, n = Some m /\ 0 <= m) as (m & -> & Hm).
  { unfold n. repeat case_match; eexists; (split; [done|lia]). }
  cbn [mbind option_bind]. eexists. split; [done|]. intros k Hk. case_match eqn:El; [|done]. bsimpl.
  simplify_eq. split; [done|by eexists].
Qed.

Lemma fragment_fields_range w s :
  Forall in_u8 s -> 0 <= w_fragment_offset w < 8192 -> 0 <= w_fragment_offset (fragment_fields w s) < 8192.
Proof.
  intros Hu Hw. unfold fragment_fields.
  destruct (s !! 2%nat) as [hi|] eqn:Eh; [|done]. destruct (s !! 3%nat) as [lo|] eqn:El; [|done]. cbn.
  eapply Forall_lookup_1 in Eh, El; [|done..]. unfold in_u8 in *.
  rewrite Z.shiftl_mul_pow2 by lia. change (2 ^ 8) with 256. rewrite lor_byte by done.
  rewrite Z.shiftr_div_pow2 by lia. change (2 ^ 3) with 8. split; [apply Z.div_pos; lia|]. apply Z.div_lt_upper_bound; lia.
Qed.

Lemma walk_extensions_wf budget d0 w :
  Forall in_u8 (d_frame d0) -> walk_wf d0 w -> exists w', walk_extensions budget w = Some w' /\ walk_wf d0 w'.
Proof.
  intros Hu. revert w. induction budget as [|budget IH]; intros w Hw; cbn [walk_extensions];
    (destruct (negb (is_ipv6_extension (w_protocol w))); [by eexists|]);
    assert (Hstop : forall kind, kind <> LengthMismatch -> walk_wf d0
      (mkWalk (note (w_decoded w) LIpv6 kind) (w_protocol w) (w_cursor w) (w_is_fragment w) (w_fragment_offset w)
         (w_more_fragments w) (w_identification w)))
      by (intros kind Hk; destruct Hw as (Hf & [H1 H2] & Hc & Ho & Hr); split; [by apply fresh_note|]; cbn;
          split; [destruct (w_decoded w); by split|done]).
  - eexists. split; [done|]. by apply Hstop.
  - set (s := drop (Z.to_nat (w_cursor w)) (d_frame (w_decoded w))).
    destruct (ipv6_extension_len_total (w_protocol w) s) as (r & -> & Hr).
    { unfold s. apply Forall_drop. destruct Hw as (_ & [-> _] & _). done. }
    cbn [mbind option_bind]. destruct r as [n|]; [|eexists; split; [done|]; by apply Hstop].
    destruct (Hr n eq_refl) as [Hn [b Eb]]. rewrite Eb. cbn [mbind option_bind]. apply IH.
    destruct Hw as (Hf & Hs & Hc & Ho & Hrg). destruct Hs as [H1 H2].
    assert (Hoff : 0 <= w_fragment_offset (fragment_fields w s) < 8192).
    { apply fragment_fields_range; [|done]. unfold s. apply Forall_drop. by rewrite H1. }
    assert (Hw' : w_decoded (fragment_fields w s) = w_decoded w /\ w_cursor (fragment_fields w s) = w_cursor w /\
      w_is_fragment (fragment_fields w s) = true) by (unfold fragment_fields; by repeat case_match).
    destruct Hw' as (Hd & Hcur & Hfr). unfold s in Hn. rewrite length_drop, H1 in Hn.
    destruct (w_protocol w =? IPV6_FRAGMENTATION_HEADER); unfold walk_wf; cbn; rewrite ?Hd, ?Hcur, ?Hfr.
    + split; [done|]. split; [done|]. split; [lia|]. by split.
    + split; [done|]. split; [done|]. split; [lia|]. by split.
Qed.

Lemma decode_ipv6_wf d start :
  Forall in_u8 (d_frame d) -> fresh d -> 0 <= start <= len (d_frame d) ->
  exists d', decode_ipv6 d start = Some d' /\ steps_to d d'.
Proof.
  intros Hu Hf Hs. unfold decode_ipv6. set (s := drop (Z.to_nat start) (d_frame d)).
  assert (Hlen : len s = len (d_frame d) - start) by (unfold s; rewrite length_drop; lia).
  assert (Hstop : forall kind, kind <> LengthMismatch -> exists d', Some (note d LIpv6 kind) = Some d' /\ steps_to d d').
  { intros kind Hk. eexists. split; [done|]. split; [|apply note_same]. by apply fresh_wf, fresh_note. }
  destruct (s !! 0%nat) as [first|] eqn:E0; [|by apply Hstop].
  destruct (negb (Z.shiftr first 4 =? 6)); [by apply Hstop|].
  destruct (ipv6_from_slice s) as [[[[[[src dst] next] hops] plen] used]|] eqn:Eh; [|by apply Hstop].
  apply ipv6_used in Eh as [-> Hu2]. set (d1 := if _ && _ then _ else d).
  assert (walk_wf d (mkWalk d1 next (start + 40) false 0 false 0)) as Hw.
  { unfold d1. split; [|split; [|cbn; split; [lia|split; [done|lia]]]]; cbn;
      destruct ((len s - 40 <? plen) && negb (is_snapped d)) eqn:E; try done; bsimpl; [|apply note_same].
    destruct Hf as (Hb & ? & ? & ? & ?). split; [by apply note_base|by destruct d]. }
  destruct (walk_extensions_wf MAX_IPV6_EXTENSION_HEADERS d _ Hu Hw) as (w & -> & Hf' & Hs' & Hc & Ho & Hrg).
  cbn [mbind option_bind]. apply network_step; try done; [by rewrite (proj1 Hs')|lia|].
  cbn. intros Hz. destruct (w_is_fragment w); [|by apply Ho].
  destruct (Z.eqb_spec (w_fragment_offset w) 0); [done|]. done.
Qed.

Lemma read_vlans_wf budget tags d ether rest :
  fresh d -> 0 <= rest <= len (d_frame d) -> (tags + budget = MAX_VLAN_TAGS)%nat ->
  exists d' next, read_vlans budget tags d ether rest = Some (d', next) /\ fresh d' /\ same_frame d d' /\
    forall t r, next = Some (t, r) -> 0 <= r <= len (d_frame d).
Proof.
  revert tags d ether rest. induction budget as [|budget IH]; intros tags d ether rest Hf Hr Ht; cbn [read_vlans].
  - destruct (negb (is_vlan ether)).
    + eexists _, _. split; [done|]. split; [done|]. split; [done|]. naive_solver.
    + eexists _, _. split; [done|]. split; [by apply fresh_note|]. split; [apply note_same|done].
  - destruct (negb (is_vlan ether)).
    { eexists _, _. split; [done|]. split; [done|]. split; [done|]. naive_solver. }
    destruct (vlan_from_slice _) as [[[id ty] used]|] eqn:Ev.
    2: { eexists _, _. split; [done|]. split; [by apply fresh_note|]. split; [apply note_same|done]. }
    apply vlan_used in Ev as [-> Hl]. rewrite length_drop in Hl.
    destruct Hf as (Hb & Hn & Htr & Hp & Hnp). destruct (lookup_lt_is_Some_2 (d_vlan_ids d) tags) as [x Ex].
    { rewrite (bw_vlans d Hb). lia. }
    rewrite Ex. cbn [mbind option_bind].
    destruct (IH (S tags) (set_vlan_ids d (<[tags := Some id]> (d_vlan_ids d))) ty (rest + 4)) as (d' & next & E & H1 & H2 & H3).
    + destruct d. cbn in *. split; [|done]. destruct Hb. constructor; cbn in *; try done. by rewrite length_insert.
    + destruct d. cbn in *. lia.
    + lia.
    + exists d', next. split; [done|]. split; [done|]. destruct d. cbn in *. split; [done|]. done.
Qed.

Lemma decoded_new_fresh frame n : fresh (decoded_new frame n).
Proof. split; [|done]. constructor; cbn; try done; [constructor|]. intros _ l. apply not_elem_of_nil. Qed.

(** A reassembled datagram is decoded as well. *)
Lemma decode_transport_bytes_ok bytes protocol :
  exists d, decode_transport_bytes bytes protocol = Some d /\ forall t, d_transport d = Some (TTcp t) -> tcp_in_range t.
Proof.
  unfold decode_transport_bytes, decode_transport. set (d := decoded_new bytes (len bytes)).
  set (s := bytes_of _ _). assert (Ht : forall layer kind, d_transport (note d layer kind) = None) by done.
  destruct (protocol =? IP_TCP); [|destruct (protocol =? IP_UDP); [|destruct (_ || _)]].
  - unfold decode_tcp. destruct (Z.ltb_spec (len s) 20); [by eexists|].
    destruct (lookup_lt_is_Some_2 s 12) as [b ->]; [lia|]. cbn [mbind option_bind].
    destruct (_ <? 5); [by eexists|]. destruct (_ <? _); [by eexists|].
    destruct (tcp_from_slice s) as [[[[[[sp dp] sq] ack] win] flags]|] eqn:Et; [|by eexists].
    eexists. split; [done|]. intros t [= <-]. by apply tcp_sequence_range in Et.
  - eexists. split; [done|]. intros t. unfold decode_udp. by repeat case_match.
  - unfold decode_icmp. destruct (Z.ltb_spec (len s) ICMP_HEADER_LEN) as [Hs|Hs]; unfold ICMP_HEADER_LEN in Hs.
    + destruct (Z.leb_spec 2 (len s)); [|by eexists].
      destruct (lookup_lt_is_Some_2 s 0) as [a ->]; [lia|]. destruct (lookup_lt_is_Some_2 s 1) as [b ->]; [lia|]. by eexists.
    + destruct (lookup_lt_is_Some_2 s 0) as [a ->]; [lia|]. destruct (lookup_lt_is_Some_2 s 1) as [b ->]; [lia|]. by eexists.
  - by eexists.
Qed.

Lemma decode_ok frame original_len :
  Forall in_u8 frame ->
  exists d, decode frame original_len = Some d /\ decoded_wf d /\ d_frame d = frame.
Proof.
  intros Hu. unfold decode. pose proof (decoded_new_fresh frame original_len) as Hf.
  set (d := decoded_new frame original_len) in *.
  assert (Hstop : forall kind, kind <> LengthMismatch -> exists d', Some (note d LEthernet kind) = Some d' /\ decoded_wf d' /\ d_frame d' = frame).
  { intros kind Hk. eexists. split; [done|]. split; [|done]. by apply fresh_wf, fresh_note. }
  case_bool_decide; [by apply Hstop|]. destruct (ethernet2_from_slice frame) as [[ether used]|] eqn:Ee; [|by apply Hstop].
  apply ethernet2_used in Ee as [-> Hl].
  destruct (read_vlans_wf MAX_VLAN_TAGS 0 d ether 14 Hf) as (d' & next & -> & Hf' & [H1 H2] & Hn); [cbn; lia|done|].
  cbn [mbind option_bind]. destruct next as [[t r]|]; [|exists d'; split; [done|split; [by apply fresh_wf|done]]].
  specialize (Hn t r eq_refl). set (d2 := set_ether_type d' t).
  assert (fresh d2 /\ d_frame d2 = frame) as [Hf2 Hfr].
  { unfold d2. destruct d'. cbn in *. split; [|done]. destruct Hf' as (Hb & ?). split; [|done].
    by eapply base_wf_ext; [..|exact Hb]. }
  clearbody d2. rewrite <- Hfr in Hu. replace (d_frame d) with (d_frame d2) in Hn by done.
  destruct (t =? ETHER_IPV4).
  - destruct (decode_ipv4_wf d2 r Hf2 Hn) as (d3 & E & Hw & Hs & _). exists d3. split; [done|]. split; [done|].
    by rewrite Hs.
  - destruct (t =? ETHER_IPV6).
    + destruct (decode_ipv6_wf d2 r Hu Hf2 Hn) as (d3 & E & Hw & Hs & _). exists d3. split; [done|]. split; [done|].
      by rewrite Hs.
    + exists d2. split; [done|]. split; [by apply fresh_wf|done].
Qed.

(** C26: decoding is total: every frame of bytes, however malformed, gives a result without a panic. The
    payload is a range of the frame and lies inside the network payload; at most eight anomalies are
    kept, each once; a frame the snap length clipped is never accused of lying about its length; and
    a later fragment of a datagram gets no transport layer read out of its payload. *)
Theorem decode_total frame original_len :
  Forall in_u8 frame ->
  exists d, decode frame original_len = Some d /\ decoded_wf d /\ d_frame d = frame.
Proof. apply decode_ok. Qed.
End decode_facts.

(** ** The counters add up *)

Record counters_wf (c : DecodeCounters) : Prop := {
  cw_packets : dc_packets c = dc_ipv4 c + dc_ipv6 c + dc_non_ip c;
  cw_fragments : 0 <= dc_fragments c <= dc_ipv4 c + dc_ipv6 c;
  cw_snapped : 0 <= dc_snapped c <= dc_packets c;
  cw_anomalous : 0 <= dc_anomalous c <= dc_packets c;
  cw_anomalies : dc_anomalous c <= dc_anomalies c <= CAP * dc_anomalous c
}.

(** Every frame is counted once by its network layer, and the anomalies stay within the cap. *)
Lemma record_wf c d : counters_wf c -> decoded_wf d -> counters_wf (record c d).
Proof.
  intros [] [[Hcap _ _ _] _ _ _ _]. unfold CAP in *.
  assert (Ha : anomalies_is_empty (d_anomalies d) = false -> 1 <= anomalies_len (d_anomalies d) <= 8).
  { unfold anomalies_is_empty, anomalies_len. intros E. apply bool_decide_eq_false in E.
    destruct (as_found (d_anomalies d)); [done|]. cbn [length] in *. lia. }
  constructor; unfold record; cbn;
    destruct (d_network d) as [[i|i]|], (is_snapped d), (anomalies_is_empty (d_anomalies d)); cbn;
    try specialize (Ha eq_refl); repeat case_match; unfold CAP in *; lia.
Qed.

(** ** A well-formed frame is decoded to what it carries *)

Section exact.
Context {EP : Etherparse}.

Lemma bytes_of_middle (a b c : list Z) : bytes_of (a ++ b ++ c) (len a, len a + len b) = b.
Proof.
  unfold bytes_of. cbn. rewrite slice_Some by (rewrite ?length_app; lia). cbn.
  replace (Z.to_nat (len a + len b - len a)) with (length b) by lia. rewrite Nat2Z.id.
  by rewrite drop_app_length, take_app_length.
Qed.

(** An Ethernet frame that carries a TCP segment in an unfragmented IPv4 packet is decoded to
    exactly what it carries: the payload is the segment's data, without the headers and without the
    padding that the link adds after the packet, the network payload is the whole segment, and the
    5-tuple has the addresses and the ports of the headers. When the checksum is right as well,
    nothing is reported. *)
Theorem tcp_frame_exact eth b ip tcp data padding h sp dp seq ack win flags o :
  let packet := (b :: ip) ++ tcp ++ data ++ padding in
  let frame := eth ++ packet in
  len eth = 14 -> ethernet2_from_slice frame = Some (ETHER_IPV4, 14) ->
  Z.shiftr b 4 = 4 -> 5 <= Z.land b 15 -> len (b :: ip) = Z.land b 15 * 4 ->
  ipv4_from_slice packet = Some (h, len (b :: ip)) ->
  ih_protocol h = IP_TCP -> ih_fragment_offset h = 0 -> ih_more_fragments h = false ->
  ih_total_len h = len (b :: ip) + len tcp + len data ->
  tcp !! 12%nat = Some o -> 5 <= Z.shiftr o 4 -> len tcp = Z.shiftr o 4 * 4 ->
  tcp_from_slice (tcp ++ data) = Some (sp, dp, seq, ack, win, flags) ->
  exists d, decode frame (len frame) = Some d /\ payload_bytes d = data /\ network_payload_bytes d = tcp ++ data /\
    five_tuple d = Some (mkNetTuple (V4 (ih_source h)) (Some sp) (V4 (ih_destination h)) (Some dp) Tcp) /\
    d_transport d = Some (TTcp (mkTcpInfo sp dp seq ack win flags (len tcp))) /\
    (ih_header_checksum h = calc_header_checksum h -> as_found (d_anomalies d) = []).
Proof.
  intros packet frame He Ee Hv Hi Hip Eh Hp Hfo Hmf Htl E12 Ho Htcp Et.
  set (d0 := set_ether_type (decoded_new frame (len frame)) ETHER_IPV4).
  assert (decode frame (len frame) = decode_ipv4 d0 14) as ->.
  { unfold decode. rewrite bool_decide_false by (unfold frame, packet; by destruct eth). by rewrite Ee. }
  assert (Hs : drop (Z.to_nat 14) frame = packet).
  { unfold frame. replace (Z.to_nat 14) with (length eth) by lia. apply drop_app_length. }
  assert (Hlen : len frame = 14 + len (b :: ip) + len tcp + len data + len padding).
  { unfold frame, packet. rewrite !length_app. lia. }
  assert (Hplen : len packet = len frame - 14) by (unfold frame; rewrite length_app; lia).
  assert (Htot : 0 <= ih_total_len h <= 65535) by (pose proof (ipv4_lengths h) as [? _]; done).
  unfold decode_ipv4. change (d_frame d0) with frame. rewrite Hs.
  assert (packet !! 0%nat = Some b) as -> by done. rewrite Hv. change (4 =? 4) with true. cbn [negb]. zdec. rewrite Eh.
  set (d1 := if ih_header_checksum h =? calc_header_checksum h then d0 else _).
  assert (d_frame d1 = frame /\ d_transport d1 = None /\ is_snapped d1 = false /\
    (ih_header_checksum h = calc_header_checksum h -> as_found (d_anomalies d1) = [])) as (F1 & T1 & S1 & A1).
  { assert (is_snapped d0 = false) by (unfold is_snapped; apply Z.ltb_ge; cbn; lia).
    unfold d1. destruct (Z.eqb_spec (ih_header_checksum h) (calc_header_checksum h)); done. }
  rewrite (proj2 (Z.ltb_ge (len packet) (ih_total_len h))), (proj2 (Z.ltb_ge (ih_total_len h) (Z.land b 15 * 4))) by lia.
  cbn [andb]. unfold ipv4_is_fragment. cbn [v4_more_fragments v4_fragment_offset].
  rewrite Hmf, Hfo, Hp, F1. change (0 =? 0) with true. cbn [orb negb andb].
  replace (Z.min (sat_add 14 (Z.max (ih_total_len h) (Z.land b 15 * 4))) (len frame))
    with (14 + ih_total_len h) by (unfold sat_add, U64_MAX; lia).
  set (range := clamp_range (14 + len (b :: ip)) (14 + ih_total_len h) (len frame)).
  assert (range = (14 + len (b :: ip), 14 + ih_total_len h)) as Hr by (unfold range, clamp_range; f_equal; lia).
  set (info := mkIpv4Info _ _ _ _ _ _ _ _ _). unfold decode_transport.
  replace (d_frame (set_network d1 (Ipv4 info) range)) with frame by (by destruct d1).
  change (IP_TCP =? IP_TCP) with true. cbv iota.
  assert (bytes_of frame (14 + len (b :: ip), Z.min (14 + ih_total_len h) (len frame)) = tcp ++ data) as ->.
  { replace frame with ((eth ++ b :: ip) ++ (tcp ++ data) ++ padding) by (unfold frame, packet; by rewrite <- !app_assoc).
    replace (14 + len (b :: ip), _) with (len (eth ++ b :: ip), len (eth ++ b :: ip) + len (tcp ++ data)); [apply bytes_of_middle|].
    rewrite !length_app. f_equal; lia. }
  unfold decode_tcp. rewrite length_app. zdec. rewrite lookup_app_l by (apply lookup_lt_is_Some; by eexists).
  rewrite E12. cbn [mbind option_bind]. zdec. rewrite Et.
  replace (d_frame (set_network d1 (Ipv4 info) range)) with frame by (by destruct d1).
  eexists. split; [reflexivity|].
  assert (clamp_range (14 + len (b :: ip) + Z.shiftr o 4 * 4) (14 + ih_total_len h) (len frame) =
    (len (eth ++ (b :: ip) ++ tcp), len (eth ++ (b :: ip) ++ tcp) + len data)) as ->.
  { unfold clamp_range. rewrite !length_app. f_equal; lia. }
  rewrite Hr, <- Htcp. destruct d1. cbn in F1, T1, A1 |- *. subst d_frame0.
  split; [|split; [|split; [done|split; [done|done]]]].
  - unfold payload_bytes. cbn [d_frame d_payload].
    replace frame with ((eth ++ (b :: ip) ++ tcp) ++ data ++ padding) by (unfold frame, packet; by rewrite <- !app_assoc).
    apply bytes_of_middle.
  - unfold network_payload_bytes. cbn [d_frame d_network_payload].
    replace frame with ((eth ++ b :: ip) ++ (tcp ++ data) ++ padding) by (unfold frame, packet; by rewrite <- !app_assoc).
    etransitivity; [|apply (bytes_of_middle (eth ++ b :: ip) (tcp ++ data) padding)].
    f_equal. rewrite !length_app. cbn [length] in *. f_equal; lia.
Qed.
End exact.

(** ** Running the decoder

    The wire formats of the standards, as one reader that satisfies the class. *)

Definition be (n : nat) (s : list Z) (i : nat) : Z := foldl (fun acc b => acc * 256 + b) 0 (take n (drop i s)).

(** The one's complement of the one's complement sum of the words of the header but its checksum. *)
Fixpoint words16 (fuel : nat) (s : list Z) : list Z :=
  match fuel with O => [] | S fuel => match s with [] => [] | _ => be 2 s 0 :: words16 fuel (drop 2 s) end end.

Definition ones_sum (ws : list Z) : Z :=
  let s := zsum ws in
  let s := s mod 65536 + s / 65536 in
  s mod 65536 + s / 65536.

Definition wire_checksum (h : list Z) : Z :=
  65535 - ones_sum (words16 30 (<[10%nat := 0]> (<[11%nat := 0]> h))).

Definition wire_ipv4 (s : list Z) : option (list Z * Z) :=
  b ← s !! 0%nat;
  let n := Z.land b 15 * 4 in
  if (Z.shiftr b 4 =? 4) && (20 <=? n) && (n <=? len s) then Some (take (Z.to_nat n) s, n) else None.

Definition wire_flags (b : Z) : TcpFlags :=
  mkTcpFlags (Z.testbit b 0) (Z.testbit b 1) (Z.testbit b 2) (Z.testbit b 3) (Z.testbit b 4) (Z.testbit b 5)
    (Z.testbit b 6) (Z.testbit b 7).

#[refine] Instance wire_format : Etherparse := {|
  Ipv4Header := list Z;
  ih_source h := be 4 h 12;
  ih_destination h := be 4 h 16;
  ih_protocol h := be 1 h 9;
  ih_time_to_live h := be 1 h 8;
  ih_identification h := be 2 h 4;
  ih_fragment_offset h := be 2 h 6 mod 8192;
  ih_more_fragments h := Z.testbit (be 2 h 6) 13;
  ih_total_len h := be 2 h 2 mod 65536;
  ih_header_checksum h := be 2 h 10;
  calc_header_checksum := wire_checksum;
  ethernet2_from_slice s := if 14 <=? len s then Some (be 2 s 12, 14) else None;
  vlan_from_slice s := if 4 <=? len s then Some (be 2 s 0 mod 4096, be 2 s 2, 4) else None;
  ipv4_from_slice := wire_ipv4;
  ipv6_from_slice s :=
    if 40 <=? len s then Some (be 16 s 8, be 16 s 24, be 1 s 6, be 1 s 7, be 2 s 4 mod 65536, 40) else None;
  tcp_from_slice s :=
    if 20 <=? len s
    then Some (be 2 s 0, be 2 s 2, be 4 s 4 mod 2 ^ 32, be 4 s 8 mod 2 ^ 32, be 2 s 14, wire_flags (be 1 s 13)) else None;
  udp_from_slice s := if 8 <=? len s then Some (be 2 s 0, be 2 s 2, be 2 s 4 mod 65536) else None
|}.
Proof.
  - intros s ty n E. case_match eqn:El; simplify_eq. bsimpl. lia.
  - intros s id ty n E. case_match eqn:El; simplify_eq. bsimpl. lia.
  - intros s h n b E Eb. unfold wire_ipv4 in E. rewrite Eb in E. cbn in E. case_match eqn:El; simplify_eq. bsimpl. lia.
  - intros s src dst next hops plen n E. case_match eqn:El; simplify_eq. bsimpl. lia.
  - intros h. split; [unfold in_u16, U16_MAX; pose proof (Z.mod_pos_bound (be 2 h 2) 65536); lia|].
    apply Z.mod_pos_bound. lia.
  - intros s src dst next hops plen n E. case_match eqn:El; simplify_eq. unfold in_u16, U16_MAX.
    pose proof (Z.mod_pos_bound (be 2 s 4) 65536). lia.
  - intros s sp dp n E. case_match eqn:El; simplify_eq. unfold in_u16, U16_MAX.
    pose proof (Z.mod_pos_bound (be 2 s 4) 65536). lia.
  - intros s sp dp seq ack win flags E. case_match eqn:El; simplify_eq. unfold in_u32, U32_MAX.
    pose proof (Z.mod_pos_bound (be 4 s 4) (2 ^ 32)). pose proof (Z.mod_pos_bound (be 4 s 8) (2 ^ 32)). lia.
Defined.

Definition sample_ethernet : list Z := replicate 12 1 ++ [8; 0].
Definition sample_ip (total checksum : Z) : list Z :=
  [69; 0; total / 256; total mod 256; 0; 7; 0; 0; 64; 6; checksum / 256; checksum mod 256; 10; 0; 0; 1; 10; 0; 0; 2].
Definition sample_tcp : list Z := [4; 210; 0; 80; 0; 0; 0; 5; 0; 0; 0; 9; 80; 24; 2; 0; 0; 0; 0; 0].

Lemma decode_total_witness :
  exists d, decode (EP := wire_format) (sample_ethernet ++ [69; 0; 0]) 60 = Some d /\ decoded_wf d /\
    d_frame d = sample_ethernet ++ [69; 0; 0].
Proof.
  apply (@decode_total wire_format). apply Forall_forall. intros x Hx.
  repeat (apply elem_of_cons in Hx as [->|Hx]; [unfold in_u8; lia|]). by apply not_elem_of_nil in Hx.
Defined.

Lemma tcp_frame_exact_witness :
  exists d, decode (EP := wire_format) (sample_ethernet ++ sample_ip 43 26308 ++ sample_tcp ++ [97; 98; 99] ++ [0; 0; 0]) 60 = Some d /\
    payload_bytes d = [97; 98; 99] /\ as_found (d_anomalies d) = [].
Proof.
  destruct (@tcp_frame_exact wire_format sample_ethernet 69 (tail (sample_ip 43 26308)) sample_tcp [97; 98; 99] [0; 0; 0]
              (sample_ip 43 26308) 1234 80 5 9 512 (wire_flags 24) 80) as (d & E & Hp & _ & _ & _ & Ha).
  1-14: first [vm_compute; reflexivity | vm_compute; discriminate].
  exists d. split; [exact E|]. split; [exact Hp|]. apply Ha. vm_compute. reflexivity.
Defined.
