(* ===== verification/Defrag.v ===== *)
(** IP defragmentation: [crates/reassembly/src/defrag.rs].

    A datagram under reassembly is a [RangeBuffer] of at most 65535 bytes and 128 holes, under a key
    of addresses, identification and protocol. [defrag_wf] is the invariant of the table. The two
    statements that matter are that the fragments of a datagram, in any order, with any duplicates
    and overlaps that agree, reassemble to it, and that the table never outgrows its cap. *)

From S2P Require Import Prelude Net Config RangeBuffer.

(** ** Data *)

Definition MAX_DATAGRAM_LEN : Z := 65535.
Definition MAX_HOLES_PER_DATAGRAM : Z := 128.
Definition SWEEP_INTERVAL : Z := secs 5.

Record FragmentView := mkFragmentView {
  fv_source : IpAddr;
  fv_destination : IpAddr;
  fv_identification : Z;
  fv_protocol : Z;
  fv_offset : Z;
  more_fragments : bool;
  fv_payload : list Z
}.

Record FragmentKey := mkFragmentKey {
  fk_source : IpAddr;
  fk_destination : IpAddr;
  fk_identification : Z;
  fk_protocol : Z
}.

#[global] Instance FragmentKey_eq_dec : EqDecision FragmentKey.
Proof. solve_decision. Defined.

#[global] Instance FragmentKey_countable : Countable FragmentKey :=
  inj_countable'
    (fun k => (fk_source k, fk_destination k, fk_identification k, fk_protocol k))
    (fun t => mkFragmentKey t.1.1.1 t.1.1.2 t.1.2 t.2)
    (fun k => match k with mkFragmentKey _ _ _ _ => eq_refl end).

Record Reassembled := mkReassembled {
  re_source : IpAddr;
  re_destination : IpAddr;
  re_protocol : Z;
  re_data : list Z;
  re_fragments : Z;
  re_conflicting_bytes : Z
}.

Record DefragCounters := mkDefragCounters {
  n_fragments : Z;
  n_completed : Z;
  n_started : Z;
  n_timed_out : Z;
  n_evicted : Z;
  n_overlaps : Z;
  n_conflicting_overlaps : Z;
  n_oversized : Z;
  n_refused_bytes : Z;
  n_misaligned : Z
}.

Definition DefragCounters_default : DefragCounters := mkDefragCounters 0 0 0 0 0 0 0 0 0 0.

Record FragmentSet := mkFragmentSet {
  fs_buffer : RangeBuffer;
  first_seen : Z;
  last_seen : Z;
  total_len : option Z;
  fragments : Z;
  conflicting_bytes : Z;
  fs_source : IpAddr;
  fs_destination : IpAddr;
  fs_protocol : Z
}.

Record Defragmenter := mkDefragmenter {
  sets : gmap FragmentKey FragmentSet;
  max_sets : Z;
  max_bytes_total : Z;
  timeout : Z;
  counters : DefragCounters;
  last_sweep : option Z
}.

Definition new (config : ReassemblyConfig) : Defragmenter :=
  mkDefragmenter ∅ (Z.max (max_fragment_sets config) 1)
    (Z.max (max_fragment_bytes_total config) 1)
    (secs (Z.max (fragment_timeout_secs config) 1)) DefragCounters_default None.

Definition active_sets (d : Defragmenter) : Z := Z.of_nat (size (sets d)).

Definition buffered_bytes (d : Defragmenter) : Z :=
  map_zsum (fun s => RangeBuffer.buffered_bytes (fs_buffer s)) (sets d).

Definition capacity (d : Defragmenter) : Z := max_sets d.

(** ** Updates of the fields *)

Definition set_sets (d : Defragmenter) (m : gmap FragmentKey FragmentSet) : Defragmenter :=
  mkDefragmenter m (max_sets d) (max_bytes_total d) (timeout d) (counters d) (last_sweep d).

Definition set_defrag_counters (d : Defragmenter) (c : DefragCounters) : Defragmenter :=
  mkDefragmenter (sets d) (max_sets d) (max_bytes_total d) (timeout d) c (last_sweep d).

(** Add to the counters of datagrams: completed, started, timed out, evicted. *)
Definition count_datagrams (d : Defragmenter) (comp start time evict : Z) : Defragmenter :=
  let c := counters d in
  set_defrag_counters d (mkDefragCounters (n_fragments c) (n_completed c + comp)
    (n_started c + start) (n_timed_out c + time) (n_evicted c + evict) (n_overlaps c)
    (n_conflicting_overlaps c) (n_oversized c) (n_refused_bytes c) (n_misaligned c)).

(** Add to the counters of fragments: seen, oversized, misaligned. *)
Definition count_fragments (d : Defragmenter) (seen over mis : Z) : Defragmenter :=
  let c := counters d in
  set_defrag_counters d (mkDefragCounters (n_fragments c + seen) (n_completed c) (n_started c)
    (n_timed_out c) (n_evicted c) (n_overlaps c) (n_conflicting_overlaps c) (n_oversized c + over)
    (n_refused_bytes c) (n_misaligned c + mis)).

(** Add what a write reported. *)
Definition count_outcome (d : Defragmenter) (o : WriteOutcome) : Defragmenter :=
  let c := counters d in
  set_defrag_counters d (mkDefragCounters (n_fragments c) (n_completed c) (n_started c)
    (n_timed_out c) (n_evicted c) (n_overlaps c + overlapped o)
    (n_conflicting_overlaps c + conflicting o) (n_oversized c) (n_refused_bytes c + refused o)
    (n_misaligned c)).

(** ** Operations *)

(** How long a set has been idle. *)
Definition set_idle (now : Z) (s : FragmentSet) : Z :=
  unwrap_or 0 (duration_since now (last_seen s)).

(** [sweep]: [retain] the sets that are not idle for the timeout. *)
Definition sweep (d : Defragmenter) (now : Z) : Defragmenter :=
  let kept := filter (fun ks => set_idle now ks.2 < timeout d) (sets d) in
  let removed := Z.of_nat (size (sets d)) - Z.of_nat (size kept) in
  let d := count_datagrams (set_sets d kept) 0 0 removed 0 in
  mkDefragmenter (sets d) (max_sets d) (max_bytes_total d) (timeout d) (counters d) (Some now).

Definition maybe_sweep (d : Defragmenter) (now : Z) : Defragmenter :=
  let due := match last_sweep d with
             | None => true
             | Some last => match duration_since now last with
                            | Some elapsed => SWEEP_INTERVAL <=? elapsed
                            | None => false
                            end
             end in
  if due then sweep d now else d.

Definition has_room (d : Defragmenter) : bool :=
  (active_sets d <? max_sets d) && (buffered_bytes d <? max_bytes_total d).

(** [if self.sets.remove(&key).is_some() { evicted += 1 }]. *)
Definition evict_set (d : Defragmenter) (k : FragmentKey) : Defragmenter :=
  match sets d !! k with
  | Some _ => count_datagrams (set_sets d (delete k (sets d))) 0 0 0 1
  | None => d
  end.

Definition key_of (fr : FragmentView) : FragmentKey :=
  mkFragmentKey (fv_source fr) (fv_destination fr) (fv_identification fr) (fv_protocol fr).

Definition fresh_set (fr : FragmentView) (now : Z) : FragmentSet :=
  mkFragmentSet (RangeBuffer.new 0 MAX_DATAGRAM_LEN MAX_HOLES_PER_DATAGRAM) now now None 0 0
    (fv_source fr) (fv_destination fr) (fv_protocol fr).

(** Where a fragment starts and ends in its datagram. *)
Definition byte_offset (fr : FragmentView) : Z := fv_offset fr * 8.
Definition byte_end (fr : FragmentView) : Z := sat_add (byte_offset fr) (len (fv_payload fr)).

Definition is_misaligned (fr : FragmentView) : bool :=
  more_fragments fr && negb (len (fv_payload fr) =? 0) && negb (len (fv_payload fr) mod 8 =? 0).

(** The updates of a set by one fragment: counts, time, the write, the length of the datagram. *)
Definition absorb (s : FragmentSet) (fr : FragmentView) (now : Z) (policy : OverlapPolicy) :
    option (FragmentSet * WriteOutcome) :=
  '(b, o) ← write (fs_buffer s) (byte_offset fr) (fv_payload fr) policy;
  Some (mkFragmentSet b (first_seen s) (if last_seen s <? now then now else last_seen s)
          (if more_fragments fr then total_len s
           else Some (unwrap_or (byte_end fr) (total_len s)))
          (fragments s + 1) (conflicting_bytes s + conflicting o)
          (fs_source s) (fs_destination s) (fs_protocol s), o).

Definition is_complete (s : FragmentSet) : bool :=
  match total_len s with
  | Some total => total <=? contiguous_end (fs_buffer s)
  | None => false
  end.

(** The datagram of a complete set. *)
Definition extract (s : FragmentSet) : option Reassembled :=
  '(_, data, _) ← drain_contiguous_upto (fs_buffer s) (unwrap_or 0 (total_len s)) [];
  Some (mkReassembled (fs_source s) (fs_destination s) (fs_protocol s) data (fragments s)
          (conflicting_bytes s)).

Section defragmenter.
Context `{!HashOrder FragmentKey}.

(** The keys [make_room] evicts: those first seen the longest ago. *)
Definition defrag_batch (d : Defragmenter) : list FragmentKey :=
  let batch := Z.max (max_sets d / 10) 1 in
  oldest_keys first_seen batch (sets d).

Definition make_room (d : Defragmenter) (now : Z) : Defragmenter :=
  if has_room d then d
  else
    let d := sweep d now in
    if has_room d then d else foldl evict_set d (defrag_batch d).

(** [if !self.sets.contains_key(&key) { ... }]. *)
Definition ensure_set (d : Defragmenter) (fr : FragmentView) (now : Z) : Defragmenter :=
  match sets d !! key_of fr with
  | Some _ => d
  | None =>
      let d := count_datagrams (make_room d now) 0 1 0 0 in
      set_sets d (<[key_of fr := fresh_set fr now]> (sets d))
  end.

(** [push]. *)
Definition push (d : Defragmenter) (fr : FragmentView) (now : Z) (policy : OverlapPolicy) :
    option (Defragmenter * option Reassembled) :=
  let d := maybe_sweep (count_fragments d 1 0 0) now in
  if MAX_DATAGRAM_LEN <? byte_end fr then Some (count_fragments d 0 1 0, None)
  else
    let d := if is_misaligned fr then count_fragments d 0 0 1 else d in
    let d := ensure_set d fr now in
    match sets d !! key_of fr with
    | None => Some (d, None)
    | Some s =>
        '(s, o) ← absorb s fr now policy;
        let d := count_outcome d o in
        if negb (is_complete s) then Some (set_sets d (<[key_of fr := s]> (sets d)), None)
        else
          r ← extract s;
          Some (count_datagrams (set_sets d (delete (key_of fr) (sets d))) 1 0 0 0, Some r)
    end.

End defragmenter.

(** ** The invariant *)

Record set_wf (k : FragmentKey) (s : FragmentSet) : Prop := {
  sf_buffer : rb_wf (fs_buffer s);
  sf_base : rb_base (fs_buffer s) = 0;
  sf_limit : rb_byte_limit (fs_buffer s) = MAX_DATAGRAM_LEN;
  sf_ranges : rb_range_limit (fs_buffer s) = MAX_HOLES_PER_DATAGRAM;
  sf_total : forall n, total_len s = Some n -> 0 <= n <= MAX_DATAGRAM_LEN;
  sf_fragments : range_count (fs_buffer s) <= fragments s;
  sf_source : fs_source s = fk_source k;
  sf_destination : fs_destination s = fk_destination k;
  sf_protocol : fs_protocol s = fk_protocol k
}.

Definition defrag_inv (d : Defragmenter) : Prop :=
  1 <= max_sets d /\ map_Forall set_wf (sets d) /\
  map_Forall (fun _ s => is_complete s = false) (sets d).

Definition defrag_wf (d : Defragmenter) : Prop := defrag_inv d /\ active_sets d <= max_sets d.

(** Reassemblies started that are neither in progress nor counted as ended. *)
Definition dbalance (d : Defragmenter) : Z :=
  let c := counters d in
  n_started c - n_completed c - n_timed_out c - n_evicted c - active_sets d.

(** A fragment as the decoder hands it over: the offset field is 13 bits wide. *)
Definition fragment_ok (fr : FragmentView) : Prop := 0 <= fv_offset fr < 8192.

Definition same_defrag_config (d d' : Defragmenter) : Prop :=
  max_sets d' = max_sets d /\ max_bytes_total d' = max_bytes_total d /\ timeout d' = timeout d.

Lemma defrag_inv_sub d d' :
  defrag_inv d -> same_defrag_config d d' -> sets d' ⊆ sets d -> defrag_inv d'.
Proof.
  intros (H1 & H2 & H3) (C & _ & _) E. unfold defrag_inv. rewrite C.
  split_and!; [done|by eapply map_Forall_sub|by eapply map_Forall_sub].
Qed.

(** ** Sweeping and evicting *)

Lemma defrag_sweep_ok d now :
  defrag_inv d ->
  defrag_inv (sweep d now) /\ same_defrag_config d (sweep d now) /\
  sets (sweep d now) = filter (fun ks => set_idle now ks.2 < timeout d) (sets d) /\
  dbalance (sweep d now) = dbalance d.
Proof.
  intros Hd. split; [|split; [|split]]; [eapply defrag_inv_sub; [done|done|apply map_filter_subseteq]|done|done|].
  unfold dbalance, active_sets. simpl. lia.
Qed.

Lemma defrag_maybe_sweep_ok d now :
  defrag_inv d ->
  defrag_inv (maybe_sweep d now) /\ same_defrag_config d (maybe_sweep d now) /\
  sets (maybe_sweep d now) ⊆ sets d /\ dbalance (maybe_sweep d now) = dbalance d /\
  forall k s, sets d !! k = Some s -> set_idle now s < timeout d ->
    sets (maybe_sweep d now) !! k = Some s.
Proof.
  intros Hd. unfold maybe_sweep. case_match; [|done].
  destruct (defrag_sweep_ok d now Hd) as (H1 & H2 & H3 & H4). rewrite H3. split_and!; try done.
  - apply map_filter_subseteq.
  - intros k s Hk Hi. by apply map_lookup_filter_Some.
Qed.

Lemma evict_sets_ok ks d :
  defrag_inv d ->
  defrag_inv (foldl evict_set d ks) /\ same_defrag_config d (foldl evict_set d ks) /\
  sets (foldl evict_set d ks) = filter (fun kv => kv.1 ∉ ks) (sets d) /\
  dbalance (foldl evict_set d ks) = dbalance d.
Proof.
  revert d. induction ks as [|k ks IH]; intros d Hd; simpl.
  { split_and!; try done. symmetry. apply map_filter_id. intros i x _. apply not_elem_of_nil. }
  assert (H1 : same_defrag_config d (evict_set d k) /\
    sets (evict_set d k) = filter (fun kv => kv.1 <> k) (sets d) /\
    dbalance (evict_set d k) = dbalance d).
  { assert (E : sets (evict_set d k) = delete k (sets d)).
    { unfold evict_set. case_match eqn:Ek; simpl; [done|]. by rewrite delete_id. }
    split; [|split].
    - unfold evict_set. by destruct (sets d !! k).
    - rewrite E. apply map_eq. intros i. apply option_eq. intros x.
      rewrite map_lookup_filter_Some, lookup_delete_Some. naive_solver.
    - unfold evict_set in *. case_match eqn:Ek; [|done]. unfold dbalance, active_sets. simpl.
      rewrite (map_size_delete_Z _ _ _ Ek). lia. }
  destruct H1 as ((C1 & C2 & C3) & F1 & B1).
  destruct (IH (evict_set d k)) as (Hi & (C1' & C2' & C3') & F2 & B2).
  { eapply defrag_inv_sub; [done|done|]. rewrite F1. apply map_filter_subseteq. }
  split; [done|]. split; [split_and!; congruence|]. split; [|congruence].
  rewrite F2, F1. apply map_eq. intros i. apply option_eq. intros x.
  rewrite !map_lookup_filter_Some. simpl. set_solver.
Qed.

Section defrag_lemmas.
Context `{!HashOrder FragmentKey}.

Lemma defrag_make_room_ok d now :
  defrag_wf d ->
  defrag_inv (make_room d now) /\ same_defrag_config d (make_room d now) /\
  sets (make_room d now) ⊆ sets d /\ dbalance (make_room d now) = dbalance d /\
  active_sets (make_room d now) < max_sets d.
Proof.
  intros [Hd Hcap]. unfold make_room. destruct (has_room d) eqn:Er.
  { unfold has_room in Er. bsimpl. by split_and!. }
  destruct (defrag_sweep_ok d now Hd) as (Hd1 & (C1 & C2 & C3) & F1 & B1).
  assert (Hsub : sets (sweep d now) ⊆ sets d) by (rewrite F1; apply map_filter_subseteq).
  destruct (has_room (sweep d now)) eqn:Er1.
  { unfold has_room in Er1. bsimpl. rewrite C1 in *. by split_and!. }
  destruct (evict_sets_ok (defrag_batch (sweep d now)) _ Hd1) as (Hd2 & (D1 & D2 & D3) & F2 & B2).
  split_and!; try done; try congruence.
  - rewrite F2. etrans; [apply map_filter_subseteq|done].
  - unfold active_sets in *. rewrite F2. unfold defrag_batch. rewrite oldest_keys_size by lia.
    pose proof (map_subseteq_size _ _ Hsub). destruct Hd. lia.
Qed.

Lemma fresh_set_ok fr now :
  set_wf (key_of fr) (fresh_set fr now) /\ is_complete (fresh_set fr now) = false.
Proof.
  split; [|done]. split; try done.
Qed.

Lemma ensure_set_ok d fr now :
  defrag_wf d ->
  defrag_wf (ensure_set d fr now) /\ same_defrag_config d (ensure_set d fr now) /\
  dbalance (ensure_set d fr now) = dbalance d /\
  sets (ensure_set d fr now) !! key_of fr =
    Some (unwrap_or (fresh_set fr now) (sets d !! key_of fr)) /\
  forall k, k <> key_of fr -> forall s,
    sets (ensure_set d fr now) !! k = Some s -> sets d !! k = Some s.
Proof.
  intros Hd. unfold ensure_set. destruct (sets d !! key_of fr) as [s|] eqn:Ek; [by split_and!|].
  destruct (defrag_make_room_ok d now Hd) as ((M1 & M2 & M3) & (C1 & C2 & C3) & Hsub & B & Hlt).
  pose proof (lookup_weaken_None _ _ _ Ek Hsub) as Ek'.
  destruct (fresh_set_ok fr now) as [Hw Hi].
  split_and!; simpl; try done.
  - split; [split_and!; simpl; [done|by apply map_Forall_insert_2|by apply map_Forall_insert_2]|].
    unfold active_sets in *. simpl. rewrite map_size_insert, Ek'. rewrite C1. lia.
  - rewrite <- B. unfold dbalance, active_sets. simpl. rewrite map_size_insert, Ek'. lia.
  - by rewrite lookup_insert_eq.
  - intros k Hk s Hs. rewrite lookup_insert_ne in Hs by done. by eapply lookup_weaken.
Qed.

(** ** One fragment *)

Lemma byte_end_eq fr :
  fragment_ok fr -> byte_end fr <= MAX_DATAGRAM_LEN ->
  byte_end fr = byte_offset fr + len (fv_payload fr) /\ 0 <= byte_offset fr <= byte_end fr.
Proof. unfold fragment_ok, byte_end, byte_offset, sat_add, U64_MAX, MAX_DATAGRAM_LEN. lia. Qed.

Lemma absorb_ok k s fr now policy :
  set_wf k s -> fragment_ok fr -> byte_end fr <= MAX_DATAGRAM_LEN ->
  exists s' o, absorb s fr now policy = Some (s', o) /\ set_wf k s' /\
    write_post (fs_buffer s) (byte_offset fr) (fv_payload fr) policy (fs_buffer s') o /\
    total_len s' = (if more_fragments fr then total_len s
                    else Some (unwrap_or (byte_end fr) (total_len s))) /\
    conflicting_bytes s' = conflicting_bytes s + conflicting o /\
    last_seen s' = Z.max (last_seen s) now.
Proof.
  intros [S1 S2 S3 S4 S5 S6 S7 S8 S9] Hfr Hend. destruct (byte_end_eq fr Hfr Hend) as [He Hb].
  unfold absorb. destruct (write_ok (fs_buffer s) (byte_offset fr) (fv_payload fr) policy S1)
    as (b & o & -> & Hp); [unfold MAX_DATAGRAM_LEN, U64_MAX in *; lia|].
  simpl. eexists _, _. split; [done|]. simpl. split; [|split_and!; try done; zcase; lia].
  split; simpl; try done.
  - apply Hp.
  - by rewrite (wp_base _ _ _ _ _ _ Hp).
  - by rewrite (wp_byte_limit _ _ _ _ _ _ Hp).
  - by rewrite (wp_range_limit _ _ _ _ _ _ Hp).
  - intros n Hn. destruct (more_fragments fr); [by apply S5|].
    destruct (total_len s) as [t|] eqn:Et; simplify_eq; simpl; [by apply S5|lia].
  - pose proof (wp_range_count _ _ _ _ _ _ Hp). lia.
Qed.

Lemma extract_ok k s :
  set_wf k s -> is_complete s = true ->
  exists r, extract s = Some r /\ total_len s = Some (len (re_data r)) /\
    (forall j, 0 <= j < len (re_data r) ->
      re_data r !! Z.to_nat j = byte_at (fs_buffer s) j /\ is_Some (byte_at (fs_buffer s) j)) /\
    re_source r = fk_source k /\ re_destination r = fk_destination k /\
    re_protocol r = fk_protocol k /\ re_conflicting_bytes r = conflicting_bytes s.
Proof.
  intros [S1 S2 S3 S4 S5 S6 S7 S8 S9] Hc. unfold is_complete in Hc. unfold extract.
  destruct (total_len s) as [n|]; [|done]. bsimpl. pose proof (S5 n eq_refl) as Hn. simpl.
  destruct (drain_ok (fs_buffer s) n [] S1) as (b' & out & m & -> & [_ Hm _ _ _ _ (taken & -> & Hl & Ht)]).
  simpl in *. rewrite S2 in *. eexists. split; [done|]. simpl.
  assert (m = n) as -> by lia. split_and!; try done; [by rewrite Hl|].
  intros j Hj. rewrite Hl in Hj. split.
  - by rewrite (Ht j) by lia.
  - apply byte_at_covered; [done|]. apply contiguous_end_covered; [done|]. rewrite S2. lia.
Qed.

(** What a push does to the set of its own key and to the others. *)
Record push_post (d : Defragmenter) (fr : FragmentView) (now : Z) (policy : OverlapPolicy)
    (d' : Defragmenter) (out : option Reassembled) : Prop := {
  pp_wf : defrag_wf d';
  pp_config : same_defrag_config d d';
  pp_balance : dbalance d' = dbalance d;
  pp_others : forall k s, k <> key_of fr -> sets d' !! k = Some s -> sets d !! k = Some s;
  pp_own : (MAX_DATAGRAM_LEN < byte_end fr /\ out = None /\
      (forall s, sets d' !! key_of fr = Some s -> sets d !! key_of fr = Some s)) \/
    byte_end fr <= MAX_DATAGRAM_LEN /\
    exists s s' o, (sets d !! key_of fr = Some s \/ s = fresh_set fr now) /\
      (forall s0, sets d !! key_of fr = Some s0 -> set_idle now s0 < timeout d -> s = s0) /\
      (sets d !! key_of fr = None -> s = fresh_set fr now) /\
      set_wf (key_of fr) s /\ absorb s fr now policy = Some (s', o) /\
      if is_complete s' then sets d' !! key_of fr = None /\ extract s' = out /\ out <> None
      else sets d' !! key_of fr = Some s' /\ out = None
}.

Lemma defrag_push_ok d fr now policy :
  defrag_wf d -> fragment_ok fr ->
  exists d' out, push d fr now policy = Some (d', out) /\ push_post d fr now policy d' out.
Proof.
  intros [Hd Hcap] Hfr. unfold push. set (d0 := count_fragments d 1 0 0).
  destruct (defrag_maybe_sweep_ok d0 now Hd) as (Hd1 & Hc1 & F1 & B1 & K1).
  set (d1 := maybe_sweep d0 now) in *. clearbody d1. simpl in F1, K1.
  assert (Hcap1 : active_sets d1 <= max_sets d1).
  { destruct Hc1 as [-> _]. pose proof (map_subseteq_size _ _ F1). unfold active_sets in *. simpl. lia. }
  destruct (Z.ltb_spec MAX_DATAGRAM_LEN (byte_end fr)) as [Hbig|Hend].
  { do 2 eexists. split; [done|]. split; try done.
    - intros k s _ Hs. by eapply lookup_weaken.
    - left. split_and!; try done. intros s Hs. by eapply lookup_weaken. }
  set (d2 := if is_misaligned fr then _ else d1).
  assert (H2 : sets d2 = sets d1 /\ defrag_wf d2 /\ same_defrag_config d d2 /\ dbalance d2 = dbalance d).
  { unfold d2. destruct (is_misaligned fr); by split_and!. }
  clearbody d2. destruct H2 as (F2 & Hw2 & Hc2 & B2).
  destruct (ensure_set_ok d2 fr now Hw2) as (Hw3 & Hc3 & B3 & Hk3 & Ho3).
  set (d3 := ensure_set d2 fr now) in *. clearbody d3. rewrite F2 in Hk3, Ho3.
  set (s := unwrap_or _ _) in Hk3. rewrite Hk3.
  destruct Hw3 as [(Hm3 & Hs3 & Hi3) Hcap3].
  destruct (absorb_ok _ _ fr now policy (Hs3 _ _ Hk3) Hfr Hend)
    as (s' & o & E & Hws' & _). rewrite E. simpl.
  assert (Hsame : same_defrag_config d d3) by (destruct Hc2 as (?&?&?), Hc3 as (?&?&?); split_and!; congruence).
  assert (Hoth : forall k x, k <> key_of fr -> sets d3 !! k = Some x -> sets d !! k = Some x).
  { intros k x Hne Hx. eapply lookup_weaken; [by eapply Ho3|done]. }
  assert (Hprev : (sets d !! key_of fr = Some s \/ s = fresh_set fr now) /\
      (forall s0, sets d !! key_of fr = Some s0 -> set_idle now s0 < timeout d -> s = s0) /\
      (sets d !! key_of fr = None -> s = fresh_set fr now)).
  { unfold s. split_and!.
    - destruct (sets d1 !! key_of fr) as [x|] eqn:Ex; [left|by right]. exact (lookup_weaken _ _ _ _ Ex F1).
    - intros s0 Hs0 Hi. by rewrite (K1 _ _ Hs0 Hi).
    - intros Hn. by rewrite (lookup_weaken_None _ _ _ Hn F1). }
  destruct Hprev as (P1 & P2 & P3).
  destruct (is_complete s') eqn:Ec; simpl.
  - destruct (extract_ok _ _ Hws' Ec) as (r & Er & _). rewrite Er. simpl.
    do 2 eexists. split; [done|]. split; simpl.
    + split; [split_and!; simpl; [done|by apply map_Forall_delete|by apply map_Forall_delete]|].
      unfold active_sets in *. simpl. rewrite (map_size_delete_Z _ _ _ Hk3). lia.
    + done.
    + rewrite <- B2, <- B3. unfold dbalance, active_sets. simpl.
      rewrite (map_size_delete_Z _ _ _ Hk3). lia.
    + intros k x Hne Hx. rewrite lookup_delete_ne in Hx by done. eauto.
    + right. split; [done|]. exists s, s', o. rewrite Ec. split_and!; try done; [by apply Hs3|].
      apply lookup_delete_eq.
  - do 2 eexists. split; [done|]. split; simpl.
    + split; [split_and!; simpl; [done|by apply map_Forall_insert_2|by apply map_Forall_insert_2]|].
      unfold active_sets in *. simpl. by rewrite map_size_insert, Hk3.
    + done.
    + rewrite <- B2, <- B3. unfold dbalance, active_sets. simpl. by rewrite map_size_insert, Hk3.
    + intros k x Hne Hx. rewrite lookup_insert_ne in Hx by done. eauto.
    + right. split; [done|]. exists s, s', o. rewrite Ec. split_and!; try done; [by apply Hs3|].
      apply lookup_insert_eq.
Qed.

(** ** Runs *)

(** A fragment with the time it was captured and the policy of its destination. *)
Record Arrival := mkArrival {
  ar_fragment : FragmentView;
  ar_now : Z;
  ar_policy : OverlapPolicy
}.

(** The datagrams that come out, with the key of the fragment that completed them. *)
Fixpoint run_defrag (d : Defragmenter) (l : list Arrival) :
    option (Defragmenter * list (FragmentKey * Reassembled)) :=
  match l with
  | [] => Some (d, [])
  | a :: l =>
      '(d, out) ← push d (ar_fragment a) (ar_now a) (ar_policy a);
      '(d, outs) ← run_defrag d l;
      Some (d, match out with Some r => (key_of (ar_fragment a), r) :: outs | None => outs end)
  end.

Lemma run_defrag_ok l d :
  defrag_wf d -> Forall (fun a => fragment_ok (ar_fragment a)) l ->
  exists d' outs, run_defrag d l = Some (d', outs) /\ defrag_wf d' /\ same_defrag_config d d' /\
    dbalance d' = dbalance d.
Proof.
  intros Hd Hl. revert d Hd. induction Hl as [|a l Ha _ IH]; intros d Hd; [by exists d, []|].
  destruct (defrag_push_ok d _ (ar_now a) (ar_policy a) Hd Ha) as (d1 & out & E & [Hw (C1 & C2 & C3) B _ _]).
  destruct (IH d1 Hw) as (d2 & outs & E2 & Hw2 & (D1 & D2 & D3) & B2). simpl. rewrite E. simpl.
  rewrite E2. simpl. do 2 eexists. split; [done|]. split; [done|].
  split; [split_and!; congruence|congruence].
Qed.

Lemma new_defrag_wf c : defrag_wf (new c) /\ dbalance (new c) = 0.
Proof.
  split; [|done]. split; [split_and!; simpl; [lia|done|done]|]. unfold active_sets. simpl.
  rewrite map_size_empty. lia.
Qed.

(** ** Fragments of one datagram *)

(** The byte of a datagram at an offset. *)
Definition datagram_at (D : list Z) (i : Z) : option Z := if 0 <=? i then D !! Z.to_nat i else None.

(** [fr] carries bytes of [D] where they belong, and if it claims to be the last one, it is. *)
Definition fragment_of (D : list Z) (fr : FragmentView) : Prop :=
  (forall j x, fv_payload fr !! j = Some x -> datagram_at D (byte_offset fr + Z.of_nat j) = Some x) /\
  (more_fragments fr = false -> byte_end fr = len D).

(** A set that holds bytes of [D] only. *)
Record set_of (D : list Z) (s : FragmentSet) : Prop := {
  so_bytes : forall i x, byte_at (fs_buffer s) i = Some x -> datagram_at D i = Some x;
  so_total : forall n, total_len s = Some n -> n = len D;
  so_conflicts : conflicting_bytes s = 0
}.

Lemma fresh_set_of D fr now : set_of D (fresh_set fr now).
Proof. split; [|done|done]. intros i x. done. Qed.

Lemma absorb_set_of D k s fr now policy s' o :
  set_wf k s -> fragment_ok fr -> byte_end fr <= MAX_DATAGRAM_LEN -> fragment_of D fr -> set_of D s ->
  absorb s fr now policy = Some (s', o) -> set_of D s'.
Proof.
  intros Hw Hfr Hend [Hf1 Hf2] [S1 S2 S3] E.
  destruct (absorb_ok k s fr now policy Hw Hfr Hend) as (s1 & o1 & E1 & _ & Hp & Ht & Hc & _).
  rewrite E in E1. simplify_eq. split.
  - by apply (write_agrees _ _ _ _ _ _ _ Hp).
  - intros n Hn. rewrite Ht in Hn. destruct (more_fragments fr); [by apply S2|].
    simplify_eq. destruct (total_len s) as [t|]; simpl; [by apply S2|by apply Hf2].
  - rewrite Hc, S3, (wp_conflicting _ _ _ _ _ _ Hp), count_false; [done|].
    intros i Hi. unfold conflicts_at. destruct (byte_at (fs_buffer s) i) as [x|] eqn:Ex; [|done].
    apply bool_decide_eq_false_2. intros Hne. apply Hne.
    destruct (fv_payload fr !! Z.to_nat (i - byte_offset fr)) as [y|] eqn:Ey.
    + specialize (Hf1 _ _ Ey). apply S1 in Ex. unfold lower in Hi.
      replace (byte_offset fr + _) with i in Hf1 by lia. congruence.
    + apply lookup_ge_None in Ey. exfalso. destruct (byte_end_eq fr Hfr Hend) as [He _].
      unfold upper, lower, byte_end, MAX_DATAGRAM_LEN, U64_MAX, sat_add in *.
      destruct (_ && _); lia.
Qed.

(** The datagram a set of [D] is extracted to is [D]. *)
Lemma extract_set_of D k s r :
  set_wf k s -> set_of D s -> is_complete s = true -> extract s = Some r ->
  re_data r = D /\ re_conflicting_bytes r = 0.
Proof.
  intros Hw [S1 S2 S3] Hc E. destruct (extract_ok k s Hw Hc) as (r' & E' & Ht & Hj & _ & _ & _ & Hz).
  rewrite E in E'. simplify_eq. split; [|congruence]. apply S2 in Ht.
  apply list_eq_same_length with (n := length D); [lia|lia|].
  intros i x y Hi Hx Hy. destruct (Hj (Z.of_nat i) ltac:(lia)) as [H1 [z Hz']].
  rewrite Nat2Z.id, Hx, Hz' in H1. apply S1 in Hz'. unfold datagram_at in Hz'.
  rewrite (proj2 (Z.leb_le _ _)) in Hz' by lia. rewrite Nat2Z.id in Hz'. congruence.
Qed.

Lemma run_defrag_faithful D k l d :
  defrag_wf d -> (forall s, sets d !! k = Some s -> set_of D s) ->
  Forall (fun a => fragment_ok (ar_fragment a) /\
    (key_of (ar_fragment a) = k -> fragment_of D (ar_fragment a))) l ->
  forall d' outs, run_defrag d l = Some (d', outs) ->
  forall r, (k, r) ∈ outs -> re_data r = D /\ re_conflicting_bytes r = 0.
Proof.
  intros Hd Hk Hl. revert d Hd Hk. induction Hl as [|a l [Ha Hfr] _ IH]; intros d Hd Hk d' outs E r Hr.
  { simpl in E. simplify_eq. set_solver. }
  destruct (defrag_push_ok d _ (ar_now a) (ar_policy a) Hd Ha) as (d1 & out & E1 & [Hw _ _ Ho Hown]).
  simpl in E. rewrite E1 in E. simpl in E.
  destruct (run_defrag d1 l) as [[d2 outs2]|] eqn:E2; [|done]. simpl in E. simplify_eq.
  assert (Hnext : (forall s, sets d1 !! k = Some s -> set_of D s) /\
    (forall r, out = Some r -> key_of (ar_fragment a) = k ->
      re_data r = D /\ re_conflicting_bytes r = 0)).
  { destruct (decide (key_of (ar_fragment a) = k)) as [<-|Hne]; cycle 1.
    { split; [|done]. intros s Hs. apply Hk, (Ho k s); congruence. }
    specialize (Hfr eq_refl). destruct Hown as [(_ & -> & Hsub)|(Hend & s & s' & o & Hs & _ & _ & Hsw & Eab & Hfin)].
    { split; [|done]. eauto. }
    assert (Hof : set_of D s) by (destruct Hs as [Hs| ->]; [by eauto|apply fresh_set_of]).
    pose proof (absorb_set_of D _ _ _ _ _ _ _ Hsw Ha Hend Hfr Hof Eab) as Hof'.
    destruct (absorb_ok _ _ _ (ar_now a) (ar_policy a) Hsw Ha Hend) as (s1 & o1 & Es1 & Hsw' & _).
    rewrite Eab in Es1. simplify_eq.
    destruct (is_complete s1) eqn:Ec.
    - destruct Hfin as (-> & Ex & _). split; [done|]. intros r' Hr' _. rewrite <- Ex in Hr'.
      by eapply extract_set_of.
    - destruct Hfin as (-> & ->). split; [|done]. intros ? [= <-]. done. }
  destruct Hnext as [Hk1 Hout]. destruct out as [r0|].
  - apply elem_of_cons in Hr as [Hr|Hr]; [|by eapply IH]. simplify_eq. by eapply Hout.
  - by eapply IH.
Qed.

(** ** Completion *)

(** A fragment is stored whole when there is a range to spare for it. *)
Lemma absorb_covers k s fr now policy s' o i :
  set_wf k s -> fragment_ok fr -> byte_end fr <= MAX_DATAGRAM_LEN ->
  range_count (fs_buffer s) < MAX_HOLES_PER_DATAGRAM ->
  absorb s fr now policy = Some (s', o) ->
  is_Some (byte_at (fs_buffer s) i) \/ byte_offset fr <= i < byte_end fr ->
  is_Some (byte_at (fs_buffer s') i).
Proof.
  intros Hw Hfr Hend Hrc E Hi.
  destruct (absorb_ok k s fr now policy Hw Hfr Hend) as (s1 & o1 & E1 & _ & Hp & _).
  rewrite E in E1. simplify_eq. rewrite (wp_bytes _ _ _ _ _ _ Hp). unfold write_at.
  destruct (byte_end_eq fr Hfr Hend) as [He Hb]. destruct (_ && _) eqn:Ein.
  - bsimpl. assert (Hp' : is_Some (fv_payload fr !! Z.to_nat (i - byte_offset fr))).
    { apply lookup_lt_is_Some. unfold upper, lower, sat_add, MAX_DATAGRAM_LEN, U64_MAX in *.
      destruct (_ && _); lia. }
    by destruct policy, (byte_at (fs_buffer s) i).
  - destruct Hi as [Hi|Hi]; [done|]. exfalso. revert Ein. unfold upper, lower.
    rewrite (sf_base _ _ Hw), (sf_limit _ _ Hw), (sf_ranges _ _ Hw).
    replace (sat_add 0 MAX_DATAGRAM_LEN) with MAX_DATAGRAM_LEN by done. fold (byte_end fr).
    rewrite (Z.min_l (byte_end fr)) by done.
    rewrite (proj2 (Z.leb_gt _ _) Hrc). simpl. rewrite andb_true_r. zdec. done.
Qed.

(** What is known of the set of [k] while [D] is being received: the offsets in [C] are there, and
    the length is known once [fin]. *)
Definition receiving (D : list Z) (k : FragmentKey) (t0 : Z) (d : Defragmenter) (left : Z)
    (C : Z -> Prop) (fin : bool) : Prop :=
  match sets d !! k with
  | None => (forall i, ~ C i) /\ fin = false
  | Some s => set_of D s /\ (forall i, C i -> is_Some (byte_at (fs_buffer s) i)) /\
      (fin = true -> total_len s = Some (len D)) /\
      t0 <= last_seen s < t0 + timeout d /\
      range_count (fs_buffer s) + left <= MAX_HOLES_PER_DATAGRAM
  end.

Record arrival_of (D : list Z) (k : FragmentKey) (lo hi : Z) (a : Arrival) : Prop := {
  ao_ok : fragment_ok (ar_fragment a);
  ao_key : key_of (ar_fragment a) = k;
  ao_of : fragment_of D (ar_fragment a);
  ao_end : byte_end (ar_fragment a) <= MAX_DATAGRAM_LEN;
  ao_time : lo <= ar_now a < hi
}.

Definition arrival_covers (i : Z) (a : Arrival) : Prop :=
  byte_offset (ar_fragment a) <= i < byte_end (ar_fragment a).

Lemma receiving_step D k t0 d a left C fin :
  defrag_wf d -> receiving D k t0 d (left + 1) C fin -> 0 <= left < MAX_HOLES_PER_DATAGRAM ->
  arrival_of D k t0 (t0 + timeout d) a ->
  exists d' out, push d (ar_fragment a) (ar_now a) (ar_policy a) = Some (d', out) /\
    defrag_wf d' /\ timeout d' = timeout d /\
    (out <> None \/
     receiving D k t0 d' left (fun i => C i \/ arrival_covers i a)
       (fin || negb (more_fragments (ar_fragment a)))).
Proof.
  intros Hd Hr Hleft [Hok Hk Hof Hend Htm].
  destruct (defrag_push_ok d _ (ar_now a) (ar_policy a) Hd Hok)
    as (d1 & out & E & [Hw (C1 & C2 & C3) _ _ Hown]).
  exists d1, out. split_and!; try done.
  destruct Hown as [(? & _)|(_ & s & s' & o & _ & Hsame & Hnew & Hsw & Eab & Hfin)]; [lia|].
  destruct (is_complete s') eqn:Ec; [left; by destruct Hfin as (_ & _ & ?)|right].
  destruct Hfin as [Hs' _]. unfold receiving in *. rewrite Hk in *. rewrite Hs', C3.
  assert (Hs : set_of D s /\ (forall i, C i -> is_Some (byte_at (fs_buffer s) i)) /\
      (fin = true -> total_len s = Some (len D)) /\
      t0 <= Z.max (last_seen s) (ar_now a) < t0 + timeout d /\
      range_count (fs_buffer s) + (left + 1) <= MAX_HOLES_PER_DATAGRAM).
  { destruct (sets d !! k) as [s0|] eqn:Ek.
    - destruct Hr as (R1 & R2 & R3 & R4 & R5). rewrite (Hsame s0); try done; [split_and!; try done; lia|].
      unfold set_idle, duration_since. zcase; simpl; lia.
    - destruct Hr as [Hno ->]. rewrite (Hnew eq_refl). split_and!; try done; simpl; try lia.
      + intros i Hi. by destruct (Hno i).
      + unfold range_count. simpl. lia. }
  destruct Hs as (R1 & R2 & R3 & R4 & R5).
  destruct (absorb_ok _ _ _ (ar_now a) (ar_policy a) Hsw Hok Hend)
    as (s1 & o1 & Es1 & Hsw' & Hp & Ht & _ & Hls).
  rewrite Eab in Es1. simplify_eq.
  pose proof (absorb_set_of D _ _ _ _ _ _ _ Hsw Hok Hend Hof R1 Eab) as Hof'.
  split_and!; try done; try lia.
  - intros i Hi. apply (absorb_covers _ _ _ _ _ _ _ i Hsw Hok Hend ltac:(lia) Eab).
    destruct Hi; [left; by apply R2|by right].
  - intros Hf. rewrite Ht. destruct (more_fragments (ar_fragment a)).
    + rewrite orb_false_r in Hf. by apply R3.
    + f_equal. by apply (so_total _ _ Hof').
  - pose proof (wp_range_count _ _ _ _ _ _ Hp). lia.
Qed.

Lemma receiving_complete D k t0 d left C fin :
  defrag_wf d -> receiving D k t0 d left C fin ->
  (forall i, 0 <= i < len D -> C i) -> fin = true -> False.
Proof.
  intros [(_ & Hsw & Hinc) _] Hr HC ->. unfold receiving in Hr.
  destruct (sets d !! k) as [s|] eqn:Ek; [|by destruct Hr as [_ [=]]].
  destruct Hr as (_ & Hcov & Ht & _). specialize (Hinc _ _ Ek). simpl in Hinc.
  pose proof (Hsw _ _ Ek) as Hw. unfold is_complete in Hinc. rewrite Ht in Hinc by done. bsimpl.
  pose proof (contiguous_end_bounds _ (sf_buffer _ _ Hw)) as Hb. rewrite (sf_base _ _ Hw) in Hb.
  destruct (Hcov (contiguous_end (fs_buffer s))) as [x Hx]; [apply HC; lia|].
  by rewrite (contiguous_end_maximal _ (sf_buffer _ _ Hw)) in Hx.
Qed.

Lemma run_defrag_completes D k t0 l d C fin :
  defrag_wf d -> receiving D k t0 d (len l) C fin -> len l <= MAX_HOLES_PER_DATAGRAM ->
  Forall (arrival_of D k t0 (t0 + timeout d)) l ->
  (forall i, 0 <= i < len D -> C i \/ Exists (arrival_covers i) l) ->
  fin = true \/ Exists (fun a => more_fragments (ar_fragment a) = false) l ->
  exists d' outs r, run_defrag d l = Some (d', outs) /\ (k, r) ∈ outs.
Proof.
  revert d C fin. induction l as [|a l IH]; intros d C fin Hd Hr Hlen Hl Hcov Hfin.
  { exfalso. eapply (receiving_complete D k t0 d _ C fin); try done.
    - intros i Hi. destruct (Hcov i Hi) as [?|Hx]; [done|by apply Exists_nil in Hx].
    - destruct Hfin as [?|Hx]; [done|by apply Exists_nil in Hx]. }
  apply Forall_cons in Hl as [Ha Hl]. simpl in Hr, Hlen.
  destruct (receiving_step D k t0 d a (len l) C fin) as (d1 & out & E & Hw & Htm & Hout); try done.
  { by replace (len l + 1) with (Z.of_nat (S (length l))) by lia. }
  { lia. }
  simpl. rewrite E. simpl. destruct out as [r|].
  - destruct (run_defrag_ok l d1 Hw) as (d2 & outs & -> & _).
    { eapply Forall_impl; [exact Hl|]. by intros ? []. }
    simpl. do 3 eexists. split; [done|]. rewrite (ao_key _ _ _ _ _ Ha). apply elem_of_cons; by left.
  - destruct Hout as [?|Hr']; [done|]. rewrite <- Htm in Hl.
    destruct (IH d1 _ _ Hw Hr' ltac:(lia) Hl) as (d2 & outs & r & -> & Hin).
    + intros i Hi. destruct (Hcov i Hi) as [?|Hx]; [by left; left|].
      apply Exists_cons in Hx as [?|?]; [by left; right|by right].
    + destruct Hfin as [->|Hx]; [by left|]. apply Exists_cons in Hx as [->|?]; [|by right].
      left. apply orb_true_r.
    + simpl. eauto.
Qed.

End defrag_lemmas.

(** ** Properties *)

(** C22: the fragments of a datagram always reassemble to it: at most 128 fragments that carry bytes
    of [D], in any order, with duplicates and overlaps, that cover [D], include its last fragment and
    arrive within the timeout of each other, make the defragmenter put out [D], whatever else it was
    holding, whichever overlap policies are used, and without a conflict being reported. *)
Theorem fragments_reassemble_to_datagram `{!HashOrder FragmentKey} (d : Defragmenter)
    (k : FragmentKey) (D : list Z) (t0 : Z) (arrivals : list Arrival) :
  defrag_wf d -> sets d !! k = None ->
  len arrivals <= MAX_HOLES_PER_DATAGRAM ->
  Forall (arrival_of D k t0 (t0 + timeout d)) arrivals ->
  (forall i, 0 <= i < len D -> Exists (arrival_covers i) arrivals) ->
  Exists (fun a => more_fragments (ar_fragment a) = false) arrivals ->
  exists d' outs r, run_defrag d arrivals = Some (d', outs) /\ (k, r) ∈ outs /\
    re_data r = D /\ re_conflicting_bytes r = 0.
Proof.
  intros Hd Hk Hlen Hall Hcov Hfin.
  destruct (run_defrag_completes D k t0 arrivals d (fun _ => False) false Hd)
    as (d' & outs & r & E & Hr); try done; [|by eauto|by right|].
  { unfold receiving. rewrite Hk. by split; [intros i []|]. }
  exists d', outs, r. split; [done|]. split; [done|].
  eapply (run_defrag_faithful D k arrivals d); try done; [by rewrite Hk|].
  eapply Forall_impl; [exact Hall|]. intros a Ha. split; [apply Ha|intros _; apply Ha].
Qed.

(** Nothing is invented: when every fragment seen under a key carries bytes of one datagram [D],
    every datagram that comes out under that key is [D], whatever is interleaved with it and whatever
    has been evicted or timed out. *)
Theorem defrag_faithful `{!HashOrder FragmentKey} (c : ReassemblyConfig) (k : FragmentKey)
    (D : list Z) (arrivals : list Arrival) :
  Forall (fun a => fragment_ok (ar_fragment a)) arrivals ->
  Forall (fun a => key_of (ar_fragment a) = k -> fragment_of D (ar_fragment a)) arrivals ->
  exists d outs, run_defrag (new c) arrivals = Some (d, outs) /\
    forall r, (k, r) ∈ outs -> re_data r = D /\ re_conflicting_bytes r = 0.
Proof.
  intros Hok Hof. destruct (new_defrag_wf c) as [Hw _].
  destruct (run_defrag_ok arrivals (new c) Hw Hok) as (d & outs & E & _).
  exists d, outs. split; [done|]. eapply (run_defrag_faithful D k arrivals (new c)); try done.
  apply Forall_and. done.
Qed.

(** Whatever fragments arrive, the defragmenter never panics, never holds more than
    [max_fragment_sets] part-assembled datagrams nor more than 65535 bytes for each, every datagram
    it holds is still incomplete, and every reassembly it started is held or counted once as
    completed, timed out or evicted. *)
Theorem defrag_bounded `{!HashOrder FragmentKey} (c : ReassemblyConfig) (arrivals : list Arrival) :
  Forall (fun a => fragment_ok (ar_fragment a)) arrivals ->
  exists d outs, run_defrag (new c) arrivals = Some (d, outs) /\
    active_sets d <= Z.max (max_fragment_sets c) 1 /\
    buffered_bytes d <= MAX_DATAGRAM_LEN * Z.max (max_fragment_sets c) 1 /\
    map_Forall (fun _ s => is_complete s = false) (sets d) /\
    n_started (counters d) =
      active_sets d + n_completed (counters d) + n_timed_out (counters d) + n_evicted (counters d).
Proof.
  intros Hok. destruct (new_defrag_wf c) as [Hw Hb].
  destruct (run_defrag_ok arrivals (new c) Hw Hok)
    as (d & outs & E & [(_ & Hs & Hi) Hcap] & (C1 & _ & _) & B).
  exists d, outs. simpl in C1. rewrite C1 in Hcap. split_and!; try done.
  - unfold buffered_bytes. etrans; [apply (map_zsum_le_size _ _ MAX_DATAGRAM_LEN)|].
    + intros k s Hk. destruct (Hs _ _ Hk) as [S1 _ <- _ _ _ _ _ _].
      by apply buffered_bytes_bounds.
    + unfold active_sets, MAX_DATAGRAM_LEN in *. lia.
  - rewrite Hb in B. unfold dbalance in B. lia.
Qed.

(** ** Witnesses *)

Module demo.

Definition datagram : list Z := [1; 2; 3; 4; 5; 6; 7; 8; 9; 10; 11; 12; 13; 14; 15; 16; 17; 18].

(** The part of the datagram from [8 * offset], [n] bytes long. *)
Definition fragment (offset n : Z) (more : bool) : FragmentView :=
  mkFragmentView (V4 1) (V4 2) 77 17 offset more
    (take (Z.to_nat n) (drop (Z.to_nat (8 * offset)) datagram)).

(** Last first, then an overlapping pair. *)
Definition arrivals : list Arrival :=
  [mkArrival (fragment 2 2 false) (secs 3) First; mkArrival (fragment 0 8 true) (secs 1) Last;
   mkArrival (fragment 0 16 true) (secs 2) First].

Definition key : FragmentKey := mkFragmentKey (V4 1) (V4 2) 77 17.

Lemma fragment_of_datagram offset n more :
  0 <= offset -> (more = false -> 8 * offset + n = 18) -> 0 <= n ->
  n <= 18 - 8 * offset -> fragment_of datagram (fragment offset n more).
Proof.
  intros Ho Hm Hn Hle. split.
  - intros j x Hj. unfold fragment in Hj. simpl fv_payload in Hj.
    apply lookup_take_Some in Hj as [Hj ?]. rewrite lookup_drop in Hj.
    unfold datagram_at, byte_offset. simpl fv_offset. zdec. rewrite <- Hj. f_equal. lia.
  - simpl more_fragments. intros Hf. specialize (Hm Hf). unfold byte_end, byte_offset, sat_add.
    simpl fv_offset. simpl fv_payload. rewrite length_take, length_drop.
    replace (length datagram) with 18%nat by done. unfold U64_MAX. lia.
Qed.

Lemma arrivals_ok : Forall (arrival_of datagram key (secs 1) (secs 61)) arrivals.
Proof.
  repeat constructor; try done; apply fragment_of_datagram; done.
Qed.

End demo.

Lemma fragments_reassemble_to_datagram_witness :
  exists d' outs r, run_defrag (new ReassemblyConfig_default) demo.arrivals = Some (d', outs) /\
    (demo.key, r) ∈ outs /\ re_data r = demo.datagram.
Proof.
  destruct (fragments_reassemble_to_datagram (new ReassemblyConfig_default) demo.key demo.datagram
    (secs 1) demo.arrivals) as (d & outs & r & E & Hin & Hr & _).
  - apply new_defrag_wf.
  - reflexivity.
  - vm_compute. discriminate.
  - replace (secs 1 + timeout (new ReassemblyConfig_default)) with (secs 61) by reflexivity.
    exact demo.arrivals_ok.
  - intros i Hi. change (len demo.datagram) with 18 in Hi. unfold demo.arrivals.
    destruct (Z.ltb_spec i 16).
    + apply Exists_cons_tl, Exists_cons_tl, Exists_cons_hd. unfold arrival_covers.
      change (0 <= i < 16). lia.
    + apply Exists_cons_hd. unfold arrival_covers. change (16 <= i < 18). lia.
  - apply Exists_cons_hd. reflexivity.
  - exists d, outs, r. split; [exact E|]. split; [exact Hin|exact Hr].
Defined.

Lemma defrag_faithful_witness :
  exists d outs, run_defrag (new ReassemblyConfig_default) demo.arrivals = Some (d, outs) /\
    forall r, (demo.key, r) ∈ outs -> re_data r = demo.datagram /\ re_conflicting_bytes r = 0.
Proof.
  apply (defrag_faithful ReassemblyConfig_default demo.key demo.datagram demo.arrivals).
  - eapply Forall_impl; [exact demo.arrivals_ok|]. intros a Ha. apply Ha.
  - eapply Forall_impl; [exact demo.arrivals_ok|]. intros a Ha _. apply Ha.
Defined.

Lemma defrag_bounded_witness :
  exists d outs, run_defrag (new ReassemblyConfig_default) demo.arrivals = Some (d, outs) /\
    active_sets d <= 4096.
Proof.
  destruct (defrag_bounded ReassemblyConfig_default demo.arrivals) as (d & outs & E & H & _).
  - eapply Forall_impl; [exact demo.arrivals_ok|]. intros a Ha. apply Ha.
  - exists d, outs. split; [exact E|exact H].
Defined.
