(* ===== verification/Normalize.v ===== *)
(** Normalization: [crates/reassembly/src/normalize.rs].

    Percent decoding, repeated decoding, path collapsing and their composition, with every flag they
    raise. Loops over an index are recursion over the rest of the input. *)

From S2P Require Import Prelude.

(** ** Data *)

Record NormalizationFlags := mkFlags {
  percent_encoded : bool;
  double_encoded : bool;
  invalid_escape : bool;
  null_byte : bool;
  traversal : bool;
  above_root : bool;
  self_reference : bool;
  empty_segment : bool;
  backslash : bool;
  decode_limit_reached : bool
}.

#[global] Instance NormalizationFlags_eq_dec : EqDecision NormalizationFlags.
Proof. solve_decision. Defined.

Definition Flags_default : NormalizationFlags :=
  mkFlags false false false false false false false false false false.

Definition any (f : NormalizationFlags) : bool := bool_decide (f <> Flags_default).

Definition merge (f g : NormalizationFlags) : NormalizationFlags :=
  mkFlags (percent_encoded f || percent_encoded g) (double_encoded f || double_encoded g)
    (invalid_escape f || invalid_escape g) (null_byte f || null_byte g)
    (traversal f || traversal g) (above_root f || above_root g)
    (self_reference f || self_reference g) (empty_segment f || empty_segment g)
    (backslash f || backslash g) (decode_limit_reached f || decode_limit_reached g).

Record NormalizeOptions := mkNormalizeOptions {
  decode_rounds : nat;
  collapse : bool;
  backslash_is_separator : bool
}.

Definition NormalizeOptions_default : NormalizeOptions := mkNormalizeOptions 2 true false.

Record Normalized := mkNormalized {
  bytes : list Z;
  rounds_applied : nat;
  flags : NormalizationFlags
}.

(** The characters the code names. *)
Definition PERCENT : Z := 37.
Definition DOT : Z := 46.
Definition SLASH : Z := 47.
Definition BACKSLASH : Z := 92.

(** ** Percent decoding *)

Definition hex_value (byte : Z) : option Z :=
  if (48 <=? byte) && (byte <=? 57) then Some (byte - 48)
  else if (97 <=? byte) && (byte <=? 102) then Some (byte - 97 + 10)
  else if (65 <=? byte) && (byte <=? 70) then Some (byte - 65 + 10)
  else None.

Definition flag_decoded (f : NormalizationFlags) (byte : Z) : NormalizationFlags :=
  mkFlags true (double_encoded f) (invalid_escape f) (null_byte f || (byte =? 0)) (traversal f)
    (above_root f) (self_reference f) (empty_segment f) (backslash f) (decode_limit_reached f).

Definition flag_invalid (f : NormalizationFlags) : NormalizationFlags :=
  mkFlags (percent_encoded f) (double_encoded f) true (null_byte f) (traversal f)
    (above_root f) (self_reference f) (empty_segment f) (backslash f) (decode_limit_reached f).


(** [percent_decode]. *)
Fixpoint percent_decode (input : list Z) : list Z * NormalizationFlags :=
  match input with
  | [] => ([], Flags_default)
  | c :: rest =>
      if negb (c =? PERCENT) then
        let '(out, f) := percent_decode rest in (c :: out, f)
      else
        match rest with
        | h :: l :: rest' =>
            match hex_value h, hex_value l with
            | Some high, Some low =>
                let byte := Z.lor (Z.shiftl high 4 mod 256) low in
                let '(out, f) := percent_decode rest' in (byte :: out, flag_decoded f byte)
            | _, _ => let '(out, f) := percent_decode rest in (PERCENT :: out, flag_invalid f)
            end
        | _ => let '(out, f) := percent_decode rest in (PERCENT :: out, flag_invalid f)
        end
  end.

Definition set_double (f : NormalizationFlags) : NormalizationFlags :=
  mkFlags (percent_encoded f) true (invalid_escape f) (null_byte f) (traversal f)
    (above_root f) (self_reference f) (empty_segment f) (backslash f) (decode_limit_reached f).

Definition set_limit (f : NormalizationFlags) : NormalizationFlags :=
  mkFlags (percent_encoded f) (double_encoded f) (invalid_escape f) (null_byte f) (traversal f)
    (above_root f) (self_reference f) (empty_segment f) (backslash f) true.

(** The [for round in 0..rounds] loop of [percent_decode_repeatedly]; [left] passes remain. *)
Fixpoint decode_loop (left round : nat) (current : list Z) (applied : nat) (f : NormalizationFlags) :
    list Z * nat * NormalizationFlags :=
  match left with
  | O => (current, applied, f)
  | S left' =>
      let '(decoded, round_flags) := percent_decode current in
      if bool_decide (decoded = current) then (current, applied, f)
      else
        let f := merge f round_flags in
        let f := if (0 <? round)%nat then set_double f else f in
        decode_loop left' (S round) decoded (S round) f
  end.

(** [percent_decode_repeatedly]. *)
Definition percent_decode_repeatedly (input : list Z) (rounds : nat) : Normalized :=
  let '(current, applied, f) := decode_loop rounds 0 input 0 Flags_default in
  let f := if (applied =? rounds)%nat && (0 <? rounds)%nat then
             if bool_decide ((percent_decode current).1 <> current) then set_limit f else f
           else f in
  mkNormalized current applied f.

(** ** Path collapsing *)

(** [slice::split] on the separator: always at least one part. *)
Fixpoint split (input : list Z) : list (list Z) :=
  match input with
  | [] => [[]]
  | c :: rest =>
      if c =? SLASH then [] :: split rest
      else match split rest with
           | part :: parts => (c :: part) :: parts
           | [] => [[c]]
           end
  end.

Definition map_separators (backslash_is_separator : bool) (input : list Z) : list Z :=
  if backslash_is_separator then (fun b => if b =? BACKSLASH then SLASH else b) <$> input else input.

Definition is_empty_part (part : list Z) : bool := bool_decide (part = []).
Definition is_dot (part : list Z) : bool := bool_decide (part = [DOT]).
Definition is_dotdot (part : list Z) : bool := bool_decide (part = [DOT; DOT]).

(** What the segment loop has so far: the stack, last segment first, and three flags. *)
Record Walk := mkWalk {
  stack : list (list Z);
  walk_traversal : bool;
  walk_above : bool;
  walk_self : bool
}.

(** One part of the loop over the segments. *)
Definition walk_part (w : Walk) (part : list Z) : Walk :=
  if is_empty_part part then w
  else if is_dot part then mkWalk (stack w) (walk_traversal w) (walk_above w) true
  else if is_dotdot part then
    match stack w with
    | [] => mkWalk [] true true (walk_self w)
    | _ :: st => mkWalk st true (walk_above w) (walk_self w)
    end
  else mkWalk (part :: stack w) (walk_traversal w) (walk_above w) (walk_self w).

Definition walk (parts : list (list Z)) : Walk := foldl walk_part (mkWalk [] false false false) parts.

(** The segments joined by separators. *)
Fixpoint join (segments : list (list Z)) : list Z :=
  match segments with
  | [] => []
  | [s] => s
  | s :: rest => s ++ SLASH :: join rest
  end.

(** An empty part that is neither the first nor the last. *)
Definition has_empty_segment (parts : list (list Z)) : bool :=
  existsb is_empty_part (removelast (tail parts)).

Definition names_directory (parts : list (list Z)) : bool :=
  match last parts with
  | Some part => is_empty_part part || is_dot part || is_dotdot part
  | None => false
  end.

(** [out.ends_with(b"/")]. *)
Definition ends_with_slash (out : list Z) : bool := bool_decide (last out = Some SLASH).

(** The canonical bytes: a leading separator, the segments, and a trailing separator that is never
    invented for a path that resolved away to nothing. *)
Definition render (absolute trailing : bool) (segments : list (list Z)) : list Z :=
  let out := (if absolute then [SLASH] else []) ++ join segments in
  if trailing && negb (bool_decide (out = [])) && negb (ends_with_slash out)
  then out ++ [SLASH] else out.

(** [collapse_path]. *)
Definition collapse_path (input : list Z) (backslash_is_separator : bool) :
    list Z * NormalizationFlags :=
  let saw_backslash := backslash_is_separator && bool_decide (BACKSLASH ∈ input) in
  let normalized := map_separators backslash_is_separator input in
  match normalized with
  | [] => ([], mkFlags false false false false false false false false saw_backslash false)
  | c :: _ =>
      let absolute := c =? SLASH in
      let parts := split normalized in
      let trailing := names_directory parts in
      let w := walk parts in
      (render absolute trailing (reverse (stack w)),
       mkFlags false false false false (walk_traversal w) (walk_above w) (walk_self w)
              (has_empty_segment parts) saw_backslash false)
  end.

(** [normalize_path]. *)
Definition normalize_path (input : list Z) (options : NormalizeOptions) : Normalized :=
  let decoded := percent_decode_repeatedly input (decode_rounds options) in
  if negb (collapse options) then decoded
  else
    let '(collapsed, f) := collapse_path (bytes decoded) (backslash_is_separator options) in
    mkNormalized collapsed (rounds_applied decoded) (merge (flags decoded) f).

(** ** Percent decoding: lemmas *)

(** Induction along the scan of [percent_decode]. *)
Lemma percent_decode_ind (P : list Z -> list Z * NormalizationFlags -> Prop) :
  P [] ([], Flags_default) ->
  (forall c rest out f, c <> PERCENT -> percent_decode rest = (out, f) -> P rest (out, f) ->
    P (c :: rest) (c :: out, f)) ->
  (forall h l rest high low out f, hex_value h = Some high -> hex_value l = Some low ->
    percent_decode rest = (out, f) -> P rest (out, f) ->
    P (PERCENT :: h :: l :: rest)
      (Z.lor (Z.shiftl high 4 mod 256) low :: out,
       flag_decoded f (Z.lor (Z.shiftl high 4 mod 256) low))) ->
  (forall rest out f, percent_decode rest = (out, f) -> P rest (out, f) ->
    P (PERCENT :: rest) (PERCENT :: out, flag_invalid f)) ->
  forall input, P input (percent_decode input).
Proof.
  intros Hnil Hplain Hesc Hbad input.
  induction input as [input IH] using (induction_ltof1 _ (@length Z)). unfold ltof in IH.
  destruct input as [|c rest]; [done|].
  assert (Hr : P rest (percent_decode rest)) by (apply IH; simpl; lia).
  cbn [percent_decode]. destruct (Z.eqb_spec c PERCENT) as [->|Hc]; cbn [negb]; cycle 1.
  { destruct (percent_decode rest) as [out f] eqn:E. eauto. }
  assert (Hb : P (PERCENT :: rest) (let '(out, f) := percent_decode rest in
    (PERCENT :: out, flag_invalid f))) by (destruct (percent_decode rest) eqn:E; eauto).
  destruct rest as [|h [|l rest']]; try done.
  destruct (hex_value h) eqn:Eh; [|done]. destruct (hex_value l) eqn:El; [|done].
  assert (Hr' : P rest' (percent_decode rest')) by (apply IH; simpl; lia).
  destruct (percent_decode rest') as [out f] eqn:E. eauto.
Qed.

(** A pass shortens its input exactly when it found an escape, and otherwise returns it. *)
Lemma percent_decode_shrinks input :
  if percent_encoded (percent_decode input).2 then len (percent_decode input).1 < len input
  else (percent_decode input).1 = input.
Proof.
  apply (percent_decode_ind (fun input r =>
    if percent_encoded r.2 then len r.1 < len input else r.1 = input)); simpl; try done.
  - intros c rest out f _ _ IH. destruct (percent_encoded f); [lia|congruence].
  - intros h l rest high low out f _ _ _ IH. destruct (percent_encoded f); subst; lia.
  - intros rest out f _ IH. destruct (percent_encoded f); [lia|congruence].
Qed.

Lemma percent_decode_length input : len (percent_decode input).1 <= len input.
Proof.
  pose proof (percent_decode_shrinks input) as H. destruct (percent_encoded _); [lia|].
  by rewrite H.
Qed.

(** Where no escape is found, decoding is the identity on the bytes, and conversely. *)
Lemma percent_decode_fixpoint input :
  (percent_decode input).1 = input <-> percent_encoded (percent_decode input).2 = false.
Proof.
  pose proof (percent_decode_shrinks input) as H. destruct (percent_encoded _); [|done].
  split; [intros E; rewrite E in H; lia|done].
Qed.

(** ** Encoding: the inverse used to state the round trip *)

Definition hex_digit (n : Z) : Z := if n <? 10 then 48 + n else 87 + n.

(** Every byte as an escape. *)
Definition percent_encode (s : list Z) : list Z :=
  mjoin ((fun b => [PERCENT; hex_digit (b / 16); hex_digit (b mod 16)]) <$> s).

Lemma hex_value_digit n : 0 <= n < 16 -> hex_value (hex_digit n) = Some n.
Proof.
  intros. unfold hex_value, hex_digit. destruct (Z.ltb_spec n 10); zdec; simpl; f_equal; lia.
Qed.

Lemma nibble_bounds b : 0 <= b <= 255 -> 0 <= b / 16 < 16 /\ 0 <= b mod 16 < 16.
Proof.
  intros. split; [|apply Z.mod_pos_bound; lia].
  split; [apply Z.div_pos; lia|apply Z.div_lt_upper_bound; lia].
Qed.

Lemma nibbles b : 0 <= b <= 255 -> Z.lor (Z.shiftl (b / 16) 4 mod 256) (b mod 16) = b.
Proof.
  intros Hb. rewrite Z.shiftl_mul_pow2 by lia.
  destruct (nibble_bounds b Hb).
  rewrite Z.mod_small by (change (2 ^ 4) with 16; lia).
  apply Z.bits_inj'. intros n Hn. rewrite Z.lor_spec.
  destruct (Z.lt_ge_cases n 4).
  - rewrite Z.mul_pow2_bits_low by lia. simpl.
    change 16 with (2 ^ 4). by rewrite Z.mod_pow2_bits_low by lia.
  - rewrite Z.mul_pow2_bits by lia. change 16 with (2 ^ 4).
    rewrite Z.mod_pow2_bits_high by lia. rewrite Z.div_pow2_bits by lia.
    rewrite orb_false_r. f_equal. lia.
Qed.

Lemma percent_decode_encode s :
  Forall in_u8 s -> (percent_decode (percent_encode s)).1 = s.
Proof.
  induction 1 as [|b s Hb _ IH]; [done|]. destruct (nibble_bounds b Hb).
  change (percent_encode (b :: s)) with
    (PERCENT :: hex_digit (b / 16) :: hex_digit (b mod 16) :: percent_encode s).
  cbn [percent_decode]. rewrite (hex_value_digit (b / 16)), (hex_value_digit (b mod 16)) by lia.
  destruct (percent_decode (percent_encode s)) as [out f]. simpl in *.
  rewrite nibbles by done. congruence.
Qed.

Lemma percent_encode_length s : len (percent_encode s) = 3 * len s.
Proof.
  induction s as [|b s IH]; [done|].
  change (percent_encode (b :: s)) with
    (PERCENT :: hex_digit (b / 16) :: hex_digit (b mod 16) :: percent_encode s). simpl. lia.
Qed.

Lemma percent_encode_bytes s : Forall in_u8 s -> Forall in_u8 (percent_encode s).
Proof.
  induction 1 as [|b s Hb _ IH]; [constructor|]. destruct (nibble_bounds b Hb).
  assert (Hd : forall n, 0 <= n < 16 -> in_u8 (hex_digit n))
    by (intros n Hn; unfold in_u8, hex_digit; zcase; lia).
  change (percent_encode (b :: s)) with
    (PERCENT :: hex_digit (b / 16) :: hex_digit (b mod 16) :: percent_encode s).
  repeat constructor; try done; by apply Hd.
Qed.

(** ** Repeated decoding *)

Lemma percent_decode_limit input : decode_limit_reached (percent_decode input).2 = false.
Proof.
  by apply (percent_decode_ind (fun _ r => decode_limit_reached r.2 = false)).
Qed.

(** The loop stops at a fixed point of a pass unless it used up its passes. *)
Lemma decode_loop_spec left round current f c a g :
  decode_loop left round current round f = (c, a, g) ->
  len c <= len current /\ (a <= left + round)%nat /\
  ((percent_decode c).1 = c \/ a = (left + round)%nat) /\
  decode_limit_reached g = decode_limit_reached f.
Proof.
  revert round current f. induction left as [|left IH]; intros round current f; simpl.
  { intros [= <- <- <-]. split_and!; try done. by right. }
  pose proof (percent_decode_length current) as Hl.
  pose proof (percent_decode_limit current) as Hlim.
  destruct (percent_decode current) as [decoded rf] eqn:E. simpl in Hl, Hlim.
  case_bool_decide as Hd.
  - intros [= <- <- <-]. split_and!; try done; [lia|left; by rewrite E].
  - intros Hr. apply IH in Hr as (H1 & H2 & H3 & H4).
    split_and!; [lia|lia|destruct H3; [by left|right; lia]|].
    rewrite H4. destruct (0 <? round)%nat; simpl; by rewrite Hlim, orb_false_r.
Qed.

(** [n] layers of encoding are undone by [n] passes, each of which changes something. *)
Lemma decode_loop_encoded n left round s f :
  s <> [] -> Forall in_u8 s -> (n <= left)%nat ->
  exists f', decode_loop left round (Nat.iter n percent_encode s) round f =
    decode_loop (left - n) (round + n) s (round + n) f' /\
    (double_encoded f = true \/ (1 < round + n /\ 0 < n)%nat -> double_encoded f' = true).
Proof.
  intros Hs Hb. revert left round f. induction n as [|n IH]; intros left round f Hn.
  { exists f. rewrite Nat.sub_0_r, Nat.add_0_r. split; [done|]. intros [?|?]; [done|lia]. }
  destruct left as [|left]; [lia|].
  assert (Hbytes : forall m, Forall in_u8 (Nat.iter m percent_encode s)).
  { induction m as [|m IHm]; [done|]. simpl. by apply percent_encode_bytes. }
  assert (Hlen : len (Nat.iter n percent_encode s) < len (Nat.iter (S n) percent_encode s)).
  { simpl. rewrite percent_encode_length.
    assert (0 < len (Nat.iter n percent_encode s)); [|lia].
    clear -Hs. induction n as [|n IHn]; simpl; [destruct s; simpl; [done|lia]|].
    rewrite percent_encode_length. lia. }
  change (Nat.iter (S n) percent_encode s) with (percent_encode (Nat.iter n percent_encode s)) in *.
  cbn [decode_loop].
  pose proof (percent_decode_encode _ (Hbytes n)) as E.
  destruct (percent_decode (percent_encode (Nat.iter n percent_encode s))) as [out rf].
  simpl in E. subst out.
  case_bool_decide as Heq; [exfalso; rewrite Heq in Hlen at 1; lia|].
  destruct (IH left (S round) (if (0 <? round)%nat then set_double (merge f rf) else merge f rf) ltac:(lia))
    as (f' & E' & Hf'). exists f'. split.
  - rewrite E'. f_equal; lia.
  - intros Hd. destruct (decide (n = 0%nat)) as [->|Hn0]; [|apply Hf'; right; lia].
    apply Hf'. left. destruct Hd as [Hd|[Hd _]].
    + destruct (0 <? round)%nat; simpl; by rewrite ?Hd.
    + by rewrite (proj2 (Nat.ltb_lt 0 round)) by lia.
Qed.

(** ** Splitting and joining *)

Lemma split_nonempty s : split s <> [].
Proof. destruct s as [|c s]; simpl; [done|]. case_match; [done|]. by case_match. Qed.

Lemma split_cons c s :
  c <> SLASH -> exists p ps, split s = p :: ps /\ split (c :: s) = (c :: p) :: ps.
Proof.
  intros Hc. destruct (split s) as [|p ps] eqn:E; [by destruct (split_nonempty s)|].
  exists p, ps. split; [done|]. simpl. rewrite E. by rewrite (proj2 (Z.eqb_neq _ _) Hc).
Qed.

Lemma split_slash s : split (SLASH :: s) = [] :: split s.
Proof. done. Qed.

(** No part holds a separator. *)
Lemma split_no_slash s : Forall (fun p => SLASH ∉ p) (split s).
Proof.
  induction s as [|c s IH]; [by repeat constructor; apply not_elem_of_nil|].
  destruct (decide (c = SLASH)) as [->|Hc].
  - rewrite split_slash. constructor; [apply not_elem_of_nil|done].
  - destruct (split_cons c s Hc) as (p & ps & E & ->). rewrite E in IH.
    apply Forall_cons in IH as [Hp Hps]. constructor; [|done]. set_solver.
Qed.

(** Joining the parts gives the input back. *)
Lemma join_split s : join (split s) = s.
Proof.
  induction s as [|c s IH]; [done|]. destruct (decide (c = SLASH)) as [->|Hc].
  - rewrite split_slash. destruct (split s) as [|p ps] eqn:E; [by destruct (split_nonempty s)|].
    simpl in *. by rewrite IH.
  - destruct (split_cons c s Hc) as (p & ps & E & ->). rewrite E in IH.
    destruct ps; simpl in *; by rewrite <- IH.
Qed.

Lemma split_prefix p s :
  SLASH ∉ p -> exists q qs, split s = q :: qs /\ split (p ++ s) = (p ++ q) :: qs.
Proof.
  induction p as [|c p IH]; intros Hp.
  - destruct (split s) as [|q qs] eqn:E; [by destruct (split_nonempty s)|]. exists q, qs. by simpl.
  - destruct IH as (q & qs & E1 & E2); [set_solver|].
    destruct (split_cons c (p ++ s)) as (r & rs & E3 & E4); [set_solver|].
    exists q, qs. split; [done|]. simpl app. rewrite E4. simplify_eq. by rewrite E2 in E3; simplify_eq.
Qed.

(** Splitting what was joined from parts without separators gives the parts back. *)
Lemma split_join ps : ps <> [] -> Forall (fun p => SLASH ∉ p) ps -> split (join ps) = ps.
Proof.
  intros Hne Hps. induction Hps as [|p ps Hp Hps IH]; [done|].
  destruct ps as [|q qs].
  - simpl. destruct (split_prefix p [] Hp) as (r & rs & E1 & E2). simpl in E1. simplify_eq.
    by rewrite app_nil_r in E2.
  - change (join (p :: q :: qs)) with (p ++ SLASH :: join (q :: qs)).
    destruct (split_prefix p (SLASH :: join (q :: qs)) Hp) as (r & rs & E1 & E2).
    rewrite split_slash in E1. simplify_eq. rewrite E2, IH by done. by rewrite app_nil_r.
Qed.

(** The length of a path, part by part. *)
Definition weight (ps : list (list Z)) : Z := zsum ((fun p => len p + 1) <$> ps).

Lemma weight_cons p ps : weight (p :: ps) = len p + 1 + weight ps.
Proof. done. Qed.

Lemma weight_app ps qs : weight (ps ++ qs) = weight ps + weight qs.
Proof. unfold weight. by rewrite fmap_app, zsum_app. Qed.

Lemma weight_reverse ps : weight (reverse ps) = weight ps.
Proof. unfold weight. by rewrite reverse_Permutation. Qed.

Lemma join_length ps : ps <> [] -> len (join ps) = weight ps - 1.
Proof.
  induction ps as [|p [|q qs] IH]; intros Hne; [done|simpl; unfold weight; simpl; lia|].
  change (join (p :: q :: qs)) with (p ++ SLASH :: join (q :: qs)).
  rewrite length_app, length_cons, weight_cons. specialize (IH ltac:(done)). lia.
Qed.

(** ** The segment walk *)

(** A part the walk pushes. *)
Definition plain (p : list Z) : Prop := p <> [] /\ p <> [DOT] /\ p <> [DOT; DOT].

#[global] Instance plain_dec p : Decision (plain p).
Proof. unfold plain. apply _. Defined.

(** What the walk does, by the shape of the part. *)
Lemma walk_part_plain w p : plain p ->
  walk_part w p = mkWalk (p :: stack w) (walk_traversal w) (walk_above w) (walk_self w).
Proof.
  intros (H1 & H2 & H3). unfold walk_part, is_empty_part, is_dot, is_dotdot.
  by rewrite !bool_decide_eq_false_2 by done.
Qed.

Lemma walk_part_stack w p :
  stack (walk_part w p) =
    if decide (plain p) then p :: stack w
    else if decide (p = [DOT; DOT]) then tail (stack w) else stack w.
Proof.
  destruct (decide (plain p)) as [Hp|Hp]; [by rewrite walk_part_plain|].
  unfold walk_part, is_empty_part, is_dot, is_dotdot. unfold plain in Hp.
  case_bool_decide as H1; [subst; done|]. case_bool_decide as H2; [subst; done|].
  case_bool_decide as H3; [subst; by destruct (stack w)|]. by destruct Hp.
Qed.

(** Everything on the stack is a plain part of the path. *)
Lemma walk_stack_plain (Q : list Z -> Prop) ps w :
  Forall (fun p => plain p /\ Q p) (stack w) -> Forall Q ps ->
  Forall (fun p => plain p /\ Q p) (stack (foldl walk_part w ps)).
Proof.
  intros Hw Hps. revert w Hw. induction Hps as [|p ps Hp _ IH]; intros w Hw; [done|]. simpl.
  apply IH. rewrite walk_part_stack. repeat case_decide; [by constructor| |done].
  destruct Hw; [constructor|done].
Qed.

(** Plain parts are pushed one after the other and raise no flag. *)
Lemma walk_plain ps w :
  Forall plain ps ->
  foldl walk_part w ps = mkWalk (reverse ps ++ stack w) (walk_traversal w) (walk_above w) (walk_self w).
Proof.
  intros Hps. revert w. induction Hps as [|p ps Hp _ IH]; intros w; [by destruct w|]. simpl.
  rewrite walk_part_plain, IH by done. simpl. by rewrite reverse_cons, <- app_assoc.
Qed.

(** The weight a part adds to the stack. *)
Definition part_weight (p : list Z) : Z := if decide (plain p) then len p + 1 else 0.

Lemma walk_weight ps w :
  weight (stack (foldl walk_part w ps)) <= weight (stack w) + zsum (part_weight <$> ps).
Proof.
  revert w. induction ps as [|p ps IH]; intros w; [simpl; lia|]. simpl.
  etrans; [apply IH|]. rewrite walk_part_stack. unfold part_weight at 2.
  assert (Hp : 0 <= part_weight p) by (unfold part_weight; case_decide; lia).
  assert (Htl : weight (tail (stack w)) <= weight (stack w))
    by (destruct (stack w); simpl; rewrite ?weight_cons; lia).
  repeat case_decide; rewrite ?weight_cons; unfold fmap in *; lia.
Qed.

(** ** Collapsing never grows its input *)

Lemma map_separators_length b s : len (map_separators b s) = len s.
Proof. unfold map_separators. destruct b; [by rewrite length_fmap|done]. Qed.

Lemma part_weight_le ps : zsum (part_weight <$> ps) <= weight ps.
Proof.
  induction ps as [|p ps IH]; [done|]. rewrite weight_cons.
  change (zsum (part_weight <$> p :: ps)) with (part_weight p + zsum (part_weight <$> ps)).
  assert (part_weight p <= len p + 1) by (unfold part_weight; case_decide; lia). lia.
Qed.

Lemma names_directory_snoc ps p :
  names_directory (ps ++ [p]) = bool_decide (~ plain p).
Proof.
  unfold names_directory. rewrite last_snoc. unfold is_empty_part, is_dot, is_dotdot, plain.
  destruct (decide (p = [])), (decide (p = [DOT])), (decide (p = [DOT; DOT]));
    repeat case_bool_decide; simpl; naive_solver.
Qed.

Lemma part_weight_trailing ps :
  ps <> [] -> zsum (part_weight <$> ps) <= weight ps - (if names_directory ps then 1 else 0).
Proof.
  destruct ps as [|p ps _] using rev_ind; intros Hne; [done|].
  rewrite names_directory_snoc, weight_app, fmap_app, zsum_app. pose proof (part_weight_le ps).
  assert (E : zsum (part_weight <$> [p]) = part_weight p) by (simpl; lia). rewrite E.
  rewrite weight_cons. change (weight []) with 0.
  assert (Hp : part_weight p = if decide (plain p) then len p + 1 else 0) by done. rewrite Hp.
  case_bool_decide; case_decide; try done; lia.
Qed.

Lemma render_length absolute trailing segs :
  len (render absolute trailing segs) <=
    match segs with
    | [] => if absolute then 1 else 0
    | _ => (if absolute then 1 else 0) + weight segs - 1 + (if trailing then 1 else 0)
    end.
Proof.
  unfold render. destruct segs as [|s segs].
  - simpl. destruct absolute, trailing; done.
  - pose proof (join_length (s :: segs) ltac:(done)) as Hl.
    destruct (_ && _ && _) eqn:E.
    + bsimpl. subst trailing. rewrite !length_app. destruct absolute; cbn [length]; lia.
    + rewrite !length_app. destruct absolute, trailing; cbn [length]; lia.
Qed.

(** [collapse_path] on a path given by its first byte. *)
Lemma collapse_path_cons input b c s :
  map_separators b input = c :: s ->
  (collapse_path input b).1 =
    render (c =? SLASH) (names_directory (split (c :: s))) (reverse (stack (walk (split (c :: s))))).
Proof. intros E. unfold collapse_path. by rewrite E. Qed.

Lemma collapse_path_length input b : len (collapse_path input b).1 <= len input.
Proof.
  rewrite <- (map_separators_length b input).
  destruct (map_separators b input) as [|c s] eqn:Es; [unfold collapse_path; by rewrite Es|].
  rewrite (collapse_path_cons _ _ _ _ Es). etrans; [apply render_length|].
  pose proof (walk_weight (split (c :: s)) (mkWalk [] false false false)) as Hw.
  change (foldl walk_part _ _) with (walk (split (c :: s))) in Hw. change (weight (stack _)) with 0 in Hw at 2.
  pose proof (join_length (split (c :: s)) (split_nonempty _)) as Hl. rewrite join_split in Hl.
  assert (Hpw : zsum (part_weight <$> split (c :: s)) <= weight (split (c :: s))
    - (if names_directory (split (c :: s)) then 1 else 0) - (if c =? SLASH then 1 else 0)).
  { destruct (Z.eqb_spec c SLASH) as [->|Hc];
      [|pose proof (part_weight_trailing _ (split_nonempty (c :: s))); lia].
    rewrite split_slash, weight_cons.
    pose proof (part_weight_trailing _ (split_nonempty s)) as Ht.
    assert (En : names_directory ([] :: split s) = names_directory (split s)).
    { unfold names_directory. destruct (split s) eqn:E; [by destruct (split_nonempty s)|done]. }
    rewrite En. change (zsum (part_weight <$> [] :: split s)) with (0 + zsum (part_weight <$> split s)).
    simpl length. lia. }
  rewrite <- weight_reverse in Hw.
  destruct (reverse (stack (walk (split (c :: s))))) as [|seg segs]; [|lia].
  simpl length. destruct (c =? SLASH); lia.
Qed.

(** ** Collapsing reaches a canonical form *)

(** The parts of a rendered path. *)
Definition framed (absolute trailing : bool) (segs : list (list Z)) : list (list Z) :=
  (if absolute then [[]] else []) ++ segs ++ (if trailing then [[]] else []).

Lemma join_snoc ps p : ps <> [] -> join (ps ++ [p]) = join ps ++ SLASH :: p.
Proof.
  induction ps as [|q [|r rs] IH]; intros Hne; [done|done|].
  change (join ((q :: r :: rs) ++ [p])) with (q ++ SLASH :: join ((r :: rs) ++ [p])).
  rewrite IH by done. change (join (q :: r :: rs)) with (q ++ SLASH :: join (r :: rs)).
  by rewrite <- app_assoc.
Qed.

Lemma join_framed absolute trailing segs :
  segs <> [] ->
  join (framed absolute trailing segs) =
    (if absolute then [SLASH] else []) ++ join segs ++ (if trailing then [SLASH] else []).
Proof.
  intros Hne. unfold framed.
  assert (Ht : join (segs ++ (if trailing then [[]] else [])) =
    join segs ++ (if trailing then [SLASH] else [])).
  { destruct trailing; [by apply join_snoc|by rewrite !app_nil_r]. }
  rewrite <- Ht. destruct absolute; [|done]. simpl.
  destruct segs as [|s segs]; [done|]. done.
Qed.

(** The last byte of joined plain parts is not a separator. *)
Lemma join_last segs :
  segs <> [] -> Forall (fun p => plain p /\ SLASH ∉ p) segs -> last (join segs) <> Some SLASH /\ join segs <> [].
Proof.
  intros Hne Hs. destruct segs as [|p segs _] using rev_ind; [done|].
  apply Forall_app in Hs as [_ Hp]. apply Forall_singleton in Hp as [(Hp & _) Hns].
  assert (E : exists q, join (segs ++ [p]) = q ++ p).
  { destruct segs as [|s segs]; [by exists []|]. exists (join (s :: segs) ++ [SLASH]).
    rewrite join_snoc by done. by rewrite <- app_assoc. }
  destruct E as [q ->]. destruct p as [|x p _] using rev_ind; [done|].
  rewrite app_assoc, last_snoc. split; [intros [= ->]; set_solver|]. by destruct (q ++ p).
Qed.

Lemma render_framed absolute trailing segs :
  segs <> [] -> Forall (fun p => plain p /\ SLASH ∉ p) segs ->
  render absolute trailing segs = join (framed absolute trailing segs).
Proof.
  intros Hne Hs. destruct (join_last segs Hne Hs) as [Hl He]. rewrite join_framed by done. unfold render.
  assert (E1 : (if absolute then [SLASH] else []) ++ join segs <> []).
  { destruct absolute; [done|]. simpl. done. }
  assert (E2 : ends_with_slash ((if absolute then [SLASH] else []) ++ join segs) = false).
  { apply bool_decide_eq_false_2. rewrite last_app. by destruct (last (join segs)) eqn:E; [|apply last_None in E]. }
  rewrite E2, bool_decide_eq_false_2 by done.
  destruct trailing; simpl; [by rewrite app_assoc|by rewrite app_nil_r].
Qed.

Lemma framed_walk absolute trailing segs :
  Forall plain segs -> walk (framed absolute trailing segs) = mkWalk (reverse segs) false false false.
Proof.
  intros Hs. unfold walk, framed. rewrite !foldl_app.
  assert (H1 : foldl walk_part (mkWalk [] false false false) (if absolute then [[]] else []) =
    mkWalk [] false false false) by (by destruct absolute).
  rewrite H1, (walk_plain segs) by done. simpl. rewrite app_nil_r. by destruct trailing.
Qed.

Lemma framed_directory absolute trailing segs :
  segs <> [] -> Forall plain segs -> names_directory (framed absolute trailing segs) = trailing.
Proof.
  intros Hne Hs. destruct segs as [|p segs _] using rev_ind; [done|]. unfold framed.
  apply Forall_app in Hs as [_ Hp]. rewrite Forall_singleton in Hp. destruct trailing.
  - rewrite (app_assoc _ (segs ++ [p])), names_directory_snoc.
    apply bool_decide_eq_true_2. by intros (Hn & _).
  - rewrite app_nil_r, app_assoc, names_directory_snoc.
    apply bool_decide_eq_false_2. intros Hn. by apply Hn.
Qed.

Lemma framed_no_empty absolute trailing segs :
  segs <> [] -> Forall plain segs -> has_empty_segment (framed absolute trailing segs) = false.
Proof.
  intros Hne Hs. unfold has_empty_segment. apply not_true_iff_false. intros Hx.
  apply existsb_exists in Hx as (p & Hin & Hp). apply bool_decide_eq_true in Hp. subst p.
  assert (Hin' : [] ∈ segs); [|rewrite Forall_forall in Hs; by destruct (Hs _ Hin')].
  apply list_elem_of_In in Hin. unfold framed in Hin.
  assert (Hrl : forall (l : list (list Z)) x, x ∈ removelast l -> x ∈ l).
  { intros l x Hx. destruct (decide (l = [])) as [->|Hl]; [done|].
    rewrite (app_removelast_last [] Hl). set_solver. }
  destruct segs as [|s segs]; [done|]. destruct trailing.
  - assert (E : removelast (tail ((if absolute then [[]] else []) ++ (s :: segs) ++ [[]])) =
      if absolute then s :: segs else segs).
    { destruct absolute; [exact (removelast_last (s :: segs) [])|exact (removelast_last segs [])]. }
    rewrite E in Hin. destruct absolute; set_solver.
  - rewrite app_nil_r in Hin. destruct absolute; simpl in Hin.
    + by apply (Hrl (s :: segs)).
    + apply Hrl in Hin. set_solver.
Qed.

(** The first byte of a rendered path is a separator exactly when it is absolute. *)
Lemma join_framed_head absolute trailing segs :
  segs <> [] -> Forall (fun p => plain p /\ SLASH ∉ p) segs ->
  exists c s, join (framed absolute trailing segs) = c :: s /\ (c =? SLASH) = absolute.
Proof.
  intros Hne Hs. rewrite join_framed by done. destruct absolute; [by do 2 eexists|]. simpl.
  destruct segs as [|p segs]; [done|]. apply Forall_cons in Hs as [[(Hp & _) Hns] _].
  destruct p as [|c p]; [done|].
  assert (E : exists s, join ((c :: p) :: segs) = c :: s) by (destruct segs; by eexists).
  destruct E as [s ->]. do 2 eexists. split; [done|]. apply Z.eqb_neq. set_solver.
Qed.

(** A rendered path collapses to itself and raises no flag. *)
Lemma collapse_render b absolute trailing segs :
  Forall (fun p => plain p /\ SLASH ∉ p /\ (b = true -> BACKSLASH ∉ p)) segs ->
  collapse_path (render absolute trailing segs) b = (render absolute trailing segs, Flags_default).
Proof.
  intros Hs. destruct (decide (segs = [])) as [->|Hne].
  { by destruct b, absolute, trailing. }
  assert (Hs1 : Forall (fun p => plain p /\ SLASH ∉ p) segs)
    by (eapply Forall_impl; [exact Hs|]; naive_solver).
  assert (Hs2 : Forall plain segs) by (eapply Forall_impl; [exact Hs|]; naive_solver).
  rewrite (render_framed absolute trailing segs Hne Hs1).
  set (out := join (framed absolute trailing segs)).
  assert (Hb : b = true -> BACKSLASH ∉ out).
  { intros ->. unfold out. rewrite join_framed by done. rewrite !elem_of_app.
    assert (Hj : BACKSLASH ∉ join segs).
    { clear -Hs. induction Hs as [|p ps (_ & _ & Hp) _ IH]; [apply not_elem_of_nil|].
      specialize (Hp eq_refl). destruct ps; [done|].
      change (join (p :: ?q :: ?qs)) with (p ++ SLASH :: join (q :: qs)). set_solver by done. }
    destruct absolute, trailing; set_solver by done. }
  assert (Hmap : map_separators b out = out).
  { unfold map_separators. destruct b; [|done]. specialize (Hb eq_refl). clear -Hb.
    induction out as [|x out IH]; [done|]. rewrite fmap_cons, IH by set_solver.
    rewrite (proj2 (Z.eqb_neq x BACKSLASH)) by set_solver. done. }
  assert (Hsp : split out = framed absolute trailing segs).
  { apply split_join; [by destruct absolute, segs|]. unfold framed.
    rewrite !Forall_app. split_and!.
    - destruct absolute; [|constructor]. repeat constructor. apply not_elem_of_nil.
    - eapply Forall_impl; [exact Hs|]. naive_solver.
    - destruct trailing; [|constructor]. repeat constructor. apply not_elem_of_nil. }
  unfold collapse_path. rewrite Hmap, Hsp, framed_walk, framed_directory, framed_no_empty by done.
  destruct (join_framed_head absolute trailing segs Hne Hs1) as (c & s & E & Hc). fold out in E.
  rewrite E, Hc, <- E. simpl. rewrite reverse_involutive, render_framed by done. fold out.
  unfold Flags_default. repeat f_equal. destruct b; [|done]. simpl.
  apply bool_decide_eq_false_2. by apply Hb.
Qed.

Lemma split_elem s : Forall (fun p => forall x, x ∈ p -> x ∈ s) (split s).
Proof.
  induction s as [|c s IH]; [by repeat constructor|]. destruct (decide (c = SLASH)) as [->|Hc].
  - rewrite split_slash. constructor; [set_solver|]. eapply Forall_impl; [exact IH|]. set_solver.
  - destruct (split_cons c s Hc) as (p & ps & E & ->). rewrite E in IH.
    apply Forall_cons in IH as [Hp Hps]. constructor; [set_solver|].
    eapply Forall_impl; [exact Hps|]. set_solver.
Qed.

Lemma map_separators_backslash s : BACKSLASH ∉ map_separators true s.
Proof.
  simpl. intros Hx. apply list_elem_of_fmap in Hx as (y & Hy & _). revert Hy. by zcase.
Qed.

(** The segments [collapse_path] renders. *)
Lemma collapsed_segments b s :
  (b = true -> BACKSLASH ∉ s) ->
  Forall (fun p => plain p /\ SLASH ∉ p /\ (b = true -> BACKSLASH ∉ p)) (reverse (stack (walk (split s)))).
Proof.
  intros Hb. apply Forall_reverse.
  apply (walk_stack_plain (fun p => SLASH ∉ p /\ (b = true -> BACKSLASH ∉ p))); [constructor|].
  pose proof (split_no_slash s) as H1. pose proof (split_elem s) as H2.
  apply Forall_forall. intros p Hp. rewrite Forall_forall in H1, H2. split; [by apply H1|].
  intros E Hx. by apply (Hb E), (H2 p).
Qed.

(** ** Parts that resolve away *)

Lemma walk_stack_ext ps w w' :
  stack w = stack w' -> stack (foldl walk_part w ps) = stack (foldl walk_part w' ps).
Proof.
  revert w w'. induction ps as [|p ps IH]; intros w w' E; [done|]. simpl. apply IH.
  by rewrite !walk_part_stack, E.
Qed.

(** A sequence of parts that leaves the stack of every walk as it was. *)
Definition resolves_away (mid : list (list Z)) : Prop :=
  forall w, stack (foldl walk_part w mid) = stack w.

Lemma resolves_away_dot : resolves_away [[DOT]].
Proof. intros w. change (stack (walk_part w [DOT]) = stack w). by rewrite walk_part_stack. Qed.

Lemma resolves_away_empty : resolves_away [[]].
Proof. done. Qed.

Lemma resolves_away_updown seg : plain seg -> resolves_away [seg; [DOT; DOT]].
Proof.
  intros Hs w. change (stack (walk_part (walk_part w seg) [DOT; DOT]) = stack w).
  rewrite walk_part_stack, decide_False, decide_True by (done || by intros (_ & _ & ?)).
  by rewrite walk_part_stack, decide_True by done.
Qed.

Lemma resolves_away_app m1 m2 : resolves_away m1 -> resolves_away m2 -> resolves_away (m1 ++ m2).
Proof. intros H1 H2 w. by rewrite foldl_app, H2, H1. Qed.

(** The bytes of a collapsed path, from its parts. *)
Lemma collapse_parts p ps :
  ps <> [] -> Forall (fun q => SLASH ∉ q) (p :: ps) ->
  (collapse_path (join (p :: ps)) false).1 =
    render (is_empty_part p) (names_directory (p :: ps)) (reverse (stack (walk (p :: ps)))).
Proof.
  intros Hne Hps. pose proof (split_join (p :: ps) ltac:(done) Hps) as Hsp.
  assert (Hhd : exists c s, join (p :: ps) = c :: s /\ (c =? SLASH) = is_empty_part p).
  { destruct ps as [|q qs]; [done|].
    change (join (p :: q :: qs)) with (p ++ SLASH :: join (q :: qs)).
    apply Forall_cons in Hps as [Hp _]. destruct p as [|c p]; [by do 2 eexists|].
    do 2 eexists. split; [done|]. apply Z.eqb_neq. set_solver. }
  destruct Hhd as (c & s & E & Hc).
  rewrite (collapse_path_cons _ false c s E), <- E, Hsp, Hc. done.
Qed.

(** ** Properties *)

(** Whatever the input and the options, normalization never grows: there is no expansion an
    attacker could use to amplify a request. *)
Theorem normalize_never_grows (input : list Z) (options : NormalizeOptions) :
  len (bytes (normalize_path input options)) <= len input.
Proof.
  assert (H : len (bytes (percent_decode_repeatedly input (decode_rounds options))) <= len input).
  { unfold percent_decode_repeatedly. destruct (decode_loop _ _ _ _ _) as [[c a] f] eqn:E.
    apply decode_loop_spec in E as (Hl & _). done. }
  unfold normalize_path. destruct (negb (collapse options)); [done|].
  pose proof (collapse_path_length
    (bytes (percent_decode_repeatedly input (decode_rounds options)))
    (backslash_is_separator options)) as Hc.
  destruct (collapse_path _ _) as [out f]. simpl in *. lia.
Qed.

(** [n] layers of percent encoding are undone by [n] decoding passes, for every byte string, and
    two layers or more are reported as double encoding. *)
Theorem encoding_layers_are_undone (s : list Z) (n : nat) :
  s <> [] -> Forall in_u8 s ->
  bytes (percent_decode_repeatedly (Nat.iter n percent_encode s) n) = s /\
  rounds_applied (percent_decode_repeatedly (Nat.iter n percent_encode s) n) = n /\
  ((2 <= n)%nat ->
   double_encoded (flags (percent_decode_repeatedly (Nat.iter n percent_encode s) n)) = true).
Proof.
  intros Hs Hb. unfold percent_decode_repeatedly.
  destruct (decode_loop_encoded n n 0 s Flags_default Hs Hb ltac:(lia)) as (f & E & Hd).
  rewrite E, Nat.sub_diag. simpl. split_and!; try done. intros Hn.
  specialize (Hd ltac:(right; lia)). destruct (_ && _); [case_bool_decide|]; done.
Qed.

Lemma encoding_layers_are_undone_witness :
  bytes (percent_decode_repeatedly (Nat.iter 2 percent_encode [46; 46; 47]) 2) = [46; 46; 47].
Proof.
  destruct (encoding_layers_are_undone [46; 46; 47] 2) as [H _].
  - discriminate.
  - repeat constructor; unfold in_u8; lia.
  - exact H.
Defined.

(** When decoding does not report that it stopped at its limit, no escape is left: another pass
    would change nothing. *)
Theorem decoding_is_complete_or_flagged (input : list Z) (rounds : nat) :
  (0 < rounds)%nat ->
  decode_limit_reached (flags (percent_decode_repeatedly input rounds)) = false <->
  (percent_decode (bytes (percent_decode_repeatedly input rounds))).1 =
    bytes (percent_decode_repeatedly input rounds).
Proof.
  intros Hr. unfold percent_decode_repeatedly. destruct (decode_loop _ _ _ _ _) as [[c a] f] eqn:E.
  apply decode_loop_spec in E as (_ & _ & H & Hl). simpl in *. rewrite Nat.add_0_r in H.
  rewrite (proj2 (Nat.ltb_lt 0 rounds)), andb_true_r by done.
  destruct (Nat.eqb_spec a rounds) as [->|Hne].
  - case_bool_decide as Hp; simpl; [done|]. rewrite Hl. split; [|done].
    intros _. by destruct (decide ((percent_decode c).1 = c)).
  - rewrite Hl. destruct H; [done|]. done.
Qed.

Lemma decoding_is_complete_or_flagged_witness :
  (percent_decode (bytes (percent_decode_repeatedly [37; 52; 49] 2))).1 =
    bytes (percent_decode_repeatedly [37; 52; 49] 2).
Proof.
  apply (decoding_is_complete_or_flagged [37; 52; 49] 2); [lia|reflexivity].
Defined.

(** Collapsing reaches a canonical form in one pass: its output is unchanged by collapsing it
    again, which finds nothing left to resolve (no dot segment, no traversal, no empty segment, no
    backslash separator). *)
Theorem collapse_is_canonical (input : list Z) (b : bool) :
  collapse_path (collapse_path input b).1 b = ((collapse_path input b).1, Flags_default).
Proof.
  destruct (map_separators b input) as [|c s] eqn:E.
  - assert (E0 : (collapse_path input b).1 = []) by (unfold collapse_path; by rewrite E).
    rewrite E0. by destruct b.
  - rewrite (collapse_path_cons _ _ _ _ E). apply collapse_render, collapsed_segments.
    intros ->. rewrite <- E. apply map_separators_backslash.
Qed.

(** The evasions the normalizer exists for change nothing: inserting between two parts of a path
    a dot segment, an empty segment, or a directory that is entered and left again, any number of
    times, gives the same canonical path. *)
Theorem collapse_sees_through_detours (p q : list Z) (pre post : list (list Z))
    (mid : list (list (list Z))) :
  Forall (fun part => SLASH ∉ part) (p :: pre ++ mjoin mid ++ q :: post) ->
  Forall (fun m => m = [[DOT]] \/ m = [[]] \/ exists seg, plain seg /\ m = [seg; [DOT; DOT]]) mid ->
  (collapse_path (join (p :: pre ++ mjoin mid ++ q :: post)) false).1 =
  (collapse_path (join (p :: pre ++ q :: post)) false).1.
Proof.
  intros Hns Hmid.
  assert (Haway : resolves_away (mjoin mid)).
  { clear Hns. induction Hmid as [|m mid Hm _ IH]; [done|]. simpl. apply resolves_away_app; [|done].
    destruct Hm as [->|[->|(seg & Hs & ->)]];
      auto using resolves_away_dot, resolves_away_empty, resolves_away_updown. }
  assert (Hns' : Forall (fun part => SLASH ∉ part) (p :: pre ++ q :: post)).
  { apply Forall_cons in Hns as [Hp Hns]. rewrite !Forall_app in Hns.
    constructor; [done|]. apply Forall_app. naive_solver. }
  rewrite (collapse_parts p (pre ++ mjoin mid ++ q :: post)), (collapse_parts p (pre ++ q :: post))
    by (done || (intros Hx; apply app_nil in Hx as [_ Hx]; by destruct (mjoin mid))).
  assert (Hdir : names_directory (p :: pre ++ mjoin mid ++ q :: post) =
    names_directory (p :: pre ++ q :: post)).
  { unfold names_directory. rewrite !last_cons, !last_app, !last_cons. by destruct (last post). }
  assert (Hst : stack (walk (p :: pre ++ mjoin mid ++ q :: post)) = stack (walk (p :: pre ++ q :: post))).
  { unfold walk. rewrite !app_comm_cons, !foldl_app. apply walk_stack_ext. apply Haway. }
  by rewrite Hdir, Hst.
Qed.

Lemma collapse_sees_through_detours_witness :
  (collapse_path (join [[]; [101]; [46]; [120]; [46; 46]; []; [112]]) false).1 =
  (collapse_path (join [[]; [101]; [112]]) false).1.
Proof.
  apply (collapse_sees_through_detours [] [112] [[101]] [] [[[46]]; [[120]; [46; 46]]; [[]]]).
  - apply (bool_decide_unpack _). vm_compute. exact I.
  - constructor; [left; reflexivity|]. constructor; [|constructor; [right; left; reflexivity|constructor]].
    right. right. exists [120]. split; [|reflexivity]. split; [discriminate|split; discriminate].
Defined.

(** An invalid escape is not always reported: the flags of a pass that changes no byte are
    dropped, so an input whose only escapes are invalid comes back with no flag set, although a
    single pass flags it. *)
Theorem invalid_escape_unreported :
  let input := [PERCENT; 122; 122] in
  invalid_escape (percent_decode input).2 = true /\
  any (flags (normalize_path input NormalizeOptions_default)) = false.
Proof. split; reflexivity. Qed.
