(* ===== verification/Http.v ===== *)
(** HTTP request heads: [crates/applayer/src/http.rs].

    The parser of one direction of one flow: bytes are appended to its buffer, and every head that
    ends in the buffer is taken out and parsed. The loop of [push] takes at least two bytes of the
    buffer at each turn, so fuel of one more than the buffer's length is enough
    ([push_loop_fuel]). *)

From S2P Require Import Prelude Text Normalize.

Definition DEFAULT_MAX_HEAD : Z := 65536.
Definition MAX_HEADERS : Z := 128.

Record HttpRequest := mkHttpRequest {
  hr_method : list Z;
  hr_raw_uri : list Z;
  hr_uri : list Z;
  hr_normalization : NormalizationFlags;
  hr_version : list Z;
  hr_headers : list Z;
  hr_user_agent : option (list Z);
  hr_host : option (list Z);
  hr_truncated : bool
}.

Record HttpCounters := mkHttpCounters {
  hc_requests : Z;
  hc_oversized : Z;
  hc_malformed : Z
}.

Record HttpParser := mkHttpParser {
  hp_buffer : list Z;
  hp_max_head : Z;
  hp_counters : HttpCounters;
  hp_resynchronising : bool
}.

(** [HttpParser::new]. *)
Definition parser_new (max_head : Z) : HttpParser :=
  mkHttpParser [] (Z.max max_head 64) (mkHttpCounters 0 0 0) false.

Definition buffered (p : HttpParser) : Z := len (hp_buffer p).

(** ** The end of a head *)

Definition find_head_end (buffer : list Z) : option Z :=
  let crlf := (fun p => p + 4) <$> window_position 4 (fun w => bool_decide (w = [13; 10; 13; 10])) buffer in
  let lf := (fun p => p + 2) <$> window_position 2 (fun w => bool_decide (w = [10; 10])) buffer in
  match crlf, lf with
  | Some a, Some b => Some (Z.min a b)
  | Some a, None => Some a
  | None, Some b => Some b
  | None, None => None
  end.

(** ** Parsing a head *)

(** [u8::is_ascii_whitespace] and [u8::is_ascii_alphabetic]. *)
Definition is_ascii_whitespace (b : Z) : bool :=
  (b =? 32) || (b =? 9) || (b =? 10) || (b =? 12) || (b =? 13).
Definition is_ascii_alphabetic (b : Z) : bool :=
  ((65 <=? b) && (b <=? 90)) || ((97 <=? b) && (b <=? 122)).

Fixpoint skip_whitespace (l : list Z) : list Z :=
  match l with
  | b :: l' => if is_ascii_whitespace b then skip_whitespace l' else l
  | [] => []
  end.

(** [trim]: the bytes from the first to the last that is not white space. *)
Definition trim_bytes (l : list Z) : list Z := reverse (skip_whitespace (reverse (skip_whitespace l))).

(** [slice::split] on a byte. *)
Fixpoint split_on (sep : Z) (l : list Z) : list (list Z) :=
  match l with
  | [] => [[]]
  | b :: l' =>
      if b =? sep then [] :: split_on sep l'
      else match split_on sep l' with
      | [] => [[b]]
      | part :: parts => (b :: part) :: parts
      end
  end.

(** [slice::splitn]: at most [n] parts, the last holding the rest. *)
Fixpoint splitn (n : nat) (sep : Z) (l : list Z) : list (list Z) :=
  match n with
  | O => []
  | S O => [l]
  | S n' =>
      match split_once sep l with
      | None => [l]
      | Some (part, rest) => part :: splitn n' sep rest
      end
  end.

(** [raw_uri.iter().position(== b'?').unwrap_or(len)]: the path and the query. *)
Fixpoint split_query (uri : list Z) : list Z * list Z :=
  match uri with
  | [] => ([], [])
  | b :: uri' => if b =? 63 then ([], uri) else let '(path, query) := split_query uri' in (b :: path, query)
  end.

(** One header line, already trimmed and not empty. *)
Definition add_header (r : HttpRequest) (line : list Z) : HttpRequest :=
  let headers := (if bool_decide (hr_headers r = []) then [] else hr_headers r ++ [10]) ++ line in
  let r := mkHttpRequest (hr_method r) (hr_raw_uri r) (hr_uri r) (hr_normalization r) (hr_version r) headers
    (hr_user_agent r) (hr_host r) (hr_truncated r) in
  match split_once 58 line with
  | None => r
  | Some (name, value) =>
      let value := trim_bytes value in
      if eq_ignore_ascii_case name (of_string "user-agent")
      then mkHttpRequest (hr_method r) (hr_raw_uri r) (hr_uri r) (hr_normalization r) (hr_version r)
        (hr_headers r) (Some value) (hr_host r) (hr_truncated r)
      else if eq_ignore_ascii_case name (of_string "host")
      then mkHttpRequest (hr_method r) (hr_raw_uri r) (hr_uri r) (hr_normalization r) (hr_version r)
        (hr_headers r) (hr_user_agent r) (Some value) (hr_truncated r)
      else r
  end.

Definition set_truncated (r : HttpRequest) : HttpRequest :=
  mkHttpRequest (hr_method r) (hr_raw_uri r) (hr_uri r) (hr_normalization r) (hr_version r) (hr_headers r)
    (hr_user_agent r) (hr_host r) true.

(** The loop over the header lines. *)
Fixpoint add_headers (seen : Z) (r : HttpRequest) (lines : list (list Z)) : HttpRequest :=
  match lines with
  | [] => r
  | line :: lines' =>
      let line := trim_bytes line in
      if bool_decide (line = []) then add_headers seen r lines'
      else if MAX_HEADERS <? seen + 1 then set_truncated r
      else add_headers (seen + 1) (add_header r line) lines'
  end.

Definition parse_head (head : list Z) (options : NormalizeOptions) : option HttpRequest :=
  match split_on 10 head with
  | [] => None
  | first :: lines =>
      let request_line := trim_bytes first in
      if bool_decide (request_line = []) then None
      else match splitn 3 32 request_line with
      | method :: target :: rest =>
          let method := trim_bytes method in
          let raw_uri := trim_bytes target in
          let version := match rest with v :: _ => trim_bytes v | [] => [] end in
          if bool_decide (method = []) || bool_decide (raw_uri = []) then None
          else if negb (forallb is_ascii_alphabetic method) then None
          else
            let '(path, query) := split_query raw_uri in
            let normalized := normalize_path path options in
            Some (add_headers 0
              (mkHttpRequest method raw_uri (bytes normalized ++ query) (flags normalized) version [] None None
                false) lines)
      | _ => None
      end
  end.

(** ** The parser *)

Definition set_buffer (p : HttpParser) (buffer : list Z) : HttpParser :=
  mkHttpParser buffer (hp_max_head p) (hp_counters p) (hp_resynchronising p).

(** The loop of [push]. *)
Fixpoint push_loop (options : NormalizeOptions) (fuel : nat) (p : HttpParser) : HttpParser * list HttpRequest :=
  match fuel with
  | O => (p, [])
  | S fuel =>
      match find_head_end (hp_buffer p) with
      | None =>
          if hp_max_head p <? len (hp_buffer p)
          then (mkHttpParser [] (hp_max_head p)
                  (mkHttpCounters (hc_requests (hp_counters p)) (hc_oversized (hp_counters p) + 1)
                    (hc_malformed (hp_counters p))) true, [])
          else (p, [])
      | Some end_ =>
          let head := take (Z.to_nat end_) (hp_buffer p) in
          let rest := drop (Z.to_nat end_) (hp_buffer p) in
          if hp_resynchronising p
          then push_loop options fuel (mkHttpParser rest (hp_max_head p) (hp_counters p) false)
          else match parse_head head options with
          | Some request =>
              let '(p', requests) := push_loop options fuel (mkHttpParser rest (hp_max_head p)
                (mkHttpCounters (hc_requests (hp_counters p) + 1) (hc_oversized (hp_counters p))
                  (hc_malformed (hp_counters p))) false) in
              (p', request :: requests)
          | None =>
              push_loop options fuel (mkHttpParser rest (hp_max_head p)
                (mkHttpCounters (hc_requests (hp_counters p)) (hc_oversized (hp_counters p))
                  (hc_malformed (hp_counters p) + 1)) false)
          end
      end
  end.

(** [HttpParser::push]. *)
Definition http_push (options : NormalizeOptions) (p : HttpParser) (bytes : list Z) :
    HttpParser * list HttpRequest :=
  let p := set_buffer p (hp_buffer p ++ bytes) in
  push_loop options (S (length (hp_buffer p))) p.

(** ** The end of a head: lemmas *)

Lemma find_head_end_range l e : find_head_end l = Some e -> 2 <= e <= len l.
Proof.
  unfold find_head_end. intros E.
  pose proof (window_position_spec 4 (fun w => bool_decide (w = [13; 10; 13; 10])) l) as H4.
  pose proof (window_position_spec 2 (fun w => bool_decide (w = [10; 10])) l) as H2.
  destruct (window_position 4 _ l), (window_position 2 _ l); simpl in E; simplify_eq; lia.
Qed.

(** More bytes do not move the end of a head that was already complete. *)
Lemma find_head_end_app a b e : find_head_end a = Some e -> find_head_end (a ++ b) = Some e.
Proof.
  intros E. pose proof (find_head_end_range _ _ E) as He. revert E. unfold find_head_end.
  set (f := fun w => bool_decide (w = [13; 10; 13; 10])). set (g := fun w => bool_decide (w = [10; 10])).
  pose proof (window_position_new 4 f a b) as H4. pose proof (window_position_new 2 g a b) as H2.
  destruct (window_position 4 f a) as [p|] eqn:E4; destruct (window_position 2 g a) as [q|] eqn:E2;
    simpl; intros E; simplify_eq.
  - by rewrite (window_position_app _ _ _ _ _ E4), (window_position_app _ _ _ _ _ E2).
  - rewrite (window_position_app _ _ _ _ _ E4). simpl.
    destruct (window_position 2 g (a ++ b)) as [q|]; simpl; [|done]. specialize (H2 q eq_refl eq_refl).
    f_equal. lia.
  - rewrite (window_position_app _ _ _ _ _ E2).
    destruct (window_position 4 f (a ++ b)) as [p|]; simpl; [|done]. specialize (H4 p eq_refl eq_refl).
    f_equal. lia.
Qed.

(** ** The loop *)

Lemma push_loop_cons options fuel p :
  push_loop options (S fuel) p =
  match find_head_end (hp_buffer p) with
  | None =>
      if hp_max_head p <? len (hp_buffer p)
      then (mkHttpParser [] (hp_max_head p)
              (mkHttpCounters (hc_requests (hp_counters p)) (hc_oversized (hp_counters p) + 1)
                (hc_malformed (hp_counters p))) true, [])
      else (p, [])
  | Some end_ =>
      let rest := drop (Z.to_nat end_) (hp_buffer p) in
      let parsed := if hp_resynchronising p then None else parse_head (take (Z.to_nat end_) (hp_buffer p)) options in
      let counters := mkHttpCounters
        (hc_requests (hp_counters p) + if parsed then 1 else 0) (hc_oversized (hp_counters p))
        (hc_malformed (hp_counters p) + if hp_resynchronising p then 0 else if parsed then 0 else 1) in
      let '(p', requests) := push_loop options fuel (mkHttpParser rest (hp_max_head p) counters false) in
      (p', option_list parsed ++ requests)
  end.
Proof.
  cbn [push_loop]. destruct (find_head_end (hp_buffer p)) as [e|]; [|done]. cbv zeta.
  destruct (hp_counters p) as [n o m], (hp_resynchronising p); simpl;
    [|destruct (parse_head _ options); simpl]; rewrite ?Z.add_0_r;
    by destruct (push_loop options fuel _).
Qed.

(** The fuel given is enough: any larger amount gives the same result. *)
Lemma push_loop_fuel options fuel fuel' p :
  (length (hp_buffer p) < fuel)%nat -> (length (hp_buffer p) < fuel')%nat ->
  push_loop options fuel p = push_loop options fuel' p.
Proof.
  revert fuel' p. induction fuel as [|fuel IH]; intros fuel' p H1 H2; [lia|].
  destruct fuel' as [|fuel']; [lia|]. rewrite !push_loop_cons.
  destruct (find_head_end (hp_buffer p)) as [e|] eqn:E; [|done]. apply find_head_end_range in E. cbv zeta.
  rewrite (IH fuel'); [done| |]; simpl; rewrite length_drop; lia.
Qed.

(** When the loop stops no complete head is left, and what is left is within the cap. *)
Lemma push_loop_done options fuel p p' rs :
  (length (hp_buffer p) < fuel)%nat -> 0 <= hp_max_head p -> push_loop options fuel p = (p', rs) ->
  find_head_end (hp_buffer p') = None /\ len (hp_buffer p') <= hp_max_head p' /\ hp_max_head p' = hp_max_head p /\
  hc_oversized (hp_counters p) <= hc_oversized (hp_counters p').
Proof.
  revert p rs. induction fuel as [|fuel IH]; intros p rs Hf Hm E; [lia|]. rewrite push_loop_cons in E.
  destruct (find_head_end (hp_buffer p)) as [e|] eqn:Ee.
  - apply find_head_end_range in Ee. cbv zeta in E.
    destruct (push_loop options fuel _) as [p1 r1] eqn:E1. simplify_eq.
    apply IH in E1; simpl in *; [done|rewrite length_drop; lia|done].
  - destruct (Z.ltb_spec (hp_max_head p) (len (hp_buffer p))); simplify_eq; simpl; repeat split; try done; lia.
Qed.

Lemma http_push_bounded options p bytes p' rs :
  0 <= hp_max_head p -> http_push options p bytes = (p', rs) ->
  find_head_end (hp_buffer p') = None /\ buffered p' <= hp_max_head p /\ hp_max_head p' = hp_max_head p.
Proof.
  intros Hm E. apply push_loop_done in E as (? & ? & Hmax & _); [|simpl; lia|done].
  simpl in Hmax. unfold buffered. by rewrite <- Hmax.
Qed.

(** After any delivery the parser holds no complete head, and no more than its cap: a head that
    never ends is abandoned. *)
Theorem http_buffer_bounded options p bytes p' rs :
  0 <= hp_max_head p -> http_push options p bytes = (p', rs) ->
  find_head_end (hp_buffer p') = None /\ buffered p' <= hp_max_head p /\ hp_max_head p' = hp_max_head p.
Proof. apply http_push_bounded. Qed.

Lemma http_buffer_bounded_witness :
  let '(p, rs) := http_push NormalizeOptions_default (parser_new 64) (of_string "GET / HTTP/1.1") in
  find_head_end (hp_buffer p) = None /\ buffered p <= 64 /\ hp_max_head p = 64.
Proof.
  destruct (http_push NormalizeOptions_default (parser_new 64) (of_string "GET / HTTP/1.1")) as [p rs] eqn:E.
  apply (http_buffer_bounded NormalizeOptions_default (parser_new 64) (of_string "GET / HTTP/1.1") p rs); [done|exact E].
Defined.

(** The loop on more bytes continues from where it stopped, unless a head was abandoned. *)
Lemma push_loop_app options fuel p b p1 r1 :
  (length (hp_buffer p) < fuel)%nat -> push_loop options fuel p = (p1, r1) ->
  hc_oversized (hp_counters p1) = hc_oversized (hp_counters p) -> 0 <= hp_max_head p ->
  push_loop options (S (length (hp_buffer p ++ b))) (set_buffer p (hp_buffer p ++ b)) =
  let '(p2, r2) := http_push options p1 b in (p2, r1 ++ r2).
Proof.
  revert p r1. induction fuel as [|fuel IH]; intros p r1 Hf E Ho Hm; [lia|].
  rewrite push_loop_cons in E. destruct (find_head_end (hp_buffer p)) as [e|] eqn:Ee.
  - cbv zeta in E. set (q := mkHttpParser (drop (Z.to_nat e) (hp_buffer p)) _ _ _) in E.
    destruct (push_loop options fuel q) as [p' r'] eqn:E1. injection E as -> <-.
    pose proof (find_head_end_range _ _ Ee) as He.
    assert (length (hp_buffer q) < fuel)%nat as Hq by (simpl; rewrite length_drop; lia).
    rewrite push_loop_cons. unfold set_buffer. cbn [hp_buffer hp_max_head hp_counters hp_resynchronising].
    rewrite (find_head_end_app _ _ _ Ee). cbv zeta.
    rewrite take_app_le, drop_app_le by lia.
    assert (IH' := IH q r' Hq E1 Ho Hm). unfold set_buffer in IH'. cbn [hp_buffer hp_max_head hp_counters hp_resynchronising q] in IH'.
    rewrite (push_loop_fuel options _ (S (length (drop (Z.to_nat e) (hp_buffer p) ++ b)))).
    + rewrite IH'. destruct (http_push options p1 b). by rewrite app_assoc.
    + simpl. rewrite !length_app, length_drop. lia.
    + simpl. lia.
  - destruct (Z.ltb_spec (hp_max_head p) (len (hp_buffer p))); simplify_eq; [simpl in Ho; lia|].
    unfold http_push. by destruct (push_loop options _ _).
Qed.

Lemma push_twice options p a b p1 r1 p2 r2 :
  0 <= hp_max_head p -> http_push options p a = (p1, r1) ->
  hc_oversized (hp_counters p1) = hc_oversized (hp_counters p) -> http_push options p1 b = (p2, r2) ->
  http_push options p (a ++ b) = (p2, r1 ++ r2).
Proof.
  intros Hm E1 Ho E2. unfold http_push in E1.
  apply (push_loop_app options _ _ b) in E1; [|simpl; lia|done|done].
  rewrite E2 in E1. cbn [set_buffer hp_buffer hp_max_head hp_counters hp_resynchronising] in E1.
  unfold http_push. rewrite app_assoc. exact E1.
Qed.

(** One delivery after the other. *)
Fixpoint pushes (options : NormalizeOptions) (p : HttpParser) (pieces : list (list Z)) : HttpParser * list HttpRequest :=
  match pieces with
  | [] => (p, [])
  | a :: pieces' => let '(p, r) := http_push options p a in let '(p, rs) := pushes options p pieces' in (p, r ++ rs)
  end.

Lemma push_monotone options p a p1 r1 :
  0 <= hp_max_head p -> http_push options p a = (p1, r1) ->
  hp_max_head p1 = hp_max_head p /\ hc_oversized (hp_counters p) <= hc_oversized (hp_counters p1).
Proof. intros Hm E. apply push_loop_done in E as (_ & _ & ? & ?); [done|simpl; lia|done]. Qed.

Lemma pushes_monotone options p pieces p1 r1 :
  0 <= hp_max_head p -> pushes options p pieces = (p1, r1) -> hc_oversized (hp_counters p) <= hc_oversized (hp_counters p1).
Proof.
  revert p r1. induction pieces as [|a pieces IH]; intros p r1 Hm E; cbn [pushes] in E; [by injection E as <- _|].
  destruct (http_push options p a) as [q r] eqn:Ea. destruct (pushes options q pieces) as [q' rs] eqn:Es. injection E as <- _.
  destruct (push_monotone _ _ _ _ _ Hm Ea) as [Hq Hle]. apply IH in Es; [lia|by rewrite Hq].
Qed.

(** C27: how the stream is cut into deliveries does not change what is parsed, as long as no head is given up. However the bytes were cut, when none of the deliveries before the last made the parser abandon an oversized head, the requests, the counters and the state are those of all the bytes delivered at once. (After a head was abandoned they need not be, [abandoned_by_the_cut].) *)
Theorem push_segmentation options p pieces b p1 r1 p2 r2 :
  0 <= hp_max_head p -> pushes options p pieces = (p1, r1) ->
  hc_oversized (hp_counters p1) = hc_oversized (hp_counters p) -> http_push options p1 b = (p2, r2) ->
  http_push options p (concat pieces ++ b) = (p2, r1 ++ r2).
Proof.
  revert p r1. induction pieces as [|a pieces IH]; intros p r1 Hm E1 Ho E2; cbn [pushes] in E1; [by injection E1 as <- <-|].
  destruct (http_push options p a) as [q r] eqn:Ea. destruct (pushes options q pieces) as [q' rs] eqn:Es. injection E1 as <- <-.
  destruct (push_monotone _ _ _ _ _ Hm Ea) as [Hq Hle]. pose proof (pushes_monotone _ _ _ _ _ ltac:(by rewrite Hq) Es) as Hle'.
  cbn [concat]. rewrite <- (app_assoc a), <- (app_assoc r). apply (push_twice options p a _ q); [done|done|lia|].
  apply (IH q rs); [by rewrite Hq|done|lia|done].
Qed.

(** The pieces of a request: one ends inside the blank line, one is empty. *)
Definition cut_request : list (list Z) := [of_string "GET /a HT"; of_string "TP/1.1" ++ [13; 10; 13]; []].

Lemma push_segmentation_witness :
  exists p2 r1 r2, length r2 = 1%nat /\
    http_push NormalizeOptions_default (parser_new 64) (concat cut_request ++ [10; 71]) = (p2, r1 ++ r2).
Proof.
  destruct (pushes NormalizeOptions_default (parser_new 64) cut_request) as [p1 r1] eqn:E1.
  destruct (http_push NormalizeOptions_default p1 [10; 71]) as [p2 r2] eqn:E2. exists p2, r1, r2.
  pose proof (push_segmentation NormalizeOptions_default (parser_new 64) cut_request [10; 71] p1 r1 p2 r2) as H.
  vm_compute in E1. injection E1 as <- <-. split; [vm_compute in E2; injection E2 as <- <-; reflexivity|].
  apply H; [vm_compute; discriminate|vm_compute; reflexivity|vm_compute; reflexivity|exact E2].
Defined.

(** A head over the limit is abandoned or parsed depending on how it was cut: delivered at once it is a
    request, and delivered in two pieces, the first of them over the limit, it is none. *)
Theorem abandoned_by_the_cut :
  let head := of_string "GET /" ++ replicate 64 97 in
  let end_of_head := of_string " HTTP/1.1" ++ [13; 10; 13; 10] in
  let '(p1, once) := http_push NormalizeOptions_default (parser_new 64) (head ++ end_of_head) in
  let '(p2, twice) := pushes NormalizeOptions_default (parser_new 64) [head; end_of_head] in
  length once = 1%nat /\ hc_oversized (hp_counters p1) = 0 /\ twice = [] /\ hc_oversized (hp_counters p2) = 1.
Proof. vm_compute. repeat split. Qed.

(** ** Reading back a request line *)

(** A token: bytes of which none is white space, and not empty. *)
Definition token (l : list Z) : Prop := l <> [] /\ Forall (fun b => is_ascii_whitespace b = false) l.

Lemma split_on_cons sep l rest :
  sep ∉ l -> split_on sep (l ++ sep :: rest) = l :: split_on sep rest.
Proof.
  induction l as [|b l IH]; intros Hl; simpl; [by rewrite Z.eqb_refl|].
  apply not_elem_of_cons in Hl as [Hb Hl]. destruct (Z.eqb_spec b sep); [done|]. by rewrite IH.
Qed.

Lemma split_once_cons sep l rest : sep ∉ l -> split_once sep (l ++ sep :: rest) = Some (l, rest).
Proof.
  induction l as [|b l IH]; intros Hl; simpl; [by rewrite Z.eqb_refl|].
  apply not_elem_of_cons in Hl as [Hb Hl]. destruct (Z.eqb_spec b sep); [done|]. by rewrite IH.
Qed.

Lemma skip_whitespace_app l m : Forall (fun b => is_ascii_whitespace b = true) l -> skip_whitespace (l ++ m) = skip_whitespace m.
Proof. induction 1 as [|b l Hb _ IH]; simpl; [done|]. by rewrite Hb. Qed.

Lemma skip_whitespace_id b l : is_ascii_whitespace b = false -> skip_whitespace (b :: l) = b :: l.
Proof. simpl. by intros ->. Qed.

(** White space after text that begins and ends with something else is what [trim] removes. *)
Lemma trim_bytes_id b l c ws :
  is_ascii_whitespace b = false -> is_ascii_whitespace c = false -> Forall (fun b => is_ascii_whitespace b = true) ws ->
  trim_bytes (b :: (l ++ [c]) ++ ws) = b :: l ++ [c].
Proof.
  intros Hb Hc Hws. unfold trim_bytes. rewrite skip_whitespace_id by done.
  rewrite app_comm_cons, reverse_app, skip_whitespace_app by by apply Forall_reverse.
  rewrite app_comm_cons, reverse_app, reverse_singleton. simpl. rewrite Hc.
  by rewrite reverse_cons, reverse_involutive.
Qed.

Lemma trim_bytes_ends l ws :
  (exists b l', l = b :: l' /\ is_ascii_whitespace b = false) ->
  (exists c l', l = l' ++ [c] /\ is_ascii_whitespace c = false) ->
  Forall (fun b => is_ascii_whitespace b = true) ws -> trim_bytes (l ++ ws) = l.
Proof.
  intros (b & l1 & -> & Hb) (c & l2 & E & Hc) Hws.
  destruct l2 as [|b2 l2]; simpl in E; simplify_eq.
  - unfold trim_bytes. simpl. rewrite Hb. rewrite reverse_cons, skip_whitespace_app by by apply Forall_reverse.
    simpl. by rewrite Hb.
  - change ((b2 :: l2 ++ [c]) ++ ws) with (b2 :: (l2 ++ [c]) ++ ws). by apply trim_bytes_id.
Qed.

Lemma token_first l m : token l -> exists b l', l ++ m = b :: l' /\ is_ascii_whitespace b = false.
Proof. intros [Hne HF]. destruct HF as [|b l Hb _]; [done|]. simpl. eauto. Qed.

Lemma token_last l m : token l -> exists c l', m ++ l = l' ++ [c] /\ is_ascii_whitespace c = false.
Proof.
  intros [Hne HF]. destruct l as [|c l _] using rev_ind; [done|]. apply Forall_app in HF as [_ HF].
  inversion_clear HF. exists c, (m ++ l). by rewrite app_assoc.
Qed.

Lemma trim_token l : token l -> trim_bytes l = l.
Proof.
  intros H. rewrite <- (app_nil_r l) at 1. apply trim_bytes_ends; [|by apply (token_last l [])|constructor].
  destruct (token_first l [] H) as (b & l' & E & ?). rewrite app_nil_r in E. eauto.
Qed.

Lemma token_not_in b l : is_ascii_whitespace b = true -> token l -> b ∉ l.
Proof. intros Hb [_ HF] Hin. rewrite Forall_forall in HF. specialize (HF b Hin). congruence. Qed.

(** A request line is read back: whatever method, target and version it was written with (a
    method of letters; no white space in any of the three), the request has exactly them, and its
    URI is the normal form of the target's path followed by the target's query unchanged. *)
Theorem request_line_roundtrip options method target version rest :
  token method -> forallb is_ascii_alphabetic method = true -> token target -> token version ->
  parse_head (method ++ [32] ++ target ++ [32] ++ version ++ [13; 10] ++ rest) options =
  let '(path, query) := split_query target in
  Some (add_headers 0
    (mkHttpRequest method target (bytes (normalize_path path options) ++ query)
      (flags (normalize_path path options)) version [] None None false)
    (split_on 10 rest)).
Proof.
  intros Hm Ha Ht Hv. unfold parse_head.
  set (line := method ++ [32] ++ target ++ [32] ++ version).
  assert (10 ∉ line ++ [13]) as Hnl.
  { unfold line. pose proof (token_not_in 10 _ eq_refl Hm). pose proof (token_not_in 10 _ eq_refl Ht).
    pose proof (token_not_in 10 _ eq_refl Hv). rewrite !elem_of_app, !list_elem_of_singleton. naive_solver lia. }
  replace (method ++ [32] ++ target ++ [32] ++ version ++ [13; 10] ++ rest) with ((line ++ [13]) ++ 10 :: rest)
    by (unfold line; by rewrite <- !app_assoc).
  rewrite split_on_cons by done.
  assert (trim_bytes (line ++ [13]) = line) as ->.
  { apply trim_bytes_ends; [by apply token_first| |by repeat constructor].
    unfold line. rewrite !app_assoc. by apply token_last. }
  assert (line <> []) as Hne by (unfold line; destruct Hm as [Hm _]; by destruct method).
  rewrite bool_decide_eq_false_2 by done.
  assert (splitn 3 32 line = [method; target; version]) as ->.
  { unfold line. cbn [splitn app]. rewrite split_once_cons by by apply token_not_in.
    cbn [app]. by rewrite split_once_cons by by apply token_not_in. }
  cbv iota zeta. rewrite !trim_token by done.
  rewrite (bool_decide_eq_false_2 (method = [])), (bool_decide_eq_false_2 (target = [])) by (by destruct Hm, Ht).
  rewrite Ha. simpl. by destruct (split_query target).
Qed.

Lemma request_line_roundtrip_witness :
  parse_head (of_string "GET" ++ [32] ++ of_string "/a/../b%2e?x=.." ++ [32] ++ of_string "HTTP/1.1" ++ [13; 10] ++
    (of_string "Host: h" ++ [13; 10; 13; 10])) NormalizeOptions_default =
  Some (mkHttpRequest (of_string "GET") (of_string "/a/../b%2e?x=..") (of_string "/b.?x=..")
    (mkFlags true false false false true false false false false false) (of_string "HTTP/1.1")
    (of_string "Host: h") None (Some (of_string "h")) false).
Proof.
  rewrite (request_line_roundtrip NormalizeOptions_default (of_string "GET") (of_string "/a/../b%2e?x=..")
    (of_string "HTTP/1.1") (of_string "Host: h" ++ [13; 10; 13; 10])).
  - vm_compute. reflexivity.
  - split; [done|]. repeat constructor.
  - reflexivity.
  - split; [done|]. repeat constructor.
  - split; [done|]. repeat constructor.
Defined.
