(* ===== verification/RuleModel.v ===== *)
(** The rule model: [crates/rules/src/model.rs] and the typed options of
    [crates/rules/src/options.rs], as the parser hands them to the engine.

    A [String] is its characters ([text]); an integer field is a [Z] in the range of its type. *)

From stdpp Require Import pretty.
From S2P Require Import Prelude Text.

(** ** Options *)

Inductive Buffer := Payload | HttpUri | HttpHeader | HttpUserAgent | HttpMethod | HttpHost.

#[global] Instance Buffer_eq_dec : EqDecision Buffer.
Proof. solve_decision. Defined.

(** The position of a buffer in its declaration, which its derived [Ord] compares. *)
Definition buffer_index (b : Buffer) : Z :=
  match b with
  | Payload => 0 | HttpUri => 1 | HttpHeader => 2 | HttpUserAgent => 3 | HttpMethod => 4 | HttpHost => 5
  end.

#[global] Instance Buffer_countable : Countable Buffer.
Proof.
  refine (inj_countable' buffer_index
    (fun z => match z with 0 => Payload | 1 => HttpUri | 2 => HttpHeader | 3 => HttpUserAgent
                         | 4 => HttpMethod | _ => HttpHost end) _).
  by intros [].
Defined.

Definition buffer_as_str (b : Buffer) : text :=
  of_string match b with
  | Payload => "payload" | HttpUri => "http.uri" | HttpHeader => "http.header"
  | HttpUserAgent => "http.user_agent" | HttpMethod => "http.method" | HttpHost => "http.host"
  end.

Definition buffer_from_keyword (k : text) : option Buffer :=
  if decide (k = of_string "http.uri") then Some HttpUri
  else if decide (k = of_string "http.header") then Some HttpHeader
  else if decide (k = of_string "http.user_agent") then Some HttpUserAgent
  else if decide (k = of_string "http.method") then Some HttpMethod
  else if decide (k = of_string "http.host") then Some HttpHost
  else None.

Definition is_http (b : Buffer) : bool := bool_decide (b <> Payload).

Record ContentMatch := mkContentMatch {
  cm_pattern : list Z;
  cm_buffer : Buffer;
  cm_negated : bool;
  cm_nocase : bool;
  cm_offset : option Z;
  cm_depth : option Z;
  cm_distance : option Z;
  cm_within : option Z;
  cm_fast_pattern : bool
}.

(** [ContentMatch::new]. *)
Definition content_new (pattern : list Z) : ContentMatch :=
  mkContentMatch pattern Payload false false None None None None false.

Definition is_relative (c : ContentMatch) : bool :=
  bool_decide (is_Some (cm_distance c)) || bool_decide (is_Some (cm_within c)).

Definition usable_as_fast_pattern (c : ContentMatch) : bool :=
  negb (cm_negated c) && negb (bool_decide (cm_pattern c = [])).

Record PcreMatch := mkPcreMatch {
  pm_source : text;
  pm_buffer : Buffer;
  pm_negated : bool;
  pm_case_insensitive : bool;
  pm_dot_matches_newline : bool;
  pm_multi_line : bool;
  pm_relative : bool
}.

Record FlowMatch := mkFlowMatch {
  fm_established : option bool;
  fm_to_server : option bool
}.

Inductive FlowBitsOp :=
| BSet (name : text)
| BUnset (name : text)
| BToggle (name : text)
| BIsSet (name : text)
| BIsNotSet (name : text)
| BNoAlert.

Definition is_condition (op : FlowBitsOp) : bool :=
  match op with BIsSet _ | BIsNotSet _ => true | _ => false end.

Inductive NumericOp := Equal | NotEqual | Less | LessOrEqual | Greater | GreaterOrEqual | BitAnd | BitXor.

(** [NumericOp::apply]. *)
Definition op_apply (op : NumericOp) (left right : Z) : bool :=
  match op with
  | Equal => left =? right
  | NotEqual => negb (left =? right)
  | Less => left <? right
  | LessOrEqual => left <=? right
  | Greater => right <? left
  | GreaterOrEqual => right <=? left
  | BitAnd => negb (Z.land left right =? 0)
  | BitXor => negb (Z.lxor left right =? 0)
  end.

(** [NumericOp::parse]. *)
Definition op_parse (t : text) : option NumericOp :=
  let t := trim t in
  if decide (t = of_string "=") then Some Equal
  else if decide (t = of_string "==") then Some Equal
  else if decide (t = of_string "!=") then Some NotEqual
  else if decide (t = of_string "!") then Some NotEqual
  else if decide (t = of_string "<") then Some Less
  else if decide (t = of_string "<=") then Some LessOrEqual
  else if decide (t = of_string ">") then Some Greater
  else if decide (t = of_string ">=") then Some GreaterOrEqual
  else if decide (t = of_string "&") then Some BitAnd
  else if decide (t = of_string "^") then Some BitXor
  else None.

Inductive Endian := Big | Little.

Record ByteTest := mkByteTest {
  bt_bytes : Z;
  bt_op : NumericOp;
  bt_value : Z;
  bt_offset : Z;
  bt_relative : bool;
  bt_endian : Endian;
  bt_negated : bool
}.

Record ByteJump := mkByteJump {
  bj_bytes : Z;
  bj_offset : Z;
  bj_relative : bool;
  bj_multiplier : Z;
  bj_endian : Endian;
  bj_post_offset : Z
}.

Record DsizeMatch := mkDsizeMatch {
  ds_op : NumericOp;
  ds_value : Z;
  ds_upper : option Z
}.

Definition dsize_matches (d : DsizeMatch) (length : Z) : bool :=
  match ds_upper d with
  | Some upper => (ds_value d <? length) && (length <? upper)
  | None => op_apply (ds_op d) length (ds_value d)
  end.

(** [ThresholdKind] and [Track]. *)
Inductive ThresholdKind := KThreshold | KLimit | KBoth.
Inductive Track := BySource | ByDestination | ByRule.

Record Threshold := mkThreshold {
  th_kind : ThresholdKind;
  th_track : Track;
  th_count : Z;
  th_seconds : Z
}.

Inductive NormalizationCondition :=
| PercentEncoded | DoubleEncoded | InvalidEscape | NullByte | Traversal | AboveRoot | SelfReference
| EmptySegment | Backslash | DecodeLimitReached.

Definition condition_as_str (c : NormalizationCondition) : text :=
  of_string match c with
  | PercentEncoded => "percent_encoded" | DoubleEncoded => "double_encoded"
  | InvalidEscape => "invalid_escape" | NullByte => "null_byte" | Traversal => "traversal"
  | AboveRoot => "above_root" | SelfReference => "self_reference" | EmptySegment => "empty_segment"
  | Backslash => "backslash" | DecodeLimitReached => "decode_limit_reached"
  end.

(** [NormalizationCondition::parse]. *)
Definition condition_parse (t : text) : option NormalizationCondition :=
  find (fun c => bool_decide (condition_as_str c = trim t))
    [PercentEncoded; DoubleEncoded; InvalidEscape; NullByte; Traversal; AboveRoot; SelfReference;
     EmptySegment; Backslash; DecodeLimitReached].

(** ** Host options *)

Inductive HostField :=
| FilePath | FileChange | AuthOutcome | AuthUser | AuthService | AuthSource | ProcessName | ProcessChange
| ProcessCommandLine.

Inductive HostEventKind := KFim | KAuth | KProcess.

#[global] Instance HostEventKind_eq_dec : EqDecision HostEventKind.
Proof. solve_decision. Defined.

Definition kind_as_str (k : HostEventKind) : text :=
  of_string match k with KFim => "fim" | KAuth => "auth" | KProcess => "process" end.

Definition field_as_str (f : HostField) : text :=
  of_string match f with
  | FilePath => "file.path" | FileChange => "file.change" | AuthOutcome => "auth.outcome"
  | AuthUser => "auth.user" | AuthService => "auth.service" | AuthSource => "auth.source"
  | ProcessName => "process.name" | ProcessChange => "process.change"
  | ProcessCommandLine => "process.cmdline"
  end.

(** [HostField::from_keyword]. *)
Definition field_from_keyword (k : text) : option HostField :=
  find (fun f => bool_decide (field_as_str f = k))
    [FilePath; FileChange; AuthOutcome; AuthUser; AuthService; AuthSource; ProcessName; ProcessChange;
     ProcessCommandLine].

Definition event_kind (f : HostField) : HostEventKind :=
  match f with
  | FilePath | FileChange => KFim
  | AuthOutcome | AuthUser | AuthService | AuthSource => KAuth
  | ProcessName | ProcessChange | ProcessCommandLine => KProcess
  end.

Inductive HostMatchKind := Exact | Prefix | Contains.

Definition default_match_kind (f : HostField) : HostMatchKind :=
  match f with FilePath => Prefix | ProcessCommandLine => Contains | _ => Exact end.

Inductive HostMatcher :=
| AnyOf (values : list text) (kind : HostMatchKind) (nocase : bool)
| HostRegex (source : text).

Record HostFieldMatch := mkHostFieldMatch {
  hf_field : HostField;
  hf_matcher : HostMatcher;
  hf_negated : bool
}.

Inductive RuleOption :=
| OContent (c : ContentMatch)
| OPcre (p : PcreMatch)
| OFlow (f : FlowMatch)
| OFlowBits (op : FlowBitsOp)
| OByteTest (t : ByteTest)
| OByteJump (j : ByteJump)
| ODsize (d : DsizeMatch)
| ONormalized (c : NormalizationCondition)
| OHost (h : HostFieldMatch).

Definition option_buffer (o : RuleOption) : option Buffer :=
  match o with
  | OContent c => Some (cm_buffer c)
  | OPcre p => Some (pm_buffer p)
  | _ => None
  end.

Definition option_host_event_kind (o : RuleOption) : option HostEventKind :=
  match o with OHost h => Some (event_kind (hf_field h)) | _ => None end.

Definition is_side_effect (o : RuleOption) : bool :=
  match o with
  | OFlowBits (BSet _) | OFlowBits (BUnset _) | OFlowBits (BToggle _) | OByteJump _ => true
  | _ => false
  end.

(** ** Headers *)

Inductive Action := Alert | Pass | Drop.

Definition blocks (a : Action) : bool := match a with Drop => true | _ => false end.

Definition action_as_str (a : Action) : text :=
  of_string match a with Alert => "alert" | Pass => "pass" | Drop => "drop" end.

(** [rules::Protocol], with a prefix since the wire protocols have the same names. *)
Inductive RuleProtocol := PTcp | PUdp | PIcmp | PIp | PHttp | PDns | PTls.

Definition protocol_as_str (p : RuleProtocol) : text :=
  of_string match p with
  | PTcp => "tcp" | PUdp => "udp" | PIcmp => "icmp" | PIp => "ip" | PHttp => "http" | PDns => "dns"
  | PTls => "tls"
  end.

Definition is_app_layer (p : RuleProtocol) : bool :=
  match p with PHttp | PDns | PTls => true | _ => false end.

Inductive Direction := ToDestination | Bidirectional.

#[global] Instance Direction_eq_dec : EqDecision Direction.
Proof. solve_decision. Defined.

Definition direction_as_str (d : Direction) : text :=
  of_string match d with ToDestination => "->" | Bidirectional => "<>" end.

Inductive AddressValue :=
| AAny
| AVar (name : text)
| AList (t : text)
| ALiteral (t : text).

Record AddressSpec := mkAddressSpec {
  as_negated : bool;
  as_value : AddressValue
}.

Inductive PortValue :=
| PAny
| PVar (name : text)
| PList (t : text)
| PSingle (port : Z)
| PRange (low high : option Z).

Record PortSpec := mkPortSpec {
  ps_negated : bool;
  ps_value : PortValue
}.

Record RuleHeader := mkRuleHeader {
  rh_action : Action;
  rh_protocol : RuleProtocol;
  rh_source : AddressSpec;
  rh_source_port : PortSpec;
  rh_direction : Direction;
  rh_destination : AddressSpec;
  rh_destination_port : PortSpec
}.

(** ** Rules *)

Record MetadataEntry := mkMetadataEntry {
  me_key : text;
  me_value : text
}.

Record RuleOrigin := mkRuleOrigin {
  ro_file : text;
  ro_line : Z
}.

Definition origin_fmt (o : RuleOrigin) : text := ro_file o ++ [58] ++ of_string (pretty (ro_line o)).

Record Rule := mkRule {
  r_header : RuleHeader;
  r_sid : Z;
  r_rev : Z;
  r_gid : option Z;
  r_priority : option Z;
  r_msg : text;
  r_classtype : option text;
  r_metadata : list MetadataEntry;
  r_references : list text;
  r_options : list RuleOption;
  r_threshold : option Threshold;
  r_no_alert : bool;
  r_unsupported_options : list text;
  r_raw : text;
  r_origin : option RuleOrigin
}.

Definition is_evaluable (r : Rule) : bool := bool_decide (r_unsupported_options r = []).

Definition severity (r : Rule) : Z := unwrap_or 3 (r_priority r).

(** [Rule::buffers]: each buffer the rule inspects once, in order. *)
Definition buffers (r : Rule) : list Buffer :=
  dedup (sort_by_key buffer_index (omap option_buffer (r_options r))).

(** [Rule::host_event_kind]: the loop over the kinds the options name. *)
Fixpoint host_kinds (found : option HostEventKind) (l : list HostEventKind) :
    (HostEventKind * HostEventKind) + option HostEventKind :=
  match l with
  | [] => inr found
  | kind :: l' =>
      match found with
      | Some existing => if decide (existing <> kind) then inl (existing, kind) else host_kinds (Some kind) l'
      | None => host_kinds (Some kind) l'
      end
  end.

Definition host_event_kind (r : Rule) : (HostEventKind * HostEventKind) + option HostEventKind :=
  host_kinds None (omap option_host_event_kind (r_options r)).

Definition is_host_rule_by_options (r : Rule) : bool :=
  existsb (fun o => bool_decide (is_Some (option_host_event_kind o))) (r_options r).

(** [Rule::needs_http]. *)
Definition rule_needs_http (r : Rule) : bool :=
  is_app_layer (rh_protocol (r_header r)) || existsb is_http (buffers r).

Definition is_host_rule (r : Rule) : bool := 1000000 <=? r_sid r.

Definition location (r : Rule) : text :=
  match r_origin r with None => of_string "<inline>" | Some o => origin_fmt o end.

(** ** Keywords *)

Lemma field_keyword_roundtrip f : field_from_keyword (field_as_str f) = Some f.
Proof. by destruct f. Qed.

Lemma condition_keyword_roundtrip c : condition_parse (condition_as_str c) = Some c.
Proof. by destruct c; vm_compute. Qed.

(** Exactly the sticky buffers have a keyword: [payload] is the default and is not one. *)
Lemma buffer_keyword_spec k b :
  buffer_from_keyword k = Some b <-> k = buffer_as_str b /\ is_http b = true.
Proof.
  unfold buffer_from_keyword. split.
  - intros E. repeat case_decide; simplify_eq; done.
  - intros [-> Hb]. by destruct b.
Qed.

(** ** Host rules *)

Lemma host_kinds_spec l found :
  match host_kinds found l with
  | inr None => found = None /\ l = []
  | inr (Some k) => Forall (eq k) l /\ (found = Some k \/ found = None /\ l <> [])
  | inl (a, b) => a <> b /\ b ∈ l
  end.
Proof.
  revert found. induction l as [|k l IH]; intros found; simpl.
  - destruct found; naive_solver.
  - destruct found as [e|]; [case_decide as Hd|].
    + split; [done|set_solver].
    + subst e. specialize (IH (Some k)).
      destruct (host_kinds (Some k) l) as [[a b]|[k'|]]; [set_solver| |naive_solver].
      destruct IH as [Hl [[= ->]|[? _]]]; [|done]. by split; [constructor|left].
    + specialize (IH (Some k)). destruct (host_kinds (Some k) l) as [[a b]|[k'|]]; [set_solver| |naive_solver].
      destruct IH as [Hl [[= ->]|[? _]]]; [|done]. split; [by constructor|right]. done.
Qed.
