(* ===== verification/Vars.v ===== *)
(** Resolving rule-header variables into address and port sets, and testing a packet against a
    header: [crates/engine/src/vars.rs].

    [AddressSet] and [PortSet] have the same shape, which is the record [Selection] here; the two
    recursive readers of an expression differ only in the table they look a variable up in and in how
    they read a literal, which are the arguments of [expression]. The readers call themselves on
    parts of the text and on the texts of variables, so they run on fuel ([None] when it is used up);
    [resolve_total] shows that the fuel given is always enough. *)

From S2P Require Import Prelude Text Net Event RuleModel.

Definition MAX_VAR_DEPTH : nat := 16.

(** ** Errors

    What the messages of the source are formatted from. *)

Inductive Description :=
| DText (t : text)
| DAddress (v : AddressValue)
| DPort (v : PortValue).

Inductive VarError :=
| Undefined (name : text)
| TooDeep (name : text)
| MalformedNetwork (t : text) (e : IpNetworkParseError)
| MalformedPort (t : text)
| UnsupportedNegation (d : Description).

(** ** Sets *)

Record Selection (A : Type) := mkSelection {
  any : bool;
  include : list A;
  exclude : list A
}.
Arguments mkSelection {A} any include exclude.
Arguments any {A} s.
Arguments include {A} s.
Arguments exclude {A} s.

Section selection.
Context {A K : Type} (inside : A -> K -> bool).

(** [contains]. *)
Definition sel_contains (s : Selection A) (k : K) : bool :=
  if existsb (fun n => inside n k) (exclude s) then false
  else any s || existsb (fun n => inside n k) (include s).

(** [Default::default]: the empty set. *)
Definition nothing : Selection A := mkSelection false [] [].

Definition everything : Selection A := mkSelection true [] [].

(** [negate]. *)
Definition negate (s : Selection A) (d : Description) : VarError + Selection A :=
  match any s, bool_decide (include s = []), bool_decide (exclude s = []) with
  | true, true, true => inr nothing
  | true, true, false => inr (mkSelection false (exclude s) [])
  | false, false, true => inr (mkSelection true [] (include s))
  | false, true, true => inr everything
  | _, _, _ => inl (UnsupportedNegation d)
  end.

(** [combined.any |= part.any; combined.include.extend(..); combined.exclude.extend(..)]. *)
Definition extend (combined part : Selection A) : Selection A :=
  mkSelection (any combined || any part) (include combined ++ include part)
    (exclude combined ++ exclude part).
End selection.

Abbreviation AddressSet := (Selection IpNetwork).
Abbreviation PortSet := (Selection (Z * Z)).

Definition address_contains : AddressSet -> IpAddr -> bool := sel_contains contains.

Definition port_inside (range : Z * Z) (port : Z) : bool := (range.1 <=? port) && (port <=? range.2).

Definition port_contains : PortSet -> Z -> bool := sel_contains port_inside.

(** ** Reading an expression *)

Definition strip_brackets (t : text) : option text := rest ← strip_prefix 91 t; strip_suffix 93 rest.

(** The loop of [split_top_level]: [part] holds, in reverse, the characters since the last comma. *)
Fixpoint split_commas (depth : nat) (part : text) (t : text) : list text :=
  match t with
  | [] => [reverse part]
  | c :: t' =>
      if c =? 91 then split_commas (S depth) (c :: part) t'
      else if c =? 93 then split_commas (pred depth) (c :: part) t'
      else if (c =? 44) && (depth =? 0)%nat then reverse part :: split_commas depth [] t'
      else split_commas depth (c :: part) t'
  end.

Definition split_top_level (t : text) : list text :=
  filter (fun p => p <> []) (trim <$> split_commas 0 [] t).

(** The loop over the elements of a list, which the first error ends. *)
Fixpoint combine_elements {A : Type} (read : text -> option (VarError + Selection A))
    (combined : Selection A) (elements : list text) : option (VarError + Selection A) :=
  match elements with
  | [] => Some (inr combined)
  | element :: elements' =>
      part ← read element;
      match part with
      | inl e => Some (inl e)
      | inr part => combine_elements read (extend combined part) elements'
      end
  end.

(** [address_expression] and [port_expression], with the case of a variable of [address_value] and
    [port_value] written out. *)
Fixpoint expression {A : Type} (table : gmap text text) (literal : text -> VarError + Selection A)
    (fuel : nat) (t : text) (depth : nat) : option (VarError + Selection A) :=
  match fuel with
  | O => None
  | S fuel =>
      let t := trim t in
      match strip_prefix 33 t with
      | Some rest =>
          r ← expression table literal fuel rest depth;
          Some (match r with inl e => inl e | inr s => negate s (DText (trim rest)) end)
      | None =>
          match strip_brackets t with
          | Some inner =>
              combine_elements (fun e => expression table literal fuel e depth) nothing
                (split_top_level inner)
          | None =>
              if eq_ignore_ascii_case t (of_string "any") then Some (inr everything)
              else match strip_prefix 36 t with
              | Some name =>
                  if (MAX_VAR_DEPTH <=? depth)%nat then Some (inl (TooDeep name))
                  else match table !! name with
                  | None => Some (inl (Undefined name))
                  | Some value => expression table literal fuel value (S depth)
                  end
              | None => Some (literal t)
              end
          end
      end
  end.

Definition address_literal (t : text) : VarError + AddressSet :=
  match from_str t with
  | inl e => inl (MalformedNetwork t e)
  | inr n => inr (mkSelection false [n] [])
  end.

Definition parse_port (t : text) (empty_default : Z) : VarError + Z :=
  let t := trim t in
  if bool_decide (t = []) then inr empty_default
  else match parse_unsigned U16_MAX t with
  | None => inl (MalformedPort t)
  | Some p => inr p
  end.

(** The end of [port_expression]: a range, or one port. *)
Definition port_literal (t : text) : VarError + PortSet :=
  match split_once 58 t with
  | Some (low, high) =>
      match parse_port low 0 with
      | inl e => inl e
      | inr low =>
          match parse_port high U16_MAX with
          | inl e => inl e
          | inr high => inr (mkSelection false [(low, high)] [])
          end
      end
  | None =>
      match parse_port t 0 with
      | inl e => inl e
      | inr port => inr (mkSelection false [(port, port)] [])
      end
  end.

Record VarTable := mkVarTable {
  vt_addresses : gmap text text;
  vt_ports : gmap text text
}.

(** The longest text of a table, which bounds the fuel: an expression of [n] characters at depth [d]
    makes at most [n + (16 - d) * (longest + 1)] nested calls. *)
Definition longest (table : gmap text text) : nat := foldr max O (length <$> (map_to_list table).*2).

Definition fuel_for (table : gmap text text) (t : text) (depth : nat) : nat :=
  S ((MAX_VAR_DEPTH - depth) * S (longest table) + length t).

Definition run_expression {A : Type} (table : gmap text text) (literal : text -> VarError + Selection A)
    (t : text) (depth : nat) : option (VarError + Selection A) :=
  expression table literal (fuel_for table t depth) t depth.

(** [address_value] and [port_value]. *)
Definition address_value (vars : VarTable) (v : AddressValue) (depth : nat) :
    option (VarError + AddressSet) :=
  match v with
  | AAny => Some (inr everything)
  | ALiteral t => Some (address_literal t)
  | AVar name =>
      if (MAX_VAR_DEPTH <=? depth)%nat then Some (inl (TooDeep name))
      else match vt_addresses vars !! name with
      | None => Some (inl (Undefined name))
      | Some t => run_expression (vt_addresses vars) address_literal t (S depth)
      end
  | AList t => run_expression (vt_addresses vars) address_literal t depth
  end.

Definition port_value (vars : VarTable) (v : PortValue) (depth : nat) : option (VarError + PortSet) :=
  match v with
  | PAny => Some (inr everything)
  | PSingle port => Some (inr (mkSelection false [(port, port)] []))
  | PRange low high => Some (inr (mkSelection false [(unwrap_or 0 low, unwrap_or U16_MAX high)] []))
  | PVar name =>
      if (MAX_VAR_DEPTH <=? depth)%nat then Some (inl (TooDeep name))
      else match vt_ports vars !! name with
      | None => Some (inl (Undefined name))
      | Some t => run_expression (vt_ports vars) port_literal t (S depth)
      end
  | PList t => run_expression (vt_ports vars) port_literal t depth
  end.

Definition resolve_addresses (vars : VarTable) (spec : AddressSpec) : option (VarError + AddressSet) :=
  set ← address_value vars (as_value spec) 0;
  Some (match set with
        | inl e => inl e
        | inr set => if as_negated spec then negate set (DAddress (as_value spec)) else inr set
        end).

Definition resolve_ports (vars : VarTable) (spec : PortSpec) : option (VarError + PortSet) :=
  set ← port_value vars (ps_value spec) 0;
  Some (match set with
        | inl e => inl e
        | inr set => if ps_negated spec then negate set (DPort (ps_value spec)) else inr set
        end).

(** ** Headers *)

Record CompiledHeader := mkCompiledHeader {
  ch_protocol : RuleProtocol;
  ch_source : AddressSet;
  ch_source_ports : PortSet;
  ch_destination : AddressSet;
  ch_destination_ports : PortSet;
  ch_bidirectional : bool
}.

(** [CompiledHeader::resolve]: the four fields in order, the first error ending it. *)
Definition resolve (h : RuleHeader) (vars : VarTable) : option (VarError + CompiledHeader) :=
  source ← resolve_addresses vars (rh_source h);
  match source with inl e => Some (inl e) | inr source =>
  source_ports ← resolve_ports vars (rh_source_port h);
  match source_ports with inl e => Some (inl e) | inr source_ports =>
  destination ← resolve_addresses vars (rh_destination h);
  match destination with inl e => Some (inl e) | inr destination =>
  destination_ports ← resolve_ports vars (rh_destination_port h);
  match destination_ports with inl e => Some (inl e) | inr destination_ports =>
  Some (inr (mkCompiledHeader (rh_protocol h) source source_ports destination destination_ports
    (bool_decide (rh_direction h = Bidirectional))))
  end end end end.

Definition protocol_matches (p : RuleProtocol) (wire : Protocol) : bool :=
  match p with
  | PIp => true
  | PTcp => bool_decide (wire = Tcp)
  | PUdp => bool_decide (wire = Udp)
  | PIcmp => bool_decide (wire = Icmp)
  | PHttp | PTls => bool_decide (wire = Tcp)
  | PDns => match wire with Udp | Tcp => true | _ => false end
  end.

(** [Option::is_none_or]. *)
Definition is_none_or {A} (o : option A) (f : A -> bool) : bool :=
  match o with None => true | Some x => f x end.

Definition one_way (h : CompiledHeader) (source : IpAddr) (source_port : option Z)
    (destination : IpAddr) (destination_port : option Z) : bool :=
  address_contains (ch_source h) source && address_contains (ch_destination h) destination &&
  is_none_or source_port (port_contains (ch_source_ports h)) &&
  is_none_or destination_port (port_contains (ch_destination_ports h)).

(** [CompiledHeader::matches]. *)
Definition header_matches (h : CompiledHeader) (t : NetTuple) : bool :=
  if negb (protocol_matches (ch_protocol h) (proto t)) then false
  else if one_way h (src_ip t) (src_port t) (dest_ip t) (dest_port t) then true
  else ch_bidirectional h && one_way h (dest_ip t) (dest_port t) (src_ip t) (src_port t).

(** The same packet seen from the other end. *)
Definition reply (t : NetTuple) : NetTuple :=
  mkNetTuple (dest_ip t) (dest_port t) (src_ip t) (src_port t) (proto t).

(** ** Sets: negation and union *)

Section selection_lemmas.
Context {A K : Type} (inside : A -> K -> bool).

Lemma sel_contains_true s k :
  sel_contains inside s k = true <->
  (any s = true \/ exists n, n ∈ include s /\ inside n k = true) /\
  forall n, n ∈ exclude s -> inside n k = false.
Proof.
  unfold sel_contains. destruct (existsb _ (exclude s)) eqn:He.
  - apply existsb_exists in He as (n & Hn & Hi). apply list_elem_of_In in Hn.
    split; [done|]. intros [_ H]. specialize (H n Hn). congruence.
  - rewrite orb_true_iff, existsb_exists. setoid_rewrite <- list_elem_of_In.
    split; [|naive_solver]. intros H. split; [done|]. intros n Hn.
    destruct (inside n k) eqn:Hi; [|done].
    assert (existsb (fun n => inside n k) (exclude s) = true); [|congruence].
    apply existsb_exists. exists n. by rewrite <- list_elem_of_In.
Qed.

(** A negation that is accepted is exact. *)
Lemma negate_contains s d s' k :
  negate s d = inr s' -> sel_contains inside s' k = negb (sel_contains inside s k).
Proof.
  unfold negate, sel_contains. intros E.
  destruct (any s) eqn:Ea; destruct (include s) as [|i I] eqn:Ei; destruct (exclude s) as [|x X] eqn:Ex;
    simpl in E; simplify_eq; simpl; try done; by case_match.
Qed.

(** It is refused exactly when the set has inclusions beside exclusions or beside [any], or only
    exclusions. *)
Lemma negate_refused (s : Selection A) d :
  (exists e, negate s d = inl e) <->
  (include s <> [] /\ (any s = true \/ exclude s <> [])) \/
  (any s = false /\ include s = [] /\ exclude s <> []).
Proof.
  unfold negate.
  destruct (any s) eqn:Ea; destruct (include s) as [|i I] eqn:Ei; destruct (exclude s) as [|x X] eqn:Ex;
    simpl; split; naive_solver.
Qed.

Lemma extend_contains s p k :
  sel_contains inside (extend s p) k = true <->
  (any s = true \/ any p = true \/ (exists n, n ∈ include s ++ include p /\ inside n k = true)) /\
  forall n, n ∈ exclude s ++ exclude p -> inside n k = false.
Proof. rewrite sel_contains_true. simpl. rewrite orb_true_iff. naive_solver. Qed.

Lemma nothing_contains k : sel_contains inside nothing k = false.
Proof. done. Qed.

Lemma everything_contains k : sel_contains inside everything k = true.
Proof. done. Qed.
End selection_lemmas.

(** What the loop over the elements of a list builds. *)
Lemma combine_elements_inv {A : Type} (read : text -> option (VarError + Selection A)) s es r :
  combine_elements read s es = Some (inr r) ->
  exists parts, Forall2 (fun e p => read e = Some (inr p)) es parts /\
    any r = any s || existsb any parts /\
    include r = include s ++ mjoin (include <$> parts) /\
    exclude r = exclude s ++ mjoin (exclude <$> parts).
Proof.
  revert s. induction es as [|e es IH]; intros s E; simpl in E.
  - simplify_eq. exists []. split; [constructor|]. simpl. rewrite orb_false_r, !app_nil_r. done.
  - destruct (read e) as [[?|p]|] eqn:Er; simpl in E; [done| |done].
    apply IH in E as (parts & HF & Ha & Hi & Hx). exists (p :: parts).
    split; [by constructor|]. rewrite Ha, Hi, Hx. simpl. rewrite orb_assoc, !app_assoc. done.
Qed.

(** ** Fuel *)

Lemma split_commas_length depth part t e :
  e ∈ split_commas depth part t -> (length e <= length part + length t)%nat.
Proof.
  revert depth part. induction t as [|c t IH]; intros depth part He; simpl in He.
  - apply list_elem_of_singleton in He as ->. rewrite length_reverse. lia.
  - repeat case_match; try (apply IH in He; simpl in *; lia).
    apply elem_of_cons in He as [->|He]; [rewrite length_reverse; simpl; lia|].
    apply IH in He. simpl in *. lia.
Qed.

Lemma split_top_level_length t e : e ∈ split_top_level t -> (length e <= length t)%nat.
Proof.
  unfold split_top_level. intros He. apply list_elem_of_filter in He as [_ He].
  apply list_elem_of_fmap in He as (p & -> & Hp). apply split_commas_length in Hp.
  pose proof (trim_length p). simpl in Hp. lia.
Qed.

Lemma strip_brackets_length t inner : strip_brackets t = Some inner -> length t = S (S (length inner)).
Proof.
  unfold strip_brackets. destruct (strip_prefix 91 t) as [r|] eqn:E; [|done]. simpl. intros H.
  apply strip_prefix_length in E. apply strip_suffix_length in H. lia.
Qed.

Lemma longest_lookup (table : gmap text text) name t : table !! name = Some t -> (length t <= longest table)%nat.
Proof.
  intros H. unfold longest. apply elem_of_map_to_list in H.
  induction (map_to_list table) as [|kv l IH]; [by apply elem_of_nil in H|].
  apply elem_of_cons in H as [<-|H]; csimpl; [lia|]. specialize (IH H). lia.
Qed.

Lemma combine_elements_total {A : Type} (read : text -> option (VarError + Selection A)) s es :
  Forall (fun e => is_Some (read e)) es -> is_Some (combine_elements read s es).
Proof.
  intros H. revert s. induction H as [|e es [r Hr] _ IH]; intros s; simpl; [eauto|].
  rewrite Hr. simpl. destruct r; eauto.
Qed.

Lemma expression_total {A : Type} (table : gmap text text) (literal : text -> VarError + Selection A) fuel t depth :
  ((MAX_VAR_DEPTH - depth) * S (longest table) + length t < fuel)%nat ->
  is_Some (expression table literal fuel t depth).
Proof.
  revert t depth. induction fuel as [|fuel IH]; intros t depth Hf; [by apply Nat.nlt_0_r in Hf|]. cbn [expression].
  pose proof (trim_length t) as Ht. set (m := ((MAX_VAR_DEPTH - depth) * S (longest table))%nat) in *.
  destruct (strip_prefix 33 (trim t)) as [rest|] eqn:E1.
  { apply strip_prefix_length in E1. destruct (IH rest depth) as [r ->]; [fold m; lia|]. simpl. eauto. }
  destruct (strip_brackets (trim t)) as [inner|] eqn:E2.
  { apply strip_brackets_length in E2. apply combine_elements_total, Forall_forall. intros e He.
    apply split_top_level_length in He. apply IH. fold m. lia. }
  destruct (eq_ignore_ascii_case _ _); [eauto|].
  destruct (strip_prefix 36 (trim t)) as [name|]; [|eauto].
  destruct (Nat.leb_spec MAX_VAR_DEPTH depth); [eauto|].
  destruct (table !! name) as [value|] eqn:Ev; [|eauto].
  apply longest_lookup in Ev. apply IH.
  assert (m = S (longest table) + (MAX_VAR_DEPTH - S depth) * S (longest table))%nat as Hm; [|lia].
  unfold m. replace (MAX_VAR_DEPTH - depth)%nat with (S (MAX_VAR_DEPTH - S depth)) by lia. done.
Qed.

Lemma combine_elements_mono {A : Type} (f g : text -> option (VarError + Selection A)) s es r :
  (forall e r, f e = Some r -> g e = Some r) ->
  combine_elements f s es = Some r -> combine_elements g s es = Some r.
Proof.
  intros Hfg. revert s. induction es as [|e es IH]; intros s E; simpl in *; [done|].
  destruct (f e) as [p|] eqn:Ef; [|done]. rewrite (Hfg _ _ Ef). simpl in *. destruct p; [done|]. by apply IH.
Qed.

(** More fuel changes nothing. *)
Lemma expression_mono {A : Type} (table : gmap text text) (literal : text -> VarError + Selection A) fuel fuel' t depth r :
  (fuel <= fuel')%nat -> expression table literal fuel t depth = Some r ->
  expression table literal fuel' t depth = Some r.
Proof.
  revert fuel' t depth r. induction fuel as [|fuel IH]; intros fuel' t depth r Hle E; [done|].
  destruct fuel' as [|fuel']; [lia|]. cbn [expression] in *.
  assert (Hle' : (fuel <= fuel')%nat) by lia.
  destruct (strip_prefix 33 (trim t)) as [rest|].
  { destruct (expression _ _ fuel rest depth) as [p|] eqn:Ep; [|done]. by rewrite (IH fuel' _ _ _ Hle' Ep). }
  destruct (strip_brackets (trim t)) as [inner|].
  { eapply combine_elements_mono; [|exact E]. intros e p Hp. by eapply IH. }
  repeat case_match; try done. by eapply IH.
Qed.

Lemma run_expression_total {A : Type} (table : gmap text text) (literal : text -> VarError + Selection A) t depth :
  is_Some (run_expression table literal t depth).
Proof. apply expression_total. unfold fuel_for. lia. Qed.

(** The equation of the readers: one unfolding, with the fuel of each part its own. *)
Lemma run_expression_fuel {A : Type} (table : gmap text text) (literal : text -> VarError + Selection A) fuel t depth r :
  expression table literal fuel t depth = Some r -> run_expression table literal t depth = Some r.
Proof.
  intros E. destruct (run_expression_total table literal t depth) as [r' Hr']. unfold run_expression in *.
  pose proof (expression_mono _ _ _ (max fuel (fuel_for table t depth)) _ _ _ (Nat.le_max_l _ _) E) as E1.
  pose proof (expression_mono _ _ _ (max fuel (fuel_for table t depth)) _ _ _ (Nat.le_max_r _ _) Hr') as E2.
  rewrite E1 in E2. by simplify_eq.
Qed.

(** ** The equations of the readers, without fuel *)

Section equations.
Context {A : Type} (table : gmap text text) (literal : text -> VarError + Selection A).

Lemma combine_elements_run fuel depth s es r :
  combine_elements (fun e => expression table literal fuel e depth) s es = Some r ->
  combine_elements (fun e => run_expression table literal e depth) s es = Some r.
Proof. apply combine_elements_mono. intros e p. apply run_expression_fuel. Qed.

Lemma run_expression_not t rest depth r :
  strip_prefix 33 (trim t) = Some rest -> run_expression table literal rest depth = Some r ->
  run_expression table literal t depth =
    Some (match r with inl e => inl e | inr s => negate s (DText (trim rest)) end).
Proof.
  intros E Hr. apply (run_expression_fuel _ _ (S (fuel_for table rest depth))). cbn [expression].
  rewrite E. unfold run_expression in Hr. by rewrite Hr.
Qed.

Lemma run_expression_list t inner depth r :
  strip_prefix 33 (trim t) = None -> strip_brackets (trim t) = Some inner ->
  run_expression table literal t depth = Some r ->
  combine_elements (fun e => run_expression table literal e depth) nothing (split_top_level inner) = Some r.
Proof.
  intros E1 E2. unfold run_expression at 1, fuel_for. cbn [expression]. rewrite E1, E2.
  apply combine_elements_run.
Qed.

Lemma run_expression_var name depth :
  trim (36 :: name) = 36 :: name ->
  run_expression table literal (36 :: name) depth =
    if (MAX_VAR_DEPTH <=? depth)%nat then Some (inl (TooDeep name))
    else match table !! name with
    | None => Some (inl (Undefined name))
    | Some value => run_expression table literal value (S depth)
    end.
Proof.
  intros Ht.
  set (v := match table !! name with Some value => fuel_for table value (S depth) | None => O end).
  assert (E : expression table literal (S v) (36 :: name) depth =
    if (MAX_VAR_DEPTH <=? depth)%nat then Some (inl (TooDeep name))
    else match table !! name with
    | None => Some (inl (Undefined name))
    | Some value => run_expression table literal value (S depth)
    end).
  { cbn [expression]. rewrite Ht. cbn [strip_prefix strip_brackets mbind option_bind].
    change (36 =? 33) with false. change (36 =? 36) with true. cbv iota.
    change (strip_brackets (36 :: name)) with (@None text). cbv iota.
    assert (eq_ignore_ascii_case (36 :: name) (of_string "any") = false) as -> by done.
    unfold v, run_expression. by destruct (table !! name). }
  destruct (run_expression_total table literal (36 :: name) depth) as [r Hr]. rewrite Hr, <- E.
  destruct (expression table literal (S v) (36 :: name) depth) as [r'|] eqn:E'.
  - apply run_expression_fuel in E'. congruence.
  - exfalso. destruct (MAX_VAR_DEPTH <=? depth)%nat; [done|].
    destruct (table !! name) as [value|]; [|done].
    destruct (run_expression_total table literal value (S depth)). congruence.
Qed.

(** Whatever a literal may hold is all a resolved set holds. *)
Lemma expression_elements (P : A -> Prop) fuel t depth s :
  (forall t s, literal t = inr s -> Forall P (include s) /\ Forall P (exclude s)) ->
  expression table literal fuel t depth = Some (inr s) -> Forall P (include s) /\ Forall P (exclude s).
Proof.
  intros HP. revert t depth s. induction fuel as [|fuel IH]; intros t depth s E; [done|].
  cbn [expression] in E. destruct (strip_prefix 33 (trim t)) as [rest|].
  { destruct (expression _ _ fuel rest depth) as [[?|p]|] eqn:Ep; [done| |done]. cbn [mbind option_bind] in E.
    apply IH in Ep as [? ?]. unfold negate in E. repeat case_match; simplify_eq; simpl; auto. }
  destruct (strip_brackets (trim t)) as [inner|].
  { apply combine_elements_inv in E as (parts & HF & _ & -> & ->). simpl.
    split; apply Forall_join, Forall_fmap, Forall_forall; intros p Hp;
      apply list_elem_of_lookup in Hp as [i Hi];
      destruct (Forall2_lookup_r _ _ _ _ _ HF Hi) as (e & _ & He); apply IH in He as [? ?]; done. }
  destruct (eq_ignore_ascii_case _ _); [simplify_eq; simpl; auto|].
  destruct (strip_prefix 36 (trim t)) as [name|]; [|simplify_eq; by eapply HP].
  repeat case_match; simplify_eq. by eapply IH.
Qed.
End equations.

(** ** Termination and cycles *)

Lemma resolve_addresses_total vars spec : is_Some (resolve_addresses vars spec).
Proof.
  unfold resolve_addresses, address_value.
  assert (forall t d, is_Some (run_expression (vt_addresses vars) address_literal t d)) as Hrun
    by (intros; apply run_expression_total).
  destruct (as_value spec) as [|name|t|t]; [eauto| |destruct (Hrun t O) as [r ->]; simpl; eauto|simpl; eauto].
  destruct (vt_addresses vars !! name) as [t|]; [|simpl; eauto].
  cbn [Nat.leb MAX_VAR_DEPTH]. destruct (Hrun t 1%nat) as [r ->]. simpl. eauto.
Qed.

Lemma resolve_ports_total vars spec : is_Some (resolve_ports vars spec).
Proof.
  unfold resolve_ports, port_value.
  assert (forall t d, is_Some (run_expression (vt_ports vars) port_literal t d)) as Hrun
    by (intros; apply run_expression_total).
  destruct (ps_value spec) as [|name|t|p|l h];
    [eauto| |destruct (Hrun t O) as [r ->]; simpl; eauto|simpl; eauto|simpl; eauto].
  destruct (vt_ports vars !! name) as [t|]; [|simpl; eauto].
  cbn [Nat.leb MAX_VAR_DEPTH]. destruct (Hrun t 1%nat) as [r ->]. simpl. eauto.
Qed.

Lemma resolve_total h vars : is_Some (resolve h vars).
Proof.
  unfold resolve.
  destruct (resolve_addresses_total vars (rh_source h)) as [[?|s] ->]; simpl; [eauto|].
  destruct (resolve_ports_total vars (rh_source_port h)) as [[?|sp] ->]; simpl; [eauto|].
  destruct (resolve_addresses_total vars (rh_destination h)) as [[?|d] ->]; simpl; [eauto|].
  destruct (resolve_ports_total vars (rh_destination_port h)) as [[?|dp] ->]; simpl; eauto.
Qed.

(** A set of variables each of which is just a reference to one of them. *)
Definition closed_references (table : gmap text text) (S : text -> Prop) : Prop :=
  forall name, S name -> exists name', S name' /\ table !! name = Some (36 :: name') /\
    trim (36 :: name') = 36 :: name'.

Lemma cycle_too_deep {A : Type} (table : gmap text text) (literal : text -> VarError + Selection A) S fuel depth name :
  closed_references table S -> S name -> trim (36 :: name) = 36 :: name ->
  (depth + fuel = MAX_VAR_DEPTH)%nat ->
  exists name', run_expression table literal (36 :: name) depth = Some (inl (TooDeep name')).
Proof.
  intros HS. revert depth name. induction fuel as [|fuel IH]; intros depth name Hn Ht Hd;
    rewrite run_expression_var by done.
  - rewrite (proj2 (Nat.leb_le _ _)) by lia. eauto.
  - rewrite (proj2 (Nat.leb_gt _ _)) by lia. destruct (HS name Hn) as (name' & Hn' & -> & Ht').
    apply IH; [done|done|lia].
Qed.

(** Variables that refer to each other in a loop are an error, not a hang and not an empty
    set. *)
Theorem reference_cycle_is_an_error vars S name negated :
  closed_references (vt_addresses vars) S -> S name ->
  exists name', resolve_addresses vars (mkAddressSpec negated (AVar name)) = Some (inl (TooDeep name')).
Proof.
  intros HS Hn. unfold resolve_addresses. simpl. destruct (HS name Hn) as (name1 & Hn1 & -> & Ht).
  destruct (cycle_too_deep (vt_addresses vars) address_literal S 15 1 name1 HS Hn1 Ht) as [name' E]; [done|].
  rewrite E. simpl. eauto.
Qed.

Definition loop_table : VarTable :=
  mkVarTable {[ of_string "A" := of_string "$B"; of_string "B" := of_string "$A" ]} ∅.

Lemma reference_cycle_is_an_error_witness :
  exists name', resolve_addresses loop_table (mkAddressSpec false (AVar (of_string "A"))) =
    Some (inl (TooDeep name')).
Proof.
  apply (reference_cycle_is_an_error loop_table (fun n => n = of_string "A" \/ n = of_string "B")); [|by left].
  intros n [->| ->].
  - exists (of_string "B"). split; [by right|]. split; vm_compute; reflexivity.
  - exists (of_string "A"). split; [by left|]. split; vm_compute; reflexivity.
Defined.

(** ** Negation *)

(** A negation that is accepted is exact. In a header field, [!] selects exactly the addresses
    the field without it does not; so does [!] in front of an expression of the configuration, whose
    own resolution it needs. *)
Theorem negation_is_exact vars v s' :
  resolve_addresses vars (mkAddressSpec true v) = Some (inr s') ->
  exists s, resolve_addresses vars (mkAddressSpec false v) = Some (inr s) /\
    forall a, address_contains s' a = negb (address_contains s a).
Proof.
  unfold resolve_addresses. simpl. destruct (address_value vars v 0) as [[?|s]|]; simpl; [done| |done].
  intros [= E]. exists s. split; [done|]. intros a. by eapply negate_contains.
Qed.

Definition home_table : VarTable :=
  mkVarTable {[ of_string "HOME_NET" := of_string "[192.168.0.0/16,10.0.0.0/8]";
                of_string "EXTERNAL_NET" := of_string "!$HOME_NET" ]}
             {[ of_string "HTTP_PORTS" := of_string "[80,8080,8000:8100]" ]}.

Lemma negation_is_exact_witness :
  exists s, resolve_addresses home_table (mkAddressSpec false (AVar (of_string "HOME_NET"))) = Some (inr s) /\
    address_contains (mkSelection true [] [mkIpNetwork (V4 3232235520) 16; mkIpNetwork (V4 167772160) 8]) (V4 167838211) =
    negb (address_contains s (V4 167838211)).
Proof.
  destruct (negation_is_exact home_table (AVar (of_string "HOME_NET"))
    (mkSelection true [] [mkIpNetwork (V4 3232235520) 16; mkIpNetwork (V4 167772160) 8])) as (s & Hs & H);
    [vm_compute; reflexivity|]. exists s. split; [exact Hs|]. apply H.
Defined.

(** The same for [!] in front of an expression. *)
Lemma negated_expression_exact {A K : Type} (inside : A -> K -> bool) (table : gmap text text)
    (literal : text -> VarError + Selection A) t rest depth s' :
  strip_prefix 33 (trim t) = Some rest -> run_expression table literal t depth = Some (inr s') ->
  exists s, run_expression table literal rest depth = Some (inr s) /\
    forall k, sel_contains inside s' k = negb (sel_contains inside s k).
Proof.
  intros E H. destruct (run_expression_total table literal rest depth) as [r Hr].
  rewrite (run_expression_not _ _ _ _ _ _ E Hr) in H. destruct r as [?|s]; [done|].
  exists s. split; [done|]. intros k. simplify_eq. by eapply negate_contains.
Qed.

(** ** Lists *)

(** What a bracketed list selects: the keys that some element includes, or every key when some
    element is [any] or an exclusion, less the keys that any element excludes. *)
Theorem list_selects {A K : Type} (inside : A -> K -> bool) (table : gmap text text)
    (literal : text -> VarError + Selection A) t inner depth s :
  strip_prefix 33 (trim t) = None -> strip_brackets (trim t) = Some inner ->
  run_expression table literal t depth = Some (inr s) ->
  exists parts,
    Forall2 (fun e p => run_expression table literal e depth = Some (inr p)) (split_top_level inner) parts /\
    forall k, sel_contains inside s k = true <->
      (exists p, p ∈ parts /\ (any p = true \/ exists n, n ∈ include p /\ inside n k = true)) /\
      (forall p n, p ∈ parts -> n ∈ exclude p -> inside n k = false).
Proof.
  intros E1 E2 H. apply (run_expression_list table literal t inner depth) in H; [|done|done].
  apply combine_elements_inv in H as (parts & HF & Ha & Hi & Hx). exists parts. split; [done|].
  intros k. rewrite sel_contains_true, Ha, Hi, Hx. simpl.
  assert (existsb any parts = true <-> exists p, p ∈ parts /\ any p = true) as ->.
  { rewrite existsb_exists. by setoid_rewrite <- list_elem_of_In. }
  setoid_rewrite list_elem_of_join. setoid_rewrite list_elem_of_fmap. naive_solver.
Qed.

Lemma list_selects_witness :
  exists parts : list PortSet,
    Forall2 (fun e p => run_expression (vt_ports home_table) port_literal e 0 = Some (inr p))
      (split_top_level (of_string "80,8080,8000:8100")) parts /\
    forall k, port_contains (mkSelection false [(80, 80); (8080, 8080); (8000, 8100)] []) k = true <->
      (exists p, p ∈ parts /\ (any p = true \/ exists n, n ∈ include p /\ port_inside n k = true)) /\
      (forall p n, p ∈ parts -> n ∈ exclude p -> port_inside n k = false).
Proof.
  apply (list_selects port_inside (vt_ports home_table) port_literal (of_string "[80,8080,8000:8100]"));
    vm_compute; reflexivity.
Defined.

(** An exclusion inside a list stands for everything but itself, so the inclusions beside it select
    nothing more: [[10.0.0.0/8,!10.1.0.0/16]] is every address outside [10.1.0.0/16], [8.8.8.8]
    among them, and not the part of [10.0.0.0/8] outside it. *)
Theorem list_exclusion_ignores_inclusions :
  exists s, resolve_addresses home_table
      (mkAddressSpec false (AList (of_string "[10.0.0.0/8,!10.1.0.0/16]"))) = Some (inr s) /\
    address_contains s (V4 134744072) = true /\
    forall a, address_contains s a = negb (contains (mkIpNetwork (V4 167837696) 16) a).
Proof.
  exists (mkSelection true [mkIpNetwork (V4 167772160) 8] [mkIpNetwork (V4 167837696) 16]).
  split; [vm_compute; reflexivity|]. split; [vm_compute; reflexivity|].
  intros a. unfold address_contains, sel_contains. simpl. by destruct (contains _ a).
Qed.

(** ** What a resolved set holds *)

Lemma address_literal_elements t s :
  address_literal t = inr s -> Forall net_wf (include s) /\ Forall net_wf (exclude s).
Proof.
  unfold address_literal. destruct (from_str t) as [?|n] eqn:E; intros; simplify_eq. simpl.
  apply from_str_wf in E. auto.
Qed.

Lemma parse_port_range t d p : in_u16 d -> parse_port t d = inr p -> in_u16 p.
Proof.
  unfold parse_port. intros Hd E. repeat case_match; simplify_eq; [done|].
  match goal with H : parse_unsigned _ _ = Some _ |- _ => apply parse_unsigned_range in H end; done.
Qed.

Lemma port_literal_elements t s :
  port_literal t = inr s ->
  Forall (fun r => in_u16 r.1 /\ in_u16 r.2) (include s) /\ Forall (fun r => in_u16 r.1 /\ in_u16 r.2) (exclude s).
Proof.
  unfold port_literal. intros E.
  repeat case_match; simplify_eq; simpl;
    repeat match goal with H : parse_port _ _ = inr _ |- _ => apply parse_port_range in H; [|done] end;
    auto.
Qed.

Lemma negate_elements {A} (P : A -> Prop) s d s' :
  Forall P (include s) /\ Forall P (exclude s) -> negate s d = inr s' ->
  Forall P (include s') /\ Forall P (exclude s').
Proof. intros [? ?]. unfold negate. repeat case_match; intros; simplify_eq; simpl; auto. Qed.

(** Every network of a resolved header is well formed (its host bits are clear, its prefix fits
    its family), so that membership is agreement on the prefix. *)
Theorem resolved_networks_wf vars spec s :
  resolve_addresses vars spec = Some (inr s) -> Forall net_wf (include s) /\ Forall net_wf (exclude s).
Proof.
  unfold resolve_addresses. destruct (address_value vars (as_value spec) 0) as [[?|s0]|] eqn:E; simpl; [done| |done].
  intros [= H]. assert (Forall net_wf (include s0) /\ Forall net_wf (exclude s0)) as H0.
  { assert (forall t d s, run_expression (vt_addresses vars) address_literal t d = Some (inr s) ->
      Forall net_wf (include s) /\ Forall net_wf (exclude s)) as Hrun.
    { intros t d s' Hs. eapply expression_elements; [apply address_literal_elements|exact Hs]. }
    unfold address_value in E. repeat case_match; simplify_eq; simpl; eauto using address_literal_elements. }
  destruct (as_negated spec); [|by simplify_eq]. by eapply negate_elements.
Qed.

Lemma resolved_networks_wf_witness :
  Forall net_wf [mkIpNetwork (V4 3232235520) 16; mkIpNetwork (V4 167772160) 8] /\ Forall net_wf [].
Proof.
  apply (resolved_networks_wf home_table (mkAddressSpec false (AVar (of_string "HOME_NET")))
    (mkSelection false [mkIpNetwork (V4 3232235520) 16; mkIpNetwork (V4 167772160) 8] [])).
  vm_compute. reflexivity.
Defined.

(** ** Headers *)

Lemma header_matches_spec h t :
  header_matches h t =
  protocol_matches (ch_protocol h) (proto t) &&
  (one_way h (src_ip t) (src_port t) (dest_ip t) (dest_port t) ||
   ch_bidirectional h && one_way h (dest_ip t) (dest_port t) (src_ip t) (src_port t)).
Proof. unfold header_matches. destruct (protocol_matches _ _), (one_way h (src_ip t) _ _ _); done. Qed.

(** A bidirectional header selects a packet exactly when it selects the packet's reply; a
    one-way header selects it exactly when the protocol, both addresses and both ports (where the
    protocol has ports) are in their sets. *)
Theorem header_direction h t :
  if ch_bidirectional h then header_matches h (reply t) = header_matches h t
  else header_matches h t = true <->
    protocol_matches (ch_protocol h) (proto t) = true /\
    address_contains (ch_source h) (src_ip t) = true /\
    address_contains (ch_destination h) (dest_ip t) = true /\
    (forall p, src_port t = Some p -> port_contains (ch_source_ports h) p = true) /\
    (forall p, dest_port t = Some p -> port_contains (ch_destination_ports h) p = true).
Proof.
  destruct (ch_bidirectional h) eqn:Hb; rewrite !header_matches_spec, !Hb; simpl.
  - f_equal. apply orb_comm.
  - rewrite orb_false_r. unfold one_way. rewrite !andb_true_iff.
    destruct (src_port t), (dest_port t); simpl; naive_solver.
Qed.

(** A reversed range of a variable resolves to a set that holds no port: the rule is armed and can
    never match. *)
Theorem reversed_range_selects_nothing low high p :
  high < low -> port_contains (mkSelection false [(low, high)] []) p = false.
Proof.
  intros H. unfold port_contains, sel_contains, port_inside. simpl.
  destruct (Z.leb_spec low p), (Z.leb_spec p high); simpl; try done. lia.
Qed.

Example reversed_range_resolves :
  resolve_ports home_table (mkPortSpec false (PList (of_string "[8100:8000]"))) =
  Some (inr (mkSelection false [(8100, 8000)] [])).
Proof. vm_compute. reflexivity. Qed.
