(* ===== verification/Eval.v ===== *)
(** Evaluating one rule against one unit of inspected data: [crates/engine/src/eval.rs], with the
    compiled options of [crates/engine/src/compile.rs] that it walks.

    The engine's regular expressions come from the [regex] crate, which is the class [RegexLib].
    [None] at the outer level of a result is a panic (a slice out of range); the arithmetic of a jump
    wraps, as it does in the release build. *)

From S2P Require Import Prelude Text Net Event Normalize RuleModel Vars.

(** ** The regular expressions of the [regex] crate *)

Record CompileLimits := mkCompileLimits {
  regex_size_limit : Z;
  regex_dfa_size_limit : Z
}.

Definition CompileLimits_default : CompileLimits := mkCompileLimits 1048576 1048576.

(** [RegexBuilder ... build] on the fields of a [pcre] option, with the text of its error, and
    [Regex::find], which gives the start and the end of a match inside what was searched; and the
    same for expressions on text ([regex::Regex]), of which only [is_match] is used. *)
Class RegexLib := {
  Regex : Type;
  regex_build : PcreMatch -> CompileLimits -> text + Regex;
  regex_find : Regex -> list Z -> option (Z * Z);
  regex_find_range : forall r h s e, regex_find r h = Some (s, e) -> 0 <= s <= e /\ e <= len h;
  TextRegex : Type;
  text_regex_build : text -> CompileLimits -> text + TextRegex;
  text_regex_is_match : TextRegex -> text -> bool
}.

(** ** Data *)

Record Buffers := mkBuffers {
  b_payload : list Z;
  b_http_uri : option (list Z);
  b_http_header : option (list Z);
  b_http_user_agent : option (list Z);
  b_http_method : option (list Z);
  b_http_host : option (list Z);
  b_normalization : NormalizationFlags
}.

(** [Buffers { payload, ..Buffers::default() }]. *)
Definition payload_only (payload : list Z) : Buffers :=
  mkBuffers payload None None None None None Flags_default.

Definition get (b : Buffers) (which : Buffer) : option (list Z) :=
  match which with
  | Payload => Some (b_payload b)
  | HttpUri => b_http_uri b
  | HttpHeader => b_http_header b
  | HttpUserAgent => b_http_user_agent b
  | HttpMethod => b_http_method b
  | HttpHost => b_http_host b
  end.

Record MatchInput := mkMatchInput {
  mi_tuple : NetTuple;
  mi_established : bool;
  mi_to_server : bool;
  mi_buffers : Buffers
}.

(** [FlowBits]: the names that are set. *)
Abbreviation FlowBits := (gset text).

Definition bit_is_set (bits : FlowBits) (name : text) : bool := bool_decide (name ∈ bits).

(** [FlowBits::apply]. *)
Definition bits_apply (bits : FlowBits) (op : FlowBitsOp) (limit : Z) : FlowBits :=
  match op with
  | BSet name =>
      if (Z.of_nat (size bits) <? limit) || bool_decide (name ∈ bits) then {[ name ]} ∪ bits else bits
  | BUnset name => bits ∖ {[ name ]}
  | BToggle name =>
      if bool_decide (name ∈ bits) then bits ∖ {[ name ]}
      else if Z.of_nat (size bits) <? limit then {[ name ]} ∪ bits else bits
  | BIsSet _ | BIsNotSet _ | BNoAlert => bits
  end.

Inductive CompiledOption `{RegexLib} :=
| CContent (c : ContentMatch)
| CPcre (matcher : Regex) (buffer : Buffer) (negated relative : bool)
| CFlow (f : FlowMatch)
| CFlowBits (op : FlowBitsOp)
| CByteTest (t : ByteTest)
| CByteJump (j : ByteJump)
| CDsize (d : DsizeMatch)
| CNormalized (c : NormalizationCondition).

Record CompiledRule `{RegexLib} := mkCompiledRule {
  cr_sid : Z;
  cr_rev : Z;
  cr_msg : text;
  cr_classtype : option text;
  cr_severity : Z;
  cr_blocks : bool;
  cr_metadata : gmap text (list text);
  cr_header : CompiledHeader;
  cr_options : list CompiledOption;
  cr_threshold : option Threshold;
  cr_no_alert : bool;
  cr_needs_http : bool;
  cr_origin : text
}.
Arguments mkCompiledRule {_} _ _ _ _ _ _ _ _ _ _ _ _ _.

(** ** Searching *)

(** [window.iter().zip(needle).all(eq_ignore_ascii_case)], or equality of the two slices. *)
Definition window_matches (nocase : bool) (needle window : list Z) : bool :=
  if nocase
  then forallb (fun ab => to_ascii_lowercase ab.1 =? to_ascii_lowercase ab.2) (zip window needle)
  else bool_decide (window = needle).

Definition find (haystack needle : list Z) (nocase : bool) : option Z :=
  if bool_decide (needle = []) || (length haystack <? length needle)%nat then None
  else window_position (length needle) (window_matches nocase needle) haystack.

(** [i64::saturating_add]. *)
Definition sat_add_i64 (a b : Z) : Z := Z.max (- 2 ^ 63) (Z.min (2 ^ 63 - 1) (a + b)).

(** Where a content match searches: from [start] to [end], inside the buffer. *)
Definition content_window (c : ContentMatch) (length cursor : Z) : Z * Z :=
  let base := if is_relative c then cursor else 0 in
  let start := Z.max 0 (sat_add_i64 (unwrap_or 0 (cm_distance c))
    (if is_relative c then as_i64 base else unwrap_or 0 (cm_offset c))) in
  let end_ := length in
  let end_ := match cm_within c with Some within => Z.min end_ (sat_add base within) | None => end_ end in
  let end_ := match cm_depth c with Some depth => Z.min end_ (sat_add start depth) | None => end_ end in
  let start := Z.min start length in
  (start, Z.max (Z.min end_ length) start).

(** [match_content]: whether the condition held, and the cursor after it. *)
Definition match_content (c : ContentMatch) (haystack : list Z) (cursor : Z) : option (bool * Z) :=
  let '(start, end_) := content_window c (len haystack) cursor in
  region ← slice haystack start end_;
  Some (match find region (cm_pattern c) (cm_nocase c), cm_negated c with
        | Some position, false => (true, start + position + len (cm_pattern c))
        | None, true => (true, cursor)
        | _, _ => (false, cursor)
        end).

(** ** Numbers *)

(** [(value << 8) | byte] on a [u64]. *)
Definition push_byte (value byte : Z) : Z := Z.lor (Z.shiftl value 8 mod 2 ^ 64) byte.

Definition read_value (haystack : list Z) (position bytes : Z) (endian : Endian) : option Z :=
  if U64_MAX <? position + bytes then None
  else
    region ← slice haystack position (position + bytes);
    Some (foldl push_byte 0 (match endian with Big => region | Little => reverse region end)).

Definition resolve_position (base offset : Z) (relative : bool) : option Z :=
  let position := (if relative then as_i64 base else 0) + offset in
  if (position <? - 2 ^ 63) || (2 ^ 63 - 1 <? position) then None
  else if position <? 0 then None else Some position.

Definition match_byte_test (t : ByteTest) (haystack : list Z) (cursor : Z) : bool :=
  match resolve_position cursor (bt_offset t) (bt_relative t) with
  | None => false
  | Some position =>
      match read_value haystack position (bt_bytes t) (bt_endian t) with
      | None => false
      | Some value => xorb (op_apply (bt_op t) value (bt_value t)) (bt_negated t)
      end
  end.

(** [i64] addition that wraps. *)
Definition wrapping_add_i64 (a b : Z) : Z := as_i64 ((a + b) mod 2 ^ 64).

(** [apply_byte_jump]: whether the jump landed inside the buffer, and the cursor after it. *)
Definition apply_byte_jump (j : ByteJump) (haystack : list Z) (cursor : Z) : bool * Z :=
  match resolve_position cursor (bj_offset j) (bj_relative j) with
  | None => (false, cursor)
  | Some position =>
      match read_value haystack position (bj_bytes j) (bj_endian j) with
      | None => (false, cursor)
      | Some value =>
          let scaled := value * bj_multiplier j in
          if U64_MAX <? scaled then (false, cursor)
          else
            let destination := scaled + (position + bj_bytes j) in
            if U64_MAX <? destination then (false, cursor)
            else
              let with_post := wrapping_add_i64 (as_i64 destination) (bj_post_offset j) in
              if with_post <? 0 then (false, cursor)
              else if with_post <=? len haystack then (true, with_post) else (false, cursor)
      end
  end.

(** ** Conditions *)

Definition match_flow (f : FlowMatch) (input : MatchInput) : bool :=
  match fm_established f with Some e => eqb e (mi_established input) | None => true end &&
  match fm_to_server f with Some s => eqb s (mi_to_server input) | None => true end.

Definition normalization_matches (c : NormalizationCondition) (f : NormalizationFlags) : bool :=
  match c with
  | PercentEncoded => percent_encoded f
  | DoubleEncoded => double_encoded f
  | InvalidEscape => invalid_escape f
  | NullByte => null_byte f
  | Traversal => traversal f
  | AboveRoot => above_root f
  | SelfReference => self_reference f
  | EmptySegment => empty_segment f
  | Backslash => backslash f
  | DecodeLimitReached => decode_limit_reached f
  end.

(** ** Rules *)

Section evaluate.
Context `{RegexLib}.

(** The loop's variables; [cursors] is the array indexed by [buffer_index]. *)
Record EvalState := mkEvalState {
  es_cursors : Buffer -> Z;
  es_current : Buffer;
  es_side_effects : list FlowBitsOp
}.

Definition set_cursor (b : Buffer) (cursor : Z) (cursors : Buffer -> Z) : Buffer -> Z :=
  fun b' => if decide (b' = b) then cursor else cursors b'.

Definition eval_start : EvalState := mkEvalState (fun _ => 0) Payload [].

(** One turn of the loop: a panic, no match, or the variables after it. *)
Definition eval_option (input : MatchInput) (bits : FlowBits) (st : EvalState) (o : CompiledOption) :
    option (option EvalState) :=
  match o with
  | CContent c =>
      match get (mi_buffers input) (cm_buffer c) with
      | None => Some None
      | Some haystack =>
          '(ok, cursor) ← match_content c haystack (es_cursors st (cm_buffer c));
          Some (if (ok : bool)
                then Some (mkEvalState (set_cursor (cm_buffer c) cursor (es_cursors st)) (cm_buffer c)
                  (es_side_effects st))
                else None)
      end
  | CPcre matcher buffer negated relative =>
      match get (mi_buffers input) buffer with
      | None => Some None
      | Some haystack =>
          let start := if (relative : bool) then Z.min (es_cursors st buffer) (len haystack) else 0 in
          rest ← slice haystack start (len haystack);
          Some (match regex_find matcher rest, negated with
                | Some (_, found_end), false =>
                    Some (mkEvalState (set_cursor buffer (start + found_end) (es_cursors st)) buffer
                      (es_side_effects st))
                | None, true => Some (mkEvalState (es_cursors st) buffer (es_side_effects st))
                | _, _ => None
                end)
      end
  | CFlow f => Some (if match_flow f input then Some st else None)
  | CFlowBits (BIsSet name) => Some (if bit_is_set bits name then Some st else None)
  | CFlowBits (BIsNotSet name) => Some (if bit_is_set bits name then None else Some st)
  | CFlowBits op => Some (Some (mkEvalState (es_cursors st) (es_current st) (es_side_effects st ++ [op])))
  | CByteTest t =>
      match get (mi_buffers input) (es_current st) with
      | None => Some None
      | Some haystack =>
          Some (if match_byte_test t haystack (es_cursors st (es_current st)) then Some st else None)
      end
  | CByteJump j =>
      match get (mi_buffers input) (es_current st) with
      | None => Some None
      | Some haystack =>
          let '(ok, cursor) := apply_byte_jump j haystack (es_cursors st (es_current st)) in
          Some (if (ok : bool)
                then Some (mkEvalState (set_cursor (es_current st) cursor (es_cursors st)) (es_current st)
                  (es_side_effects st))
                else None)
      end
  | CDsize d =>
      match get (mi_buffers input) (es_current st) with
      | None => Some None
      | Some haystack => Some (if dsize_matches d (len haystack) then Some st else None)
      end
  | CNormalized c =>
      Some (if normalization_matches c (b_normalization (mi_buffers input)) then Some st else None)
  end.

Fixpoint eval_options (input : MatchInput) (bits : FlowBits) (st : EvalState) (os : list CompiledOption) :
    option (option EvalState) :=
  match os with
  | [] => Some (Some st)
  | o :: os' =>
      match eval_option input bits st o with
      | None => None
      | Some None => Some None
      | Some (Some st') => eval_options input bits st' os'
      end
  end.

(** [evaluate], giving the side effects of [MatchOutcome]. *)
Definition evaluate (rule : CompiledRule) (input : MatchInput) (bits : FlowBits) :
    option (option (list FlowBitsOp)) :=
  if negb (header_matches (cr_header rule) (mi_tuple input)) then Some None
  else
    match eval_options input bits eval_start (cr_options rule) with
    | None => None
    | Some r => Some (option_map es_side_effects r)
    end.
End evaluate.

(** ** What a search promises *)

Definition fold_case (nocase : bool) (l : list Z) : list Z := if nocase then to_ascii_lowercase <$> l else l.

(** [needle] stands at position [p] of [h]. *)
Definition occurs_at (nocase : bool) (needle h : list Z) (p : Z) : Prop :=
  0 <= p /\ p + len needle <= len h /\
  fold_case nocase (take (length needle) (drop (Z.to_nat p) h)) = fold_case nocase needle.

Definition occurs (nocase : bool) (needle h : list Z) : Prop := exists p, occurs_at nocase needle h p.

Lemma forallb_zip_lower (w n : list Z) :
  length w = length n ->
  forallb (fun ab => to_ascii_lowercase ab.1 =? to_ascii_lowercase ab.2) (zip w n) = true <->
  to_ascii_lowercase <$> w = to_ascii_lowercase <$> n.
Proof.
  revert n. induction w as [|a w IH]; intros [|b n] Hl; simpl in *; try done.
  rewrite andb_true_iff, IH by lia. rewrite Z.eqb_eq. split; [intros [? ?]; by f_equal|]. by intros [= ? ?].
Qed.

Lemma window_matches_spec nocase needle w :
  length w = length needle ->
  window_matches nocase needle w = true <-> fold_case nocase w = fold_case nocase needle.
Proof.
  intros Hl. unfold window_matches, fold_case. destruct nocase; [by apply forallb_zip_lower|].
  apply bool_decide_eq_true.
Qed.

(** [find] gives the first place a non-empty pattern stands at, and finds it when there is one. *)
Lemma find_spec h needle nocase :
  needle <> [] ->
  match find h needle nocase with
  | Some p => occurs_at nocase needle h p /\ forall q, occurs_at nocase needle h q -> p <= q
  | None => ~ occurs nocase needle h
  end.
Proof.
  intros Hne. unfold find. rewrite bool_decide_eq_false_2 by done. simpl.
  destruct (Nat.ltb_spec (length h) (length needle)) as [Hl|Hl].
  { intros (p & ? & ? & _). lia. }
  assert (Hw : forall q, 0 <= q -> q + len needle <= len h ->
    window_matches nocase needle (take (length needle) (drop (Z.to_nat q) h)) = true <->
    fold_case nocase (take (length needle) (drop (Z.to_nat q) h)) = fold_case nocase needle).
  { intros q ? ?. apply window_matches_spec. rewrite length_take, length_drop. lia. }
  pose proof (window_position_spec (length needle) (window_matches nocase needle) h) as Hp.
  destruct (window_position _ _ h) as [p|].
  - destruct Hp as (H0 & H1 & H2 & H3). split.
    + split; [done|]. split; [done|]. by apply Hw.
    + intros q (Hq0 & Hq1 & Hq2). destruct (Z.le_gt_cases p q); [done|].
      apply Hw in Hq2; [|done|done]. rewrite H3 in Hq2; [done|lia].
  - intros (q & Hq0 & Hq1 & Hq2). apply Hw in Hq2; [|done|done]. rewrite Hp in Hq2; done.
Qed.

Lemma find_empty h nocase : find h [] nocase = None.
Proof. done. Qed.

(** An occurrence in a part of a buffer is one of the buffer. *)
Lemma slice_inv {A} (l r : list A) a b :
  slice l a b = Some r -> 0 <= a <= b /\ b <= len l /\ r = take (Z.to_nat (b - a)) (drop (Z.to_nat a) l).
Proof. unfold slice. intros E. case_match eqn:B; simplify_eq. bsimpl. split; [lia|]. split; [lia|done]. Qed.

Lemma slice_total {A} (l : list A) a b : 0 <= a <= b -> b <= len l -> is_Some (slice l a b).
Proof. intros. rewrite slice_Some by lia. eauto. Qed.

Lemma occurs_at_slice nocase needle h region a b p :
  slice h a b = Some region ->
  occurs_at nocase needle region p <-> occurs_at nocase needle h (a + p) /\ 0 <= p /\ a + p + len needle <= b.
Proof.
  intros Hs. apply slice_inv in Hs as (Ha & Hb & ->). unfold occurs_at.
  rewrite length_take, length_drop.
  assert (Heq : 0 <= p -> a + p + len needle <= b ->
    take (length needle) (drop (Z.to_nat p) (take (Z.to_nat (b - a)) (drop (Z.to_nat a) h))) =
    take (length needle) (drop (Z.to_nat (a + p)) h)).
  { intros. rewrite skipn_firstn_comm, drop_drop, take_take. f_equal; [lia|]. f_equal. lia. }
  split.
  - intros (H0 & H1 & H2). rewrite Heq in H2 by lia. repeat split; try lia; done.
  - intros ((_ & H1 & H2) & H0 & H3). split; [lia|]. split; [lia|]. rewrite Heq by lia. done.
Qed.

(** ** Content matches *)

Lemma content_window_range c length cursor start end_ :
  0 <= length -> content_window c length cursor = (start, end_) -> 0 <= start <= end_ /\ end_ <= length.
Proof.
  unfold content_window. cbv zeta. intros Hl E. injection E as <- <-.
  set (s := Z.max 0 (sat_add_i64 _ _)). assert (0 <= s) by (unfold s; lia). clearbody s.
  destruct (cm_within c), (cm_depth c); lia.
Qed.

(** The search space of a content match, in plain arithmetic, when nothing saturates. *)
Definition content_start (c : ContentMatch) (cursor : Z) : Z :=
  Z.max 0 (if is_relative c then unwrap_or 0 (cm_distance c) + cursor else unwrap_or 0 (cm_offset c)).

Definition content_end (c : ContentMatch) (length cursor : Z) : Z :=
  let by_within := match cm_within c with Some within => cursor + within | None => length end in
  let by_depth := match cm_depth c with Some depth => content_start c cursor + depth | None => length end in
  Z.min length (Z.min by_within by_depth).

(** The numbers of a parsed option are in the range of their types. *)
Definition content_wf (c : ContentMatch) : Prop :=
  (forall n, cm_offset c = Some n -> in_u32 n) /\ (forall n, cm_depth c = Some n -> in_u32 n) /\
  (forall n, cm_distance c = Some n -> - 2 ^ 31 <= n < 2 ^ 31) /\ (forall n, cm_within c = Some n -> in_u32 n).

Lemma not_relative c : is_relative c = false -> cm_distance c = None /\ cm_within c = None.
Proof. unfold is_relative. by destruct (cm_distance c), (cm_within c). Qed.

Lemma content_window_plain c length cursor :
  content_wf c -> 0 <= cursor <= length -> length < 2 ^ 62 ->
  content_window c length cursor =
  (Z.min (content_start c cursor) length,
   Z.max (content_end c length cursor) (Z.min (content_start c cursor) length)).
Proof.
  intros (Ho & Hd & Hi & Hw) Hc Hl. unfold content_window, content_end, content_start.
  assert (Hs : sat_add_i64 (unwrap_or 0 (cm_distance c))
      (if is_relative c then as_i64 (if is_relative c then cursor else 0) else unwrap_or 0 (cm_offset c)) =
    if is_relative c then unwrap_or 0 (cm_distance c) + cursor else unwrap_or 0 (cm_offset c)).
  { assert (as_i64 cursor = cursor) as H64 by (unfold as_i64; zdec; lia).
    assert (- 2 ^ 31 <= unwrap_or 0 (cm_distance c) < 2 ^ 31) by (destruct (cm_distance c); [by apply Hi|done]).
    assert (in_u32 (unwrap_or 0 (cm_offset c))) as Hou by (destruct (cm_offset c); [by apply Ho|done]).
    unfold in_u32, U32_MAX in Hou. unfold sat_add_i64. destruct (is_relative c) eqn:Hr; [rewrite H64; lia|].
    apply not_relative in Hr as [-> _]. cbn [unwrap_or]. lia. }
  rewrite Hs. clear Hs. set (start := Z.max 0 (if is_relative c then _ else _)).
  assert (0 <= start < 2 ^ 63) as Hstart.
  { unfold start. destruct (is_relative c), (cm_distance c) as [i|], (cm_offset c) as [o|]; cbn [unwrap_or];
      repeat match goal with H : forall n, Some ?x = Some n -> _ |- _ => pose proof (H x eq_refl); clear H end;
      unfold in_u32, U32_MAX in *; lia. }
  assert (Hwr : forall w, cm_within c = Some w -> is_relative c = true /\ in_u32 w).
  { intros w Ew. split; [|by apply Hw]. unfold is_relative. rewrite Ew. apply orb_true_r. }
  f_equal. clearbody start. unfold sat_add, in_u32, U32_MAX, U64_MAX in *.
  destruct (cm_within c) as [w|], (cm_depth c) as [d|];
    try (destruct (Hwr w eq_refl) as [-> ?]); try (pose proof (Hd d eq_refl)); lia.
Qed.

Lemma match_content_spec c h cursor :
  content_wf c -> cm_pattern c <> [] -> 0 <= cursor <= len h -> len h < 2 ^ 62 ->
  exists ok cursor', match_content c h cursor = Some (ok, cursor') /\
    let stands p := occurs_at (cm_nocase c) (cm_pattern c) h p /\ content_start c cursor <= p /\
      p + len (cm_pattern c) <= content_end c (len h) cursor in
    (ok = true <-> if cm_negated c then forall p, ~ stands p else exists p, stands p) /\
    (if ok && negb (cm_negated c)
     then exists p, stands p /\ (forall q, stands q -> p <= q) /\ cursor' = p + len (cm_pattern c)
     else cursor' = cursor).
Proof.
  intros Hwf Hne Hc Hl. unfold match_content.
  destruct (content_window c (len h) cursor) as [start end_] eqn:Ew.
  pose proof (content_window_range _ _ _ _ _ (Nat2Z.is_nonneg (length h)) Ew) as [Hs He].
  destruct (slice_total h start end_ Hs He) as [region Hr]. rewrite Hr. cbn [mbind option_bind].
  rewrite content_window_plain in Ew by done. injection Ew as Hstart Hend.
  assert (Hlen : 0 < len (cm_pattern c)) by (clear -Hne; destruct (cm_pattern c); [done|rewrite length_cons; lia]).
  assert (Hst : forall p, occurs_at (cm_nocase c) (cm_pattern c) region p <->
    (occurs_at (cm_nocase c) (cm_pattern c) h (start + p) /\ content_start c cursor <= start + p /\
     start + p + len (cm_pattern c) <= content_end c (len h) cursor)).
  { intros p. rewrite (occurs_at_slice _ _ _ _ _ _ _ Hr). split.
    - intros (Ho & Hp & Hpe). pose proof Ho as (_ & Hoh & _). split; [done|]. lia.
    - intros (Ho & Hp & Hpe). pose proof Ho as (_ & Hoh & _). split; [done|]. lia. }
  pose proof (find_spec region (cm_pattern c) (cm_nocase c) Hne) as Hf.
  assert (Hback : forall q, start + (q - start) = q) by lia.
  destruct (find region (cm_pattern c) (cm_nocase c)) as [p|]; destruct (cm_negated c); simpl;
    eexists _, _; (split; [reflexivity|]); cbv zeta; simpl.
  - destruct Hf as [Hf _]. apply Hst in Hf. split; [|done]. split; [done|]. intros H. by destruct (H (start + p)).
  - destruct Hf as [Hf Hmin]. apply Hst in Hf. split; [split; eauto|]. exists (start + p). split; [done|].
    split; [|done]. intros q Hq. rewrite <- (Hback q) in Hq. apply Hst, Hmin in Hq. lia.
  - split; [|done]. split; [|done]. intros _ q Hq. apply Hf. exists (q - start). apply Hst. by rewrite Hback.
  - split; [|done]. split; [done|]. intros [q Hq]. destruct Hf. exists (q - start). apply Hst. by rewrite Hback.
Qed.

(** A content match holds exactly when its pattern stands (or, negated, stands nowhere) in the
    window its modifiers describe: from [offset], or [distance] past the previous match, and no
    further than [depth] from there or [within] past the previous match. A positive match moves the
    cursor just past the first place the pattern stands at; any other outcome leaves it. *)
Theorem match_content_exact c h cursor :
  content_wf c -> cm_pattern c <> [] -> 0 <= cursor <= len h -> len h < 2 ^ 62 ->
  exists ok cursor', match_content c h cursor = Some (ok, cursor') /\
    let stands p := occurs_at (cm_nocase c) (cm_pattern c) h p /\ content_start c cursor <= p /\
      p + len (cm_pattern c) <= content_end c (len h) cursor in
    (ok = true <-> if cm_negated c then forall p, ~ stands p else exists p, stands p) /\
    (if ok && negb (cm_negated c)
     then exists p, stands p /\ (forall q, stands q -> p <= q) /\ cursor' = p + len (cm_pattern c)
     else cursor' = cursor).
Proof. apply match_content_spec. Qed.

Definition evil_content : ContentMatch :=
  mkContentMatch (of_string "evil") Payload false true None None (Some 1) (Some 8) false.

Lemma match_content_exact_witness :
  exists ok cursor', match_content evil_content (of_string "GET eVIL") 3 = Some (ok, cursor') /\
    let stands p := occurs_at true (of_string "evil") (of_string "GET eVIL") p /\
      content_start evil_content 3 <= p /\ p + 4 <= content_end evil_content 8 3 in
    (ok = true <-> exists p, stands p) /\
    (if ok && true then exists p, stands p /\ (forall q, stands q -> p <= q) /\ cursor' = p + 4
     else cursor' = 3).
Proof.
  apply (match_content_exact evil_content (of_string "GET eVIL") 3); [|done|simpl; lia|simpl; lia].
  split; [|split; [|split]]; intros n E; simpl in E; simplify_eq; done.
Defined.

(** ** Numbers *)

Lemma push_byte_plain v b : 0 <= v < 2 ^ 56 -> in_u8 b -> push_byte v b = v * 256 + b.
Proof.
  intros Hv Hb. unfold push_byte, in_u8 in *. rewrite Z.shiftl_mul_pow2 by lia.
  change (2 ^ 8) with 256. rewrite Z.mod_small by lia. by apply lor_byte.
Qed.

(** The number that a sequence of bytes writes, the most significant first. *)
Definition be_value (bs : list Z) : Z := foldl (fun v b => v * 256 + b) 0 bs.

Lemma be_value_range bs : Forall in_u8 bs -> 0 <= be_value bs < 256 ^ len bs.
Proof.
  unfold be_value. intros H. induction bs as [|b bs IH] using rev_ind; [simpl; lia|].
  apply Forall_app in H as [Hbs Hb]. inversion_clear Hb as [|? ? Hb' _]. specialize (IH Hbs). unfold in_u8 in Hb'.
  rewrite foldl_app, length_app. simpl. rewrite Nat2Z.inj_add. simpl (Z.of_nat 1).
  rewrite Z.pow_add_r by lia. lia.
Qed.

Lemma push_bytes_plain bs : Forall in_u8 bs -> len bs <= 8 -> foldl push_byte 0 bs = be_value bs.
Proof.
  intros H. induction bs as [|b bs IH] using rev_ind; [done|]. intros Hl.
  apply Forall_app in H as [Hbs Hb]. inversion_clear Hb. rewrite length_app in Hl. simpl in Hl.
  unfold be_value. rewrite !foldl_app. simpl. fold (be_value bs). rewrite IH by (done || lia).
  apply push_byte_plain; [|done]. pose proof (be_value_range bs Hbs).
  assert (256 ^ len bs <= 256 ^ 7) by (apply Z.pow_le_mono_r; lia). lia.
Qed.

(** Reading a number of one to eight bytes gives the number those bytes write in the chosen
    order, which fits a [u64]; reading past the end of the buffer is no number. *)
Theorem read_value_exact h position bytes endian :
  Forall in_u8 h -> 0 <= position -> 1 <= bytes <= 8 -> len h < 2 ^ 63 ->
  if position + bytes <=? len h
  then exists bs, slice h position (position + bytes) = Some bs /\
    read_value h position bytes endian =
      Some (be_value (match endian with Big => bs | Little => reverse bs end)) /\
    0 <= be_value (match endian with Big => bs | Little => reverse bs end) < 256 ^ bytes
  else read_value h position bytes endian = None.
Proof.
  intros Hh Hp Hb Hl. unfold read_value. destruct (Z.leb_spec (position + bytes) (len h)) as [Hle|Hgt].
  - destruct (slice_total h position (position + bytes)) as [bs Hs]; [lia|done|].
    exists bs. split; [done|]. pose proof (slice_length _ _ _ _ Hs) as Hlen.
    apply slice_inv in Hs as Hs'. destruct Hs' as (_ & _ & Hbs).
    assert (Forall in_u8 bs) as HF by (rewrite Hbs; by apply Forall_take, Forall_drop).
    set (bs' := match endian with Big => bs | Little => reverse bs end).
    assert (Forall in_u8 bs' /\ len bs' = bytes) as [HF' Hlen'].
    { unfold bs'. destruct endian; [split; [done|lia]|]. rewrite length_reverse. split; [by apply Forall_reverse|lia]. }
    destruct (Z.ltb_spec U64_MAX (position + bytes)) as [H64|_]; [unfold U64_MAX in H64; lia|].
    rewrite Hs. cbn [mbind option_bind]. fold bs'. rewrite push_bytes_plain by (done || lia).
    split; [done|]. rewrite <- Hlen'. by apply be_value_range.
  - destruct (U64_MAX <? position + bytes); [done|]. unfold slice.
    rewrite (proj2 (Z.leb_gt (position + bytes) (len h))) by lia. by rewrite andb_false_r.
Qed.

Lemma read_value_exact_witness :
  exists bs, slice [1; 2; 3] 1 (1 + 2) = Some bs /\
    read_value [1; 2; 3] 1 2 Little = Some (be_value (reverse bs)) /\ 0 <= be_value (reverse bs) < 256 ^ 2.
Proof. apply (read_value_exact [1; 2; 3] 1 2 Little); [repeat constructor; done|lia|lia|simpl; lia]. Defined.

(** ** Jumps *)

Lemma resolve_position_range base offset relative p : resolve_position base offset relative = Some p -> 0 <= p < 2 ^ 63.
Proof.
  unfold resolve_position. intros E.
  destruct (_ || _) eqn:B; [done|]. destruct (_ <? 0) eqn:B0 in E; [done|]. simplify_eq. bsimpl. lia.
Qed.

(** A jump that is accepted lands inside the buffer. *)
Lemma byte_jump_inside j h cursor cursor' : apply_byte_jump j h cursor = (true, cursor') -> 0 <= cursor' <= len h.
Proof. unfold apply_byte_jump. intros E. repeat case_match; simplify_eq; bsimpl; lia. Qed.

Lemma as_i64_range x : 0 <= x <= U64_MAX -> - 2 ^ 63 <= as_i64 x < 2 ^ 63.
Proof. unfold as_i64, U64_MAX. intros. zcase; lia. Qed.

(** A jump is accepted exactly when the number read, scaled, counted from the end of the number
    and adjusted lands inside the buffer, as long as the destination before the adjustment is below
    [2^63]; the cursor is then exactly there. *)
Theorem byte_jump_exact j h cursor position value :
  len h < 2 ^ 63 -> - 2 ^ 31 <= bj_post_offset j < 2 ^ 31 ->
  resolve_position cursor (bj_offset j) (bj_relative j) = Some position ->
  read_value h position (bj_bytes j) (bj_endian j) = Some value ->
  0 <= value * bj_multiplier j -> 0 <= bj_bytes j ->
  let destination := value * bj_multiplier j + position + bj_bytes j in
  destination < 2 ^ 63 - 2 ^ 31 ->
  let target := destination + bj_post_offset j in
  apply_byte_jump j h cursor = if (0 <=? target) && (target <=? len h) then (true, target) else (false, cursor).
Proof.
  intros Hl Hpost Hp Hv Hs Hb destination Hd target. pose proof (resolve_position_range _ _ _ _ Hp) as Hpr.
  unfold apply_byte_jump. rewrite Hp, Hv.
  replace (value * bj_multiplier j + (position + bj_bytes j)) with destination by (unfold destination; lia).
  assert (0 <= destination) by (unfold destination; lia).
  destruct (Z.ltb_spec U64_MAX (value * bj_multiplier j)) as [H64|_]; [unfold U64_MAX, destination in *; lia|].
  destruct (Z.ltb_spec U64_MAX destination) as [H64|_]; [unfold U64_MAX in *; lia|].
  assert (wrapping_add_i64 (as_i64 destination) (bj_post_offset j) = target) as ->.
  { unfold wrapping_add_i64. replace (as_i64 destination) with destination by (unfold as_i64; zdec; lia).
    fold target. assert (- 2 ^ 63 <= target < 2 ^ 63) by (unfold target; lia).
    unfold as_i64. destruct (Z.le_gt_cases 0 target).
    - rewrite Z.mod_small by lia. by zdec.
    - rewrite <- (Z.mod_add target 1) by lia. rewrite Z.mod_small by lia. zdec. lia. }
  destruct (Z.ltb_spec target 0), (Z.leb_spec 0 target); try lia; done.
Qed.

Definition jump2 (post : Z) : ByteJump := mkByteJump 2 0 false 1 Big post.

Lemma byte_jump_exact_witness :
  apply_byte_jump (jump2 (-1)) [0; 3; 9; 9; 9; 9] 0 =
  if (0 <=? 3 * 1 + 0 + 2 + -1) && (3 * 1 + 0 + 2 + -1 <=? 6) then (true, 3 * 1 + 0 + 2 + -1) else (false, 0).
Proof. apply (byte_jump_exact (jump2 (-1)) [0; 3; 9; 9; 9; 9] 0 0 3); try (simpl; lia); vm_compute; reflexivity. Defined.

(** Above that the conversion to [i64] makes the destination negative, and an adjustment can bring
    it back: a number just below [2^64] jumps to the start of the buffer. *)
Theorem byte_jump_wraps :
  apply_byte_jump (mkByteJump 8 0 false 1 Big 5) (replicate 7 255 ++ [247; 65; 66]) 0 = (true, 4) /\
  read_value (replicate 7 255 ++ [247; 65; 66]) 0 8 Big = Some (2 ^ 64 - 9).
Proof. vm_compute. auto. Qed.

(** ** Flowbits *)

Lemma bits_bounded ops limit bits :
  0 <= limit -> Z.of_nat (size bits) <= limit ->
  Z.of_nat (size (foldl (fun b op => bits_apply b op limit) bits ops)) <= limit.
Proof.
  intros Hlim. revert bits. induction ops as [|op ops IH]; intros bits Hb; simpl; [done|].
  apply IH. unfold bits_apply.
  assert (Hdel : forall name, Z.of_nat (size (bits ∖ {[name]})) <= limit).
  { intros name. pose proof (subseteq_size (bits ∖ {[name]}) bits ltac:(set_solver)). lia. }
  assert (Hadd : forall name, Z.of_nat (size bits) < limit -> Z.of_nat (size ({[name]} ∪ bits)) <= limit).
  { intros name ?. destruct (decide (name ∈ bits)) as [Hin|Hin].
    - replace ({[name]} ∪ bits) with bits by set_solver. lia.
    - rewrite size_union by set_solver. rewrite size_singleton. lia. }
  assert (Hsame : forall name, name ∈ bits -> {[name]} ∪ bits = bits) by (intros; set_solver).
  destruct op as [name|name|name|?|?|]; try done.
  - destruct (Z.ltb_spec (Z.of_nat (size bits)) limit); simpl; [by apply Hadd|].
    case_bool_decide; [by rewrite Hsame|done].
  - case_bool_decide; [done|]. destruct (Z.ltb_spec (Z.of_nat (size bits)) limit); [by apply Hadd|done].
Qed.

(** A flow never holds more bits than the limit, whatever matches ask for, and an operation
    changes only the bit it names. *)
Theorem flowbits_bounded ops limit bits :
  0 <= limit -> Z.of_nat (size bits) <= limit ->
  Z.of_nat (size (foldl (fun b op => bits_apply b op limit) bits ops)) <= limit.
Proof. apply bits_bounded. Qed.

Lemma flowbits_bounded_witness :
  Z.of_nat (size (foldl (fun b op => bits_apply b op 1) (∅ : FlowBits)
    [BSet (of_string "a"); BToggle (of_string "b"); BSet (of_string "c")])) <= 1.
Proof. apply (flowbits_bounded _ 1); [lia|]. by rewrite size_empty. Defined.

(** An operation leaves every other bit as it was. *)
Lemma bits_apply_other bits op limit name :
  match op with BSet n | BUnset n | BToggle n => n <> name | _ => True end ->
  name ∈ bits_apply bits op limit <-> name ∈ bits.
Proof. destruct op; simpl; intros; repeat case_match; set_solver. Qed.

(** ** Rules *)

Section evaluate_lemmas.
Context `{RegexLib}.

(** The cursors of a rule under evaluation stay inside the buffers they point into. *)
Definition cursors_inside (input : MatchInput) (st : EvalState) : Prop :=
  forall b, 0 <= es_cursors st b /\
    forall h, get (mi_buffers input) b = Some h -> es_cursors st b <= len h.

Lemma eval_start_inside input : cursors_inside input eval_start.
Proof. intros b. simpl. split; [lia|]. intros. lia. Qed.

Lemma set_cursor_inside input st b cursor current effects h :
  cursors_inside input st -> get (mi_buffers input) b = Some h -> 0 <= cursor <= len h ->
  cursors_inside input (mkEvalState (set_cursor b cursor (es_cursors st)) current effects).
Proof.
  intros Hi Hh Hc b'. simpl. unfold set_cursor. case_decide as Hd; [subst b'|apply Hi].
  split; [lia|]. intros h' Hh'. simplify_eq. lia.
Qed.

Lemma match_content_inside c h cursor :
  0 <= cursor <= len h ->
  exists ok cursor', match_content c h cursor = Some (ok, cursor') /\ 0 <= cursor' <= len h.
Proof.
  intros Hc. unfold match_content. destruct (content_window c (len h) cursor) as [start end_] eqn:Ew.
  destruct (content_window_range _ _ _ _ _ (Nat2Z.is_nonneg (length h)) Ew) as [Hs He].
  destruct (slice_total h start end_ Hs He) as [region Hr]. rewrite Hr. cbn [mbind option_bind].
  pose proof (slice_length _ _ _ _ Hr) as Hl.
  destruct (decide (cm_pattern c = [])) as [Hp|Hp].
  { rewrite Hp, find_empty. destruct (cm_negated c); eauto. }
  pose proof (find_spec region (cm_pattern c) (cm_nocase c) Hp) as Hf.
  destruct (find region _ _) as [p|]; [|destruct (cm_negated c); eauto].
  destruct Hf as [(H0 & H1 & _) _]. destruct (cm_negated c); [eauto|].
  eexists _, _. split; [reflexivity|]. lia.
Qed.

Lemma eval_option_inside input bits st o :
  cursors_inside input st ->
  exists r, eval_option input bits st o = Some r /\ forall st', r = Some st' -> cursors_inside input st'.
Proof.
  intros Hi. destruct o as [c|matcher b negated relative|f|op|t|j|d|c]; simpl.
  - destruct (get _ (cm_buffer c)) as [h|] eqn:Hg; [|by exists None].
    destruct (Hi (cm_buffer c)) as [H0 H1]. specialize (H1 _ Hg).
    destruct (match_content_inside c h (es_cursors st (cm_buffer c))) as (ok & cursor' & -> & Hc); [done|].
    simpl. eexists. split; [reflexivity|]. intros st' E. destruct ok; simplify_eq. by eapply set_cursor_inside.
  - destruct (get _ b) as [h|] eqn:Hg; [|by exists None]. destruct (Hi b) as [H0 H1]. specialize (H1 _ Hg).
    set (start := if relative then _ else _).
    assert (0 <= start <= len h) as Hs by (unfold start; destruct relative; lia).
    destruct (slice_total h start (len h)) as [rest Hr]; [done|lia|]. rewrite Hr. cbn [mbind option_bind].
    apply slice_length in Hr. eexists. split; [reflexivity|]. intros st' E.
    destruct (regex_find matcher rest) as [[s e]|] eqn:Ef; destruct negated; simplify_eq.
    + apply regex_find_range in Ef. eapply set_cursor_inside; [done|done|lia].
    + intros b'. apply Hi.
  - eexists. split; [reflexivity|]. intros st' E. case_match; by simplify_eq.
  - destruct op; eexists; (split; [reflexivity|]); intros st' E; repeat case_match; simplify_eq; done.
  - destruct (get _ (es_current st)) as [h|]; [|by exists None]. eexists. split; [reflexivity|].
    intros st' E. case_match; by simplify_eq.
  - destruct (get _ (es_current st)) as [h|] eqn:Hg; [|by exists None].
    destruct (apply_byte_jump j h _) as [ok cursor'] eqn:Ej. eexists. split; [reflexivity|]. intros st' E.
    destruct ok; simplify_eq. apply byte_jump_inside in Ej. by eapply set_cursor_inside.
  - destruct (get _ (es_current st)) as [h|]; [|by exists None]. eexists. split; [reflexivity|].
    intros st' E. case_match; by simplify_eq.
  - eexists. split; [reflexivity|]. intros st' E. case_match; by simplify_eq.
Qed.

Lemma eval_options_inside input bits st os :
  cursors_inside input st ->
  exists r, eval_options input bits st os = Some r /\ forall st', r = Some st' -> cursors_inside input st'.
Proof.
  revert st. induction os as [|o os IH]; intros st Hi; simpl; [naive_solver|].
  destruct (eval_option_inside input bits st o Hi) as ([st1|] & -> & H1); [|naive_solver].
  by apply IH, H1.
Qed.

Lemma evaluate_total rule input bits : is_Some (evaluate rule input bits).
Proof.
  destruct (eval_options_inside input bits eval_start (cr_options rule) (eval_start_inside input)) as (r & E & _).
  unfold evaluate. rewrite E. destruct (header_matches _ _); simpl; eauto.
Qed.

(** Evaluating a rule never panics, whatever the rule's modifiers and the packet's bytes are:
    every slice it takes is in range, because no option moves a cursor out of the buffer it points
    into. *)
Theorem evaluate_never_panics rule input bits :
  is_Some (evaluate rule input bits) /\
  forall st, eval_options input bits eval_start (cr_options rule) = Some (Some st) -> cursors_inside input st.
Proof.
  destruct (eval_options_inside input bits eval_start (cr_options rule) (eval_start_inside input)) as (r & E & Hr).
  split; [apply evaluate_total|]. rewrite E.
  intros st [= ->]. by apply Hr.
Qed.

(** ** What a match proves of the buffers *)

Lemma match_content_occurs c h cursor cursor' :
  match_content c h cursor = Some (true, cursor') -> cm_negated c = false ->
  cm_pattern c <> [] /\ occurs (cm_nocase c) (cm_pattern c) h.
Proof.
  unfold match_content. destruct (content_window c (len h) cursor) as [start end_].
  destruct (slice h start end_) as [region|] eqn:Hr; [|done]. simpl. intros E Hn. rewrite Hn in E.
  destruct (decide (cm_pattern c = [])) as [Hp|Hp]; [by rewrite Hp, find_empty in E|]. split; [done|].
  pose proof (find_spec region (cm_pattern c) (cm_nocase c) Hp) as Hf.
  destruct (find region _ _) as [p|]; [|done]. destruct Hf as [Hf _].
  apply (occurs_at_slice _ _ _ _ _ _ _ Hr) in Hf as [Hf _]. by exists (start + p).
Qed.

Lemma eval_options_content input bits st os st' c :
  eval_options input bits st os = Some (Some st') -> CContent c ∈ os -> cm_negated c = false ->
  exists h, get (mi_buffers input) (cm_buffer c) = Some h /\ cm_pattern c <> [] /\
    occurs (cm_nocase c) (cm_pattern c) h.
Proof.
  revert st. induction os as [|o os IH]; intros st E Hc Hn; [by apply elem_of_nil in Hc|].
  cbn [eval_options] in E. destruct (eval_option input bits st o) as [[st1|]|] eqn:Eo; [|done|done].
  apply elem_of_cons in Hc as [<-|Hc]; [|by eapply IH]. simpl in Eo.
  destruct (get _ (cm_buffer c)) as [h|]; [|done]. exists h. split; [done|].
  destruct (match_content c h _) as [[[] cursor']|] eqn:Em; [|done|done].
  by apply match_content_occurs in Em.
Qed.

(** A rule that matches finds each of its positive patterns in the buffer the pattern names. *)
Lemma evaluate_content rule input bits effects c :
  evaluate rule input bits = Some (Some effects) -> CContent c ∈ cr_options rule -> cm_negated c = false ->
  exists h, get (mi_buffers input) (cm_buffer c) = Some h /\ cm_pattern c <> [] /\
    occurs (cm_nocase c) (cm_pattern c) h.
Proof.
  unfold evaluate. intros E. destruct (header_matches _ _); [|done]. simpl in E.
  destruct (eval_options _ _ _ _) as [[st|]|] eqn:Eo; [|done|done]. by eapply eval_options_content.
Qed.
End evaluate_lemmas.
