(* ===== verification/Parser.v ===== *)
(** The rule language: [crates/rules/src/parser.rs], from the text of a rule to its model.

    A formatted message is its fixed words with the texts it quotes. The whole parser is a total
    function into [ParseError + Rule]: each loop of the source is a recursion on the characters or
    on the options it consumes. *)

From stdpp Require Import pretty.
From S2P Require Import Prelude Text Net Event RuleModel Eval.

(** ** Errors *)

Record Reason := mkReason {
  words : string;
  quoted : list text
}.

Definition why (s : string) : Reason := mkReason s [].

Inductive ParseError :=
| Empty
| MissingOptionBlock
| UnterminatedOptionBlock
| UnterminatedString
| HeaderFieldCount (found : nat)
| UnknownAction (t : text)
| PreventionAction (t : text)
| UnknownProtocol (t : text)
| InvalidDirection (t : text)
| InvalidAddress (value : text) (reason : Reason)
| InvalidPort (value : text) (reason : Reason)
| MissingOptionValue (option : text)
| InvalidOptionValue (option : text) (reason : Reason)
| UnknownOption (option : text)
| DuplicateOption (option : text)
| MissingSid
| MissingMsg.

(** A [match] on string literals. *)
Definition reads (t : text) (s : string) : bool := bool_decide (t = of_string s).

Definition lowercase (t : text) : text := to_ascii_lowercase <$> t.

(** ** The header *)

Definition parse_action (t : text) : ParseError + Action :=
  let l := lowercase t in
  if reads l "alert" then inr Alert
  else if reads l "pass" then inr Pass
  else if reads l "drop" then inr Drop
  else if reads l "reject" || reads l "rejectsrc" || reads l "rejectdst" || reads l "rejectboth"
  then inl (PreventionAction t)
  else inl (UnknownAction t).

Definition parse_protocol (t : text) : ParseError + RuleProtocol :=
  let l := lowercase t in
  if reads l "ip" then inr PIp
  else if reads l "tcp" then inr PTcp
  else if reads l "udp" then inr PUdp
  else if reads l "icmp" then inr PIcmp
  else if reads l "http" then inr PHttp
  else if reads l "dns" then inr PDns
  else if reads l "tls" then inr PTls
  else inl (UnknownProtocol t).

Definition parse_direction (t : text) : ParseError + Direction :=
  if reads t "->" then inr ToDestination
  else if reads t "<>" then inr Bidirectional
  else inl (InvalidDirection t).

Definition split_negation (t : text) : bool * text :=
  match strip_prefix 33 t with Some rest => (true, trim_start rest) | None => (false, t) end.

Definition validate_var_name (name : text) : Reason + unit :=
  if decide (name = []) then inl (why "'$' must be followed by a variable name")
  else if negb (forallb (fun c => is_ascii_alphanumeric c || (c =? 95)) name)
  then inl (mkReason "variable name must be alphanumeric or underscore" [name])
  else inr tt.

Definition is_ipv4 (a : IpAddr) : bool := match a with V4 _ => true | V6 _ => false end.

Definition validate_address_literal (t : text) : Reason + unit :=
  let '(addr, prefix) :=
    match split_once 47 t with Some (addr, prefix) => (addr, Some prefix) | None => (t, None) end in
  address ← ok_or (mkReason "is not an IP address" [addr]) (parse_ip addr);
  match prefix with
  | Some prefix =>
      bits ← ok_or (mkReason "is not a prefix length" [prefix]) (parse_unsigned 255 prefix);
      let max := if is_ipv4 address then 32 else 128 in
      refuse (max <? bits)
        (mkReason "prefix length exceeds the maximum of this address family"
           [of_string (pretty bits); of_string (pretty max)])
  | None => inr tt
  end.

(** A list in brackets: [starts_with('[')], then the two refusals. *)
Definition ends_with (c : Z) (t : text) : bool := bool_decide (last t = Some c).

Definition parse_address (t : text) : ParseError + AddressSpec :=
  let invalid := InvalidAddress t in
  let '(negated, body) := split_negation t in
  if decide (body = []) then inl (invalid (why "empty address"))
  else
    value ←
      (if eq_ignore_ascii_case body (of_string "any") then inr AAny
       else match strip_prefix 36 body with
       | Some name => _ ← map_err invalid (validate_var_name name); inr (AVar name)
       | None =>
           if starts_with body [91] then
             _ ← refuse (negb (ends_with 93 body)) (invalid (why "address list is missing its closing ']'"));
             _ ← refuse (text_len body =? 2) (invalid (why "empty address list"));
             inr (AList body)
           else _ ← map_err invalid (validate_address_literal body); inr (ALiteral body)
       end);
    inr (mkAddressSpec negated value).

Definition parse_optional_port (t : text) : Reason + option Z :=
  let t := trim t in
  if decide (t = []) then inr None
  else port ← ok_or (mkReason "is not a port number in 0..=65535" [t]) (parse_unsigned U16_MAX t); inr (Some port).

Definition parse_port (t : text) : ParseError + PortSpec :=
  let invalid := InvalidPort t in
  let '(negated, body) := split_negation t in
  if decide (body = []) then inl (invalid (why "empty port"))
  else
    value ←
      (if eq_ignore_ascii_case body (of_string "any") then inr PAny
       else match strip_prefix 36 body with
       | Some name => _ ← map_err invalid (validate_var_name name); inr (PVar name)
       | None =>
           if starts_with body [91] then
             _ ← refuse (negb (ends_with 93 body)) (invalid (why "port list is missing its closing ']'"));
             _ ← refuse (text_len body =? 2) (invalid (why "empty port list"));
             inr (PList body)
           else match split_once 58 body with
           | Some (low, high) =>
               low ← map_err invalid (parse_optional_port low);
               high ← map_err invalid (parse_optional_port high);
               _ ← match low, high with
                   | Some low, Some high =>
                       refuse (high <? low) (invalid (why "range start is greater than range end"))
                   | _, _ => inr tt
                   end;
               inr (PRange low high)
           | None =>
               port ← ok_or (invalid (why "not a port number in 0..=65535")) (parse_unsigned U16_MAX body);
               inr (PSingle port)
           end
       end);
    inr (mkPortSpec negated value).

Definition parse_header (t : text) : ParseError + RuleHeader :=
  match split_whitespace t with
  | [action; protocol; source; source_port; direction; destination; destination_port] =>
      action ← parse_action action;
      protocol ← parse_protocol protocol;
      source ← parse_address source;
      source_port ← parse_port source_port;
      direction ← parse_direction direction;
      destination ← parse_address destination;
      destination_port ← parse_port destination_port;
      inr (mkRuleHeader action protocol source source_port direction destination destination_port)
  | fields => inl (HeaderFieldCount (length fields))
  end.

(** ** The option block *)

Record RawOption := mkRawOption {
  ro_name : text;
  ro_value : option text;
  ro_negated : bool
}.

(** The loop of [split_option_list]: the options so far are those already returned. *)
Fixpoint split_options (current : text) (in_quotes : bool) (t : text) : ParseError + list text :=
  match t with
  | [] =>
      if in_quotes then inl UnterminatedString
      else inr (if decide (trim current = []) then [] else [current])
  | c :: t' =>
      if c =? 92 then
        match t' with
        | escaped :: t'' => split_options (current ++ [92; escaped]) in_quotes t''
        | [] => inl UnterminatedString
        end
      else if c =? 34 then split_options (current ++ [34]) (negb in_quotes) t'
      else if (c =? 59) && negb in_quotes then
        options ← split_options [] in_quotes t'; inr (current :: options)
      else split_options (current ++ [c]) in_quotes t'
  end.

Definition split_option_list (body : text) : ParseError + list text := split_options [] false body.

Fixpoint split_colon (in_quotes escaped : bool) (t : text) : option (text * text) :=
  match t with
  | [] => None
  | c :: t' =>
      let keep in_quotes escaped := '(a, b) ← split_colon in_quotes escaped t'; Some (c :: a, b) in
      if escaped then keep in_quotes false
      else if c =? 92 then keep in_quotes true
      else if c =? 34 then keep (negb in_quotes) escaped
      else if (c =? 58) && negb in_quotes then Some ([], t')
      else keep in_quotes escaped
  end.

Definition split_name_value (chunk : text) : option (text * text) := split_colon false false chunk.

(** The loop that resolves the escapes. *)
Fixpoint resolve_escapes (t : text) : ParseError + text :=
  match t with
  | [] => inr []
  | c :: t' =>
      if negb (c =? 92) then out ← resolve_escapes t'; inr (c :: out)
      else match t' with
      | [] => inl UnterminatedString
      | x :: t'' =>
          out ← resolve_escapes t'';
          inr (if (x =? 34) || (x =? 59) || (x =? 92) then x :: out else 92 :: x :: out)
      end
  end.

Definition unescape (value : text) : ParseError + text :=
  inner ←
    (if (2 <=? text_len value) && starts_with value [34] && ends_with 34 value
     then inr (take (length value - 2) (drop 1 value))
     else if starts_with value [34] then inl UnterminatedString
     else inr value);
  resolve_escapes inner.

(** One round of [parse_options], on a chunk that is not blank. *)
Definition parse_option (chunk : text) : ParseError + RawOption :=
  let '(name, raw_value) :=
    match split_name_value chunk with
    | Some (name, value) => (name, Some (trim value))
    | None => (chunk, None)
    end in
  let '(negated, raw_value) :=
    match raw_value with
    | Some value =>
        match strip_prefix 33 value with
        | Some rest => (true, Some (trim rest))
        | None => (false, Some value)
        end
    | None => (false, None)
    end in
  value ← match raw_value with Some v => v ← unescape v; inr (Some v) | None => inr None end;
  inr (mkRawOption (lowercase (trim name)) value negated).

Fixpoint parse_chunks (chunks : list text) : ParseError + list RawOption :=
  match chunks with
  | [] => inr []
  | chunk :: chunks' =>
      let chunk := trim chunk in
      if decide (chunk = []) then parse_chunks chunks'
      else o ← parse_option chunk; os ← parse_chunks chunks'; inr (o :: os)
  end.

Definition parse_options (body : text) : ParseError + list RawOption :=
  chunks ← split_option_list body; parse_chunks chunks.

(** ** The values of the options *)

Definition invalid (option : text) (reason : Reason) : ParseError := InvalidOptionValue option reason.

Definition parse_host_values (t : text) : Reason + list text :=
  let values := filter (fun v => v <> []) (trim <$> split_char 44 t) in
  _ ← refuse (bool_decide (values = [])) (why "needs at least one value");
  inr values.

(** [u32::try_from] and [i32::try_from]. *)
Definition try_from (min max n : Z) : option Z := if (min <=? n) && (n <=? max) then Some n else None.

Definition try_u32 (n : Z) : option Z := try_from 0 U32_MAX n.
Definition try_i32 (n : Z) : option Z := try_from (- 2 ^ 31) (2 ^ 31 - 1) n.

Definition parse_i64 (t : text) : option Z := parse_signed (- 2 ^ 63) (2 ^ 63 - 1) t.
Definition parse_i32 (t : text) : option Z := parse_signed (- 2 ^ 31) (2 ^ 31 - 1) t.

(** The modifier on the content it attaches to. *)
Definition modify_content (content : ContentMatch) (name : text) (value : option text) :
    ParseError + ContentMatch :=
  let '(mkContentMatch pattern buffer negated nocase offset depth distance within fast_pattern) := content in
  let number what :=
    value ← ok_or (MissingOptionValue name) value;
    ok_or (invalid name (mkReason "must be a number" [of_string what])) (parse_i64 (trim value)) in
  if reads name "nocase"
  then inr (mkContentMatch pattern buffer negated true offset depth distance within fast_pattern)
  else if reads name "fast_pattern"
  then inr (mkContentMatch pattern buffer negated nocase offset depth distance within true)
  else if reads name "startswith"
  then inr (mkContentMatch pattern buffer negated nocase (Some 0)
              (Some (unwrap_or U32_MAX (try_u32 (len pattern)))) distance within fast_pattern)
  else if reads name "offset"
  then n ← number "offset"%string;
       inr (mkContentMatch pattern buffer negated nocase (Some (unwrap_or 0 (try_u32 n))) depth distance
              within fast_pattern)
  else if reads name "depth"
  then n ← number "depth"%string;
       inr (mkContentMatch pattern buffer negated nocase offset (Some (unwrap_or 0 (try_u32 n))) distance
              within fast_pattern)
  else if reads name "distance"
  then n ← number "distance"%string;
       inr (mkContentMatch pattern buffer negated nocase offset depth (Some (unwrap_or 0 (try_i32 n)))
              within fast_pattern)
  else if reads name "within"
  then n ← number "within"%string;
       inr (mkContentMatch pattern buffer negated nocase offset depth distance
              (Some (unwrap_or 0 (try_u32 n))) fast_pattern)
  else inl (UnknownOption name).

Definition apply_content_modifier (matches : list RuleOption) (name : text) (value : option text) :
    ParseError + list RuleOption :=
  match reverse matches with
  | OContent content :: before =>
      content ← modify_content content name value;
      inr (reverse before ++ [OContent content])
  | _ => inl (invalid name (why "no preceding content for this modifier"))
  end.

(** The loop of [parse_content_pattern]: [nibbles] are the digits of an unfinished byte. *)
Fixpoint content_bytes (in_hex : bool) (nibbles : text) (t : text) : Reason + list Z :=
  match t with
  | [] => if in_hex then inl (why "unterminated hex section") else inr []
  | c :: t' =>
      if c =? 124 then
        if in_hex && negb (bool_decide (nibbles = [])) then inl (why "a hex section ended mid-byte")
        else content_bytes (negb in_hex) nibbles t'
      else if negb in_hex then
        if negb (is_ascii c) then inl (mkReason "non-ASCII character in a pattern; use a |hex| section" [[c]])
        else out ← content_bytes in_hex nibbles t'; inr (c :: out)
      else if is_ascii_whitespace c then content_bytes in_hex nibbles t'
      else if negb (is_ascii_hexdigit c) then inl (mkReason "is not a hex digit" [[c]])
      else match nibbles with
      | [] => content_bytes in_hex [c] t'
      | high :: _ =>
          byte ← ok_or (why "invalid digit found in string")
                   (h ← hex_digit high; l ← hex_digit c; Some (16 * h + l));
          out ← content_bytes in_hex [] t'; inr (byte :: out)
      end
  end.

Definition parse_content_pattern (t : text) : Reason + list Z := content_bytes false [] t.

Fixpoint pcre_flags (p : PcreMatch) (flags : text) : Reason + PcreMatch :=
  let '(mkPcreMatch source buffer negated i s m r) := p in
  match flags with
  | [] => inr p
  | c :: flags' =>
      if c =? 105 then pcre_flags (mkPcreMatch source buffer negated true s m r) flags'
      else if c =? 115 then pcre_flags (mkPcreMatch source buffer negated i true m r) flags'
      else if c =? 109 then pcre_flags (mkPcreMatch source buffer negated i s true r) flags'
      else if c =? 82 then pcre_flags (mkPcreMatch source buffer negated i s m true) flags'
      else inl (mkReason "unknown pcre flag" [[c]])
  end.

Definition parse_pcre (t : text) : Reason + PcreMatch :=
  let delimited := why "a pcre must be delimited with /" in
  body ← ok_or delimited (strip_prefix 47 (trim t));
  '(source, flags) ← ok_or delimited (rsplit_once 47 body);
  _ ← refuse (bool_decide (source = [])) (why "empty expression");
  pcre_flags (mkPcreMatch source Payload false false false false false) (trim_start_matches 47 (47 :: flags)).

Definition flow_part (flow : FlowMatch) (part : text) : Reason + FlowMatch :=
  let t := trim part in
  if reads t "established" then inr (mkFlowMatch (Some true) (fm_to_server flow))
  else if reads t "not_established" || reads t "stateless" then inr (mkFlowMatch (Some false) (fm_to_server flow))
  else if reads t "to_server" || reads t "from_client" then inr (mkFlowMatch (fm_established flow) (Some true))
  else if reads t "to_client" || reads t "from_server" then inr (mkFlowMatch (fm_established flow) (Some false))
  else inl (mkReason "unknown flow option" [t]).

Definition parse_flow (t : text) : Reason + FlowMatch :=
  try_fold flow_part (mkFlowMatch None None) (split_char 44 t).

Definition parse_flowbits (t : text) : Reason + FlowBitsOp :=
  let '(command, name) :=
    match split_once 44 t with Some (command, name) => (trim command, trim name) | None => (trim t, []) end in
  let named (op : text -> FlowBitsOp) :=
    _ ← refuse (bool_decide (name = [])) (mkReason "flowbits needs a bit name" [command]); inr (op name) in
  if reads command "set" then named BSet
  else if reads command "unset" then named BUnset
  else if reads command "toggle" then named BToggle
  else if reads command "isset" then named BIsSet
  else if reads command "isnotset" then named BIsNotSet
  else if reads command "noalert" then inr BNoAlert
  else inl (mkReason "unknown flowbits command" [command]).

(** The number of bytes that both byte options read. *)
Definition byte_count (t : text) (what : string) : Reason + Z :=
  bytes ← ok_or (why "bytes must be a number") (parse_unsigned 255 t);
  _ ← refuse (negb ((1 <=? bytes) && (bytes <=? 8))) (mkReason "can read between 1 and 8 bytes" [of_string what]);
  inr bytes.

Definition byte_test_modifier (t : ByteTest) (modifier : text) : Reason + ByteTest :=
  let '(mkByteTest bytes op value offset relative endian negated) := t in
  if reads modifier "relative" then inr (mkByteTest bytes op value offset true endian negated)
  else if reads modifier "big" then inr (mkByteTest bytes op value offset relative Big negated)
  else if reads modifier "little" then inr (mkByteTest bytes op value offset relative Little negated)
  else if reads modifier "" then inr t
  else inl (mkReason "unsupported byte_test modifier" [modifier]).

Definition parse_byte_test (t : text) : Reason + ByteTest :=
  match trim <$> split_char 44 t with
  | bytes :: operator :: value :: offset :: modifiers =>
      bytes ← byte_count bytes "byte_test"%string;
      let '(operator, negated) :=
        match strip_prefix 33 operator with Some rest => (trim rest, true) | None => (operator, false) end in
      op ← ok_or (mkReason "unknown operator" [operator]) (op_parse operator);
      value ← ok_or (why "value must be a number") (parse_unsigned U64_MAX value);
      offset ← ok_or (why "offset must be a number") (parse_i32 offset);
      try_fold byte_test_modifier (mkByteTest bytes op value offset false Big negated) modifiers
  | _ => inl (why "byte_test needs at least bytes, operator, value, offset")
  end.

Definition byte_jump_modifier (j : ByteJump) (modifier : text) : Reason + ByteJump :=
  let '(mkByteJump bytes offset relative multiplier endian post_offset) := j in
  if reads modifier "relative" then inr (mkByteJump bytes offset true multiplier endian post_offset)
  else if reads modifier "big" then inr (mkByteJump bytes offset relative multiplier Big post_offset)
  else if reads modifier "little" then inr (mkByteJump bytes offset relative multiplier Little post_offset)
  else if reads modifier "" then inr j
  else
    let unsupported := inl (mkReason "unsupported byte_jump modifier" [modifier]) in
    match split_whitespace modifier with
    | word :: value :: _ =>
        if reads word "multiplier" then
          multiplier ← ok_or (why "multiplier must be a number") (parse_unsigned U32_MAX value);
          inr (mkByteJump bytes offset relative multiplier endian post_offset)
        else if reads word "post_offset" then
          post_offset ← ok_or (why "post_offset must be a number") (parse_i32 value);
          inr (mkByteJump bytes offset relative multiplier endian post_offset)
        else unsupported
    | _ => unsupported
    end.

Definition parse_byte_jump (t : text) : Reason + ByteJump :=
  match trim <$> split_char 44 t with
  | bytes :: offset :: modifiers =>
      bytes ← byte_count bytes "byte_jump"%string;
      offset ← ok_or (why "offset must be a number") (parse_i32 offset);
      try_fold byte_jump_modifier (mkByteJump bytes offset false 1 Big 0) modifiers
  | _ => inl (why "byte_jump needs at least bytes and offset")
  end.

Definition parse_dsize (t : text) : Reason + DsizeMatch :=
  let t := trim t in
  let bound t := ok_or (why "dsize bounds must be numbers") (parse_unsigned U32_MAX (trim t)) in
  match split_once_text (of_string "<>") t with
  | Some (low, high) => low ← bound low; high ← bound high; inr (mkDsizeMatch Greater low (Some high))
  | None =>
      '(operator, value) ← ok_or (why "dsize needs a number") (split_at_first is_ascii_digit t);
      op ← (if decide (trim operator = []) then inr Equal
            else ok_or (mkReason "unknown operator" [operator]) (op_parse operator));
      value ← ok_or (why "dsize must be a number") (parse_unsigned U32_MAX (trim value));
      inr (mkDsizeMatch op value None)
  end.

(** The four slots of [parse_threshold]. *)
Record ThresholdFields := mkThresholdFields {
  tf_kind : option ThresholdKind;
  tf_track : option Track;
  tf_count : option Z;
  tf_seconds : option Z
}.

Definition threshold_part (s : ThresholdFields) (part : text) : Reason + ThresholdFields :=
  let '(mkThresholdFields kind track count seconds) := s in
  match split_whitespace part with
  | [] => inr s
  | word :: rest =>
      let unknown := inl (mkReason "unknown threshold field" [word]) in
      match rest with
      | value :: _ =>
          if reads word "type" then
            kind ← (if reads value "threshold" then inr KThreshold
                    else if reads value "limit" then inr KLimit
                    else if reads value "both" then inr KBoth
                    else inl (mkReason "unknown threshold type" [value]));
            inr (mkThresholdFields (Some kind) track count seconds)
          else if reads word "track" then
            track ← (if reads value "by_src" then inr BySource
                     else if reads value "by_dst" then inr ByDestination
                     else if reads value "by_rule" then inr ByRule
                     else inl (mkReason "unknown threshold track" [value]));
            inr (mkThresholdFields kind (Some track) count seconds)
          else if reads word "count" then
            count ← ok_or (why "count must be a number") (parse_unsigned U32_MAX value);
            inr (mkThresholdFields kind track (Some count) seconds)
          else if reads word "seconds" then
            seconds ← ok_or (why "seconds must be a number") (parse_unsigned U32_MAX value);
            inr (mkThresholdFields kind track count (Some seconds))
          else if reads word "" then inr s
          else unknown
      | [] => if reads word "" then inr s else unknown
      end
  end.

Definition parse_threshold (t : text) : Reason + Threshold :=
  s ← try_fold threshold_part (mkThresholdFields None None None None) (split_char 44 t);
  count ← ok_or (why "threshold needs a count") (tf_count s);
  _ ← refuse (count =? 0) (why "threshold count must be at least 1");
  kind ← ok_or (why "threshold needs a type") (tf_kind s);
  track ← ok_or (why "threshold needs a track") (tf_track s);
  seconds ← ok_or (why "threshold needs a seconds window") (tf_seconds s);
  inr (mkThreshold kind track count seconds).

Definition reject_duplicate {A : Type} (slot : option A) (name : string) : ParseError + unit :=
  refuse (bool_decide (is_Some slot)) (DuplicateOption (of_string name)).

Definition require_value (name : text) (value : option text) : ParseError + text :=
  ok_or (MissingOptionValue name) value.

Definition parse_u32_option (name : text) (value : option text) : ParseError + Z :=
  value ← ok_or (MissingOptionValue name) value;
  ok_or (invalid name (mkReason "is not a number" [trim value])) (parse_unsigned U32_MAX (trim value)).

(** [split_once(char::is_whitespace)]. *)
Definition split_once_whitespace (t : text) : option (text * text) :=
  '(a, b) ← split_at_first is_whitespace t; Some (a, drop 1 b).

Definition metadata_entry (entry : text) : option MetadataEntry :=
  let entry := trim entry in
  if decide (entry = []) then None
  else Some match split_once_whitespace entry with
       | Some (key, value) => mkMetadataEntry key (trim value)
       | None => mkMetadataEntry entry []
       end.

Definition parse_metadata (value : text) : list MetadataEntry := omap metadata_entry (split_char 44 value).

(** ** Assembly *)

Definition RECOGNISED_UNIMPLEMENTED_OPTIONS : list text :=
  [of_string "endswith"; of_string "detection_filter"; of_string "target"].

(** The local variables of [build_rule]. *)
Record Builder := mkBuilder {
  b_sid : option Z;
  b_rev : option Z;
  b_msg : option text;
  b_classtype : option text;
  b_priority : option Z;
  b_gid : option Z;
  b_threshold : option Threshold;
  b_metadata : list MetadataEntry;
  b_references : list text;
  b_matches : list RuleOption;
  b_unsupported : list text;
  b_seen_unsupported : gset text;
  b_no_alert : bool;
  b_buffer : Buffer
}.

Definition builder_new : Builder :=
  mkBuilder None None None None None None None [] [] [] [] ∅ false Payload.

(** [matches.push(option)]. *)
Definition push_match (b : Builder) (o : RuleOption) : Builder :=
  let '(mkBuilder sid rev msg classtype priority gid threshold metadata references matches unsupported
          seen no_alert buffer) := b in
  mkBuilder sid rev msg classtype priority gid threshold metadata references (matches ++ [o]) unsupported
    seen no_alert buffer.

Definition set_matches (b : Builder) (matches : list RuleOption) : Builder :=
  let '(mkBuilder sid rev msg classtype priority gid threshold metadata references _ unsupported
          seen no_alert buffer) := b in
  mkBuilder sid rev msg classtype priority gid threshold metadata references matches unsupported
    seen no_alert buffer.

(** [keyword.strip_suffix(".pcre").and_then(HostField::from_keyword)]. *)
Definition strip_suffix_text (t suffix : text) : option text :=
  if starts_with (reverse t) (reverse suffix) then Some (take (length t - length suffix) t) else None.

Definition pcre_field (keyword : text) : option HostField :=
  strip_suffix_text keyword (of_string ".pcre") ≫= field_from_keyword.

Definition is_modifier (name : text) : bool :=
  reads name "nocase" || reads name "fast_pattern" || reads name "startswith" || reads name "offset" ||
  reads name "depth" || reads name "distance" || reads name "within".

(** The arms for the keywords that describe the rule and that match nothing; [None] is an arm
    further down. *)
Definition metadata_option (b : Builder) (name : text) (value : option text) : option (ParseError + Builder) :=
  let '(mkBuilder sid rev msg classtype priority gid threshold metadata references matches unsupported
          seen no_alert buffer) := b in
  if reads name "sid" then Some (
    _ ← reject_duplicate sid "sid";
    sid ← parse_u32_option name value;
    inr (mkBuilder (Some sid) rev msg classtype priority gid threshold metadata references matches
           unsupported seen no_alert buffer))
  else if reads name "rev" then Some (
    _ ← reject_duplicate rev "rev";
    rev ← parse_u32_option name value;
    inr (mkBuilder sid (Some rev) msg classtype priority gid threshold metadata references matches
           unsupported seen no_alert buffer))
  else if reads name "gid" then Some (
    _ ← reject_duplicate gid "gid";
    gid ← parse_u32_option name value;
    inr (mkBuilder sid rev msg classtype priority (Some gid) threshold metadata references matches
           unsupported seen no_alert buffer))
  else if reads name "priority" then Some (
    _ ← reject_duplicate priority "priority";
    level ← parse_u32_option name value;
    _ ← refuse (negb ((1 <=? level) && (level <=? 255)))
          (invalid name (why "priority must be between 1 and 255"));
    inr (mkBuilder sid rev msg classtype (Some level) gid threshold metadata references matches
           unsupported seen no_alert buffer))
  else if reads name "msg" then Some (
    _ ← reject_duplicate msg "msg";
    t ← require_value name value;
    _ ← refuse (bool_decide (trim t = [])) (invalid name (why "msg must not be empty"));
    inr (mkBuilder sid rev (Some t) classtype priority gid threshold metadata references matches
           unsupported seen no_alert buffer))
  else if reads name "classtype" then Some (
    _ ← reject_duplicate classtype "classtype";
    t ← require_value name value;
    inr (mkBuilder sid rev msg (Some t) priority gid threshold metadata references matches
           unsupported seen no_alert buffer))
  else if reads name "metadata" then Some (
    t ← require_value name value;
    inr (mkBuilder sid rev msg classtype priority gid threshold (metadata ++ parse_metadata t) references
           matches unsupported seen no_alert buffer))
  else if reads name "reference" then Some (
    t ← require_value name value;
    inr (mkBuilder sid rev msg classtype priority gid threshold metadata (references ++ [t]) matches
           unsupported seen no_alert buffer))
  else match buffer_from_keyword name with
  | Some sticky => Some (
      _ ← refuse (bool_decide (is_Some value)) (invalid name (why "a sticky-buffer keyword takes no value"));
      inr (mkBuilder sid rev msg classtype priority gid threshold metadata references matches
             unsupported seen no_alert sticky))
  | None => None
  end.

(** The arms for the network matches. *)
Definition matching_option (b : Builder) (name : text) (value : option text) (negated : bool) :
    option (ParseError + Builder) :=
  let parsed {A : Type} (parse : text -> Reason + A) : ParseError + A :=
    t ← require_value name value; map_err (invalid name) (parse t) in
  if reads name "content" then Some (
    pattern ← parsed parse_content_pattern;
    _ ← refuse (bool_decide (pattern = [])) (invalid name (why "content must not be empty"));
    inr (push_match b (OContent (mkContentMatch pattern (b_buffer b) negated false None None None None false))))
  else if is_modifier name then Some (
    matches ← apply_content_modifier (b_matches b) name value;
    inr (set_matches b matches))
  else if reads name "pcre" then Some (
    p ← parsed parse_pcre;
    inr (push_match b (OPcre (mkPcreMatch (pm_source p) (b_buffer b) negated (pm_case_insensitive p)
                                (pm_dot_matches_newline p) (pm_multi_line p) (pm_relative p)))))
  else if reads name "flow" then Some (f ← parsed parse_flow; inr (push_match b (OFlow f)))
  else if reads name "flowbits" then Some (
    op ← parsed parse_flowbits;
    inr match op with
        | BNoAlert =>
            let '(mkBuilder sid rev msg classtype priority gid threshold metadata references matches
                    unsupported seen _ buffer) := b in
            mkBuilder sid rev msg classtype priority gid threshold metadata references matches unsupported
              seen true buffer
        | op => push_match b (OFlowBits op)
        end)
  else if reads name "byte_test" then Some (t ← parsed parse_byte_test; inr (push_match b (OByteTest t)))
  else if reads name "byte_jump" then Some (j ← parsed parse_byte_jump; inr (push_match b (OByteJump j)))
  else if reads name "dsize" then Some (d ← parsed parse_dsize; inr (push_match b (ODsize d)))
  else if reads name "normalized" then Some (
    t ← require_value name value;
    c ← ok_or (invalid name (mkReason "unknown condition" [t])) (condition_parse t);
    inr (push_match b (ONormalized c)))
  else if reads name "threshold" then Some (
    _ ← reject_duplicate (b_threshold b) "threshold";
    th ← parsed parse_threshold;
    let '(mkBuilder sid rev msg classtype priority gid _ metadata references matches unsupported
            seen no_alert buffer) := b in
    inr (mkBuilder sid rev msg classtype priority gid (Some th) metadata references matches unsupported
           seen no_alert buffer))
  else None.

(** The arms for the host conditions, the keywords without an implementation, and the last arm. *)
Definition host_option (b : Builder) (name : text) (value : option text) (negated : bool) : ParseError + Builder :=
  match field_from_keyword name with
  | Some field =>
      t ← require_value name value;
      values ← map_err (invalid name) (parse_host_values t);
      inr (push_match b (OHost (mkHostFieldMatch field (AnyOf values (default_match_kind field) false) negated)))
  | None =>
      match pcre_field name with
      | Some field =>
          expression ← require_value name value;
          _ ← refuse (bool_decide (trim expression = [])) (invalid name (why "empty expression"));
          inr (push_match b (OHost (mkHostFieldMatch field (HostRegex expression) negated)))
      | None =>
          if decide (name ∈ RECOGNISED_UNIMPLEMENTED_OPTIONS) then
            let '(mkBuilder sid rev msg classtype priority gid threshold metadata references matches
                    unsupported seen no_alert buffer) := b in
            inr (mkBuilder sid rev msg classtype priority gid threshold metadata references matches
                   (if decide (name ∈ seen) then unsupported else unsupported ++ [name])
                   ({[name]} ∪ seen) no_alert buffer)
          else inl (UnknownOption name)
      end
  end.

(** The [match] of [build_rule], its arms in the order of the source. *)
Definition apply_option (b : Builder) (o : RawOption) : ParseError + Builder :=
  let '(mkRawOption name value negated) := o in
  match metadata_option b name value with
  | Some r => r
  | None =>
      match matching_option b name value negated with
      | Some r => r
      | None => host_option b name value negated
      end
  end.

Definition build_rule (header : RuleHeader) (options : list RawOption) (raw : text) : ParseError + Rule :=
  b ← try_fold apply_option builder_new options;
  sid ← ok_or MissingSid (b_sid b);
  msg ← ok_or MissingMsg (b_msg b);
  inr (mkRule header sid (unwrap_or 1 (b_rev b)) (b_gid b) (b_priority b) msg (b_classtype b)
         (b_metadata b) (b_references b) (b_matches b) (b_threshold b) (b_no_alert b) (b_unsupported b) raw None).

Definition parse_rule (t : text) : ParseError + Rule :=
  let raw := trim t in
  if decide (raw = []) then inl Empty
  else
    '(header, rest) ← ok_or MissingOptionBlock (split_once 40 raw);
    '(body, _) ← ok_or UnterminatedOptionBlock (rsplit_once 41 rest);
    header ← parse_header header;
    options ← parse_options body;
    build_rule header options raw.
