(* ===== verification/ParserWf.v ===== *)
(** Every rule the parser accepts is well formed: the ranges and shapes that the engine relies on. *)

From stdpp Require Import pretty.
From S2P Require Import Prelude Text Net Event RuleModel Eval Parser.

(** ** Every parsed rule is well formed *)

(** The numbers and the texts of a parsed rule are in the ranges the engine relies on. *)
Definition in_i32 (n : Z) : Prop := - 2 ^ 31 <= n < 2 ^ 31.

Definition matcher_wf (m : HostMatcher) : Prop :=
  match m with
  | AnyOf values _ _ => values <> [] /\ Forall (fun v => v <> []) values
  | HostRegex source => trim source <> []
  end.

Definition option_wf (o : RuleOption) : Prop :=
  match o with
  | OContent c => cm_pattern c <> [] /\ Forall in_u8 (cm_pattern c) /\ content_wf c
  | OPcre p => pm_source p <> []
  | OFlow f => fm_established f <> None \/ fm_to_server f <> None
  | OFlowBits (BSet n) | OFlowBits (BUnset n) | OFlowBits (BToggle n) | OFlowBits (BIsSet n)
  | OFlowBits (BIsNotSet n) => n <> []
  | OFlowBits BNoAlert => False
  | OByteTest t => 1 <= bt_bytes t <= 8 /\ in_u64 (bt_value t) /\ in_i32 (bt_offset t)
  | OByteJump j =>
      1 <= bj_bytes j <= 8 /\ in_i32 (bj_offset j) /\ in_u32 (bj_multiplier j) /\ in_i32 (bj_post_offset j)
  | ODsize d => in_u32 (ds_value d) /\ forall u, ds_upper d = Some u -> in_u32 u /\ ds_op d = Greater
  | ONormalized _ => True
  | OHost h => matcher_wf (hf_matcher h)
  end.

Definition threshold_ok (t : Threshold) : Prop := 1 <= th_count t <= U32_MAX /\ in_u32 (th_seconds t).

Definition all_some {A : Type} (P : A -> Prop) (o : option A) : Prop := forall a, o = Some a -> P a.

Lemma all_some_none {A : Type} (P : A -> Prop) : all_some P None.
Proof. done. Qed.

Lemma all_some_some {A : Type} (P : A -> Prop) a : P a -> all_some P (Some a).
Proof. by intros ? ? [= <-]. Qed.

#[export] Hint Resolve all_some_none all_some_some : sensor.

(** A variable name of a header. *)
Definition var_name (name : text) : Prop :=
  name <> [] /\ Forall (fun c => is_ascii_alphanumeric c = true \/ c = 95) name.

Definition address_wf (a : AddressValue) : Prop :=
  match a with
  | AAny => True
  | AVar name => var_name name
  | AList t => exists inner, t = 91 :: inner ++ [93] /\ inner <> []
  | ALiteral t => exists n, from_str t = inr n
  end.

Definition port_wf (p : PortValue) : Prop :=
  match p with
  | PAny => True
  | PVar name => var_name name
  | PList t => exists inner, t = 91 :: inner ++ [93] /\ inner <> []
  | PSingle port => in_u16 port
  | PRange low high =>
      all_some in_u16 low /\ all_some in_u16 high /\
      forall l h, low = Some l -> high = Some h -> l <= h
  end.

Record header_wf (h : RuleHeader) : Prop := {
  hw_source : address_wf (as_value (rh_source h));
  hw_source_port : port_wf (ps_value (rh_source_port h));
  hw_destination : address_wf (as_value (rh_destination h));
  hw_destination_port : port_wf (ps_value (rh_destination_port h))
}.

Record rule_wf (r : Rule) : Prop := {
  rw_header : header_wf (r_header r);
  rw_sid : in_u32 (r_sid r);
  rw_rev : in_u32 (r_rev r);
  rw_gid : all_some in_u32 (r_gid r);
  rw_priority : all_some (fun p => 1 <= p <= 255) (r_priority r);
  rw_msg : trim (r_msg r) <> [];
  rw_options : Forall option_wf (r_options r);
  rw_threshold : all_some threshold_ok (r_threshold r);
  rw_unsupported :
    NoDup (r_unsupported_options r) /\ Forall (fun k => k ∈ RECOGNISED_UNIMPLEMENTED_OPTIONS) (r_unsupported_options r)
}.

(** What the loop of [build_rule] keeps. *)
Record builder_wf (b : Builder) : Prop := {
  bw_sid : all_some in_u32 (b_sid b);
  bw_rev : all_some in_u32 (b_rev b);
  bw_gid : all_some in_u32 (b_gid b);
  bw_priority : all_some (fun p => 1 <= p <= 255) (b_priority b);
  bw_msg : all_some (fun m => trim m <> []) (b_msg b);
  bw_matches : Forall option_wf (b_matches b);
  bw_threshold : all_some threshold_ok (b_threshold b);
  bw_seen : forall k, k ∈ b_unsupported b -> k ∈ b_seen_unsupported b;
  bw_unsupported :
    NoDup (b_unsupported b) /\ Forall (fun k => k ∈ RECOGNISED_UNIMPLEMENTED_OPTIONS) (b_unsupported b)
}.

Ltac ranges := unfold in_u8, in_u16, in_u32, in_u64, in_i32, U16_MAX, U32_MAX, U64_MAX in *.

Lemma parse_i32_range t n : parse_i32 t = Some n -> in_i32 n.
Proof. intros E. apply parse_signed_range in E; unfold in_i32; lia. Qed.

Lemma parse_u32_range t n : parse_unsigned U32_MAX t = Some n -> in_u32 n.
Proof. by apply parse_unsigned_range. Qed.

Lemma parse_u16_range t n : parse_unsigned U16_MAX t = Some n -> in_u16 n.
Proof. by apply parse_unsigned_range. Qed.

Lemma parse_u64_range t n : parse_unsigned U64_MAX t = Some n -> in_u64 n.
Proof. by apply parse_unsigned_range. Qed.

#[export] Hint Resolve parse_i32_range parse_u32_range parse_u16_range parse_u64_range : sensor.

Lemma try_u32_range d n : in_u32 d -> in_u32 (unwrap_or d (try_u32 n)).
Proof. intros Hd. unfold try_u32, try_from. case_match eqn:E; [|done]. bsimpl. simpl. by ranges. Qed.

Lemma try_i32_range n : in_i32 (unwrap_or 0 (try_i32 n)).
Proof. unfold try_i32, try_from. case_match eqn:E; bsimpl; simpl; ranges; lia. Qed.

Lemma modify_content_wf c name value c' :
  option_wf (OContent c) -> modify_content c name value = inr c' -> option_wf (OContent c').
Proof.
  destruct c as [pattern buffer negated nocase offset depth distance within fast]. unfold modify_content.
  intros (Hp & Hb & Ho & Hd & Hi & Hw) E.
  assert (H0 : in_u32 0) by (ranges; lia). assert (Hmax : in_u32 U32_MAX) by (ranges; lia).
  repeat case_match; results; simplify_eq; (split; [done|split; [done|]]); cbn in *;
    (split; [|split; [|split]]); cbn; try done; intros ? [= <-]; auto using try_u32_range; apply try_i32_range.
Qed.

Lemma apply_content_modifier_wf ms name value ms' :
  Forall option_wf ms -> apply_content_modifier ms name value = inr ms' -> Forall option_wf ms'.
Proof.
  unfold apply_content_modifier. intros H E. apply Forall_reverse in H.
  destruct (reverse ms) as [|[c| | | | | | | |] before]; try done. inversion H as [|? ? Hc Hb]; subst. results.
  simplify_eq. apply Forall_app. split; [by apply Forall_reverse|]. constructor; [|done]. by eapply modify_content_wf.
Qed.

Lemma hex_digit_range c d : hex_digit c = Some d -> 0 <= d < 16.
Proof. unfold hex_digit. intros E. repeat case_match; simplify_eq; bsimpl; lia. Qed.

Lemma content_bytes_wf in_hex nibbles t bytes : content_bytes in_hex nibbles t = inr bytes -> Forall in_u8 bytes.
Proof.
  revert in_hex nibbles bytes. induction t as [|c t IH]; intros in_hex nibbles bytes E; cbn [content_bytes] in E.
  - destruct in_hex; [done|]. by simplify_eq.
  - destruct (c =? 124); [case_match; [done|by eapply IH]|]. destruct (negb in_hex).
    + destruct (negb (is_ascii c)) eqn:Ec; [done|]. results. simplify_eq. constructor; [|by eapply IH].
      bsimpl. unfold is_ascii in Ec. bsimpl. ranges. lia.
    + destruct (is_ascii_whitespace c); [by eapply IH|]. destruct (negb (is_ascii_hexdigit c)); [done|].
      destruct nibbles as [|high rest]; [by eapply IH|]. results. simplify_eq. constructor; [|by eapply IH].
      destruct (hex_digit high) as [h|] eqn:Eh; [|done]. destruct (hex_digit c) as [l|] eqn:El; [|done].
      simplify_eq/=. apply hex_digit_range in Eh, El. ranges. lia.
Qed.

Lemma pcre_flags_source flags p p' : pcre_flags p flags = inr p' -> pm_source p' = pm_source p.
Proof.
  revert p. induction flags as [|c flags IH]; intros [source buffer negated i s m r] E; cbn in E; [by simplify_eq|].
  repeat (case_match; [by apply IH in E|]). done.
Qed.

Lemma parse_pcre_wf t p : parse_pcre t = inr p -> pm_source p <> [].
Proof.
  unfold parse_pcre. intros E. results. destruct x0 as [source flags]. results.
  rewrite (pcre_flags_source _ _ _ H2). cbn. by apply bool_decide_eq_false in H1.
Qed.

Lemma parse_flow_wf t f : parse_flow t = inr f -> option_wf (OFlow f).
Proof.
  unfold parse_flow. assert (Hne : split_char 44 t <> []).
  { unfold split_char. destruct t as [|c t]; [done|]. simpl. repeat case_match; done. }
  destruct (split_char 44 t) as [|p ps]; [done|]. simpl. intros E. results.
  eapply (try_fold_inv (fun f => option_wf (OFlow f))); [| |eassumption].
  - intros s part s' [Hs|Hs] Hp; unfold flow_part in Hp; repeat case_match; simplify_eq; simpl; auto.
  - unfold flow_part in *. repeat case_match; simplify_eq; simpl; auto.
Qed.

Lemma parse_flowbits_wf t op : parse_flowbits t = inr op -> op = BNoAlert \/ option_wf (OFlowBits op).
Proof.
  unfold parse_flowbits. intros E. repeat case_match; results; simplify_eq; auto; right;
    by match goal with H : bool_decide _ = false |- _ => apply bool_decide_eq_false in H end.
Qed.

Lemma byte_count_range t what n : byte_count t what = inr n -> 1 <= n <= 8.
Proof. unfold byte_count. intros E. results. simplify_eq. bsimpl. lia. Qed.

Lemma byte_test_modifier_wf b m b' :
  option_wf (OByteTest b) -> byte_test_modifier b m = inr b' -> option_wf (OByteTest b').
Proof.
  destruct b. intros (? & ? & ?) E. unfold byte_test_modifier in E. by repeat case_match; simplify_eq.
Qed.

Lemma parse_byte_test_wf t b : parse_byte_test t = inr b -> option_wf (OByteTest b).
Proof.
  unfold parse_byte_test. intros E. repeat case_match; try done; results;
    (eapply (try_fold_inv (fun b => option_wf (OByteTest b)));
       [apply byte_test_modifier_wf| |eassumption];
       cbn; split; [eapply byte_count_range; eassumption|eauto with sensor]).
Qed.

Lemma parse_byte_jump_wf t j : parse_byte_jump t = inr j -> option_wf (OByteJump j).
Proof.
  unfold parse_byte_jump. intros E. repeat case_match; try done. results.
  eapply (try_fold_inv (fun j => option_wf (OByteJump j))); [| |eassumption].
  - intros [] m [] (? & ? & ? & ?) Em. unfold byte_jump_modifier in Em. cbn in *.
    repeat case_match; results; simplify_eq; cbn; eauto with sensor.
  - cbn. split; [eapply byte_count_range; eassumption|]. split; [eauto with sensor|]. ranges. lia.
Qed.

Lemma parse_dsize_wf t d : parse_dsize t = inr d -> option_wf (ODsize d).
Proof.
  unfold parse_dsize. intros E. repeat case_match; results; try (destruct x as [operator value]; results); simplify_eq;
    cbn; split; eauto with sensor; intros u Hu; simplify_eq; eauto with sensor.
Qed.

Lemma parse_threshold_wf t th : parse_threshold t = inr th -> threshold_ok th.
Proof.
  unfold parse_threshold. intros E. results. simplify_eq.
  assert (all_some in_u32 (tf_count x) /\ all_some in_u32 (tf_seconds x)) as [Hc Hs].
  { eapply (try_fold_inv (fun s => all_some in_u32 (tf_count s) /\ all_some in_u32 (tf_seconds s)));
      [| |eassumption]; [|done].
    intros [] part [] [Ha Hb] Ep. unfold threshold_part in Ep. cbn in *.
    repeat case_match; results; simplify_eq; eauto with sensor. }
  unfold threshold_ok. cbn. apply Hc in H0. apply Hs in H4. bsimpl. ranges. lia.
Qed.

(** A field that [parse_address] and [parse_port] take as a list. *)
Lemma bracketed body :
  starts_with body [91] = true -> negb (ends_with 93 body) = false -> (text_len body =? 2) = false ->
  exists inner, body = 91 :: inner ++ [93] /\ inner <> [].
Proof.
  intros H1 H2 H3. apply starts_with_spec in H1 as (rest & ->). apply negb_false_iff, bool_decide_eq_true in H2.
  apply last_Some in H2 as (l & Hl). destruct l as [|x inner]; simplify_eq/=.
  exists inner. split; [done|]. intros ->. by vm_compute in H3.
Qed.

Lemma validate_var_name_wf name u : validate_var_name name = inr u -> var_name name.
Proof.
  unfold validate_var_name. case_decide; [done|]. case_match eqn:E; [done|]. intros _. bsimpl. split; [done|].
  apply Is_true_true, forallb_True in E. eapply Forall_impl; [done|]. intros c Hc. simpl in Hc.
  apply Is_true_true, orb_true_iff in Hc as [?|?]; bsimpl; auto.
Qed.

Lemma validate_address_literal_wf t u :
  no_whitespace t -> validate_address_literal t = inr u -> exists n, from_str t = inr n.
Proof.
  intros Ht. unfold validate_address_literal, from_str. rewrite trim_none by done. intros E.
  destruct (split_once 47 t) as [[addr prefix]|]; results.
  - rewrite H. rewrite H0. unfold new.
    replace (max_prefix_len x) with (if is_ipv4 x then 32 else 128) by (by destruct x). rewrite H1. eauto.
  - rewrite H. eauto.
Qed.

(** A leading [!] of a header field. *)
Lemma split_negation_spec t negated body :
  no_whitespace t -> split_negation t = (negated, body) -> t = (if negated then [33] else []) ++ body.
Proof.
  unfold split_negation, strip_prefix. intros Ht E. destruct t as [|c t]; [by simplify_eq|].
  inversion Ht; subst. destruct (Z.eqb_spec c 33) as [->|]; simplify_eq; [|done].
  by rewrite trim_start_none.
Qed.

Lemma negation_no_whitespace t negated body :
  no_whitespace t -> split_negation t = (negated, body) -> no_whitespace body.
Proof.
  intros Ht E. rewrite (split_negation_spec t negated body Ht E) in Ht. by apply Forall_app in Ht as [_ ?].
Qed.

Lemma parse_address_wf t a : no_whitespace t -> parse_address t = inr a -> address_wf (as_value a).
Proof.
  intros Ht. unfold parse_address. destruct (split_negation t) as [negated body] eqn:En.
  apply negation_no_whitespace in En; [|done]. case_decide; [done|]. intros E. results. simplify_eq. cbn.
  repeat case_match; results; simplify_eq; cbn;
    eauto using validate_var_name_wf, validate_address_literal_wf, bracketed.
Qed.

Lemma parse_optional_port_wf t p : parse_optional_port t = inr p -> all_some in_u16 p.
Proof. unfold parse_optional_port. case_decide; intros E; results; simplify_eq; eauto with sensor. Qed.

Lemma parse_port_wf t p : parse_port t = inr p -> port_wf (ps_value p).
Proof.
  unfold parse_port. destruct (split_negation t) as [negated body]. case_decide; [done|]. intros E. results.
  simplify_eq. cbn. repeat case_match; results; simplify_eq; cbn;
    eauto using validate_var_name_wf, bracketed with sensor.
  split; [by eapply parse_optional_port_wf|]. split; [by eapply parse_optional_port_wf|].
  intros low high -> ->. results. bsimpl. lia.
Qed.

Lemma parse_header_wf t h : parse_header t = inr h -> header_wf h.
Proof.
  unfold parse_header. pose proof (split_whitespace_fields t) as Hf.
  destruct (split_whitespace t) as [|f1 [|f2 [|f3 [|f4 [|f5 [|f6 [|f7 [|]]]]]]]]; try done. intros E. results.
  simplify_eq. repeat (apply Forall_cons in Hf as [[_ ?] Hf]).
  constructor; cbn; eauto using parse_address_wf, parse_port_wf.
Qed.

(** The loop of [build_rule] keeps [builder_wf]. *)
Lemma parse_u32_option_range name value n : parse_u32_option name value = inr n -> in_u32 n.
Proof. unfold parse_u32_option. intros E. results. eauto with sensor. Qed.

Lemma metadata_option_wf b name value b' :
  builder_wf b -> metadata_option b name value = Some (inr b') -> builder_wf b'.
Proof.
  destruct b. intros [] E. unfold metadata_option in E. cbn in *.
  repeat case_match; simplify_eq; results; simplify_eq; constructor; cbn;
    eauto using parse_u32_option_range with sensor; apply all_some_some; bsimpl; [lia|].
  by match goal with H : bool_decide _ = false |- _ => apply bool_decide_eq_false in H end.
Qed.

Lemma push_match_wf b o : builder_wf b -> option_wf o -> builder_wf (push_match b o).
Proof. destruct b. intros [] Ho. constructor; cbn in *; try done. apply Forall_app. split; [done|by constructor]. Qed.

Lemma set_matches_wf b ms : builder_wf b -> Forall option_wf ms -> builder_wf (set_matches b ms).
Proof. destruct b. intros [] Ho. by constructor. Qed.

Lemma matching_option_wf b name value negated b' :
  builder_wf b -> matching_option b name value negated = Some (inr b') -> builder_wf b'.
Proof.
  intros Hb E. unfold matching_option in E.
  repeat (case_match; [simplify_eq; results; simplify_eq;
    try (apply push_match_wf; [done|]); eauto using parse_byte_test_wf, parse_byte_jump_wf, parse_dsize_wf, parse_flow_wf|]);
    [..|done].
  - apply bool_decide_eq_false in H1. cbn. split; [done|]. split; [by eapply content_bytes_wf|done].
  - apply set_matches_wf; [done|]. by eapply apply_content_modifier_wf, H1; destruct Hb.
  - cbn. by eapply parse_pcre_wf.
  - match goal with H : parse_flowbits _ = _ |- _ => apply parse_flowbits_wf in H as [->|Hw] end;
      [destruct b, Hb; by constructor|].
    by destruct x; [apply push_match_wf..|].
  - done.
  - match goal with H : parse_threshold _ = _ |- _ => apply parse_threshold_wf in H end. destruct b, Hb. simplify_eq. constructor; cbn in *; eauto with sensor.
Qed.

Lemma host_option_wf b name value negated b' :
  builder_wf b -> host_option b name value negated = inr b' -> builder_wf b'.
Proof.
  intros Hb E. unfold host_option in E. destruct (field_from_keyword name) as [field|].
  { results. simplify_eq. apply push_match_wf; [done|]. cbn. unfold parse_host_values in *. results. simplify_eq.
    match goal with H : bool_decide _ = false |- _ => apply bool_decide_eq_false in H end. split; [done|]. apply Forall_forall. intros v Hv.
    by apply list_elem_of_filter in Hv as [? _]. }
  destruct (pcre_field name) as [field|].
  { results. simplify_eq. apply push_match_wf; [done|]. by apply bool_decide_eq_false in H0. }
  case_decide as Hk; [|done]. destruct b, Hb. simplify_eq. constructor; cbn in *; try done.
  - intros k Hkk. case_decide; [set_solver|]. apply elem_of_app in Hkk as [?| ->%list_elem_of_singleton]; set_solver.
  - destruct bw_unsupported0. case_decide as Hs; [done|]. split.
    + apply NoDup_app. split; [done|]. split; [|apply NoDup_singleton].
      intros k Hkk ->%list_elem_of_singleton. eauto.
    + apply Forall_app. split; [done|]. by apply Forall_singleton.
Qed.

Lemma apply_option_wf b o b' : builder_wf b -> apply_option b o = inr b' -> builder_wf b'.
Proof.
  destruct o as [name value negated]. unfold apply_option. intros Hb E.
  destruct (metadata_option b name value) as [r|] eqn:E1; [subst; by eapply metadata_option_wf|].
  destruct (matching_option b name value negated) as [r|] eqn:E2; [subst; by eapply matching_option_wf|].
  by eapply host_option_wf.
Qed.

Lemma builder_new_wf : builder_wf builder_new.
Proof. constructor; cbn; try done; [set_solver|]. split; constructor. Qed.

Lemma build_rule_wf h os raw r : header_wf h -> build_rule h os raw = inr r -> rule_wf r.
Proof.
  intros Hh E. unfold build_rule in E. results. simplify_eq.
  assert (Hb : builder_wf x) by (eapply try_fold_inv; [apply apply_option_wf|apply builder_new_wf|done]).
  destruct Hb. constructor; cbn; auto; [|by eapply bw_msg0]. destruct (b_rev x) eqn:Er; [by apply bw_rev0|ranges; simpl; lia].
Qed.

Lemma parse_wf t r : parse_rule t = inr r -> rule_wf r.
Proof.
  unfold parse_rule. case_decide; [done|]. intros E. results. destruct x as [header rest]. results.
  destruct x as [body after]. results. eapply build_rule_wf; [|done]. by eapply parse_header_wf.
Qed.

(** C24: every rule the parser accepts is well formed: its identifiers fit 32 bits, its priority is
    1 to 255, its message is not blank, every content has a non-empty pattern of bytes with modifiers
    in range, every byte option reads 1 to 8 bytes, a threshold counts at least one event, every
    literal network and port of the header can be used as written, and the keywords it could not
    use are listed once each. *)
Theorem parse_rule_wf t r : parse_rule t = inr r -> rule_wf r.
Proof. apply parse_wf. Qed.

(** The rule of the witnesses: a content with modifiers, a threshold and a keyword without an
    implementation. *)
Definition sample_text : text :=
  of_string "drop tcp !$HOME_NET 1024: -> 10.0.0.0/8 [80,443] (msg:sample; content:a|0d 0A|b; depth:40; nocase; threshold:type both, track by_src, count 5, seconds 60; target:x; sid:9; priority:2;)".

Lemma parse_rule_wf_witness : exists r, parse_rule sample_text = inr r /\ rule_wf r /\ r_sid r = 9.
Proof.
  eexists. split; [vm_compute; reflexivity|]. split; [|reflexivity].
  apply (parse_rule_wf sample_text). vm_compute. reflexivity.
Defined.
