(* ===== verification/RuleText.v ===== *)
(** Rules written down and read back: the option block, the header and the content patterns of the
    rule language survive a round trip through their canonical text. *)

From stdpp Require Import pretty.
From S2P Require Import Prelude Text Net Event RuleModel Eval Parser ParserWf.

(** ** Writing options down and reading them back *)

(** The canonical text of an option: its value in quotes, with the three structural characters
    escaped. *)
Definition escape_char (c : Z) : text := if (c =? 34) || (c =? 59) || (c =? 92) then [92; c] else [c].
Definition escape (v : text) : text := v ≫= escape_char.
Definition quote (v : text) : text := 34 :: escape v ++ [34].

Definition render_chunk (o : RawOption) : text :=
  ro_name o ++
  match ro_value o with
  | None => []
  | Some v => 58 :: (if ro_negated o then [33] else []) ++ quote v
  end.

Definition render_options (os : list RawOption) : text := os ≫= (fun o => render_chunk o ++ [59]).

(** A keyword: lower-case letters, digits, underscores and dots. *)
Definition keyword_char (c : Z) : bool :=
  is_ascii_digit c || ((97 <=? c) && (c <=? 122)) || (c =? 95) || (c =? 46).

Definition keyword (name : text) : Prop := name <> [] /\ Forall (fun c => keyword_char c = true) name.

(** An option as the parser can produce it: only a value can be negated. *)
Definition raw_ok (o : RawOption) : Prop := keyword (ro_name o) /\ (ro_value o = None -> ro_negated o = false).

Lemma keyword_char_plain c :
  keyword_char c = true ->
  (c =? 92) = false /\ (c =? 34) = false /\ (c =? 59) = false /\ (c =? 58) = false /\ is_whitespace c = false /\
  to_ascii_lowercase c = c.
Proof.
  unfold keyword_char, is_whitespace, to_ascii_lowercase, is_ascii_digit. intros H.
  assert (46 <= c <= 122 /\ c <> 92 /\ c <> 59 /\ c <> 58 /\ ~ 65 <= c <= 90) as Hc.
  { repeat (apply orb_true_iff in H as [H|H]); bsimpl; lia. }
  repeat split; try by zdec. case_match eqn:E; [|done]. bsimpl. lia.
Qed.

Lemma resolve_escape v : resolve_escapes (escape v) = inr v.
Proof.
  induction v as [|c v IH]; [done|]. change (escape (c :: v)) with (escape_char c ++ escape v). unfold escape_char.
  destruct ((c =? 34) || (c =? 59) || (c =? 92)) eqn:Ec; cbn.
  - by rewrite IH, Ec.
  - apply orb_false_iff in Ec as [_ Ec]. by rewrite Ec, IH.
Qed.

(** Reading a quoted value gives the value. *)
Lemma unescape_quote v : unescape (quote v) = inr v.
Proof.
  unfold unescape, quote. rewrite text_len_cons, text_len_app. pose proof (text_len_pos (escape v)).
  change (len_utf8 34) with 1. change (text_len [34]) with 1. zdec. cbn [starts_with Z.eqb andb].
  unfold ends_with. rewrite app_comm_cons, last_snoc. rewrite bool_decide_true by done. cbn.
  rewrite drop_0, length_app. cbn [length]. replace (length (escape v) + 1 - 1)%nat with (length (escape v)) by lia.
  rewrite take_app_length. apply resolve_escape.
Qed.

Lemma split_options_keyword current name rest :
  Forall (fun c => keyword_char c = true) name ->
  split_options current false (name ++ rest) = split_options (current ++ name) false rest.
Proof.
  intros Hn. revert current. induction Hn as [|c name Hc _ IH]; intros current; [by rewrite app_nil_r|].
  apply keyword_char_plain in Hc as (H1 & H2 & H3 & _). cbn. rewrite H1, H2, H3. simpl.
  rewrite IH. by rewrite <- app_assoc.
Qed.

Lemma split_options_escape current v rest :
  split_options current true (escape v ++ rest) = split_options (current ++ escape v) true rest.
Proof.
  revert current. induction v as [|c v IH]; intros current; [by rewrite app_nil_r|].
  change (escape (c :: v)) with (escape_char c ++ escape v). rewrite <- app_assoc, (app_assoc current), <- IH. unfold escape_char.
  destruct ((c =? 34) || (c =? 59) || (c =? 92)) eqn:Ec; [done|]. bsimpl. cbn. by zdec.
Qed.

Lemma split_options_chunk o rest :
  raw_ok o -> split_options [] false (render_chunk o ++ 59 :: rest) =
    (os ← split_options [] false rest; inr (render_chunk o :: os)).
Proof.
  intros [[_ Hn] Hneg]. unfold render_chunk. rewrite <- app_assoc, split_options_keyword by done. simpl.
  destruct (ro_value o) as [v|]; [|by rewrite app_nil_r].
  destruct (ro_negated o); cbn; unfold quote; cbn; rewrite <- !app_assoc, split_options_escape; cbn;
    by rewrite <- ?app_assoc.
Qed.

Lemma split_rendered os : Forall raw_ok os -> split_option_list (render_options os) = inr (render_chunk <$> os).
Proof.
  unfold split_option_list. induction 1 as [|o os Ho _ IH]; [done|].
  change (render_options (o :: os)) with ((render_chunk o ++ [59]) ++ render_options os).
  rewrite <- app_assoc. cbn [app]. rewrite split_options_chunk by done. by rewrite IH.
Qed.

Lemma split_colon_keyword name rest :
  Forall (fun c => keyword_char c = true) name ->
  split_colon false false (name ++ 58 :: rest) = Some (name, rest) /\ split_colon false false name = None.
Proof.
  induction 1 as [|c name Hc _ [IH1 IH2]]; [done|].
  apply keyword_char_plain in Hc as (H1 & H2 & _ & H4 & _). cbn [app split_colon]. rewrite H1, H2, H4. simpl.
  by rewrite IH1, IH2.
Qed.

Lemma keyword_no_whitespace name : keyword name -> no_whitespace name /\ lowercase name = name.
Proof.
  intros [_ H]. split.
  - eapply Forall_impl; [done|]. intros c Hc. by apply keyword_char_plain in Hc as (_ & _ & _ & _ & ? & _).
  - induction H as [|c name Hc _ IH]; [done|]. cbn. apply keyword_char_plain in Hc as (_ & _ & _ & _ & _ & ->).
    f_equal. apply IH.
Qed.

Lemma trim_quoted p v : (forall c, head p = Some c -> is_whitespace c = false) -> trim (p ++ quote v) = p ++ quote v.
Proof.
  intros Hp. unfold quote. apply trim_ends.
  - destruct p; [|done]. by intros c [= <-].
  - intros c. rewrite app_comm_cons, app_assoc, last_snoc. by intros [= <-].
Qed.

Lemma parse_rendered o : raw_ok o -> trim (render_chunk o) = render_chunk o /\ render_chunk o <> [] /\
  parse_option (render_chunk o) = inr o.
Proof.
  destruct o as [name value negated]. intros [Hk Hneg]. cbn in Hk, Hneg.
  pose proof (keyword_no_whitespace _ Hk) as [Hw Hl]. destruct Hk as [Hne Hc].
  destruct (split_colon_keyword name [] Hc) as [_ Hnone].
  unfold render_chunk, parse_option, split_name_value. cbn [ro_name ro_value ro_negated].
  destruct value as [v|].
  - split; [|split; [by destruct name|]].
    + change (58 :: (if negated then [33] else []) ++ quote v) with ([58] ++ (if negated then [33] else []) ++ quote v).
      rewrite !app_assoc. apply trim_quoted. intros c Hh. destruct name as [|x name]; [done|]. simplify_eq/=.
      by inversion Hw.
    + destruct (split_colon_keyword name ((if negated then [33] else []) ++ quote v) Hc) as [-> _].
      rewrite trim_quoted by (destruct negated; [by intros c [= <-]|done]).
      rewrite trim_none, Hl by done. destruct negated; cbn [app].
      * change (strip_prefix 33 (33 :: quote v)) with (Some (quote v)). cbv beta iota. assert (trim (quote v) = quote v) as -> by (by apply (trim_quoted [])).
        by rewrite unescape_quote.
      * change (strip_prefix 33 (quote v)) with (@None text). cbv beta iota. by rewrite unescape_quote.
  - rewrite !app_nil_r, Hnone. rewrite trim_none, Hl by done.
    split; [done|]. split; [done|]. by rewrite Hneg.
Qed.

(** The option block is read back exactly as it was written. *)
Lemma option_block_roundtrip os : Forall raw_ok os -> parse_options (render_options os) = inr os.
Proof.
  intros Hos. unfold parse_options. rewrite split_rendered by done. cbn.
  induction Hos as [|o os Ho _ IH]; [done|]. cbn. apply parse_rendered in Ho as (-> & Hne & ->).
  rewrite decide_False by done. cbn. by rewrite IH.
Qed.

(** A rule as its header's text and its options. *)
Definition render_rule (header : text) (os : list RawOption) : text := header ++ 40 :: render_options os ++ [41].

(** C25: a rule is read back exactly as it was written: for any header text and any options, with
    values of any characters at all (quotes, semicolons, parentheses, backslashes), quoting the values
    gives a rule whose parse is the assembly of those very keywords, values and negations, in order. *)
Theorem parse_rendered_rule header h os :
  (forall c, head header = Some c -> is_whitespace c = false) -> Forall (fun c => c <> 40) header ->
  parse_header header = inr h -> Forall raw_ok os ->
  parse_rule (render_rule header os) = build_rule h os (render_rule header os).
Proof.
  intros Hw H40 Hh Hos. unfold parse_rule.
  assert (trim (render_rule header os) = render_rule header os) as ->.
  { apply trim_ends; unfold render_rule.
    - destruct header; [|done]. by intros c [= <-].
    - intros c. rewrite app_comm_cons, app_assoc, last_snoc. by intros [= <-]. }
  rewrite decide_False by (by destruct header).
  change (split_once 40 (render_rule header os)) with (split_once 40 (header ++ 40 :: render_options os ++ [41])).
  rewrite split_once_app by done. cbn [ok_or mbind result_bind].
  rewrite rsplit_once_app by done. cbn [ok_or mbind result_bind]. rewrite Hh. cbn [mbind result_bind].
  by rewrite option_block_roundtrip.
Qed.

(** *** Content patterns *)

(** A pattern written as one hex section. *)
Definition hex_pair (b : Z) : text := [show_digit (b / 16); show_digit (b mod 16)].
Definition hex_section (bytes : list Z) : text := 124 :: (bytes ≫= hex_pair) ++ [124].

Lemma show_digit_hex d :
  0 <= d < 16 -> hex_digit (show_digit d) = Some d /\ is_ascii_hexdigit (show_digit d) = true /\
  is_ascii_whitespace (show_digit d) = false /\ (show_digit d =? 124) = false.
Proof. intros Hd. assert (d ∈ seqZ 0 16) as H by (apply elem_of_seqZ; lia). cbn in H.
  repeat (apply elem_of_cons in H as [->|H]; [by vm_compute|]). by apply not_elem_of_nil in H.
Qed.

(** Every sequence of bytes can be written as a content pattern: its hex section parses to
    exactly those bytes. *)
Theorem content_hex_roundtrip bytes : Forall in_u8 bytes -> parse_content_pattern (hex_section bytes) = inr bytes.
Proof.
  intros H. unfold parse_content_pattern, hex_section. cbn [content_bytes Z.eqb Pos.eqb andb negb].
  induction H as [|b bytes Hb _ IH]; [done|]. unfold in_u8 in Hb.
  change ((b :: bytes) ≫= hex_pair) with (hex_pair b ++ (bytes ≫= hex_pair)). unfold hex_pair at 1. cbn [app content_bytes].
  destruct (show_digit_hex (b / 16)) as (Eh & Hh1 & Hh2 & Hh3); [split; [apply Z.div_pos|apply Z.div_lt_upper_bound]; lia|].
  destruct (show_digit_hex (b mod 16)) as (El & Hl1 & Hl2 & Hl3); [apply Z.mod_pos_bound; lia|].
  rewrite Hh3, Hh2, Hh1, Hl3, Hl2, Hl1. cbn [negb andb]. rewrite Eh, El. cbn [mbind option_bind ok_or result_bind].
  rewrite IH. cbn. do 2 f_equal. pose proof (Z.div_mod b 16). lia.
Qed.

(** *** Headers *)

Definition bang (negated : bool) : text := if negated then [33] else [].

Definition render_address (a : AddressSpec) : text :=
  bang (as_negated a) ++
  match as_value a with
  | AAny => of_string "any"
  | AVar name => 36 :: name
  | AList t | ALiteral t => t
  end.

Definition show_port (n : Z) : text := show_digits 5 10 n [].
Definition show_bound (o : option Z) : text := match o with Some n => show_port n | None => [] end.

Definition render_port (p : PortSpec) : text :=
  bang (ps_negated p) ++
  match ps_value p with
  | PAny => of_string "any"
  | PVar name => 36 :: name
  | PList t => t
  | PSingle n => show_port n
  | PRange low high => show_bound low ++ [58] ++ show_bound high
  end.

Definition render_header (h : RuleHeader) : text :=
  action_as_str (rh_action h) ++ [32] ++ protocol_as_str (rh_protocol h) ++ [32] ++
  render_address (rh_source h) ++ [32] ++ render_port (rh_source_port h) ++ [32] ++
  direction_as_str (rh_direction h) ++ [32] ++
  render_address (rh_destination h) ++ [32] ++ render_port (rh_destination_port h).

(** A field that was written and that reads back as [x]. *)
Definition reads_back {A : Type} (parse : text -> ParseError + A) (t : text) (x : A) : Prop :=
  t <> [] /\ no_whitespace t /\ parse t = inr x.

Lemma parse_address_render t a : no_whitespace t -> parse_address t = inr a -> reads_back parse_address (render_address a) a.
Proof.
  intros Ht E. pose proof E as E0. unfold parse_address in E.
  destruct (split_negation t) as [negated body] eqn:En. apply split_negation_spec in En; [|done].
  case_decide as Hb; [done|]. results. simplify_eq.
  destruct (eq_ignore_ascii_case body (of_string "any")).
  - simplify_eq. destruct negated; repeat split; try done; by repeat constructor.
  - assert (render_address (mkAddressSpec negated x) = (if negated then [33] else []) ++ body) as ->.
    { unfold render_address. cbn. unfold bang, strip_prefix in *. f_equal.
      destruct body as [|c body]; [done|]. destruct (Z.eqb_spec c 36) as [->|]; [results; by simplify_eq|].
      destruct (starts_with (c :: body) [91]); results; by simplify_eq. }
    split; [by destruct negated, body|done].
Qed.

(** What begins with a digit or a colon is no keyword, variable, list or negation. *)
Lemma numeric_head body c rest :
  body = c :: rest -> is_ascii_digit c = true \/ c = 58 ->
  eq_ignore_ascii_case body (of_string "any") = false /\ strip_prefix 36 body = None /\
  starts_with body [91] = false /\ strip_prefix 33 body = None.
Proof.
  intros -> Hc. assert (48 <= c <= 58) by (unfold is_ascii_digit in Hc; destruct Hc; bsimpl; lia).
  unfold eq_ignore_ascii_case, strip_prefix. rewrite bool_decide_false.
  - cbn. zdec. done.
  - change (to_ascii_lowercase <$> of_string "any") with [97; 110; 121]. cbn.
    unfold to_ascii_lowercase at 1. intros [= Hx _]. case_match eqn:E; bsimpl; lia.
Qed.

Lemma split_negation_bang negated body :
  no_whitespace body -> strip_prefix 33 body = None -> split_negation (bang negated ++ body) = (negated, body).
Proof.
  intros Hw Hs. unfold split_negation, bang. destruct negated; cbn [app].
  - change (strip_prefix 33 (33 :: body)) with (Some body). cbv beta iota.
    by rewrite trim_start_none.
  - by rewrite Hs.
Qed.

Lemma digit_not_whitespace c : is_ascii_digit c = true -> is_whitespace c = false.
Proof. intros H. unfold is_ascii_digit in H. bsimpl. unfold is_whitespace. by zdec. Qed.

Lemma show_port_spec n :
  in_u16 n -> show_port n <> [] /\ Forall (fun c => is_ascii_digit c = true) (show_port n) /\
  parse_unsigned U16_MAX (show_port n) = Some n.
Proof.
  intros Hn. unfold show_port. pose proof (show_digits_digits 5 n []) as Hd.
  pose proof (show_digits_nonempty 5 n []) as Hne. pose proof (parse_show_digits U16_MAX 5 n []) as Hp.
  set (t := show_digits 5 10 n []) in *. clearbody t. ranges. change (10 ^ Z.of_nat 5) with 100000 in Hp.
  split; [apply Hne; lia|]. split; [apply Hd; [lia|done]|].
  unfold parse_unsigned. specialize (Hp ltac:(lia) ltac:(lia) ltac:(lia)). specialize (Hd ltac:(lia) ltac:(done)).
  destruct t as [|c t]; [by specialize (Hne ltac:(lia))|]. inversion Hd as [|? ? Hc _]; subst.
  unfold is_ascii_digit in Hc. bsimpl. zdec. cbn [andb]. by rewrite Hp.
Qed.

Lemma show_bound_spec o :
  all_some in_u16 o -> Forall (fun c => is_ascii_digit c = true) (show_bound o) /\
  parse_optional_port (show_bound o) = inr o.
Proof.
  intros Ho. destruct o as [n|]; [|done]. destruct (show_port_spec n) as (Hne & Hd & Hp); [by apply Ho|].
  split; [done|]. unfold parse_optional_port. cbn [show_bound].
  rewrite trim_none by (eapply Forall_impl; [done|]; apply digit_not_whitespace).
  rewrite decide_False by done. by rewrite Hp.
Qed.

Lemma numeric_body negated body c rest :
  body = c :: rest -> is_ascii_digit c = true \/ c = 58 ->
  Forall (fun c => is_ascii_digit c = true \/ c = 58) body ->
  (bang negated ++ body) <> [] /\ no_whitespace (bang negated ++ body) /\
  parse_port (bang negated ++ body) =
    (value ← match split_once 58 body with
             | Some (low, high) =>
                 low ← map_err (InvalidPort (bang negated ++ body)) (parse_optional_port low);
                 high ← map_err (InvalidPort (bang negated ++ body)) (parse_optional_port high);
                 _ ← match low, high with
                     | Some low, Some high =>
                         refuse (high <? low)
                           (InvalidPort (bang negated ++ body) (why "range start is greater than range end"))
                     | _, _ => inr tt
                     end;
                 inr (PRange low high)
             | None =>
                 port ← ok_or (InvalidPort (bang negated ++ body) (why "not a port number in 0..=65535"))
                          (parse_unsigned U16_MAX body);
                 inr (PSingle port)
             end;
     inr (mkPortSpec negated value)).
Proof.
  intros Hb Hc Hall. destruct (numeric_head body c rest Hb Hc) as (H1 & H2 & H3 & H4).
  assert (Hw : no_whitespace body).
  { eapply Forall_impl; [done|]. intros x [Hx| ->]; [by apply digit_not_whitespace|done]. }
  split; [subst; by destruct negated|]. split; [apply Forall_app; split; [destruct negated; by repeat constructor|done]|].
  unfold parse_port. rewrite split_negation_bang by done. rewrite decide_False by (by subst). by rewrite H1, H2, H3.
Qed.

Lemma parse_port_render t p : no_whitespace t -> parse_port t = inr p -> reads_back parse_port (render_port p) p.
Proof.
  intros Ht E. pose proof (parse_port_wf t p E) as Hwf. pose proof E as E0. unfold parse_port in E.
  destruct (split_negation t) as [negated body] eqn:En. apply split_negation_spec in En; [|done].
  case_decide as Hb; [done|]. results. destruct p as [negated' v]. injection H0 as -> ->. cbn in Hwf.
  unfold render_port, reads_back. cbn [ps_negated ps_value]. destruct v as [|name|l|n|low high].
  - destruct negated'; repeat split; try done; by repeat constructor.
  - assert (body = 36 :: name) as ->.
    { apply strip_prefix_inv. by repeat case_match; results; simplify_eq. }
    unfold bang. rewrite <- En. split; [by rewrite En; destruct negated'|done].
  - assert (body = l) as -> by (repeat case_match; results; by simplify_eq).
    unfold bang. rewrite <- En. split; [by rewrite En; destruct negated', l|done].
  - destruct (show_port_spec n) as (Hne & Hd & Hp); [done|]. destruct (show_port n) as [|c rest] eqn:Es; [done|].
    inversion Hd as [|? ? Hc _]; subst.
    destruct (numeric_body negated' (show_port n) c rest) as (H1 & H2 & H3); [done|auto|rewrite Es; eapply Forall_impl; eauto|].
    rewrite Es in *. split; [done|]. split; [done|]. rewrite H3, split_once_none.
    + by rewrite Hp.
    + eapply Forall_impl; [done|]. intros x Hx ->. done.
  - destruct Hwf as (Hl & Hh & Hle). apply show_bound_spec in Hl as [Hd1 Hp1], Hh as [Hd2 Hp2].
    assert (exists c rest, show_bound low ++ [58] ++ show_bound high = c :: rest /\ (is_ascii_digit c = true \/ c = 58)) as (c & rest & Es & Hc).
    { destruct Hd1; eauto. }
    destruct (numeric_body negated' (show_bound low ++ [58] ++ show_bound high) c rest Es Hc) as (H1 & H2 & H3).
    { apply Forall_app. split; [eapply Forall_impl; eauto|]. constructor; [auto|]. eapply Forall_impl; eauto. }
    split; [done|]. split; [done|]. rewrite H3. cbn [app]. rewrite split_once_app.
    + rewrite Hp1, Hp2. destruct low as [l|], high as [h|]; try done. cbn. specialize (Hle l h eq_refl eq_refl).
      unfold refuse. by zdec.
    + eapply Forall_impl; [done|]. intros x Hx ->. done.
Qed.

Lemma action_reads_back a : reads_back parse_action (action_as_str a) a.
Proof. destruct a; repeat split; try done; by repeat constructor. Qed.

Lemma protocol_reads_back p : reads_back parse_protocol (protocol_as_str p) p.
Proof. destruct p; repeat split; try done; by repeat constructor. Qed.

Lemma direction_reads_back d : reads_back parse_direction (direction_as_str d) d.
Proof. destruct d; repeat split; try done; by repeat constructor. Qed.

Lemma parse_fields h :
  reads_back parse_address (render_address (rh_source h)) (rh_source h) ->
  reads_back parse_port (render_port (rh_source_port h)) (rh_source_port h) ->
  reads_back parse_address (render_address (rh_destination h)) (rh_destination h) ->
  reads_back parse_port (render_port (rh_destination_port h)) (rh_destination_port h) ->
  parse_header (render_header h) = inr h.
Proof.
  destruct h as [a p s sp d ds dp]. cbn [rh_action rh_protocol rh_source rh_source_port rh_direction rh_destination rh_destination_port].
  intros (S1 & S2 & S3) (SP1 & SP2 & SP3) (D1 & D2 & D3) (DP1 & DP2 & DP3).
  destruct (action_reads_back a) as (A1 & A2 & A3), (protocol_reads_back p) as (P1 & P2 & P3),
    (direction_reads_back d) as (I1 & I2 & I3).
  unfold parse_header, render_header.
  cbn [rh_action rh_protocol rh_source rh_source_port rh_direction rh_destination rh_destination_port].
  cbn [app]. repeat rewrite split_whitespace_app by done. rewrite split_whitespace_one by done.
  by rewrite A3, P3, S3, SP3, I3, D3, DP3.
Qed.

(** A header survives being written down: whatever header the parser accepted, its canonical
    text parses to the same action, protocol, addresses, ports and direction. *)
Theorem header_roundtrip t h : parse_header t = inr h -> parse_header (render_header h) = inr h.
Proof.
  intros E. unfold parse_header in E. pose proof (split_whitespace_fields t) as Hf.
  destruct (split_whitespace t) as [|f1 [|f2 [|f3 [|f4 [|f5 [|f6 [|f7 [|]]]]]]]]; try done. results.
  simplify_eq. repeat (apply Forall_cons in Hf as [[_ ?] Hf]).
  apply parse_fields; cbn [rh_source rh_source_port rh_destination rh_destination_port];
    eauto using parse_address_render, parse_port_render.
Qed.

Lemma header_roundtrip_witness :
  let h := mkRuleHeader Drop PTcp (mkAddressSpec true (AVar (of_string "HOME_NET"))) (mkPortSpec false (PRange (Some 1024) None))
             Bidirectional (mkAddressSpec false (ALiteral (of_string "10.0.0.0/8"))) (mkPortSpec true (PSingle 80)) in
  parse_header (render_header h) = inr h.
Proof.
  apply (header_roundtrip (of_string " DROP Tcp !$HOME_NET 01024: <> 10.0.0.0/8 !80 ")). vm_compute. reflexivity.
Defined.

Lemma content_hex_roundtrip_witness : parse_content_pattern (of_string "|00ff7c|") = inr [0; 255; 124].
Proof. apply (content_hex_roundtrip [0; 255; 124]). repeat constructor; lia. Defined.

Lemma parse_rendered_rule_witness :
  let header := of_string "alert tcp any any -> any 80 " in
  let os := [mkRawOption (of_string "msg") (Some (of_string "a;b) (c")) false;
             mkRawOption (of_string "content") (Some (of_string "GET")) true;
             mkRawOption (of_string "nocase") None false; mkRawOption (of_string "sid") (Some (of_string "9")) false] in
  exists h, parse_header header = inr h /\
    parse_rule (render_rule header os) = build_rule h os (render_rule header os) /\
    (if parse_rule (render_rule header os) then False else True).
Proof.
  intros header os. eexists. split; [vm_compute; reflexivity|]. split; [|vm_compute; exact I].
  apply (parse_rendered_rule header _ os).
  - by intros c [= <-].
  - apply Forall_fold_right. vm_compute. repeat split; discriminate.
  - vm_compute. reflexivity.
  - repeat constructor; try done; apply Forall_fold_right; vm_compute; repeat split.
Defined.
