(* ===== verification/Keywords.v ===== *)
(** Which keywords the parser accepts, how often, and what it makes of a negation. *)

From stdpp Require Import pretty.
From S2P Require Import Prelude Text Net Event RuleModel Eval Parser.

(** ** Which rules are refused *)

(** The keywords of the language. *)
Definition known_keywords : list text :=
  of_string <$>
  ["sid"; "rev"; "gid"; "priority"; "msg"; "classtype"; "metadata"; "reference";
   "http.uri"; "http.header"; "http.user_agent"; "http.method"; "http.host";
   "content"; "nocase"; "fast_pattern"; "startswith"; "offset"; "depth"; "distance"; "within"; "pcre";
   "flow"; "flowbits"; "byte_test"; "byte_jump"; "dsize"; "normalized"; "threshold";
   "file.path"; "file.change"; "auth.outcome"; "auth.user"; "auth.service"; "auth.source";
   "process.name"; "process.change"; "process.cmdline";
   "file.path.pcre"; "file.change.pcre"; "auth.outcome.pcre"; "auth.user.pcre"; "auth.service.pcre";
   "auth.source.pcre"; "process.name.pcre"; "process.change.pcre"; "process.cmdline.pcre";
   "endswith"; "detection_filter"; "target"]%string.

(** Those that may be written once. *)
Definition single_keywords : list text :=
  of_string <$> ["sid"; "rev"; "gid"; "priority"; "msg"; "classtype"; "threshold"]%string.

Lemma reads_eq t s : reads t s = true -> t = of_string s.
Proof. apply bool_decide_eq_true. Qed.

Lemma pcre_field_name name field : pcre_field name = Some field -> name = field_as_str field ++ of_string ".pcre".
Proof.
  unfold pcre_field, strip_suffix_text. destruct (starts_with _ _) eqn:Es; [|done]. cbn [mbind option_bind].
  apply starts_with_spec in Es as (rest & Es). intros E.
  assert (name = reverse rest ++ of_string ".pcre") as Hn.
  { rewrite <- (reverse_involutive name), Es, reverse_app. by rewrite reverse_involutive. }
  rewrite Hn in E |- *. rewrite length_app in E.
  replace (length (reverse rest) + length (of_string ".pcre") - length (of_string ".pcre"))%nat
    with (length (reverse rest)) in E by lia.
  rewrite take_app_length in E. f_equal. unfold field_from_keyword in E.
  apply List.find_some in E as [_ E]. apply bool_decide_eq_true in E. done.
Qed.

Lemma field_keyword_name name field : field_from_keyword name = Some field -> name = field_as_str field.
Proof. unfold field_from_keyword. intros E. apply List.find_some in E as [_ E]. by apply bool_decide_eq_true in E. Qed.

Definition filled (b : Builder) (k : text) : bool :=
  (reads k "sid" && bool_decide (is_Some (b_sid b))) || (reads k "rev" && bool_decide (is_Some (b_rev b))) ||
  (reads k "gid" && bool_decide (is_Some (b_gid b))) || (reads k "priority" && bool_decide (is_Some (b_priority b))) ||
  (reads k "msg" && bool_decide (is_Some (b_msg b))) || (reads k "classtype" && bool_decide (is_Some (b_classtype b))) ||
  (reads k "threshold" && bool_decide (is_Some (b_threshold b))).

(** What a round of the loop does to the slot of a keyword that may be written once. *)
Definition slot_step (b : Builder) (name : text) (b' : Builder) : Prop :=
  forall k, k ∈ single_keywords ->
    filled b' k = filled b k || bool_decide (name = k) /\ (name = k -> filled b k = false).

Lemma slot_same b name b' :
  name ∉ single_keywords -> (forall k, filled b' k = filled b k) -> slot_step b name b'.
Proof.
  intros Hn Hf k Hk. rewrite Hf, bool_decide_false by (intros ->; done).
  split; [by rewrite orb_false_r|]. intros ->. done.
Qed.

Ltac keyword_in := apply (bool_decide_unpack _); vm_compute; exact I.

Ltac named :=
  match goal with H : reads ?name _ = true |- _ => apply reads_eq in H; subst name end.

(** The round that fills an empty slot. *)
Ltac fill_slot :=
  match goal with
  | H : reject_duplicate ?slot _ = inr _ |- _ =>
      unfold reject_duplicate in H; results; destruct slot eqn:?; [done|]; simplify_eq/=
  end;
  intros k Hk; repeat (apply elem_of_cons in Hk as [->|Hk]; [by vm_compute; repeat case_match|]);
  by apply not_elem_of_nil in Hk.

Lemma metadata_option_known b name value b' :
  metadata_option b name value = Some (inr b') -> name ∈ known_keywords /\ slot_step b name b'.
Proof.
  destruct b. unfold metadata_option. intros E.
  repeat (case_match; [named; simplify_eq; split; [keyword_in|]; results; simplify_eq;
    first [by apply slot_same; [keyword_in|]|fill_slot]|]).
  destruct (buffer_from_keyword name) as [sticky|] eqn:Ek; [|done]. apply buffer_keyword_spec in Ek as [-> Hh].
  simplify_eq. results. simplify_eq.
  split; [destruct sticky; try done; keyword_in|]. apply slot_same; [|done]. destruct sticky; try done; keyword_in.
Qed.

Lemma filled_matches b ms k : filled (set_matches b ms) k = filled b k.
Proof. by destruct b. Qed.

Lemma filled_push b o k : filled (push_match b o) k = filled b k.
Proof. by destruct b. Qed.

Lemma is_modifier_known name : is_modifier name = true -> name ∈ known_keywords /\ name ∉ single_keywords.
Proof.
  unfold is_modifier. intros H. repeat (apply orb_true_iff in H as [H|H]); named; split; keyword_in.
Qed.

Lemma matching_option_known b name value negated b' :
  matching_option b name value negated = Some (inr b') -> name ∈ known_keywords /\ slot_step b name b'.
Proof.
  unfold matching_option. intros E. case_match eqn:Ec.
  { named. simplify_eq. split; [keyword_in|]. results. simplify_eq. apply slot_same; [keyword_in|]. intros. apply filled_push. }
  case_match eqn:Em.
  { apply is_modifier_known in Em as [? ?]. split; [done|]. simplify_eq. results. simplify_eq.
    apply slot_same; [done|]. intros. apply filled_matches. }
  repeat (case_match; [named; simplify_eq; split; [keyword_in|]; results; simplify_eq;
    apply slot_same; [keyword_in|]; intros k;
    first [apply filled_push|match goal with op : FlowBitsOp |- _ => by destruct b, op end]|]).
  case_match; [|done]. named. simplify_eq. split; [keyword_in|]. destruct b. results. simplify_eq.
  fill_slot.
Qed.

Lemma host_option_known b name value negated b' :
  host_option b name value negated = inr b' -> name ∈ known_keywords /\ slot_step b name b'.
Proof.
  unfold host_option. intros E. destruct (field_from_keyword name) as [field|] eqn:Ef.
  { apply field_keyword_name in Ef as ->. results. simplify_eq. split; [destruct field; keyword_in|].
    apply slot_same; [destruct field; keyword_in|]. intros. apply filled_push. }
  destruct (pcre_field name) as [field|] eqn:Ep.
  { apply pcre_field_name in Ep as ->. results. simplify_eq. split; [destruct field; keyword_in|].
    apply slot_same; [destruct field; keyword_in|]. intros. apply filled_push. }
  case_decide as Hk; [|done]. destruct b. simplify_eq.
  repeat (apply elem_of_cons in Hk as [->|Hk]; [split; [keyword_in|apply slot_same; [keyword_in|done]]|]).
  by apply not_elem_of_nil in Hk.
Qed.

Lemma apply_option_known b o b' :
  apply_option b o = inr b' -> ro_name o ∈ known_keywords /\ slot_step b (ro_name o) b'.
Proof.
  destruct o as [name value negated]. unfold apply_option. intros E. cbn.
  destruct (metadata_option b name value) as [r|] eqn:E1; [subst; by eapply metadata_option_known|].
  destruct (matching_option b name value negated) as [r|] eqn:E2; [subst; by eapply matching_option_known|].
  by eapply host_option_known.
Qed.

(** How often a keyword is written. *)
Definition written (k : text) (os : list RawOption) : nat := length (filter (fun o => ro_name o = k) os).

Lemma written_once os : forall b b', try_fold apply_option b os = inr b' ->
  Forall (fun o => ro_name o ∈ known_keywords) os /\
  forall k, k ∈ single_keywords -> (written k os + Nat.b2n (filled b k) = Nat.b2n (filled b' k))%nat.
Proof.
  induction os as [|o os IH]; intros b b' E; simpl in E; [by simplify_eq|]. results.
  apply apply_option_known in H as [Hk Hs]. apply IH in H0 as [Hall Hw]. split; [by constructor|].
  intros k Hk1. specialize (Hw k Hk1). destruct (Hs k Hk1) as [Ef Hn]. unfold written in *.
  rewrite filter_cons. destruct (decide (ro_name o = k)) as [Ho|Ho]; cbn [length].
  - rewrite Hn in * by done. rewrite Ef, bool_decide_true in Hw by done. simpl in *. lia.
  - rewrite Ef, bool_decide_false, orb_false_r in Hw by done. done.
Qed.

(** A rule is accepted only when every keyword in it belongs to the language, no keyword that
    may be written once is written twice, and the mandatory [sid] and [msg] are there: a typo or a
    repeated option is refused, never ignored. *)
Theorem accepted_keywords h os raw r :
  build_rule h os raw = inr r ->
  Forall (fun o => ro_name o ∈ known_keywords) os /\
  (forall k, k ∈ single_keywords -> (written k os <= 1)%nat) /\
  written (of_string "sid") os = 1%nat /\ written (of_string "msg") os = 1%nat.
Proof.
  unfold build_rule. intros E. results. apply written_once in H as [Hall Hw]. split; [done|].
  assert (Hsid : filled x (of_string "sid") = true) by (unfold filled; rewrite H0; by vm_compute).
  assert (Hmsg : filled x (of_string "msg") = true) by (unfold filled; rewrite H1; by vm_compute).
  assert (Hnew : forall k, filled builder_new k = false).
  { intros k. unfold filled. cbn. by rewrite !andb_false_r. }
  split; [|split].
  - intros k Hk. specialize (Hw k Hk). destruct (filled x k); cbn [Nat.b2n] in Hw; lia.
  - specialize (Hw (of_string "sid") ltac:(keyword_in)). rewrite Hsid, Hnew in Hw. cbn [Nat.b2n] in Hw. lia.
  - specialize (Hw (of_string "msg") ltac:(keyword_in)). rewrite Hmsg, Hnew in Hw. cbn [Nat.b2n] in Hw. lia.
Qed.

Lemma accepted_keywords_witness :
  let os := [mkRawOption (of_string "msg") (Some (of_string "m")) false;
             mkRawOption (of_string "content") (Some (of_string "abc")) true;
             mkRawOption (of_string "content") (Some (of_string "def")) false;
             mkRawOption (of_string "sid") (Some (of_string "7")) false] in
  Forall (fun o => ro_name o ∈ known_keywords) os /\
  (forall k, k ∈ single_keywords -> (written k os <= 1)%nat) /\
  written (of_string "sid") os = 1%nat /\ written (of_string "msg") os = 1%nat.
Proof.
  eapply (accepted_keywords (mkRuleHeader Alert PTcp (mkAddressSpec false AAny) (mkPortSpec false PAny) ToDestination
            (mkAddressSpec false AAny) (mkPortSpec false PAny)) _ []).
  vm_compute. reflexivity.
Defined.

(** ** Negation *)

(** The keywords for which a [!] before the value means something. *)
Definition negatable (name : text) : bool :=
  reads name "content" || reads name "pcre" || bool_decide (is_Some (field_from_keyword name)) ||
  bool_decide (is_Some (pcre_field name)).

(** A [!] before the value of any option other than a content, an expression or a host field is
    dropped without a word: [flow:!established] is read as [flow:established], [dsize:!100] as
    [dsize:100], so the rule matches the traffic its author excluded. *)
Theorem negation_dropped b name value :
  negatable name = false ->
  apply_option b (mkRawOption name value true) = apply_option b (mkRawOption name value false).
Proof.
  unfold negatable. intros H. bsimpl. unfold apply_option.
  destruct (metadata_option b name value); [done|].
  assert (matching_option b name value true = matching_option b name value false) as ->.
  { unfold matching_option. rewrite H, H2. done. }
  unfold host_option. apply bool_decide_eq_false in H0, H1.
  destruct (field_from_keyword name); [by destruct H1|]. by destruct (pcre_field name); [destruct H0|].
Qed.

Lemma negation_dropped_witness :
  apply_option builder_new (mkRawOption (of_string "flow") (Some (of_string "established")) true) =
  inr (push_match builder_new (OFlow (mkFlowMatch (Some true) None))).
Proof. rewrite negation_dropped by (vm_compute; reflexivity). vm_compute. reflexivity. Defined.

(** ** Modifiers out of range *)

(** A number that does not fit its type becomes zero: [depth:-1] asks for a pattern within the first
    zero bytes, [offset:-5] for one from the start. *)
Lemma modifier_out_of_range c value n :
  parse_i64 (trim value) = Some n -> n < 0 \/ U32_MAX < n ->
  modify_content c (of_string "depth") (Some value) =
    inr (mkContentMatch (cm_pattern c) (cm_buffer c) (cm_negated c) (cm_nocase c) (cm_offset c) (Some 0)
           (cm_distance c) (cm_within c) (cm_fast_pattern c)).
Proof.
  intros E Hn. unfold modify_content. destruct c.
  change (reads (of_string "depth") "nocase") with false. change (reads (of_string "depth") "fast_pattern") with false.
  change (reads (of_string "depth") "startswith") with false. change (reads (of_string "depth") "offset") with false.
  change (reads (of_string "depth") "depth") with true.
  cbn [ok_or mbind result_bind]. rewrite E. cbn [ok_or mbind result_bind]. unfold try_u32, try_from, U32_MAX in *.
  by destruct (Z.leb_spec 0 n), (Z.leb_spec n 4294967295); try lia.
Qed.
