(* ===== verification/Loader.v ===== *)
(** Loading rule files: [crates/rules/src/loader.rs].

    Reading a file is a function argument: a path either has a text or an error. The log lines are
    not modelled. *)

From stdpp Require Import pretty.
From S2P Require Import Prelude Text Net RuleModel Parser ParserWf.

(** Why a rule was skipped: the cases of the [reason] string. *)
Inductive SkipReason :=
| CouldNotReadFile (error : text)
| DuplicateSid (sid : Z) (previous : text)
| Unparseable (error : ParseError).

Record SkippedRule := mkSkippedRule {
  sk_file : text;
  sk_line : Z;
  sk_reason : SkipReason;
  sk_raw : text
}.

Record LoadReport := mkLoadReport {
  lr_files : list text;
  lr_loaded : Z;
  lr_evaluable : Z;
  lr_skipped : list SkippedRule;
  lr_unsupported_options : gmap text Z
}.

Definition load_report_default : LoadReport := mkLoadReport [] 0 0 [] ∅.

(** [self.loaded - self.evaluable]: an underflow is [None]. *)
Definition non_evaluable (r : LoadReport) : option Z := checked_sub (lr_loaded r) (lr_evaluable r).

Record RuleSet := mkRuleSet {
  rset_rules : list Rule;
  rset_by_sid : gmap Z nat
}.

Definition ruleset_new : RuleSet := mkRuleSet [] ∅.

Definition ruleset_len (s : RuleSet) : Z := len (rset_rules s).

Definition ruleset_is_empty (s : RuleSet) : bool := bool_decide (rset_rules s = []).

Definition ruleset_get (s : RuleSet) (sid : Z) : option Rule :=
  index ← rset_by_sid s !! sid; rset_rules s !! index.

Definition ruleset_evaluable (s : RuleSet) : list Rule := List.filter is_evaluable (rset_rules s).

(** The state of the loop of [logical_lines]: the text joined so far and the line it began on. *)
Fixpoint join_lines (buffer : text) (start_line number : Z) (ls : list text) : list (Z * text) :=
  match ls with
  | [] => if decide (trim buffer = []) then [] else [(start_line, buffer)]
  | line :: ls' =>
      let line := if number =? 1 then trim_start_matches 0xfeff line else line in
      let trimmed := trim line in
      if bool_decide (buffer = []) && (bool_decide (trimmed = []) || starts_with trimmed [35])
      then join_lines buffer start_line (number + 1) ls'
      else
        let start_line := if decide (buffer = []) then number else start_line in
        match strip_suffix 92 trimmed with
        | Some head => join_lines (buffer ++ trim_end head ++ [32]) start_line (number + 1) ls'
        | None => (start_line, buffer ++ trimmed) :: join_lines [] start_line (number + 1) ls'
        end
  end.

Definition logical_lines (t : text) : list (Z * text) := join_lines [] 0 1 (lines t).

(** The longest run of characters within [limit] bytes. *)
Fixpoint take_bytes (limit : Z) (t : text) : text :=
  match t with
  | [] => []
  | c :: t' => if len_utf8 c <=? limit then c :: take_bytes (limit - len_utf8 c) t' else []
  end.

Definition truncate (t : text) : text :=
  if text_len t <=? 256 then t else take_bytes 256 t ++ [0x2026].

Definition skip (report : LoadReport) (s : SkippedRule) : LoadReport :=
  mkLoadReport (lr_files report) (lr_loaded report) (lr_evaluable report) (lr_skipped report ++ [s])
    (lr_unsupported_options report).

(** [*report.unsupported_options.entry(option).or_insert(0) += 1]. *)
Definition count_unsupported (m : gmap text Z) (option : text) : gmap text Z :=
  <[option := unwrap_or 0 (m !! option) + 1]> m.

Definition with_origin (r : Rule) (o : RuleOrigin) : Rule :=
  mkRule (r_header r) (r_sid r) (r_rev r) (r_gid r) (r_priority r) (r_msg r) (r_classtype r) (r_metadata r)
    (r_references r) (r_options r) (r_threshold r) (r_no_alert r) (r_unsupported_options r) (r_raw r) (Some o).

(** One round of the loop of [load_text]; an index out of range is [None]. *)
Definition load_line (file : text) (st : RuleSet * LoadReport) (entry : Z * text) : option (RuleSet * LoadReport) :=
  let '(set, report) := st in
  let '(line, raw) := entry in
  match parse_rule raw with
  | inr rule =>
      match rset_by_sid set !! r_sid rule with
      | Some existing =>
          previous ← rset_rules set !! existing;
          Some (set, skip report (mkSkippedRule file line (DuplicateSid (r_sid rule) (location previous)) (truncate raw)))
      | None =>
          let report :=
            mkLoadReport (lr_files report) (lr_loaded report + 1)
              (if is_evaluable rule then lr_evaluable report + 1 else lr_evaluable report) (lr_skipped report)
              (foldl count_unsupported (lr_unsupported_options report) (r_unsupported_options rule)) in
          let rule := with_origin rule (mkRuleOrigin file line) in
          Some (mkRuleSet (rset_rules set ++ [rule]) (<[r_sid rule := length (rset_rules set)]> (rset_by_sid set)), report)
      end
  | inl error => Some (set, skip report (mkSkippedRule file line (Unparseable error) (truncate raw)))
  end.

Fixpoint load_lines (file : text) (st : RuleSet * LoadReport) (entries : list (Z * text)) : option (RuleSet * LoadReport) :=
  match entries with
  | [] => Some st
  | entry :: entries' => st' ← load_line file st entry; load_lines file st' entries'
  end.

Definition load_text (set : RuleSet) (t file : text) (report : LoadReport) : option (RuleSet * LoadReport) :=
  load_lines file (set, report) (logical_lines t).

(** [load_files], with [read] for [std::fs::read_to_string]. *)
Fixpoint load_paths (read : text -> text + text) (st : RuleSet * LoadReport) (paths : list text) :
    option (RuleSet * LoadReport) :=
  match paths with
  | [] => Some st
  | path :: paths' =>
      let '(set, report) := st in
      st' ←
        match read path with
        | inr t =>
            load_text set t path
              (mkLoadReport (lr_files report ++ [path]) (lr_loaded report) (lr_evaluable report) (lr_skipped report)
                 (lr_unsupported_options report))
        | inl error => Some (set, skip report (mkSkippedRule path 0 (CouldNotReadFile error) []))
        end;
      load_paths read st' paths'
  end.

Definition load_files (read : text -> text + text) (paths : list text) : option (RuleSet * LoadReport) :=
  load_paths read (ruleset_new, load_report_default) paths.

(** [LoadReport::summary], for a report whose counts are consistent. *)
Definition summary (r : LoadReport) : option text :=
  waiting ← non_evaluable r;
  Some (of_string (pretty (lr_loaded r)) ++ of_string " rule(s) loaded from " ++ of_string (pretty (len (lr_files r))) ++
        of_string " file(s): " ++ of_string (pretty (lr_evaluable r)) ++ of_string " evaluable, " ++
        of_string (pretty waiting) ++ of_string " awaiting engine support, " ++
        of_string (pretty (len (lr_skipped r))) ++ of_string " skipped").

(** ** The invariant of a load *)

(** How many loaded rules use a keyword that has no implementation. *)
Definition users (k : text) (rules : list Rule) : Z :=
  len (filter (fun r => k ∈ r_unsupported_options r) rules).

Record load_inv (st : RuleSet * LoadReport) : Prop := {
  li_index : forall sid i, rset_by_sid st.1 !! sid = Some i <-> exists r, rset_rules st.1 !! i = Some r /\ r_sid r = sid;
  li_wf : Forall (fun r => rule_wf r /\ is_Some (r_origin r)) (rset_rules st.1);
  li_loaded : lr_loaded st.2 = len (rset_rules st.1);
  li_evaluable : lr_evaluable st.2 = len (ruleset_evaluable st.1);
  li_unsupported : forall k, unwrap_or 0 (lr_unsupported_options st.2 !! k) = users k (rset_rules st.1)
}.

Lemma count_unsupported_spec ks m k :
  NoDup ks -> unwrap_or 0 (foldl count_unsupported m ks !! k) =
  unwrap_or 0 (m !! k) + (if decide (k ∈ ks) then 1 else 0).
Proof.
  intros Hnd. revert m. induction Hnd as [|x ks Hx _ IH]; intros m; cbn [foldl].
  - rewrite decide_False by apply not_elem_of_nil. lia.
  - rewrite IH. unfold count_unsupported. destruct (decide (k = x)) as [->|Hne].
    + rewrite lookup_insert_eq, (decide_False (P := x ∈ ks)) by done. rewrite decide_True by set_solver. simpl. lia.
    + rewrite lookup_insert_ne by done. f_equal. destruct (decide (k ∈ ks)).
      * by rewrite decide_True by set_solver.
      * rewrite decide_False; [done|]. set_solver.
Qed.

(** A line in the log has at most 256 bytes and an ellipsis. *)
Lemma take_bytes_len limit t : 0 <= limit -> text_len (take_bytes limit t) <= limit.
Proof.
  revert limit. induction t as [|c t IH]; intros limit Hl; cbn [take_bytes]; [done|].
  destruct (Z.leb_spec (len_utf8 c) limit) as [H|H]; [|done].
  change (text_len (c :: take_bytes (limit - len_utf8 c) t)) with (len_utf8 c + text_len (take_bytes (limit - len_utf8 c) t)).
  specialize (IH (limit - len_utf8 c)). lia.
Qed.

Lemma truncate_len t : text_len (truncate t) <= 259.
Proof.
  unfold truncate. destruct (Z.leb_spec (text_len t) 256) as [H|H]; [lia|].
  pose proof (take_bytes_len 256 t). unfold text_len in *. rewrite fmap_app, zsum_app.
  change (zsum (len_utf8 <$> [0x2026])) with 3. lia.
Qed.

(** What a load of [n] lines does to the earlier state. *)
Record grows (st st' : RuleSet * LoadReport) (n : Z) : Prop := {
  gr_rules : rset_rules st.1 `prefix_of` rset_rules st'.1;
  gr_skipped : lr_skipped st.2 `prefix_of` lr_skipped st'.2;
  gr_count : lr_loaded st'.2 + len (lr_skipped st'.2) = lr_loaded st.2 + len (lr_skipped st.2) + n
}.

Lemma grows_refl st : grows st st 0.
Proof. constructor; [done|done|lia]. Qed.

Lemma grows_trans st1 st2 st3 n m : grows st1 st2 n -> grows st2 st3 m -> grows st1 st3 (n + m).
Proof. intros [] []. constructor; [by etrans..|lia]. Qed.

Lemma load_inv_new : load_inv (ruleset_new, load_report_default).
Proof.
  constructor; try done. intros sid i. cbn. rewrite lookup_empty. split; [done|]. intros (r & Hr & _).
  by rewrite lookup_nil in Hr.
Qed.

Lemma load_inv_skip set report s :
  load_inv (set, report) -> load_inv (set, skip report s) /\ grows (set, report) (set, skip report s) 1.
Proof.
  intros []. split; [by constructor|]. constructor; cbn; [done|by apply prefix_app_r|]. rewrite length_app. cbn. lia.
Qed.

Lemma index_push (rules : list Rule) (by_sid : gmap Z nat) rule :
  (forall sid i, by_sid !! sid = Some i <-> exists r, rules !! i = Some r /\ r_sid r = sid) ->
  by_sid !! r_sid rule = None ->
  forall sid i, <[r_sid rule := length rules]> by_sid !! sid = Some i <->
    exists r, (rules ++ [rule]) !! i = Some r /\ r_sid r = sid.
Proof.
  intros Hi Hnew sid i. split.
  - rewrite lookup_insert. case_decide as Hs.
    + intros [= <-]. exists rule. split; [|done]. by rewrite lookup_app_r, Nat.sub_diag.
    + intros H. apply Hi in H as (r & Hr & Es). exists r. split; [by apply lookup_app_l_Some|done].
  - intros (r & Hr & Es). apply lookup_app_Some in Hr as [Hr|[Hl Hr]].
    + rewrite lookup_insert_ne; [apply Hi; eauto|]. intros Hsid.
      assert (by_sid !! r_sid r = Some i) as H by (apply Hi; eauto). rewrite Es, <- Hsid in H. by rewrite Hnew in H.
    + apply list_lookup_singleton_Some in Hr as [Hz ->]. rewrite <- Es, lookup_insert_eq. f_equal. lia.
Qed.

Lemma with_origin_wf r o : rule_wf r -> rule_wf (with_origin r o).
Proof. intros []. by constructor. Qed.

Lemma load_line_step file st entry :
  load_inv st -> exists st', load_line file st entry = Some st' /\ load_inv st' /\ grows st st' 1.
Proof.
  destruct st as [set report], entry as [line raw]. intros Hinv. unfold load_line.
  destruct (parse_rule raw) as [error|rule] eqn:Ep.
  { eexists. split; [done|]. by apply load_inv_skip. }
  pose proof (parse_wf raw rule Ep) as Hw. destruct (rset_by_sid set !! r_sid rule) as [i|] eqn:Es.
  { destruct (proj1 (li_index _ Hinv _ _) Es) as (r & Hr & _). cbn in Hr. rewrite Hr. cbn. eexists. split; [done|].
    by apply load_inv_skip. }
  eexists. split; [done|]. destruct Hinv as [Hi Hf Hl He Hu]. cbn in *. split.
  - constructor; cbn.
    + by apply (index_push _ _ (with_origin rule _)).
    + apply Forall_app. split; [done|]. constructor; [|done]. split; [by apply with_origin_wf|by eexists].
    + rewrite length_app. cbn. lia.
    + unfold ruleset_evaluable in *. cbn. rewrite List.filter_app, length_app. cbn.
      change (is_evaluable (with_origin rule _)) with (is_evaluable rule). destruct (is_evaluable rule); cbn; lia.
    + intros k. rewrite count_unsupported_spec by apply Hw. rewrite Hu. unfold users. rewrite filter_app, length_app.
      rewrite filter_cons. cbn [r_unsupported_options with_origin]. case_decide; cbn; lia.
  - constructor; cbn; [by apply prefix_app_r|done|lia].
Qed.

Lemma load_lines_step file entries st :
  load_inv st -> exists st', load_lines file st entries = Some st' /\ load_inv st' /\ grows st st' (len entries).
Proof.
  revert st. induction entries as [|entry entries IH]; intros st Hinv; cbn [load_lines].
  - exists st. split; [done|]. split; [done|]. apply grows_refl.
  - destruct (load_line_step file st entry Hinv) as (st1 & -> & Hi1 & Hg1). cbn.
    destruct (IH st1 Hi1) as (st2 & -> & Hi2 & Hg2). exists st2. split; [done|]. split; [done|].
    replace (Z.of_nat (S (length entries))) with (1 + len entries) by lia. by eapply grows_trans.
Qed.

(** Loading never fails and loses nothing: whatever the text of the file is, each of its rules is
    either added, with its identifier new to the set and its origin recorded, or skipped with a reason;
    rules that were there stay, in order, the identifier index finds exactly the rules of the set, every
    rule in it is well formed, and the report's counts are those of the set. *)
Theorem load_text_accounts set t file report :
  load_inv (set, report) ->
  exists st', load_text set t file report = Some st' /\ load_inv st' /\
    grows (set, report) st' (len (logical_lines t)).
Proof. apply load_lines_step. Qed.

Definition sample_file : text := of_string "# a comment
alert tcp any any -> any any (msg:one; sid:1;)
alert tcp any any -> any any (msg:two; \
  sid:1;)
alert tcp any any -> any any (msg:three; sid:3; flwo:established;)
".

Lemma load_text_accounts_witness :
  len (logical_lines sample_file) = 3 /\
  exists st', load_text ruleset_new sample_file (of_string "test.rules") load_report_default = Some st' /\
    load_inv st' /\ grows (ruleset_new, load_report_default) st' (len (logical_lines sample_file)).
Proof.
  split; [vm_compute; reflexivity|].
  apply (load_text_accounts ruleset_new sample_file (of_string "test.rules") load_report_default). apply load_inv_new.
Defined.

Lemma load_paths_inv read paths st :
  load_inv st -> exists st', load_paths read st paths = Some st' /\ load_inv st' /\
    rset_rules st.1 `prefix_of` rset_rules st'.1.
Proof.
  revert st. induction paths as [|path paths IH]; intros st Hinv; cbn [load_paths].
  - by exists st.
  - destruct st as [set report]. destruct (read path) as [error|t].
    + destruct (load_inv_skip set report (mkSkippedRule path 0 (CouldNotReadFile error) []) Hinv) as [H _].
      destruct (IH _ H) as (st' & E & Hi & Hp). eauto.
    + set (report' := mkLoadReport _ _ _ _ _). assert (load_inv (set, report')) as H by (by destruct Hinv; constructor).
      destruct (load_lines_step path (logical_lines t) _ H) as (st1 & E1 & Hi1 & [Hr1 _ _]).
      unfold load_text. rewrite E1. cbn. destruct (IH st1 Hi1) as (st2 & E2 & Hi2 & Hp2). exists st2.
      split; [done|]. split; [done|]. by etrans.
Qed.

(** [load_files] always returns, and what it returns is consistent: looking a signature up finds
    the one rule with that identifier, and no two rules share one. *)
Theorem load_files_consistent read paths :
  exists set report, load_files read paths = Some (set, report) /\
    (forall sid r, ruleset_get set sid = Some r <-> r ∈ rset_rules set /\ r_sid r = sid) /\
    NoDup (r_sid <$> rset_rules set) /\ Forall rule_wf (rset_rules set) /\
    lr_loaded report = ruleset_len set /\ non_evaluable report = Some (ruleset_len set - len (ruleset_evaluable set)).
Proof.
  destruct (load_paths_inv read paths _ load_inv_new) as ([set report] & E & [Hi Hf Hl He Hu] & _).
  exists set, report. cbn in *. split; [done|].
  assert (Hget : forall sid i r, rset_rules set !! i = Some r -> r_sid r = sid -> rset_by_sid set !! sid = Some i)
    by (intros; apply Hi; eauto).
  split; [|split; [|split; [|split]]].
  - intros sid r. unfold ruleset_get. split.
    + destruct (rset_by_sid set !! sid) as [i|] eqn:Ei; [|done]. cbn. intros Hr. split; [by eapply list_elem_of_lookup_2|].
      apply Hi in Ei as (r' & Hr' & <-). by simplify_eq.
    + intros [Hr Hs]. apply list_elem_of_lookup in Hr as (i & Hr). by rewrite (Hget sid i r Hr Hs).
  - apply NoDup_alt. intros i j sid H1 H2. apply list_lookup_fmap_Some in H1 as (r1 & -> & H1).
    apply list_lookup_fmap_Some in H2 as (r2 & Es & H2).
    pose proof (Hget _ _ _ H1 Es) as E1. pose proof (Hget _ _ _ H2 eq_refl) as E2. congruence.
  - eapply Forall_impl; [done|]. by intros r [? _].
  - done.
  - unfold non_evaluable, checked_sub, ruleset_len. rewrite Hl, He.
    assert (len (ruleset_evaluable set) <= len (rset_rules set)) by (unfold ruleset_evaluable; pose proof (List.filter_length_le is_evaluable (rset_rules set)); lia).
    by zdec.
Qed.
