(* ===== verification/Compile.v ===== *)
(** Compiling a ruleset and pre-filtering it: [crates/engine/src/compile.rs].

    The multi-pattern automata come from the [aho-corasick] crate, which is the class
    [AhoCorasickLib]: what the engine relies on is that an overlapping search reports exactly the
    patterns that stand in the haystack. The reasons of the report are kept as the values their
    messages are formatted from. [None] is the fuel of a header's resolution used up, which does not
    happen ([compile_total]). *)

From S2P Require Import Prelude Text Net Event Normalize RuleModel Vars Eval.

(** [AhoCorasickBuilder ... build] with its case-insensitivity, and [find_overlapping_iter], which
    gives the number of the pattern of each match. *)
Class AhoCorasickLib := {
  Automaton : Type;
  ac_build : bool -> list (list Z) -> option Automaton;
  ac_overlapping : Automaton -> list Z -> list nat;
  ac_overlapping_spec : forall nocase needles a h i,
    ac_build nocase needles = Some a ->
    i ∈ ac_overlapping a h <-> exists needle, needles !! i = Some needle /\ occurs nocase needle h
}.

(** ** Errors and reports *)

Inductive NotEvaluableReason :=
| UnsupportedKeywords (keywords : list text)
| UnhandledOption (o : RuleOption)
| NoHostFields
| MixedHostKinds (first second : HostEventKind)
| NotAHostCondition (o : RuleOption).

Inductive CompileError :=
| HeaderError (e : VarError)
| RegexError (expression reason : text)
| NotEvaluable (r : NotEvaluableReason).

Record CompileFailure := mkCompileFailure {
  cf_sid : Z;
  cf_origin : text;
  cf_reason : CompileError
}.

Record CompileReport := mkCompileReport {
  rep_compiled : Z;
  rep_not_evaluable : Z;
  rep_failed : list CompileFailure;
  rep_without_prefilter : Z
}.

Definition report_default : CompileReport := mkCompileReport 0 0 [] 0.

(** [CompileReport::merge]. *)
Definition report_merge (r other : CompileReport) : CompileReport :=
  mkCompileReport (rep_compiled r + rep_compiled other) (rep_not_evaluable r + rep_not_evaluable other)
    (rep_failed r ++ rep_failed other) (rep_without_prefilter r + rep_without_prefilter other).

(** ** One rule *)

(** Metadata grouped by key, the values in order. *)
Definition group_metadata (entries : list MetadataEntry) : gmap text (list text) :=
  foldl (fun m e => <[ me_key e := unwrap_or [] (m !! me_key e) ++ [me_value e] ]> m) ∅ entries.

Section compile_rule.
Context `{RegexLib}.

Definition compile_option (limits : CompileLimits) (o : RuleOption) : CompileError + CompiledOption :=
  match o with
  | OContent c => inr (CContent c)
  | OPcre p =>
      match regex_build p limits with
      | inl reason => inl (RegexError (pm_source p) reason)
      | inr matcher => inr (CPcre matcher (pm_buffer p) (pm_negated p) (pm_relative p))
      end
  | OFlow f => inr (CFlow f)
  | OFlowBits op => inr (CFlowBits op)
  | OByteTest t => inr (CByteTest t)
  | OByteJump j => inr (CByteJump j)
  | ODsize d => inr (CDsize d)
  | ONormalized c => inr (CNormalized c)
  | OHost _ => inl (NotEvaluable (UnhandledOption o))
  end.

(** The loop over the options, which the first error ends. *)
Fixpoint compile_options (limits : CompileLimits) (os : list RuleOption) :
    CompileError + list CompiledOption :=
  match os with
  | [] => inr []
  | o :: os' =>
      match compile_option limits o with
      | inl e => inl e
      | inr c =>
          match compile_options limits os' with
          | inl e => inl e
          | inr cs => inr (c :: cs)
          end
      end
  end.

Definition compile_rule (rule : Rule) (vars : VarTable) (limits : CompileLimits) :
    option (CompileError + CompiledRule) :=
  if negb (is_evaluable rule) then Some (inl (NotEvaluable (UnsupportedKeywords (r_unsupported_options rule))))
  else
    header ← resolve (r_header rule) vars;
    Some (match header with
    | inl e => inl (HeaderError e)
    | inr header =>
        match compile_options limits (r_options rule) with
        | inl e => inl e
        | inr options =>
            inr (mkCompiledRule (r_sid rule) (r_rev rule) (r_msg rule) (r_classtype rule) (severity rule)
              (blocks (rh_action (r_header rule))) (group_metadata (r_metadata rule)) header options
              (r_threshold rule) (r_no_alert rule) (rule_needs_http rule) (location rule))
        end
    end).
End compile_rule.

(** ** The fast pattern *)

Definition usable_contents (os : list RuleOption) : list ContentMatch :=
  omap (fun o => match o with OContent c => if usable_as_fast_pattern c then Some c else None | _ => None end) os.

(** [Iterator::max_by_key]: of several equal maxima, the last. *)
Definition max_by_key {A} (key : A -> Z) (l : list A) : option A :=
  foldl (fun best x => match best with
                       | None => Some x
                       | Some b => if key b <=? key x then Some x else Some b
                       end) None l.

Definition select_fast_pattern (rule : Rule) : option (Buffer * list Z * bool) :=
  let contents := usable_contents (r_options rule) in
  let explicit := List.find cm_fast_pattern contents in
  let chosen := match explicit with
                | Some c => Some c
                | None => max_by_key (fun c => len (cm_pattern c)) contents
                end in
  c ← chosen; Some (cm_buffer c, cm_pattern c, cm_nocase c).

(** ** The ruleset *)

Section ruleset.
Context `{RegexLib, AhoCorasickLib}.

Record Prefilter := mkPrefilter {
  pf_sensitive : option (Automaton * list nat);
  pf_insensitive : option (Automaton * list nat)
}.

Definition scan (half : option (Automaton * list nat)) (haystack : list Z) : list nat :=
  match half with
  | None => []
  | Some (automaton, owners) => omap (fun i => owners !! i) (ac_overlapping automaton haystack)
  end.

(** [Prefilter::candidates]: what it pushes. *)
Definition prefilter_candidates (p : Prefilter) (haystack : list Z) : list nat :=
  scan (pf_sensitive p) haystack ++ scan (pf_insensitive p) haystack.

Record CompiledRuleset := mkCompiledRuleset {
  rs_rules : list CompiledRule;
  rs_prefilters : gmap Buffer Prefilter;
  rs_always : list nat;
  rs_buffers : list Buffer
}.

Abbreviation PatternsByBuffer := (gmap (Buffer * bool) (list (list Z) * list nat)).

(** The variables of the loop over the rules. *)
Record CompileState := mkCompileState {
  cs_report : CompileReport;
  cs_compiled : list CompiledRule;
  cs_patterns : PatternsByBuffer;
  cs_always : list nat
}.

Definition compile_start : CompileState := mkCompileState report_default [] ∅ [].

(** [patterns.entry(key).or_default()] followed by the two pushes. *)
Definition add_pattern (key : Buffer * bool) (pattern : list Z) (owner : nat) (ps : PatternsByBuffer) :
    PatternsByBuffer :=
  let slot := unwrap_or ([], []) (ps !! key) in
  <[ key := (slot.1 ++ [pattern], slot.2 ++ [owner]) ]> ps.

(** One turn of the loop. *)
Definition compile_step (vars : VarTable) (limits : CompileLimits) (st : CompileState) (rule : Rule) :
    option CompileState :=
  let rep := cs_report st in
  if negb (is_evaluable rule)
  then Some (mkCompileState
    (mkCompileReport (rep_compiled rep) (rep_not_evaluable rep + 1) (rep_failed rep) (rep_without_prefilter rep))
    (cs_compiled st) (cs_patterns st) (cs_always st))
  else
    compiled ← compile_rule rule vars limits;
    Some (match compiled with
    | inr entry =>
        let index := length (cs_compiled st) in
        match select_fast_pattern rule with
        | Some (buffer, pattern, nocase) =>
            mkCompileState rep (cs_compiled st ++ [entry])
              (add_pattern (buffer, nocase) pattern index (cs_patterns st)) (cs_always st)
        | None =>
            mkCompileState
              (mkCompileReport (rep_compiled rep) (rep_not_evaluable rep) (rep_failed rep)
                (rep_without_prefilter rep + 1))
              (cs_compiled st ++ [entry]) (cs_patterns st) (cs_always st ++ [index])
        end
    | inl error =>
        mkCompileState
          (mkCompileReport (rep_compiled rep) (rep_not_evaluable rep)
            (rep_failed rep ++ [mkCompileFailure (r_sid rule) (location rule) error])
            (rep_without_prefilter rep))
          (cs_compiled st) (cs_patterns st) (cs_always st)
    end).

Fixpoint compile_rules (vars : VarTable) (limits : CompileLimits) (st : CompileState) (rules : list Rule) :
    option CompileState :=
  match rules with
  | [] => Some st
  | rule :: rules' => st' ← compile_step vars limits st rule; compile_rules vars limits st' rules'
  end.

(** The entries of [patterns] in the order of their keys. *)
Definition pattern_key (key : Buffer * bool) : Z := 2 * buffer_index key.1 + Z.b2z key.2.

Definition ordered_patterns (ps : PatternsByBuffer) : list ((Buffer * bool) * (list (list Z) * list nat)) :=
  sort_by_key (fun kv => pattern_key kv.1) (map_to_list ps).

(** One turn of the loop that builds the automata. *)
Definition build_step (acc : gmap Buffer Prefilter * list nat)
    (entry : (Buffer * bool) * (list (list Z) * list nat)) : gmap Buffer Prefilter * list nat :=
  let '(prefilters, always) := acc in
  let '((buffer, nocase), (needles, owners)) := entry in
  match ac_build nocase needles with
  | None => (prefilters, always ++ owners)
  | Some automaton =>
      let pf := unwrap_or (mkPrefilter None None) (prefilters !! buffer) in
      let pf := if (nocase : bool) then mkPrefilter (pf_sensitive pf) (Some (automaton, owners))
                else mkPrefilter (Some (automaton, owners)) (pf_insensitive pf) in
      (<[ buffer := pf ]> prefilters, always)
  end.

Definition compiled_option_buffer (o : CompiledOption) : option Buffer :=
  match o with
  | CContent c => Some (cm_buffer c)
  | CPcre _ buffer _ _ => Some buffer
  | _ => None
  end.

(** [CompiledRuleset::compile]. *)
Definition compile (rules : list Rule) (vars : VarTable) (limits : CompileLimits) :
    option (CompiledRuleset * CompileReport) :=
  st ← compile_rules vars limits compile_start rules;
  let '(prefilters, always) := foldl build_step (∅, cs_always st) (ordered_patterns (cs_patterns st)) in
  let rep := cs_report st in
  let report := mkCompileReport (Z.of_nat (length (cs_compiled st))) (rep_not_evaluable rep) (rep_failed rep)
    (rep_without_prefilter rep) in
  let used := (map_to_list prefilters).*1 ++
    (cs_compiled st ≫= fun rule => omap compiled_option_buffer (cr_options rule)) in
  Some (mkCompiledRuleset (cs_compiled st) prefilters always (dedup (sort_by_key buffer_index used)), report).

Definition ruleset_needs_http (rs : CompiledRuleset) : bool :=
  existsb is_http (rs_buffers rs) || existsb cr_needs_http (rs_rules rs).

(** [candidates_in]: what [out] holds after it. *)
Definition candidates_in (rs : CompiledRuleset) (haystacks : list (Buffer * list Z)) : list nat :=
  let found := haystacks ≫= fun bh =>
    match rs_prefilters rs !! bh.1 with
    | Some prefilter => prefilter_candidates prefilter bh.2
    | None => []
    end in
  dedup (sort_by_key Z.of_nat (found ++ rs_always rs)).

Definition candidates (rs : CompiledRuleset) (buffer : Buffer) (haystack : list Z) : list nat :=
  candidates_in rs [(buffer, haystack)].
End ruleset.

(** ** Every condition is kept *)

Section compile_rule_lemmas.
Context `{RegexLib}.

(** A compiled option decides what the option it was compiled from says. *)
Definition compiled_from (limits : CompileLimits) (o : RuleOption) (c : CompiledOption) : Prop :=
  match o, c with
  | OContent x, CContent y => x = y
  | OPcre p, CPcre m b n r =>
      regex_build p limits = inr m /\ b = pm_buffer p /\ n = pm_negated p /\ r = pm_relative p
  | OFlow x, CFlow y => x = y
  | OFlowBits x, CFlowBits y => x = y
  | OByteTest x, CByteTest y => x = y
  | OByteJump x, CByteJump y => x = y
  | ODsize x, CDsize y => x = y
  | ONormalized x, CNormalized y => x = y
  | _, _ => False
  end.

Lemma compile_option_from limits o c : compile_option limits o = inr c -> compiled_from limits o c.
Proof. unfold compile_option. destruct o; intros E; repeat case_match; by simplify_eq. Qed.

Lemma compile_options_from limits os cs :
  compile_options limits os = inr cs -> Forall2 (compiled_from limits) os cs.
Proof.
  revert cs. induction os as [|o os IH]; intros cs E; simpl in E; [simplify_eq; constructor|].
  destruct (compile_option limits o) as [?|c] eqn:Eo; [done|].
  destruct (compile_options limits os) as [?|cs'] eqn:Es; [done|]. simplify_eq.
  constructor; [by apply compile_option_from|by apply IH].
Qed.

Lemma compiled_content limits os cs c :
  Forall2 (compiled_from limits) os cs -> OContent c ∈ os -> CContent c ∈ cs.
Proof.
  induction 1 as [|o x os cs Hx _ IH]; intros Hc; [by apply elem_of_nil in Hc|].
  apply elem_of_cons in Hc as [<-|Hc]; [|right; by apply IH]. destruct x; simpl in Hx; try done. subst. left.
Qed.

Lemma compile_rule_total rule vars limits : is_Some (compile_rule rule vars limits).
Proof.
  unfold compile_rule. destruct (negb _); [eauto|].
  destruct (resolve_total (r_header rule) vars) as [h ->]. simpl. eauto.
Qed.

Lemma compile_rule_inv rule vars limits entry :
  compile_rule rule vars limits = Some (inr entry) ->
  is_evaluable rule = true /\ resolve (r_header rule) vars = Some (inr (cr_header entry)) /\
  Forall2 (compiled_from limits) (r_options rule) (cr_options entry) /\
  cr_sid entry = r_sid rule /\ cr_no_alert entry = r_no_alert rule /\ cr_threshold entry = r_threshold rule /\
  cr_blocks entry = blocks (rh_action (r_header rule)).
Proof.
  unfold compile_rule. destruct (is_evaluable rule); [|done]. simpl. intros E.
  destruct (resolve (r_header rule) vars) as [[?|h]|]; simpl in E; [done| |done].
  destruct (compile_options limits (r_options rule)) as [?|os] eqn:Eo; simplify_eq. simpl.
  apply compile_options_from in Eo. auto 10.
Qed.
End compile_rule_lemmas.

(** ** The fast pattern *)

Lemma max_by_key_elem {A} (key : A -> Z) (l : list A) x : max_by_key key l = Some x -> x ∈ l.
Proof.
  unfold max_by_key.
  assert (Hg : forall best, foldl (fun best x => match best with
      | None => Some x | Some b => if key b <=? key x then Some x else Some b end) best l = Some x ->
    x ∈ l \/ best = Some x).
  { induction l as [|y l IH]; intros best E; simpl in E; [by right|].
    apply IH in E as [E|E]; [left; by right|]. destruct best as [b|]; [|simplify_eq; left; left].
    case_match; simplify_eq; [left; left|by right]. }
  intros E. by destruct (Hg None E).
Qed.

(** The pattern a rule is pre-filtered on is one of its positive, non-empty contents. *)
Lemma select_fast_pattern_inv rule b p nocase :
  select_fast_pattern rule = Some (b, p, nocase) ->
  exists c, OContent c ∈ r_options rule /\ cm_negated c = false /\ cm_pattern c <> [] /\
    cm_buffer c = b /\ cm_pattern c = p /\ cm_nocase c = nocase.
Proof.
  unfold select_fast_pattern. set (cs := usable_contents (r_options rule)). intros E.
  assert (Hc : exists c, c ∈ cs /\ cm_buffer c = b /\ cm_pattern c = p /\ cm_nocase c = nocase).
  { destruct (List.find cm_fast_pattern cs) as [c|] eqn:Ef.
    - apply find_some in Ef as [Hc _]. apply list_elem_of_In in Hc. simpl in E. simplify_eq. eauto.
    - destruct (max_by_key _ cs) as [c|] eqn:Em; [|done]. apply max_by_key_elem in Em.
      simpl in E. simplify_eq. eauto. }
  destruct Hc as (c & Hc & Hb & Hp & Hn). unfold cs, usable_contents in Hc.
  apply list_elem_of_omap in Hc as (o & Ho & Eo). destruct o as [c'| | | | | | | |]; try done.
  destruct (usable_as_fast_pattern c') eqn:Hu; simplify_eq. unfold usable_as_fast_pattern in Hu.
  apply andb_true_iff in Hu as [Hu1%negb_true_iff Hu2%negb_true_iff%bool_decide_eq_false]. eauto 10.
Qed.

(** ** The ruleset *)

Section ruleset_lemmas.
Context `{RegexLib, AhoCorasickLib}.

(** Rule [i], compiled as [entry], will be evaluated: it is in [always], or a pattern that it needs
    is filed under its number. *)
Definition filed (ps : gmap (Buffer * bool) (list (list Z) * list nat)) (always : list nat) (i : nat)
    (entry : CompiledRule) : Prop :=
  i ∈ always \/
  exists c needles owners k, CContent c ∈ cr_options entry /\ cm_negated c = false /\
    ps !! (cm_buffer c, cm_nocase c) = Some (needles, owners) /\
    needles !! k = Some (cm_pattern c) /\ owners !! k = Some i.

Record compile_inv (st : CompileState) : Prop := {
  inv_aligned : forall key needles owners, cs_patterns st !! key = Some (needles, owners) -> length needles = length owners;
  inv_filed : forall i entry, cs_compiled st !! i = Some entry -> filed (cs_patterns st) (cs_always st) i entry
}.

Lemma add_pattern_lookup key p i ps key' :
  add_pattern key p i ps !! key' =
  if decide (key = key')
  then Some ((unwrap_or ([], []) (ps !! key)).1 ++ [p], (unwrap_or ([], []) (ps !! key)).2 ++ [i])
  else ps !! key'.
Proof. unfold add_pattern. case_decide as Hd; [subst; apply lookup_insert_eq|by apply lookup_insert_ne]. Qed.

Lemma filed_add_pattern key p i ps always j entry :
  filed ps always j entry -> filed (add_pattern key p i ps) always j entry.
Proof.
  intros [Hj|(c & needles & owners & k & Hc & Hn & Hps & Hk & Ho)]; [by left|right].
  destruct (decide (key = (cm_buffer c, cm_nocase c))) as [->|Hne].
  - exists c, (needles ++ [p]), (owners ++ [i]), k. rewrite add_pattern_lookup, decide_True, Hps by done. simpl.
    repeat split; try done; by apply lookup_app_l_Some.
  - exists c, needles, owners, k. by rewrite add_pattern_lookup, decide_False.
Qed.

Lemma filed_always ps always j entry l : filed ps always j entry -> filed ps (always ++ l) j entry.
Proof. intros [Hj|Hj]; [left; set_solver|by right]. Qed.

Lemma compile_step_inv vars limits st rule st' :
  compile_inv st -> compile_step vars limits st rule = Some st' -> compile_inv st'.
Proof.
  intros [Ha Hf] E. unfold compile_step in E.
  destruct (is_evaluable rule); simpl in E; [|by simplify_eq].
  destruct (compile_rule rule vars limits) as [[e|entry]|] eqn:Ec; simpl in E; [by simplify_eq| |done].
  apply compile_rule_inv in Ec as (_ & _ & Hopts & _).
  assert (Hsplit : forall i x, (cs_compiled st ++ [entry]) !! i = Some x ->
    cs_compiled st !! i = Some x \/ i = length (cs_compiled st) /\ x = entry).
  { intros i x Hx. apply lookup_app_Some in Hx as [|[? Hx]]; [by left|right].
    apply list_lookup_singleton_Some in Hx. lia || (destruct Hx; split; [lia|done]). }
  destruct (select_fast_pattern rule) as [[[b p] nocase]|] eqn:Es; simplify_eq.
  - apply select_fast_pattern_inv in Es as (c & Hc & Hn & _ & <- & <- & <-).
    assert (Hcc : CContent c ∈ cr_options entry) by by eapply compiled_content.
    split; simpl.
    + intros key needles owners Hk. rewrite add_pattern_lookup in Hk. case_decide; [|by eapply Ha].
      simplify_eq. rewrite !length_app. simpl.
      destruct (cs_patterns st !! (cm_buffer c, cm_nocase c)) as [[ns os]|] eqn:Ek; simpl; [|done].
      by rewrite (Ha _ _ _ Ek).
    + intros i x Hx. apply Hsplit in Hx as [Hx|[-> ->]]; [by apply filed_add_pattern, Hf|]. right.
      destruct (cs_patterns st !! (cm_buffer c, cm_nocase c)) as [[ns os]|] eqn:Ek.
      * exists c, (ns ++ [cm_pattern c]), (os ++ [length (cs_compiled st)]), (length ns).
        rewrite add_pattern_lookup, decide_True, Ek by done. simpl. repeat split; try done.
        -- by apply list_lookup_middle.
        -- apply list_lookup_middle. by eapply Ha.
      * exists c, [cm_pattern c], [length (cs_compiled st)], O.
        by rewrite add_pattern_lookup, decide_True, Ek by done.
  - split; simpl; [done|]. intros i x Hx.
    apply Hsplit in Hx as [Hx|[-> ->]]; [by apply filed_always, Hf|left; set_solver].
Qed.

Lemma compile_rules_inv vars limits st rules st' :
  compile_inv st -> compile_rules vars limits st rules = Some st' -> compile_inv st'.
Proof.
  revert st. induction rules as [|rule rules IH]; intros st Hi E; simpl in E; [by simplify_eq|].
  destruct (compile_step vars limits st rule) as [st1|] eqn:Es; [|done]. simpl in E.
  eapply IH; [by eapply compile_step_inv|done].
Qed.

Lemma compile_start_inv : compile_inv compile_start.
Proof. split; simpl; [intros ? ? ?; by rewrite lookup_empty|intros ? ?; by rewrite lookup_nil]. Qed.
End ruleset_lemmas.

(** ** The automata *)

Section automata.
Context `{RegexLib, AhoCorasickLib}.

Definition half (pf : Prefilter) (nocase : bool) : option (Automaton * list nat) :=
  if nocase then pf_insensitive pf else pf_sensitive pf.

Definition slot (pfs : gmap Buffer Prefilter) (key : Buffer * bool) : option (Automaton * list nat) :=
  pf ← pfs !! key.1; half pf key.2.

Lemma build_step_slot pfs always key needles owners pfs' always' :
  build_step (pfs, always) (key, (needles, owners)) = (pfs', always') ->
  always ⊆ always' /\ (forall key', key' <> key -> slot pfs' key' = slot pfs key') /\
  (ac_build key.2 needles = None /\ owners ⊆ always' \/
   exists a, ac_build key.2 needles = Some a /\ slot pfs' key = Some (a, owners)).
Proof.
  destruct key as [b nocase]. unfold build_step. simpl.
  destruct (ac_build nocase needles) as [a|] eqn:Ea; intros; simplify_eq.
  - split; [done|]. split.
    + intros [b' nc'] Hne. unfold slot. simpl. destruct (decide (b = b')) as [->|Hb];
        [|by rewrite lookup_insert_ne].
      rewrite lookup_insert_eq. simpl. destruct (pfs !! b') as [[s i]|]; destruct nocase, nc'; simpl; done.
    + right. exists a. split; [done|]. unfold slot. simpl. rewrite lookup_insert_eq. simpl. by destruct nocase.
  - split; [set_solver|]. split; [done|]. left. set_solver.
Qed.

Lemma build_fold pfs always l pfs' always' :
  NoDup l.*1 -> foldl build_step (pfs, always) l = (pfs', always') ->
  always ⊆ always' /\ (forall key, key ∉ l.*1 -> slot pfs' key = slot pfs key) /\
  forall key needles owners, (key, (needles, owners)) ∈ l ->
    ac_build key.2 needles = None /\ owners ⊆ always' \/
    exists a, ac_build key.2 needles = Some a /\ slot pfs' key = Some (a, owners).
Proof.
  revert pfs always. induction l as [|[key [needles owners]] l IH]; intros pfs always Hnd E.
  { simpl in E. simplify_eq. split; [done|]. split; [done|]. intros ? ? ? Hx. by apply elem_of_nil in Hx. }
  cbn [foldl] in E. destruct (build_step (pfs, always) (key, (needles, owners))) as [pfs1 always1] eqn:E1.
  apply NoDup_cons in Hnd as [Hk Hnd]. apply build_step_slot in E1 as (Hs1 & Ho1 & He1).
  apply IH in E as (Hs & Ho & He); [|done]. split; [by etrans|]. split.
  - intros key' Hk'. apply not_elem_of_cons in Hk' as [Hne Hk']. rewrite Ho by done. by apply Ho1.
  - intros key' ns os Hin. apply elem_of_cons in Hin as [Heq|Hin]; [|by apply He]. simplify_eq.
    destruct He1 as [[? ?]|(a & ? & ?)]; [left; split; [done|by etrans]|right]. exists a.
    split; [done|]. by rewrite Ho.
Qed.

(** What the loops establish: every armed rule is filed, and what is filed is found. *)
Lemma compile_armed rules vars limits rs rep :
  compile rules vars limits = Some (rs, rep) ->
  forall i entry, rs_rules rs !! i = Some entry ->
    i ∈ rs_always rs \/
    exists c needles owners a k, CContent c ∈ cr_options entry /\ cm_negated c = false /\
      ac_build (cm_nocase c) needles = Some a /\
      slot (rs_prefilters rs) (cm_buffer c, cm_nocase c) = Some (a, owners) /\
      needles !! k = Some (cm_pattern c) /\ owners !! k = Some i.
Proof.
  unfold compile. intros E i entry Hi.
  destruct (compile_rules vars limits compile_start rules) as [st|] eqn:Es; [|done]. simpl in E.
  apply (compile_rules_inv _ _ _ _ _ compile_start_inv) in Es as [_ Hf].
  destruct (foldl build_step _ _) as [pfs always] eqn:Eb. simplify_eq. simpl in *.
  assert (Hperm : ordered_patterns (cs_patterns st) ≡ₚ map_to_list (cs_patterns st)) by apply sort_by_key_perm.
  apply build_fold in Eb as (Hs & _ & He); [|rewrite Hperm; apply NoDup_fst_map_to_list].
  destruct (Hf i entry Hi) as [Ha|(c & ns & os & k & Hc & Hn & Hp & Hk & Ho)]; [left; by apply Hs|].
  destruct (He (cm_buffer c, cm_nocase c) ns os) as [[_ Hall]|(a & Ha & Hsl)].
  - rewrite Hperm. by apply elem_of_map_to_list.
  - left. apply Hall. by eapply list_elem_of_lookup_2.
  - right. exists c, ns, os, a, k. auto 10.
Qed.

(** The buffers that are offered to the pre-filter, with their bytes. *)
Definition haystacks (b : Buffers) (offered : list Buffer) : list (Buffer * list Z) :=
  omap (fun which => bytes ← get b which; Some (which, bytes)) offered.

(** A buffer that is not offered is absent or empty. *)
Definition offers_all (b : Buffers) (offered : list Buffer) : Prop :=
  forall which h, which ∉ offered -> get b which = Some h -> h = [].

Lemma candidates_in_elem rs hs i :
  i ∈ candidates_in rs hs <->
  i ∈ rs_always rs \/ exists b h nocase a owners k, (b, h) ∈ hs /\ slot (rs_prefilters rs) (b, nocase) = Some (a, owners) /\
    k ∈ ac_overlapping a h /\ owners !! k = Some i.
Proof.
  unfold candidates_in. rewrite elem_of_dedup, sort_by_key_perm, elem_of_app, list_elem_of_bind.
  assert (Hscan : forall x h, i ∈ scan x h <-> exists a owners k, x = Some (a, owners) /\
    k ∈ ac_overlapping a h /\ owners !! k = Some i).
  { intros [[a os]|] h; simpl; [|split; [by intros ?%elem_of_nil|naive_solver]].
    rewrite list_elem_of_omap. naive_solver. }
  assert (Hpf : forall b h, i ∈ match rs_prefilters rs !! b with
      | Some prefilter => prefilter_candidates prefilter h | None => [] end <->
    exists nocase a owners k, slot (rs_prefilters rs) (b, nocase) = Some (a, owners) /\
      k ∈ ac_overlapping a h /\ owners !! k = Some i).
  { intros b h. unfold slot. simpl. destruct (rs_prefilters rs !! b) as [pf|]; simpl.
    - unfold prefilter_candidates. rewrite elem_of_app, !Hscan. unfold half. split.
      + intros [(a & os & k & ? & ?)|(a & os & k & ? & ?)]; [exists false|exists true]; eauto.
      + intros ([] & a & os & k & ? & ?); [right|left]; eauto.
    - split; [by intros ?%elem_of_nil|naive_solver]. }
  split.
  - intros [([b h] & Hi & Hin)|Ha]; [right|by left]. apply Hpf in Hi as (nc & a & os & k & ? & ? & ?).
    by exists b, h, nc, a, os, k.
  - intros [Ha|(b & h & nc & a & os & k & Hin & ? & ? & ?)]; [by right|left]. exists (b, h).
    split; [|done]. simpl. apply Hpf. by exists nc, a, os, k.
Qed.

(** No rule that matches is filtered out. *)
Lemma prefilter_complete rules vars limits rs rep input offered bits i entry effects :
  compile rules vars limits = Some (rs, rep) -> offers_all (mi_buffers input) offered ->
  rs_rules rs !! i = Some entry -> evaluate entry input bits = Some (Some effects) ->
  i ∈ candidates_in rs (haystacks (mi_buffers input) offered).
Proof.
  intros Hc Hcov Hi He. apply candidates_in_elem.
  destruct (compile_armed _ _ _ _ _ Hc i entry Hi)
    as [Ha|(c & ns & os & a & k & Hcc & Hn & Hb & Hs & Hk & Ho)]; [by left|right].
  destruct (evaluate_content entry input bits effects c He Hcc Hn) as (h & Hg & Hne & Hocc).
  assert (Hin : cm_buffer c ∈ offered).
  { destruct (decide (cm_buffer c ∈ offered)); [done|]. rewrite (Hcov _ _ n Hg) in Hocc.
    destruct Hocc as (p & ? & Hl & _). destruct (cm_pattern c); simpl in Hl; [done|lia]. }
  exists (cm_buffer c), h, (cm_nocase c), a, os, k. split; [|split; [done|split; [|done]]].
  - unfold haystacks. apply list_elem_of_omap. exists (cm_buffer c). split; [done|]. by rewrite Hg.
  - apply (ac_overlapping_spec _ _ _ h k Hb). eauto.
Qed.

(** The verdict on one rule of the ruleset, by its number. *)
Definition verdict (rs : CompiledRuleset) (input : MatchInput) (bits : FlowBits) (i : nat) :
    option (nat * list FlowBitsOp) :=
  match rs_rules rs !! i with
  | None => None
  | Some entry =>
      match evaluate entry input bits with
      | Some (Some effects) => Some (i, effects)
      | _ => None
      end
  end.

Lemma prefilter_verdicts rules vars limits rs rep input offered bits :
  compile rules vars limits = Some (rs, rep) -> offers_all (mi_buffers input) offered ->
  omap (verdict rs input bits) (candidates_in rs (haystacks (mi_buffers input) offered)) =
  omap (verdict rs input bits) (seq 0 (length (rs_rules rs))).
Proof.
  intros Hc Hcov. apply omap_sorted.
  - unfold candidates_in. apply dedup_sorted, sort_by_key_sorted.
  - apply seq_sorted.
  - intros i [[j e] Hv]. unfold verdict in Hv. destruct (rs_rules rs !! i) as [entry|] eqn:Hi; [|done].
    destruct (evaluate entry input bits) as [[effects|]|] eqn:He; [|done|done]. by eapply prefilter_complete.
  - intros i [x Hv]. unfold verdict in Hv. destruct (rs_rules rs !! i) as [entry|] eqn:Hi; [|done].
    apply elem_of_seq. apply lookup_lt_Some in Hi. lia.
Qed.

(** C18: the pre-filter never costs a detection. Evaluating only the candidates gives the same
    matches, with the same side effects and in the same order, as evaluating every armed rule, as
    long as every buffer that holds anything is offered to it. *)
Theorem prefilter_exact rules vars limits rs rep input offered bits :
  compile rules vars limits = Some (rs, rep) -> offers_all (mi_buffers input) offered ->
  omap (verdict rs input bits) (candidates_in rs (haystacks (mi_buffers input) offered)) =
  omap (verdict rs input bits) (seq 0 (length (rs_rules rs))).
Proof. apply prefilter_verdicts. Qed.
End automata.

(** ** Accounting *)

Section accounting.
Context `{RegexLib, AhoCorasickLib}.

Lemma compile_rules_total vars limits st rules : is_Some (compile_rules vars limits st rules).
Proof.
  revert st. induction rules as [|rule rules IH]; intros st; simpl; [eauto|].
  assert (is_Some (compile_step vars limits st rule)) as [st' ->]; [|apply IH].
  unfold compile_step. destruct (negb _); [eauto|].
  destruct (compile_rule_total rule vars limits) as [c ->]. simpl. eauto.
Qed.

Lemma compile_total rules vars limits : is_Some (compile rules vars limits).
Proof.
  unfold compile. destruct (compile_rules_total vars limits compile_start rules) as [st ->]. simpl.
  destruct (foldl build_step _ _). eauto.
Qed.

(** What one turn of the loop does with its rule. *)
Lemma compile_step_spec vars limits st rule st' :
  compile_step vars limits st rule = Some st' ->
  let rep := cs_report st in let rep' := cs_report st' in
  (is_evaluable rule = false /\ cs_compiled st' = cs_compiled st /\ rep_failed rep' = rep_failed rep /\
    rep_not_evaluable rep' = rep_not_evaluable rep + 1) \/
  (exists e, compile_rule rule vars limits = Some (inl e) /\ cs_compiled st' = cs_compiled st /\
    rep_failed rep' = rep_failed rep ++ [mkCompileFailure (r_sid rule) (location rule) e] /\
    rep_not_evaluable rep' = rep_not_evaluable rep) \/
  (exists entry, compile_rule rule vars limits = Some (inr entry) /\ cs_compiled st' = cs_compiled st ++ [entry] /\
    rep_failed rep' = rep_failed rep /\ rep_not_evaluable rep' = rep_not_evaluable rep).
Proof.
  unfold compile_step. intros E. destruct (is_evaluable rule); simpl in E; [|simplify_eq; simpl; auto].
  destruct (compile_rule rule vars limits) as [[e|entry]|]; simpl in E; [simplify_eq; simpl; eauto 10| |done].
  right; right. exists entry. split; [done|].
  destruct (select_fast_pattern rule) as [[[b p] nc]|]; by simplify_eq.
Qed.

(** Where the rules went: compiled, refused, or not evaluable. *)
Record accounted (vars : VarTable) (limits : CompileLimits) (rules : list Rule) (st : CompileState) : Prop := {
  acc_count : len (cs_compiled st) + rep_not_evaluable (cs_report st) + len (rep_failed (cs_report st)) = len rules;
  acc_compiled : forall entry, entry ∈ cs_compiled st ->
    exists rule, rule ∈ rules /\ compile_rule rule vars limits = Some (inr entry);
  acc_armed : forall rule entry, rule ∈ rules -> is_evaluable rule = true ->
    compile_rule rule vars limits = Some (inr entry) -> entry ∈ cs_compiled st
}.

Lemma accounted_step vars limits rules st rule st' :
  accounted vars limits rules st -> compile_step vars limits st rule = Some st' ->
  accounted vars limits (rules ++ [rule]) st'.
Proof.
  intros [Hn Hc Ha] E. apply compile_step_spec in E. cbv zeta in E.
  destruct E as [(Hev & Hcs & Hf & Hne)|[(e & He & Hcs & Hf & Hne)|(entry & He & Hcs & Hf & Hne)]];
    split; rewrite ?Hcs, ?Hf, ?Hne, ?length_app; simpl; try lia.
  - intros x Hx. destruct (Hc x Hx) as (r & ? & ?). exists r. set_solver.
  - intros r x Hr Hev' Hx. apply elem_of_app in Hr as [Hr|Hr%list_elem_of_singleton]; [by eapply Ha|congruence].
  - intros x Hx. destruct (Hc x Hx) as (r & ? & ?). exists r. set_solver.
  - intros r x Hr Hev' Hx. apply elem_of_app in Hr as [Hr|Hr%list_elem_of_singleton]; [by eapply Ha|congruence].
  - intros x [Hx|Hx%list_elem_of_singleton]%elem_of_app.
    + destruct (Hc x Hx) as (r & ? & ?). exists r. set_solver.
    + subst x. exists rule. set_solver.
  - intros r x Hr Hev' Hx. rewrite elem_of_app.
    apply elem_of_app in Hr as [Hr|Hr%list_elem_of_singleton]; [left; by eapply Ha|right].
    subst r. rewrite He in Hx. simplify_eq. left.
Qed.

Lemma accounted_rules vars limits before rules st st' :
  accounted vars limits before st -> compile_rules vars limits st rules = Some st' ->
  accounted vars limits (before ++ rules) st'.
Proof.
  revert before st. induction rules as [|rule rules IH]; intros before st Hi E; simpl in E.
  { simplify_eq. by rewrite app_nil_r. }
  destruct (compile_step vars limits st rule) as [st1|] eqn:Es; [|done]. simpl in E.
  rewrite cons_middle, app_assoc. eapply IH; [by eapply accounted_step|done].
Qed.

Lemma compile_accounted rules vars limits rs rep :
  compile rules vars limits = Some (rs, rep) ->
  exists st, accounted vars limits rules st /\ rs_rules rs = cs_compiled st /\
    rep_compiled rep = len (cs_compiled st) /\ rep_not_evaluable rep = rep_not_evaluable (cs_report st) /\
    rep_failed rep = rep_failed (cs_report st).
Proof.
  unfold compile. intros E. destruct (compile_rules vars limits compile_start rules) as [st|] eqn:Es; [|done].
  simpl in E. destruct (foldl build_step _ _). simplify_eq. exists st. split; [|done].
  apply (accounted_rules vars limits [] rules compile_start); [|done]. split; simpl; [done| |]; intros; set_solver.
Qed.

(** Loading a ruleset always finishes and loses no rule: each is armed, counted as not
    evaluable, or reported as failed with its reason; an armed rule has exactly the conditions its
    text had, in their order; and a rule that compiles is armed. *)
Theorem compile_accounts rules vars limits :
  exists rs rep, compile rules vars limits = Some (rs, rep) /\
    rep_compiled rep = len (rs_rules rs) /\
    rep_compiled rep + rep_not_evaluable rep + len (rep_failed rep) = len rules /\
    (forall entry, entry ∈ rs_rules rs -> exists rule, rule ∈ rules /\
      compile_rule rule vars limits = Some (inr entry) /\
      Forall2 (compiled_from limits) (r_options rule) (cr_options entry)) /\
    (forall rule entry, rule ∈ rules -> compile_rule rule vars limits = Some (inr entry) -> entry ∈ rs_rules rs).
Proof.
  destruct (compile_total rules vars limits) as [[rs rep] E]. exists rs, rep. split; [done|].
  apply compile_accounted in E as (st & [Hn Hc Ha] & -> & -> & -> & ->).
  split; [done|]. split; [done|]. split.
  - intros entry Hin. destruct (Hc entry Hin) as (rule & Hr & Hcr). exists rule.
    split; [done|]. split; [done|]. by apply compile_rule_inv in Hcr as (_ & _ & ? & _).
  - intros rule entry Hr Hcr. eapply Ha; [done| |done]. by apply compile_rule_inv in Hcr as [? _].
Qed.
End accounting.

(** ** Running the model

    An automaton that searches for each pattern in turn, and regular expressions that are literal
    text: they satisfy what the engine relies on. *)

Definition occursb (nocase : bool) (needle h : list Z) : bool :=
  bool_decide (needle = []) || bool_decide (is_Some (find h needle nocase)).

Lemma occursb_spec nocase needle h : occursb nocase needle h = true <-> occurs nocase needle h.
Proof.
  unfold occursb. destruct (decide (needle = [])) as [->|Hne].
  - simpl. split; [|done]. intros _. exists 0. split; [done|]. split; [simpl; lia|done].
  - rewrite bool_decide_eq_false_2 by done. simpl. pose proof (find_spec h needle nocase Hne) as Hf.
    rewrite bool_decide_eq_true. destruct (find h needle nocase) as [p|].
    + split; [|eauto]. intros _. destruct Hf as [Hf _]. by exists p.
    + split; [by intros [? ?]|done].
Qed.

#[global] Instance naive_automaton : AhoCorasickLib | 100.
Proof.
  refine {|
    Automaton := bool * list (list Z);
    ac_build := fun nocase needles => Some (nocase, needles);
    ac_overlapping := fun a h =>
      filter (fun i => match a.2 !! i with Some needle => occursb a.1 needle h | None => false end = true)
        (seq 0 (length a.2))
  |}.
  intros nocase needles a h i [= <-]. simpl. rewrite list_elem_of_filter, elem_of_seq. split.
  - intros [Ho _]. destruct (needles !! i) as [needle|]; [|done]. exists needle. split; [done|]. by apply occursb_spec.
  - intros (needle & Hn & Ho). rewrite Hn. split; [by apply occursb_spec|]. apply lookup_lt_Some in Hn. lia.
Defined.

#[global] Instance literal_regex : RegexLib | 100.
Proof.
  refine {|
    Regex := list Z;
    regex_build := fun p _ => if decide (pm_source p = []) then inl [] else inr (pm_source p);
    regex_find := fun r h =>
      if decide (r = []) then None else p ← find h r false; Some (p, p + len r);
    TextRegex := text;
    text_regex_build := fun source _ => if decide (source = []) then inl [] else inr source;
    text_regex_is_match := fun r t => text_contains t r
  |}.
  intros r h s e E. case_decide as Hr; [done|]. pose proof (find_spec h r false Hr) as Hf.
  destruct (find h r false) as [p|]; [|done]. simpl in E. simplify_eq. destruct Hf as [(? & ? & _) _]. lia.
Defined.

Definition any_header : RuleHeader :=
  mkRuleHeader Alert PTcp (mkAddressSpec false AAny) (mkPortSpec false PAny) ToDestination
    (mkAddressSpec false AAny) (mkPortSpec false PAny).

Definition simple_rule (sid : Z) (options : list RuleOption) : Rule :=
  mkRule any_header sid 1 None None [] None [] [] options None false [] [] None.

Definition payload_content (s : string) : RuleOption := OContent (content_new (of_string s)).

Definition sample_rules : list Rule :=
  [simple_rule 1 [payload_content "evil"]; simple_rule 2 [payload_content "benign"];
   simple_rule 3 [ODsize (mkDsizeMatch Greater 4 None)]].

Definition tcp_tuple : NetTuple := mkNetTuple (V4 1) (Some 1000) (V4 2) (Some 80) Tcp.

Definition packet_input (payload : list Z) : MatchInput := mkMatchInput tcp_tuple true true (payload_only payload).

Lemma prefilter_exact_witness :
  exists rs rep, compile sample_rules (mkVarTable ∅ ∅) CompileLimits_default = Some (rs, rep) /\
    omap (verdict rs (packet_input (of_string "so evil")) ∅)
      (candidates_in rs (haystacks (payload_only (of_string "so evil")) [Payload])) =
    omap (verdict rs (packet_input (of_string "so evil")) ∅) (seq 0 (length (rs_rules rs))).
Proof.
  destruct (compile_total sample_rules (mkVarTable ∅ ∅) CompileLimits_default) as [[rs rep] E].
  exists rs, rep. split; [exact E|].
  apply (prefilter_exact sample_rules (mkVarTable ∅ ∅) CompileLimits_default rs rep
    (packet_input (of_string "so evil")) [Payload]); [exact E|].
  intros [] h Hin Hg; simpl in Hg; simplify_eq. by destruct Hin; left.
Defined.
