(* ===== verification/Host.v ===== *)
(** Host rules: [crates/engine/src/host.rs].

    Host events are records with named fields; a host rule is a list of conditions on one kind of
    record, and the rules worth evaluating are those of the record's kind. *)

From S2P Require Import Prelude Text Net Event Normalize RuleModel Vars Eval Compile.

#[global] Instance HostEventKind_countable : Countable HostEventKind.
Proof.
  refine (inj_countable' (fun k => match k with KFim => 0 | KAuth => 1 | KProcess => 2 end)
    (fun z => match z with 0 => KFim | 1 => KAuth | _ => KProcess end) _).
  by intros [].
Defined.

(** ** Records *)

Inductive HostObservation :=
| HFim (fim : FimEvent)
| HAuth (auth : AuthEvent)
| HProcess (process : ProcessEvent).

(** [HostObservation::kind]. *)
Definition observation_kind (o : HostObservation) : HostEventKind :=
  match o with HFim _ => KFim | HAuth _ => KAuth | HProcess _ => KProcess end.

(** [HostObservation::field]. *)
Definition observation_field (o : HostObservation) (f : HostField) : option text :=
  match o, f with
  | HFim fim, FilePath => Some (fim_path fim)
  | HFim fim, FileChange => Some (file_change_as_str (fim_change fim))
  | HAuth auth, AuthOutcome => Some (auth_outcome_as_str (auth_outcome auth))
  | HAuth auth, AuthUser => auth_user auth
  | HAuth auth, AuthService => auth_service auth
  | HAuth auth, AuthSource => ip_to_string <$> auth_source_address auth
  | HProcess process, ProcessName => Some (process_name process)
  | HProcess process, ProcessChange => Some (process_change_as_str (process_change process))
  | HProcess process, ProcessCommandLine => process_command_line process
  | _, _ => None
  end.

(** [HostObservation::subject]. *)
Definition subject (o : HostObservation) : text :=
  match o with
  | HFim fim => fim_path fim
  | HAuth auth =>
      match auth_source_address auth with
      | Some address => ip_to_string address
      | None => unwrap_or [] (auth_user auth)
      end
  | HProcess process => process_name process
  end.

(** ** Rules *)

Section host.
Context `{RegexLib}.

Inductive CompiledMatcher :=
| MAnyOf (values : list text) (kind : HostMatchKind) (nocase : bool)
| MRegex (regex : TextRegex).

(** [CompiledMatcher::matches]. *)
Definition matcher_matches (m : CompiledMatcher) (value : text) : bool :=
  match m with
  | MAnyOf values kind nocase =>
      existsb (fun candidate =>
        let '(value, candidate) :=
          if (nocase : bool) then (to_ascii_lowercase <$> value, to_ascii_lowercase <$> candidate)
          else (value, candidate) in
        match kind with
        | Exact => bool_decide (value = candidate)
        | Prefix => starts_with value candidate
        | Contains => text_contains value candidate
        end) values
  | MRegex regex => text_regex_is_match regex value
  end.

Inductive CompiledCondition :=
| KField (field : HostField) (negated : bool) (matcher : CompiledMatcher)
| KBitIsSet (name : text)
| KBitIsNotSet (name : text)
| KBitEffect (op : FlowBitsOp).

Record CompiledHostRule := mkCompiledHostRule {
  hr_sid : Z;
  hr_rev : Z;
  hr_msg : text;
  hr_classtype : option text;
  hr_severity : Z;
  hr_metadata : gmap text (list text);
  hr_kind : HostEventKind;
  hr_threshold : option Threshold;
  hr_no_alert : bool;
  hr_origin : text;
  hr_conditions : list CompiledCondition
}.

Record HostRuleset := mkHostRuleset {
  hs_rules : list CompiledHostRule;
  hs_by_kind : gmap HostEventKind (list nat)
}.

(** ** Compiling *)

Definition compile_condition (limits : CompileLimits) (o : RuleOption) : CompileError + CompiledCondition :=
  match o with
  | OHost host =>
      match hf_matcher host with
      | AnyOf values kind nocase => inr (KField (hf_field host) (hf_negated host) (MAnyOf values kind nocase))
      | HostRegex source =>
          match text_regex_build source limits with
          | inl reason => inl (RegexError source reason)
          | inr regex => inr (KField (hf_field host) (hf_negated host) (MRegex regex))
          end
      end
  | OFlowBits (BIsSet name) => inr (KBitIsSet name)
  | OFlowBits (BIsNotSet name) => inr (KBitIsNotSet name)
  | OFlowBits op => inr (KBitEffect op)
  | _ => inl (NotEvaluable (NotAHostCondition o))
  end.

Fixpoint compile_conditions (limits : CompileLimits) (os : list RuleOption) :
    CompileError + list CompiledCondition :=
  match os with
  | [] => inr []
  | o :: os' =>
      match compile_condition limits o with
      | inl e => inl e
      | inr c =>
          match compile_conditions limits os' with
          | inl e => inl e
          | inr cs => inr (c :: cs)
          end
      end
  end.

Definition compile_host_rule (rule : Rule) (limits : CompileLimits) : CompileError + CompiledHostRule :=
  match host_event_kind rule with
  | inr None => inl (NotEvaluable NoHostFields)
  | inl (first, second) => inl (NotEvaluable (MixedHostKinds first second))
  | inr (Some kind) =>
      match compile_conditions limits (r_options rule) with
      | inl e => inl e
      | inr conditions =>
          inr (mkCompiledHostRule (r_sid rule) (r_rev rule) (r_msg rule) (r_classtype rule) (severity rule)
            (group_metadata (r_metadata rule)) kind (r_threshold rule) (r_no_alert rule) (location rule) conditions)
      end
  end.

(** One turn of the loop of [HostRuleset::compile]. *)
Definition compile_host_step (limits : CompileLimits) (st : HostRuleset * CompileReport) (rule : Rule) :
    HostRuleset * CompileReport :=
  let '(rs, rep) := st in
  if negb (is_evaluable rule)
  then (rs, mkCompileReport (rep_compiled rep) (rep_not_evaluable rep + 1) (rep_failed rep) (rep_without_prefilter rep))
  else match compile_host_rule rule limits with
  | inr entry =>
      let slot := unwrap_or [] (hs_by_kind rs !! hr_kind entry) in
      (mkHostRuleset (hs_rules rs ++ [entry])
         (<[ hr_kind entry := slot ++ [length (hs_rules rs)] ]> (hs_by_kind rs)), rep)
  | inl error =>
      (rs, mkCompileReport (rep_compiled rep) (rep_not_evaluable rep)
        (rep_failed rep ++ [mkCompileFailure (r_sid rule) (location rule) error]) (rep_without_prefilter rep))
  end.

(** [HostRuleset::compile]. *)
Definition compile_host (rules : list Rule) (limits : CompileLimits) : HostRuleset * CompileReport :=
  let '(rs, rep) := foldl (compile_host_step limits) (mkHostRuleset [] ∅, report_default) rules in
  (rs, mkCompileReport (Z.of_nat (length (hs_rules rs))) (rep_not_evaluable rep) (rep_failed rep)
    (rep_without_prefilter rep)).

(** [HostRuleset::candidates]. *)
Definition host_candidates (rs : HostRuleset) (kind : HostEventKind) : list nat :=
  unwrap_or [] (hs_by_kind rs !! kind).

(** ** Evaluating *)

Fixpoint eval_conditions (o : HostObservation) (bits : FlowBits) (cs : list CompiledCondition)
    (side_effects : list FlowBitsOp) : option (list FlowBitsOp) :=
  match cs with
  | [] => Some side_effects
  | KField field negated matcher :: cs' =>
      value ← observation_field o field;
      if eqb (matcher_matches matcher value) negated then None else eval_conditions o bits cs' side_effects
  | KBitIsSet name :: cs' => if bit_is_set bits name then eval_conditions o bits cs' side_effects else None
  | KBitIsNotSet name :: cs' => if bit_is_set bits name then None else eval_conditions o bits cs' side_effects
  | KBitEffect op :: cs' => eval_conditions o bits cs' (side_effects ++ [op])
  end.

Definition evaluate_host (rule : CompiledHostRule) (o : HostObservation) (bits : FlowBits) :
    option (list FlowBitsOp) :=
  if decide (hr_kind rule <> observation_kind o) then None
  else eval_conditions o bits (hr_conditions rule) [].

(** ** What a host rule says *)

(** One condition, by itself. *)
Definition condition_holds (o : HostObservation) (bits : FlowBits) (c : CompiledCondition) : bool :=
  match c with
  | KField field negated matcher =>
      match observation_field o field with
      | None => false
      | Some value => xorb (matcher_matches matcher value) negated
      end
  | KBitIsSet name => bit_is_set bits name
  | KBitIsNotSet name => negb (bit_is_set bits name)
  | KBitEffect _ => true
  end.

Definition condition_effect (c : CompiledCondition) : option FlowBitsOp :=
  match c with KBitEffect op => Some op | _ => None end.

Lemma eval_conditions_spec o bits cs effects :
  eval_conditions o bits cs effects =
  if forallb (condition_holds o bits) cs then Some (effects ++ omap condition_effect cs) else None.
Proof.
  revert effects. induction cs as [|c cs IH]; intros effects; simpl; [by rewrite app_nil_r|].
  destruct c as [f n m|name|name|op]; simpl.
  - destruct (observation_field o f) as [v|]; simpl; [|done].
    destruct (matcher_matches m v), n; simpl; by rewrite ?IH.
  - destruct (bit_is_set bits name); simpl; by rewrite ?IH.
  - destruct (bit_is_set bits name); simpl; by rewrite ?IH.
  - rewrite IH. rewrite <- app_assoc. done.
Qed.

(** A host rule matches a record exactly when the record is of its kind and every one of its
    conditions holds of it, where a condition on a field the record does not carry never holds,
    negated or not; the side effects are those the rule writes, in order. *)
Theorem evaluate_host_exact rule o bits :
  evaluate_host rule o bits =
  if bool_decide (hr_kind rule = observation_kind o) && forallb (condition_holds o bits) (hr_conditions rule)
  then Some (omap condition_effect (hr_conditions rule)) else None.
Proof.
  unfold evaluate_host. case_decide as Hd; [by rewrite bool_decide_eq_false_2|].
  rewrite bool_decide_eq_true_2 by done. by rewrite eval_conditions_spec.
Qed.

(** ** Selecting by kind *)

Record host_inv (rs : HostRuleset) : Prop := {
  hi_sorted : forall k, StronglySorted lt (host_candidates rs k);
  hi_spec : forall k i, i ∈ host_candidates rs k <-> exists r, hs_rules rs !! i = Some r /\ hr_kind r = k
}.

Lemma compile_host_step_inv limits st rule : host_inv st.1 -> host_inv (compile_host_step limits st rule).1.
Proof.
  destruct st as [rs rep]. intros [Hs Hi]. unfold compile_host_step. destruct (negb _); [done|].
  destruct (compile_host_rule rule limits) as [?|entry]; [done|]. simpl.
  assert (Hc : forall k, host_candidates (mkHostRuleset (hs_rules rs ++ [entry])
      (<[ hr_kind entry := host_candidates rs (hr_kind entry) ++ [length (hs_rules rs)] ]> (hs_by_kind rs))) k =
    host_candidates rs k ++ (if decide (hr_kind entry = k) then [length (hs_rules rs)] else [])).
  { intros k. unfold host_candidates at 1. simpl. case_decide as Hd.
    - subst. by rewrite lookup_insert_eq.
    - rewrite lookup_insert_ne by done. by rewrite app_nil_r. }
  split; intros k; fold (host_candidates rs (hr_kind entry)); rewrite Hc.
  - case_decide; [|by rewrite app_nil_r]. apply StronglySorted_app_2; [|done|repeat constructor].
    intros i j Hi' Hj. apply list_elem_of_singleton in Hj as ->. apply Hi in Hi' as (r & Hr & _).
    by apply lookup_lt_Some in Hr.
  - intros i. rewrite elem_of_app, Hi. simpl. setoid_rewrite lookup_app_Some.
    setoid_rewrite list_lookup_singleton_Some. case_decide as Hd.
    + rewrite list_elem_of_singleton. split; [|naive_solver lia].
      intros [(r & ? & ?)| ->]; [naive_solver|]. exists entry. split; [right; split; [lia|split; [lia|done]]|done].
    + split; [intros [?|Hx]; [naive_solver|by apply elem_of_nil in Hx]|naive_solver].
Qed.

Lemma compile_host_inv rules limits : host_inv (compile_host rules limits).1.
Proof.
  unfold compile_host.
  assert (Hg : forall st, host_inv st.1 -> host_inv (foldl (compile_host_step limits) st rules).1).
  { induction rules as [|r rules IH]; intros st Hst; [done|]. by apply IH, compile_host_step_inv. }
  specialize (Hg (mkHostRuleset [] ∅, report_default)).
  destruct (foldl _ _ rules) as [rs rep]. apply Hg. split; intros k; unfold host_candidates; simpl.
  - rewrite lookup_empty. constructor.
  - intros i. rewrite lookup_empty. simpl. split; [by intros ?%elem_of_nil|]. intros (r & Hr & _).
    by rewrite lookup_nil in Hr.
Qed.

(** Every armed host rule comes from one of the rules given. *)
Lemma compile_host_origin rules limits r :
  r ∈ hs_rules (compile_host rules limits).1 ->
  exists rule, rule ∈ rules /\ compile_host_rule rule limits = inr r.
Proof.
  unfold compile_host.
  assert (Hg : forall before st, (forall r, r ∈ hs_rules st.1 -> exists rule, rule ∈ before /\ compile_host_rule rule limits = inr r) ->
    forall r, r ∈ hs_rules (foldl (compile_host_step limits) st rules).1 ->
    exists rule, rule ∈ before ++ rules /\ compile_host_rule rule limits = inr r).
  { induction rules as [|x rules IH]; intros before st Hst r' Hr; simpl in Hr.
    { rewrite app_nil_r. by apply Hst. }
    rewrite cons_middle, app_assoc. apply (IH (before ++ [x])) in Hr; [done|]. clear Hr r'. intros r' Hr'.
    destruct st as [rs rep]. unfold compile_host_step in Hr'. simpl in Hst.
    destruct (negb _); [destruct (Hst r' Hr') as (? & ? & ?); set_solver|].
    destruct (compile_host_rule x limits) as [?|entry] eqn:Ex; [destruct (Hst r' Hr') as (? & ? & ?); set_solver|].
    simpl in Hr'. apply elem_of_app in Hr' as [Hr'|Hr'%list_elem_of_singleton];
      [destruct (Hst r' Hr') as (? & ? & ?); set_solver|]. subst r'. exists x. set_solver. }
  specialize (Hg [] (mkHostRuleset [] ∅, report_default)). simpl in Hg.
  destruct (foldl _ _ rules) as [rs rep]. simpl in *. apply Hg. intros ? ?%elem_of_nil. done.
Qed.

Lemma compile_host_rule_threshold rule limits r :
  compile_host_rule rule limits = inr r -> hr_threshold r = r_threshold rule.
Proof. unfold compile_host_rule. intros E. repeat case_match; by simplify_eq. Qed.

Definition host_verdict (rs : HostRuleset) (o : HostObservation) (bits : FlowBits) (i : nat) :
    option (nat * list FlowBitsOp) :=
  rule ← hs_rules rs !! i; effects ← evaluate_host rule o bits; Some (i, effects).

(** Selecting host rules by the kind of the record loses none: evaluating the candidates gives
    the same matches, in the same order, as evaluating every armed host rule. *)
Theorem host_selection_exact rules limits o bits :
  let rs := (compile_host rules limits).1 in
  omap (host_verdict rs o bits) (host_candidates rs (observation_kind o)) =
  omap (host_verdict rs o bits) (seq 0 (length (hs_rules rs))).
Proof.
  intros rs. destruct (compile_host_inv rules limits) as [Hs Hi]. fold rs in Hs, Hi.
  apply omap_sorted; [apply Hs|apply seq_sorted| |]; intros i [x Hv]; unfold host_verdict in Hv;
    (destruct (hs_rules rs !! i) as [r|] eqn:Hr; [|done]); simpl in Hv.
  - apply Hi. exists r. split; [done|]. unfold evaluate_host in Hv. case_decide as Hd; [done|].
    destruct (decide (hr_kind r = observation_kind o)); [done|]. by destruct Hd.
  - apply elem_of_seq. apply lookup_lt_Some in Hr. lia.
Qed.
End host.
