(* ===== verification/AuthLog.v ===== *)
(** Authentication logs: [crates/hids/src/logs.rs], the parsing of a message, of a syslog line and of a
    journal record, and the reader that follows a log file.

    Text is a list of character codes and its length is counted in bytes where the source counts
    bytes. [debug] is the [{:?}] format of a text, which depends on the tables of printable
    characters. The JSON reader of journal records is the class [SerdeJson]. The file that a
    [Tailer] follows is an input of each read: its identity, its length and the bytes the read
    returned. *)

From S2P Require Import Prelude Text Net Event.

Definition MAX_FIELD : Z := 256.
Definition MAX_MESSAGE : Z := 2048.
Definition MAX_LINE : Z := 16 * 1024.

(** [char::is_control]. *)
Definition is_control (c : Z) : bool := ((0 <=? c) && (c <=? 31)) || ((127 <=? c) && (c <=? 159)).

Definition is_ascii_graphic (c : Z) : bool := (33 <=? c) && (c <=? 126).

(** ** Messages *)

(** [sanitise]: [used] bytes are in the output so far. *)
Fixpoint sanitise_from (used limit : Z) (t : text) : text * bool :=
  match t with
  | [] => ([], false)
  | c :: t' =>
      if limit <=? used then ([], true)
      else if is_control c then ((46 :: (sanitise_from (used + 1) limit t').1), true)
      else
        let '(out, changed) := sanitise_from (used + len_utf8 c) limit t' in
        (c :: out, changed)
  end.

Definition sanitise (t : text) (limit : Z) : text * bool := sanitise_from 0 limit t.

Definition clip (t : text) (limit : nat) : text := take limit t.

Definition username_char (c : Z) : bool := is_ascii_alphanumeric c || bool_decide (c ∈ of_string "._-$@\/").

Definition plausible_username (token : text) : bool :=
  negb (bool_decide (token = [])) && (text_len token <=? 64) && forallb username_char token.

(** [str::contains] and [str::starts_with] on the lowered message. *)
Definition auth_outcome_of (lower : text) : option AuthOutcome :=
  if starts_with lower (of_string "failed password") || starts_with lower (of_string "failed publickey") ||
     text_contains lower (of_string "authentication failure") || starts_with lower (of_string "invalid user") ||
     starts_with lower (of_string "failed none")
  then Some Failure
  else if starts_with lower (of_string "accepted password") || starts_with lower (of_string "accepted publickey") ||
          starts_with lower (of_string "session opened for user")
  then Some Success
  else None.

Fixpoint strip_prefix_text (pattern t : text) : option text :=
  match pattern, t with
  | [], _ => Some t
  | p :: pattern', c :: t' => if c =? p then strip_prefix_text pattern' t' else None
  | _ :: _, [] => None
  end.

(** [tokens.iter().position(|token| *token == word)], with the tokens after it. *)
Fixpoint after_token (word : text) (tokens : list text) : option (list text) :=
  match tokens with
  | [] => None
  | t :: tokens' => if bool_decide (t = word) then Some tokens' else after_token word tokens'
  end.

(** The loop over the optional words of sshd. *)
Fixpoint skip_words (tokens : list text) : list text :=
  match tokens with
  | t :: tokens' =>
      if bool_decide (t = of_string "invalid") || bool_decide (t = of_string "user") then skip_words tokens' else tokens
  | [] => []
  end.

(** [Option::or_else]. *)
Definition or_else {A : Type} (a b : option A) : option A := match a with Some _ => a | None => b end.

Fixpoint find_map {A B : Type} (f : A -> option B) (l : list A) : option B :=
  match l with [] => None | a :: l' => or_else (f a) (find_map f l') end.

Definition user_token (tokens : list text) : option text :=
  or_else (find_map (strip_prefix_text (of_string "user=")) tokens)
    (or_else (rest ← after_token (of_string "for") tokens; head (skip_words rest))
       (rest ← after_token (of_string "user") tokens; head rest)).

Section messages.
Context (debug : text -> text).

Definition extract_user (tokens : list text) : option text * list text :=
  match user_token tokens with
  | None => (None, [])
  | Some candidate =>
      if plausible_username candidate then (Some candidate, [])
      else (Some (sanitise candidate 64).1,
            [of_string "user token " ++ debug (clip candidate 32) ++ of_string " is not a plausible account name"])
  end.

Definition extract_source (tokens : list text) : option IpAddr * option Z * list text :=
  match after_token (of_string "from") tokens with
  | None => (None, None, [])
  | Some rest =>
      match rest with
      | [] => (None, None, [])
      | candidate :: rest' =>
          match parse_ip candidate with
          | None =>
              (None, None, [of_string "source token " ++ debug (clip candidate 48) ++ of_string " is not an address"])
          | Some address =>
              (Some address,
               match rest' with
               | word :: number :: _ => if bool_decide (word = of_string "port") then parse_unsigned 65535 number else None
               | _ => None
               end, [])
          end
      end
  end.

Definition altered_note : text := of_string "message contained control characters or was truncated".

Definition parse_auth_message (message : text) (service : option text) (log_source : text) : option AuthEvent :=
  let '(clean, message_changed) := sanitise message MAX_MESSAGE in
  outcome ← auth_outcome_of (to_ascii_lowercase <$> clean);
  let noted := if message_changed then [altered_note] else [] in
  let tokens := split_whitespace clean in
  let '(user, noted_user) := extract_user tokens in
  let '(source_address, source_port, noted_source) := extract_source tokens in
  Some (mkAuthEvent outcome user ((fun s => (sanitise s MAX_FIELD).1) <$> service) source_address source_port clean
          log_source (noted ++ noted_user ++ noted_source)).

(** ** Syslog lines *)

Definition is_blank (c : Z) : bool := (c =? 32) || (c =? 9).

Fixpoint skip_blanks (t : text) : text :=
  match t with c :: t' => if is_blank c then skip_blanks t' else t | [] => [] end.

Definition next_token (t : text) : option (text * text) :=
  let t := skip_blanks t in
  if bool_decide (t = []) then None
  else Some match split_at_first is_blank t with
            | Some (token, rest) => (token, skip_blanks rest)
            | None => (t, [])
            end.

(** [str::trim_end_matches] for one character. *)
Definition trim_end_matches (c : Z) (t : text) : text := reverse (trim_start_matches c (reverse t)).

Definition parse_syslog_line (line log_source : text) : option AuthEvent :=
  if MAX_LINE <? text_len line then None
  else
    '(_, rest) ← next_token line;
    '(_, rest) ← next_token rest;
    '(_, rest) ← next_token rest;
    '(_, rest) ← next_token rest;
    '(tag, message) ← next_token rest;
    let tag := trim_end_matches 58 tag in
    let service := unwrap_or tag (head (split_char 91 tag)) in
    if bool_decide (service = []) || negb (forallb is_ascii_graphic service) then None
    else parse_auth_message message (Some service) log_source.

End messages.

(** ** Journal records *)

(** What the source uses of the [serde_json] crate. *)
Class SerdeJson := {
  JsonValue : Type;
  json_from_str : text -> option JsonValue;
  json_get : JsonValue -> text -> option JsonValue;
  json_as_str : JsonValue -> option text;
  json_as_array : JsonValue -> option (list JsonValue);
  json_as_u64 : JsonValue -> option Z
}.

Section journal.
Context `{SerdeJson} (debug : text -> text).

Definition journal_string (v : JsonValue) : option text :=
  match json_as_str v with
  | Some t => Some t
  | None =>
      values ← json_as_array v;
      Some (utf8_lossy ((fun b => if b <=? 255 then b else 46) <$> omap json_as_u64 values))
  end.

Definition parse_journal_record (json log_source : text) : option AuthEvent :=
  if MAX_LINE <? text_len json then None
  else
    value ← json_from_str json;
    field ← json_get value (of_string "MESSAGE");
    message ← journal_string field;
    let service :=
      or_else (json_get value (of_string "SYSLOG_IDENTIFIER")) (json_get value (of_string "_COMM")) ≫= journal_string in
    parse_auth_message debug message service log_source.
End journal.

(** ** Following a file *)

Record Tailer := mkTailer {
  tl_offset : Z;
  tl_identity : option (Z * Z);
  tl_pending : text;
  tl_oversized : Z;
  tl_rotations : Z
}.

(** What [std::fs::metadata] says of the file. *)
Record FileView := mkFileView {
  fv_len : Z;
  fv_identity : option (Z * Z)
}.

(** [Tailer::new] and [Tailer::from_start]; [None] for a file that cannot be examined. *)
Definition tailer_new (view : option FileView) : Tailer :=
  mkTailer (match view with Some v => fv_len v | None => 0 end) (view ≫= fv_identity) [] 0 0.

Definition from_start (view : option FileView) : Tailer :=
  let t := tailer_new view in
  mkTailer 0 (tl_identity t) (tl_pending t) (tl_oversized t) (tl_rotations t).

(** [str::split_inclusive] on the newline: the parts, each with whether it ends in one. *)
Fixpoint split_inclusive (t : text) : list (text * bool) :=
  match t with
  | [] => []
  | c :: t' =>
      if c =? 10 then ([], true) :: split_inclusive t'
      else match split_inclusive t' with
           | (part, ended) :: parts => (c :: part, ended) :: parts
           | [] => [([c], false)]
           end
  end.

(** One part: it completes the pending line, or is held. *)
Definition take_piece (st : list text * text * Z) (piece : text * bool) : list text * text * Z :=
  let '(lines, pending, oversized) := st in
  let '(part, ended) := piece in
  if (ended : bool) then
    let complete := pending ++ unwrap_or part (strip_suffix 13 part) in
    if MAX_LINE <? text_len complete then (lines, [], oversized + 1) else (lines ++ [complete], [], oversized)
  else if MAX_LINE <? text_len pending + text_len part then (lines, [], oversized + 1)
  else (lines, pending ++ part, oversized).

(** The metadata changed under the reader: truncated, or another file. *)
Definition rotated (t : Tailer) (view : FileView) : bool :=
  (fv_len view <? tl_offset t) ||
  (bool_decide (fv_identity view <> None) && negb (bool_decide (fv_identity view = tl_identity t))).

(** How much of the file is asked for. *)
Definition wanted (offset : Z) (view : FileView) : Z := Z.min (sat_sub (fv_len view) offset) (1024 * 1024).

(** What examining the path gives. *)
Inductive Examined := NotFound | Unreadable | Examined_as (view : FileView).

(** [read_new_lines]: [read_at offset want] is what opening the file, seeking and one [read] give,
    [None] when one of them fails. The left value is the error the caller sees. *)
Definition read_new_lines (t : Tailer) (examined : Examined) (read_at : Z -> Z -> option (list Z)) :
    Tailer * (unit + list text) :=
  match examined with
  | NotFound => (t, inr [])
  | Unreadable => (t, inl tt)
  | Examined_as view =>
      let '(offset, pending, rotations) :=
        if rotated t view then (0, [], tl_rotations t + 1) else (tl_offset t, tl_pending t, tl_rotations t) in
      if fv_len view =? offset then (mkTailer offset (fv_identity view) pending (tl_oversized t) rotations, inr [])
      else
        match read_at offset (wanted offset view) with
        | None => (mkTailer offset (fv_identity view) pending (tl_oversized t) rotations, inl tt)
        | Some buffer =>
            let '(lines, pending, oversized) :=
              foldl take_piece ([], pending, tl_oversized t) (split_inclusive (utf8_lossy buffer)) in
            (mkTailer (sat_add offset (len buffer)) (fv_identity view) pending oversized rotations, inr lines)
        end
  end.

(** ** What reaches an event *)

Definition no_control (t : text) : Prop := Forall (fun c => is_control c = false) t.

Lemma sanitise_from_clean used limit t :
  no_control (sanitise_from used limit t).1 /\
  (0 <= used -> used <= limit + 3 -> used + text_len (sanitise_from used limit t).1 <= limit + 3).
Proof.
  revert used. induction t as [|c t IH]; intros used; cbn [sanitise_from]; [split; [constructor|cbn; lia]|].
  destruct (Z.leb_spec limit used) as [Hl|Hl]; [split; [constructor|cbn; lia]|].
  destruct (is_control c) eqn:Ec.
  - destruct (IH (used + 1)) as [H1 H2]. cbn [fst]. split; [by constructor|]. intros. rewrite text_len_cons. change (len_utf8 46) with 1. lia.
  - destruct (IH (used + len_utf8 c)) as [H1 H2]. destruct (sanitise_from (used + len_utf8 c) limit t) as [out changed].
    cbn [fst] in *. split; [by constructor|]. intros. rewrite text_len_cons. pose proof (len_utf8_range c). lia.
Qed.

Lemma sanitise_clean t limit : 0 <= limit -> no_control (sanitise t limit).1 /\ text_len (sanitise t limit).1 <= limit + 3.
Proof. intros Hl. destruct (sanitise_from_clean 0 limit t) as [H1 H2]. split; [done|]. apply H2; lia. Qed.

(** A text without control characters that fits is left as it is. *)
Lemma sanitise_id t limit : no_control t -> text_len t <= limit -> sanitise t limit = (t, false).
Proof.
  unfold sanitise. assert (forall used, no_control t -> used + text_len t <= limit -> sanitise_from used limit t = (t, false)) as Hg;
    [|intros; apply Hg; [done|lia]].
  induction t as [|c t IH]; intros used Hc Hl; [done|]. cbn [sanitise_from]. apply Forall_cons in Hc as [Hc Ht].
  rewrite text_len_cons in Hl. pose proof (len_utf8_range c). pose proof (text_len_pos t).
  rewrite (proj2 (Z.leb_gt limit used)), Hc, IH by (done || lia). done.
Qed.

Lemma sanitise_unchanged t limit out : sanitise t limit = (out, false) -> out = t.
Proof.
  unfold sanitise. generalize 0. revert out. induction t as [|c t IH]; intros out used E; cbn [sanitise_from] in E; [by simplify_eq|].
  destruct (limit <=? used); [done|]. destruct (is_control c); [done|].
  destruct (sanitise_from (used + len_utf8 c) limit t) as [o ch] eqn:Eo. simplify_eq. f_equal. by eapply IH.
Qed.

Lemma token_clean t token : no_control t -> token ∈ split_whitespace t -> no_control token /\ no_whitespace token.
Proof.
  intros Hc Hin. split; [|by pose proof (split_whitespace_fields t) as Hf; rewrite Forall_forall in Hf; apply Hf in Hin as [_ ?]].
  unfold split_whitespace in Hin. apply list_elem_of_filter in Hin as [_ Hin]. clear -Hc Hin. revert token Hin.
  induction Hc as [|c t Hc Ht IH]; intros token Hin; cbn in Hin.
  - apply list_elem_of_singleton in Hin as ->. constructor.
  - destruct (is_whitespace c); [apply elem_of_cons in Hin as [->|Hin]; [constructor|by apply IH]|].
    destruct (split_where is_whitespace t) as [|part parts]; [apply list_elem_of_singleton in Hin as ->; by constructor|].
    apply elem_of_cons in Hin as [->|Hin]; [constructor; [done|apply IH; left]|apply IH; by right].
Qed.

Lemma after_token_sub word tokens rest : after_token word tokens = Some rest -> forall t, t ∈ rest -> t ∈ tokens.
Proof.
  induction tokens as [|t tokens IH]; cbn; [done|]. case_bool_decide; [intros [= <-]; by right|]. intros E t' Ht. right. eauto.
Qed.

Lemma skip_words_sub tokens t : t ∈ skip_words tokens -> t ∈ tokens.
Proof. induction tokens as [|x tokens IH]; cbn; [done|]. destruct (_ || _); [|done]. intros Hin. right. auto. Qed.

Lemma strip_prefix_text_suffix pattern t rest : strip_prefix_text pattern t = Some rest -> t = pattern ++ rest.
Proof.
  revert t. induction pattern as [|p pattern IH]; intros [|c t] E; cbn in E; simplify_eq; [done..|].
  destruct (Z.eqb_spec c p); [|done]. subst. cbn. f_equal. auto.
Qed.

(** The account is a suffix of one token. *)
Lemma user_token_from tokens candidate :
  user_token tokens = Some candidate -> exists token before, token ∈ tokens /\ token = before ++ candidate.
Proof.
  unfold user_token. destruct (find_map _ tokens) as [u|] eqn:Ef; cbn [or_else].
  - intros [= ->]. induction tokens as [|t tokens IH]; cbn [find_map] in Ef; [done|].
    destruct (strip_prefix_text (of_string "user=") t) as [u|] eqn:Es; cbn [or_else] in Ef.
    + simplify_eq. apply strip_prefix_text_suffix in Es. exists t, (of_string "user="). split; [left|done].
    + destruct (IH Ef) as (token & before & Hin & E). exists token, before. split; [by right|done].
  - destruct (after_token (of_string "for") tokens ≫= _) as [u|] eqn:E1; cbn [or_else].
    + intros [= ->]. destruct (after_token (of_string "for") tokens) as [rest|] eqn:Ea; [|done]. cbn in E1.
      exists candidate, []. split; [|done]. eapply after_token_sub; [exact Ea|]. apply skip_words_sub. by apply head_Some_elem_of in E1.
    + intros E2. destruct (after_token (of_string "user") tokens) as [rest|] eqn:Ea; [|done]. cbn in E2.
      exists candidate, []. split; [|done]. eapply after_token_sub; [exact Ea|]. by apply head_Some_elem_of in E2.
Qed.

Lemma user_token_clean t candidate :
  no_control t -> user_token (split_whitespace t) = Some candidate -> no_control candidate /\ no_whitespace candidate.
Proof.
  intros Hc Eu. apply user_token_from in Eu as (token & before & Hin & ->).
  destruct (token_clean t _ Hc Hin) as [H1 H2]. split; [by apply Forall_app in H1 as [_ ?]|by apply Forall_app in H2 as [_ ?]].
Qed.

Lemma sanitise_from_no_whitespace used limit t : no_whitespace t -> no_whitespace (sanitise_from used limit t).1.
Proof.
  intros Ht. revert used. induction Ht as [|c t Hc Ht IH]; intros used; cbn [sanitise_from]; [constructor|].
  destruct (limit <=? used); [constructor|]. destruct (is_control c); [by constructor; [|apply IH]|].
  specialize (IH (used + len_utf8 c)). destruct (sanitise_from _ limit t). by constructor.
Qed.

(** What [extract_source] says: an address is one that a token spells, a port is sixteen bits wide
    and comes only with an address; a token that is not an address is noted. *)
Lemma extract_source_spec debug tokens address port noted :
  extract_source debug tokens = (address, port, noted) ->
  (forall a, address = Some a -> exists token, token ∈ tokens /\ parse_ip token = Some a) /\
  (forall n, port = Some n -> 0 <= n <= 65535 /\ address <> None) /\
  (noted <> [] -> address = None).
Proof.
  unfold extract_source. destruct (after_token _ tokens) as [[|candidate rest]|] eqn:Ea;
    [intros [= <- <- <-]; naive_solver| |intros [= <- <- <-]; naive_solver].
  destruct (parse_ip candidate) as [a|] eqn:Ep; [|intros [= <- <- <-]; naive_solver]. intros [= <- <- <-]. split_and!; [|intros n Hn|done].
  - intros a' [= <-]. exists candidate. split; [|done]. eapply after_token_sub; [exact Ea|left].
  - split; [|done]. destruct rest as [|word [|number rest]]; [done|done|]. case_bool_decide; [|done].
    eapply parse_unsigned_range; [|exact Hn]. lia.
Qed.

Lemma extract_user_spec debug t user noted :
  no_control t -> extract_user debug (split_whitespace t) = (user, noted) ->
  (forall u, user = Some u -> no_control u /\ no_whitespace u /\ text_len u <= 67 /\
     (noted = [] -> plausible_username u = true)) /\
  (user = None -> noted = []).
Proof.
  intros Hc. unfold extract_user. destruct (user_token _) as [candidate|] eqn:Eu; [|intros [= <- <-]; naive_solver].
  destruct (user_token_clean t candidate Hc Eu) as [H1 H2]. destruct (plausible_username candidate) eqn:Ep.
  - intros [= <- <-]. split; [|done]. intros u [= <-]. split_and!; [done|done| |done].
    unfold plausible_username in Ep. bsimpl. lia.
  - intros [= <- <-]. split; [|done]. intros u [= <-]. destruct (sanitise_clean candidate 64) as [H3 H4]; [lia|].
    split_and!; [done|by apply sanitise_from_no_whitespace|lia|done].
Qed.

(** C31: Whatever an authentication message holds, the event made from it is safe to print and bounded: the message, the account and the service hold no control character and at most the limit plus the three bytes a last character may take beyond it; the account is one word; an account is either a plausible name or the event is marked suspicious, and so is one whose message was changed; an address is the address one word of the message spells, and a port is sixteen bits wide and comes with an address. *)
Theorem auth_event_clean debug message service log_source e :
  parse_auth_message debug message service log_source = Some e ->
  no_control (auth_message e) /\ text_len (auth_message e) <= MAX_MESSAGE + 3 /\
  (auth_message e <> message -> auth_suspicious e <> []) /\
  (forall u, auth_user e = Some u ->
     no_control u /\ no_whitespace u /\ text_len u <= 67 /\ (auth_suspicious e = [] -> plausible_username u = true)) /\
  (forall s, auth_service e = Some s -> no_control s /\ text_len s <= MAX_FIELD + 3) /\
  (forall a, auth_source_address e = Some a ->
     exists token, token ∈ split_whitespace (auth_message e) /\ parse_ip token = Some a) /\
  (forall n, auth_source_port e = Some n -> 0 <= n <= 65535 /\ auth_source_address e <> None).
Proof.
  unfold parse_auth_message. destruct (sanitise message MAX_MESSAGE) as [clean changed] eqn:Es.
  destruct (sanitise_clean message MAX_MESSAGE ltac:(done)) as [Hc Hl]. rewrite Es in Hc, Hl.
  destruct (auth_outcome_of _) as [outcome|]; [|done]. cbn [mbind option_bind].
  destruct (extract_user debug _) as [user noted_user] eqn:Eu. destruct (extract_source debug _) as [[address port] noted_source] eqn:Ea.
  intros [= <-]. cbn [auth_message auth_user auth_service auth_source_address auth_source_port auth_suspicious fst] in *.
  destruct (extract_user_spec _ _ _ _ Hc Eu) as [Hu _]. destruct (extract_source_spec _ _ _ _ _ Ea) as (Hs1 & Hs2 & _).
  split_and!; [done|done| | | |done|done].
  - intros Hne. destruct changed; [done|]. contradict Hne. by apply sanitise_unchanged in Es.
  - intros u E. destruct (Hu u E) as (?&?&?&Hn). split_and!; [done|done|done|].
    intros Hz. apply Hn. apply app_eq_nil in Hz as [_ Hz]. by apply app_eq_nil in Hz as [? _].
  - intros s E. destruct service as [sv|]; [|done]. injection E as <-. by apply sanitise_clean.
Qed.

(** The words of sshd's report of a failed attempt, followed by [rest]. *)
Definition report_words (unknown : bool) (user address port : text) (rest : list text) : list text :=
  [of_string "Failed"; of_string "password"; of_string "for"] ++
  (if unknown then [of_string "invalid"; of_string "user"] else []) ++
  [user; of_string "from"; address; of_string "port"; port] ++ rest.

Definition sshd_failure (unknown : bool) (user address port : text) (rest : list text) : text :=
  unwords (report_words unknown user address port rest).

(** The characters of the words of such a report: printable, and no equals sign. *)
Definition report_char (c : Z) : bool := is_ascii_graphic c && negb (c =? 61).

Definition report_word (w : text) : bool := negb (bool_decide (w = [])) && forallb report_char w.

Lemma report_char_facts c : report_char c = true -> is_whitespace c = false /\ is_control c = false /\ len_utf8 c = 1 /\ c <> 61.
Proof.
  unfold report_char, is_ascii_graphic. intros H. bsimpl. unfold is_whitespace, is_control, len_utf8.
  split_and!; [zdec; done|zdec; done|zdec; done|lia].
Qed.

Lemma report_word_spec w : report_word w = true <-> w <> [] /\ Forall (fun c => report_char c = true) w.
Proof.
  unfold report_word. rewrite andb_true_iff, negb_true_iff, bool_decide_eq_false, forallb_forall, Forall_forall.
  by setoid_rewrite list_elem_of_In.
Qed.

Lemma report_word_word w : report_word w = true -> word w.
Proof.
  intros [H1 H2]%report_word_spec. split; [done|]. eapply Forall_impl; [exact H2|]. by intros c (? & _)%report_char_facts.
Qed.

Lemma report_word_no_user w : report_word w = true -> strip_prefix_text (of_string "user=") w = None.
Proof.
  intros [_ H]%report_word_spec. destruct (strip_prefix_text _ w) as [rest|] eqn:E; [|done].
  apply strip_prefix_text_suffix in E. subst w. apply Forall_app in H as [H _]. rewrite Forall_forall in H.
  assert (report_char 61 = true) as Hr by (apply H; repeat (left || right)). done.
Qed.

Lemma report_words_no_user words :
  Forall (fun w => report_word w = true) words -> find_map (strip_prefix_text (of_string "user=")) words = None.
Proof. induction 1 as [|w words Hw _ IH]; [done|]. cbn [find_map]. by rewrite report_word_no_user, IH. Qed.

Lemma report_words_no_control words : Forall (fun w => report_word w = true) words -> no_control (unwords words).
Proof.
  assert (forall w, report_word w = true -> no_control w) as Hg.
  { intros w [_ H]%report_word_spec. eapply Forall_impl; [exact H|]. by intros c (_ & ? & _)%report_char_facts. }
  induction 1 as [|w words Hw Hws IH]; [constructor|]. destruct words as [|v words]; [by apply Hg|].
  cbn [unwords]. apply Forall_app. split; [by apply Hg|]. by constructor.
Qed.

Lemma alphanumeric_report_char c : is_ascii_alphanumeric c = true -> report_char c = true.
Proof.
  unfold is_ascii_alphanumeric, is_ascii_digit, report_char, is_ascii_graphic. intros H.
  repeat (apply orb_true_iff in H as [H|H]); bsimpl; zdec; done.
Qed.

Lemma plausible_report_word w : plausible_username w = true -> report_word w = true.
Proof.
  unfold plausible_username. intros [[H1 _]%andb_true_iff H2]%andb_true_iff. apply report_word_spec.
  split; [by apply negb_true_iff, bool_decide_eq_false in H1|]. apply Forall_forall. intros c Hc.
  rewrite forallb_forall in H2. apply list_elem_of_In, H2 in Hc. apply orb_true_iff in Hc as [Hc|Hc].
  - by apply alphanumeric_report_char.
  - apply bool_decide_eq_true in Hc. revert c Hc. apply Forall_forall. repeat constructor.
Qed.

Lemma show_digits_report_word fuel n :
  (0 < fuel)%nat -> 0 <= n -> report_word (show_digits fuel 10 n []) = true.
Proof.
  intros Hf Hn. apply report_word_spec. split; [by apply show_digits_nonempty|].
  eapply Forall_impl; [by apply show_digits_digits|]. intros c Hc. apply alphanumeric_report_char.
  unfold is_ascii_alphanumeric. by rewrite Hc.
Qed.

Lemma outcome_of_report unknown user address port rest :
  auth_outcome_of (to_ascii_lowercase <$> sshd_failure unknown user address port rest) = Some Failure.
Proof. reflexivity. Qed.

Lemma report_words_ok unknown user address port rest :
  plausible_username user = true -> report_word address = true -> 0 <= port ->
  Forall (fun w => report_word w = true) rest ->
  Forall (fun w => report_word w = true) (report_words unknown user address (show_digits 5 10 port []) rest).
Proof.
  intros Hu Ha Hp Hrest. unfold report_words. rewrite !Forall_app.
  split_and!; [repeat constructor|destruct unknown; repeat constructor| |done].
  repeat constructor; [by apply plausible_report_word|done|apply show_digits_report_word; lia].
Qed.

Lemma user_of_report debug unknown user address port rest :
  plausible_username user = true -> user <> of_string "invalid" -> user <> of_string "user" ->
  Forall (fun w => report_word w = true) (report_words unknown user address port rest) ->
  extract_user debug (report_words unknown user address port rest) = (Some user, []).
Proof.
  intros Hu N1 N2 Hw. unfold extract_user, user_token. rewrite report_words_no_user by done.
  set (tail := user :: of_string "from" :: address :: of_string "port" :: port :: rest).
  assert (head (skip_words tail) = Some user) as Hs.
  { unfold tail. cbn [skip_words]. by rewrite (bool_decide_eq_false_2 _ N1), (bool_decide_eq_false_2 _ N2). }
  assert (after_token (of_string "for") (report_words unknown user address port rest) =
          Some ((if unknown then [of_string "invalid"; of_string "user"] else []) ++ tail)) as -> by reflexivity.
  cbn [mbind option_bind]. replace (head (skip_words _)) with (Some user) by (by destruct unknown).
  cbn [or_else]. by rewrite Hu.
Qed.

Lemma source_of_report debug unknown user address port rest a :
  user <> of_string "from" -> parse_ip address = Some a ->
  extract_source debug (report_words unknown user address port rest) = (Some a, parse_unsigned 65535 port, []).
Proof.
  intros N Ha. unfold extract_source.
  assert (after_token (of_string "from") (report_words unknown user address port rest) =
          Some (address :: of_string "port" :: port :: rest)) as ->.
  { transitivity (after_token (of_string "from") (user :: of_string "from" :: address :: of_string "port" :: port :: rest));
      [by destruct unknown|]. cbn [after_token]. by rewrite (bool_decide_eq_false_2 _ N). }
  by rewrite Ha.
Qed.

(** The account and the source that a report names are read back, whatever words follow them. *)
Lemma report_read debug unknown user address port rest a service log_source :
  let message := sshd_failure unknown user address (show_digits 5 10 port []) rest in
  plausible_username user = true -> user ∉ [of_string "invalid"; of_string "user"; of_string "from"] ->
  report_word address = true -> parse_ip address = Some a -> 0 <= port <= 65535 ->
  Forall (fun w => report_word w = true) rest -> text_len message <= MAX_MESSAGE ->
  parse_auth_message debug message service log_source =
    Some (mkAuthEvent Failure (Some user) ((fun s => (sanitise s MAX_FIELD).1) <$> service) (Some a) (Some port)
            message log_source []).
Proof.
  intros message Hu Hnot Ha Hip Hport Hrest Hlen. rewrite !not_elem_of_cons in Hnot. destruct Hnot as (N1 & N2 & N3 & _).
  pose proof (report_words_ok unknown user address port rest Hu Ha ltac:(lia) Hrest) as Hw.
  unfold parse_auth_message. rewrite sanitise_id; [|by apply report_words_no_control|done].
  unfold message. rewrite outcome_of_report. cbn [mbind option_bind]. unfold sshd_failure at 1 2.
  rewrite split_whitespace_unwords by (eapply Forall_impl; [exact Hw|]; intros ?; apply report_word_word).
  rewrite user_of_report by done. rewrite (source_of_report debug unknown user address _ rest a) by done.
  by rewrite parse_unsigned_show by (done || lia).
Qed.

(** Sshd's report of a failed password attempt, for a known or an unknown account, is read back exactly: for every plausible account name other than the words invalid, user and from, every address text that parses and every port, the event is a failure of that account from that address and that port, with the message as it was and nothing suspicious. *)
Theorem sshd_failure_read debug unknown user address port a service log_source :
  let message := sshd_failure unknown user address (show_digits 5 10 port []) [of_string "ssh2"] in
  plausible_username user = true -> user ∉ [of_string "invalid"; of_string "user"; of_string "from"] ->
  report_word address = true -> parse_ip address = Some a -> 0 <= port <= 65535 -> text_len message <= MAX_MESSAGE ->
  parse_auth_message debug message service log_source =
    Some (mkAuthEvent Failure (Some user) ((fun s => (sanitise s MAX_FIELD).1) <$> service) (Some a) (Some port)
            message log_source []).
Proof. intros message. intros. apply report_read; try done. by repeat constructor. Qed.

(** C33: A login chooses the source of the event it causes: whoever logs in under a name made of a plausible account, from, an address, port and a number is reported from that address and port, with nothing suspicious, wherever the attempt came from, because the first word from is taken. *)
Theorem login_name_forges_source debug unknown account forged forged_port true_address true_port a service log_source :
  let name := [account; of_string "from"; forged; of_string "port"; show_digits 5 10 forged_port []] in
  let message :=
    unwords ([of_string "Failed"; of_string "password"; of_string "for"] ++
             (if (unknown : bool) then [of_string "invalid"; of_string "user"] else []) ++ name ++
             [of_string "from"; true_address; of_string "port"; show_digits 5 10 true_port []; of_string "ssh2"]) in
  plausible_username account = true -> account ∉ [of_string "invalid"; of_string "user"; of_string "from"] ->
  report_word forged = true -> parse_ip forged = Some a -> 0 <= forged_port <= 65535 ->
  report_word true_address = true -> 0 <= true_port -> text_len message <= MAX_MESSAGE ->
  parse_auth_message debug message service log_source =
    Some (mkAuthEvent Failure (Some account) ((fun s => (sanitise s MAX_FIELD).1) <$> service) (Some a) (Some forged_port)
            message log_source []).
Proof.
  intros name message. intros.
  apply (report_read debug unknown account forged forged_port
    [of_string "from"; true_address; of_string "port"; show_digits 5 10 true_port []; of_string "ssh2"]); try done.
  repeat constructor; [done|apply show_digits_report_word; lia].
Qed.

(** ** Following a file *)

(** The characters of a plain log: ASCII, and no carriage return. *)
Definition plain_char (c : Z) : bool := (0 <=? c) && (c <? 128) && negb (c =? 13).

Definition plain (t : list Z) : Prop := Forall (fun c => plain_char c = true) t.

Definition no_newline (t : text) : Prop := Forall (fun c => c <> 10) t.

(** Every line of a text, the unfinished one included, fits. *)
Definition fits (t : text) : Prop := Forall (fun l => len l <= MAX_LINE) (split_char 10 t).

Lemma plain_utf8 t : plain t -> utf8_lossy t = t.
Proof.
  unfold utf8_lossy. induction 1 as [|c t Hc _ IH]; [done|]. cbn. unfold plain_char in Hc. bsimpl. zdec. by rewrite IH.
Qed.

Lemma plain_text_len t : plain t -> text_len t = len t.
Proof.
  induction 1 as [|c t Hc _ IH]; [done|]. rewrite text_len_cons, IH. unfold plain_char in Hc. bsimpl.
  unfold len_utf8. zdec. cbn [length]. lia.
Qed.

Lemma plain_no_cr t : plain t -> strip_suffix 13 t = None.
Proof.
  intros Ht. unfold strip_suffix, strip_prefix. destruct (reverse t) as [|c r] eqn:Er; [done|].
  assert (plain (c :: r)) as Hr by (rewrite <- Er; by apply Forall_reverse).
  apply Forall_cons in Hr as [Hc _]. unfold plain_char in Hc. bsimpl. by zdec.
Qed.

Lemma split_inclusive_line a b : no_newline a -> split_inclusive (a ++ 10 :: b) = (a, true) :: split_inclusive b.
Proof. induction 1 as [|c a Hc _ IH]; [done|]. cbn [app split_inclusive]. zdec. by rewrite IH. Qed.

Lemma split_inclusive_rest a : no_newline a -> a <> [] -> split_inclusive a = [(a, false)].
Proof.
  induction 1 as [|c a Hc Ha IH]; [done|]. intros _. cbn [split_inclusive]. zdec.
  destruct a as [|d a]; [done|]. by rewrite IH.
Qed.

Lemma newline_cases (t : text) : no_newline t \/ exists a b, t = a ++ 10 :: b /\ no_newline a.
Proof.
  induction t as [|c t IH]; [by left; constructor|]. destruct (decide (c = 10)) as [->|Hc].
  - right. exists [], t. split; [done|constructor].
  - destruct IH as [IH|(a & b & -> & Ha)]; [left; by constructor|right]. exists (c :: a), b. split; [done|by constructor].
Qed.

Lemma split_char_line a b : no_newline a -> split_char 10 (a ++ 10 :: b) = a :: split_char 10 b.
Proof. intros Ha. apply split_where_app; [|done]. eapply Forall_impl; [exact Ha|]. intros c Hc. apply Z.eqb_neq. congruence. Qed.

Lemma split_char_rest a : no_newline a -> split_char 10 a = [a].
Proof. intros Ha. apply split_where_one. eapply Forall_impl; [exact Ha|]. intros c Hc. apply Z.eqb_neq. congruence. Qed.

(** A text that goes on continues its last, unfinished line. *)
Lemma split_char_continue a b lines rest :
  split_char 10 a = lines ++ [rest] -> split_char 10 (a ++ b) = lines ++ split_char 10 (rest ++ b).
Proof.
  remember (length a) as n eqn:En. revert a lines En. induction (lt_wf n) as [n _ IH]. intros a lines -> E.
  destruct (newline_cases a) as [Ha|(l & a' & -> & Hl)].
  - rewrite split_char_rest in E by done. destruct lines as [|x lines]; [by injection E as ->|].
    injection E as -> E. by destruct lines.
  - rewrite split_char_line in E by done. destruct lines as [|x lines].
    + injection E as _ E. by destruct (split_where_nonempty (Z.eqb 10) a').
    + injection E as <- E. rewrite <- app_assoc. cbn [app]. rewrite split_char_line by done. f_equal.
      eapply IH; [|done|done]. rewrite length_app. cbn. lia.
Qed.

(** A piece of a plain log: complete lines leave, the unfinished one waits. *)
Lemma take_pieces t lines p o :
  plain t -> plain p -> no_newline p -> fits (p ++ t) ->
  exists new rest, foldl take_piece (lines, p, o) (split_inclusive t) = (lines ++ new, rest, o) /\
    split_char 10 (p ++ t) = new ++ [rest] /\ plain rest /\ no_newline rest.
Proof.
  remember (length t) as n eqn:En. revert t lines p En. induction (lt_wf n) as [n _ IH]. intros t lines p -> Ht Hp Hn Hf.
  destruct (newline_cases t) as [Ha|(a & b & -> & Ha)].
  - exists [], (p ++ t). rewrite app_nil_r, split_char_rest by (by apply Forall_app).
    split_and!; [|done|by apply Forall_app|by apply Forall_app].
    unfold fits in Hf. rewrite split_char_rest in Hf by (by apply Forall_app). apply Forall_inv in Hf. cbv beta in Hf.
    destruct t as [|c t]; [by rewrite app_nil_r|]. rewrite split_inclusive_rest by done. cbn [foldl take_piece].
    rewrite (plain_text_len p), (plain_text_len (c :: t)) by done. 
    rewrite length_app in Hf. zdec. done.
  - apply Forall_app in Ht as [Hta Htb]. apply Forall_cons in Htb as [_ Htb].
    unfold fits in Hf. rewrite app_assoc, split_char_line in Hf by (by apply Forall_app). apply Forall_cons in Hf as [Hl Hf]. cbv beta in Hl.
    rewrite split_inclusive_line by done. cbn [foldl take_piece]. rewrite plain_no_cr by done. cbn [unwrap_or].
    rewrite (plain_text_len (p ++ a)) by (by apply Forall_app). zdec.
    destruct (IH (length b)) with (t := b) (lines := lines ++ [p ++ a]) (p := @nil Z) as (new & rest & E1 & E2 & H1 & H2);
      [rewrite length_app; cbn; lia|done|done|constructor|constructor|done|].
    exists ((p ++ a) :: new), rest. rewrite E1, <- app_assoc. split_and!; [done| |done|done].
    rewrite app_assoc, split_char_line by (by apply Forall_app). cbn [app]. f_equal. exact E2.
Qed.

(** A log keeps fitting when it is cut. *)
Lemma fits_prefix a b : fits (a ++ b) -> fits a.
Proof.
  unfold fits. destruct (split_where_snoc (Z.eqb 10) a) as (lines & rest & E). change (split_where _ a) with (split_char 10 a) in E.
  rewrite (split_char_continue a b lines rest E), E. rewrite !Forall_app. intros [H1 H2]. split; [done|]. apply Forall_singleton.
  assert (no_newline rest) as Hn.
  { pose proof (split_where_parts (Z.eqb 10) a) as H. change (split_where _ a) with (split_char 10 a) in H.
    rewrite E, Forall_app in H. destruct H as [_ H]. apply Forall_inv in H. eapply Forall_impl; [exact H|].
    intros c Hc. cbv beta in Hc. apply Z.eqb_neq in Hc. congruence. }
  destruct (newline_cases b) as [Hb|(x & y & -> & Hx)].
  - rewrite split_char_rest in H2 by (by apply Forall_app). apply Forall_inv in H2. cbv beta in H2. rewrite length_app in H2. lia.
  - rewrite app_assoc, split_char_line in H2 by (by apply Forall_app). apply Forall_cons in H2 as [H2 _]. cbv beta in H2.
    rewrite length_app in H2. lia.
Qed.

(** A log that held [old] is followed: each round, bytes are appended and one read returns at most [limit] of them. *)
Definition round (id : option (Z * Z)) (old : list Z) (st : Tailer * list Z * list text) (r : list Z * Z) : Tailer * list Z * list text :=
  let '(t, added, seen) := st in
  let added := added ++ r.1 in
  let '(t, result) :=
    read_new_lines t (Examined_as (mkFileView (len (old ++ added)) id))
      (fun offset want => Some (take (Z.to_nat (Z.min r.2 want)) (drop (Z.to_nat offset) (old ++ added)))) in
  (t, added, seen ++ match result with inr lines => lines | inl _ => [] end).

Definition follow (id : option (Z * Z)) (old : list Z) (t : Tailer) (rounds : list (list Z * Z)) : Tailer * list Z * list text :=
  foldl (round id old) (t, [], []) rounds.

Section following.
Context (id : option (Z * Z)) (old : list Z).

(** How much of what was added has been read. *)
Definition read_so_far (t : Tailer) : Z := tl_offset t - len old.

(** The reader has handed out the complete lines of the part it has read, and holds the rest. *)
Record following (t : Tailer) (added : list Z) (seen : list text) : Prop := {
  fo_identity : tl_identity t = id;
  fo_offset : 0 <= read_so_far t <= len added;
  fo_lines : split_char 10 (take (Z.to_nat (read_so_far t)) added) = seen ++ [tl_pending t];
  fo_pending : plain (tl_pending t) /\ no_newline (tl_pending t);
  fo_counters : tl_rotations t = 0 /\ tl_oversized t = 0
}.

Lemma drop_old n added : 0 <= n -> drop (Z.to_nat (len old + n)) (old ++ added) = drop (Z.to_nat n) added.
Proof. intros Hn. rewrite Z2Nat.inj_add, Nat2Z.id by lia. by rewrite <- drop_drop, drop_app_length. Qed.

Lemma round_following t added seen r :
  following t added seen -> plain (added ++ r.1) -> fits (added ++ r.1) -> 0 <= r.2 -> len (old ++ added ++ r.1) <= U64_MAX ->
  let '(t', added', seen') := round id old (t, added, seen) r in
  added' = added ++ r.1 /\ following t' added' seen' /\
  read_so_far t' = Z.min (len added') (read_so_far t + Z.min r.2 (1024 * 1024)).
Proof.
  intros [Hi Ho Hl [Hp1 Hp2] [Hr Hv]] Hplain Hfits Hlim Hmax. destruct r as [more limit]. cbn [fst snd] in *.
  set (added' := added ++ more) in *. assert (len added <= len added') by (unfold added'; rewrite length_app; lia).
  unfold round. cbn [fst snd]. fold added'. unfold read_new_lines. rewrite !length_app, Nat2Z.inj_add in *.
  assert (exists n, tl_offset t = len old + n /\ read_so_far t = n /\ 0 <= n <= len added) as (n & En & En' & Hn)
    by (exists (read_so_far t); unfold read_so_far in *; lia).
  rewrite En' in *. assert (Htake : take (Z.to_nat n) added' = take (Z.to_nat n) added) by (unfold added'; rewrite take_app_le by lia; done).
  assert (rotated t (mkFileView (len old + len added') id) = false) as ->.
  { unfold rotated. cbn [fv_len fv_identity]. rewrite Hi, (bool_decide_eq_true_2 (id = id)) by done.
    zdec. by rewrite andb_false_r. }
  cbn [fv_len fv_identity]. rewrite En. destruct (Z.eqb_spec (len old + len added') (len old + n)) as [E|E].
  - rewrite app_nil_r. split_and!; [done| |unfold read_so_far; cbn; lia].
    constructor; unfold read_so_far; cbn; replace (len old + n - len old) with n by lia; [done|lia|by rewrite Htake|done|done].
  - set (want := wanted _ _). assert (Hw : want = Z.min (len added' - n) (1024 * 1024))
      by (unfold want, wanted, sat_sub; cbn [fv_len]; lia).
    rewrite drop_old by lia. set (chunk := take _ (drop _ added')).
    assert (Hc : take (Z.to_nat n) added ++ chunk = take (Z.to_nat (n + Z.min limit want)) added').
    { rewrite <- Htake. unfold chunk. rewrite take_take_drop. f_equal. lia. }
    assert (len chunk = Z.min limit want) by (unfold chunk; rewrite length_take, length_drop; lia).
    assert (plain chunk) by (by apply Forall_take, Forall_drop).
    assert (fits (tl_pending t ++ chunk)) as Hfc.
    { assert (fits (take (Z.to_nat n) added ++ chunk)) as Hx
        by (rewrite Hc; eapply (fits_prefix _ (drop _ added')); by rewrite take_drop).
      unfold fits in *. rewrite (split_char_continue _ _ _ _ Hl) in Hx. by apply Forall_app in Hx as [_ ?]. }
    rewrite plain_utf8 by done.
    destruct (take_pieces chunk [] (tl_pending t) (tl_oversized t)) as (new & rest & E1 & E2 & H3 & H4); [done..|].
    rewrite E1. cbn [app]. assert (sat_add (len old + n) (len chunk) = len old + (n + Z.min limit want)) as -> by (unfold sat_add; lia).
    split_and!; [done| |unfold read_so_far; cbn [tl_offset]; lia].
    constructor; unfold read_so_far; cbn [tl_identity tl_offset tl_pending tl_rotations tl_oversized];
      replace (len old + (n + Z.min limit want) - len old) with (n + Z.min limit want) by lia; [done|lia| |done|done].
    rewrite <- Hc, (split_char_continue _ _ _ _ Hl), E2, app_assoc. done.
Qed.

Lemma follow_following t added rounds seen :
  following t added seen -> let '(t', added', seen') := foldl (round id old) (t, added, seen) rounds in
  plain added' -> fits added' -> Forall (fun r => 0 <= r.2) rounds -> len (old ++ added') <= U64_MAX ->
  added' = added ++ concat rounds.*1 /\ following t' added' seen'.
Proof.
  revert t added seen. induction rounds as [|r rounds IH] using rev_ind; intros t added seen Hf;
    [cbn; rewrite app_nil_r; done|].
  rewrite foldl_snoc. specialize (IH t added seen Hf).
  destruct (foldl (round id old) (t, added, seen) rounds) as [[t1 c1] s1] eqn:E1.
  destruct (round id old (t1, c1, s1) r) as [[t2 c2] s2] eqn:E2. intros Hp Hfi Hr Hm.
  assert (c2 = c1 ++ r.1) as -> by (unfold round in E2; destruct (read_new_lines _ _ _); by simplify_eq).
  rewrite Forall_app in Hr. destruct Hr as [Hr Hr2]. apply Forall_inv in Hr2.
  destruct IH as [Hc1 Hf1]; [by apply Forall_app in Hp as [? _]|by eapply fits_prefix|done|rewrite !length_app in *; lia|].
  pose proof (round_following t1 c1 s1 r Hf1 Hp Hfi Hr2 Hm) as H. rewrite E2 in H. destruct H as (_ & H & _).
  split; [|done]. rewrite fmap_app, concat_app, Hc1. cbn. by rewrite app_nil_r, app_assoc.
Qed.

(** A reader begins at the end of the log. *)
Lemma tailer_new_following : following (tailer_new (Some (mkFileView (len old) id))) [] [].
Proof. constructor; unfold read_so_far; cbn; try done; [lia|by rewrite take_nil|split; constructor]. Qed.

(** C32: what is appended to a log of plain lines is read once and in order. Let the sensor begin to follow a log that is not replaced or truncated, and let only ASCII without carriage returns be appended, in lines within the limit. However the bytes arrive, and however much each read returns, the lines handed out together with the one held back are the lines of what was read of them so far, nothing the log held before among them; none is counted oversized, no rotation is seen, and a read that is not cut short and has at most a mebibyte to read leaves nothing unread. (A line that is too long, and a carriage return cut from its newline, are read otherwise: [oversized_tail_is_a_line], [split_crlf_keeps_return].) *)
Theorem follow_exact rounds :
  let '(t, added, seen) := follow id old (tailer_new (Some (mkFileView (len old) id))) rounds in
  plain added -> fits added -> Forall (fun r => 0 <= r.2) rounds -> len (old ++ added) <= U64_MAX ->
  added = concat rounds.*1 /\ 0 <= read_so_far t <= len added /\
  split_char 10 (take (Z.to_nat (read_so_far t)) added) = seen ++ [tl_pending t] /\
  tl_oversized t = 0 /\ tl_rotations t = 0 /\
  (len added - read_so_far t <= 1024 * 1024 ->
   let '(t', _, seen') := round id old (t, added, seen) ([], len added) in
   split_char 10 added = seen' ++ [tl_pending t']).
Proof.
  unfold follow. pose proof (follow_following _ [] rounds [] tailer_new_following) as H.
  destruct (foldl _ _ rounds) as [[t added] seen]. intros Hp Hfi Hr Hm. destruct (H Hp Hfi Hr Hm) as [Hc Hf]. clear H.
  destruct Hf as [Hi Ho Hl Hpe [Hro Hov]] eqn:Ef. clear Ef. split_and!; [done|lia|lia|done|done|done|]. intros Hrest.
  pose proof (round_following t added seen ([], len added) Hf) as H. cbn [fst snd] in H. rewrite app_nil_r in H.
  specialize (H Hp Hfi ltac:(lia) Hm). destruct (round _ _ _ _) as [[t' c'] s']. destruct H as (-> & Hf' & Eo).
  rewrite <- (fo_lines _ _ _ Hf'). f_equal. rewrite take_ge by lia. done.
Qed.
End following.

(** The tail of an oversized line that spans two reads becomes a line of its own: when a read brings more than the longest line without a newline, what the next read brings up to the newline is handed out as if a record began there. *)
Theorem oversized_tail_is_a_line t id head tail :
  plain head -> no_newline head -> plain tail -> no_newline tail -> tl_identity t = id -> tl_pending t = [] ->
  0 <= tl_offset t -> MAX_LINE < len head <= 1024 * 1024 -> len tail < MAX_LINE -> tl_offset t <= U32_MAX ->
  let start := tl_offset t in
  let '(t1, r1) := read_new_lines t (Examined_as (mkFileView (start + len head) id)) (fun _ _ => Some head) in
  let '(t2, r2) := read_new_lines t1 (Examined_as (mkFileView (start + len head + len tail + 1) id)) (fun _ _ => Some (tail ++ [10])) in
  r1 = inr [] /\ r2 = inr [tail] /\ tl_oversized t2 = tl_oversized t + 1.
Proof.
  intros Hh Hhn Ht Htn Hi Hpe Hs Hlen Htl Hu start. unfold MAX_LINE, U32_MAX in *.
  unfold read_new_lines at 1, rotated. cbn [fv_len fv_identity]. rewrite Hi, (bool_decide_eq_true_2 (id = id)) by done.
  unfold start. zdec. rewrite andb_false_r, Hpe. cbn [orb].
  rewrite plain_utf8, split_inclusive_rest by (done || (intros ->; cbn in *; lia)). cbn [foldl take_piece app].
  rewrite (plain_text_len head) by done. change (text_len []) with 0. unfold MAX_LINE. zdec.
  unfold read_new_lines, rotated. cbn [fv_len fv_identity tl_identity tl_offset tl_pending tl_oversized].
  rewrite (bool_decide_eq_true_2 (id = id)) by done. unfold sat_add, U64_MAX. zdec. rewrite andb_false_r. cbn [orb].
  zdec. rewrite plain_utf8 by (apply Forall_app; split; [done|by repeat constructor]).
  rewrite split_inclusive_line by done. cbn [split_inclusive foldl take_piece app]. rewrite plain_no_cr by done. cbn [unwrap_or].
  rewrite (plain_text_len tail) by done. unfold MAX_LINE. zdec. done.
Qed.

(** A carriage return whose newline arrives with the next read stays in the line, though it is removed when both arrive together. *)
Theorem split_crlf_keeps_return :
  let line := of_string "abc" in
  let t := from_start (Some (mkFileView 0 None)) in
  let whole := read_new_lines t (Examined_as (mkFileView 5 None)) (fun _ _ => Some (line ++ [13; 10])) in
  let first := read_new_lines t (Examined_as (mkFileView 4 None)) (fun _ _ => Some (line ++ [13])) in
  let second := read_new_lines first.1 (Examined_as (mkFileView 5 None)) (fun _ _ => Some [10]) in
  whole.2 = inr [line] /\ first.2 = inr [] /\ second.2 = inr [line ++ [13]].
Proof. vm_compute. done. Qed.

(** ** The hypotheses can hold *)

Definition quote (t : text) : text := [34] ++ t ++ [34].

(** The event of a report with an escape sequence in place of the account. *)
Definition hostile_message : text :=
  of_string "Failed password for " ++ [27] ++ of_string "[2Jroot from 203.0.113.7 port 51000 ssh2".

Definition hostile_event : option AuthEvent := parse_auth_message quote hostile_message (Some (of_string "sshd")) (of_string "journal").

Lemma auth_event_clean_witness :
  exists e, hostile_event = Some e /\ no_control (auth_message e) /\ auth_suspicious e <> [].
Proof.
  destruct hostile_event as [e|] eqn:E; [|discriminate E]. exists e. split; [done|].
  destruct (auth_event_clean quote hostile_message (Some (of_string "sshd")) (of_string "journal") e E) as (H1 & _ & H2 & _).
  split; [exact H1|]. apply H2. intros Hm. injection E as <-. discriminate Hm.
Defined.

Lemma sshd_failure_read_witness :
  let message := sshd_failure true (of_string "admin") (of_string "203.0.113.7") (show_digits 5 10 51000 []) [of_string "ssh2"] in
  parse_auth_message quote message (Some (of_string "sshd")) (of_string "journal") =
    Some (mkAuthEvent Failure (Some (of_string "admin")) (Some (of_string "sshd")) (Some (V4 0xcb007107)) (Some 51000)
            message (of_string "journal") []).
Proof.
  apply (sshd_failure_read quote true (of_string "admin") (of_string "203.0.113.7") 51000 (V4 0xcb007107)
           (Some (of_string "sshd")) (of_string "journal")); try reflexivity; [|lia|vm_compute; discriminate].
  intros Hin. rewrite !elem_of_cons, elem_of_nil in Hin. destruct Hin as [E|[E|[E|[]]]]; discriminate E.
Defined.

Lemma login_name_forges_source_witness :
  let message := of_string "Failed password for invalid user admin from 10.0.0.1 port 22 from 203.0.113.7 port 51000 ssh2" in
  parse_auth_message quote message None (of_string "journal") =
    Some (mkAuthEvent Failure (Some (of_string "admin")) None (Some (V4 0x0a000001)) (Some 22) message (of_string "journal") []).
Proof.
  apply (login_name_forges_source quote true (of_string "admin") (of_string "10.0.0.1") 22 (of_string "203.0.113.7") 51000
           (V4 0x0a000001) None (of_string "journal")); try reflexivity; [|lia|lia|vm_compute; discriminate].
  intros Hin. rewrite !elem_of_cons, elem_of_nil in Hin. destruct Hin as [E|[E|[E|[]]]]; discriminate E.
Defined.

Definition small_rounds : list (list Z * Z) :=
  [(of_string "first li", 5); (of_string "ne" ++ [10] ++ of_string "sec", 100); ([], 100); (of_string "ond", 2)].

Lemma follow_exact_witness :
  let old := of_string "what was there" ++ [10] in
  let '(t, added, seen) := follow (Some (1, 2)) old (tailer_new (Some (mkFileView (len old) (Some (1, 2))))) small_rounds in
  seen = [of_string "first line"] /\ tl_pending t = of_string "secon" /\
  split_char 10 (take (Z.to_nat (read_so_far old t)) added) = seen ++ [tl_pending t].
Proof.
  destruct (follow_exact (Some (1, 2)) (of_string "what was there" ++ [10]) small_rounds) as (_ & _ & H & _);
    [repeat constructor|repeat constructor; vm_compute; discriminate| |vm_compute; discriminate|].
  - repeat constructor; vm_compute; discriminate.
  - split; [reflexivity|]. split; [reflexivity|]. exact H.
Defined.

Definition long_head : text := repeat 97 (Z.to_nat (MAX_LINE + 1)).

Lemma oversized_tail_is_a_line_witness :
  let t := from_start (Some (mkFileView 0 None)) in
  let tail := of_string "Jan 1 0:0:0 h sshd: Accepted password for root from 10.0.0.1 port 22" in
  let '(t1, r1) := read_new_lines t (Examined_as (mkFileView (0 + len long_head) None)) (fun _ _ => Some long_head) in
  let '(t2, r2) := read_new_lines t1 (Examined_as (mkFileView (0 + len long_head + len tail + 1) None)) (fun _ _ => Some (tail ++ [10])) in
  r1 = inr [] /\ r2 = inr [tail] /\ tl_oversized t2 = 1.
Proof.
  assert (forall P : Z -> Prop, P 97 -> Forall P long_head) as Hh
    by (intros P H; unfold long_head; induction (Z.to_nat (MAX_LINE + 1)); constructor; assumption).
  assert (len long_head = MAX_LINE + 1) as Hl by (unfold long_head; rewrite repeat_length; reflexivity).
  apply (oversized_tail_is_a_line (from_start (Some (mkFileView 0 None))) None long_head
           (of_string "Jan 1 0:0:0 h sshd: Accepted password for root from 10.0.0.1 port 22")).
  - apply Hh. reflexivity.
  - apply Hh. discriminate.
  - apply (bool_decide_unpack _). vm_compute. exact I.
  - apply (bool_decide_unpack _). vm_compute. exact I.
  - reflexivity.
  - reflexivity.
  - discriminate.
  - rewrite Hl. split; [reflexivity|discriminate].
  - reflexivity.
  - discriminate.
Defined.
