(* ===== verification/Fim.v ===== *)
(** File integrity monitoring: [crates/hids/src/fim.rs].

    The filesystem is an input of each operation: a function from paths to what examining them gives.
    A walk and the inspections that follow it may see different filesystems. Paths are bytes, ordered
    and compared by their components as [Path] is; the baseline and the events name a file by the text
    of its path, in which what is not UTF-8 is replaced. The SQLite database of the baseline is the class
    [Sqlite], one operation per statement of the source, each of which may fail; [SqliteLaws] states
    what SQLite documents of those statements, and [map_sqlite] is an instance. SHA-256 is the
    argument [sha256_hex]. *)

From S2P Require Import Prelude Text Net Event Ordered.

(** ** Paths *)

(** [std::path::Component], coded so that the order of the codes is the order of the components. *)
Definition component_code (segment : text) : list Z :=
  if bool_decide (segment = of_string ".") then [1]
  else if bool_decide (segment = of_string "..") then [2]
  else 3 :: segment.

(** [Path::components]: repeated separators and the dots after the first segment are skipped. *)
Definition components (path : text) : list (list Z) :=
  let segments := split_char 47 path in
  let keep := filter (fun s => s <> [] /\ s <> of_string ".") in
  if starts_with path [47] then [0] :: (component_code <$> keep segments)
  else match segments with
       | first :: rest => component_code <$> (filter (fun s => s <> []) [first] ++ keep rest)
       | [] => []
       end.

Definition path_compare (p q : text) : comparison :=
  lex_compare (lex_compare Z.compare) (components p) (components q).

(** [Path::starts_with]. *)
Definition path_starts_with (path root : text) : bool := bool_decide (take (length (components root)) (components path) = components root).

(** [BTreeSet::insert] of a path. *)
Fixpoint path_insert (p : text) (l : list text) : list text :=
  match l with
  | [] => [p]
  | q :: l' => match path_compare p q with Eq => l | Lt => p :: l | Gt => q :: path_insert p l' end
  end.

(** [Path::to_string_lossy]. *)
Definition to_string_lossy (path : text) : text := utf8_lossy path.

(** ** Settings and files *)

Definition DEFAULT_MAX_FILE_BYTES : Z := 64 * 1024 * 1024.
Definition DEFAULT_MAX_DEPTH : Z := 16.
Definition DEFAULT_MAX_ENTRIES : Z := 50000.
Definition DEFAULT_RESCAN_INTERVAL : Z := secs 3600.

Record FimSettings := mkFimSettings {
  fs_paths : list text;
  fs_baseline_path : option text;
  fs_rescan_interval : Z;
  fs_max_file_bytes : Z;
  fs_max_depth : Z;
  fs_max_entries : Z
}.

Definition FimSettings_default : FimSettings :=
  mkFimSettings [] None DEFAULT_RESCAN_INTERVAL DEFAULT_MAX_FILE_BYTES DEFAULT_MAX_DEPTH DEFAULT_MAX_ENTRIES.

Record FileRecord := mkFileRecord {
  fr_sha256 : option text;
  fr_size : Z;
  fr_mode : Z;
  fr_uid : Z;
  fr_gid : Z
}.

(** What the filesystem says of a path: [content] is [None] when reading it fails, a directory that
    cannot be listed has no entries, and an entry may fail to be read. *)
Inductive Node :=
| NoEntry
| NoAccess
| Regular (content : option (list Z)) (size mode uid gid : Z)
| SymbolicLink
| Directory (entries : option (list (option text)))
| Special.

Definition Filesystem := text -> Node.

Section inspect.
Context (sha256_hex : list Z -> text).

(** [hash_file]: the chunks are hashed one after the other. *)
Definition hash_file (content : option (list Z)) : option text := sha256_hex <$> content.

(** [inspect]; the left value is an error other than a missing file. *)
Definition inspect (fs : Filesystem) (path : text) (max_file_bytes : Z) : unit + option FileRecord :=
  match fs path with
  | NoEntry => inr None
  | NoAccess => inl tt
  | Regular content size mode uid gid =>
      inr (Some (mkFileRecord (if size <=? max_file_bytes then hash_file content else None) size mode uid gid))
  | SymbolicLink | Directory _ | Special => inr None
  end.
End inspect.

(** ** The baseline *)

Record Row := mkRow {
  row_hash : option text;
  row_size : Z;
  row_mode : Z;
  row_uid : Z;
  row_gid : Z
}.

(** The statements of the source; [None] when one fails. *)
Class Sqlite := {
  Store : Type;
  sql_get : Store -> text -> option (option Row);
  sql_put : Store -> text -> Row -> option Store;
  sql_remove : Store -> text -> option Store;
  sql_like : Store -> text -> option (list text);
  sql_count : Store -> option Z
}.

Definition I64_MAX : Z := 2 ^ 63 - 1.

Definition row_record (r : Row) : FileRecord :=
  mkFileRecord (row_hash r) (Z.abs (row_size r)) (row_mode r) (row_uid r) (row_gid r).

Definition record_row (r : FileRecord) : Row :=
  mkRow (fr_sha256 r) (Z.min I64_MAX (fr_size r)) (fr_mode r) (fr_uid r) (fr_gid r).

(** The escaping of [paths_under], one [replace] after the other. *)
Definition replace (c : Z) (by_ : text) (t : text) : text := mjoin ((fun x => if x =? c then by_ else [x]) <$> t).

Definition like_pattern (prefix : text) : text :=
  replace 95 [92; 95] (replace 37 [92; 37] (replace 92 [92; 92] prefix)) ++ [37].

Section baseline.
Context `{Sqlite}.

Definition baseline_get (s : Store) (path : text) : unit + option FileRecord :=
  match sql_get s path with Some row => inr (row_record <$> row) | None => inl tt end.

Definition baseline_put (s : Store) (path : text) (r : FileRecord) : unit + Store :=
  match sql_put s path (record_row r) with Some s => inr s | None => inl tt end.

Definition baseline_remove (s : Store) (path : text) : unit + Store :=
  match sql_remove s path with Some s => inr s | None => inl tt end.

Definition paths_under (s : Store) (prefix : text) : unit + list text :=
  match sql_like s (like_pattern prefix) with Some l => inr l | None => inl tt end.

Definition baseline_len (s : Store) : unit + Z :=
  match sql_count s with Some n => inr (Z.abs n) | None => inl tt end.

Definition baseline_is_empty (s : Store) : unit + bool :=
  match baseline_len s with inr n => inr (n =? 0) | inl e => inl e end.
End baseline.

(** [LIKE] with the escape character of the source, as SQLite documents it: a percent sign stands for
    any text, an underscore for any character, letters match without regard to ASCII case. *)
Definition same_letter (a b : Z) : bool := to_ascii_lowercase a =? to_ascii_lowercase b.

Fixpoint like (pattern : text) : text -> bool :=
  match pattern with
  | [] => fun t => bool_decide (t = [])
  | c :: pattern' =>
      if c =? 37 then
        fix any (t : text) : bool := like pattern' t || match t with [] => false | _ :: t' => any t' end
      else if c =? 95 then fun t => match t with [] => false | _ :: t' => like pattern' t' end
      else if c =? 92 then
        match pattern' with
        | [] => fun _ => false
        | e :: pattern'' => fun t => match t with x :: t' => same_letter e x && like pattern'' t' | [] => false end
        end
      else fun t => match t with x :: t' => same_letter c x && like pattern' t' | [] => false end
  end.

(** What SQLite documents of the statements, for a database with the rows [rows]. *)
Class SqliteLaws `{Sqlite} := {
  rows : Store -> gmap text Row;
  sql_get_rows s path r : sql_get s path = Some r -> r = rows s !! path;
  sql_put_rows s path row s' : sql_put s path row = Some s' -> rows s' = <[path := row]> (rows s);
  sql_remove_rows s path s' : sql_remove s path = Some s' -> rows s' = delete path (rows s);
  sql_like_rows s pattern l :
    sql_like s pattern = Some l -> NoDup l /\ forall path, path ∈ l <-> is_Some (rows s !! path) /\ like pattern path = true;
  sql_count_rows s n : sql_count s = Some n -> n = Z.of_nat (size (rows s))
}.

(** ** Walking *)

Record WalkLimits := mkWalkLimits {
  wl_over_entry_limit : Z;
  wl_over_depth_limit : Z;
  wl_unreadable : Z;
  wl_symlinks_skipped : Z;
  wl_abandoned : bool
}.

Definition WalkLimits_default : WalkLimits := mkWalkLimits 0 0 0 0 false.

Definition truncated (l : WalkLimits) : bool :=
  wl_abandoned l || (0 <? wl_over_entry_limit l) || (0 <? wl_over_depth_limit l) || (0 <? wl_unreadable l).

Definition over_entry (l : WalkLimits) : WalkLimits :=
  mkWalkLimits (wl_over_entry_limit l + 1) (wl_over_depth_limit l) (wl_unreadable l) (wl_symlinks_skipped l) (wl_abandoned l).
Definition over_depth (l : WalkLimits) : WalkLimits :=
  mkWalkLimits (wl_over_entry_limit l) (wl_over_depth_limit l + 1) (wl_unreadable l) (wl_symlinks_skipped l) (wl_abandoned l).
Definition unreadable (n : Z) (l : WalkLimits) : WalkLimits :=
  mkWalkLimits (wl_over_entry_limit l) (wl_over_depth_limit l) (wl_unreadable l + n) (wl_symlinks_skipped l) (wl_abandoned l).
Definition symlink_skipped (l : WalkLimits) : WalkLimits :=
  mkWalkLimits (wl_over_entry_limit l) (wl_over_depth_limit l) (wl_unreadable l) (wl_symlinks_skipped l + 1) (wl_abandoned l).
Definition abandoned (l : WalkLimits) : WalkLimits :=
  mkWalkLimits (wl_over_entry_limit l) (wl_over_depth_limit l) (wl_unreadable l) (wl_symlinks_skipped l) true.

(** [resolve_roots]; [canonicalize] is what the filesystem makes of a path. *)
Definition resolve_root (canonicalize : text -> option text) (st : list text * list (text * text)) (path : text) :
    list text * list (text * text) :=
  let '(resolved, collapsed) := st in
  let target := unwrap_or path (canonicalize path) in
  match List.find (fun kept => bool_decide (components kept = components target)) resolved with
  | Some existing => (resolved, collapsed ++ [(path, existing)])
  | None => (resolved ++ [target], collapsed)
  end.

Definition resolve_roots (canonicalize : text -> option text) (paths : list text) : list text * list (text * text) :=
  foldl (resolve_root canonicalize) ([], []) paths.

Definition listed (entries : list (option text)) : list text := omap id entries.
Definition failed (entries : list (option text)) : Z := len (filter (fun e => e = None) entries).

Section walk.
Context (fs : Filesystem) (settings : FimSettings).

(** One turn of the loop of [walk]: the new state, and the paths that are pushed. *)
Definition visit (path : text) (depth : Z) (st : list text * WalkLimits) : list text * WalkLimits * list text :=
  let '(found, limits) := st in
  match fs path with
  | NoEntry | NoAccess => (found, unreadable 1 limits, [])
  | SymbolicLink => (found, symlink_skipped limits, [])
  | Regular _ _ _ _ _ =>
      if fs_max_entries settings <=? len found then (found, over_entry limits, [])
      else (path_insert path found, limits, [])
  | Special => (found, limits, [])
  | Directory entries =>
      if fs_max_depth settings <=? depth then (found, over_depth limits, [])
      else
        match entries with
        | None => (found, unreadable 1 limits, [])
        | Some entries => (found, unreadable (failed entries) limits, listed entries)
        end
  end.

(** The loop over the stack, whose top is the head of the list; [None] when the fuel runs out. *)
Fixpoint walk_loop (fuel : nat) (stack : list (text * Z)) (st : list text * WalkLimits) : option (list text * WalkLimits) :=
  match stack with
  | [] => Some st
  | (path, depth) :: stack =>
      match fuel with
      | O => None
      | S fuel =>
          let '(found, limits, pushed) := visit path depth st in
          walk_loop fuel (((fun p => (p, depth + 1)) <$> reverse pushed) ++ stack) (found, limits)
      end
  end.

(** [walk] with the loop as it is written, bounded by [fuel] turns for each root. *)
Definition walk_with (fuel : nat) (roots : list text) : option (list text * WalkLimits) :=
  foldl (fun st root => st ← st; walk_loop fuel [(root, 0)] st) (Some ([], WalkLimits_default)) roots.

(** The same walk by recursion on the depth that is left: the entries of a directory in the reverse
    of their order, each with all that is below it ([walk_loop_is_walk] below). *)
Fixpoint walk_tree (budget : nat) (path : text) (depth : Z) (st : list text * WalkLimits) : list text * WalkLimits :=
  let '(found, limits, pushed) := visit path depth st in
  match budget with
  | O => (found, limits)
  | S budget => foldl (fun st p => walk_tree budget p (depth + 1) st) (found, limits) (reverse pushed)
  end.

Definition walk (roots : list text) : list text * WalkLimits :=
  foldl (fun st root => walk_tree (Z.to_nat (fs_max_depth settings)) root 0 st) ([], WalkLimits_default) roots.
End walk.

(** ** Comparing *)

(** [difference]. *)
Definition file_event (path : text) (current : FileRecord) (detected_by : FimDetection) (change : FileChange)
    (previous_sha256 : option text) : FimEvent :=
  mkFimEvent path change detected_by (Some (fr_size current)) (fr_sha256 current) previous_sha256 (Some (fr_mode current))
    (Some (fr_uid current)) (Some (fr_gid current)).

Definition content_changed (previous current : FileRecord) : bool :=
  match fr_sha256 previous, fr_sha256 current with
  | Some before, Some after => negb (bool_decide (before = after))
  | _, _ => negb (fr_size previous =? fr_size current)
  end.

Definition attributes_changed (previous current : FileRecord) : bool :=
  negb (fr_mode previous =? fr_mode current) || negb (fr_uid previous =? fr_uid current) ||
  negb (fr_gid previous =? fr_gid current).

Definition difference (path : text) (previous : option FileRecord) (current : FileRecord) (detected_by : FimDetection) :
    option FimEvent :=
  match previous with
  | None => Some (file_event path current detected_by Created None)
  | Some previous =>
      if content_changed previous current then Some (file_event path current detected_by Modified (fr_sha256 previous))
      else if attributes_changed previous current
      then Some (file_event path current detected_by AttributesChanged (fr_sha256 previous))
      else None
  end.

Definition deleted_event (path : text) (detected_by : FimDetection) (previous : option FileRecord) : FimEvent :=
  mkFimEvent path Deleted detected_by None None (previous ≫= fr_sha256) None None None.

(** ** The monitor *)

Section monitor.
Context `{Sqlite} (sha256_hex : list Z -> text).

Record Monitor := mkMonitor {
  mo_settings : FimSettings;
  mo_baseline : Store;
  mo_establishing : bool
}.

Definition monitor_new (settings : FimSettings) (baseline : Store) : Monitor :=
  mkMonitor settings baseline (match baseline_is_empty baseline with inr b => b | inl _ => true end).

Definition set_baseline (m : Monitor) (s : Store) : Monitor := mkMonitor (mo_settings m) s (mo_establishing m).

Record RescanOutcome := mkRescanOutcome {
  ro_events : list FimEvent;
  ro_files_seen : Z;
  ro_limits : WalkLimits
}.

Definition add_event (o : RescanOutcome) (e : FimEvent) : RescanOutcome :=
  mkRescanOutcome (ro_events o ++ [e]) (ro_files_seen o) (ro_limits o).

(** The body of the loop over the walked paths; the left value is a database error. *)
Definition compare_file (now : Filesystem) (detected_by : FimDetection) (m : Monitor) (o : RescanOutcome) (path : text) :
    Monitor * (unit + RescanOutcome) :=
  let key := to_string_lossy path in
  let o := mkRescanOutcome (ro_events o) (ro_files_seen o + 1) (ro_limits o) in
  match inspect sha256_hex now path (fs_max_file_bytes (mo_settings m)) with
  | inr None => (m, inr o)
  | inl _ => (m, inr (mkRescanOutcome (ro_events o) (ro_files_seen o) (unreadable 1 (ro_limits o))))
  | inr (Some current) =>
      match baseline_get (mo_baseline m) key with
      | inl e => (m, inl e)
      | inr previous =>
          match baseline_put (mo_baseline m) key current with
          | inl e => (m, inl e)
          | inr s =>
              (set_baseline m s,
               inr (if mo_establishing m then o
                    else match difference key previous current detected_by with Some e => add_event o e | None => o end))
          end
      end
  end.

(** How the loop ended. *)
Inductive Scan := ScanFailed | ScanAbandoned (o : RescanOutcome) | ScanDone (o : RescanOutcome).

(** [continue] is [should_continue], one answer for each call; there is a call before each file. *)
Fixpoint compare_files (now : Filesystem) (detected_by : FimDetection) (continue : list bool) (m : Monitor)
    (o : RescanOutcome) (paths : list text) : Monitor * Scan :=
  match paths with
  | [] => (m, ScanDone o)
  | path :: paths =>
      if negb (default true (head continue))
      then (m, ScanAbandoned (mkRescanOutcome (ro_events o) (ro_files_seen o) (abandoned (ro_limits o))))
      else
        match compare_file now detected_by m o path with
        | (m, inl _) => (m, ScanFailed)
        | (m, inr o) => compare_files now detected_by (tail continue) m o paths
        end
  end.

(** The pass over what the baseline knows under one root. *)
Fixpoint forget_unseen (detected_by : FimDetection) (seen : list text) (m : Monitor) (o : RescanOutcome) (known : list text) :
    Monitor * (unit + RescanOutcome) :=
  match known with
  | [] => (m, inr o)
  | path :: known =>
      if bool_decide (path ∈ seen) then forget_unseen detected_by seen m o known
      else
        match baseline_get (mo_baseline m) path with
        | inl e => (m, inl e)
        | inr previous =>
            match baseline_remove (mo_baseline m) path with
            | inl e => (m, inl e)
            | inr s => forget_unseen detected_by seen (set_baseline m s) (add_event o (deleted_event path detected_by previous)) known
            end
        end
  end.

Fixpoint forget_under (detected_by : FimDetection) (seen : list text) (m : Monitor) (o : RescanOutcome) (roots : list text) :
    Monitor * (unit + RescanOutcome) :=
  match roots with
  | [] => (m, inr o)
  | root :: roots =>
      match paths_under (mo_baseline m) root with
      | inl e => (m, inl e)
      | inr known =>
          match forget_unseen detected_by seen m o known with
          | (m, inl e) => (m, inl e)
          | (m, inr o) => forget_under detected_by seen m o roots
          end
      end
  end.

(** [rescan_until]: the walk sees [fs], the inspections see [now]. *)
Definition rescan_until (fs now : Filesystem) (detected_by : FimDetection) (continue : list bool) (m : Monitor) :
    Monitor * (unit + RescanOutcome) :=
  let '(paths, limits) := walk fs (mo_settings m) (fs_paths (mo_settings m)) in
  match compare_files now detected_by continue m (mkRescanOutcome [] 0 limits) paths with
  | (m, ScanFailed) => (m, inl tt)
  | (m, ScanAbandoned o) => (m, inr o)
  | (m, ScanDone o) =>
      let '(m, result) :=
        if negb (mo_establishing m) && negb (truncated (ro_limits o))
        then forget_under detected_by (to_string_lossy <$> paths) m o (to_string_lossy <$> fs_paths (mo_settings m)) else (m, inr o) in
      match result with
      | inl e => (m, inl e)
      | inr o =>
          (mkMonitor (mo_settings m) (mo_baseline m) (if negb (wl_abandoned (ro_limits o)) then false else mo_establishing m), inr o)
      end
  end.

Definition rescan (fs now : Filesystem) (detected_by : FimDetection) (m : Monitor) : Monitor * (unit + RescanOutcome) :=
  rescan_until fs now detected_by [] m.

Definition is_watched (m : Monitor) (path : text) : bool :=
  existsb (fun root => bool_decide (components path = components root) || path_starts_with path root) (fs_paths (mo_settings m)).

(** [recheck]. *)
Definition recheck (now : Filesystem) (m : Monitor) (path : text) : Monitor * (unit + option FimEvent) :=
  if negb (is_watched m path) then (m, inr None)
  else
    let key := to_string_lossy path in
    let current := inspect sha256_hex now path (fs_max_file_bytes (mo_settings m)) in
    if mo_establishing m then
      match current with
      | inr (Some current) =>
          match baseline_put (mo_baseline m) key current with
          | inl e => (m, inl e)
          | inr s => (set_baseline m s, inr None)
          end
      | _ => (m, inr None)
      end
    else
      match baseline_get (mo_baseline m) key with
      | inl e => (m, inl e)
      | inr previous =>
          match current with
          | inr (Some current) =>
              match baseline_put (mo_baseline m) key current with
              | inl e => (m, inl e)
              | inr s => (set_baseline m s, inr (difference key previous current RealTime))
              end
          | inr None =>
              match previous with
              | None => (m, inr None)
              | Some previous =>
                  match baseline_remove (mo_baseline m) key with
                  | inl e => (m, inl e)
                  | inr s => (set_baseline m s, inr (Some (deleted_event key RealTime (Some previous))))
                  end
              end
          | inl _ => (m, inr None)
          end
      end.
End monitor.

(** ** The order of paths *)

Lemma path_compare_eq p q : path_compare p q = Eq <-> components p = components q.
Proof. apply (cmp_eq (cmp := lex_compare (lex_compare Z.compare))). Qed.

Lemma path_compare_anti p q : path_compare q p = CompOpp (path_compare p q).
Proof. apply (cmp_anti (cmp := lex_compare (lex_compare Z.compare))). Qed.

Lemma path_compare_trans p q r : path_compare p q = Lt -> path_compare q r = Lt -> path_compare p r = Lt.
Proof. apply (cmp_trans (cmp := lex_compare (lex_compare Z.compare))). Qed.

Definition path_lt (p q : text) : Prop := path_compare p q = Lt.

Lemma path_insert_elem p l q : q ∈ path_insert p l -> q = p \/ q ∈ l.
Proof.
  induction l as [|x l IH]; simpl; [rewrite elem_of_cons; tauto|].
  destruct (path_compare p x); rewrite ?elem_of_cons; naive_solver.
Qed.

Lemma path_insert_keeps p l q : q ∈ l -> q ∈ path_insert p l.
Proof.
  induction l as [|x l IH]; simpl; [by intros ?%elem_of_nil|]. destruct (path_compare p x); rewrite ?elem_of_cons; naive_solver.
Qed.

Lemma path_insert_has p l : exists q, q ∈ path_insert p l /\ components q = components p.
Proof.
  induction l as [|x l (q & Hq & E)]; simpl; [exists p; split; [left|done]|]. destruct (path_compare p x) eqn:Ec.
  - exists x. split; [left|]. by apply path_compare_eq in Ec.
  - exists p. split; [left|done].
  - exists q. split; [by right|done].
Qed.

Lemma path_insert_length p l : (length l <= length (path_insert p l) <= S (length l))%nat.
Proof. induction l as [|x l IH]; simpl; [lia|]. destruct (path_compare p x); simpl; lia. Qed.

Lemma path_insert_sorted p l : StronglySorted path_lt l -> StronglySorted path_lt (path_insert p l).
Proof.
  induction 1 as [|x l Hl IH Hx]; simpl; [by repeat constructor|]. destruct (path_compare p x) eqn:Ec; [by constructor| |].
  - repeat constructor; try done. eapply Forall_impl; [exact Hx|]. intros q. by apply path_compare_trans.
  - constructor; [done|]. apply Forall_forall. intros q Hq. apply path_insert_elem in Hq as [->|Hq].
    + unfold path_lt. by rewrite path_compare_anti, Ec.
    + rewrite Forall_forall in Hx. auto.
Qed.

Lemma sorted_paths_nodup l : StronglySorted path_lt l -> NoDup l.
Proof.
  induction 1 as [|x l Hl IH Hx]; constructor; [|done]. intros Hin. rewrite Forall_forall in Hx. specialize (Hx x Hin).
  unfold path_lt in Hx. by rewrite (proj2 (path_compare_eq x x) eq_refl) in Hx.
Qed.

(** ** The walk *)

(** No counter of a loss goes down. *)
Definition limits_le (l k : WalkLimits) : Prop :=
  wl_over_entry_limit l <= wl_over_entry_limit k /\ wl_over_depth_limit l <= wl_over_depth_limit k /\
  wl_unreadable l <= wl_unreadable k /\ wl_abandoned l = wl_abandoned k.

Ltac limits := unfold limits_le, failed in *; cbn in *; intuition (lia || congruence).

Section walk_facts.
Context (fs : Filesystem) (settings : FimSettings).

Lemma visit_deep path depth st : fs_max_depth settings <= depth -> (visit fs settings path depth st).2 = [].
Proof.
  intros Hd. unfold visit. destruct st as [found limits]. destruct (fs path); try done; [by destruct (_ <=? _)|].
  by rewrite (proj2 (Z.leb_le _ _) Hd).
Qed.

Lemma walk_loop_tree budget path depth st :
  Z.to_nat (fs_max_depth settings - depth) = budget ->
  exists n, forall fuel stack, walk_loop fs settings (n + fuel) ((path, depth) :: stack) st =
    walk_loop fs settings fuel stack (walk_tree fs settings budget path depth st).
Proof.
  revert path depth st. induction budget as [|budget IH]; intros path depth st Hb; cbn [walk_tree];
    destruct (visit fs settings path depth st) as [[found limits] pushed] eqn:Ev.
  - exists 1%nat. intros fuel stack. cbn [walk_loop Nat.add]. rewrite Ev.
    pose proof (visit_deep path depth st ltac:(lia)) as Hp. rewrite Ev in Hp. cbn in Hp. by subst.
  - assert (Hps : forall ps st, exists n, forall fuel stack,
      walk_loop fs settings (n + fuel) (((fun p => (p, depth + 1)) <$> ps) ++ stack) st =
      walk_loop fs settings fuel stack (foldl (fun st p => walk_tree fs settings budget p (depth + 1) st) st ps)).
    { intros ps. induction ps as [|p ps IHp]; intros st'; [by exists O|].
      destruct (IH p (depth + 1) st') as [n1 H1]; [lia|].
      destruct (IHp (walk_tree fs settings budget p (depth + 1) st')) as [n2 H2]. exists (n1 + n2)%nat. intros fuel stack.
      cbn [fmap list_fmap app foldl]. by rewrite <- Nat.add_assoc, H1, H2. }
    destruct (Hps (reverse pushed) (found, limits)) as [n Hn]. exists (S n). intros fuel stack.
    cbn [walk_loop Nat.add]. by rewrite Ev, Hn.
Qed.

(** The loop of the source ends, with what the recursion gives. *)
Lemma walk_loop_is_walk roots : exists enough, forall fuel, (enough <= fuel)%nat -> walk_with fs settings fuel roots = Some (walk fs settings roots).
Proof.
  unfold walk_with, walk. generalize (([] : list text), WalkLimits_default). induction roots as [|root roots IH]; intros st; [by exists O|].
  destruct (walk_loop_tree (Z.to_nat (fs_max_depth settings)) root 0 st) as [n Hn]; [by rewrite Z.sub_0_r|].
  destruct (IH (walk_tree fs settings (Z.to_nat (fs_max_depth settings)) root 0 st)) as [m Hm].
  exists (n + m)%nat. intros fuel Hf. cbn [foldl mbind option_bind].
  replace fuel with (n + (fuel - n))%nat at 1 by lia. rewrite Hn.
  replace (walk_loop fs settings (fuel - n) [] _) with (Some (walk_tree fs settings (Z.to_nat (fs_max_depth settings)) root 0 st))
    by (by destruct (fuel - n)%nat). apply Hm. lia.
Qed.

(** What lies below a path at a depth, within the depth limit and without following links. *)
Inductive below : text -> Z -> text -> Prop :=
| below_here path depth : below path depth path
| below_entry path depth entries child target :
    fs path = Directory (Some entries) -> depth < fs_max_depth settings -> Some child ∈ entries ->
    below child (depth + 1) target -> below path depth target.

Definition is_regular (path : text) : Prop := match fs path with Regular _ _ _ _ _ => True | _ => False end.

(** Nothing was left out between two states. *)
Definition no_loss (l k : WalkLimits) : Prop :=
  wl_over_entry_limit l = wl_over_entry_limit k /\ wl_over_depth_limit l = wl_over_depth_limit k /\
  wl_unreadable l = wl_unreadable k.

Lemma listed_elem entries child : child ∈ listed entries <-> Some child ∈ entries.
Proof. unfold listed. rewrite list_elem_of_omap. naive_solver. Qed.

Record visited (path : text) (depth : Z) (st : list text * WalkLimits) (st' : list text * WalkLimits) (pushed : list text) : Prop := {
  vi_limits : limits_le st.2 st'.2;
  vi_sorted : StronglySorted path_lt st.1 -> StronglySorted path_lt st'.1;
  vi_keeps : forall p, p ∈ st.1 -> p ∈ st'.1;
  vi_sound : forall p, p ∈ st'.1 -> p ∈ st.1 \/ p = path /\ is_regular path;
  vi_bound : len st.1 <= fs_max_entries settings -> len st'.1 <= fs_max_entries settings;
  vi_pushed : forall child, child ∈ pushed ->
    depth < fs_max_depth settings /\ exists entries, fs path = Directory (Some entries) /\ Some child ∈ entries;
  vi_complete : no_loss st.2 st'.2 ->
    (is_regular path -> exists q, q ∈ st'.1 /\ components q = components path) /\
    (forall entries child, fs path = Directory (Some entries) -> Some child ∈ entries -> child ∈ pushed)
}.

Lemma visit_spec path depth st : let '(found, limits, pushed) := visit fs settings path depth st in
  visited path depth st (found, limits) pushed.
Proof.
  destruct st as [found limits]. unfold visit. destruct (fs path) as [| |content size mode uid gid| |entries|] eqn:Ef.
  - constructor; cbn; [limits|done|done|by left|done|by intros ? ?%elem_of_nil|unfold no_loss; cbn; intros; exfalso; lia].
  - constructor; cbn; [limits|done|done|by left|done|by intros ? ?%elem_of_nil|unfold no_loss; cbn; intros; exfalso; lia].
  - destruct (Z.leb_spec (fs_max_entries settings) (len found)) as [Hl|Hl].
    + constructor; cbn; [limits|done|done|by left|done|by intros ? ?%elem_of_nil|unfold no_loss; cbn; intros; exfalso; lia].
    + constructor; cbn; [limits|apply path_insert_sorted|intros p; apply path_insert_keeps| | |by intros ? ?%elem_of_nil|].
      * intros p Hp. apply path_insert_elem in Hp as [->|]; [right; unfold is_regular; by rewrite Ef|by left].
      * intros _. pose proof (path_insert_length path found). lia.
      * intros _. split; [intros _; apply path_insert_has|]. intros ? ? E. by rewrite Ef in E.
  - constructor; cbn; [limits|done|done|by left|done|by intros ? ?%elem_of_nil|].
    intros _. unfold is_regular. rewrite Ef. split; [done|]. intros ? ? E. done.
  - destruct (Z.leb_spec (fs_max_depth settings) depth) as [Hd|Hd];
      [|destruct entries as [entries|]].
    + constructor; cbn; [limits|done|done|by left|done|by intros ? ?%elem_of_nil|unfold no_loss; cbn; intros; exfalso; lia].
    + constructor; cbn; [limits|done|done|by left|done| |].
      * intros child Hc. apply listed_elem in Hc. eauto.
      * intros _. unfold is_regular. rewrite Ef. split; [done|]. intros es child [= <-] Hc. by apply listed_elem.
    + constructor; cbn; [limits|done|done|by left|done|by intros ? ?%elem_of_nil|unfold no_loss; cbn; intros; exfalso; lia].
  - constructor; cbn; [limits|done|done|by left|done|by intros ? ?%elem_of_nil|].
    intros _. unfold is_regular. rewrite Ef. split; [done|]. intros ? ? E. done.
Qed.

(** What a walk from some starting points does to the state. *)
Record walked (starts : list (text * Z)) (st st' : list text * WalkLimits) : Prop := {
  wk_limits : limits_le st.2 st'.2;
  wk_sorted : StronglySorted path_lt st.1 -> StronglySorted path_lt st'.1;
  wk_keeps : forall p, p ∈ st.1 -> p ∈ st'.1;
  wk_sound : forall p, p ∈ st'.1 -> p ∈ st.1 \/ is_regular p /\ exists start, start ∈ starts /\ below start.1 start.2 p;
  wk_bound : len st.1 <= fs_max_entries settings -> len st'.1 <= fs_max_entries settings;
  wk_complete : no_loss st.2 st'.2 -> forall start p, start ∈ starts -> below start.1 start.2 p -> is_regular p ->
    exists q, q ∈ st'.1 /\ components q = components p
}.

Lemma walked_nil st : walked [] st st.
Proof. constructor; [limits|done|done|by left|done|by intros _ ? ? ?%elem_of_nil]. Qed.

Lemma walked_app a b st1 st2 st3 : walked a st1 st2 -> walked b st2 st3 -> walked (a ++ b) st1 st3.
Proof.
  intros [L1 S1 K1 O1 B1 C1] [L2 S2 K2 O2 B2 C2]. unfold limits_le in *. constructor; [limits| | | | |].
  - auto.
  - auto.
  - intros p Hp. destruct (O2 p Hp) as [H|(Hr & start & Hs & Hb)].
    + destruct (O1 p H) as [H1|(Hr & start & Hs & Hb)]; [by left|right]. split; [done|]. exists start. rewrite elem_of_app. auto.
    + right. split; [done|]. exists start. rewrite elem_of_app. auto.
  - auto.
  - unfold no_loss. intros Hn start p Hs Hb Hr. apply elem_of_app in Hs as [Hs|Hs].
    + destruct (C1 ltac:(unfold no_loss; lia) start p Hs Hb Hr) as (q & Hq & E). exists q. auto.
    + apply (C2 ltac:(unfold no_loss; lia) start p Hs Hb Hr).
Qed.

Lemma walk_tree_spec budget path depth st :
  Z.to_nat (fs_max_depth settings - depth) = budget -> walked [(path, depth)] st (walk_tree fs settings budget path depth st).
Proof.
  revert path depth st. induction budget as [|budget IH]; intros path depth st Hb; cbn [walk_tree];
    pose proof (visit_spec path depth st) as Hv; destruct (visit fs settings path depth st) as [[found limits] pushed] eqn:Ev;
    destruct Hv as [V1 V2 V3 V4 V5 V6 V7]; cbn in *.
  - constructor; cbn; try done.
    + intros p Hp. destruct (V4 p Hp) as [|[-> Hr]]; [by left|right]. split; [done|]. exists (path, depth).
      split; [left|constructor].
    + intros Hn start p Hs Hbe Hr. apply list_elem_of_singleton in Hs as ->. cbn in Hbe. inversion Hbe; subst; [by apply V7|lia].
  - assert (walked ((fun p => (p, depth + 1)) <$> reverse pushed) (found, limits)
      (foldl (fun st p => walk_tree fs settings budget p (depth + 1) st) (found, limits) (reverse pushed))) as Hw.
    { generalize (found, limits). generalize (reverse pushed). intros ps. induction ps as [|p ps IHp]; intros st'; [apply walked_nil|].
      cbn [fmap list_fmap foldl]. apply (walked_app [(p, depth + 1)] ((fun p => (p, depth + 1)) <$> ps) _ (walk_tree fs settings budget p (depth + 1) st'));
        [apply IH; lia|apply IHp]. }
    destruct Hw as [W1 W2 W3 W4 W5 W6]. set (st' := foldl _ _ _) in *. unfold limits_le in *. cbn [fst snd] in *.
    constructor; [limits|auto|auto| |auto|].
    + intros p Hp. destruct (W4 p Hp) as [H|(Hr & start & Hs & Hbe)].
      * destruct (V4 p H) as [|[-> Hr]]; [by left|right]. split; [done|]. exists (path, depth). split; [left|constructor].
      * right. split; [done|]. exists (path, depth). split; [left|]. apply list_elem_of_fmap in Hs as (child & -> & Hc).
        apply elem_of_reverse, V6 in Hc as (Hd & es & He & Hc). cbn in *. by eapply below_entry.
    + intros Hn start p Hs Hbe Hr. apply list_elem_of_singleton in Hs as ->. cbn in Hbe. unfold no_loss in *.
      destruct (V7 ltac:(lia)) as [V8 V9]. inversion Hbe as [|? ? es child ? He Hd Hc Hbe']; subst.
      * destruct (V8 Hr) as (q & Hq & E). exists q. auto.
      * apply (W6 ltac:(lia) (child, depth + 1)); [|done|done]. apply list_elem_of_fmap. exists child. split; [done|].
        apply elem_of_reverse. eauto.
Qed.

Lemma walk_spec roots :
  let '(found, limits) := walk fs settings roots in
  walked ((fun root => (root, 0)) <$> roots) ([], WalkLimits_default) (found, limits).
Proof.
  unfold walk. destruct (foldl _ _ roots) as [found limits] eqn:E. rewrite <- E. clear E found limits.
  generalize (([] : list text), WalkLimits_default). induction roots as [|root roots IH]; intros st; [apply walked_nil|].
  cbn [fmap list_fmap foldl]. apply (walked_app [(root, 0)] ((fun root => (root, 0)) <$> roots) _ (walk_tree fs settings (Z.to_nat (fs_max_depth settings)) root 0 st));
    [apply walk_tree_spec; by rewrite Z.sub_0_r|apply IH].
Qed.

Lemma walk_nodup roots : NoDup (walk fs settings roots).1.
Proof.
  pose proof (walk_spec roots) as H. destruct (walk fs settings roots) as [found limits]. apply sorted_paths_nodup.
  apply (wk_sorted _ _ _ H). constructor.
Qed.
End walk_facts.

(** C35: The walk ends and finds exactly what it should: the loop over the stack terminates; the paths it returns are in order and without repetition, at most the configured number, each a regular file below a root within the depth limit, reached through directories only and never through a link; and when the walk reports nothing left out, every such file is among them. *)
Theorem walk_exact fs settings roots :
  0 <= fs_max_entries settings ->
  let '(found, limits) := walk fs settings roots in
  (exists enough, forall fuel, (enough <= fuel)%nat -> walk_with fs settings fuel roots = Some (found, limits)) /\
  StronglySorted path_lt found /\ len found <= fs_max_entries settings /\
  (forall p, p ∈ found -> is_regular fs p /\ exists root, root ∈ roots /\ below fs settings root 0 p) /\
  (truncated limits = false -> forall root p, root ∈ roots -> below fs settings root 0 p -> is_regular fs p ->
     exists q, q ∈ found /\ components q = components p).
Proof.
  intros Hm. pose proof (walk_spec fs settings roots) as Hw. pose proof (walk_loop_is_walk fs settings roots) as Hl.
  destruct (walk fs settings roots) as [found limits]. destruct Hw as [W1 W2 W3 W4 W5 W6]. unfold limits_le in W1. cbn in *.
  split_and!; [done|apply W2; constructor|by apply W5| |].
  - intros p Hp. destruct (W4 p Hp) as [?%elem_of_nil|(Hr & start & Hs & Hb)]; [done|]. split; [done|].
    apply list_elem_of_fmap in Hs as (root & -> & Hs). eauto.
  - intros Ht root p Hs Hb Hr. apply (W6 ltac:(unfold truncated in Ht; bsimpl; unfold no_loss; cbn; lia) (root, 0)); [|done|done].
    apply list_elem_of_fmap. eauto.
Qed.

(** ** The prefix search *)

(** The path begins with the prefix, letters compared without regard to ASCII case. *)
Definition has_prefix (prefix path : text) : Prop :=
  exists start rest, path = start ++ rest /\ to_ascii_lowercase <$> start = to_ascii_lowercase <$> prefix.

Definition escape_char (c : Z) : text := if (c =? 92) || (c =? 37) || (c =? 95) then [92; c] else [c].

Lemma replace_app c by_ a b : replace c by_ (a ++ b) = replace c by_ a ++ replace c by_ b.
Proof. unfold replace. by rewrite fmap_app, join_app. Qed.

Lemma replace_other c by_ d : d <> c -> replace c by_ [d] = [d].
Proof. intros Hd. unfold replace. cbn. by rewrite (proj2 (Z.eqb_neq d c)). Qed.

Lemma like_pattern_escape prefix : like_pattern prefix = mjoin (escape_char <$> prefix) ++ [37].
Proof.
  unfold like_pattern. f_equal. induction prefix as [|c prefix IH]; [done|].
  change (c :: prefix) with ([c] ++ prefix). rewrite !replace_app, fmap_app, join_app, IH. f_equal.
  transitivity (escape_char c); [|cbn; by rewrite app_nil_r]. unfold escape_char.
  destruct (Z.eqb_spec c 92) as [->|H1]; [done|]. destruct (Z.eqb_spec c 37) as [->|H2]; [done|].
  destruct (Z.eqb_spec c 95) as [->|H3]; [done|]. cbn [orb].
  by rewrite !replace_other.
Qed.

Lemma like_any t : like [37] t = true.
Proof. induction t as [|c t IH]; [done|]. change (like [37] (c :: t)) with (like [] (c :: t) || like [37] t). by rewrite IH, orb_true_r. Qed.

Lemma like_escape_char c pattern t :
  like (escape_char c ++ pattern) t = match t with x :: t' => same_letter c x && like pattern t' | [] => false end.
Proof.
  unfold escape_char. destruct (Z.eqb_spec c 92) as [->|H1]; [done|]. destruct (Z.eqb_spec c 37) as [->|H2]; [done|].
  destruct (Z.eqb_spec c 95) as [->|H3]; [done|]. cbn [orb app]. cbn [like]. by zdec.
Qed.

(** A percent sign or an underscore in a configured path is a character like any other. *)
Lemma like_pattern_exact prefix path : like (like_pattern prefix) path = true <-> has_prefix prefix path.
Proof.
  rewrite like_pattern_escape. revert path. induction prefix as [|c prefix IH]; intros path.
  - cbn [fmap list_fmap mjoin list_join app]. rewrite like_any. split; [intros _; by exists [], path|done].
  - cbn [fmap list_fmap mjoin list_join]. rewrite <- app_assoc, like_escape_char. destruct path as [|x path].
    + split; [done|]. intros (start & rest & E & H). by destruct start.
    + rewrite andb_true_iff, IH. unfold same_letter. rewrite Z.eqb_eq. split.
      * intros [Hx (start & rest & -> & H)]. exists (x :: start), rest. split; [done|]. cbn. by rewrite Hx, H.
      * intros (start & rest & E & H). destruct start as [|y start]; [done|]. injection E as <- ->. cbn in H. injection H as H1 H2.
        split; [done|]. by exists start, rest.
Qed.

(** ** What counts as a change *)

(** Two records agree on the content: their hashes do, or where one of them has none, their sizes. *)
Definition same_content (a b : FileRecord) : Prop :=
  (exists hash, fr_sha256 a = Some hash /\ fr_sha256 b = Some hash) \/
  ((fr_sha256 a = None \/ fr_sha256 b = None) /\ fr_size a = fr_size b).

Definition same_attributes (a b : FileRecord) : Prop := fr_mode a = fr_mode b /\ fr_uid a = fr_uid b /\ fr_gid a = fr_gid b.

Inductive change_between : option FileRecord -> FileRecord -> FileChange -> Prop :=
| was_created current : change_between None current Created
| was_modified previous current : ~ same_content previous current -> change_between (Some previous) current Modified
| had_attributes_changed previous current :
    same_content previous current -> ~ same_attributes previous current -> change_between (Some previous) current AttributesChanged.

(** The event of a change: the new state, and the hash of the old one. *)
Definition change_event (key : text) (change : FileChange) (by_ : FimDetection) (previous : option FileRecord) (current : FileRecord) : FimEvent :=
  mkFimEvent key change by_ (Some (fr_size current)) (fr_sha256 current) (previous ≫= fr_sha256) (Some (fr_mode current)) (Some (fr_uid current))
    (Some (fr_gid current)).

Lemma content_changed_spec a b : content_changed a b = true <-> ~ same_content a b.
Proof.
  unfold content_changed, same_content. destruct (fr_sha256 a) as [x|], (fr_sha256 b) as [y|];
    rewrite ?negb_true_iff, ?bool_decide_eq_false, ?Z.eqb_neq; naive_solver.
Qed.

Lemma attributes_changed_spec a b : attributes_changed a b = true <-> ~ same_attributes a b.
Proof.
  unfold attributes_changed, same_attributes. rewrite !orb_true_iff, !negb_true_iff, !Z.eqb_neq.
  destruct (decide (fr_mode a = fr_mode b)), (decide (fr_uid a = fr_uid b)), (decide (fr_gid a = fr_gid b)); tauto.
Qed.

Lemma difference_spec key previous current by_ e :
  difference key previous current by_ = Some e <->
  exists change, change_between previous current change /\ e = change_event key change by_ previous current.
Proof.
  unfold difference. destruct previous as [previous|]; cycle 1.
  { split; [intros [= <-]; eexists; split; [constructor|done]|]. intros (change & Hc & ->). by inversion Hc. }
  destruct (content_changed previous current) eqn:E1; [apply content_changed_spec in E1|apply not_true_iff_false in E1; rewrite content_changed_spec in E1].
  { split; [intros [= <-]; eexists; split; [by constructor|done]|]. intros (change & Hc & ->). inversion Hc; subst; [done|tauto]. }
  assert (same_content previous current) as Hsame.
  { unfold same_content in *. destruct (fr_sha256 previous) as [x|], (fr_sha256 current) as [y|]; try tauto; try (right; split; [tauto|];
      destruct (decide (fr_size previous = fr_size current)); [done|]; exfalso; apply E1; naive_solver).
    destruct (decide (x = y)) as [->|]; [by left; exists y|]. exfalso. apply E1. naive_solver. }
  destruct (attributes_changed previous current) eqn:E2; [apply attributes_changed_spec in E2|apply not_true_iff_false in E2; rewrite attributes_changed_spec in E2].
  - split; [intros [= <-]; eexists; split; [by constructor|done]|]. intros (change & Hc & ->). inversion Hc; subst; [tauto|done].
  - split; [done|]. intros (change & Hc & ->). inversion Hc; subst; tauto.
Qed.

(** ** The rescan *)

Section rescan.
Context `{SqliteLaws} (sha256_hex : list Z -> text).

Definition known (m : Monitor) (path : text) : option FileRecord := row_record <$> rows (mo_baseline m) !! path.

Definition inspected (now : Filesystem) (m : Monitor) (path : text) : option FileRecord :=
  match inspect sha256_hex now path (fs_max_file_bytes (mo_settings m)) with inr r => r | inl _ => None end.

Lemma get_known m path r : baseline_get (mo_baseline m) path = inr r -> r = known m path.
Proof.
  unfold baseline_get, known. destruct (sql_get (mo_baseline m) path) as [row|] eqn:E; [|done]. intros [= <-].
  by rewrite (sql_get_rows _ _ _ E).
Qed.

Lemma put_rows s path r s' : baseline_put s path r = inr s' -> rows s' = <[path := record_row r]> (rows s).
Proof. unfold baseline_put. destruct (sql_put _ _ _) eqn:E; [|done]. intros [= <-]. by apply sql_put_rows. Qed.

Lemma remove_rows s path s' : baseline_remove s path = inr s' -> rows s' = delete path (rows s).
Proof. unfold baseline_remove. destruct (sql_remove _ _) eqn:E; [|done]. intros [= <-]. by apply sql_remove_rows. Qed.

Lemma under_rows s prefix l :
  paths_under s prefix = inr l -> NoDup l /\ forall path, path ∈ l <-> is_Some (rows s !! path) /\ has_prefix prefix path.
Proof.
  unfold paths_under. destruct (sql_like _ _) as [l'|] eqn:E; [|done]. intros [= <-].
  destruct (sql_like_rows _ _ _ E) as [Hn Hl]. split; [done|]. intros path. by rewrite Hl, like_pattern_exact.
Qed.

(** What a walk leaves in the baseline, and the changes it reports. *)
Definition file_change (now : Filesystem) (by_ : FimDetection) (m : Monitor) (path : text) : option FimEvent :=
  current ← inspected now m path; difference (to_string_lossy path) (known m (to_string_lossy path)) current by_.

Record recorded (now : Filesystem) (m m' : Monitor) (paths : list text) : Prop := {
  rc_found path current : path ∈ paths -> inspected now m path = Some current ->
    rows (mo_baseline m') !! to_string_lossy path = Some (record_row current);
  rc_other key : (forall path, path ∈ paths -> to_string_lossy path = key -> inspected now m path = None) ->
    rows (mo_baseline m') !! key = rows (mo_baseline m) !! key
}.

Definition scan_outcome (s : Scan) : option RescanOutcome :=
  match s with ScanFailed => None | ScanAbandoned o | ScanDone o => Some o end.

Lemma recorded_nil now m : recorded now m m [].
Proof. split; [by intros path current ?%elem_of_nil|done]. Qed.

Lemma recorded_unseen now m m' l key : recorded now m m' l -> key ∉ (to_string_lossy <$> l) -> rows (mo_baseline m') !! key = rows (mo_baseline m) !! key.
Proof. intros [_ Hr] Hn. apply Hr. intros path Hp <-. destruct Hn. by apply list_elem_of_fmap_2. Qed.

Lemma compare_file_spec now by_ m o path m' o' :
  compare_file sha256_hex now by_ m o path = (m', inr o') ->
  mo_settings m' = mo_settings m /\ mo_establishing m' = mo_establishing m /\ recorded now m m' [path] /\
  ro_events o' = ro_events o ++ (if mo_establishing m then [] else option_list (file_change now by_ m path)) /\
  limits_le (ro_limits o) (ro_limits o').
Proof.
  assert (inspected now m path = None -> recorded now m m [path]) as Hnone.
  { intros Hi. split; [|done]. intros q current ->%list_elem_of_singleton Hq. congruence. }
  unfold compare_file, file_change.
  replace (inspected now m path) with (match inspect sha256_hex now path (fs_max_file_bytes (mo_settings m)) with inr r => r | inl _ => None end) in * by done.
  destruct (inspect _ _ _ _) as [[]|[current|]] eqn:Ei.
  - intros [= <- <-]. cbn. split_and!; [done|done|by apply Hnone|by destruct (mo_establishing m); rewrite app_nil_r|limits].
  - destruct (baseline_get _ _) as [|previous] eqn:Eg; [done|]. apply get_known in Eg as ->.
    destruct (baseline_put _ _ _) as [|s] eqn:Ep; [done|]. apply put_rows in Ep. intros [= <- <-].
    cbn [mo_settings mo_establishing mo_baseline set_baseline]. split_and!; [done|done| | |].
    + split; cbn [mo_baseline set_baseline]; rewrite Ep.
      * intros q c ->%list_elem_of_singleton Hq. unfold inspected in Hq. rewrite Ei in Hq. injection Hq as <-. apply lookup_insert_eq.
      * intros key Hk. apply lookup_insert_ne. intros <-. specialize (Hk path ltac:(by left) eq_refl). unfold inspected in Hk. by rewrite Ei in Hk.
    + destruct (mo_establishing m); [by rewrite app_nil_r|]. cbn [mbind option_bind]. destruct (difference _ _ _ _); cbn; by rewrite ?app_nil_r.
    + destruct (mo_establishing m); [limits|]. destruct (difference _ _ _ _); limits.
  - intros [= <- <-]. cbn. split_and!; [done|done|by apply Hnone|by destruct (mo_establishing m); rewrite app_nil_r|limits].
Qed.

(** Two parts of a scan whose files have names of their own. *)
Lemma recorded_cons now m m1 m2 path l :
  mo_settings m1 = mo_settings m -> to_string_lossy path ∉ (to_string_lossy <$> l) ->
  recorded now m m1 [path] -> recorded now m1 m2 l -> recorded now m m2 (path :: l).
Proof.
  intros Hs Hn [F1 O1] [F2 O2]. assert (forall p, inspected now m1 p = inspected now m p) as Hins by (intros p; unfold inspected; by rewrite Hs).
  split.
  - intros q current [->|Hq]%elem_of_cons Hc; [|apply F2; [done|by rewrite Hins]]. rewrite O2; [apply F1; [by left|done]|].
    intros p Hp E. destruct Hn. rewrite <- E. by apply list_elem_of_fmap_2.
  - intros key Hk. rewrite O2, O1; [done| |].
    + intros p ->%list_elem_of_singleton. apply Hk. by left.
    + intros p Hp E. rewrite Hins. apply Hk; [by right|done].
Qed.

Lemma compare_files_spec now by_ continue m o paths m' scan o' :
  NoDup (to_string_lossy <$> paths) -> compare_files sha256_hex now by_ continue m o paths = (m', scan) -> scan_outcome scan = Some o' ->
  exists done, done `prefix_of` paths /\ recorded now m m' done /\
    ro_events o' = ro_events o ++ (if mo_establishing m then [] else omap (file_change now by_ m) done) /\
    match scan with ScanAbandoned _ => True | _ => done = paths end.
Proof.
  revert continue m o. induction paths as [|path paths IH]; intros continue m o Hn E Eo; cbn [compare_files] in E.
  - injection E as <- <-. injection Eo as <-. exists []. split_and!; [done|apply recorded_nil| |done].
    by destruct (mo_establishing m); rewrite app_nil_r.
  - destruct (negb _).
    + injection E as <- <-. injection Eo as <-. exists []. cbn. split_and!; [apply prefix_nil|apply recorded_nil| |done].
      by destruct (mo_establishing m); rewrite app_nil_r.
    + destruct (compare_file sha256_hex now by_ m o path) as [m1 [e|o1]] eqn:E1; [by injection E as <- <-|].
      destruct (compare_file_spec _ _ _ _ _ _ _ E1) as (Hs1 & He1 & Hr1 & Ho1 & Hl1). rewrite fmap_cons in Hn.
      apply NoDup_cons in Hn as [Hni Hn]. destruct (IH _ _ _ Hn E Eo) as (finished & Hp & Hr2 & Ho2 & Hl2).
      assert (to_string_lossy path ∉ (to_string_lossy <$> finished)) as Hni'.
      { intros Hx. apply Hni. destruct Hp as [k ->]. rewrite fmap_app. apply elem_of_app. by left. }
      exists (path :: finished). split_and!; [by apply prefix_cons|by eapply recorded_cons| |].
      * rewrite Ho2, Ho1, He1, <- app_assoc. f_equal. destruct (mo_establishing m); [done|]. cbn [omap list_omap].
        assert (omap (file_change now by_ m1) finished = omap (file_change now by_ m) finished) as ->; [|by destruct (file_change now by_ m path)].
        clear -Hni' Hr1 Hs1. induction finished as [|q l IHl]; [done|]. rewrite fmap_cons in Hni'. apply not_elem_of_cons in Hni' as [Hq Hl].
        cbn [omap list_omap]. rewrite IHl by done. assert (file_change now by_ m1 q = file_change now by_ m q) as ->; [|done].
        unfold file_change, inspected, known. rewrite Hs1.
        by rewrite (recorded_unseen _ _ _ _ _ Hr1) by (intros ?%list_elem_of_singleton; congruence).
      * destruct scan; congruence || done.
Qed.

Lemma difference_not_deleted path previous current by_ e : difference path previous current by_ = Some e -> fim_change e <> Deleted.
Proof. unfold difference. destruct previous; [|naive_solver]. repeat case_match; naive_solver. Qed.

(** What the loop over the files keeps, whatever their names. *)
Lemma compare_files_keeps now by_ continue m o paths m' scan o' :
  compare_files sha256_hex now by_ continue m o paths = (m', scan) -> scan_outcome scan = Some o' ->
  mo_settings m' = mo_settings m /\ mo_establishing m' = mo_establishing m /\
  (forall key, is_Some (rows (mo_baseline m) !! key) -> is_Some (rows (mo_baseline m') !! key)) /\
  (exists more, ro_events o' = ro_events o ++ more /\ (mo_establishing m = true -> more = []) /\ Forall (fun e => fim_change e <> Deleted) more) /\
  match scan with ScanAbandoned _ => wl_abandoned (ro_limits o') = true | _ => limits_le (ro_limits o) (ro_limits o') end.
Proof.
  revert continue m o. induction paths as [|path paths IH]; intros continue m o E Eo; cbn [compare_files] in E.
  - injection E as <- <-. injection Eo as <-. split_and!; try done. exists []. by rewrite app_nil_r.
  - destruct (negb _).
    + injection E as <- <-. injection Eo as <-. split_and!; try done. exists []. by rewrite app_nil_r.
    + destruct (compare_file sha256_hex now by_ m o path) as [m1 [e|o1]] eqn:E1; [by injection E as <- <-|].
      destruct (compare_file_spec _ _ _ _ _ _ _ E1) as (Hs1 & He1 & [F1 O1] & Ho1 & Hl1).
      destruct (IH _ _ _ E Eo) as (Hs2 & He2 & Hk2 & (more & Ho2 & Hq2 & Hd2) & Hl2).
      split_and!; [congruence|congruence| | |destruct scan; done || limits].
      * intros key Hk. apply Hk2. destruct (inspected now m path) as [current|] eqn:Ei.
        { destruct (decide (to_string_lossy path = key)) as [<-|Hne]; [rewrite (F1 path current); [eauto|by left|done]|].
          rewrite O1; [done|]. by intros q ->%list_elem_of_singleton. }
        rewrite O1; [done|]. by intros q ->%list_elem_of_singleton.
      * eexists. split; [by rewrite Ho2, Ho1, <- app_assoc|]. rewrite He1 in Hq2. split; [intros He; by rewrite He, (Hq2 He)|].
        apply Forall_app. split; [|done]. destruct (mo_establishing m); [done|]. apply Forall_forall. intros e He.
        destruct (file_change now by_ m path) as [e'|] eqn:Ec; [|by apply elem_of_nil in He]. apply list_elem_of_singleton in He as ->.
        unfold file_change in Ec. destruct (inspected now m path); [|done]. by eapply difference_not_deleted.
Qed.

(** A path the baseline knows under one of the roots and that was not seen. *)
Definition gone (seen roots : list text) (path : text) : Prop := path ∉ seen /\ exists root, root ∈ roots /\ has_prefix root path.

Lemma forget_unseen_spec by_ seen m o l m' o' :
  NoDup l -> (forall p, p ∈ l -> is_Some (rows (mo_baseline m) !! p)) -> forget_unseen by_ seen m o l = (m', inr o') ->
  mo_settings m' = mo_settings m /\ mo_establishing m' = mo_establishing m /\ ro_limits o' = ro_limits o /\
  (forall p, rows (mo_baseline m') !! p = if decide (p ∈ l /\ p ∉ seen) then None else rows (mo_baseline m) !! p) /\
  ro_events o' = ro_events o ++ ((fun p => deleted_event p by_ (known m p)) <$> filter (fun p => p ∉ seen) l).
Proof.
  revert m o. induction l as [|path l IH]; intros m o Hn Hin E; cbn [forget_unseen] in E.
  - injection E as <- <-. split_and!; [done|done|done| |by rewrite app_nil_r]. intros p. rewrite decide_False; [done|].
    by intros [?%elem_of_nil _].
  - apply NoDup_cons in Hn as [Hni Hn]. destruct (bool_decide (path ∈ seen)) eqn:Es.
    + apply bool_decide_eq_true in Es. destruct (IH m o Hn ltac:(intros; apply Hin; by right) E) as (H1 & H2 & H3 & H4 & H5).
      split_and!; [done|done|done| |]; [|rewrite filter_cons_False by (intros Hx; by apply Hx); done].
      intros p. rewrite H4. destruct (decide (p ∈ l /\ p ∉ seen)) as [Hd|Hd]; [rewrite decide_True; [done|]; rewrite elem_of_cons; tauto|].
      rewrite decide_False; [done|]. rewrite elem_of_cons. intros [[->|Hp] Hs]; [done|tauto].
    + apply bool_decide_eq_false in Es. destruct (baseline_get _ _) as [|previous] eqn:Eg; [done|]. apply get_known in Eg as ->.
      destruct (baseline_remove _ _) as [|s] eqn:Er; [done|]. apply remove_rows in Er.
      destruct (IH (set_baseline m s) (add_event o (deleted_event path by_ (known m path))) Hn) as (H1 & H2 & H3 & H4 & H5); [|done|].
      { intros p Hp. cbn [mo_baseline set_baseline]. rewrite Er, lookup_delete_ne by (intros ->; done). apply Hin. by right. }
      cbn [mo_baseline set_baseline] in H4. split_and!; [done|done|done| |].
      * intros p. rewrite H4, Er. destruct (decide (p = path)) as [->|Hne].
        { rewrite (decide_True (P := path ∈ path :: l /\ _)) by (split; [left|done]). rewrite lookup_delete_eq. by case_decide. }
        rewrite lookup_delete_ne by done. destruct (decide (p ∈ l /\ p ∉ seen)) as [Hd|Hd];
          [rewrite decide_True; [done|]; rewrite elem_of_cons; tauto|rewrite decide_False; [done|]; rewrite elem_of_cons; tauto].
      * rewrite H5, filter_cons_True by done. cbn [fmap list_fmap ro_events add_event]. rewrite <- app_assoc. cbn [app]. do 2 f_equal.
        apply list_fmap_ext. intros i p Hp. apply list_elem_of_lookup_2, list_elem_of_filter in Hp as [_ Hp]. f_equal. unfold known.
        cbn [mo_baseline set_baseline]. by rewrite Er, lookup_delete_ne by (intros ->; done).
Qed.

#[local] Instance has_prefix_dec prefix path : Decision (has_prefix prefix path).
Proof. destruct (like (like_pattern prefix) path) eqn:E; [left|right]; rewrite <- like_pattern_exact; congruence. Defined.

#[local] Instance gone_dec seen roots path : Decision (gone seen roots path).
Proof.
  refine (cast_if (decide (path ∉ seen /\ Exists (fun root => has_prefix root path) roots))); unfold gone; rewrite <- Exists_exists; done.
Defined.

Lemma gone_cons seen root roots p : gone seen (root :: roots) p <-> p ∉ seen /\ has_prefix root p \/ gone seen roots p.
Proof.
  unfold gone. setoid_rewrite elem_of_cons. split; [intros (Hs & r & [->|Hr] & Hp); eauto|].
  intros [[Hs Hp]|(Hs & r & Hr & Hp)]; eauto.
Qed.

Lemma forget_under_spec by_ seen m o roots m' o' :
  forget_under by_ seen m o roots = (m', inr o') ->
  mo_settings m' = mo_settings m /\ mo_establishing m' = mo_establishing m /\ ro_limits o' = ro_limits o /\
  (forall p, rows (mo_baseline m') !! p = if decide (gone seen roots p) then None else rows (mo_baseline m) !! p) /\
  (forall e, e ∈ ro_events o' <-> e ∈ ro_events o \/
     exists p row, gone seen roots p /\ rows (mo_baseline m) !! p = Some row /\ e = deleted_event p by_ (Some (row_record row))).
Proof.
  revert m o. induction roots as [|root roots IH]; intros m o E; cbn [forget_under] in E.
  - injection E as <- <-. assert (forall p, ~ gone seen [] p) as Hg by (by intros p (_ & root & ?%elem_of_nil & _)).
    split_and!; [done|done|done| |]; [intros p; by rewrite decide_False by apply Hg|]. intros e. split; [by left|].
    intros [|(p & row & Hp & _)]; [done|]. by destruct (Hg p).
  - destruct (paths_under _ _) as [|l] eqn:El; [done|]. apply under_rows in El as [Hn Hl].
    destruct (forget_unseen by_ seen m o l) as [m1 [|o1]] eqn:E1; [done|].
    destruct (forget_unseen_spec _ _ _ _ _ _ _ Hn ltac:(intros p Hp; by apply Hl in Hp as [? _]) E1) as (A1 & A2 & A3 & A4 & A5).
    destruct (IH _ _ E) as (B1 & B2 & B3 & B4 & B5).
    assert (A6 : forall p, rows (mo_baseline m1) !! p = if decide (p ∉ seen /\ has_prefix root p) then None else rows (mo_baseline m) !! p).
    { intros p. rewrite A4. destruct (decide (p ∈ l /\ p ∉ seen)) as [[Hp Hs]|Hd], (decide (p ∉ seen /\ has_prefix root p)) as [[Hs' Hp']|Hd']; try done.
      - apply Hl in Hp as [_ Hp]. tauto.
      - destruct (rows (mo_baseline m) !! p) eqn:Er; [|done]. destruct Hd. split; [|done]. apply Hl. rewrite Er. eauto. }
    split_and!; [congruence|congruence|congruence| |].
    + intros p. rewrite B4, A6. destruct (decide (gone seen roots p)) as [Hg|Hg], (decide (p ∉ seen /\ has_prefix root p)) as [Hr|Hr];
        [rewrite decide_True|rewrite decide_True|rewrite decide_True|rewrite decide_False]; try done; rewrite gone_cons; tauto.
    + intros e. rewrite B5, A5, elem_of_app, list_elem_of_fmap. split.
      * intros [[|(p & -> & Hp)]|(p & row & Hg & Hr & ->)]; [by left| |].
        { apply list_elem_of_filter in Hp as [Hs Hp]. apply Hl in Hp as [[row Hr] Hp]. right. exists p, row. rewrite gone_cons.
          split_and!; [tauto|done|]. unfold known. by rewrite Hr. }
        right. exists p, row. rewrite gone_cons. rewrite A6 in Hr. case_decide; [done|]. tauto.
      * intros [|(p & row & Hg & Hr & ->)]; [by left; left|]. apply gone_cons in Hg.
        destruct (decide (p ∉ seen /\ has_prefix root p)) as [Hx|Hx].
        { left. right. exists p. split; [unfold known; by rewrite Hr|]. apply list_elem_of_filter. split; [tauto|]. apply Hl. rewrite Hr. naive_solver. }
        right. exists p, row. split_and!; [tauto| |done]. rewrite A6. by rewrite decide_False.
Qed.

Definition found_paths (fs : Filesystem) (m : Monitor) : list text := (walk fs (mo_settings m) (fs_paths (mo_settings m))).1.

(** The names of what the walk found, and of the roots. *)
Definition found_keys (fs : Filesystem) (m : Monitor) : list text := to_string_lossy <$> found_paths fs m.
Definition root_keys (m : Monitor) : list text := to_string_lossy <$> fs_paths (mo_settings m).

(** What a rescan that returns has done: the files compared, and the pass over what is gone. *)
Lemma rescan_spec fs now by_ continue m m' o :
  rescan_until sha256_hex fs now by_ continue m = (m', inr o) ->
  exists m1 o1, mo_settings m1 = mo_settings m /\ mo_establishing m1 = mo_establishing m /\ mo_settings m' = mo_settings m /\
    ro_limits o1 = ro_limits o /\ mo_establishing m' = mo_establishing m && wl_abandoned (ro_limits o) /\
    (forall key, is_Some (rows (mo_baseline m) !! key) -> is_Some (rows (mo_baseline m1) !! key)) /\
    (mo_establishing m = true -> ro_events o1 = []) /\ Forall (fun e => fim_change e <> Deleted) (ro_events o1) /\
    (truncated (ro_limits o) = true \/ mo_establishing m = true -> rows (mo_baseline m') = rows (mo_baseline m1) /\ ro_events o = ro_events o1) /\
    (mo_establishing m = false -> truncated (ro_limits o) = false ->
       forget_under by_ (found_keys fs m) m1 o1 (root_keys m) = (set_baseline m1 (mo_baseline m'), inr o)) /\
    (mo_establishing m = false -> wl_abandoned (ro_limits o) = false -> NoDup (found_keys fs m) ->
       recorded now m m1 (found_paths fs m) /\ ro_events o1 = omap (file_change now by_ m) (found_paths fs m)).
Proof.
  unfold rescan_until, found_keys, root_keys, found_paths. pose proof (walk_spec fs (mo_settings m) (fs_paths (mo_settings m))) as Hw.
  destruct (walk _ _ _) as [paths limits]. cbn [fst] in *. assert (wl_abandoned limits = false) as Hab
    by (destruct Hw as [Hl _ _ _ _ _]; unfold limits_le in Hl; cbn in Hl; intuition congruence). clear Hw.
  destruct (compare_files _ _ _ _ _ _ _) as [m1 scan] eqn:Ec. intros E.
  pose proof (fun o1 => compare_files_keeps _ _ _ _ _ _ _ _ o1 Ec) as Hk. pose proof (fun o1 Hn => compare_files_spec _ _ _ _ _ _ _ _ o1 Hn Ec) as Hspec.
  destruct scan as [|o1|o1]; [done|injection E as <- <-|]; cbn [scan_outcome] in Hk, Hspec; destruct (Hk o1 eq_refl) as (Hs & He & Hrows & (more & Ho & Hq & Hd) & Hl);
    cbn [ro_events app] in Ho; subst more.
  - exists m1, o1. rewrite Hl, He, Hs, andb_true_r. split_and!; try done. intros _. unfold truncated. by rewrite Hl.
  - cbn [ro_limits] in Hl. assert (wl_abandoned (ro_limits o1) = false) as Ha1 by (unfold limits_le in Hl; intuition congruence).
    assert (mo_establishing m = false -> NoDup (to_string_lossy <$> paths) -> recorded now m m1 paths /\ ro_events o1 = omap (file_change now by_ m) paths) as Hex.
    { intros Hest Hn. destruct (Hspec o1 Hn eq_refl) as (finished & _ & Hr & Hev & ->). by rewrite Hest in Hev. }
    exists m1, o1. rewrite He, Hs in E. destruct (negb (mo_establishing m) && negb (truncated (ro_limits o1))) eqn:Eg.
    + destruct (forget_under _ _ _ _ _) as [m2 [|o2]] eqn:Ef; [done|]. destruct (forget_under_spec _ _ _ _ _ _ _ Ef) as (F1 & F2 & F3 & _).
      injection E as <- <-. bsimpl. rewrite F3, Ha1 in *. cbn [mo_settings mo_establishing mo_baseline negb andb].
      split_and!; try done; [congruence|by rewrite andb_false_r|intuition congruence| |tauto]. intros _ _. f_equal.
      destruct m2. unfold set_baseline. cbn in *. f_equal; congruence.
    + injection E as <- <-. rewrite Ha1. cbn [mo_settings mo_establishing mo_baseline negb andb]. rewrite andb_false_r.
      split_and!; try done; [|tauto]. intros H1 H2. rewrite H1, H2 in Eg. done.
Qed.

(** The full account of a complete scan of files with names of their own. *)
Lemma rescan_full fs now by_ continue m m' o :
  mo_establishing m = false -> rescan_until sha256_hex fs now by_ continue m = (m', inr o) -> truncated (ro_limits o) = false ->
  NoDup (found_keys fs m) ->
  (forall e, e ∈ ro_events o <->
     (exists path current, path ∈ found_paths fs m /\ inspected now m path = Some current /\
        difference (to_string_lossy path) (known m (to_string_lossy path)) current by_ = Some e) \/
     (exists key row, gone (found_keys fs m) (root_keys m) key /\ rows (mo_baseline m) !! key = Some row /\
        e = deleted_event key by_ (Some (row_record row)))) /\
  (forall path current, path ∈ found_paths fs m -> inspected now m path = Some current ->
     rows (mo_baseline m') !! to_string_lossy path = Some (record_row current)) /\
  (forall key, (forall path, path ∈ found_paths fs m -> to_string_lossy path = key -> inspected now m path = None) ->
     rows (mo_baseline m') !! key = if decide (gone (found_keys fs m) (root_keys m) key) then None else rows (mo_baseline m) !! key) /\
  mo_establishing m' = false.
Proof.
  intros He E Ht Hn. destruct (rescan_spec _ _ _ _ _ _ _ E) as (m1 & o1 & Hs1 & He1 & Hs' & Hl1 & He' & _ & _ & _ & _ & Hdel & Hex).
  assert (wl_abandoned (ro_limits o) = false) as Ha by (unfold truncated in Ht; by bsimpl). destruct (Hex He Ha Hn) as [Hr Ho1].
  specialize (Hdel He Ht). destruct (forget_under_spec _ _ _ _ _ _ _ Hdel) as (_ & _ & _ & D4 & D5).
  cbn [mo_baseline set_baseline] in D4. split_and!.
  - intros e. rewrite D5, Ho1, list_elem_of_omap. unfold file_change. split.
    + intros [(path & Hin & Hc)|(path & row & Hg & Hrow & ->)].
      * left. destruct (inspected now m path) as [current|] eqn:Ei; [|done]. exists path, current. done.
      * right. exists path, row. split_and!; [done| |done]. destruct Hg as [Hni _]. by rewrite <- (recorded_unseen _ _ _ _ _ Hr Hni).
    + intros [(path & current & Hin & Ei & Hc)|(path & row & Hg & Hrow & ->)].
      * left. exists path. rewrite Ei. done.
      * right. exists path, row. split_and!; [done| |done]. destruct Hg as [Hni _]. by rewrite (recorded_unseen _ _ _ _ _ Hr Hni).
  - intros path current Hp Hc. rewrite D4, decide_False; [by apply Hr|]. intros [Hni _]. destruct Hni. by apply list_elem_of_fmap_2.
  - intros key Hk. rewrite D4, (rc_other _ _ _ _ Hr key Hk). done.
  - by rewrite He', He.
Qed.

(** What examining a path gives: for a regular file, its hash as long as it is not too large and can be read. *)
Definition state_of (now : Filesystem) (m : Monitor) (path : text) (current : FileRecord) : Prop :=
  exists content size mode uid gid, now path = Regular content size mode uid gid /\
    current = mkFileRecord (if size <=? fs_max_file_bytes (mo_settings m) then sha256_hex <$> content else None) size mode uid gid.

Lemma inspected_state now m path current : inspected now m path = Some current <-> state_of now m path current.
Proof.
  unfold inspected, inspect, state_of. destruct (now path) as [| |content size mode uid gid| |entries|];
    try (split; [done|by intros (? & ? & ? & ? & ? & [=] & _)]).
  split; [intros [= <-]; by exists content, size, mode, uid, gid|]. by intros (? & ? & ? & ? & ? & [= <- <- <- <- <-] & ->).
Qed.

(** C34: a rescan reports exactly the changes it can see. Take an established baseline, a scan that returns and leaves nothing out, and files found whose names stay apart as text. The events are, for each file found: one for a creation when the baseline does not know it; one for a modification when it knows it with another hash, or with another size where one of the two has no hash; one for changed attributes when the content agrees so and the mode, the owner or the group does not; and none otherwise, each with the new state and the old hash; and one deletion for each name the baseline knows that was not found and begins, as text and without regard to ASCII case, like a root. Afterwards the baseline holds the state of every file found, without the deleted ones, and is otherwise as before. (A change of content under an equal size is not seen when a hash is missing, [failed_read_hides_change], and a name that only begins like a root counts as deleted, [sibling_reported_deleted].) *)
Theorem rescan_exact fs now by_ continue m m' o :
  mo_establishing m = false -> rescan_until sha256_hex fs now by_ continue m = (m', inr o) -> truncated (ro_limits o) = false ->
  NoDup (found_keys fs m) ->
  (forall e, e ∈ ro_events o <->
     (exists path current change, path ∈ found_paths fs m /\ state_of now m path current /\
        change_between (known m (to_string_lossy path)) current change /\
        e = change_event (to_string_lossy path) change by_ (known m (to_string_lossy path)) current) \/
     (exists key row, rows (mo_baseline m) !! key = Some row /\ key ∉ found_keys fs m /\
        (exists root, root ∈ root_keys m /\ has_prefix root key) /\
        e = mkFimEvent key Deleted by_ None None (row_hash row) None None None)) /\
  (forall path current, path ∈ found_paths fs m -> state_of now m path current ->
     rows (mo_baseline m') !! to_string_lossy path = Some (record_row current)) /\
  (forall key, (forall path current, path ∈ found_paths fs m -> to_string_lossy path = key -> ~ state_of now m path current) ->
     rows (mo_baseline m') !! key = if decide (gone (found_keys fs m) (root_keys m) key) then None else rows (mo_baseline m) !! key) /\
  mo_establishing m' = false.
Proof.
  intros He E Ht Hn. destruct (rescan_full _ _ _ _ _ _ _ He E Ht Hn) as (R1 & R2 & R3 & R4). split_and!; [| | |done].
  - intros e. rewrite R1. unfold gone. apply Morphisms_Prop.or_iff_morphism.
    + split.
      * intros (path & current & Hp & Hi & Hd). apply inspected_state in Hi. apply difference_spec in Hd as (change & ? & ?). by exists path, current, change.
      * intros (path & current & change & Hp & Hi & Hc & ->). exists path, current. rewrite inspected_state, difference_spec. eauto.
    + split; [intros (key & row & [? ?] & ? & ->)|intros (key & row & ? & ? & ? & ->)]; exists key, row; split_and!; by try done.
  - intros path current Hp Hs. apply R2; [done|]. by apply inspected_state.
  - intros key Hk. apply R3. intros path Hp Ek. destruct (inspected now m path) as [current|] eqn:Ei; [|done].
    apply inspected_state in Ei. by destruct (Hk path current Hp Ek).
Qed.

Lemma difference_same path current by_ :
  0 <= fr_size current <= I64_MAX -> difference path (Some (row_record (record_row current))) current by_ = None.
Proof.
  intros Hs. unfold difference, content_changed, attributes_changed. cbn [row_record record_row fr_sha256 fr_size fr_mode fr_uid fr_gid row_hash row_size row_mode row_uid row_gid].
  replace (Z.abs (Z.min I64_MAX (fr_size current))) with (fr_size current) by (unfold I64_MAX in *; lia). rewrite !Z.eqb_refl.
  destruct (fr_sha256 current); [by rewrite bool_decide_eq_true_2|done].
Qed.

(** A filesystem nobody touches is quiet: after a complete scan of an established baseline, of files whose names stay apart as text, scanning the same files again reports nothing at all. *)
Theorem rescan_quiet fs now by_ by2 continue continue2 m m1 o1 m2 o2 :
  mo_establishing m = false -> rescan_until sha256_hex fs now by_ continue m = (m1, inr o1) -> truncated (ro_limits o1) = false ->
  rescan_until sha256_hex fs now by2 continue2 m1 = (m2, inr o2) -> truncated (ro_limits o2) = false -> NoDup (found_keys fs m) ->
  (forall path current, inspected now m path = Some current -> 0 <= fr_size current <= I64_MAX) ->
  ro_events o2 = [].
Proof.
  intros He E1 T1 E2 T2 Hn Hsize. destruct (rescan_spec _ _ _ _ _ _ _ E1) as (_ & _ & _ & _ & Hs & _).
  destruct (rescan_full _ _ _ _ _ _ _ He E1 T1 Hn) as (_ & R1 & R1' & He1).
  assert (found_paths fs m1 = found_paths fs m) as Hf by (unfold found_paths; by rewrite Hs).
  assert (found_keys fs m1 = found_keys fs m /\ root_keys m1 = root_keys m) as [Hfk Hrk] by (unfold found_keys, root_keys; by rewrite Hf, Hs).
  destruct (rescan_full _ _ _ _ _ _ _ He1 E2 T2 ltac:(by rewrite Hfk)) as (V2 & _ & _).
  assert (forall p, inspected now m1 p = inspected now m p) as Hi by (intros p; unfold inspected; by rewrite Hs).
  rewrite Hf, Hfk, Hrk in V2. apply elem_of_nil_inv. intros e Hin. apply V2 in Hin as [(path & current & Hp & Ei & Hd)|(key & row & Hg & Hrow & _)].
  - rewrite Hi in Ei. unfold known in Hd. rewrite (R1 path current Hp Ei) in Hd.
    cbn [fmap option_fmap option_map] in Hd. by rewrite difference_same in Hd by eauto.
  - destruct Hg as [Hni Hroot]. rewrite (R1' key), decide_True in Hrow; [done|by split|]. intros path Hp <-. destruct Hni. by apply list_elem_of_fmap_2.
Qed.

(** What was not looked at is never reported gone: a scan that hit a bound, met something unreadable or was abandoned reports no deletion and forgets nothing; a scan that establishes the baseline reports nothing at all, and only a scan that ran to completion ends the establishing. *)
Theorem rescan_conservative fs now by_ continue m m' o :
  rescan_until sha256_hex fs now by_ continue m = (m', inr o) ->
  (truncated (ro_limits o) = true ->
     (forall e, e ∈ ro_events o -> fim_change e <> Deleted) /\
     (forall path, is_Some (rows (mo_baseline m) !! path) -> is_Some (rows (mo_baseline m') !! path))) /\
  (mo_establishing m = true -> ro_events o = []) /\
  mo_establishing m' = mo_establishing m && wl_abandoned (ro_limits o).
Proof.
  intros E. destruct (rescan_spec _ _ _ _ _ _ _ E) as (m1 & o1 & _ & _ & _ & _ & He' & Hrows & Hq & Hd & Hkeep & _ & _).
  split_and!; [|intros He; destruct (Hkeep (or_intror He)) as [_ ->]; by apply Hq|done].
  intros Ht. destruct (Hkeep (or_introl Ht)) as [Hrows' Hev]. split.
  - rewrite Hev. by apply Forall_forall.
  - intros path Hi. rewrite Hrows'. by apply Hrows.
Qed.
End rescan.

(** ** Real-time notifications *)

Section recheck.
Context `{SqliteLaws} (sha256_hex : list Z -> text).

Lemma recheck_established now m path m' e :
  mo_establishing m = false -> is_watched m path = true -> recheck sha256_hex now m path = (m', inr e) ->
  mo_settings m' = mo_settings m /\ mo_establishing m' = false /\
  match inspect sha256_hex now path (fs_max_file_bytes (mo_settings m)) with
  | inl _ => e = None /\ m' = m
  | inr (Some current) =>
      e = difference (to_string_lossy path) (known m (to_string_lossy path)) current RealTime /\
      rows (mo_baseline m') = <[to_string_lossy path := record_row current]> (rows (mo_baseline m))
  | inr None =>
      e = (fun previous => deleted_event (to_string_lossy path) RealTime (Some previous)) <$> known m (to_string_lossy path) /\
      rows (mo_baseline m') = delete (to_string_lossy path) (rows (mo_baseline m))
  end.
Proof.
  intros He Hw E. unfold recheck in E. rewrite Hw, He in E. cbn [negb] in E.
  destruct (baseline_get _ _) as [|previous] eqn:Eg; [done|]. apply get_known in Eg as ->.
  destruct (inspect _ _ _ _) as [[]|[current|]]; [by injection E as <- <-| |].
  - destruct (baseline_put _ _ _) as [|s] eqn:Ep; [done|]. apply put_rows in Ep. by injection E as <- <-.
  - destruct (known m (to_string_lossy path)) as [previous|] eqn:Ek.
    + destruct (baseline_remove _ _) as [|s] eqn:Er; [done|]. apply remove_rows in Er. by injection E as <- <-.
    + injection E as <- <-. split_and!; [done|done|done|]. rewrite delete_id; [done|]. unfold known in Ek. by apply fmap_None in Ek.
Qed.

(** A notification is only a hint about where to look: what is reported of a watched path is what the baseline comparison says, a deletion exactly when a known file is gone, nothing when the file cannot be examined; the baseline takes the new state, and asking again about the same state reports nothing. *)
Theorem recheck_exact now m path m1 e1 m2 e2 :
  mo_establishing m = false -> is_watched m path = true ->
  recheck sha256_hex now m path = (m1, inr e1) -> recheck sha256_hex now m1 path = (m2, inr e2) ->
  (forall current, inspected sha256_hex now m path = Some current -> 0 <= fr_size current <= I64_MAX) ->
  match inspect sha256_hex now path (fs_max_file_bytes (mo_settings m)) with
  | inl _ => e1 = None /\ m1 = m
  | inr (Some current) =>
      e1 = difference (to_string_lossy path) (known m (to_string_lossy path)) current RealTime /\
      rows (mo_baseline m1) = <[to_string_lossy path := record_row current]> (rows (mo_baseline m))
  | inr None =>
      e1 = (fun previous => deleted_event (to_string_lossy path) RealTime (Some previous)) <$> known m (to_string_lossy path) /\
      rows (mo_baseline m1) = delete (to_string_lossy path) (rows (mo_baseline m))
  end /\ e2 = None.
Proof.
  intros He Hw E1 E2 Hsize. destruct (recheck_established _ _ _ _ _ He Hw E1) as (Hs & He1 & H1). split; [done|].
  assert (is_watched m1 path = true) as Hw1 by (unfold is_watched in *; by rewrite Hs).
  destruct (recheck_established _ _ _ _ _ He1 Hw1 E2) as (_ & _ & H2). rewrite Hs in H2. unfold inspected in Hsize.
  destruct (inspect _ _ _ _) as [[]|[current|]]; [by destruct H2| |].
  - destruct H1 as [_ Hr]. destruct H2 as [-> _]. unfold known. rewrite Hr, lookup_insert_eq. cbn [fmap option_fmap option_map].
    apply difference_same. by apply Hsize.
  - destruct H1 as [_ Hr]. destruct H2 as [-> _]. unfold known. by rewrite Hr, lookup_delete_eq.
Qed.

(** One failed read hides a change of content: when a known file cannot be read at one comparison, with its size and attributes as before, nothing is reported and its hash leaves the baseline; whatever content of the same size it has at the next comparison, nothing is reported either, and that content becomes the baseline. *)
Theorem failed_read_hides_change now1 now2 m path previous content m1 e1 m2 e2 :
  mo_establishing m = false -> is_watched m path = true -> known m (to_string_lossy path) = Some previous -> 0 <= fr_size previous <= I64_MAX ->
  now1 path = Regular None (fr_size previous) (fr_mode previous) (fr_uid previous) (fr_gid previous) ->
  now2 path = Regular (Some content) (fr_size previous) (fr_mode previous) (fr_uid previous) (fr_gid previous) ->
  fr_size previous <= fs_max_file_bytes (mo_settings m) ->
  recheck sha256_hex now1 m path = (m1, inr e1) -> recheck sha256_hex now2 m1 path = (m2, inr e2) ->
  e1 = None /\ e2 = None /\ fr_sha256 <$> known m2 (to_string_lossy path) = Some (Some (sha256_hex content)).
Proof.
  intros He Hw Hk Hs N1 N2 Hmax E1 E2. destruct (recheck_established _ _ _ _ _ He Hw E1) as (Hs1 & He1 & H1).
  assert (is_watched m1 path = true) as Hw1 by (unfold is_watched in *; by rewrite Hs1).
  destruct (recheck_established _ _ _ _ _ He1 Hw1 E2) as (_ & _ & H2). unfold inspect in H1, H2. rewrite Hs1 in H2.
  rewrite N1 in H1. rewrite N2 in H2. rewrite (proj2 (Z.leb_le _ _) Hmax) in H1, H2. cbn [hash_file fmap option_fmap option_map] in H1, H2.
  destruct H1 as [-> R1]. destruct H2 as [-> R2]. rewrite Hk. unfold known. rewrite R2, R1, !lookup_insert_eq.
  unfold difference, content_changed, attributes_changed. cbn. unfold I64_MAX in *. rewrite Z.min_r, Z.abs_eq by lia.
  rewrite !Z.eqb_refl. split_and!; [by destruct (fr_sha256 previous)|done|done].
Qed.
End recheck.

(** ** An instance of the database *)

#[global] Instance map_sqlite : Sqlite := {
  Store := gmap text Row;
  sql_get s path := Some (s !! path);
  sql_put s path row := Some (<[path := row]> s);
  sql_remove s path := Some (delete path s);
  sql_like s pattern := Some (filter (fun path => like pattern path = true) (map_to_list s).*1);
  sql_count s := Some (Z.of_nat (size s))
}.

#[global] Instance map_sqlite_laws : SqliteLaws.
Proof.
  refine {| rows := (fun s : gmap text Row => s : gmap text Row) : @Store map_sqlite -> gmap text Row |}.
  - by intros s path r [= <-].
  - by intros s path row s' [= <-].
  - by intros s path s' [= <-].
  - intros s pattern l [= <-]. split; [apply NoDup_filter, NoDup_fst_map_to_list|]. intros path. rewrite list_elem_of_filter, list_elem_of_fmap. split.
    + intros (Hl & [p row] & -> & Hin). apply elem_of_map_to_list in Hin. eauto.
    + intros ([row Hr] & Hl). split; [done|]. exists (path, row). split; [done|]. by apply elem_of_map_to_list.
  - by intros s n [= <-].
Defined.

Definition show_bytes (content : list Z) : text := content.

Definition etc_settings : FimSettings := mkFimSettings [of_string "/etc"] None DEFAULT_RESCAN_INTERVAL 1000 16 100.

(** A filesystem given by its files and directories. *)
Definition tree (nodes : list (string * Node)) : Filesystem :=
  fun path => match List.find (fun n => bool_decide (of_string n.1 = path)) nodes with Some n => n.2 | None => NoEntry end.

Definition etc_dir (files : list string) : Node := Directory (Some ((fun f => Some (of_string f)) <$> files)).

Definition text_file (content : string) : Node := Regular (Some (of_string content)) (len (of_string content)) 420 0 0.

(** A sibling of a root is reported deleted although it is there: the search for deletions compares the beginning of the text of the paths, not their components, so a path the baseline knows in /etc2, which is no longer watched, is reported deleted, and forgotten, by the scan of /etc. *)
Theorem sibling_reported_deleted :
  let fs := tree [("/etc", etc_dir []); ("/etc2", etc_dir ["/etc2/passwd"]); ("/etc2/passwd", text_file "root")] in
  let row := mkRow (Some (of_string "root")) 4 420 0 0 in
  let m := mkMonitor etc_settings {[of_string "/etc2/passwd" := row]} false in
  is_watched m (of_string "/etc2/passwd") = false /\
  exists m' o, rescan show_bytes fs fs BaselineRescan m = (m', inr o) /\
    ro_events o = [deleted_event (of_string "/etc2/passwd") BaselineRescan (Some (row_record row))] /\ rows (mo_baseline m') = ∅.
Proof. split; [vm_compute; reflexivity|]. eexists _, _. split; [vm_compute; reflexivity|]. split; vm_compute; reflexivity. Qed.

(** Two files whose names differ only in bytes that are not UTF-8 share one entry of the baseline: a scan compares each with what was recorded of the other. Nothing changes, and every scan reports both as modified and leaves the baseline as it was. *)
Definition odd_name (byte : Z) : text := of_string "/etc/a" ++ [byte].

Definition odd_fs : Filesystem := fun path =>
  if bool_decide (path = of_string "/etc") then Directory (Some [Some (odd_name 254); Some (odd_name 255)])
  else if bool_decide (path = odd_name 254) then text_file "one"
  else if bool_decide (path = odd_name 255) then text_file "two"
  else NoEntry.

Theorem colliding_names_always_modified :
  let m := mkMonitor etc_settings {[to_string_lossy (odd_name 255) := mkRow (Some (of_string "two")) 3 420 0 0]} false in
  odd_name 254 <> odd_name 255 /\
  exists o, rescan show_bytes odd_fs odd_fs BaselineRescan m = (m, inr o) /\ truncated (ro_limits o) = false /\
    fim_change <$> ro_events o = [Modified; Modified].
Proof. split; [discriminate|]. eexists. split; [vm_compute; reflexivity|]. split; vm_compute; reflexivity. Qed.

(** ** The hypotheses can hold *)

Definition small_fs : Filesystem :=
  tree [("/etc", etc_dir ["/etc/passwd"; "/etc/link"; "/etc/ssh"]); ("/etc/passwd", text_file "root"); ("/etc/link", SymbolicLink);
        ("/etc/ssh", etc_dir ["/etc/ssh/config"]); ("/etc/ssh/config", text_file "Port 22")].

Definition hosts : text := of_string "/etc/hosts".
Definition passwd : text := of_string "/etc/passwd".
Definition hosts_row : Row := mkRow (Some (of_string "::1")) 3 420 0 0.
Definition passwd_row : Row := mkRow (Some (of_string "toor")) 4 420 0 0.

Definition small_monitor : Monitor := mkMonitor etc_settings (<[passwd := passwd_row]> {[hosts := hosts_row]}) false.

Definition scan (continue : list bool) (m : Monitor) : Monitor * (unit + RescanOutcome) :=
  rescan_until show_bytes small_fs small_fs BaselineRescan continue m.

(** What a scan returned, as data that can be compared. *)
Definition summary (r : Monitor * (unit + RescanOutcome)) : option (list text * bool * bool) :=
  match r.2 with
  | inr o => Some (fim_path <$> ro_events o, truncated (ro_limits o), wl_abandoned (ro_limits o))
  | inl _ => None
  end.

Lemma first_summary : summary (scan [] small_monitor) = Some ([passwd; of_string "/etc/ssh/config"; hosts], false, false).
Proof. vm_compute. reflexivity. Qed.

Lemma second_summary : summary (scan [] (scan [] small_monitor).1) = Some ([], false, false).
Proof. vm_compute. reflexivity. Qed.

Lemma abandoned_summary : summary (scan [true; false] small_monitor) = Some ([passwd], true, true).
Proof. vm_compute. reflexivity. Qed.

Lemma walk_exact_witness :
  let '(found, limits) := walk small_fs etc_settings [of_string "/etc"] in len found <= 100 /\ StronglySorted path_lt found.
Proof.
  pose proof (walk_exact small_fs etc_settings [of_string "/etc"] ltac:(discriminate)) as H.
  destruct (walk small_fs etc_settings [of_string "/etc"]) as [found limits].
  destruct H as (_ & H1 & H2 & _). split; [exact H2|exact H1].
Defined.

Lemma small_names : NoDup (found_keys small_fs small_monitor).
Proof. apply (bool_decide_unpack _). vm_compute. exact I. Qed.

Lemma rescan_exact_witness :
  exists o, (scan [] small_monitor).2 = inr o /\ fim_path <$> ro_events o = [passwd; of_string "/etc/ssh/config"; hosts] /\
    mkFimEvent hosts Deleted BaselineRescan None None (row_hash hosts_row) None None None ∈ ro_events o.
Proof.
  pose proof first_summary as Hs. unfold summary in Hs. destruct (scan [] small_monitor) as [m' [e|o]] eqn:E; [discriminate Hs|].
  cbn [snd] in *. injection Hs as H1 H2 _. exists o. split; [reflexivity|]. split; [exact H1|].
  destruct (rescan_exact show_bytes small_fs small_fs BaselineRescan [] small_monitor m' o eq_refl E H2 small_names) as (Hev & _).
  apply Hev. right. exists hosts, hosts_row. split; [vm_compute; reflexivity|].
  split; [apply (bool_decide_unpack _); vm_compute; exact I|]. split; [|reflexivity]. exists (of_string "/etc"). split; [left|].
  exists (of_string "/etc"), (of_string "/hosts"). split; reflexivity.
Defined.

Lemma sizes_small path current : inspected show_bytes small_fs small_monitor path = Some current -> 0 <= fr_size current <= I64_MAX.
Proof.
  unfold inspected, inspect. destruct (small_fs path) as [| |content size mode uid gid| |entries|] eqn:E; try discriminate.
  intros [= <-]. cbn [fr_size]. unfold small_fs, tree in E. cbn [List.find fst snd] in E.
  repeat (case_bool_decide; [by discriminate E || (injection E as _ <- _ _ _; vm_compute; split; discriminate)|]). discriminate E.
Qed.

Lemma rescan_quiet_witness :
  exists o1 o2, (scan [] small_monitor).2 = inr o1 /\ length (ro_events o1) = 3%nat /\
    (scan [] (scan [] small_monitor).1).2 = inr o2 /\ ro_events o2 = [].
Proof.
  pose proof first_summary as H1. pose proof second_summary as H2. unfold summary in H1, H2.
  destruct (scan [] small_monitor) as [m1 [e|o1]] eqn:E1; [discriminate H1|]. cbn [fst snd] in *.
  destruct (scan [] m1) as [m2 [e|o2]] eqn:E2; [discriminate H2|]. cbn [fst snd] in *.
  injection H1 as P1 T1 _. injection H2 as _ T2 _. exists o1, o2. split; [reflexivity|].
  split; [apply (f_equal length) in P1; rewrite length_fmap in P1; exact P1|]. split; [reflexivity|].
  exact (rescan_quiet show_bytes small_fs small_fs BaselineRescan BaselineRescan [] [] small_monitor m1 o1 m2 o2
    eq_refl E1 T1 E2 T2 small_names sizes_small).
Defined.

Lemma rescan_conservative_witness :
  exists o, (scan [true; false] small_monitor).2 = inr o /\ fim_path <$> ro_events o = [passwd] /\
    (forall e, e ∈ ro_events o -> fim_change e <> Deleted).
Proof.
  pose proof abandoned_summary as Hs. unfold summary in Hs. destruct (scan [true; false] small_monitor) as [m' [e|o]] eqn:E; [discriminate Hs|].
  cbn [snd] in *. injection Hs as H1 H2 _. exists o. split; [reflexivity|]. split; [exact H1|].
  destruct (rescan_conservative show_bytes small_fs small_fs BaselineRescan [true; false] small_monitor m' o E) as (H & _ & _).
  exact (proj1 (H H2)).
Defined.

Definition change_of (r : Monitor * (unit + option FimEvent)) : option (option FileChange) :=
  match r.2 with inr e => Some (fim_change <$> e) | inl _ => None end.

Lemma first_recheck : change_of (recheck show_bytes small_fs small_monitor passwd) = Some (Some Modified).
Proof. vm_compute. reflexivity. Qed.

Lemma recheck_returns now m path : (match (recheck show_bytes now m path).2 with inr _ => True | inl _ => False end).
Proof. unfold recheck. repeat case_match; simplify_eq/=; done. Qed.

Lemma recheck_exact_witness :
  exists e1 e2, change_of (recheck show_bytes small_fs small_monitor passwd) = Some (Some Modified) /\
    (recheck show_bytes small_fs small_monitor passwd).2 = inr e1 /\
    (recheck show_bytes small_fs (recheck show_bytes small_fs small_monitor passwd).1 passwd).2 = inr e2 /\ e2 = None.
Proof.
  pose proof (recheck_returns small_fs small_monitor passwd) as R1. pose proof first_recheck as F.
  destruct (recheck show_bytes small_fs small_monitor passwd) as [m1 [[]|e1]] eqn:E1; [destruct R1|].
  cbn [fst snd] in *. pose proof (recheck_returns small_fs m1 passwd) as R2.
  destruct (recheck show_bytes small_fs m1 passwd) as [m2 [[]|e2]] eqn:E2; [destruct R2|].
  exists e1, e2. split; [exact F|]. split; [reflexivity|]. split; [reflexivity|].
  apply (recheck_exact show_bytes small_fs small_monitor passwd m1 e1 m2 e2 eq_refl); [vm_compute; reflexivity|exact E1|exact E2|].
  intros current. apply sizes_small.
Defined.

Definition unread_fs : Filesystem := tree [("/etc/passwd", Regular None 4 420 0 0)].

Lemma failed_read_hides_change_witness :
  exists e1 e2, (recheck show_bytes unread_fs small_monitor passwd).2 = inr e1 /\ e1 = None /\
    (recheck show_bytes small_fs (recheck show_bytes unread_fs small_monitor passwd).1 passwd).2 = inr e2 /\ e2 = None.
Proof.
  pose proof (recheck_returns unread_fs small_monitor passwd) as R1.
  destruct (recheck show_bytes unread_fs small_monitor passwd) as [m1 [[]|e1]] eqn:E1; [destruct R1|].
  cbn [fst snd]. pose proof (recheck_returns small_fs m1 passwd) as R2.
  destruct (recheck show_bytes small_fs m1 passwd) as [m2 [[]|e2]] eqn:E2; [destruct R2|]. exists e1, e2.
  destruct (failed_read_hides_change show_bytes unread_fs small_fs small_monitor passwd (row_record passwd_row) (of_string "root") m1 e1 m2 e2
    eq_refl) as (H1 & H2 & _);
    [vm_compute; reflexivity|vm_compute; reflexivity|vm_compute; split; discriminate|vm_compute; reflexivity|vm_compute; reflexivity
    |vm_compute; discriminate|exact E1|exact E2|].
  split; [reflexivity|]. split; [exact H1|]. split; [reflexivity|exact H2].
Defined.
