(* ===== verification/Process.v ===== *)
(** Process and socket monitoring: [crates/hids/src/process.rs].

    A [/proc] tree is an input of each sweep: what listing it and reading its files give. Text that is
    not UTF-8 counts as unreadable where the source reads strings. A [SocketAddr] is an address with a
    port; maps are in the order of their keys. *)

From S2P Require Import Prelude Text Ordered Net Event AuthLog.

Definition DEFAULT_MAX_PROCESSES : Z := 16384.
Definition DEFAULT_MAX_SOCKETS : Z := 8192.
Definition MAX_COMMAND_LINE : Z := 4096.

(** ** Data *)

(** [ProcessKey]: the identifier and the start time, in the derived order. *)
Abbreviation ProcessKey := (Z * Z)%type.

Definition key_compare : ProcessKey -> ProcessKey -> comparison := pair_compare Z.compare Z.compare.

Record ProcessInfo := mkProcessInfo {
  pi_key : ProcessKey;
  pi_name : text;
  pi_executable : option text;
  pi_command_line : option text;
  pi_uid : option Z;
  pi_parent_pid : option Z
}.

Definition socket_compare : Endpoint -> Endpoint -> comparison := pair_compare ip_cmp Z.compare.

Record ListeningSocket := mkListeningSocket {
  ls_address : Endpoint;
  ls_inode : Z
}.

Record Snapshot := mkSnapshot {
  sn_processes : list (ProcessKey * ProcessInfo);
  sn_listening : list (Endpoint * ListeningSocket);
  sn_truncated : Z;
  sn_unreadable : Z
}.

Record ScanLimits := mkScanLimits {
  sl_max_processes : Z;
  sl_max_sockets : Z
}.

Definition ScanLimits_default : ScanLimits := mkScanLimits DEFAULT_MAX_PROCESSES DEFAULT_MAX_SOCKETS.

(** The files of one process; [None] where reading fails. *)
Record ProcDir := mkProcDir {
  pd_stat : option text;
  pd_exe : option text;
  pd_cmdline : option (list Z);
  pd_status : option text
}.

(** A [/proc] tree: its entries with what is in them (a name that is not a process has no files that
    matter), the socket tables, and the targets of the descriptors of each process. *)
Record ProcTree := mkProcTree {
  pt_entries : option (list (option (text * ProcDir)));
  pt_tcp : option text;
  pt_tcp6 : option text;
  pt_tables_exist : bool;
  pt_fds : Z -> option (list (option text))
}.

(** ** Parsing *)

Definition process_sanitise (t : text) (limit : Z) : text :=
  (fun c => if is_control c then 46 else c) <$> take (Z.to_nat limit) t.

(** [parse_stat]: the name is between the first opening and the last closing parenthesis. *)
Definition parse_stat (stat : text) : option (text * option Z * Z) :=
  '(before, _) ← split_once 40 stat;
  '(upto, rest) ← rsplit_once 41 stat;
  if len upto <? len before then None
  else
    let name := process_sanitise (drop (S (length before)) upto) 128 in
    let fields := split_whitespace rest in
    let parent_pid := fields !! 1%nat ≫= parse_unsigned U32_MAX in
    start_time ← (fields !! 19%nat ≫= parse_unsigned U64_MAX);
    Some (name, parent_pid, start_time).

Definition parse_status_uid (status : text) : option Z :=
  line ← List.find (fun line => starts_with line (of_string "Uid:")) (lines status);
  field ← split_whitespace line !! 1%nat;
  parse_unsigned U32_MAX field.

(** [from_str_radix] with radix 16. *)
Fixpoint hex_value (max acc : Z) (t : text) : option Z :=
  match t with
  | [] => Some acc
  | c :: t' =>
      d ← hex_digit c;
      let acc := acc * 16 + d in
      if max <? acc then None else hex_value max acc t'
  end.

Definition parse_hex (max : Z) (t : text) : option Z :=
  let t' := match t with c :: rest => if (c =? 43) && negb (bool_decide (rest = [])) then rest else t | [] => t end in
  match t' with [] => None | _ => hex_value max 0 t' end.

(** The words of an IPv6 address, eight digits each. *)
Fixpoint parse_words (words : nat) (t : text) : option (list Z) :=
  match words with
  | O => Some []
  | S words =>
      word ← parse_hex U32_MAX (take 8 t);
      octets ← parse_words words (drop 8 t);
      Some (le_bytes 4 word ++ octets)
  end.

Definition parse_hex_address (field : text) (is_v6 : bool) : option Endpoint :=
  '(address, port) ← split_once 58 field;
  port ← parse_hex U16_MAX port;
  if is_v6 then
    if negb (text_len address =? 32) then None
    else octets ← parse_words 4 address; Some (V6 (from_be_bytes octets), port)
  else
    if negb (text_len address =? 8) then None
    else word ← parse_hex U32_MAX address; Some (V4 (from_be_bytes (le_bytes 4 word)), port).

Definition parse_net_line (is_v6 : bool) (line : text) : option ListeningSocket :=
  let fields := split_whitespace line in
  local ← fields !! 1%nat;
  state ← fields !! 3%nat;
  if negb (eq_ignore_ascii_case state (of_string "0A")) then None
  else
    address ← parse_hex_address local is_v6;
    let inode := default 0 (fields !! 9%nat ≫= parse_unsigned U64_MAX) in
    Some (mkListeningSocket address inode).

Definition parse_net_table (t : text) (is_v6 : bool) : list ListeningSocket := omap (parse_net_line is_v6) (drop 1 (lines t)).

(** ** A sweep *)

Definition command_line_of (raw : list Z) : option text :=
  let joined := unwords (filter (fun part => part <> []) (split_char 0 (utf8_lossy raw))) in
  if bool_decide (joined = []) then None else Some (process_sanitise joined MAX_COMMAND_LINE).

Definition read_process (dir : ProcDir) (pid : Z) : option ProcessInfo :=
  stat ← pd_stat dir;
  '(name, parent_pid, start_time) ← parse_stat stat;
  Some (mkProcessInfo (pid, start_time) name (pd_exe dir) (pd_cmdline dir ≫= command_line_of)
          (pd_status dir ≫= parse_status_uid) parent_pid).

Definition scan_entry (limits : ScanLimits) (s : Snapshot) (entry : text * ProcDir) : Snapshot :=
  match parse_unsigned U32_MAX entry.1 with
  | None => s
  | Some pid =>
      if sl_max_processes limits <=? len (sn_processes s)
      then mkSnapshot (sn_processes s) (sn_listening s) (sn_truncated s + 1) (sn_unreadable s)
      else
        match read_process entry.2 pid with
        | Some info =>
            mkSnapshot (btree_insert key_compare (pi_key info) info (sn_processes s)) (sn_listening s) (sn_truncated s) (sn_unreadable s)
        | None => mkSnapshot (sn_processes s) (sn_listening s) (sn_truncated s) (sn_unreadable s + 1)
        end
  end.

(** The sockets of one table, up to the bound. *)
Fixpoint add_sockets (limits : ScanLimits) (s : Snapshot) (sockets : list ListeningSocket) : Snapshot :=
  match sockets with
  | [] => s
  | socket :: sockets =>
      if sl_max_sockets limits <=? len (sn_listening s)
      then mkSnapshot (sn_processes s) (sn_listening s) (sn_truncated s + 1) (sn_unreadable s)
      else
        add_sockets limits
          (mkSnapshot (sn_processes s) (btree_insert socket_compare (ls_address socket) socket (sn_listening s)) (sn_truncated s) (sn_unreadable s))
          sockets
  end.

Definition add_table (limits : ScanLimits) (s : Snapshot) (table : option text) (is_v6 : bool) : Snapshot :=
  match table with Some t => add_sockets limits s (parse_net_table t is_v6) | None => s end.

Definition snapshot (tree : ProcTree) (limits : ScanLimits) : Snapshot :=
  match pt_entries tree with
  | None => mkSnapshot [] [] 0 1
  | Some entries =>
      let s := foldl (scan_entry limits) (mkSnapshot [] [] 0 0) (omap id entries) in
      add_table limits (add_table limits s (pt_tcp tree) false) (pt_tcp6 tree) true
  end.

(** ** The watcher *)

Record Watcher := mkWatcher {
  wa_limits : ScanLimits;
  wa_known_processes : list ProcessKey;
  wa_known_listening : list Endpoint;
  wa_established : bool
}.

Definition watcher_new (limits : ScanLimits) : Watcher := mkWatcher limits [] [] false.

Record SweepOutcome := mkSweepOutcome {
  so_events : list ProcessEvent;
  so_truncated : Z;
  so_processes_seen : Z;
  so_sockets_seen : Z
}.

(** [owner_of]. *)
Definition socket_needle (inode : Z) : text := of_string "socket:[" ++ show_digits 20 10 inode [] ++ [93].

Definition holds_socket (tree : ProcTree) (needle : text) (info : ProcessInfo) : bool :=
  match pt_fds tree info.(pi_key).1 with
  | None => false
  | Some targets => existsb (fun target => bool_decide (target = Some needle)) targets
  end.

Definition owner_of (tree : ProcTree) (s : Snapshot) (inode : Z) : option ProcessInfo :=
  if inode =? 0 then None else List.find (holds_socket tree (socket_needle inode)) (sn_processes s).*2.

(** [Display] of a [SocketAddr]. *)
Definition socket_to_string (a : Endpoint) : text :=
  match a.1 with
  | V4 _ => ip_to_string a.1
  | V6 _ => [91] ++ ip_to_string a.1 ++ [93]
  end ++ [58] ++ show_digits 5 10 a.2 [].

Definition started_event (info : ProcessInfo) : ProcessEvent :=
  mkProcessEvent Started info.(pi_key).1 (pi_name info) (pi_executable info) (pi_command_line info) (pi_uid info) (pi_parent_pid info).

Definition listening_event (owner : option ProcessInfo) (address : Endpoint) : ProcessEvent :=
  mkProcessEvent Listening (match owner with Some info => info.(pi_key).1 | None => 0 end)
    (match owner with Some info => pi_name info | None => of_string "unknown" end) (owner ≫= pi_executable)
    (Some (of_string "listening on " ++ socket_to_string address)) (owner ≫= pi_uid) (owner ≫= pi_parent_pid).

Definition sweep (tree : ProcTree) (w : Watcher) : Watcher * SweepOutcome :=
  let s := snapshot tree (wa_limits w) in
  let events :=
    if wa_established w then
      (started_event <$> (filter (fun e => e.1 ∉ wa_known_processes w) (sn_processes s)).*2) ++
      ((fun e => listening_event (owner_of tree s (ls_inode e.2)) e.1) <$>
         filter (fun e => e.1 ∉ wa_known_listening w) (sn_listening s))
    else [] in
  (mkWatcher (wa_limits w) (sn_processes s).*1 (sn_listening s).*1 true,
   mkSweepOutcome events (sn_truncated s) (len (sn_processes s)) (len (sn_listening s))).

Definition sockets_readable (tree : ProcTree) : bool := pt_tables_exist tree.

(** ** Parsing what the kernel writes *)

(** The line of [/proc/<pid>/stat]: [middle] are the fields between the parent and the start time. *)
Definition stat_line (pid : Z) (comm state : text) (parent : Z) (middle : list text) (start : Z) (more : list text) : text :=
  (show_digits 10 10 pid [] ++ [32]) ++ 40 :: comm ++ 41 :: 32 ::
  unwords (state :: show_digits 10 10 parent [] :: middle ++ show_digits 20 10 start [] :: more).

(** A field of that line: no blank and no closing parenthesis. *)
Definition stat_field (f : text) : bool := report_word f && forallb (fun c => negb (c =? 41)) f.

Lemma digits_stat_field fuel n : (0 < fuel)%nat -> 0 <= n -> stat_field (show_digits fuel 10 n []) = true.
Proof.
  intros Hf Hn. unfold stat_field. rewrite show_digits_report_word by done. apply forallb_forall. intros c Hc.
  pose proof (show_digits_digits fuel n [] Hn ltac:(constructor)) as Hd. rewrite Forall_forall in Hd.
  apply list_elem_of_In, Hd in Hc. unfold is_ascii_digit in Hc. bsimpl. apply negb_true_iff, Z.eqb_neq. lia.
Qed.

Lemma stat_fields_no_paren fields : Forall (fun f => stat_field f = true) fields -> Forall (fun c => c <> 41) (unwords fields).
Proof.
  assert (forall f, stat_field f = true -> Forall (fun c => c <> 41) f) as Hf.
  { intros f [_ H]%andb_true_iff. apply Forall_forall. intros c Hc. rewrite forallb_forall in H. apply list_elem_of_In, H in Hc.
    apply negb_true_iff, Z.eqb_neq in Hc. done. }
  induction 1 as [|f fields H1 H2 IH]; [constructor|]. destruct fields as [|g fields]; [by apply Hf|].
  cbn [unwords]. apply Forall_app. split; [by apply Hf|]. constructor; [lia|exact IH].
Qed.

(** A process cannot misreport itself by its name: whatever characters the command name holds, blanks, parentheses and newlines included, the line of the kernel is read as the name, cleaned and cut, the true parent and the true start time. *)
Theorem stat_name_cannot_forge pid comm state parent middle start more :
  0 <= pid -> 0 <= parent <= U32_MAX -> 0 <= start <= U64_MAX -> length middle = 17%nat ->
  Forall (fun f => stat_field f = true) (state :: middle ++ more) ->
  parse_stat (stat_line pid comm state parent middle start more) = Some (process_sanitise comm 128, Some parent, start).
Proof.
  intros Hpid Hparent Hstart Hm Hf. unfold parse_stat, stat_line. set (before := show_digits 10 10 pid [] ++ [32]).
  set (fields := state :: show_digits 10 10 parent [] :: middle ++ show_digits 20 10 start [] :: more).
  assert (Forall (fun f => stat_field f = true) fields) as Hfields.
  { apply Forall_cons in Hf as [H1 H2]. apply Forall_app in H2 as [H2 H3]. unfold fields.
    repeat constructor; [done|apply digits_stat_field; lia|]. apply Forall_app. split; [done|].
    constructor; [apply digits_stat_field; lia|done]. }
  rewrite split_once_app; cycle 1.
  { unfold before. apply Forall_app. split; [|by repeat constructor].
    eapply Forall_impl; [apply show_digits_digits; [done|constructor]|]. intros c Hc. unfold is_ascii_digit in Hc. bsimpl. lia. }
  cbn [mbind option_bind]. rewrite app_comm_cons, app_assoc, rsplit_once_app; cycle 1.
  { constructor; [lia|by apply stat_fields_no_paren]. }
  cbn [mbind option_bind]. rewrite (proj2 (Z.ltb_ge _ _)) by (rewrite length_app; lia).
  rewrite drop_app_ge by lia. replace (S (length before) - length before)%nat with 1%nat by lia. cbn [drop].
  rewrite split_whitespace_space by done. rewrite split_whitespace_unwords; cycle 1.
  { eapply Forall_impl; [exact Hfields|]. intros f [Hw _]%andb_true_iff. by apply report_word_word. }
  assert (fields !! 1%nat = Some (show_digits 10 10 parent [])) as -> by done.
  assert (fields !! 19%nat = Some (show_digits 20 10 start [])) as ->.
  { unfold fields. change (state :: ?x :: ?l) with ([state; x] ++ l). rewrite lookup_app_r by (simpl; lia).
    rewrite lookup_app_r by (simpl; lia). rewrite Hm. done. }
  cbn [mbind option_bind]. unfold U32_MAX, U64_MAX in *. rewrite !parse_unsigned_show by lia. done.
Qed.

(** [%0nX]: [n] upper-case digits. *)
Definition hex_upper (d : Z) : Z := if d <? 10 then 48 + d else 55 + d.

Fixpoint hex_fixed (n : nat) (x : Z) : text :=
  match n with O => [] | S n' => hex_upper ((x / 16 ^ Z.of_nat n') mod 16) :: hex_fixed n' x end.

Lemma hex_digit_upper d : 0 <= d < 16 -> hex_digit (hex_upper d) = Some d.
Proof.
  intros Hd. unfold hex_upper, hex_digit. destruct (Z.ltb_spec d 10); zdec; cbn; zdec; cbn; zdec; f_equal; lia.
Qed.

Lemma hex_fixed_length n x : length (hex_fixed n x) = n.
Proof. induction n as [|n IH]; cbn; [done|]. by rewrite IH. Qed.

Lemma hex_upper_range d : 0 <= d < 16 -> 48 <= hex_upper d <= 57 \/ 65 <= hex_upper d <= 70.
Proof. intros Hd. unfold hex_upper. destruct (Z.ltb_spec d 10); lia. Qed.

Lemma hex_fixed_chars n x : Forall (fun c => 48 <= c <= 57 \/ 65 <= c <= 70) (hex_fixed n x).
Proof. induction n as [|n IH]; constructor; [|done]. apply hex_upper_range, Z.mod_pos_bound. lia. Qed.

Lemma hex_value_fixed max n x acc :
  0 <= acc -> acc * 16 ^ Z.of_nat n + x mod 16 ^ Z.of_nat n <= max -> 0 <= x ->
  hex_value max acc (hex_fixed n x) = Some (acc * 16 ^ Z.of_nat n + x mod 16 ^ Z.of_nat n).
Proof.
  intros Ha Hmax Hx. revert acc Ha Hmax. induction n as [|n IH]; intros acc Ha Hmax.
  - cbn [hex_fixed hex_value]. change (16 ^ Z.of_nat 0) with 1. rewrite Z.mod_1_r. f_equal. lia.
  - cbn [hex_fixed hex_value]. set (p := 16 ^ Z.of_nat n) in *. assert (0 < p) by (apply Z.pow_pos_nonneg; lia).
    assert (16 ^ Z.of_nat (S n) = p * 16) as Ep by (unfold p; rewrite Nat2Z.inj_succ, Z.pow_succ_r by lia; lia).
    rewrite Ep in *. pose proof (Z.rem_mul_r x p 16 ltac:(lia) ltac:(lia)) as Hr. rewrite Hr in *.
    pose proof (Z.mod_pos_bound (x / p) 16 ltac:(lia)) as Hd. pose proof (Z.mod_pos_bound x p ltac:(lia)) as Hm.
    rewrite hex_digit_upper by done. cbn [mbind option_bind].
    assert (acc * 16 + (x / p) mod 16 <= max) by nia.
    rewrite (proj2 (Z.ltb_ge _ _)) by lia. rewrite IH; [f_equal; lia|lia|lia].
Qed.

Lemma parse_hex_fixed max n x : (0 < n)%nat -> 0 <= x < 16 ^ Z.of_nat n -> x <= max -> parse_hex max (hex_fixed n x) = Some x.
Proof.
  intros Hn Hx Hmax. unfold parse_hex. pose proof (hex_fixed_chars n x) as Hc. pose proof (hex_fixed_length n x) as Hl.
  pose proof (hex_value_fixed max n x 0 ltac:(lia) ltac:(rewrite Z.mod_small; lia) ltac:(lia)) as Hv. rewrite Z.mod_small in Hv by lia.
  destruct (hex_fixed n x) as [|c t]; [cbn in Hl; lia|]. apply Forall_cons in Hc as [Hc _].
  rewrite (proj2 (Z.eqb_neq c 43)) by lia. cbn [andb]. exact Hv.
Qed.

(** How the kernel writes an address of the socket tables: each 32-bit word of the network order is
    printed as the little-endian number it is in memory. *)
Definition kernel_word (octets : list Z) : text := hex_fixed 8 (from_le_bytes octets).

Definition kernel_v4 (address port : Z) : text := kernel_word (be_bytes 4 address) ++ 58 :: hex_fixed 4 port.

Definition kernel_v6 (address port : Z) : text :=
  let octets := be_bytes 16 address in
  kernel_word (take 4 octets) ++ kernel_word (take 4 (drop 4 octets)) ++ kernel_word (take 4 (drop 8 octets)) ++
  kernel_word (take 4 (drop 12 octets)) ++ 58 :: hex_fixed 4 port.

Lemma le_bytes_from_le octets :
  length octets = 4%nat -> Forall (fun b => 0 <= b < 256) octets -> le_bytes 4 (from_le_bytes octets) = octets.
Proof.
  destruct octets as [|a [|b [|c [|d [|]]]]]; intros Hl Hb; try done. rewrite !Forall_cons in Hb. destruct Hb as (Ha & Hb & Hc & Hd & _).
  unfold le_bytes, from_le_bytes, from_be_bytes. change (reverse [a; b; c; d]) with [d; c; b; a]. cbn [foldl be_bytes].
  change (2 ^ (8 * Z.of_nat 3)) with 16777216. change (2 ^ (8 * Z.of_nat 2)) with 65536. change (2 ^ (8 * Z.of_nat 1)) with 256.
  change (2 ^ (8 * Z.of_nat 0)) with 1. set (x := (((0 * 256 + d) * 256 + c) * 256 + b) * 256 + a).
  change (reverse [?p; ?q; ?r; ?s]) with [s; r; q; p]. unfold x. repeat f_equal; Z.div_mod_to_equations; lia.
Qed.

Lemma from_le_range octets : length octets = 4%nat -> Forall (fun b => 0 <= b < 256) octets -> 0 <= from_le_bytes octets < 2 ^ 32.
Proof.
  intros Hl Hb. unfold from_le_bytes. pose proof (from_be_bytes_range (reverse octets) ltac:(by apply Forall_reverse)) as H.
  rewrite length_reverse, Hl in H. exact H.
Qed.

Lemma kernel_word_read octets :
  length octets = 4%nat -> Forall (fun b => 0 <= b < 256) octets ->
  parse_hex U32_MAX (kernel_word octets) = Some (from_le_bytes octets) /\ le_bytes 4 (from_le_bytes octets) = octets.
Proof.
  intros Hl Hb. pose proof (from_le_range octets Hl Hb). split; [|by apply le_bytes_from_le].
  apply parse_hex_fixed; [lia|exact H|unfold U32_MAX; lia].
Qed.

Lemma kernel_word_text octets : text_len (kernel_word octets) = 8 /\ Forall (fun c => c <> 58) (kernel_word octets) /\ length (kernel_word octets) = 8%nat.
Proof.
  unfold kernel_word. pose proof (hex_fixed_chars 8 (from_le_bytes octets)) as Hc. pose proof (hex_fixed_length 8 (from_le_bytes octets)) as Hl.
  split_and!; [|eapply Forall_impl; [exact Hc|]; cbv beta; lia|done]. rewrite plain_text_len; [by rewrite Hl|].
  eapply Forall_impl; [exact Hc|]. intros c Hx. unfold plain_char. destruct Hx; zdec; done.
Qed.

Lemma parse_words_cons words w t x n :
  length w = 8%nat -> parse_hex U32_MAX w = Some x -> n = S words ->
  parse_words n (w ++ t) = (octets ← parse_words words t; Some (le_bytes 4 x ++ octets)).
Proof. intros Hl Hx ->. cbn [parse_words]. by rewrite take_app_length', drop_app_length', Hx by done. Qed.

(** The addresses of the kernel's socket tables are read exactly: for every IPv4 and every IPv6 address and every port, the text the kernel writes is parsed to that address and port. *)
Theorem socket_address_read a port :
  0 <= port <= U16_MAX ->
  (0 <= a < 2 ^ 32 -> parse_hex_address (kernel_v4 a port) false = Some (V4 a, port)) /\
  (0 <= a < 2 ^ 128 -> parse_hex_address (kernel_v6 a port) true = Some (V6 a, port)).
Proof.
  intros Hp. assert (parse_hex U16_MAX (hex_fixed 4 port) = Some port) as Hport by (apply parse_hex_fixed; [lia|change (16 ^ Z.of_nat 4) with 65536; unfold U16_MAX in *; lia|lia]).
  split; intros Ha; unfold parse_hex_address.
  - unfold kernel_v4. destruct (kernel_word_text (be_bytes 4 a)) as (Hl & Hc & _). rewrite split_once_app by done. cbn [mbind option_bind].
    rewrite Hport, Hl. cbn [mbind option_bind]. change (negb (8 =? 8)) with false. cbn iota.
    destruct (kernel_word_read (be_bytes 4 a)) as [-> Hle]; [apply be_bytes_length|apply be_bytes_range|]. cbn [mbind option_bind].
    by rewrite Hle, from_be_bytes_be_bytes.
  - unfold kernel_v6. pose proof (be_bytes_length 16 a) as Hlen. pose proof (be_bytes_range 16 a) as Hr.
    set (octets := be_bytes 16 a) in *. set (w0 := take 4 octets). set (w1 := take 4 (drop 4 octets)).
    set (w2 := take 4 (drop 8 octets)). set (w3 := take 4 (drop 12 octets)).
    assert (octets = w0 ++ w1 ++ w2 ++ w3) as Eo by (destruct octets as [|? [|? [|? [|? [|? [|? [|? [|? [|? [|? [|? [|? [|? [|? [|? [|? [|]]]]]]]]]]]]]]]]]; done).
    assert (forall w, w = w0 \/ w = w1 \/ w = w2 \/ w = w3 -> length w = 4%nat /\ Forall (fun b => 0 <= b < 256) w) as Hw.
    { intros w [->|[->|[->| ->]]]; (split; [unfold w0, w1, w2, w3; rewrite length_take, ?length_drop; lia|by apply Forall_take; try apply Forall_drop]). }
    destruct (kernel_word_text w0) as (L0 & C0 & N0). destruct (kernel_word_text w1) as (L1 & C1 & N1).
    destruct (kernel_word_text w2) as (L2 & C2 & N2). destruct (kernel_word_text w3) as (L3 & C3 & N3).
    rewrite !app_assoc, split_once_app by (by rewrite !Forall_app). cbn [mbind option_bind]. rewrite Hport. cbn [mbind option_bind].
    rewrite !text_len_app, L0, L1, L2, L3. change (negb (8 + 8 + 8 + 8 =? 32)) with false. cbn iota. rewrite <- !app_assoc.
    destruct (kernel_word_read w0) as [R0 E0]; [apply Hw; auto..|]. destruct (kernel_word_read w1) as [R1 E1]; [apply Hw; auto..|].
    destruct (kernel_word_read w2) as [R2 E2]; [apply Hw; auto..|]. destruct (kernel_word_read w3) as [R3 E3]; [apply Hw; auto..|].
    rewrite <- (app_nil_r (kernel_word w3)). rewrite (parse_words_cons 3 _ _ _ _ N0 R0 eq_refl), (parse_words_cons 2 _ _ _ _ N1 R1 eq_refl).
    rewrite (parse_words_cons 1 _ _ _ _ N2 R2 eq_refl), (parse_words_cons 0 _ _ _ _ N3 R3 eq_refl). cbn [parse_words mbind option_bind].
    rewrite E0, E1, E2, E3, app_nil_r, <- Eo. unfold octets. by rewrite from_be_bytes_be_bytes.
Qed.

(** ** Sweeps *)

#[export] Instance ip_order : OrderLaws ip_cmp.
Proof.
  constructor; [apply ip_cmp_eq|intros; apply ip_cmp_antisym|]. intros [x|x] [y|y] [z|z]; simpl; try done; rewrite !Z.compare_lt_iff; lia.
Qed.

#[export] Instance key_order : OrderLaws key_compare := pair_order _ _ _ _.
#[export] Instance socket_order : OrderLaws socket_compare := pair_order _ _ _ _.

(** What the processes of a sweep are, after some of the entries. *)
Record processes_ok (limits : ScanLimits) (entries : list (text * ProcDir)) (s : Snapshot) : Prop := {
  po_order : in_order key_compare (sn_processes s);
  po_bound : len (sn_processes s) <= sl_max_processes limits;
  po_truncated : 0 <= sn_truncated s;
  po_sound key info : (key, info) ∈ sn_processes s ->
    pi_key info = key /\ exists name dir, (name, dir) ∈ entries /\ parse_unsigned U32_MAX name = Some key.1 /\ read_process dir key.1 = Some info;
  po_complete name dir pid info : sn_truncated s = 0 -> (name, dir) ∈ entries -> parse_unsigned U32_MAX name = Some pid ->
    read_process dir pid = Some info -> pi_key info ∈ (sn_processes s).*1
}.

Lemma read_process_pid dir pid info : read_process dir pid = Some info -> (pi_key info).1 = pid.
Proof.
  unfold read_process. destruct (pd_stat dir) as [stat|]; [|done]. cbn [mbind option_bind].
  destruct (parse_stat stat) as [[[name parent] start]|]; [|done]. cbn. by intros [= <-].
Qed.

Lemma scan_entry_ok limits entries s entry :
  processes_ok limits entries s -> processes_ok limits (entries ++ [entry]) (scan_entry limits s entry).
Proof.
  intros [H1 H2 H3 H4 H5]. unfold scan_entry. destruct entry as [name dir]. cbn [fst snd].
  destruct (parse_unsigned U32_MAX name) as [pid|] eqn:Ep;
    [destruct (Z.leb_spec (sl_max_processes limits) (len (sn_processes s)));
      [|destruct (read_process dir pid) as [info|] eqn:Er]|].
  - constructor; cbn; [done|done|lia| |lia]. intros key info Hin. destruct (H4 _ _ Hin) as (E & n & d & Hd & Hn). split; [done|].
    exists n, d. rewrite elem_of_app. tauto.
  - pose proof (read_process_pid _ _ _ Er) as Hpid. constructor; cbn.
    + apply (btree_insert_order _); done.
    + pose proof (btree_insert_length key_compare (pi_key info) info (sn_processes s)). lia.
    + done.
    + intros key i Hin. apply (btree_insert_elem key_compare) in Hin as [[= -> ->]|Hin].
      * split; [done|]. exists name, dir. rewrite Hpid. split; [apply elem_of_app; right; left|done].
      * destruct (H4 _ _ Hin) as (E & n & d & Hd & Hn). split; [done|]. exists n, d. rewrite elem_of_app. tauto.
    + intros n d p i Ht Hin Hn Hi. apply (btree_insert_keys key_compare). apply elem_of_app in Hin as [Hin|Hin]; [right; eauto|left].
      apply list_elem_of_singleton in Hin as [= -> ->]. rewrite Ep in Hn. injection Hn as <-. rewrite Er in Hi. by injection Hi as <-.
  - constructor; cbn; [done|done|done| |].
    + intros key i Hin. destruct (H4 _ _ Hin) as (E & n & d & Hd & Hn). split; [done|]. exists n, d. rewrite elem_of_app. tauto.
    + intros n d p i Ht Hin Hn Hi. apply elem_of_app in Hin as [Hin|Hin]; [eauto|]. apply list_elem_of_singleton in Hin as [= -> ->]. congruence.
  - constructor; [done|done|done| |].
    + intros key i Hin. destruct (H4 _ _ Hin) as (E & n & d & Hd & Hn). split; [done|]. exists n, d. rewrite elem_of_app. tauto.
    + intros n d p i Ht Hin Hn Hi. apply elem_of_app in Hin as [Hin|Hin]; [eauto|]. apply list_elem_of_singleton in Hin as [= -> ->]. congruence.
Qed.

(** Adding sockets changes the sockets only, in order, within the bound, and says when it stopped. *)
Lemma add_sockets_spec limits s sockets :
  in_order socket_compare (sn_listening s) -> len (sn_listening s) <= sl_max_sockets limits ->
  let s' := add_sockets limits s sockets in
  sn_processes s' = sn_processes s /\ in_order socket_compare (sn_listening s') /\ len (sn_listening s') <= sl_max_sockets limits /\
  sn_truncated s <= sn_truncated s' /\
  (forall a, a ∈ (sn_listening s').*1 -> a ∈ (sn_listening s).*1 \/ a ∈ (ls_address <$> sockets)) /\
  (forall a, a ∈ (sn_listening s).*1 -> a ∈ (sn_listening s').*1) /\
  (sn_truncated s' = sn_truncated s -> forall a, a ∈ (ls_address <$> sockets) -> a ∈ (sn_listening s').*1).
Proof.
  revert s. induction sockets as [|socket sockets IH]; intros s Ho Hb; cbn [add_sockets].
  - split_and!; try done; [tauto|]. by intros _ a ?%elem_of_nil.
  - destruct (Z.leb_spec (sl_max_sockets limits) (len (sn_listening s))).
    + cbn. split_and!; try done; [lia|tauto|]. lia.
    + set (s1 := mkSnapshot _ _ _ _). destruct (IH s1) as (A1 & A2 & A3 & A4 & A5 & A6 & A7).
      * apply (btree_insert_order _); done.
      * cbn. pose proof (btree_insert_length socket_compare (ls_address socket) socket (sn_listening s)). lia.
      * split_and!; [done|done|done|done| | |].
        -- intros a Ha. apply A5 in Ha as [Ha|Ha]; [|right; by right]. cbn in Ha. apply (btree_insert_keys socket_compare) in Ha as [->|Ha];
             [right; left|by left].
        -- intros a Ha. apply A6. cbn. apply (btree_insert_keys socket_compare). by right.
        -- intros Ht a Ha. rewrite fmap_cons in Ha. apply elem_of_cons in Ha as [->|Ha]; [|by apply A7].
           apply A6. cbn. apply (btree_insert_keys socket_compare). by left.
Qed.

Lemma add_table_spec limits s table is_v6 :
  in_order socket_compare (sn_listening s) -> len (sn_listening s) <= sl_max_sockets limits ->
  let s' := add_table limits s table is_v6 in
  let sockets := match table with Some t => parse_net_table t is_v6 | None => [] end in
  sn_processes s' = sn_processes s /\ in_order socket_compare (sn_listening s') /\ len (sn_listening s') <= sl_max_sockets limits /\
  sn_truncated s <= sn_truncated s' /\
  (forall a, a ∈ (sn_listening s').*1 -> a ∈ (sn_listening s).*1 \/ a ∈ (ls_address <$> sockets)) /\
  (forall a, a ∈ (sn_listening s).*1 -> a ∈ (sn_listening s').*1) /\
  (sn_truncated s' = sn_truncated s -> forall a, a ∈ (ls_address <$> sockets) -> a ∈ (sn_listening s').*1).
Proof.
  intros Ho Hb. destruct table as [t|]; [by apply add_sockets_spec|]. cbn. split_and!; try done; [tauto|]. by intros _ a ?%elem_of_nil.
Qed.

Definition table_sockets (tree : ProcTree) : list ListeningSocket :=
  match pt_tcp tree with Some t => parse_net_table t false | None => [] end ++
  match pt_tcp6 tree with Some t => parse_net_table t true | None => [] end.

Lemma scan_listening limits entries s : sn_listening (foldl (scan_entry limits) s entries) = sn_listening s.
Proof.
  revert s. induction entries as [|e entries IH]; intros s; [done|]. cbn [foldl]. rewrite IH. unfold scan_entry. by repeat case_match.
Qed.

(** C38: a sweep sees what is there: the processes it returns are in order, one for each identity, at most the configured number, each read from an entry of the tree whose name is its identifier; the listening sockets are those of the tables, each address once and at most the configured number; and when nothing was dropped, every process that can be read and every listening address of the tables is there. *)
Theorem snapshot_exact tree limits entries :
  0 <= sl_max_processes limits -> 0 <= sl_max_sockets limits -> pt_entries tree = Some entries ->
  let s := snapshot tree limits in
  NoDup (sn_processes s).*1 /\ len (sn_processes s) <= sl_max_processes limits /\
  NoDup (sn_listening s).*1 /\ len (sn_listening s) <= sl_max_sockets limits /\
  (forall key info, (key, info) ∈ sn_processes s -> pi_key info = key /\
     exists name dir, Some (name, dir) ∈ entries /\ parse_unsigned U32_MAX name = Some key.1 /\ read_process dir key.1 = Some info) /\
  (forall address, address ∈ (sn_listening s).*1 -> address ∈ (ls_address <$> table_sockets tree)) /\
  (sn_truncated s = 0 ->
     (forall name dir pid info, Some (name, dir) ∈ entries -> parse_unsigned U32_MAX name = Some pid ->
        read_process dir pid = Some info -> pi_key info ∈ (sn_processes s).*1) /\
     (forall address, address ∈ (ls_address <$> table_sockets tree) -> address ∈ (sn_listening s).*1)).
Proof.
  intros Hp Hs He. unfold snapshot. rewrite He. set (s0 := foldl _ _ _).
  assert (processes_ok limits (omap id entries) s0) as [H1 H2 H3 H4 H5].
  { unfold s0. induction (omap id entries) as [|e es IH] using rev_ind; [|rewrite foldl_snoc; by apply scan_entry_ok].
    constructor; cbn; [constructor|done|done|by intros ? ? ?%elem_of_nil|by intros ? ? ? ? _ ?%elem_of_nil]. }
  assert (sn_listening s0 = []) as Hl by apply scan_listening.
  destruct (add_table_spec limits s0 (pt_tcp tree) false) as (A1 & A2 & A3 & A4 & A5 & A6 & A7); [rewrite Hl; constructor|by rewrite Hl|].
  set (s1 := add_table limits s0 (pt_tcp tree) false) in *.
  destruct (add_table_spec limits s1 (pt_tcp6 tree) true) as (B1 & B2 & B3 & B4 & B5 & B6 & B7); [done|done|].
  set (s2 := add_table limits s1 (pt_tcp6 tree) true) in *. cbv zeta. rewrite B1, A1.
  assert (Hent : forall name dir, (name, dir) ∈ omap id entries <-> Some (name, dir) ∈ entries).
  { intros name dir. rewrite list_elem_of_omap. naive_solver. }
  split_and!; [by apply (in_order_nodup key_compare)|done|by apply (in_order_nodup socket_compare)|done| | |].
  - intros key info Hin. destruct (H4 _ _ Hin) as (E & n & d & Hd & Hn). split; [done|]. exists n, d. by rewrite <- Hent.
  - intros a Ha. unfold table_sockets. rewrite fmap_app, elem_of_app. apply B5 in Ha as [Ha|Ha]; [|by right].
    apply A5 in Ha as [Ha|Ha]; [|by left]. rewrite Hl in Ha. by apply elem_of_nil in Ha.
  - intros Ht. split.
    + intros name dir pid info Hin Hn Hi. apply (H5 name dir pid info); [lia|by apply Hent|done|done].
    + intros a Ha. unfold table_sockets in Ha. rewrite fmap_app, elem_of_app in Ha. destruct Ha as [Ha|Ha]; [apply B6, A7; [lia|done]|apply B7; [lia|done]].
Qed.

(** Consecutive sweeps report what is new: after a sweep of one tree, the sweep of another reports a start for exactly the processes whose identifier and start time the first did not see, and a listening event for exactly the addresses it did not see, attributed to a process that holds the socket if one can be found; so a recycled identifier is a new process, and sweeping an unchanged tree reports nothing. The very first sweep reports nothing. *)
Theorem sweeps_report_what_is_new before tree w :
  let s0 := snapshot before (wa_limits w) in
  let s := snapshot tree (wa_limits w) in
  let '(w1, first) := sweep before w in
  let '(w2, o) := sweep tree w1 in
  (forall e, e ∈ so_events o <->
     (exists key info, (key, info) ∈ sn_processes s /\ key ∉ (sn_processes s0).*1 /\ e = started_event info) \/
     (exists address socket, (address, socket) ∈ sn_listening s /\ address ∉ (sn_listening s0).*1 /\
        e = listening_event (owner_of tree s (ls_inode socket)) address)) /\
  (wa_established w = false -> so_events first = []) /\
  so_events (sweep tree w2).2 = [] /\
  so_processes_seen o = len (sn_processes s) /\ so_truncated o = sn_truncated s.
Proof.
  intros s0 s. unfold sweep at 1. fold s0. unfold sweep at 1. cbn [wa_limits wa_established wa_known_processes wa_known_listening so_events so_processes_seen so_truncated].
  fold s. split_and!; [|by intros ->| |done|done].
  - intros e. rewrite elem_of_app, !list_elem_of_fmap. split.
    + intros [(info & -> & Hin)|([address socket] & -> & Hin)].
      * left. apply list_elem_of_fmap in Hin as ([key i] & -> & Hin). apply list_elem_of_filter in Hin as [Hn Hin]. eauto.
      * right. apply list_elem_of_filter in Hin as [Hn Hin]. eauto.
    + intros [(key & info & Hin & Hn & ->)|(address & socket & Hin & Hn & ->)].
      * left. exists info. split; [done|]. apply list_elem_of_fmap. exists (key, info). split; [done|]. by apply list_elem_of_filter.
      * right. exists (address, socket). split; [done|]. by apply list_elem_of_filter.
  - cbn [sweep snd so_events wa_limits wa_established wa_known_processes wa_known_listening]. fold s.
    by rewrite !filter_own_keys.
Qed.

(** One sweep that cannot list the tree makes every process new: after it, whatever was known before, the next sweep reports a start for every process that is running and a listening event for every listening address, although the documentation says that what was already running is not a detection. *)
Theorem blind_sweep_reports_everything blind tree w :
  pt_entries blind = None ->
  let s := snapshot tree (wa_limits w) in
  so_events (sweep tree (sweep blind w).1).2 =
    (started_event <$> (sn_processes s).*2) ++
    ((fun e => listening_event (owner_of tree s (ls_inode e.2)) e.1) <$> sn_listening s).
Proof.
  intros Hb s. unfold sweep at 2. unfold snapshot at 1 2 3 4 5. rewrite Hb. cbn [fst sweep snd so_events wa_limits wa_established wa_known_processes wa_known_listening sn_processes sn_listening].
  fold s. rewrite !fmap_nil. by rewrite !filter_no_keys.
Qed.

(** ** The hypotheses can hold *)

Definition shell_stat : text := stat_line 1234 (of_string "foo) R 1 1 1") (of_string "S") 77 (repeat (of_string "0") 17) 5000 [of_string "0"].

Definition host_tree : ProcTree :=
  mkProcTree (Some [Some (of_string "1234", mkProcDir (Some shell_stat) None None None); None; Some (of_string "self", mkProcDir None None None None)])
    (Some (of_string "header" ++ [10] ++ of_string "0: " ++ kernel_v4 0x7f000001 4444 ++ of_string " 00000000:0000 0A 0 0 0 0 0 99 " ++ [10]))
    None true (fun pid => if pid =? 1234 then Some [Some (socket_needle 99)] else None).

Definition blind_tree : ProcTree := mkProcTree None None None false (fun _ => None).

Lemma stat_name_cannot_forge_witness : parse_stat shell_stat = Some (of_string "foo) R 1 1 1", Some 77, 5000).
Proof.
  apply (stat_name_cannot_forge 1234 (of_string "foo) R 1 1 1") (of_string "S") 77 (repeat (of_string "0") 17) 5000 [of_string "0"]);
    [discriminate|split; discriminate|split; discriminate|reflexivity|repeat constructor].
Defined.

Lemma socket_address_read_witness : parse_hex_address (of_string "0100007F:115C") false = Some (V4 0x7f000001, 4444).
Proof. apply (proj1 (socket_address_read 0x7f000001 4444 ltac:(split; discriminate)) ltac:(split; [discriminate|reflexivity])). Defined.

Lemma snapshot_exact_witness : (1234, 5000) ∈ (sn_processes (snapshot host_tree ScanLimits_default)).*1.
Proof.
  destruct (snapshot_exact host_tree ScanLimits_default _ ltac:(discriminate) ltac:(discriminate) eq_refl) as (_ & _ & _ & _ & _ & _ & H).
  destruct (H ltac:(vm_compute; reflexivity)) as [Hc _].
  apply (Hc (of_string "1234") (mkProcDir (Some shell_stat) None None None) 1234
    (mkProcessInfo (1234, 5000) (of_string "foo) R 1 1 1") None None None (Some 77))); [left|vm_compute; reflexivity|vm_compute; reflexivity].
Defined.

Lemma blind_sweep_reports_everything_witness :
  let w := (sweep host_tree (watcher_new ScanLimits_default)).1 in
  so_events (sweep host_tree w).2 = [] /\ length (so_events (sweep host_tree (sweep blind_tree w).1).2) = 2%nat.
Proof.
  cbv zeta. split; [vm_compute; reflexivity|].
  rewrite (blind_sweep_reports_everything blind_tree host_tree (sweep host_tree (watcher_new ScanLimits_default)).1 eq_refl). vm_compute. reflexivity.
Defined.
