(* ===== verification/Sources.v ===== *)
(** The health of the host sources: [hids/src/sources.rs] and the source types of
    [common/src/event.rs].

    The registry is a [BTreeMap] from the name of a source to its status, here an association list
    in the order of the names. *)

From S2P Require Import Prelude Text Ordered.

Inductive SourceState := SrcActive | SrcDegraded | SrcUnavailable | SrcUnsupported.

#[export] Instance SourceState_eq_dec : EqDecision SourceState.
Proof. solve_decision. Defined.

Definition source_state_as_str (s : SourceState) : text :=
  match s with
  | SrcActive => of_string "active"
  | SrcDegraded => of_string "degraded"
  | SrcUnavailable => of_string "unavailable"
  | SrcUnsupported => of_string "unsupported"
  end.

Definition is_hole (s : SourceState) : bool := negb (bool_decide (s = SrcActive)).

Record SourceStatus := mkSourceStatus {
  src_name : text;
  src_state : SourceState;
  src_detail : text;
  src_records : Z
}.

(** [SourceStatus::default], with a name. *)
Definition SourceStatus_default (name : text) : SourceStatus := mkSourceStatus name SrcActive [] 0.

Definition FIM_REALTIME : text := of_string "fim.realtime".
Definition FIM_BASELINE : text := of_string "fim.baseline".
Definition AUTH_STRUCTURED : text := of_string "auth.structured".
Definition AUTH_FILES : text := of_string "auth.files".
Definition PROCESS_TABLE : text := of_string "process.table".
Definition PROCESS_SOCKETS : text := of_string "process.sockets".

Definition SourceRegistry := list (text * SourceStatus).

Definition registry_new : SourceRegistry := [].

(** The order of [String]: of its bytes, which is the order of its characters. *)
Definition name_compare : text -> text -> comparison := lex_compare Z.compare.

#[export] Instance name_order : OrderLaws name_compare.
Proof. apply lex_order, Z_order. Qed.

Definition registry_get (r : SourceRegistry) (name : text) : option SourceStatus := btree_lookup name_compare name r.

Definition set_source (r : SourceRegistry) (name : text) (state : SourceState) (detail : text) : SourceRegistry :=
  let records := match registry_get r name with Some entry => src_records entry | None => 0 end in
  btree_insert name_compare name (mkSourceStatus name state detail records) r.

Definition active (r : SourceRegistry) (name : text) : SourceRegistry := set_source r name SrcActive [].
Definition unavailable (r : SourceRegistry) (name detail : text) : SourceRegistry := set_source r name SrcUnavailable detail.
Definition unsupported (r : SourceRegistry) (name detail : text) : SourceRegistry := set_source r name SrcUnsupported detail.
Definition degraded (r : SourceRegistry) (name detail : text) : SourceRegistry := set_source r name SrcDegraded detail.

(** [entry].[or_insert_with], then the records are counted. *)
Definition produced (r : SourceRegistry) (name : text) (count : Z) : SourceRegistry :=
  let e := unwrap_or (SourceStatus_default name) (registry_get r name) in
  btree_insert name_compare name (mkSourceStatus (src_name e) (src_state e) (src_detail e) (src_records e + count)) r.

Definition state (r : SourceRegistry) (name : text) : option SourceState := src_state <$> registry_get r name.

Definition registry_snapshot (r : SourceRegistry) : list SourceStatus := r.*2.

Definition holes (r : SourceRegistry) : list SourceStatus := filter (fun e => is_hole (src_state e) = true) r.*2.

Definition no_backend : text := of_string "no host backend for this platform".

Definition platform_gaps (os : text) : list (text * text) :=
  if bool_decide (os = of_string "linux") then []
  else if bool_decide (os = of_string "windows") then
    [(AUTH_STRUCTURED, of_string "Windows Event Log (4624/4625) arrives in Phase 5; journald is Linux-only");
     (PROCESS_TABLE, of_string "ETW process monitoring arrives in Phase 5; /proc is Linux-only");
     (PROCESS_SOCKETS, of_string "GetExtendedTcpTable arrives in Phase 5; /proc/net/tcp is Linux-only")]
  else if bool_decide (os = of_string "macos") then
    [(AUTH_STRUCTURED, of_string "the macOS unified log and OpenBSM arrive in Phase 6; journald is Linux-only");
     (PROCESS_TABLE, of_string "macOS process monitoring arrives in Phase 6; /proc is Linux-only");
     (PROCESS_SOCKETS, of_string "macOS socket enumeration arrives in Phase 6; /proc/net/tcp is Linux-only")]
  else [(AUTH_STRUCTURED, no_backend); (PROCESS_TABLE, no_backend); (PROCESS_SOCKETS, no_backend)].

Definition declare_platform_gaps (os : text) (r : SourceRegistry) : SourceRegistry :=
  foldl (fun r gap => unsupported r gap.1 gap.2) r (platform_gaps os).

(** ** The registry as a map *)

(** Every entry is filed under its own name, in the order of the names, and one that is not working
    says why. *)
Record registry_ok (r : SourceRegistry) : Prop := {
  reg_order : in_order name_compare r;
  reg_names : Forall (fun e => src_name e.2 = e.1) r;
  reg_reasons : Forall (fun e => is_hole (src_state e.2) = true -> src_detail e.2 <> []) r;
  reg_counts : Forall (fun e => 0 <= src_records e.2) r
}.

Lemma registry_new_ok : registry_ok registry_new.
Proof. split; constructor. Qed.

Lemma set_source_get r name state detail other :
  registry_get (set_source r name state detail) other =
    if decide (other = name)
    then Some (mkSourceStatus name state detail (match registry_get r name with Some e => src_records e | None => 0 end))
    else registry_get r other.
Proof. unfold set_source. apply (btree_lookup_insert name_compare). Qed.

Lemma produced_get r name count other :
  registry_get (produced r name count) other =
    if decide (other = name)
    then let e := unwrap_or (SourceStatus_default name) (registry_get r name) in
         Some (mkSourceStatus (src_name e) (src_state e) (src_detail e) (src_records e + count))
    else registry_get r other.
Proof. unfold produced. apply (btree_lookup_insert name_compare). Qed.

Lemma registry_insert_ok r name e :
  registry_ok r -> src_name e = name -> (is_hole (src_state e) = true -> src_detail e <> []) -> 0 <= src_records e ->
  registry_ok (btree_insert name_compare name e r).
Proof.
  intros [H1 H2 H3 H4] Hn Hd Hr. rewrite Forall_forall in H2, H3, H4.
  split; [by apply (btree_insert_order name_compare)| | |]; apply Forall_forall; intros x Hx;
    apply (btree_insert_elem name_compare) in Hx as [->|Hx]; cbn [fst snd]; eauto.
Qed.

Lemma registry_get_ok r name e : registry_ok r -> registry_get r name = Some e ->
  src_name e = name /\ (is_hole (src_state e) = true -> src_detail e <> []) /\ 0 <= src_records e.
Proof.
  intros [_ H2 H3 H4] Hg. apply (btree_lookup_elem name_compare) in Hg. rewrite Forall_forall in H2, H3, H4.
  split_and!; [by apply (H2 (name, e))|by apply (H3 (name, e))|by apply (H4 (name, e))].
Qed.

Lemma set_source_ok r name state detail : registry_ok r -> (is_hole state = true -> detail <> []) -> registry_ok (set_source r name state detail).
Proof.
  intros Hr Hd. apply registry_insert_ok; cbn; try done. destruct (registry_get r name) as [e|] eqn:E; [|lia].
  by apply (registry_get_ok r name e Hr E).
Qed.

Lemma produced_ok r name count : registry_ok r -> 0 <= count -> registry_ok (produced r name count).
Proof.
  intros Hr Hc. apply registry_insert_ok; cbn; try done; destruct (registry_get r name) as [e|] eqn:E; cbn; try done; try lia;
    destruct (registry_get_ok r name e Hr E) as (? & ? & ?); auto; lia.
Qed.

Lemma active_ok r name : registry_ok r -> registry_ok (active r name).
Proof. intros. by apply set_source_ok. Qed.

Lemma unavailable_ok r name detail : registry_ok r -> detail <> [] -> registry_ok (unavailable r name detail).
Proof. intros. by apply set_source_ok. Qed.

Lemma unsupported_ok r name detail : registry_ok r -> detail <> [] -> registry_ok (unsupported r name detail).
Proof. intros. by apply set_source_ok. Qed.

Lemma degraded_ok r name detail : registry_ok r -> detail <> [] -> registry_ok (degraded r name detail).
Proof. intros. by apply set_source_ok. Qed.

#[export] Hint Resolve registry_new_ok active_ok unavailable_ok unsupported_ok degraded_ok produced_ok : registry.

Lemma declare_platform_gaps_ok os r : registry_ok r -> registry_ok (declare_platform_gaps os r).
Proof.
  intros Hr. unfold declare_platform_gaps, platform_gaps. repeat case_match; cbn [foldl]; auto 10 with registry.
  all: repeat (apply unsupported_ok; [|done]); done.
Qed.

(** The sources with a state that is not active are the holes, and only they. *)
Lemma holes_exact r e : registry_ok r ->
  e ∈ holes r <-> registry_get r (src_name e) = Some e /\ src_state e <> SrcActive.
Proof.
  intros Hr. unfold holes. rewrite list_elem_of_filter. unfold is_hole. rewrite negb_true_iff, bool_decide_eq_false. split.
  - intros [Hs Hin]. split; [|done]. apply list_elem_of_fmap in Hin as ([name e'] & -> & Hin).
    destruct Hr as [Ho Hn _ _]. rewrite Forall_forall in Hn. rewrite (Hn _ Hin). cbn [fst snd].
    by apply (btree_lookup_in name_compare).
  - intros [Hg Hs]. split; [done|]. apply (btree_lookup_elem name_compare) in Hg. apply list_elem_of_fmap. by exists (src_name e, e).
Qed.

(** ** The states *)

Lemma state_set r name st detail other :
  state (set_source r name st detail) other = if decide (other = name) then Some st else state r other.
Proof. unfold state. rewrite set_source_get. by case_decide. Qed.

(** Counting records does not change a state that was declared. *)
Lemma state_produced r name count other :
  state (produced r name count) other = if decide (other = name /\ state r name = None) then Some SrcActive else state r other.
Proof.
  unfold state. rewrite produced_get. destruct (decide (other = name)) as [->|Hn].
  - destruct (registry_get r name) eqn:E; cbn; [rewrite decide_False by (intros [_ ?]; done)|rewrite decide_True by done]; done.
  - by rewrite decide_False by tauto.
Qed.

Lemma state_gap os r name :
  state (declare_platform_gaps os r) name = if decide (name ∈ (platform_gaps os).*1) then Some SrcUnsupported else state r name.
Proof.
  unfold declare_platform_gaps. revert r. induction (platform_gaps os) as [|gap gaps IH]; intros r; cbn [foldl].
  - by rewrite decide_False by apply not_elem_of_nil.
  - rewrite IH. rewrite fmap_cons. unfold unsupported. rewrite state_set. repeat case_decide; try done; set_solver.
Qed.
