(* ===== verification/FimWorker.v ===== *)
(** The file integrity worker: [FimWorker] of [hids/src/sensor.rs], on the [Monitor] of [Fim].

    The worker runs on its own thread beside the watcher's, which sends it notifications over a
    bounded channel. A [Moment] is what the watcher's thread did, and what the filesystem was, when
    the worker looked at the channel; a tick sees one for each of its looks, so every interleaving of
    the two threads is a choice of moments. *)

From S2P Require Import Prelude Text Event Fim.

(** ** Channels: [std::sync::mpsc::sync_channel] *)

Definition CHANNEL_DEPTH : Z := 4096.

(** What is queued, and whether the sending side is still there. *)
Record Channel (A : Type) := mkChannel {
  ch_queue : list A;
  ch_connected : bool
}.
Arguments mkChannel {A} _ _.
Arguments ch_queue {A} _.
Arguments ch_connected {A} _.

Definition sync_channel {A : Type} : Channel A := mkChannel [] true.

(** [try_send], whose result the callers ignore: a full channel drops the value. *)
Definition try_send {A : Type} (c : Channel A) (x : A) : Channel A :=
  if CHANNEL_DEPTH <=? len (ch_queue c) then c else mkChannel (ch_queue c ++ [x]) (ch_connected c).

Inductive Received (A : Type) := Got (x : A) (c : Channel A) | Empty | Disconnected.
Arguments Got {A} _ _.
Arguments Empty {A}.
Arguments Disconnected {A}.

Definition try_recv {A : Type} (c : Channel A) : Received A :=
  match ch_queue c with
  | x :: queue => Got x (mkChannel queue (ch_connected c))
  | [] => if ch_connected c then Empty else Disconnected
  end.

#[export] Instance FimDetection_eq_dec : EqDecision FimDetection.
Proof. solve_decision. Defined.

(** ** The worker *)

Definition MAX_NOTIFICATIONS_PER_TICK : nat := 512.

Record FimCounters := mkFimCounters {
  fc_watched_paths : Z;
  fc_watch_failures : Z;
  fc_realtime : Z;
  fc_rescan : Z;
  fc_overflows : Z;
  fc_rescans : Z;
  fc_baseline_entries : Z
}.

Definition FimCounters_default : FimCounters := mkFimCounters 0 0 0 0 0 0 0.

Definition count_watched (c : FimCounters) : FimCounters :=
  mkFimCounters (fc_watched_paths c + 1) (fc_watch_failures c) (fc_realtime c) (fc_rescan c) (fc_overflows c) (fc_rescans c) (fc_baseline_entries c).
Definition count_failure (c : FimCounters) : FimCounters :=
  mkFimCounters (fc_watched_paths c) (fc_watch_failures c + 1) (fc_realtime c) (fc_rescan c) (fc_overflows c) (fc_rescans c) (fc_baseline_entries c).
Definition count_realtime (n : Z) (c : FimCounters) : FimCounters :=
  mkFimCounters (fc_watched_paths c) (fc_watch_failures c) (fc_realtime c + n) (fc_rescan c) (fc_overflows c) (fc_rescans c) (fc_baseline_entries c).
Definition count_overflow (c : FimCounters) : FimCounters :=
  mkFimCounters (fc_watched_paths c) (fc_watch_failures c) (fc_realtime c) (fc_rescan c) (fc_overflows c + 1) (fc_rescans c) (fc_baseline_entries c).
Definition count_rescan (n entries : Z) (c : FimCounters) : FimCounters :=
  mkFimCounters (fc_watched_paths c) (fc_watch_failures c) (fc_realtime c) (fc_rescan c + n) (fc_overflows c) (fc_rescans c + 1) entries.

Record FimUpdate := mkFimUpdate {
  fu_events : list FimEvent;
  fu_overflows : Z;
  fu_counters : FimCounters
}.

(** [notify::Result<notify::Event>], as far as the worker looks at it: an error, or an event with its
    rescan flag and its paths. *)
Inductive Notification := NotifyError | NotifyEvent (need_rescan : bool) (paths : list text).

Record Moment := mkMoment {
  mt_arrived : list Notification;
  mt_closed : bool;
  mt_fs : Filesystem
}.

(** The watcher's thread: it forwards what arrived, and may be gone afterwards. *)
Definition watcher_runs (m : Moment) (c : Channel Notification) : Channel Notification :=
  let c := foldl try_send c (mt_arrived m) in
  mkChannel (ch_queue c) (ch_connected c && negb (mt_closed m)).

Section worker.
Context `{Sqlite} (sha256_hex : list Z -> text).

(** [_watcher] and [notifications] are set and cleared together; the running flag is what
    [rescan_until] asks, an input of each rescan. *)
Record FimWorker := mkFimWorker {
  fw_monitor : Monitor;
  fw_notifications : option (Channel Notification);
  fw_rescan_interval : Z;
  fw_next_rescan : option Z;
  fw_overflow_pending : bool;
  fw_counters : FimCounters
}.

Definition set_monitor (w : FimWorker) (m : Monitor) : FimWorker :=
  mkFimWorker m (fw_notifications w) (fw_rescan_interval w) (fw_next_rescan w) (fw_overflow_pending w) (fw_counters w).
Definition set_notifications (w : FimWorker) (n : option (Channel Notification)) : FimWorker :=
  mkFimWorker (fw_monitor w) n (fw_rescan_interval w) (fw_next_rescan w) (fw_overflow_pending w) (fw_counters w).
Definition set_next_rescan (w : FimWorker) (t : option Z) : FimWorker :=
  mkFimWorker (fw_monitor w) (fw_notifications w) (fw_rescan_interval w) t (fw_overflow_pending w) (fw_counters w).
Definition set_overflow_pending (w : FimWorker) (b : bool) : FimWorker :=
  mkFimWorker (fw_monitor w) (fw_notifications w) (fw_rescan_interval w) (fw_next_rescan w) b (fw_counters w).
Definition set_counters (w : FimWorker) (c : FimCounters) : FimWorker :=
  mkFimWorker (fw_monitor w) (fw_notifications w) (fw_rescan_interval w) (fw_next_rescan w) (fw_overflow_pending w) c.

(** [install_watcher]: [attach] is [None] when there is no watcher, and says of each path whether it
    could be watched otherwise. *)
Definition install_watcher (attach : option (text -> bool)) (settings : FimSettings) (w : FimWorker) : FimWorker :=
  match attach with
  | None => set_counters w (count_failure (fw_counters w))
  | Some watch =>
      let counters := foldl (fun c path => if watch path then count_watched c else count_failure c) (fw_counters w) (fs_paths settings) in
      set_notifications (set_counters w counters) (Some sync_channel)
  end.

(** [FimWorker::start]: [opened] is what opening the baseline gives. *)
Definition worker_start (canonicalize : text -> option text) (opened : unit + Store) (attach : option (text -> bool))
    (settings : FimSettings) : unit + FimWorker :=
  let '(paths, _) := resolve_roots canonicalize (fs_paths settings) in
  let settings := mkFimSettings paths (fs_baseline_path settings) (fs_rescan_interval settings) (fs_max_file_bytes settings)
                    (fs_max_depth settings) (fs_max_entries settings) in
  match opened with
  | inl e => inl e
  | inr baseline =>
      inr (install_watcher attach settings
             (mkFimWorker (monitor_new settings baseline) None (fs_rescan_interval settings) None false FimCounters_default))
  end.

(** The loop over the paths of a notification; an error of the database is only logged. *)
Fixpoint recheck_paths (now : Filesystem) (m : Monitor) (paths : list text) : Monitor * list FimEvent :=
  match paths with
  | [] => (m, [])
  | path :: paths =>
      let '(m, result) := recheck sha256_hex now m path in
      let '(m, events) := recheck_paths now m paths in
      (m, match result with inr (Some e) => e :: events | _ => events end)
  end.

Definition handle_notification (now : Filesystem) (w : FimWorker) (n : Notification) : FimWorker * (list FimEvent * bool) :=
  match n with
  | NotifyError => (set_overflow_pending (set_counters w (count_failure (fw_counters w))) true, ([], true))
  | NotifyEvent need_rescan paths =>
      if (need_rescan : bool) then (set_overflow_pending (set_counters w (count_overflow (fw_counters w))) true, ([], true))
      else
        let '(m, events) := recheck_paths now (fw_monitor w) paths in
        (set_counters (set_monitor w m) (count_realtime (len events) (fw_counters w)), (events, false))
  end.

(** The watcher's thread is gone. *)
Definition lose_watcher (w : FimWorker) : FimWorker :=
  set_notifications (set_overflow_pending (set_counters w (count_failure (fw_counters w))) true) None.

(** The loop of [tick] over the notifications. *)
Fixpoint drain (n : nat) (moments : nat -> Moment) (w : FimWorker) : FimWorker * list FimEvent :=
  match n with
  | O => (w, [])
  | S n =>
      match fw_notifications w with
      | None => (w, [])
      | Some c =>
          let c := watcher_runs (moments O) c in
          match try_recv c with
          | Got x c =>
              let '(w, (events, _)) := handle_notification (mt_fs (moments O)) (set_notifications w (Some c)) x in
              let '(w, more) := drain n (fun i => moments (S i)) w in
              (w, events ++ more)
          | Empty => (set_notifications w (Some c), [])
          | Disconnected => (lose_watcher w, [])
          end
      end
  end.

(** [FimWorker::rescan]: the walk sees [fs], the inspections see [now], and [continue] is what the
    running flag says each time it is asked. *)
Definition worker_rescan (fs now : Filesystem) (continue : list bool) (w : FimWorker) : FimWorker * list FimEvent :=
  match rescan_until sha256_hex fs now BaselineRescan continue (fw_monitor w) with
  | (m, inr outcome) =>
      let entries := match baseline_len (mo_baseline m) with inr n => n | inl _ => 0 end in
      (set_counters (set_monitor w m) (count_rescan (len (ro_events outcome)) entries (fw_counters w)), ro_events outcome)
  | (m, inl _) => (set_monitor w m, [])
  end.

(** What a tick meets. *)
Record TickInput := mkTickInput {
  ti_moments : nat -> Moment;
  ti_walked : Filesystem;
  ti_inspected : Filesystem;
  ti_continue : list bool;
  ti_now : Z
}.

Definition rescan_due (w : FimWorker) (now : Z) : bool :=
  match fw_next_rescan w with None => true | Some next => next <=? now end.

(** [tick], of one that does not panic. *)
Definition tick (i : TickInput) (w : FimWorker) : FimWorker * FimUpdate :=
  let '(w, events) := drain MAX_NOTIFICATIONS_PER_TICK (ti_moments i) w in
  let forced := fw_overflow_pending w in
  let w := set_overflow_pending w false in
  let '(w, found) :=
    if forced || rescan_due w (ti_now i)
    then let '(w, found) := worker_rescan (ti_walked i) (ti_inspected i) (ti_continue i) w in
         (set_next_rescan w (Some (ti_now i + fw_rescan_interval w)), found)
    else (w, []) in
  (w, mkFimUpdate (events ++ found) (if forced then 1 else 0) (fw_counters w)).

(** The panic of a tick, after its rescan: the time of the next one would be past the latest instant. *)
Definition tick_panics (i : TickInput) (w : FimWorker) : bool :=
  let '(drained, _) := drain MAX_NOTIFICATIONS_PER_TICK (ti_moments i) w in
  (fw_overflow_pending drained || rescan_due w (ti_now i)) && bool_decide (instant_add (ti_now i) (fw_rescan_interval w) = None).
End worker.

(** ** The channel *)

Lemma try_sends_prefix {A : Type} (c : Channel A) (xs : list A) :
  exists more, ch_queue (foldl try_send c xs) = ch_queue c ++ more.
Proof.
  revert c. induction xs as [|x xs IH]; intros c; cbn [foldl]; [exists []; by rewrite app_nil_r|].
  destruct (IH (try_send c x)) as [more ->]. unfold try_send. destruct (CHANNEL_DEPTH <=? len (ch_queue c)); [eauto|].
  cbn [ch_queue]. rewrite <- app_assoc. eauto.
Qed.

Lemma try_send_depth {A : Type} (c : Channel A) x : len (ch_queue c) <= CHANNEL_DEPTH -> len (ch_queue (try_send c x)) <= CHANNEL_DEPTH.
Proof.
  intros Hc. unfold try_send. destruct (Z.leb_spec CHANNEL_DEPTH (len (ch_queue c))); [done|]. cbn [ch_queue]. rewrite length_app. cbn. lia.
Qed.

Lemma watcher_runs_prefix m c : exists more, ch_queue (watcher_runs m c) = ch_queue c ++ more.
Proof. apply try_sends_prefix. Qed.

Section facts.
Context `{Sqlite} (sha256_hex : list Z -> text).

(** ** What the loop over the notifications does *)

Definition is_gap (n : Notification) : bool := match n with NotifyError => true | NotifyEvent need_rescan _ => need_rescan end.

Lemma handle_notification_pending now w n :
  let '(w', (events, gap)) := handle_notification sha256_hex now w n in
  gap = is_gap n /\ fw_overflow_pending w' = fw_overflow_pending w || is_gap n /\ fw_notifications w' = fw_notifications w /\
  fw_next_rescan w' = fw_next_rescan w /\ fw_rescan_interval w' = fw_rescan_interval w /\ (gap = true -> events = []).
Proof.
  destruct n as [|[] paths]; cbn; rewrite ?orb_true_r, ?orb_false_r; [done|done|].
  by destruct (recheck_paths sha256_hex now (fw_monitor w) paths).
Qed.

(** The step of the loop that finds something queued. *)
Lemma drain_got n moments w c x queue :
  fw_notifications w = Some c -> ch_queue c = x :: queue ->
  exists more connected,
    drain sha256_hex (S n) moments w =
      let '(w1, (events, _)) := handle_notification sha256_hex (mt_fs (moments O)) (set_notifications w (Some (mkChannel (queue ++ more) connected))) x in
      let '(w2, rest) := drain sha256_hex n (fun i => moments (S i)) w1 in (w2, events ++ rest).
Proof.
  intros Hc Hq. cbn [drain]. rewrite Hc. unfold try_recv. destruct (watcher_runs_prefix (moments O) c) as [more ->]. rewrite Hq. cbn [app].
  by exists more, (ch_connected (watcher_runs (moments O) c)).
Qed.

Lemma drain_keeps n moments w :
  let '(w', _) := drain sha256_hex n moments w in
  fw_next_rescan w' = fw_next_rescan w /\ fw_rescan_interval w' = fw_rescan_interval w /\
  (fw_overflow_pending w = true -> fw_overflow_pending w' = true).
Proof.
  revert moments w. induction n as [|n IH]; intros moments w; cbn [drain]; [done|].
  destruct (fw_notifications w) as [c|]; [|done]. destruct (try_recv _) as [x c'| |]; [|done|done].
  pose proof (handle_notification_pending (mt_fs (moments O)) (set_notifications w (Some c')) x) as Hh.
  destruct (handle_notification _ _ _ _) as [w1 [events gap]]. destruct Hh as (_ & Hp & _ & Hn & Hi & _).
  specialize (IH (fun i => moments (S i)) w1). destruct (drain _ n _ w1) as [w2 rest]. destruct IH as (I1 & I2 & I3).
  rewrite I1, I2, Hn, Hi. split_and!; [done|done|]. cbn [set_notifications fw_overflow_pending] in Hp. intros Hw. apply I3. by rewrite Hp, Hw.
Qed.

(** A gap in the queue within reach raises the flag; one out of reach moves up. *)
Lemma drain_gap n moments w c i x :
  fw_notifications w = Some c -> ch_queue c !! i = Some x -> is_gap x = true ->
  let '(w', _) := drain sha256_hex n moments w in
  if decide (i < n)%nat then fw_overflow_pending w' = true
  else exists c', fw_notifications w' = Some c' /\ ch_queue c' !! (i - n)%nat = Some x.
Proof.
  revert moments w c i. induction n as [|n IH]; intros moments w c i Hc Hi Hg.
  { cbn [drain]. rewrite decide_False by lia. rewrite Nat.sub_0_r. eauto. }
  destruct (ch_queue c) as [|y queue] eqn:Hq; [done|].
  destruct (drain_got n moments w c y queue Hc Hq) as (more & connected & ->).
  set (w0 := set_notifications w _).
  pose proof (handle_notification_pending (mt_fs (moments O)) w0 y) as Hh.
  destruct (handle_notification _ _ w0 y) as [w1 [events gap]]. destruct Hh as (_ & Hp & Hn & _).
  destruct i as [|i].
  - injection Hi as ->. rewrite Hg, orb_true_r in Hp. pose proof (drain_keeps n (fun i => moments (S i)) w1) as Hk.
    destruct (drain _ n _ w1) as [w2 rest]. rewrite decide_True by lia. by apply Hk.
  - specialize (IH (fun i => moments (S i)) w1 (mkChannel (queue ++ more) connected) i). cbn [ch_queue] in IH.
    assert ((queue ++ more) !! i = Some x) as Hi'.
    { rewrite lookup_app_l; [done|]. eapply lookup_lt_Some. exact Hi. }
    rewrite Hn in IH. specialize (IH eq_refl Hi' Hg). destruct (drain _ n _ w1) as [w2 rest].
    destruct (decide (i < n)%nat); [by rewrite decide_True by lia|]. rewrite decide_False by lia. by replace (S i - S n)%nat with (i - n)%nat by lia.
Qed.

(** A watcher whose thread has ended is found gone once what it had sent is taken, and that raises the flag. *)
Lemma drain_lost n moments w c :
  fw_notifications w = Some c -> (forall k, mt_arrived (moments k) = []) -> (length (ch_queue c) < n)%nat ->
  ch_connected c = false \/ (exists k, (k <= length (ch_queue c))%nat /\ mt_closed (moments k) = true) ->
  let '(w', _) := drain sha256_hex n moments w in fw_overflow_pending w' = true /\ fw_notifications w' = None.
Proof.
  revert moments w c. induction n as [|n IH]; intros moments w c Hc Ha Hn Hcl; [lia|]. cbn [drain]. rewrite Hc. unfold watcher_runs. rewrite Ha. cbn [foldl].
  unfold try_recv. cbn [ch_queue ch_connected]. destruct (ch_queue c) as [|x queue].
  - assert (ch_connected c && negb (mt_closed (moments O)) = false) as ->; [|done].
    destruct Hcl as [->|(k & Hk & Hx)]; [done|]. cbn in Hk. replace k with O in Hx by lia. by rewrite Hx, andb_false_r.
  - set (w0 := set_notifications w _). pose proof (handle_notification_pending (mt_fs (moments O)) w0 x) as Hh.
    destruct (handle_notification _ _ w0 x) as [w1 [events gap]]. destruct Hh as (_ & _ & Hnot & _).
    specialize (IH (fun i => moments (S i)) w1 _ Hnot (fun k => Ha (S k))). destruct (drain _ n _ w1) as [w2 rest]. apply IH.
    + cbn in *. lia.
    + cbn [ch_connected ch_queue]. destruct Hcl as [->|(k & Hk & Hx)]; [by left|]. destruct k as [|k].
      * left. by rewrite Hx, andb_false_r.
      * right. exists k. cbn in Hk. split; [lia|done].
Qed.

(** ** A tick *)

Lemma worker_rescan_keeps fs now continue w :
  let '(w', _) := worker_rescan sha256_hex fs now continue w in
  fw_notifications w' = fw_notifications w /\ fw_overflow_pending w' = fw_overflow_pending w /\ fw_rescan_interval w' = fw_rescan_interval w.
Proof. unfold worker_rescan. by destruct (rescan_until _ _ _ _ _ _) as [m [e|o]]. Qed.

(** The parts of a tick: the worker and the events after the notifications, then the rescan. *)
Lemma tick_parts i w w' u :
  tick sha256_hex i w = (w', u) ->
  exists w1 events found,
    drain sha256_hex MAX_NOTIFICATIONS_PER_TICK (ti_moments i) w = (w1, events) /\
    fu_events u = events ++ found /\ fu_overflows u = (if fw_overflow_pending w1 then 1 else 0) /\ fu_counters u = fw_counters w' /\
    fw_overflow_pending w' = false /\ fw_notifications w' = fw_notifications w1 /\ fw_rescan_interval w' = fw_rescan_interval w /\
    if fw_overflow_pending w1 || rescan_due w (ti_now i)
    then fw_next_rescan w' = Some (ti_now i + fw_rescan_interval w) /\
         exists w2, worker_rescan sha256_hex (ti_walked i) (ti_inspected i) (ti_continue i) w1 = (w2, found) /\
           fw_monitor w' = fw_monitor w2 /\ fw_counters w' = fw_counters w2
    else found = [] /\ fw_next_rescan w' = fw_next_rescan w /\ fw_monitor w' = fw_monitor w1 /\ fw_counters w' = fw_counters w1.
Proof.
  unfold tick. pose proof (drain_keeps MAX_NOTIFICATIONS_PER_TICK (ti_moments i) w) as Hk.
  destruct (drain _ _ _ w) as [w1 events] eqn:Ed. destruct Hk as (Hk1 & Hk2 & _). unfold rescan_due. cbn [set_overflow_pending fw_next_rescan].
  rewrite Hk1. fold (rescan_due w (ti_now i)). destruct (fw_overflow_pending w1 || rescan_due w (ti_now i)) eqn:Ef.
  - unfold worker_rescan. cbn [fw_monitor set_overflow_pending].
    destruct (rescan_until _ _ _ _ _ (fw_monitor w1)) as [m [e|o]] eqn:Er; intros [= <- <-]; exists w1, events; eexists;
      split_and!; try done; try (rewrite Ef, Er); cbn; rewrite ?Hk2; eauto 10.
  - intros [= <- <-]. exists w1, events, []. rewrite app_nil_r, Ef. done.
Qed.
End facts.

(** ** What a forced rescan finds *)

Section complete.
Context `{SqliteLaws} (sha256_hex : list Z -> text).

(** Every path of this name is in the state [node]; nothing is said when there is none. *)
Definition stands_for (now : Filesystem) (m : Monitor) (key : text) (node : option FileRecord) : Prop :=
  forall current, node = Some current -> forall q, to_string_lossy q = key -> inspected sha256_hex now m q = Some current.

(** What the rechecks of a tick leave for the rescan, for one name and what is in its place: the
    baseline still knows what it knew, or the change was reported. *)
Record accounted (key : text) (node : option FileRecord) (m m' : Monitor) (events : list FimEvent) : Prop := {
  acc_settings : mo_settings m' = mo_settings m;
  acc_establishing : mo_establishing m' = mo_establishing m;
  acc_changed current : node = Some current ->
    rows (mo_baseline m') !! key = rows (mo_baseline m) !! key \/
    rows (mo_baseline m') !! key = Some (record_row current) /\
      (forall e, difference key (known m key) current RealTime = Some e -> e ∈ events);
  acc_deleted : is_Some (rows (mo_baseline m) !! key) ->
    is_Some (rows (mo_baseline m') !! key) \/ exists previous, deleted_event key RealTime (Some previous) ∈ events
}.

Lemma accounted_refl key node m events : accounted key node m m events.
Proof. split; auto. Qed.

Lemma accounted_trans key node m m1 m2 e1 e2 :
  accounted key node m m1 e1 -> accounted key node m1 m2 e2 -> accounted key node m m2 (e1 ++ e2).
Proof.
  intros [A1 A2 A3 A4] [B1 B2 B3 B4]. split; [congruence|congruence| |].
  - intros current Hn. destruct (A3 current Hn) as [Ha|[Ha He]], (B3 current Hn) as [Hb|[Hb Hf]]; rewrite ?Hb.
    + by left.
    + right. split; [done|]. intros e Hd. apply elem_of_app. right. apply Hf. unfold known in *. by rewrite Ha.
    + right. split; [done|]. intros e Hd. apply elem_of_app. left. by apply He.
    + right. split; [done|]. intros e Hd. apply elem_of_app. left. by apply He.
  - intros Hs. destruct (A4 Hs) as [Ha|[previous Ha]].
    + destruct (B4 Ha) as [|[previous ?]]; [by left|]. right. exists previous. apply elem_of_app. by right.
    + right. exists previous. apply elem_of_app. by left.
Qed.

Lemma stands_for_settings now m m1 key node : mo_settings m1 = mo_settings m -> stands_for now m key node -> stands_for now m1 key node.
Proof. intros Hs Hst current Hn q Hq. unfold inspected. rewrite Hs. by apply Hst. Qed.

Lemma recheck_accounted now m q m' result key node :
  mo_establishing m = false -> stands_for now m key node -> recheck sha256_hex now m q = (m', result) ->
  accounted key node m m' (match result with inr (Some e) => [e] | _ => [] end).
Proof.
  intros He Hst E. destruct (is_watched m q) eqn:Hw; cycle 1.
  { unfold recheck in E. rewrite Hw in E. injection E as <- <-. apply accounted_refl. }
  destruct result as [[]|e].
  { enough (m' = m) as -> by apply accounted_refl. unfold recheck in E. rewrite Hw, He in E. cbn [negb] in E. by repeat case_match; simplify_eq. }
  destruct (recheck_established _ _ _ _ _ _ He Hw E) as (Hs & He' & Hr). destruct (decide (to_string_lossy q = key)) as [<-|Hn].
  - specialize (fun current Hc => Hst current Hc q eq_refl) as Hq. unfold inspected in Hq.
    destruct (inspect _ _ _ _) as [|[current|]]; [destruct Hr as [-> ->]; apply accounted_refl| |]; destruct Hr as [-> Hr].
    + split; [done|congruence| |].
      * intros c Hc. specialize (Hq c Hc). injection Hq as <-. right. rewrite Hr, lookup_insert_eq. split; [done|]. intros e ->. by left.
      * intros _. left. rewrite Hr, lookup_insert_eq. eauto.
    + split; [done|congruence|intros c Hc; by specialize (Hq c Hc)|]. intros [row Hrow]. right. unfold known. rewrite Hrow. cbn. eexists. by left.
  - assert (rows (mo_baseline m') !! key = rows (mo_baseline m) !! key) as Hp.
    { destruct (inspect _ _ _ _) as [|[current|]]; [by destruct Hr as [_ ->]| |]; destruct Hr as [_ ->]; by rewrite ?lookup_insert_ne, ?lookup_delete_ne. }
    split; [done|congruence| |]; rewrite Hp; auto.
Qed.

Lemma recheck_paths_accounted now m paths key node :
  mo_establishing m = false -> stands_for now m key node ->
  let '(m', events) := recheck_paths sha256_hex now m paths in accounted key node m m' events.
Proof.
  revert m. induction paths as [|q paths IH]; intros m He Hst; cbn [recheck_paths]; [apply accounted_refl|].
  destruct (recheck sha256_hex now m q) as [m1 result] eqn:E1. pose proof (recheck_accounted _ _ _ _ _ key node He Hst E1) as H1.
  assert (mo_establishing m1 = false) as He1 by (rewrite (acc_establishing _ _ _ _ _ H1); done).
  specialize (IH m1 He1 (stands_for_settings _ _ _ _ _ (acc_settings _ _ _ _ _ H1) Hst)).
  destruct (recheck_paths sha256_hex now m1 paths) as [m2 events].
  pose proof (accounted_trans _ _ _ _ _ _ _ H1 IH) as Ht. by destruct result as [|[|]].
Qed.

Lemma drain_accounted n moments w key node :
  mo_establishing (fw_monitor w) = false -> (forall k, stands_for (mt_fs (moments k)) (fw_monitor w) key node) ->
  let '(w', events) := drain sha256_hex n moments w in accounted key node (fw_monitor w) (fw_monitor w') events.
Proof.
  revert moments w. induction n as [|n IH]; intros moments w He Hm; cbn [drain]; [apply accounted_refl|].
  destruct (fw_notifications w) as [c|]; [|apply accounted_refl]. destruct (try_recv _) as [x c'| |]; [|apply accounted_refl|apply accounted_refl].
  destruct (handle_notification _ _ _ x) as [w1 [events gap]] eqn:Eh.
  assert (accounted key node (fw_monitor w) (fw_monitor w1) events) as H1.
  { destruct x as [|[] paths]; cbn in Eh; [injection Eh as <- <- <-; apply accounted_refl..|].
    pose proof (recheck_paths_accounted (mt_fs (moments O)) (fw_monitor w) paths key node He (Hm O)) as Hr.
    destruct (recheck_paths _ _ _ _) as [m1 ev]. by injection Eh as <- <- <-. }
  specialize (IH (fun i => moments (S i)) w1). rewrite (acc_establishing _ _ _ _ _ H1) in IH.
  specialize (IH He (fun k => stands_for_settings _ _ _ _ _ (acc_settings _ _ _ _ _ H1) (Hm (S k)))).
  destruct (drain _ n _ w1) as [w2 more]. by apply (accounted_trans _ _ _ _ _ _ _ H1 IH).
Qed.

(** The watcher lost something, and the worker has not looked since: the flag is up, or a notification
    of the gap is among those the next tick takes. *)
Definition gap_in_reach (w : FimWorker) : Prop :=
  fw_overflow_pending w = true \/
  exists c k x, fw_notifications w = Some c /\ ch_queue c !! k = Some x /\ (k < MAX_NOTIFICATIONS_PER_TICK)%nat /\ is_gap x = true.

(** The thread of the watcher has ended, by the time the worker has taken what it had sent, which this tick can. *)
Definition watcher_lost (i : TickInput) (w : FimWorker) : Prop :=
  exists c, fw_notifications w = Some c /\ (length (ch_queue c) < MAX_NOTIFICATIONS_PER_TICK)%nat /\
    (forall k, mt_arrived (ti_moments i k) = []) /\
    (ch_connected c = false \/ exists k, (k <= length (ch_queue c))%nat /\ mt_closed (ti_moments i k) = true).

Definition blind (i : TickInput) (w : FimWorker) : Prop := gap_in_reach w \/ watcher_lost i w.

Lemma blind_forced i w : blind i w -> fw_overflow_pending (drain sha256_hex MAX_NOTIFICATIONS_PER_TICK (ti_moments i) w).1 = true.
Proof.
  intros [[Hp|(c & k & x & Hc & Hk & Hlt & Hg)]|(c & Hc & Hn & Ha & Hcl)].
  - pose proof (drain_keeps sha256_hex MAX_NOTIFICATIONS_PER_TICK (ti_moments i) w) as Hd. destruct (drain _ _ _ w). by apply Hd.
  - pose proof (drain_gap sha256_hex MAX_NOTIFICATIONS_PER_TICK (ti_moments i) w c k x Hc Hk Hg) as Hd. destruct (drain _ _ _ w). by rewrite decide_True in Hd.
  - pose proof (drain_lost sha256_hex MAX_NOTIFICATIONS_PER_TICK (ti_moments i) w c Hc Ha Hn Hcl) as Hd. destruct (drain _ _ _ w). by destruct Hd.
Qed.

(** The path keeps its state while the notifications are handled, and no other has its name. *)
Definition unchanged (i : TickInput) (path : text) : Prop := forall k, mt_fs (ti_moments i k) path = ti_inspected i path.
Definition name_of_its_own (path : text) : Prop := forall q, to_string_lossy q = to_string_lossy path -> q = path.

Lemma ascii_name path : ascii path -> name_of_its_own path.
Proof. intros Ha q Hq. unfold to_string_lossy in Hq. rewrite (utf8_lossy_ascii path Ha) in Hq. by apply (utf8_lossy_ascii_inj q path Ha). Qed.

(** What a tick that compares everything with the baseline reports, and what the baseline holds then. *)
Definition all_reported (i : TickInput) (w w' : FimWorker) (u : FimUpdate) : Prop :=
  (forall path current, path ∈ found_paths (ti_walked i) (fw_monitor w) -> state_of sha256_hex (ti_inspected i) (fw_monitor w) path current ->
     unchanged i path -> name_of_its_own path ->
     rows (mo_baseline (fw_monitor w')) !! to_string_lossy path = Some (record_row current) /\
     forall change, change_between (known (fw_monitor w) (to_string_lossy path)) current change ->
       exists by_, change_event (to_string_lossy path) change by_ (known (fw_monitor w) (to_string_lossy path)) current ∈ fu_events u) /\
  (forall key, is_Some (rows (mo_baseline (fw_monitor w)) !! key) -> key ∉ found_keys (ti_walked i) (fw_monitor w) ->
     (exists root, root ∈ root_keys (fw_monitor w) /\ has_prefix root key) ->
     exists e, e ∈ fu_events u /\ fim_path e = key /\ fim_change e = Deleted).

Lemma overflow_recovered_full i w w' u m2 o :
  mo_establishing (fw_monitor w) = false -> tick sha256_hex i w = (w', u) -> blind i w \/ rescan_due w (ti_now i) = true ->
  rescan_until sha256_hex (ti_walked i) (ti_inspected i) BaselineRescan (ti_continue i)
    (fw_monitor (drain sha256_hex MAX_NOTIFICATIONS_PER_TICK (ti_moments i) w).1) = (m2, inr o) ->
  truncated (ro_limits o) = false -> NoDup (found_keys (ti_walked i) (fw_monitor w)) ->
  (blind i w -> fu_overflows u = 1) /\ all_reported i w w' u.
Proof.
  intros He Et Hg Er Ht Hn. pose proof (blind_forced i w) as Hgap.
  destruct (tick_parts _ _ _ _ _ Et) as (w1 & events & found & Ed & Hev & Hov & _ & _ & _ & _ & Hr). rewrite Ed in Er, Hgap. cbn [fst] in Er, Hgap.
  assert (fw_overflow_pending w1 || rescan_due w (ti_now i) = true) as Hf by (destruct Hg as [Hg| ->]; [by rewrite (Hgap Hg)|by rewrite orb_true_r]).
  rewrite Hf in Hr. destruct Hr as (_ & w2 & Hw & Hm & _). unfold worker_rescan in Hw. rewrite Er in Hw. injection Hw as <- <-. cbn in Hm.
  pose proof (fun key node => drain_accounted MAX_NOTIFICATIONS_PER_TICK (ti_moments i) w key node He) as Ha. rewrite Ed in Ha.
  destruct (Ha [] None ltac:(done)) as [A1 A2 _ _]. rewrite He in A2.
  assert (found_paths (ti_walked i) (fw_monitor w1) = found_paths (ti_walked i) (fw_monitor w)) as Hfound by (unfold found_paths; by rewrite A1).
  assert (found_keys (ti_walked i) (fw_monitor w1) = found_keys (ti_walked i) (fw_monitor w) /\ root_keys (fw_monitor w1) = root_keys (fw_monitor w)) as [Hfk Hrk]
    by (unfold found_keys, root_keys; by rewrite Hfound, A1).
  destruct (rescan_full _ _ _ _ _ _ _ _ A2 Er Ht ltac:(by rewrite Hfk)) as (R1 & R2 & _). rewrite Hfound, Hfk, Hrk in R1. rewrite Hfound in R2.
  split; [intros Hgr; by rewrite Hov, (Hgap Hgr)|]. unfold all_reported. rewrite Hev, Hm. split.
  - intros path current Hp Hc Hu Hname. apply inspected_state in Hc.
    assert (inspected sha256_hex (ti_inspected i) (fw_monitor w1) path = Some current) as Hc1 by (unfold inspected in *; by rewrite A1).
    split; [by apply R2|]. intros change Hch.
    destruct (Ha (to_string_lossy path) (Some current)) as [_ _ A3 _].
    { intros k c [= <-] q ->%Hname. rewrite <- Hc. unfold inspected, inspect. by rewrite Hu. }
    destruct (A3 current eq_refl) as [Hsame|[_ Hrep]]; [exists BaselineRescan|exists RealTime]; apply elem_of_app.
    + right. apply R1. left. exists path, current. split_and!; [done|done|]. rewrite difference_spec. exists change. unfold known in *. by rewrite Hsame.
    + left. apply Hrep. rewrite difference_spec. eauto.
  - intros key Hrow Hni Hroot. destruct (Ha key None ltac:(done)) as [_ _ _ A4]. destruct (A4 Hrow) as [[row Hrow']|[previous Hin]].
    + exists (deleted_event key BaselineRescan (Some (row_record row))). split; [|done]. apply elem_of_app. right. apply R1. right. exists key, row. by split_and!.
    + exists (deleted_event key RealTime (Some previous)). split; [|done]. apply elem_of_app. by left.
Qed.

End complete.

(** ** Gaps are reached *)

Section ticks.
Context `{Sqlite} (sha256_hex : list Z -> text).

Fixpoint ticks (inputs : list TickInput) (w : FimWorker) : FimWorker * list FimUpdate :=
  match inputs with
  | [] => (w, [])
  | i :: inputs =>
      let '(w, u) := tick sha256_hex i w in
      let '(w, us) := ticks inputs w in
      (w, u :: us)
  end.

(** A gap is reached: wherever in the queue the notification of an overflow or of an error stands, and whatever arrives meanwhile, one of the next ticks, at most one more than its position divided by the notifications a tick takes, reports the overflow and compares the trees with the baseline at once, whenever the next comparison was due. *)
Theorem gap_reaches_rescan inputs w c k x :
  fw_notifications w = Some c -> ch_queue c !! k = Some x -> is_gap x = true -> (k / MAX_NOTIFICATIONS_PER_TICK < length inputs)%nat ->
  exists j i u, (j <= k / MAX_NOTIFICATIONS_PER_TICK)%nat /\ inputs !! j = Some i /\ (ticks inputs w).2 !! j = Some u /\ fu_overflows u = 1 /\
    let '(wj, _) := ticks (take j inputs) w in
    let '(w', _) := tick sha256_hex i wj in
    fw_next_rescan w' = Some (ti_now i + fw_rescan_interval w) /\ fw_overflow_pending w' = false.
Proof.
  revert w c k. induction inputs as [|i inputs IH]; intros w c k Hc Hk Hg Hl; [cbn in Hl; lia|].
  destruct (tick sha256_hex i w) as [w1 u] eqn:Et.
  destruct (tick_parts _ _ _ _ _ Et) as (wd & events & found & Ed & _ & Hov & _ & Hp & Hn & Hi & Hr).
  destruct (fw_overflow_pending wd) eqn:Ep.
  { exists 0%nat, i, u. cbn [ticks take]. rewrite Et. destruct (ticks inputs w1) as [w2 us]. cbn [orb] in Hr. destruct Hr as [Hr _].
    split_and!; try done; lia. }
  pose proof (drain_gap sha256_hex MAX_NOTIFICATIONS_PER_TICK (ti_moments i) w c k x Hc Hk Hg) as Hd. rewrite Ed in Hd.
  case_decide as Hlt; [congruence|]. destruct Hd as (c' & Hc' & Hk'). rewrite <- Hn in Hc'.
  assert (k / MAX_NOTIFICATIONS_PER_TICK = S ((k - MAX_NOTIFICATIONS_PER_TICK) / MAX_NOTIFICATIONS_PER_TICK))%nat as Hdiv.
  { assert (k = (k - MAX_NOTIFICATIONS_PER_TICK + 1 * MAX_NOTIFICATIONS_PER_TICK)%nat) as Hkd by lia. rewrite Hkd at 1.
    rewrite Nat.div_add by done. lia. }
  destruct (IH w1 c' _ Hc' Hk' Hg) as (j & i' & u' & Hj & Hij & Huj & Hou & Hrest); [rewrite Hdiv in Hl; cbn [length] in Hl; lia|].
  exists (S j), i', u'. cbn [ticks take]. rewrite Et. destruct (ticks inputs w1) as [w2 us] eqn:E2.
  destruct (ticks (take j inputs) w1) as [wj us']. rewrite Hi in Hrest. split_and!; try done. lia.
Qed.

(** ** Every event is counted once *)

Definition found_by (by_ : FimDetection) (e : FimEvent) : Prop := fim_detected_by e = by_.

Lemma difference_found_by path previous current by_ e : difference path previous current by_ = Some e -> found_by by_ e.
Proof. unfold difference, found_by. repeat case_match; naive_solver. Qed.

Lemma recheck_found_by now m path m' e : recheck sha256_hex now m path = (m', inr (Some e)) -> found_by RealTime e.
Proof. unfold recheck. repeat case_match; intros [= <- ?]; simplify_eq; eauto using difference_found_by; done. Qed.

Lemma recheck_paths_found_by now m paths : Forall (found_by RealTime) (recheck_paths sha256_hex now m paths).2.
Proof.
  revert m. induction paths as [|path paths IH]; intros m; cbn [recheck_paths]; [constructor|].
  destruct (recheck sha256_hex now m path) as [m1 result] eqn:E. specialize (IH m1). destruct (recheck_paths sha256_hex now m1 paths) as [m2 events].
  destruct result as [|[e|]]; [done| |done]. constructor; [by eapply recheck_found_by|done].
Qed.

Lemma compare_files_found_by now by_ continue m o paths m' s :
  Forall (found_by by_) (ro_events o) -> compare_files sha256_hex now by_ continue m o paths = (m', s) ->
  match s with ScanFailed => True | ScanAbandoned o' | ScanDone o' => Forall (found_by by_) (ro_events o') end.
Proof.
  revert continue m o. induction paths as [|path paths IH]; intros continue m o Ho; cbn [compare_files]; [by intros [= <- <-]|].
  destruct (negb _); [by intros [= <- <-]|]. destruct (compare_file _ _ _ _ _ _) as [m1 [|o1]] eqn:E; [by intros [= <- <-]|]. apply IH.
  unfold compare_file in E. repeat case_match; simplify_eq; try done; cbn [add_event ro_events]; apply Forall_app; (split; [done|]);
    (constructor; [by eapply difference_found_by|constructor]).
Qed.

Lemma forget_unseen_found_by by_ seen m o known m' o' :
  Forall (found_by by_) (ro_events o) -> forget_unseen by_ seen m o known = (m', inr o') -> Forall (found_by by_) (ro_events o').
Proof.
  revert m o. induction known as [|path known IH]; intros m o Ho; cbn [forget_unseen]; [by intros [= <- <-]|].
  repeat case_match; try done; [by apply IH|]. apply IH. cbn [add_event ro_events]. apply Forall_app. split; [done|by repeat constructor].
Qed.

Lemma forget_under_found_by by_ seen m o roots m' o' :
  Forall (found_by by_) (ro_events o) -> forget_under by_ seen m o roots = (m', inr o') -> Forall (found_by by_) (ro_events o').
Proof.
  revert m o. induction roots as [|root roots IH]; intros m o Ho; cbn [forget_under]; [by intros [= <- <-]|].
  destruct (paths_under _ _); [done|]. destruct (forget_unseen _ _ _ _ _) as [m1 [|o1]] eqn:E; [done|]. apply IH. by eapply forget_unseen_found_by.
Qed.

Lemma rescan_found_by fs now by_ continue m m' o :
  rescan_until sha256_hex fs now by_ continue m = (m', inr o) -> Forall (found_by by_) (ro_events o).
Proof.
  unfold rescan_until. destruct (walk _ _ _) as [paths limits]. destruct (compare_files _ _ _ _ _ _ _) as [m1 s] eqn:E.
  apply compare_files_found_by in E; [|constructor]. destruct s as [|o1|o1]; [done|by intros [= _ <-]|].
  destruct (negb _ && _); [|by intros [= _ <-]]. destruct (forget_under _ _ _ _ _) as [m2 [|o2]] eqn:E2; [done|]. intros [= _ <-].
  by eapply forget_under_found_by.
Qed.

(** The events found one way among some. *)
Definition count_by (by_ : FimDetection) (events : list FimEvent) : Z := len (filter (fun e => fim_detected_by e = by_) events).

Lemma count_by_app by_ l k : count_by by_ (l ++ k) = count_by by_ l + count_by by_ k.
Proof. unfold count_by. rewrite filter_app, length_app. lia. Qed.

Lemma count_by_all by_ l : Forall (found_by by_) l -> count_by by_ l = len l.
Proof. unfold count_by. induction 1 as [|e l He _ IH]; [done|]. rewrite filter_cons_True by done. cbn [length]. lia. Qed.

Lemma count_by_none by1 by2 l : by1 <> by2 -> Forall (found_by by1) l -> count_by by2 l = 0.
Proof. unfold count_by, found_by. intros Hn. induction 1 as [|e l He _ IH]; [done|]. rewrite filter_cons_False by congruence. done. Qed.

Lemma drain_counted n moments w :
  let '(w', events) := drain sha256_hex n moments w in
  Forall (found_by RealTime) events /\ fc_realtime (fw_counters w') = fc_realtime (fw_counters w) + len events /\
  fc_rescan (fw_counters w') = fc_rescan (fw_counters w).
Proof.
  revert moments w. induction n as [|n IH]; intros moments w; cbn [drain]; [cbn; split_and!; [constructor|lia|done]|].
  destruct (fw_notifications w) as [c|]; [|cbn; split_and!; [constructor|lia|done]].
  destruct (try_recv _) as [x c'| |]; [|cbn; split_and!; [constructor|lia|done]..].
  destruct (handle_notification _ _ _ _) as [w1 [events gap]] eqn:Eh.
  assert (Forall (found_by RealTime) events /\ fc_realtime (fw_counters w1) = fc_realtime (fw_counters w) + len events /\
          fc_rescan (fw_counters w1) = fc_rescan (fw_counters w)) as (E1 & E2 & E3).
  { destruct x as [|[] paths]; cbn in Eh; [injection Eh as <- <- <-; cbn; split_and!; [constructor|lia|done]..|].
    pose proof (recheck_paths_found_by (mt_fs (moments O)) (fw_monitor w) paths) as Hf. destruct (recheck_paths _ _ _ _) as [m ev].
    by injection Eh as <- <- <-. }
  specialize (IH (fun i => moments (S i)) w1). destruct (drain _ n _ w1) as [w2 more]. destruct IH as (I1 & I2 & I3).
  rewrite length_app. split_and!; [by apply Forall_app|lia|congruence].
Qed.

Lemma tick_counted i w w' u :
  tick sha256_hex i w = (w', u) ->
  fc_realtime (fw_counters w') = fc_realtime (fw_counters w) + count_by RealTime (fu_events u) /\
  fc_rescan (fw_counters w') = fc_rescan (fw_counters w) + count_by BaselineRescan (fu_events u) /\
  len (fu_events u) = count_by RealTime (fu_events u) + count_by BaselineRescan (fu_events u).
Proof.
  intros Et. destruct (tick_parts _ _ _ _ _ Et) as (w1 & events & found & Ed & Hev & _ & _ & _ & _ & _ & Hr).
  pose proof (drain_counted MAX_NOTIFICATIONS_PER_TICK (ti_moments i) w) as Hd. rewrite Ed in Hd. destruct Hd as (D1 & D2 & D3).
  assert (Forall (found_by BaselineRescan) found /\ fc_realtime (fw_counters w') = fc_realtime (fw_counters w1) /\
          fc_rescan (fw_counters w') = fc_rescan (fw_counters w1) + len found) as (R1 & R2 & R3).
  { destruct (_ || _); [|destruct Hr as (-> & _ & _ & ->); cbn; split_and!; [constructor|done|lia]].
    destruct Hr as (_ & w2 & Hw & _ & ->). unfold worker_rescan in Hw. destruct (rescan_until _ _ _ _ _ _) as [m [e|o]] eqn:Er; injection Hw as <- <-.
    - cbn. split_and!; [constructor|done|lia].
    - apply rescan_found_by in Er. cbn. done. }
  rewrite Hev, !count_by_app, length_app, (count_by_all RealTime events), (count_by_all BaselineRescan found),
    (count_by_none RealTime BaselineRescan events), (count_by_none BaselineRescan RealTime found) by done. lia.
Qed.

(** The counters of file integrity are exact: over any run of ticks the real-time counter grows by the events that notifications led to and the rescan counter by those the comparisons found, every event being one or the other, and each update carries the counters as they are then. *)
Theorem ticks_counted inputs w w' us :
  ticks inputs w = (w', us) ->
  let events := concat (fu_events <$> us) in
  length us = length inputs /\
  fc_realtime (fw_counters w') = fc_realtime (fw_counters w) + count_by RealTime events /\
  fc_rescan (fw_counters w') = fc_rescan (fw_counters w) + count_by BaselineRescan events /\
  len events = count_by RealTime events + count_by BaselineRescan events /\
  fw_counters w' = match last us with Some u => fu_counters u | None => fw_counters w end.
Proof.
  revert w us. induction inputs as [|i inputs IH]; intros w us; cbn [ticks]; [intros [= <- <-]; split_and!; try done; unfold count_by; cbn; lia|].
  destruct (tick sha256_hex i w) as [w1 u] eqn:Et. destruct (ticks inputs w1) as [w2 us2] eqn:E2. intros [= <- <-].
  destruct (IH _ _ E2) as (I1 & I2 & I3 & I4 & I5). destruct (tick_counted _ _ _ _ Et) as (T1 & T2 & T3).
  destruct (tick_parts _ _ _ _ _ Et) as (_ & _ & _ & _ & _ & _ & Hc & _).
  cbn [fmap list_fmap concat length]. rewrite !count_by_app, length_app. split_and!; [congruence|lia..|].
  rewrite last_cons. destruct (last us2); [done|]. by rewrite Hc.
Qed.

(** A forced rescan that fails is not tried again: the flag of the overflow is cleared before the comparison, so when the comparison fails on the database nothing is compared until the ordinary interval has passed, and neither counter shows it. *)
Theorem failed_rescan_forgets_overflow i w w' u m2 :
  tick sha256_hex i w = (w', u) -> fw_overflow_pending w = true ->
  rescan_until sha256_hex (ti_walked i) (ti_inspected i) BaselineRescan (ti_continue i)
    (fw_monitor (drain sha256_hex MAX_NOTIFICATIONS_PER_TICK (ti_moments i) w).1) = (m2, inl tt) ->
  fw_overflow_pending w' = false /\ fw_next_rescan w' = Some (ti_now i + fw_rescan_interval w) /\
  count_by BaselineRescan (fu_events u) = 0 /\
  fc_rescans (fw_counters w') = fc_rescans (fw_counters (drain sha256_hex MAX_NOTIFICATIONS_PER_TICK (ti_moments i) w).1).
Proof.
  intros Et Hp Er. destruct (tick_parts _ _ _ _ _ Et) as (w1 & events & found & Ed & Hev & _ & _ & Hp' & _ & _ & Hr).
  pose proof (drain_keeps sha256_hex MAX_NOTIFICATIONS_PER_TICK (ti_moments i) w) as Hk. pose proof (drain_counted MAX_NOTIFICATIONS_PER_TICK (ti_moments i) w) as Hd.
  rewrite Ed in *. cbn [fst] in *. destruct Hk as (_ & _ & Hk). rewrite (Hk Hp) in Hr. destruct Hr as (Hn & w2 & Hw & _ & Hc).
  unfold worker_rescan in Hw. rewrite Er in Hw. injection Hw as <- <-. rewrite Hev, app_nil_r, (count_by_none RealTime BaselineRescan events) by (done || apply Hd).
  by rewrite Hc.
Qed.
End ticks.

(** ** Starting *)

(** The paths that could be watched and those that could not are counted. *)
Lemma watch_counts (watch : text -> bool) paths c :
  let c' := foldl (fun c path => if watch path then count_watched c else count_failure c) c paths in
  fc_watched_paths c' = fc_watched_paths c + len (filter (fun p => watch p = true) paths) /\
  fc_watched_paths c' + fc_watch_failures c' = fc_watched_paths c + fc_watch_failures c + len paths.
Proof.
  revert c. induction paths as [|p paths IH]; intros c; cbn [foldl]; [cbn; lia|]. destruct (IH (if watch p then count_watched c else count_failure c)) as [H1 H2].
  cbv zeta in *. split; [rewrite H1|rewrite H2]; destruct (watch p) eqn:E; rewrite ?filter_cons_True, ?filter_cons_False by (done || by rewrite E); cbn; lia.
Qed.

Section start.
Context `{SqliteLaws} (sha256_hex : list Z -> text).

(** What changed while the sensor was down is found: a worker started on a baseline with entries, for whatever paths it could or could not watch, compares the trees with that baseline in its first tick; when the comparison returns and leaves nothing out, and the names stay apart as text, the changes against the stored records are reported as by a forced rescan. Every configured root is counted as watched or as failed. *)
Theorem changes_while_down_found canonicalize store attach settings w i w' u m2 o :
  worker_start canonicalize (inr store) attach settings = inr w -> baseline_is_empty store = inr false ->
  tick sha256_hex i w = (w', u) ->
  rescan_until sha256_hex (ti_walked i) (ti_inspected i) BaselineRescan (ti_continue i)
    (fw_monitor (drain sha256_hex MAX_NOTIFICATIONS_PER_TICK (ti_moments i) w).1) = (m2, inr o) ->
  truncated (ro_limits o) = false -> NoDup (found_keys (ti_walked i) (fw_monitor w)) ->
  fs_paths (mo_settings (fw_monitor w)) = (resolve_roots canonicalize (fs_paths settings)).1 /\ mo_baseline (fw_monitor w) = store /\
  (fc_watched_paths (fw_counters w) + fc_watch_failures (fw_counters w) =
     if attach then len (resolve_roots canonicalize (fs_paths settings)).1 else 1) /\
  all_reported sha256_hex i w w' u.
Proof.
  intros Hw Hempty Et Er Ht Hn. unfold worker_start in Hw. destruct (resolve_roots _ _) as [roots collapsed]. injection Hw as Hw. cbn [fst].
  set (settings' := mkFimSettings roots _ _ _ _ _) in Hw.
  assert (fw_monitor w = mkMonitor settings' store false /\ fw_next_rescan w = None) as [Hm Hnext].
  { rewrite <- Hw. unfold install_watcher, monitor_new. rewrite Hempty. by destruct attach. }
  assert (rescan_due w (ti_now i) = true) as Hdue by (unfold rescan_due; by rewrite Hnext).
  destruct (overflow_recovered_full _ _ _ _ _ _ _ ltac:(by rewrite Hm) Et (or_intror Hdue) Er Ht Hn) as (_ & H1).
  split_and!; [by rewrite Hm|by rewrite Hm| |done].
  rewrite <- Hw. unfold install_watcher. destruct attach as [watch|]; [|done]. cbn. by destruct (watch_counts watch roots FimCounters_default) as [_ ->].
Qed.
End start.

(** Several gaps in one tick are one overflow of the update, and one that arrives as an error is not counted as an overflow at all: after two overflows and an error the update says one, the counter two and the failures one. *)
Theorem gaps_reported_once :
  let queue := [NotifyEvent true []; NotifyError; NotifyEvent true []] in
  let w := mkFimWorker small_monitor (Some (mkChannel queue true)) (secs 3600) (Some (secs 3600)) false FimCounters_default in
  let quiet := mkMoment [] false small_fs in
  let u := (tick show_bytes (mkTickInput (fun _ => quiet) small_fs small_fs [] 0) w).2 in
  fu_overflows u = 1 /\ fc_overflows (fu_counters u) = 2 /\ fc_watch_failures (fu_counters u) = 1 /\ fc_rescans (fu_counters u) = 1.
Proof. vm_compute. done. Qed.

(** ** The hypotheses can hold *)

Definition quiet_moment : Moment := mkMoment [] false small_fs.

Definition quiet_tick (now : Z) : TickInput := mkTickInput (fun _ => quiet_moment) small_fs small_fs [] now.

(** A worker whose watcher reported a change and then lost others; its next comparison is far away. *)
Definition small_worker : FimWorker :=
  mkFimWorker small_monitor (Some (mkChannel [NotifyEvent false [passwd]; NotifyEvent true []] true)) (secs 3600) (Some (secs 3600)) false FimCounters_default.

Definition tick_summary (r : FimWorker * FimUpdate) : list (text * FimDetection) * Z :=
  ((fun e => (fim_path e, fim_detected_by e)) <$> fu_events r.2, fu_overflows r.2).

Lemma small_tick_summary :
  tick_summary (tick show_bytes (quiet_tick 5) small_worker) =
    ([(passwd, RealTime); (of_string "/etc/ssh/config", BaselineRescan); (hosts, BaselineRescan)], 1).
Proof. vm_compute. reflexivity. Qed.

Definition after_drain (w : FimWorker) : FimWorker := (drain show_bytes MAX_NOTIFICATIONS_PER_TICK (ti_moments (quiet_tick 5)) w).1.

Lemma small_scan_summary : summary (scan [] (fw_monitor (after_drain small_worker))) = Some ([of_string "/etc/ssh/config"; hosts], false, false).
Proof. vm_compute. reflexivity. Qed.

Lemma hosts_gone :
  is_Some (rows (mo_baseline small_monitor) !! hosts) /\ hosts ∉ found_keys small_fs small_monitor /\
  exists root, root ∈ root_keys small_monitor /\ has_prefix root hosts.
Proof.
  split; [by exists hosts_row|]. split; [apply (bool_decide_unpack _); vm_compute; exact I|]. exists (of_string "/etc"). split; [left|].
  exists (of_string "/etc"), (of_string "/hosts"). split; reflexivity.
Qed.




Lemma gap_reaches_rescan_witness :
  exists u, (ticks show_bytes [quiet_tick 5] small_worker).2 !! 0%nat = Some u /\ fu_overflows u = 1.
Proof.
  destruct (gap_reaches_rescan show_bytes [quiet_tick 5] small_worker (mkChannel [NotifyEvent false [passwd]; NotifyEvent true []] true) 1%nat
    (NotifyEvent true []) eq_refl eq_refl eq_refl ltac:(apply (bool_decide_unpack _); vm_compute; exact I)) as (j & i & u & Hj & _ & Hu & Ho & _).
  change (1 / MAX_NOTIFICATIONS_PER_TICK)%nat with 0%nat in Hj. assert (j = 0%nat) as -> by lia. exists u. split; [exact Hu|exact Ho].
Defined.

Lemma ticks_counted_witness :
  fc_realtime (fw_counters (ticks show_bytes [quiet_tick 5; quiet_tick 6] small_worker).1) =
    0 + count_by RealTime (concat (fu_events <$> (ticks show_bytes [quiet_tick 5; quiet_tick 6] small_worker).2)).
Proof.
  destruct (ticks show_bytes [quiet_tick 5; quiet_tick 6] small_worker) as [w' us] eqn:E.
  destruct (ticks_counted show_bytes _ _ _ _ E) as (_ & H1 & _). exact H1.
Defined.

(** The stored baseline of a host, and a worker started on it that could not watch anything. *)
Definition started : unit + FimWorker := worker_start Some (inr (mo_baseline small_monitor)) None etc_settings.

Lemma changes_while_down_found_witness :
  exists w u, started = inr w /\ (tick show_bytes (quiet_tick 5) w).2 = u /\ exists e, e ∈ fu_events u /\ fim_path e = hosts /\ fim_change e = Deleted.
Proof.
  assert (exists w, started = inr w /\ fw_monitor w = small_monitor /\ fw_notifications w = None) as (w & Hw & Hm & Hn).
  { eexists. split; [reflexivity|]. split; vm_compute; reflexivity. }
  exists w, (tick show_bytes (quiet_tick 5) w).2. split; [exact Hw|]. split; [reflexivity|].
  destruct (tick show_bytes (quiet_tick 5) w) as [w' u] eqn:Et. cbn [snd].
  assert (fw_monitor (after_drain w) = small_monitor) as Hd by (unfold after_drain, MAX_NOTIFICATIONS_PER_TICK; cbn [drain]; rewrite Hn; exact Hm).
  pose proof first_summary as Hs. unfold summary in Hs. rewrite <- Hd in Hs.
  destruct (scan [] (fw_monitor (after_drain w))) as [m2 [e|o]] eqn:Es; [discriminate Hs|]. cbn [snd] in Hs. injection Hs as _ Ht _.
  destruct (changes_while_down_found show_bytes Some (mo_baseline small_monitor) None etc_settings w (quiet_tick 5) w' u m2 o
    Hw ltac:(vm_compute; reflexivity) Et Es Ht ltac:(rewrite Hm; exact small_names)) as (_ & _ & _ & _ & H2).
  rewrite Hm in H2. destruct hosts_gone as (G1 & G2 & G3). exact (H2 hosts G1 G2 G3).
Defined.
