(* ===== verification/HostSensor.v ===== *)
(** The host sensor: [HostSensor] of [hids/src/sensor.rs], over the file integrity worker, the
    authentication logs, the process watcher and the registry of sources.

    The worker's thread, the thread that reads the journal and the caller of [poll] share two bounded
    channels and a flag. [HostSystem] is that shared state and [host_step] one step of any of them, so
    a run is an interleaving; what the operating system answers is an input of each step. The log
    lines are left out, and joining the thread is the step in which it finds the flag. *)

From stdpp Require Import pretty.
From S2P Require Import Prelude Text Ordered Net Event AuthLog Fim Process Sources FimWorker.

(** ** Settings and results *)

Definition MAX_LOG_LINES_PER_POLL : nat := 1024.
Definition DEFAULT_PROCESS_INTERVAL : Z := secs 5.

Record HostSettings := mkHostSettings {
  hs_fim : option FimSettings;
  hs_auth_files : list text;
  hs_journald : bool;
  hs_proc_root : text;
  hs_process_monitoring : bool;
  hs_process_interval : Z;
  hs_process_limits : ScanLimits
}.

Definition HostSettings_default : HostSettings :=
  mkHostSettings None [] false (of_string "/proc") false DEFAULT_PROCESS_INTERVAL ScanLimits_default.

Record HostBatch := mkHostBatch {
  hb_fim : list FimEvent;
  hb_auth : list AuthEvent;
  hb_process : list ProcessEvent;
  hb_overflows : Z
}.

Definition HostBatch_default : HostBatch := mkHostBatch [] [] [] 0.

Definition batch_is_empty (b : HostBatch) : bool :=
  bool_decide (hb_fim b = []) && bool_decide (hb_auth b = []) && bool_decide (hb_process b = []).

(** [HostBatch::events_from]: the batch and the counters. *)
Definition events_from (st : HostBatch * FimCounters) (update : FimUpdate) : HostBatch * FimCounters :=
  let b := st.1 in
  (mkHostBatch (hb_fim b ++ fu_events update) (hb_auth b) (hb_process b) (hb_overflows b + fu_overflows update), fu_counters update).

Record HidsStats := mkHidsStats {
  st_enabled : bool;
  st_fim : FimCounters;
  st_auth_records : Z;
  st_auth_unparsed : Z;
  st_auth_suspicious : Z;
  st_process_events : Z;
  st_host_alerts : Z;
  st_sources : list SourceStatus
}.

(** The seven counters that [publish_fim_counters] copies are one field. *)
Definition publish_fim_counters (s : HidsStats) (c : FimCounters) : HidsStats :=
  mkHidsStats (st_enabled s) c (st_auth_records s) (st_auth_unparsed s) (st_auth_suspicious s) (st_process_events s) (st_host_alerts s) (st_sources s).
Definition set_sources (s : HidsStats) (l : list SourceStatus) : HidsStats :=
  mkHidsStats (st_enabled s) (st_fim s) (st_auth_records s) (st_auth_unparsed s) (st_auth_suspicious s) (st_process_events s) (st_host_alerts s) l.
Definition add_process_events (s : HidsStats) (n : Z) : HidsStats :=
  mkHidsStats (st_enabled s) (st_fim s) (st_auth_records s) (st_auth_unparsed s) (st_auth_suspicious s) (st_process_events s + n) (st_host_alerts s) (st_sources s).

Definition HidsStats_default : HidsStats := mkHidsStats false FimCounters_default 0 0 0 0 0 [].

(** ** Log records *)

(** One record of a log: it becomes an event, or is counted as not understood. *)
Definition take_record (parse : text -> option AuthEvent) (st : HidsStats * list AuthEvent) (line : text) : HidsStats * list AuthEvent :=
  let s := st.1 in
  match parse line with
  | Some e =>
      (mkHidsStats (st_enabled s) (st_fim s) (st_auth_records s + 1) (st_auth_unparsed s)
         (if bool_decide (auth_suspicious e = []) then st_auth_suspicious s else st_auth_suspicious s + 1)
         (st_process_events s) (st_host_alerts s) (st_sources s), st.2 ++ [e])
  | None =>
      (mkHidsStats (st_enabled s) (st_fim s) (st_auth_records s + 1) (st_auth_unparsed s + 1) (st_auth_suspicious s)
         (st_process_events s) (st_host_alerts s) (st_sources s), st.2)
  end.

(** What the operating system says of a log file at a poll: see [read_new_lines]. *)
Record LogView := mkLogView {
  lv_examined : Examined;
  lv_read : Z -> Z -> option (list Z)
}.

Section sensor.
Context {SQ : Sqlite} {SJ : SerdeJson} (sha256_hex : list Z -> text) (debug : text -> text).

Record HostSensor := mkHostSensor {
  hn_settings : HostSettings;
  hn_fim_updates : option (Channel FimUpdate);
  hn_fim_shutdown : bool;
  hn_fim_counters : FimCounters;
  hn_tailers : list (text * Tailer);
  hn_journal : option (Channel text);
  hn_processes : option Watcher;
  hn_next_sweep : Z;
  hn_sources : SourceRegistry;
  hn_stats : HidsStats
}.

Definition with_sources (s : HostSensor) (r : SourceRegistry) : HostSensor :=
  mkHostSensor (hn_settings s) (hn_fim_updates s) (hn_fim_shutdown s) (hn_fim_counters s) (hn_tailers s) (hn_journal s) (hn_processes s) (hn_next_sweep s) r (hn_stats s).
Definition with_stats (s : HostSensor) (st : HidsStats) : HostSensor :=
  mkHostSensor (hn_settings s) (hn_fim_updates s) (hn_fim_shutdown s) (hn_fim_counters s) (hn_tailers s) (hn_journal s) (hn_processes s) (hn_next_sweep s) (hn_sources s) st.
Definition with_fim (s : HostSensor) (updates : option (Channel FimUpdate)) (c : FimCounters) : HostSensor :=
  mkHostSensor (hn_settings s) updates (hn_fim_shutdown s) c (hn_tailers s) (hn_journal s) (hn_processes s) (hn_next_sweep s) (hn_sources s) (hn_stats s).
Definition with_journal (s : HostSensor) (j : option (Channel text)) : HostSensor :=
  mkHostSensor (hn_settings s) (hn_fim_updates s) (hn_fim_shutdown s) (hn_fim_counters s) (hn_tailers s) j (hn_processes s) (hn_next_sweep s) (hn_sources s) (hn_stats s).
Definition with_tailers (s : HostSensor) (l : list (text * Tailer)) : HostSensor :=
  mkHostSensor (hn_settings s) (hn_fim_updates s) (hn_fim_shutdown s) (hn_fim_counters s) l (hn_journal s) (hn_processes s) (hn_next_sweep s) (hn_sources s) (hn_stats s).
Definition with_processes (s : HostSensor) (p : option Watcher) (next : Z) : HostSensor :=
  mkHostSensor (hn_settings s) (hn_fim_updates s) (hn_fim_shutdown s) (hn_fim_counters s) (hn_tailers s) (hn_journal s) p next (hn_sources s) (hn_stats s).

(** ** Starting *)

(** What the operating system answers while the sensor starts. *)
Record StartWorld := mkStartWorld {
  sw_os : text;
  sw_now : Z;
  sw_canonicalize : text -> option text;
  sw_baseline : unit + Store;
  sw_attach : option (text -> bool);
  sw_thread : bool;
  sw_journal : text + unit;
  sw_view : text -> option FileView;
  sw_exists : text -> bool
}.

Definition is_linux (world : StartWorld) : bool := bool_decide (sw_os world = of_string "linux").

Fixpoint join_comma (l : list text) : text :=
  match l with
  | [] => []
  | [t] => t
  | t :: l' => t ++ of_string ", " ++ join_comma l'
  end.

Definition declare_auth_files (exists_ : text -> bool) (s : HostSensor) : HostSensor :=
  let configured := (hn_tailers s).*1 in
  let present := filter (fun path => exists_ path = true) configured in
  if bool_decide (configured = []) then s
  else if bool_decide (present = []) then
    with_sources s (unavailable (hn_sources s) AUTH_FILES (of_string "none of the configured files exist: " ++ join_comma configured))
  else if len present <? len configured then
    with_sources s (degraded (hn_sources s) AUTH_FILES
      (of_string (pretty (len present)) ++ of_string " of " ++ of_string (pretty (len configured)) ++ of_string " configured files exist"))
  else with_sources s (active (hn_sources s) AUTH_FILES).

(** [spawn_fim]: the worker goes to its thread. *)
Definition spawn_fim (world : StartWorld) (settings : FimSettings) (s : HostSensor) : unit + HostSensor * FimWorker :=
  match worker_start (sw_canonicalize world) (sw_baseline world) (sw_attach world) settings with
  | inl e => inl e
  | inr worker =>
      if sw_thread world then
        let c := fw_counters worker in
        let s := with_fim s (Some sync_channel) c in
        inr (with_stats s (publish_fim_counters (hn_stats s) c), worker)
      else inl tt
  end.

(** [HostSensor::start], in its parts: before any source is attached, and the journal. *)
Definition sensor_new (world : StartWorld) (settings : HostSettings) : HostSensor :=
  mkHostSensor settings None false FimCounters_default ((fun path => (path, tailer_new (sw_view world path))) <$> hs_auth_files settings) None
    (if is_linux world && hs_process_monitoring settings then Some (watcher_new (hs_process_limits settings)) else None)
    (sw_now world) (declare_platform_gaps (sw_os world) registry_new) (mkHidsStats true FimCounters_default 0 0 0 0 0 []).

Definition attach_journal (world : StartWorld) (s : HostSensor) : HostSensor :=
  if hs_journald (hn_settings s) && is_linux world then
    match sw_journal world with
    | inr _ => with_journal (with_sources s (active (hn_sources s) AUTH_STRUCTURED)) (Some sync_channel)
    | inl detail => with_sources s (unavailable (hn_sources s) AUTH_STRUCTURED (of_string "journalctl: " ++ detail))
    end
  else s.

Definition sensor_start (world : StartWorld) (settings : HostSettings) : unit + HostSensor * option FimWorker :=
  let s := sensor_new world settings in
  match (match hs_fim settings with
         | Some fim => match spawn_fim world fim s with inl e => inl e | inr (s, worker) => inr (s, Some worker) end
         | None => inr (s, None)
         end) with
  | inl e => inl e
  | inr (s, worker) =>
      let s := declare_auth_files (sw_exists world) (attach_journal world s) in
      inr (with_stats s (set_sources (hn_stats s) (registry_snapshot (hn_sources s))), worker)
  end.

(** ** A poll *)

Definition nothing_watched : text :=
  of_string "no path could be watched in real time; only the periodic rescan sees changes".
Definition some_unwatched (n : Z) : text :=
  of_string (pretty n) ++ of_string " path(s) could not be watched; those are covered by the rescan only".
Definition empty_baseline : text :=
  of_string "a scan completed but the baseline is empty: hids.fim.paths matched no files".

(** What the counters of file integrity say of its two sources. *)
Definition judge_realtime (c : FimCounters) (r : SourceRegistry) : SourceRegistry :=
  if (fc_watched_paths c =? 0) && (0 <? fc_watch_failures c) then unavailable r FIM_REALTIME nothing_watched
  else if 0 <? fc_watch_failures c then degraded r FIM_REALTIME (some_unwatched (fc_watch_failures c))
  else if 0 <? fc_watched_paths c then active r FIM_REALTIME
  else r.

Definition judge_baseline (c : FimCounters) (r : SourceRegistry) : SourceRegistry :=
  if (0 <? fc_rescans c) && (fc_baseline_entries c =? 0) then unavailable r FIM_BASELINE empty_baseline
  else if 0 <? fc_rescans c then active r FIM_BASELINE
  else r.

(** [drain_fim]: everything that is queued is taken; then the channel is found empty or closed. *)
Definition drain_fim (s : HostSensor) (batch : HostBatch) : HostSensor * HostBatch :=
  match hn_fim_updates s with
  | None => (s, batch)
  | Some c =>
      let '(batch, counters) := foldl events_from (batch, hn_fim_counters s) (ch_queue c) in
      let s := with_fim s (if ch_connected c then Some (mkChannel [] true) else None) counters in
      let s :=
        match hs_fim (hn_settings s) with
        | Some _ => with_sources s (produced (judge_baseline counters (judge_realtime counters (hn_sources s))) FIM_REALTIME 0)
        | None => s
        end in
      (with_stats s (publish_fim_counters (hn_stats s) counters), batch)
  end.

Definition file_source (path : text) : text := of_string "file:" ++ path.

(** The loop over the log files; [budget] is what is left of the lines of a poll. *)
Fixpoint poll_tailers (logs : nat -> LogView) (budget : nat) (tailers : list (text * Tailer)) (st : HidsStats * list AuthEvent) :
    list (text * Tailer) * nat * (HidsStats * list AuthEvent) :=
  match tailers with
  | [] => ([], budget, st)
  | (path, t) :: rest =>
      if bool_decide (budget = 0%nat) then (tailers, budget, st)
      else
        let '(t, result) := read_new_lines t (lv_examined (logs O)) (lv_read (logs O)) in
        let lines := match result with inr lines => take budget lines | inl _ => [] end in
        let st := foldl (take_record (fun line => parse_syslog_line debug line (file_source path))) st lines in
        let '(rest, budget, st) := poll_tailers (fun i => logs (S i)) (budget - length lines) rest st in
        ((path, t) :: rest, budget, st)
  end.

(** [JournalReader::drain]. *)
Definition journal_drain (c : Channel text) (budget : nat) : Channel text * list text :=
  (mkChannel (drop budget (ch_queue c)) (ch_connected c), take budget (ch_queue c)).

Definition poll_logs (logs : nat -> LogView) (s : HostSensor) (batch : HostBatch) : HostSensor * HostBatch :=
  let '(tailers, budget, st) := poll_tailers logs MAX_LOG_LINES_PER_POLL (hn_tailers s) (hn_stats s, hb_auth batch) in
  let '(journal, st) :=
    match hn_journal s with
    | Some c =>
        let '(c, lines) := journal_drain c budget in
        (Some c, foldl (take_record (fun line => parse_journal_record debug line (of_string "journald"))) st lines)
    | None => (None, st)
    end in
  (with_journal (with_tailers (with_stats s st.1) tailers) journal, mkHostBatch (hb_fim batch) st.2 (hb_process batch) (hb_overflows batch)).

Definition restricted_view (root : text) (seen : Z) : text :=
  of_string "a sweep of " ++ root ++ of_string " saw " ++ of_string (pretty seen) ++
  of_string " process(es); a process table always contains this one, so the view is restricted (ProtectProc/hidepid?), not quiet".
Definition no_socket_table (root : text) : text :=
  of_string "no socket table under " ++ root ++ of_string ": listening sockets are invisible (ProcSubset=pid?)".

Definition sweep_processes (tree : ProcTree) (s : HostSensor) (batch : HostBatch) : HostSensor * HostBatch :=
  match hn_processes s with
  | None => (s, batch)
  | Some watcher =>
      let root := hs_proc_root (hn_settings s) in
      let '(watcher, outcome) := sweep tree watcher in
      let r :=
        if so_processes_seen outcome <=? 1
        then unavailable (hn_sources s) PROCESS_TABLE (restricted_view root (so_processes_seen outcome))
        else active (hn_sources s) PROCESS_TABLE in
      let r := if sockets_readable tree then active r PROCESS_SOCKETS else unavailable r PROCESS_SOCKETS (no_socket_table root) in
      let r := produced r PROCESS_TABLE (len (so_events outcome)) in
      (with_processes (with_stats (with_sources s r) (add_process_events (hn_stats s) (len (so_events outcome)))) (Some watcher) (hn_next_sweep s),
       mkHostBatch (hb_fim batch) (hb_auth batch) (hb_process batch ++ so_events outcome) (hb_overflows batch))
  end.

Record PollInput := mkPollInput {
  pl_logs : nat -> LogView;
  pl_tree : ProcTree;
  pl_now : Z
}.

Definition sweep_is_due (s : HostSensor) (now : Z) : bool :=
  match hn_processes s with Some _ => hn_next_sweep s <=? now | None => false end.

(** The panic of a poll: the time of the next sweep would be past the latest instant. *)
Definition poll_panics (i : PollInput) (s : HostSensor) : bool :=
  sweep_is_due s (pl_now i) && bool_decide (instant_add (pl_now i) (hs_process_interval (hn_settings s)) = None).

(** [poll_at], of a poll that does not panic. *)
Definition poll_at (i : PollInput) (s : HostSensor) : HostSensor * HostBatch :=
  let '(s, batch) := drain_fim s HostBatch_default in
  let '(s, batch) := poll_logs (pl_logs i) s batch in
  let '(s, batch) :=
    if sweep_is_due s (pl_now i) then
      let '(s, batch) := sweep_processes (pl_tree i) s batch in
      (with_processes s (hn_processes s) (pl_now i + hs_process_interval (hn_settings s)), batch)
    else (s, batch) in
  (with_stats s (set_sources (hn_stats s) (registry_snapshot (hn_sources s))), batch).

(** ** The threads *)

(** The sensor, and the worker as long as its thread runs. *)
Record HostSystem := mkHostSystem {
  sy_sensor : HostSensor;
  sy_worker : option FimWorker
}.

Definition close {A : Type} (c : Channel A) : Channel A := mkChannel (ch_queue c) false.

(** The thread of the worker is gone, and its end of the channel with it. *)
Definition fim_thread_ends (s : HostSystem) : HostSystem :=
  mkHostSystem (with_fim (sy_sensor s) (close <$> hn_fim_updates (sy_sensor s)) (hn_fim_counters (sy_sensor s))) None.

(** One turn of the worker's thread: it looks at the flag first, and a tick that panics ends it too. *)
Definition fim_turn (i : TickInput) (s : HostSystem) : HostSystem :=
  let sensor := sy_sensor s in
  match sy_worker s with
  | None => s
  | Some worker =>
      if hn_fim_shutdown sensor || tick_panics sha256_hex i worker then fim_thread_ends s
      else
        let '(worker, update) := tick sha256_hex i worker in
        mkHostSystem (with_fim sensor ((fun c => try_send c update) <$> hn_fim_updates sensor) (hn_fim_counters sensor)) (Some worker)
  end.

(** One turn of the thread that reads the journal, as long as it is there. *)
Definition journal_turn (line : text) (sensor : HostSensor) : HostSensor :=
  with_journal sensor ((fun c => if ch_connected c then try_send c line else c) <$> hn_journal sensor).

(** [Drop for HostSensor], up to the join. *)
Definition drop_sensor (sensor : HostSensor) : HostSensor :=
  mkHostSensor (hn_settings sensor) (hn_fim_updates sensor) true (hn_fim_counters sensor) (hn_tailers sensor) (hn_journal sensor)
    (hn_processes sensor) (hn_next_sweep sensor) (hn_sources sensor) (hn_stats sensor).

Inductive HostAct :=
| FimTick (i : TickInput)
| FimDies
| JournalLine (line : text)
| JournalDies
| Poll (i : PollInput)
| DropSensor.

(** One step of one of the threads. *)
Definition host_step (s : HostSystem) (a : HostAct) : HostSystem * list HostBatch :=
  match a with
  | FimTick i => (fim_turn i s, [])
  | FimDies => (fim_thread_ends s, [])
  | JournalLine line => (mkHostSystem (journal_turn line (sy_sensor s)) (sy_worker s), [])
  | JournalDies => (mkHostSystem (with_journal (sy_sensor s) (close <$> hn_journal (sy_sensor s))) (sy_worker s), [])
  | Poll i => let '(sensor, batch) := poll_at i (sy_sensor s) in (mkHostSystem sensor (sy_worker s), [batch])
  | DropSensor => (mkHostSystem (drop_sensor (sy_sensor s)) (sy_worker s), [])
  end.

Fixpoint host_run (s : HostSystem) (acts : list HostAct) : HostSystem * list HostBatch :=
  match acts with
  | [] => (s, [])
  | a :: acts =>
      let '(s, first) := host_step s a in
      let '(s, more) := host_run s acts in
      (s, first ++ more)
  end.
End sensor.

(** ** Log records are counted *)

Definition is_suspicious (e : AuthEvent) : Prop := auth_suspicious e <> [].

#[export] Instance is_suspicious_dec e : Decision (is_suspicious e).
Proof. unfold is_suspicious. apply _. Defined.

Definition suspicious_count (l : list AuthEvent) : Z := len (filter is_suspicious l).

(** What the statistics gain from some records: [events] of them were understood. *)
Record records_counted (s s' : HidsStats) (events : list AuthEvent) (taken : Z) : Prop := {
  rc_records : st_auth_records s' = st_auth_records s + taken;
  rc_unparsed : st_auth_unparsed s' = st_auth_unparsed s + (taken - len events);
  rc_suspicious : st_auth_suspicious s' = st_auth_suspicious s + suspicious_count events;
  rc_process : st_process_events s' = st_process_events s;
  rc_fim : st_fim s' = st_fim s;
  rc_bound : len events <= taken
}.

Lemma records_counted_refl s : records_counted s s [] 0.
Proof. split; unfold suspicious_count; cbn; lia || done. Qed.

Lemma records_counted_trans s1 s2 s3 e1 e2 n1 n2 :
  records_counted s1 s2 e1 n1 -> records_counted s2 s3 e2 n2 -> records_counted s1 s3 (e1 ++ e2) (n1 + n2).
Proof. intros [] []. split; unfold suspicious_count in *; rewrite ?filter_app, ?length_app; lia || congruence. Qed.

Lemma take_record_counted parse st line :
  exists events, (take_record parse st line).2 = st.2 ++ events /\ records_counted st.1 (take_record parse st line).1 events 1.
Proof.
  unfold take_record. destruct (parse line) as [e|]; cbn [fst snd]; [exists [e]|exists []; rewrite app_nil_r]; (split; [done|]);
    split; cbn [st_auth_records st_auth_unparsed st_auth_suspicious st_process_events st_fim length]; try done; try lia;
    unfold suspicious_count; [|cbn; lia]. case_bool_decide as Hs; [rewrite filter_cons_False by (unfold is_suspicious; tauto)|rewrite filter_cons_True by done]; cbn; lia.
Qed.

Lemma take_records_counted parse lines st :
  exists events, (foldl (take_record parse) st lines).2 = st.2 ++ events /\ records_counted st.1 (foldl (take_record parse) st lines).1 events (len lines).
Proof.
  revert st. induction lines as [|line lines IH]; intros st; cbn [foldl]; [exists []; rewrite app_nil_r; split; [done|apply records_counted_refl]|].
  destruct (take_record_counted parse st line) as (e1 & H1 & C1). destruct (IH (take_record parse st line)) as (e2 & H2 & C2).
  exists (e1 ++ e2). rewrite H2, H1, app_assoc. split; [done|]. cbn [length]. rewrite Nat2Z.inj_succ. replace (Z.succ (len lines)) with (1 + len lines) by lia.
  by eapply records_counted_trans.
Qed.

Section facts.
Context {SQ : Sqlite} {SJ : SerdeJson} (sha256_hex : list Z -> text) (debug : text -> text).

Lemma poll_tailers_counted logs budget tailers st :
  let '(tailers', budget', st') := poll_tailers debug logs budget tailers st in
  (budget' <= budget)%nat /\ tailers'.*1 = tailers.*1 /\
  exists events, st'.2 = st.2 ++ events /\ records_counted st.1 st'.1 events (Z.of_nat budget - Z.of_nat budget').
Proof.
  revert logs budget st. induction tailers as [|[path t] rest IH]; intros logs budget st; cbn [poll_tailers].
  { split_and!; [done|done|]. exists []. rewrite app_nil_r, Z.sub_diag. split; [done|apply records_counted_refl]. }
  case_bool_decide. { split_and!; [done|done|]. exists []. rewrite app_nil_r, Z.sub_diag. split; [done|apply records_counted_refl]. }
  destruct (read_new_lines t _ _) as [t' result]. set (lines := match result with inr l => take budget l | inl _ => [] end).
  assert (length lines <= budget)%nat as Hl by (unfold lines; destruct result; [cbn; lia|rewrite length_take; lia]).
  destruct (take_records_counted (fun line => parse_syslog_line debug line (file_source path)) lines st) as (e1 & H1 & C1).
  specialize (IH (fun i => logs (S i)) (budget - length lines)%nat (foldl (take_record (fun line => parse_syslog_line debug line (file_source path))) st lines)).
  destruct (poll_tailers debug _ _ rest _) as [[rest' budget'] st']. destruct IH as (Hb & Ht & e2 & H2 & C2).
  split_and!; [lia|by rewrite !fmap_cons, Ht|]. exists (e1 ++ e2). rewrite H2, H1, app_assoc. split; [done|].
  replace (Z.of_nat budget - Z.of_nat budget') with (len lines + (Z.of_nat (budget - length lines) - Z.of_nat budget')) by lia.
  by eapply records_counted_trans.
Qed.

(** What reading the logs changes. *)
Lemma poll_logs_parts logs s batch :
  let '(s', batch') := poll_logs debug logs s batch in
  hn_settings s' = hn_settings s /\ hn_fim_updates s' = hn_fim_updates s /\ hn_fim_shutdown s' = hn_fim_shutdown s /\
  hn_fim_counters s' = hn_fim_counters s /\ hn_processes s' = hn_processes s /\ hn_next_sweep s' = hn_next_sweep s /\ hn_sources s' = hn_sources s /\
  hb_fim batch' = hb_fim batch /\ hb_process batch' = hb_process batch /\ hb_overflows batch' = hb_overflows batch /\
  (hn_journal s = None -> hn_journal s' = None) /\
  exists events taken, hb_auth batch' = hb_auth batch ++ events /\ 0 <= taken <= Z.of_nat MAX_LOG_LINES_PER_POLL /\
    records_counted (hn_stats s) (hn_stats s') events taken.
Proof.
  unfold poll_logs. pose proof (poll_tailers_counted logs MAX_LOG_LINES_PER_POLL (hn_tailers s) (hn_stats s, hb_auth batch)) as Hp.
  destruct (poll_tailers _ _ _ _ _) as [[tailers budget] st]. destruct Hp as (Hb & _ & e1 & H1 & C1). cbn [fst snd] in H1, C1.
  destruct (hn_journal s) as [c|] eqn:Ej; cbn [journal_drain hn_settings hn_fim_updates hn_fim_shutdown hn_fim_counters hn_processes hn_next_sweep
    hn_sources hn_stats hn_journal hb_fim hb_process hb_overflows hb_auth with_journal with_tailers with_stats].
  - destruct (take_records_counted (fun line => parse_journal_record debug line (of_string "journald")) (take budget (ch_queue c)) st) as (e2 & H2 & C2).
    split_and!; try done. exists (e1 ++ e2), (Z.of_nat MAX_LOG_LINES_PER_POLL - Z.of_nat budget + len (take budget (ch_queue c))).
    split_and!; [by rewrite H2, H1, app_assoc| | |by eapply records_counted_trans]; rewrite length_take; lia.
  - split_and!; try done. exists e1, (Z.of_nat MAX_LOG_LINES_PER_POLL - Z.of_nat budget). split_and!; try done; lia.
Qed.

(** ** The parts of a poll *)

Definition queued (s : HostSensor) : list FimUpdate := match hn_fim_updates s with Some c => ch_queue c | None => [] end.

Definition events_of (us : list FimUpdate) : list FimEvent := concat (fu_events <$> us).
Definition overflows_of (us : list FimUpdate) : Z := zsum (fu_overflows <$> us).

Lemma events_from_fold us b c :
  foldl events_from (b, c) us =
    (mkHostBatch (hb_fim b ++ events_of us) (hb_auth b) (hb_process b) (hb_overflows b + overflows_of us),
     match last us with Some u => fu_counters u | None => c end).
Proof.
  unfold events_of, overflows_of. revert b c. induction us as [|u us IH]; intros b c; cbn [foldl].
  - cbn. rewrite app_nil_r, Z.add_0_r. by destruct b.
  - rewrite (surjective_pairing (events_from (b, c) u)), IH. unfold events_from. cbn [fst snd hb_fim hb_auth hb_process hb_overflows fmap list_fmap concat zsum].
    change (zsum (fu_overflows u :: ?l)) with (fu_overflows u + zsum l). rewrite app_assoc, Z.add_assoc, last_cons. by destruct (last us).
Qed.

Lemma drain_fim_parts s batch :
  let '(s', batch') := drain_fim s batch in
  hn_settings s' = hn_settings s /\ hn_fim_shutdown s' = hn_fim_shutdown s /\ hn_journal s' = hn_journal s /\ hn_processes s' = hn_processes s /\
  hn_next_sweep s' = hn_next_sweep s /\
  hn_fim_updates s' = (match hn_fim_updates s with Some c => if ch_connected c then Some (mkChannel [] true) else None | None => None end) /\
  hn_fim_counters s' = (match last (queued s) with Some u => fu_counters u | None => hn_fim_counters s end) /\
  batch' = mkHostBatch (hb_fim batch ++ events_of (queued s)) (hb_auth batch) (hb_process batch) (hb_overflows batch + overflows_of (queued s)) /\
  hn_sources s' =
    (match hn_fim_updates s, hs_fim (hn_settings s) with
     | Some _, Some _ => produced (judge_baseline (hn_fim_counters s') (judge_realtime (hn_fim_counters s') (hn_sources s))) FIM_REALTIME 0
     | _, _ => hn_sources s
     end) /\
  hn_stats s' = (match hn_fim_updates s with Some _ => publish_fim_counters (hn_stats s) (hn_fim_counters s') | None => hn_stats s end).
Proof.
  unfold drain_fim, queued. destruct (hn_fim_updates s) as [c|] eqn:Eu.
  - rewrite events_from_fold. cbn [with_fim hn_settings]. by destruct (hs_fim (hn_settings s)) eqn:Ef; cbn; rewrite ?Ef.
  - unfold events_of, overflows_of. cbn. rewrite app_nil_r, Z.add_0_r, Eu. split_and!; try done. by destruct batch.
Qed.

Lemma sweep_processes_parts tree s batch watcher :
  hn_processes s = Some watcher ->
  let '(s', batch') := sweep_processes tree s batch in
  let outcome := (sweep tree watcher).2 in
  hn_settings s' = hn_settings s /\ hn_fim_updates s' = hn_fim_updates s /\ hn_fim_shutdown s' = hn_fim_shutdown s /\ hn_fim_counters s' = hn_fim_counters s /\
  hn_journal s' = hn_journal s /\ is_Some (hn_processes s') /\
  batch' = mkHostBatch (hb_fim batch) (hb_auth batch) (hb_process batch ++ so_events outcome) (hb_overflows batch) /\
  hn_stats s' = add_process_events (hn_stats s) (len (so_events outcome)) /\
  hn_sources s' =
    produced
      ((fun r => if sockets_readable tree then active r PROCESS_SOCKETS else unavailable r PROCESS_SOCKETS (no_socket_table (hs_proc_root (hn_settings s))))
         (if so_processes_seen outcome <=? 1
          then unavailable (hn_sources s) PROCESS_TABLE (restricted_view (hs_proc_root (hn_settings s)) (so_processes_seen outcome))
          else active (hn_sources s) PROCESS_TABLE))
      PROCESS_TABLE (len (so_events outcome)).
Proof. intros Hw. unfold sweep_processes. rewrite Hw. destruct (sweep tree watcher) as [watcher' outcome]. cbn. split_and!; eauto. Qed.

(** The statistics a poll leaves. *)
Record poll_counted (s s' : HidsStats) (batch : HostBatch) : Prop := {
  pc_records : exists taken, st_auth_records s' = st_auth_records s + taken /\ 0 <= taken <= Z.of_nat MAX_LOG_LINES_PER_POLL /\
    st_auth_unparsed s' = st_auth_unparsed s + (taken - len (hb_auth batch));
  pc_bound : len (hb_auth batch) <= Z.of_nat MAX_LOG_LINES_PER_POLL;
  pc_suspicious : st_auth_suspicious s' = st_auth_suspicious s + suspicious_count (hb_auth batch);
  pc_process : st_process_events s' = st_process_events s + len (hb_process batch)
}.

(** A poll: what the worker sent is handed on, and everything is counted. *)
Lemma poll_parts i s :
  let '(s', batch) := poll_at debug i s in
  hn_settings s' = hn_settings s /\ hn_fim_shutdown s' = hn_fim_shutdown s /\
  hn_fim_updates s' = (match hn_fim_updates s with Some c => if ch_connected c then Some (mkChannel [] true) else None | None => None end) /\
  hn_fim_counters s' = (match last (queued s) with Some u => fu_counters u | None => hn_fim_counters s end) /\
  hb_fim batch = events_of (queued s) /\ hb_overflows batch = overflows_of (queued s) /\
  poll_counted (hn_stats s) (hn_stats s') batch /\ st_sources (hn_stats s') = registry_snapshot (hn_sources s') /\
  (hn_processes s = None <-> hn_processes s' = None).
Proof.
  unfold poll_at. pose proof (drain_fim_parts s HostBatch_default) as Hd. destruct (drain_fim s HostBatch_default) as [s1 b1].
  destruct Hd as (D1 & D2 & D3 & D4 & D5 & D6 & D7 & -> & _ & D10).
  pose proof (poll_logs_parts (pl_logs i) s1) as Hl. specialize (Hl (mkHostBatch ([] ++ events_of (queued s)) [] [] (0 + overflows_of (queued s)))).
  cbn [HostBatch_default hb_fim hb_auth hb_process hb_overflows] in *. destruct (poll_logs debug (pl_logs i) s1 _) as [s2 b2].
  destruct Hl as (L1 & L2 & L3 & L4 & L5 & L6 & L7 & L8 & L9 & L10 & _ & events & taken & L11 & Ht & [C1 C2 C3 C4 C5 C6]). cbn [app hb_fim hb_auth hb_process hb_overflows] in *.
  assert (st_auth_records (hn_stats s1) = st_auth_records (hn_stats s) /\ st_auth_unparsed (hn_stats s1) = st_auth_unparsed (hn_stats s) /\
          st_auth_suspicious (hn_stats s1) = st_auth_suspicious (hn_stats s) /\ st_process_events (hn_stats s1) = st_process_events (hn_stats s)) as (S1 & S2 & S3 & S4).
  { rewrite D10. by destruct (hn_fim_updates s). }
  unfold sweep_is_due. destruct (hn_processes s2) as [watcher|] eqn:Ew; [destruct (hn_next_sweep s2 <=? pl_now i)|].
  - pose proof (sweep_processes_parts (pl_tree i) s2 b2 watcher Ew) as Hs. destruct (sweep_processes (pl_tree i) s2 b2) as [s3 b3].
    cbv zeta in Hs. remember (sweep (pl_tree i) watcher).2 as outcome eqn:Eo. destruct Hs as (W1 & W2 & W3 & W4 & W5 & [w' W6] & -> & W8 & _). clear Eo. cbn.
    split_and!; try congruence; [rewrite L10; lia| |].
    + rewrite W8, L11, L9. split; cbn; [|lia..]. exists taken. split_and!; lia.
    + rewrite W6. split; [|done]. congruence.
  - cbn. split_and!; try congruence; try (rewrite L10; lia); try (by rewrite <- D4, <- L5, ?Ew); try done. split; rewrite ?L11, ?L9; cbn; [|lia..]. exists taken. split_and!; lia.
  - cbn. split_and!; try congruence; try (rewrite L10; lia); try (by rewrite <- D4, <- L5, ?Ew); try done. split; rewrite ?L11, ?L9; cbn; [|lia..]. exists taken. split_and!; lia.
Qed.
End facts.

Section runs.
Context {SQ : Sqlite} {SJ : SerdeJson} (sha256_hex : list Z -> text) (debug : text -> text).

(** What a start gives. *)
Lemma declare_auth_files_parts exists_ (s : HostSensor) : exists r, declare_auth_files exists_ s = with_sources s r.
Proof. unfold declare_auth_files. repeat case_match; eauto. exists (hn_sources s). by destruct s. Qed.

Lemma attach_journal_parts world (s : HostSensor) :
  exists r j, attach_journal world s = with_journal (with_sources s r) j /\ (j <> hn_journal s -> is_linux world = true).
Proof.
  unfold attach_journal. destruct (hs_journald _), (is_linux world); cbn [andb]; try (exists (hn_sources s), (hn_journal s); destruct s; done).
  destruct (sw_journal world) as [detail|]; eexists _, _; split; try done.
Qed.

Lemma sensor_start_parts world settings s worker :
  sensor_start world settings = inr (s, worker) ->
  hn_settings s = settings /\ hn_fim_shutdown s = false /\ queued s = [] /\
  (worker <> None -> hn_fim_updates s = Some sync_channel) /\ (hn_fim_updates s <> None -> hs_fim settings <> None) /\
  (hn_processes s <> None <-> is_linux world = true /\ hs_process_monitoring settings = true) /\
  (hn_journal s <> None -> is_linux world = true) /\
  st_auth_records (hn_stats s) = 0 /\ st_auth_unparsed (hn_stats s) = 0 /\ st_auth_suspicious (hn_stats s) = 0 /\ st_process_events (hn_stats s) = 0 /\
  st_fim (hn_stats s) = hn_fim_counters s /\ st_sources (hn_stats s) = registry_snapshot (hn_sources s).
Proof.
  unfold sensor_start. assert (hn_processes (sensor_new world settings) <> None <-> is_linux world = true /\ hs_process_monitoring settings = true) as Hp
    by (unfold sensor_new; destruct (is_linux world), (hs_process_monitoring settings); naive_solver).
  destruct (match hs_fim settings with Some _ => _ | None => _ end) as [|[s0 w]] eqn:E0; [done|].
  destruct (attach_journal_parts world s0) as (r & j & -> & Hj). destruct (declare_auth_files_parts (sw_exists world) (with_journal (with_sources s0 r) j)) as [r2 ->].
  intros [= <- <-].
  destruct (hs_fim settings) as [fim|]; [unfold spawn_fim in E0; destruct (worker_start _ _ _ _); [done|]; destruct (sw_thread world); [|done]|];
    injection E0 as <- <-; split_and!; done.
Qed.

(** ** Counting *)

Record counts_ok (s : HidsStats) (auth : list AuthEvent) (process : list ProcessEvent) : Prop := {
  co_records : st_auth_records s = len auth + st_auth_unparsed s;
  co_suspicious : st_auth_suspicious s = suspicious_count auth;
  co_process : st_process_events s = len process
}.

Lemma host_step_counts s a auth process :
  counts_ok (hn_stats (sy_sensor s)) auth process ->
  let '(s', batches) := host_step sha256_hex debug s a in
  counts_ok (hn_stats (sy_sensor s')) (auth ++ concat (hb_auth <$> batches)) (process ++ concat (hb_process <$> batches)) /\
  Forall (fun b => len (hb_auth b) <= Z.of_nat MAX_LOG_LINES_PER_POLL) batches.
Proof.
  intros [H1 H2 H3]. destruct a as [i| |line| |i|]; cbn [host_step]; unfold fim_turn.
  1: destruct (sy_worker s) as [w|]; [destruct (_ || _); [|destruct (tick sha256_hex i w)]|].
  all: try (cbn; rewrite !app_nil_r; split; done).
  pose proof (poll_parts debug i (sy_sensor s)) as Hp. destruct (poll_at debug i (sy_sensor s)) as [s' b].
  destruct Hp as (_ & _ & _ & _ & _ & _ & [(taken & P1 & Ht & P2) P3 P4 P5] & _). cbn. rewrite !app_nil_r.
  split; [split; unfold suspicious_count in *; rewrite ?filter_app, ?length_app; lia|]. by constructor.
Qed.

(** The host sensor counts what it reports: from its start, through any interleaving of its threads and polls, the authentication records it counted are the events it handed on plus those it could not read, the suspicious ones are counted as such, the process events too, and no poll hands on more authentication events than its limit. *)
Theorem host_counts world settings s worker acts s' batches :
  sensor_start world settings = inr (s, worker) -> host_run sha256_hex debug (mkHostSystem s worker) acts = (s', batches) ->
  let stats := hn_stats (sy_sensor s') in
  let auth := concat (hb_auth <$> batches) in
  st_auth_records stats = len auth + st_auth_unparsed stats /\ st_auth_suspicious stats = suspicious_count auth /\
  st_process_events stats = len (concat (hb_process <$> batches)) /\
  Forall (fun b => len (hb_auth b) <= Z.of_nat MAX_LOG_LINES_PER_POLL) batches.
Proof.
  intros Hs Hr. assert (counts_ok (hn_stats s) [] []) as Hc.
  { destruct (sensor_start_parts _ _ _ _ Hs) as (_ & _ & _ & _ & _ & _ & _ & H1 & H2 & H3 & H4 & _). split; unfold suspicious_count; cbn; lia. }
  enough (forall sy auth process, counts_ok (hn_stats (sy_sensor sy)) auth process -> host_run sha256_hex debug sy acts = (s', batches) ->
    counts_ok (hn_stats (sy_sensor s')) (auth ++ concat (hb_auth <$> batches)) (process ++ concat (hb_process <$> batches)) /\
    Forall (fun b => len (hb_auth b) <= Z.of_nat MAX_LOG_LINES_PER_POLL) batches) as Hg.
  { destruct (Hg (mkHostSystem s worker) [] [] Hc Hr) as [[H1 H2 H3] H4]. done. }
  clear. revert batches. induction acts as [|a acts IH]; intros batches sy auth process Hc; cbn [host_run].
  { intros [= <- <-]. cbn. rewrite !app_nil_r. done. }
  pose proof (host_step_counts sy a auth process Hc) as Hstep. destruct (host_step sha256_hex debug sy a) as [sy1 first]. destruct Hstep as [Hc1 Hb].
  destruct (host_run sha256_hex debug sy1 acts) as [sy2 more] eqn:Er. intros [= -> <-].
  destruct (IH more sy1 _ _ Hc1 Er) as [Hc2 Hb2]. rewrite !fmap_app, !concat_app, !app_assoc. split; [done|]. by apply Forall_app.
Qed.

(** ** The worker's findings reach the caller *)

(** The update the worker made in a step, and in a run. *)
Definition step_updates (s : HostSystem) (a : HostAct) : list FimUpdate :=
  match a, sy_worker s with
  | FimTick i, Some worker =>
      if hn_fim_shutdown (sy_sensor s) || tick_panics sha256_hex i worker then [] else [(tick sha256_hex i worker).2]
  | _, _ => []
  end.

Fixpoint run_updates (s : HostSystem) (acts : list HostAct) : list FimUpdate :=
  match acts with
  | [] => []
  | a :: acts =>
      step_updates s a ++ run_updates (host_step sha256_hex debug s a).1 acts
  end.

(** No more ticks between two polls than the channel holds; [n] have passed since the last one. *)
Fixpoint paced (n : Z) (acts : list HostAct) : bool :=
  match acts with
  | [] => true
  | FimTick _ :: acts => (n <? CHANNEL_DEPTH) && paced (n + 1) acts
  | Poll _ :: acts => paced 0 acts
  | _ :: acts => paced n acts
  end.

(** The worker's thread has a channel that is open at both ends. *)
Definition linked (s : HostSystem) : Prop :=
  sy_worker s <> None -> exists c, hn_fim_updates (sy_sensor s) = Some c /\ ch_connected c = true.

Lemma events_of_app l k : events_of (l ++ k) = events_of l ++ events_of k.
Proof. unfold events_of. by rewrite fmap_app, concat_app. Qed.

Lemma overflows_of_app l k : overflows_of (l ++ k) = overflows_of l + overflows_of k.
Proof. unfold overflows_of. by rewrite fmap_app, zsum_app. Qed.

Definition step_pace (n : Z) (a : HostAct) : Z := match a with FimTick _ => n + 1 | Poll _ => 0 | _ => n end.

(** What moved through the channel: [drained] went to the caller. *)
Record moved (s s' : HostSystem) (made : list FimUpdate) (batches : list HostBatch) (drained : list FimUpdate) : Prop := {
  mv_order : queued (sy_sensor s) ++ made = drained ++ queued (sy_sensor s');
  mv_events : concat (hb_fim <$> batches) = events_of drained;
  mv_overflows : zsum (hb_overflows <$> batches) = overflows_of drained;
  mv_counters : hn_fim_counters (sy_sensor s') = match last drained with Some u => fu_counters u | None => hn_fim_counters (sy_sensor s) end
}.

Lemma moved_nothing s s' :
  queued (sy_sensor s') = queued (sy_sensor s) -> hn_fim_counters (sy_sensor s') = hn_fim_counters (sy_sensor s) -> moved s s' [] [] [].
Proof. intros Hq Hc. split; cbn; rewrite ?app_nil_r; done. Qed.

Lemma thread_ends_queued s : queued (sy_sensor (fim_thread_ends s)) = queued (sy_sensor s).
Proof. unfold queued. cbn. by destruct (hn_fim_updates (sy_sensor s)). Qed.

Lemma step_moved s a n :
  linked s -> len (queued (sy_sensor s)) <= n -> (match a with FimTick _ => n < CHANNEL_DEPTH | _ => True end) ->
  let '(s', batches) := host_step sha256_hex debug s a in
  linked s' /\ len (queued (sy_sensor s')) <= step_pace n a /\ exists drained, moved s s' (step_updates s a) batches drained.
Proof.
  intros Hl Hn Hd. destruct a as [i| |line| |i|]; cbn [host_step step_updates step_pace]; unfold fim_turn.
  - destruct (sy_worker s) as [w|] eqn:Ew; [|split_and!; [done|lia|]; exists []; by apply moved_nothing].
    destruct (_ || _).
    { split_and!; [by intros []|rewrite thread_ends_queued; lia|]. exists []. apply moved_nothing; [apply thread_ends_queued|done]. }
    destruct Hl as (c & Hc & Hcon); [by rewrite Ew|]. destruct (tick sha256_hex i w) as [w' u]. unfold queued in *. cbn. rewrite Hc in *. cbn.
    unfold try_send. rewrite (proj2 (Z.leb_gt _ _)) by lia. cbn [ch_queue ch_connected]. split_and!.
    + intros _. cbn. eauto.
    + rewrite length_app. cbn. lia.
    + exists []. split; unfold queued; cbn; by rewrite ?Hc.
  - split_and!; [by intros []|by rewrite thread_ends_queued|]. exists []. apply moved_nothing; [apply thread_ends_queued|done].
  - split_and!; [done|done|]. exists []. by apply moved_nothing.
  - split_and!; [done|done|]. exists []. by apply moved_nothing.
  - pose proof (poll_parts debug i (sy_sensor s)) as Hp. destruct (poll_at debug i (sy_sensor s)) as [s' b].
    destruct Hp as (_ & _ & P1 & P2 & P3 & P4 & _). assert (queued s' = []) as Hq by (unfold queued; rewrite P1; by repeat case_match). split_and!.
    + intros Hw. destruct (Hl Hw) as (c & Hc & Hcon). cbn. rewrite P1, Hc, Hcon. by eexists.
    + cbn. by rewrite Hq.
    + exists (queued (sy_sensor s)). split; cbn; [by rewrite Hq|by rewrite app_nil_r|rewrite P4; unfold zsum; cbn; lia|done].
  - split_and!; [done|done|]. exists []. by apply moved_nothing.
Qed.

Lemma run_moved acts : forall s n s' batches,
  linked s -> len (queued (sy_sensor s)) <= n -> paced n acts = true -> host_run sha256_hex debug s acts = (s', batches) ->
  exists drained, moved s s' (run_updates s acts) batches drained.
Proof.
  induction acts as [|a acts IH]; intros s n s' batches Hl Hn Hp; cbn [host_run].
  { intros [= <- <-]. exists []. split; cbn; rewrite ?app_nil_r; done. }
  assert (match a with FimTick _ => n < CHANNEL_DEPTH | _ => True end /\ paced (step_pace n a) acts = true) as [Hd Hp'].
  { destruct a; cbn [paced] in Hp; cbn [step_pace]; try done. apply andb_true_iff in Hp as [H1 H2]. split; [lia|done]. }
  pose proof (step_moved s a n Hl Hn Hd) as Hs. cbn [run_updates].
  destruct (host_step sha256_hex debug s a) as [s1 first]. destruct Hs as (Hl1 & Hn1 & d1 & [A1 A2 A3 A4]). cbn [fst].
  destruct (host_run sha256_hex debug s1 acts) as [s2 more] eqn:Er. intros [= -> <-].
  destruct (IH s1 _ s' more Hl1 Hn1 Hp' Er) as (d2 & [B1 B2 B3 B4]). exists (d1 ++ d2). split.
  - by rewrite app_assoc, A1, <- app_assoc, B1, app_assoc.
  - rewrite fmap_app, concat_app, A2, B2. by rewrite events_of_app.
  - rewrite fmap_app, zsum_app, A3, B3. by rewrite overflows_of_app.
  - rewrite B4, last_app. by destruct (last d2).
Qed.

(** C37: the findings of the worker's thread reach the caller: through any interleaving of the threads and the polls in which no more ticks pass between two polls than the channel holds, also when the thread ends in between, the file events handed on are those the worker found, in its order, each once, but for those still in the channel; its overflows likewise; and the published counters are those of the last update handed on. *)
Theorem updates_delivered world settings s worker acts s' batches :
  sensor_start world settings = inr (s, worker) -> paced 0 acts = true ->
  host_run sha256_hex debug (mkHostSystem s worker) acts = (s', batches) ->
  let made := run_updates (mkHostSystem s worker) acts in
  concat (hb_fim <$> batches) ++ events_of (queued (sy_sensor s')) = events_of made /\
  zsum (hb_overflows <$> batches) + overflows_of (queued (sy_sensor s')) = overflows_of made /\
  (queued (sy_sensor s') = [] ->
     hn_fim_counters (sy_sensor s') = match last made with Some u => fu_counters u | None => hn_fim_counters s end).
Proof.
  intros Hs Hp Hr made. destruct (sensor_start_parts _ _ _ _ Hs) as (_ & _ & Hq & Hu & _).
  assert (linked (mkHostSystem s worker)) as Hl by (intros Hw; exists sync_channel; split; [by apply Hu|done]).
  destruct (run_moved acts _ 0 _ _ Hl ltac:(cbn; by rewrite Hq) Hp Hr) as (drained & [M1 M2 M3 M4]). cbn [sy_sensor] in M1, M4. rewrite Hq in M1. cbn [app] in M1.
  fold made in M1. rewrite M2, M3, M1, events_of_app, overflows_of_app. split_and!; [done|done|]. intros He. by rewrite He, app_nil_r, M4.
Qed.

(** A channel that is full loses what a tick found: the worker's baseline has moved on, and no batch will carry the events. *)
Theorem full_channel_loses_events s worker c i worker' update :
  sy_worker s = Some worker -> hn_fim_shutdown (sy_sensor s) = false -> tick_panics sha256_hex i worker = false -> hn_fim_updates (sy_sensor s) = Some c ->
  len (ch_queue c) = CHANNEL_DEPTH -> tick sha256_hex i worker = (worker', update) ->
  let s' := (host_step sha256_hex debug s (FimTick i)).1 in
  sy_worker s' = Some worker' /\ queued (sy_sensor s') = queued (sy_sensor s) /\ hn_stats (sy_sensor s') = hn_stats (sy_sensor s).
Proof.
  intros Hw Hsh Hpan Hc Hf Ht. cbn [host_step]; unfold fim_turn. rewrite Hw, Hsh, Hpan, Ht, Hc. cbn [orb]. unfold queued. cbn. unfold try_send. rewrite Hf, Z.leb_refl. by rewrite Hc.
Qed.
End runs.

(** ** The sources *)

Section health.
Context {SQ : Sqlite} {SJ : SerdeJson} (sha256_hex : list Z -> text) (debug : text -> text).

(** What a poll makes of the registry: first file integrity, then, when a sweep is due, the processes. *)
Definition fim_sources (s : HostSensor) : SourceRegistry :=
  let c := match last (queued s) with Some u => fu_counters u | None => hn_fim_counters s end in
  match hn_fim_updates s, hs_fim (hn_settings s) with
  | Some _, Some _ => produced (judge_baseline c (judge_realtime c (hn_sources s))) FIM_REALTIME 0
  | _, _ => hn_sources s
  end.

Definition process_sources (tree : ProcTree) (root : text) (outcome : SweepOutcome) (r : SourceRegistry) : SourceRegistry :=
  let r := if so_processes_seen outcome <=? 1 then unavailable r PROCESS_TABLE (restricted_view root (so_processes_seen outcome)) else active r PROCESS_TABLE in
  let r := if sockets_readable tree then active r PROCESS_SOCKETS else unavailable r PROCESS_SOCKETS (no_socket_table root) in
  produced r PROCESS_TABLE (len (so_events outcome)).

Lemma poll_sources i s :
  hn_sources (poll_at debug i s).1 =
    match hn_processes s with
    | Some w => if hn_next_sweep s <=? pl_now i then process_sources (pl_tree i) (hs_proc_root (hn_settings s)) (sweep (pl_tree i) w).2 (fim_sources s) else fim_sources s
    | None => fim_sources s
    end.
Proof.
  unfold poll_at, fim_sources. pose proof (drain_fim_parts s HostBatch_default) as Hd. destruct (drain_fim s HostBatch_default) as [s1 b1].
  destruct Hd as (D1 & _ & _ & D4 & D5 & _ & D7 & _ & D9 & _). pose proof (poll_logs_parts debug (pl_logs i) s1 b1) as Hl.
  destruct (poll_logs debug (pl_logs i) s1 b1) as [s2 b2]. destruct Hl as (L1 & _ & _ & _ & L5 & L6 & L7 & _). rewrite D7 in D9.
  unfold sweep_is_due. rewrite L5, D4. destruct (hn_processes s) as [w|] eqn:Ew; [rewrite L6, D5; destruct (hn_next_sweep s <=? pl_now i)|].
  - rewrite D4 in L5. pose proof (sweep_processes_parts (pl_tree i) s2 b2 w L5) as Hs. destruct (sweep_processes (pl_tree i) s2 b2) as [s3 b3].
    destruct Hs as (_ & _ & _ & _ & _ & _ & _ & _ & Hs). cbn [fst with_stats hn_sources with_processes].
    by rewrite Hs, L7, D9, L1, D1.
  - cbn [fst with_stats hn_sources]. by rewrite L7, D9.
  - cbn [fst with_stats hn_sources]. by rewrite L7, D9.
Qed.

(** ** Holes say why *)

Lemma app_not_nil {A : Type} (l k : list A) : k <> [] -> l ++ k <> [].
Proof. by destruct l. Qed.

Lemma fim_sources_ok s : registry_ok (hn_sources s) -> registry_ok (fim_sources s).
Proof.
  intros Hr. unfold fim_sources, judge_baseline, judge_realtime. repeat case_match; auto; repeat (apply produced_ok; [|lia]);
    repeat first [apply active_ok|apply unavailable_ok; [|done]|apply degraded_ok; [|by apply app_not_nil]]; done.
Qed.

Lemma process_sources_ok tree root outcome r : registry_ok r -> registry_ok (process_sources tree root outcome r).
Proof.
  intros Hr. unfold process_sources. apply produced_ok; [|lia].
  destruct (so_processes_seen outcome <=? 1), (sockets_readable tree); repeat first [apply active_ok|apply unavailable_ok; [|done]]; done.
Qed.

Lemma poll_registry_ok i s : registry_ok (hn_sources s) -> registry_ok (hn_sources (poll_at debug i s).1).
Proof. intros Hr. rewrite poll_sources. repeat case_match; auto using process_sources_ok, fim_sources_ok. Qed.

Lemma declare_auth_files_ok exists_ (s : HostSensor) : registry_ok (hn_sources s) -> registry_ok (hn_sources (declare_auth_files exists_ s)).
Proof.
  intros Hr. unfold declare_auth_files. repeat case_match; cbn [with_sources hn_sources]; auto;
    first [by apply active_ok|by apply unavailable_ok|apply degraded_ok; [done|]; by do 3 apply app_not_nil].
Qed.

Lemma attach_journal_ok world (s : HostSensor) : registry_ok (hn_sources s) -> registry_ok (hn_sources (attach_journal world s)).
Proof. intros Hr. unfold attach_journal. repeat case_match; cbn [with_sources with_journal hn_sources]; auto; first [by apply active_ok|by apply unavailable_ok]. Qed.

Lemma start_registry_ok world settings s worker : sensor_start world settings = inr (s, worker) -> registry_ok (hn_sources s).
Proof.
  unfold sensor_start. destruct (match hs_fim settings with Some _ => _ | None => _ end) as [|[s0 w]] eqn:E0; [done|]. intros [= <- _]. cbn [with_stats hn_sources].
  apply declare_auth_files_ok, attach_journal_ok.
  assert (hn_sources s0 = declare_platform_gaps (sw_os world) registry_new) as ->; [|apply declare_platform_gaps_ok, registry_new_ok].
  destruct (hs_fim settings) as [fim|]; [unfold spawn_fim in E0; repeat case_match; simplify_eq; done|]. by injection E0 as <- <-.
Qed.

(** A property of the registry that polls keep holds of every run. *)
Lemma run_registry (P : SourceRegistry -> Prop) (Q : HostSensor -> Prop) :
  (forall i s, Q s -> P (hn_sources s) -> P (hn_sources (poll_at debug i s).1) /\ Q (poll_at debug i s).1) ->
  (forall s s', hn_settings s' = hn_settings s -> hn_processes s' = hn_processes s -> hn_sources s' = hn_sources s -> Q s -> Q s') ->
  forall acts s, Q (sy_sensor s) -> P (hn_sources (sy_sensor s)) ->
    P (hn_sources (sy_sensor (host_run sha256_hex debug s acts).1)) /\ Q (sy_sensor (host_run sha256_hex debug s acts).1).
Proof.
  intros Hpoll Hother acts. induction acts as [|a acts IH]; intros s HQ HP; cbn [host_run]; [done|].
  assert (P (hn_sources (sy_sensor (host_step sha256_hex debug s a).1)) /\ Q (sy_sensor (host_step sha256_hex debug s a).1)) as [HP1 HQ1].
  { destruct a as [i| |line| |i|]; cbn [host_step]; unfold fim_turn.
    - destruct (sy_worker s) as [w|]; [|done]. destruct (_ || _); [|destruct (tick sha256_hex i w)]; (split; [done|]); by eapply Hother; [..|exact HQ].
    - split; [done|]. by eapply Hother; [..|exact HQ].
    - split; [done|]. by eapply Hother; [..|exact HQ].
    - split; [done|]. by eapply Hother; [..|exact HQ].
    - destruct (Hpoll i (sy_sensor s) HQ HP) as [H1 H2]. by destruct (poll_at debug i (sy_sensor s)).
    - split; [done|]. by eapply Hother; [..|exact HQ]. }
  destruct (host_step sha256_hex debug s a) as [s1 first]. specialize (IH s1 HQ1 HP1).
  by destruct (host_run sha256_hex debug s1 acts) as [s2 more].
Qed.

(** The registry of sources stays well formed: from the start and through any run, the sources are listed once each under their own names, in order, every one that is not working gives its reason, and none has counted less than nothing; and what a poll or the start publishes is that registry. *)
Theorem sources_well_formed world settings s worker acts :
  sensor_start world settings = inr (s, worker) ->
  let s' := sy_sensor (host_run sha256_hex debug (mkHostSystem s worker) acts).1 in
  registry_ok (hn_sources s') /\ st_sources (hn_stats s) = (hn_sources s).*2 /\
  (forall i, st_sources (hn_stats (poll_at debug i s').1) = (hn_sources (poll_at debug i s').1).*2) /\
  (forall e, e ∈ holes (hn_sources s') <-> registry_get (hn_sources s') (src_name e) = Some e /\ src_state e <> SrcActive).
Proof.
  intros Hs s'. pose proof (start_registry_ok _ _ _ _ Hs) as Hr.
  destruct (run_registry registry_ok (fun _ => True) (fun i s _ H => conj (poll_registry_ok i s H) I) (fun _ _ _ _ _ _ => I) acts (mkHostSystem s worker) I Hr) as [Hok _].
  split_and!; [done| | |intros e; by apply holes_exact].
  - by destruct (sensor_start_parts _ _ _ _ Hs) as (_ & _ & _ & _ & _ & _ & _ & _ & _ & _ & _ & _ & ->).
  - intros i. pose proof (poll_parts debug i s') as Hp. destruct (poll_at debug i s') as [s1 b]. by destruct Hp as (_ & _ & _ & _ & _ & _ & _ & Hp & _).
Qed.

(** ** What the states say *)

Ltac states := rewrite ?state_produced, ?state_set; unfold active, unavailable, degraded; rewrite ?state_produced, ?state_set.

Lemma fim_sources_other s name : name <> FIM_REALTIME -> name <> FIM_BASELINE -> state (fim_sources s) name = state (hn_sources s) name.
Proof.
  clear sha256_hex debug. intros H1 H2. unfold fim_sources, judge_baseline, judge_realtime. repeat case_match; try done; states;
    rewrite ?(decide_False (P := name = FIM_REALTIME)), ?(decide_False (P := name = FIM_BASELINE)) by done; by rewrite decide_False by tauto.
Qed.

Lemma process_sources_other tree root outcome r name :
  name <> PROCESS_TABLE -> name <> PROCESS_SOCKETS -> state (process_sources tree root outcome r) name = state r name.
Proof.
  clear sha256_hex debug. intros H1 H2. unfold process_sources. destruct (so_processes_seen outcome <=? 1), (sockets_readable tree); states;
    rewrite ?(decide_False (P := name = PROCESS_TABLE)), ?(decide_False (P := name = PROCESS_SOCKETS)) by done; by rewrite decide_False by tauto.
Qed.

Lemma process_sources_judged tree root outcome r :
  state (process_sources tree root outcome r) PROCESS_TABLE = Some (if so_processes_seen outcome <=? 1 then SrcUnavailable else SrcActive) /\
  state (process_sources tree root outcome r) PROCESS_SOCKETS = Some (if sockets_readable tree then SrcActive else SrcUnavailable).
Proof.
  unfold process_sources. destruct (so_processes_seen outcome <=? 1), (sockets_readable tree); split; states;
    rewrite ?(decide_False (P := PROCESS_SOCKETS = PROCESS_TABLE)), ?(decide_False (P := PROCESS_TABLE = PROCESS_SOCKETS)),
      ?(decide_True (P := PROCESS_SOCKETS = PROCESS_SOCKETS)), ?(decide_True (P := PROCESS_TABLE = PROCESS_TABLE)) by done;
    by rewrite decide_False by (intros [? ?]; done).
Qed.

(** What the counters say of the two sources of file integrity. *)
Definition realtime_state (c : FimCounters) (before : option SourceState) : SourceState :=
  if (fc_watched_paths c =? 0) && (0 <? fc_watch_failures c) then SrcUnavailable
  else if 0 <? fc_watch_failures c then SrcDegraded
  else if 0 <? fc_watched_paths c then SrcActive
  else unwrap_or SrcActive before.

Definition baseline_state (c : FimCounters) (before : option SourceState) : option SourceState :=
  if 0 <? fc_rescans c then Some (if fc_baseline_entries c =? 0 then SrcUnavailable else SrcActive) else before.

Lemma judge_realtime_state c r : state (judge_realtime c r) FIM_REALTIME = (if (0 <? fc_watch_failures c) || (0 <? fc_watched_paths c) then Some (realtime_state c None) else state r FIM_REALTIME) /\
  state (judge_realtime c r) FIM_BASELINE = state r FIM_BASELINE.
Proof.
  unfold judge_realtime, realtime_state. destruct (fc_watched_paths c =? 0), (0 <? fc_watch_failures c), (0 <? fc_watched_paths c); cbn [andb orb]; states; done.
Qed.

Lemma judge_baseline_state c r : state (judge_baseline c r) FIM_BASELINE = baseline_state c (state r FIM_BASELINE) /\
  state (judge_baseline c r) FIM_REALTIME = state r FIM_REALTIME.
Proof. unfold judge_baseline, baseline_state. destruct (0 <? fc_rescans c), (fc_baseline_entries c =? 0); cbn [andb]; states; done. Qed.

Lemma fim_sources_judged s :
  let c := match last (queued s) with Some u => fu_counters u | None => hn_fim_counters s end in
  hn_fim_updates s <> None -> hs_fim (hn_settings s) <> None ->
  state (fim_sources s) FIM_REALTIME = Some (realtime_state c (state (hn_sources s) FIM_REALTIME)) /\
  state (fim_sources s) FIM_BASELINE = baseline_state c (state (hn_sources s) FIM_BASELINE).
Proof.
  intros c Hu Hf. unfold fim_sources. destruct (hn_fim_updates s); [|done]. destruct (hs_fim _); [|done]. fold c. rewrite !state_produced.
  destruct (judge_baseline_state c (judge_realtime c (hn_sources s))) as [B1 B2]. destruct (judge_realtime_state c (hn_sources s)) as [R1 R2].
  rewrite B2, B1, R1, R2. split; [|by rewrite decide_False by (intros [? ?]; done)].
  unfold realtime_state. destruct (0 <? fc_watch_failures c) eqn:E1, (0 <? fc_watched_paths c) eqn:E2; cbn [orb andb];
    rewrite ?andb_true_r, ?andb_false_r; cbn [orb]; repeat case_decide; try tauto; try done; destruct (state (hn_sources s) FIM_REALTIME) as [st|]; naive_solver.
Qed.

(** A poll judges the sources by what it saw: a sweep that sees at most one process makes the process table unavailable, and only such a sweep does; the sockets are available exactly when their table is there; real-time watching is unavailable when nothing could be watched, degraded when something could not, the baseline is unavailable when a comparison completed and found nothing; and the counters published are those the verdict was made from. *)
Theorem poll_judges i s s' batch :
  poll_at debug i s = (s', batch) ->
  (forall w, hn_processes s = Some w -> hn_next_sweep s <= pl_now i ->
     state (hn_sources s') PROCESS_TABLE = Some (if len (sn_processes (snapshot (pl_tree i) (wa_limits w))) <=? 1 then SrcUnavailable else SrcActive) /\
     state (hn_sources s') PROCESS_SOCKETS = Some (if sockets_readable (pl_tree i) then SrcActive else SrcUnavailable)) /\
  (hn_fim_updates s <> None -> hs_fim (hn_settings s) <> None ->
     state (hn_sources s') FIM_REALTIME = Some (realtime_state (hn_fim_counters s') (state (hn_sources s) FIM_REALTIME)) /\
     state (hn_sources s') FIM_BASELINE = baseline_state (hn_fim_counters s') (state (hn_sources s) FIM_BASELINE)) /\
  (forall name, name ∉ [FIM_REALTIME; FIM_BASELINE; PROCESS_TABLE; PROCESS_SOCKETS] -> state (hn_sources s') name = state (hn_sources s) name).
Proof.
  clear sha256_hex. intros E. pose proof (poll_sources i s) as Hs. rewrite E in Hs. cbn [fst] in Hs.
  pose proof (poll_parts debug i s) as Hp. rewrite E in Hp. destruct Hp as (_ & _ & _ & Hc & _). split_and!.
  - intros w Hw Hd. rewrite Hw, (proj2 (Z.leb_le _ _) Hd) in Hs. rewrite Hs. apply process_sources_judged.
  - intros Hu Hf. destruct (fim_sources_judged s Hu Hf) as [H1 H2]. rewrite <- Hc in H1, H2. rewrite Hs.
    repeat case_match; rewrite ?process_sources_other by done; done.
  - intros name Hn. rewrite Hs. repeat case_match; rewrite ?process_sources_other, fim_sources_other by set_solver; done.
Qed.

(** ** Platforms *)

Definition linux_only : list text := [AUTH_STRUCTURED; PROCESS_TABLE; PROCESS_SOCKETS].

Lemma platform_gaps_names os : (platform_gaps os).*1 = if bool_decide (os = of_string "linux") then [] else linux_only.
Proof. unfold platform_gaps. by repeat case_bool_decide. Qed.

Lemma declare_auth_files_state exists_ (s : HostSensor) name :
  name <> AUTH_FILES -> state (hn_sources (declare_auth_files exists_ s)) name = state (hn_sources s) name.
Proof. intros Hn. unfold declare_auth_files. repeat case_match; cbn [with_sources hn_sources]; try done; states; by rewrite decide_False. Qed.

Lemma start_sources world settings s worker name :
  sensor_start world settings = inr (s, worker) -> name <> AUTH_FILES ->
  state (hn_sources s) name =
    if decide (name = AUTH_STRUCTURED /\ hs_journald settings = true /\ is_linux world = true)
    then Some (match sw_journal world with inr _ => SrcActive | inl _ => SrcUnavailable end)
    else if decide (name ∈ linux_only /\ is_linux world = false) then Some SrcUnsupported else None.
Proof.
  unfold sensor_start. destruct (match hs_fim settings with Some _ => _ | None => _ end) as [|[s0 w]] eqn:E0; [done|]. intros [= <- _] Hn. cbn [with_stats hn_sources].
  assert (hn_sources s0 = declare_platform_gaps (sw_os world) registry_new /\ hn_settings s0 = settings) as [Hs0 Hset].
  { destruct (hs_fim settings) as [fim|]; [unfold spawn_fim in E0; repeat case_match; simplify_eq; done|]. by injection E0 as <- <-. }
  rewrite declare_auth_files_state by done. unfold attach_journal. rewrite Hset.
  assert (state (hn_sources s0) name = if decide (name ∈ linux_only /\ is_linux world = false) then Some SrcUnsupported else None) as Hgap.
  { rewrite Hs0, state_gap, platform_gaps_names. fold (is_linux world). destruct (is_linux world).
    - rewrite !decide_False; [done|naive_solver|apply not_elem_of_nil].
    - destruct (decide (name ∈ linux_only)); [rewrite decide_True by done|rewrite decide_False by tauto]; done. }
  destruct (hs_journald settings), (is_linux world); cbn [andb]; try (rewrite decide_False by (intros (_ & ? & ?); done); done).
  destruct (sw_journal world); cbn [with_sources with_journal hn_sources]; states; rewrite Hgap; repeat case_decide; tauto || done.
Qed.

(** No source of a registry is unsupported. *)
Definition supported (r : SourceRegistry) : Prop := forall name, state r name <> Some SrcUnsupported.

Lemma set_supported r name st detail : st <> SrcUnsupported -> supported r -> supported (set_source r name st detail).
Proof. intros Hst Hr other. rewrite state_set. case_decide; [congruence|apply Hr]. Qed.

Lemma produced_supported r name count : supported r -> supported (produced r name count).
Proof. intros Hr other. rewrite state_produced. case_decide; [done|apply Hr]. Qed.

Ltac supported := repeat first [assumption|apply produced_supported|apply set_supported; [done|]].

Lemma poll_supported i s : supported (hn_sources s) -> supported (hn_sources (poll_at debug i s).1).
Proof.
  intros Hr. rewrite poll_sources. assert (supported (fim_sources s)) as Hf.
  { unfold fim_sources, judge_baseline, judge_realtime. repeat case_match; supported. }
  destruct (hn_processes s) as [w|]; [|done]. destruct (_ <=? _); [|done]. unfold process_sources. cbv zeta.
  destruct (so_processes_seen _ <=? 1), (sockets_readable _); supported.
Qed.

Lemma start_supported world settings s worker : sensor_start world settings = inr (s, worker) -> is_linux world = true -> supported (hn_sources s).
Proof.
  unfold sensor_start, is_linux. rewrite bool_decide_eq_true. intros E Hl.
  destruct (match hs_fim settings with Some _ => _ | None => _ end) as [|[s0 w]] eqn:E0; [done|]. injection E as <- _. cbn [with_stats hn_sources].
  assert (supported (hn_sources s0)) as Hs0.
  { assert (hn_sources s0 = declare_platform_gaps (sw_os world) registry_new) as -> by
      (destruct (hs_fim settings) as [fim|]; [unfold spawn_fim in E0; repeat case_match; simplify_eq; done|by injection E0 as <- <-]). rewrite Hl. by intros name. }
  unfold declare_auth_files, attach_journal. repeat case_match; cbn [with_sources with_journal hn_sources]; supported.
Qed.

Lemma not_linux_only : FIM_REALTIME ∉ linux_only /\ FIM_BASELINE ∉ linux_only /\ AUTH_FILES ∉ linux_only.
Proof. split_and!; apply (bool_decide_unpack _); vm_compute; exact I. Qed.

(** Without a process watcher a poll leaves the sources that only Linux has. *)
Lemma poll_unsupported i s :
  hn_processes s = None -> Forall (fun name => state (hn_sources s) name = Some SrcUnsupported) linux_only ->
  Forall (fun name => state (hn_sources (poll_at debug i s).1) name = Some SrcUnsupported) linux_only /\ hn_processes (poll_at debug i s).1 = None.
Proof.
  intros Hp Hs. split.
  - rewrite poll_sources, Hp. rewrite Forall_forall in Hs. apply Forall_forall. intros name Hin.
    rewrite fim_sources_other; [by apply Hs| |]; intros ->; by apply not_linux_only in Hin.
  - pose proof (poll_parts debug i s) as Hpp. destruct (poll_at debug i s). by apply Hpp.
Qed.

(** A platform without a backend says so: started anywhere but on Linux, whatever the settings, the structured authentication records, the process table and the sockets are reported unsupported, with a reason, after any run, and no process is ever reported; on Linux nothing is ever reported unsupported. *)
Theorem platform_gaps_reported world settings s worker acts :
  sensor_start world settings = inr (s, worker) ->
  let s' := sy_sensor (host_run sha256_hex debug (mkHostSystem s worker) acts).1 in
  if is_linux world then forall name, state (hn_sources s') name <> Some SrcUnsupported
  else Forall (fun name => state (hn_sources s') name = Some SrcUnsupported) linux_only /\ hn_processes s' = None /\ hn_journal s = None.
Proof.
  intros Hs. cbv zeta. destruct (sensor_start_parts _ _ _ _ Hs) as (_ & _ & _ & _ & _ & Hproc & Hjour & _). destruct (is_linux world) eqn:El.
  - refine (proj1 (run_registry supported (fun _ => True) _ (fun _ _ _ _ _ _ => I) acts _ I _)); [|by apply (start_supported _ _ _ _ Hs)].
    intros i s1 _ Hp. split; [by apply poll_supported|done].
  - destruct (run_registry (fun r => Forall (fun name => state r name = Some SrcUnsupported) linux_only) (fun s => hn_processes s = None)
      poll_unsupported ltac:(congruence) acts (mkHostSystem s worker)) as [H1 H2].
    + cbn [sy_sensor]. destruct (hn_processes s); [|done]. destruct Hproc as [Hproc _]. by destruct (Hproc ltac:(done)).
    + apply Forall_forall. intros name Hin. cbn [sy_sensor]. rewrite (start_sources _ _ _ _ _ Hs) by (intros ->; by apply not_linux_only in Hin).
      rewrite El, decide_False, decide_True by naive_solver. done.
    + split_and!; [done|done|]. destruct (hn_journal s); [|done]. by specialize (Hjour ltac:(done)).
Qed.

(** ** A dead thread looks healthy *)

Definition healthy (c : FimCounters) : Prop := 0 < fc_watched_paths c /\ fc_watch_failures c = 0 /\ 0 < fc_rescans c /\ 0 < fc_baseline_entries c.

Definition all_active (r : SourceRegistry) : Prop :=
  state r FIM_REALTIME = Some SrcActive /\ state r FIM_BASELINE = Some SrcActive /\ state r AUTH_STRUCTURED = Some SrcActive.

(** The worker's thread is gone, and everything it sent was taken. *)
Record dead (s : HostSystem) : Prop := {
  dead_worker : sy_worker s = None;
  dead_queue : queued (sy_sensor s) = [];
  dead_counters : healthy (hn_fim_counters (sy_sensor s));
  dead_states : all_active (hn_sources (sy_sensor s))
}.

Lemma dead_poll i s : queued s = [] -> healthy (hn_fim_counters s) -> all_active (hn_sources s) ->
  queued (poll_at debug i s).1 = [] /\ healthy (hn_fim_counters (poll_at debug i s).1) /\ all_active (hn_sources (poll_at debug i s).1).
Proof.
  intros Hq Hc (A1 & A2 & A3). pose proof (poll_parts debug i s) as Hp. pose proof (poll_sources i s) as Hs.
  assert (all_active (fim_sources s)) as (F1 & F2 & F3).
  { pose proof (fim_sources_judged s) as Hj. rewrite Hq in Hj. cbn [last] in Hj. destruct Hc as (C1 & C2 & C3 & C4).
    unfold realtime_state, baseline_state in Hj. rewrite C2, (proj2 (Z.ltb_lt _ _) C1), (proj2 (Z.ltb_lt _ _) C3) in Hj.
    rewrite andb_false_r in Hj. cbn [Z.ltb Z.compare] in Hj. rewrite (proj2 (Z.eqb_neq (fc_baseline_entries _) 0)) in Hj by lia.
    unfold all_active. rewrite (fim_sources_other s AUTH_STRUCTURED) by done.
    destruct (hn_fim_updates s) eqn:Eu; [|unfold fim_sources; by rewrite Eu]. destruct (hs_fim (hn_settings s)) eqn:Ef; [|unfold fim_sources; by rewrite Eu, Ef].
    destruct (Hj ltac:(done) ltac:(done)) as [-> ->]. done. }
  destruct (poll_at debug i s) as [s' b]. destruct Hp as (_ & _ & P1 & P2 & _). cbn [fst] in *. rewrite Hq in P2. cbn [last] in P2. split_and!.
  - unfold queued. rewrite P1. by repeat case_match.
  - by rewrite P2.
  - rewrite Hs. unfold all_active. repeat case_match; rewrite ?process_sources_other by done; done.
Qed.

Lemma dead_run acts : forall s, dead s -> dead (host_run sha256_hex debug s acts).1.
Proof.
  induction acts as [|a acts IH]; intros s Hd; cbn [host_run]; [done|].
  assert (dead (host_step sha256_hex debug s a).1) as Hd1.
  { destruct Hd as [H1 H2 H3 H4]. destruct a as [i| |line| |i|]; cbn [host_step]; unfold fim_turn.
    - by rewrite H1.
    - cbn [fst]. split; [done|by rewrite thread_ends_queued|done|done].
    - done.
    - done.
    - destruct (dead_poll i (sy_sensor s) H2 H3 H4) as (D1 & D2 & D3). by destruct (poll_at debug i (sy_sensor s)).
    - done. }
  destruct (host_step sha256_hex debug s a) as [s1 first]. specialize (IH s1 Hd1). by destruct (host_run sha256_hex debug s1 acts).
Qed.

(** Threads that die leave their sources reported active: once the worker's thread and the journal's reader are gone, with what they sent already taken and every source active, no run of polls, however long, reports file integrity or the structured records as anything but active. *)
Theorem dead_sources_look_active s acts :
  queued (sy_sensor s) = [] -> healthy (hn_fim_counters (sy_sensor s)) -> all_active (hn_sources (sy_sensor s)) ->
  all_active (hn_sources (sy_sensor (host_run sha256_hex debug s (FimDies :: JournalDies :: acts)).1)).
Proof.
  intros Hq Hc Ha. cbn [host_run host_step fst snd]. set (s1 := mkHostSystem _ _).
  assert (dead s1) as Hd by (split; try done; cbn; pose proof (thread_ends_queued s) as Ht; by rewrite Hq in Ht).
  pose proof (dead_states _ (dead_run acts s1 Hd)) as Hr. by destruct (host_run sha256_hex debug s1 acts).
Qed.
End health.

(** ** Lines beyond the budget *)

(** A reader of JSON that understands nothing. *)
#[local] Instance blank_json : SerdeJson :=
  {| JsonValue := unit; json_from_str _ := None; json_get _ _ := None; json_as_str _ := None; json_as_array _ := None; json_as_u64 _ := None |}.

(** A log file of 1030 lines. *)
Definition flood : list Z := concat (repeat [97; 10] 1030).

Definition flood_log : LogView :=
  mkLogView (Examined_as (mkFileView 2060 (Some (1, 1)))) (fun offset want => Some (take (Z.to_nat want) (drop (Z.to_nat offset) flood))).

Definition flood_sensor : HostSensor :=
  mkHostSensor HostSettings_default None false FimCounters_default [(of_string "/var/log/auth.log", from_start (Some (mkFileView 0 (Some (1, 1)))))] None None 0
    registry_new HidsStats_default.

Definition flood_poll : PollInput := mkPollInput (fun _ => flood_log) (mkProcTree None None None false (fun _ => None)) 0.

(** Lines beyond the limit of a poll are lost, not put off: of 1030 lines that a log gained, a poll takes 1024, the reader is at the end of the file, the next poll takes none, and no counter shows the six that are missing. *)
Theorem lines_beyond_budget_lost :
  let s1 := (poll_at quote flood_poll flood_sensor).1 in
  let s2 := (poll_at quote flood_poll s1).1 in
  (fun t => tl_offset t.2) <$> hn_tailers s1 = [2060] /\ st_auth_records (hn_stats s1) = 1024 /\
  st_auth_records (hn_stats s2) = 1024 /\ st_auth_unparsed (hn_stats s2) = 1024.
Proof. vm_compute. done. Qed.

(** ** The hypotheses can hold *)

(** A host that watches [/etc] on a stored baseline, follows one log and sweeps its processes. *)
Definition small_settings : HostSettings :=
  mkHostSettings (Some etc_settings) [of_string "/var/log/auth.log"] true (of_string "/proc") true DEFAULT_PROCESS_INTERVAL ScanLimits_default.

Definition small_world (os : text) : StartWorld :=
  mkStartWorld os 0 Some (inr (mo_baseline small_monitor)) None true (inl (of_string "not found")) (fun _ => None) (fun _ => true).

Definition small_poll (now : Z) : PollInput := mkPollInput (fun _ => mkLogView NotFound (fun _ _ => None)) host_tree now.

Definition small_acts : list HostAct := [FimTick (quiet_tick 1); Poll (small_poll 2); FimTick (quiet_tick 3); FimDies; Poll (small_poll (secs 10))].

Lemma small_start os : exists s worker, sensor_start (small_world os) small_settings = inr (s, Some worker).
Proof. unfold sensor_start, spawn_fim, worker_start. cbn [hs_fim small_settings sw_baseline small_world sw_thread]. eexists _, _. reflexivity. Qed.

Lemma host_counts_witness :
  exists s worker, sensor_start (small_world (of_string "linux")) small_settings = inr (s, worker) /\
    let '(s', batches) := host_run show_bytes quote (mkHostSystem s worker) small_acts in
    st_process_events (hn_stats (sy_sensor s')) = len (concat (hb_process <$> batches)).
Proof.
  destruct (small_start (of_string "linux")) as (s & worker & E). exists s, (Some worker). split; [exact E|].
  destruct (host_run show_bytes quote (mkHostSystem s (Some worker)) small_acts) as [s' batches] eqn:Er.
  destruct (host_counts show_bytes quote (small_world (of_string "linux")) small_settings s (Some worker) small_acts s' batches E Er) as (_ & _ & H & _). exact H.
Defined.

Lemma updates_delivered_witness :
  exists s worker, sensor_start (small_world (of_string "linux")) small_settings = inr (s, worker) /\ paced 0 small_acts = true /\
    let '(s', batches) := host_run show_bytes quote (mkHostSystem s worker) small_acts in
    concat (hb_fim <$> batches) ++ events_of (queued (sy_sensor s')) = events_of (run_updates show_bytes quote (mkHostSystem s worker) small_acts).
Proof.
  destruct (small_start (of_string "linux")) as (s & worker & E). exists s, (Some worker). split; [exact E|]. split; [reflexivity|].
  destruct (host_run show_bytes quote (mkHostSystem s (Some worker)) small_acts) as [s' batches] eqn:Er.
  destruct (updates_delivered show_bytes quote (small_world (of_string "linux")) small_settings s (Some worker) small_acts s' batches E eq_refl Er) as (H & _). exact H.
Defined.

Lemma sources_well_formed_witness :
  exists s worker, sensor_start (small_world (of_string "linux")) small_settings = inr (s, worker) /\
    registry_ok (hn_sources (sy_sensor (host_run show_bytes quote (mkHostSystem s worker) small_acts).1)).
Proof.
  destruct (small_start (of_string "linux")) as (s & worker & E). exists s, (Some worker). split; [exact E|].
  exact (proj1 (sources_well_formed show_bytes quote (small_world (of_string "linux")) small_settings s (Some worker) small_acts E)).
Defined.

Lemma poll_judges_witness :
  state (hn_sources (poll_at quote (small_poll 5) (sensor_new (small_world (of_string "linux")) small_settings)).1) PROCESS_TABLE = Some SrcUnavailable.
Proof.
  destruct (poll_at quote (small_poll 5) (sensor_new (small_world (of_string "linux")) small_settings)) as [s' batch] eqn:E.
  destruct (poll_judges quote (small_poll 5) _ s' batch E) as (H & _). cbn [fst].
  destruct (H (watcher_new ScanLimits_default) eq_refl ltac:(vm_compute; discriminate)) as [H1 _]. rewrite H1. vm_compute. reflexivity.
Defined.

Lemma platform_gaps_reported_witness :
  exists s worker, sensor_start (small_world (of_string "windows")) small_settings = inr (s, worker) /\
    state (hn_sources (sy_sensor (host_run show_bytes quote (mkHostSystem s worker) small_acts).1)) PROCESS_TABLE = Some SrcUnsupported.
Proof.
  destruct (small_start (of_string "windows")) as (s & worker & E). exists s, (Some worker). split; [exact E|].
  pose proof (platform_gaps_reported show_bytes quote (small_world (of_string "windows")) small_settings s (Some worker) small_acts E) as H.
  change (is_linux (small_world (of_string "windows"))) with false in H. cbn [negb] in H. destruct H as [H _].
  rewrite Forall_forall in H. apply H. right. left.
Defined.
