(* ===== verification/Usn.v ===== *)
(** The change journal of NTFS: [hids/src/usn.rs], the parsing of records and of read responses, and
    the decision how to catch up.

    A buffer is a list of bytes. The standard library's lossy reading of UTF-16 is modelled here. The
    loop over a response recurses on fuel; the length of the buffer is enough, since every turn passes
    a record of at least sixty bytes. *)

From S2P Require Import Prelude Text Event AuthLog.

Definition V2_HEADER : Z := 60.
Definition V3_HEADER : Z := 76.
Definition NEXT_USN_PREFIX : nat := 8.
Definition JOURNAL_DATA_V0 : Z := 56.
Definition MAX_NAME_CHARS : nat := 255.

(** ** Reasons *)

Definition USN_REASON_DATA_OVERWRITE : Z := 0x00000001.
Definition USN_REASON_DATA_EXTEND : Z := 0x00000002.
Definition USN_REASON_DATA_TRUNCATION : Z := 0x00000004.
Definition USN_REASON_NAMED_DATA_OVERWRITE : Z := 0x00000010.
Definition USN_REASON_NAMED_DATA_EXTEND : Z := 0x00000020.
Definition USN_REASON_NAMED_DATA_TRUNCATION : Z := 0x00000040.
Definition USN_REASON_FILE_CREATE : Z := 0x00000100.
Definition USN_REASON_FILE_DELETE : Z := 0x00000200.
Definition USN_REASON_EA_CHANGE : Z := 0x00000400.
Definition USN_REASON_SECURITY_CHANGE : Z := 0x00000800.
Definition USN_REASON_RENAME_OLD_NAME : Z := 0x00001000.
Definition USN_REASON_RENAME_NEW_NAME : Z := 0x00002000.
Definition USN_REASON_INDEXABLE_CHANGE : Z := 0x00004000.
Definition USN_REASON_BASIC_INFO_CHANGE : Z := 0x00008000.
Definition USN_REASON_HARD_LINK_CHANGE : Z := 0x00010000.
Definition USN_REASON_COMPRESSION_CHANGE : Z := 0x00020000.
Definition USN_REASON_ENCRYPTION_CHANGE : Z := 0x00040000.
Definition USN_REASON_OBJECT_ID_CHANGE : Z := 0x00080000.
Definition USN_REASON_REPARSE_POINT_CHANGE : Z := 0x00100000.
Definition USN_REASON_STREAM_CHANGE : Z := 0x00200000.
Definition USN_REASON_TRANSACTED_CHANGE : Z := 0x00400000.
Definition USN_REASON_INTEGRITY_CHANGE : Z := 0x00800000.
Definition USN_REASON_CLOSE : Z := 0x80000000.

Definition FILE_ATTRIBUTE_DIRECTORY : Z := 0x00000010.

(** A bitwise or of several flags. *)
Definition flags (l : list Z) : Z := foldr Z.lor 0 l.

Record UsnRecord := mkUsnRecord {
  ur_usn : Z;
  ur_file_reference : Z;
  ur_parent_reference : Z;
  ur_timestamp : Z;
  ur_reason : Z;
  ur_attributes : Z;
  ur_file_name : text;
  ur_version : Z * Z
}.

Definition is_directory (r : UsnRecord) : bool := negb (Z.land (ur_attributes r) FILE_ATTRIBUTE_DIRECTORY =? 0).

Definition CONTENT : Z :=
  flags [USN_REASON_DATA_OVERWRITE; USN_REASON_DATA_EXTEND; USN_REASON_DATA_TRUNCATION; USN_REASON_NAMED_DATA_OVERWRITE;
         USN_REASON_NAMED_DATA_EXTEND; USN_REASON_NAMED_DATA_TRUNCATION; USN_REASON_STREAM_CHANGE].

Definition ATTRIBUTES : Z :=
  flags [USN_REASON_BASIC_INFO_CHANGE; USN_REASON_SECURITY_CHANGE; USN_REASON_EA_CHANGE; USN_REASON_COMPRESSION_CHANGE;
         USN_REASON_ENCRYPTION_CHANGE; USN_REASON_OBJECT_ID_CHANGE; USN_REASON_REPARSE_POINT_CHANGE; USN_REASON_HARD_LINK_CHANGE;
         USN_REASON_INDEXABLE_CHANGE; USN_REASON_INTEGRITY_CHANGE].

Definition change (r : UsnRecord) : option FileChange :=
  let has mask := negb (Z.land (ur_reason r) mask =? 0) in
  if has USN_REASON_FILE_DELETE then Some Deleted
  else if has USN_REASON_FILE_CREATE then Some Created
  else if has (flags [USN_REASON_RENAME_OLD_NAME; USN_REASON_RENAME_NEW_NAME]) then Some Renamed
  else if has CONTENT then Some Modified
  else if has ATTRIBUTES then Some AttributesChanged
  else None.

(** ** Records *)

Inductive RecordError :=
| TooShort (length : Z)
| UnsupportedVersion (major minor : Z)
| LengthMismatch (declared available : Z)
| NameOutOfBounds (offset length record : Z)
| OddNameLength (length : Z).

(** [read_int!]: an unsigned integer of [n] bytes, and the signed one of the same bits. *)
Definition read_int (n : nat) (bytes : list Z) (at_ : nat) : option Z :=
  if (at_ + n <=? length bytes)%nat then Some (from_le_bytes (take n (drop at_ bytes))) else None.

Definition to_i64 (x : Z) : Z := if x <? 2 ^ 63 then x else x - 2 ^ 64.

(** [String::from_utf16_lossy]. *)
Definition is_high_surrogate (u : Z) : bool := (0xd800 <=? u) && (u <=? 0xdbff).
Definition is_low_surrogate (u : Z) : bool := (0xdc00 <=? u) && (u <=? 0xdfff).

Fixpoint from_utf16_lossy (units : list Z) : text :=
  match units with
  | [] => []
  | u :: rest =>
      if is_high_surrogate u then
        match rest with
        | v :: rest' =>
            if is_low_surrogate v then (0x10000 + (u - 0xd800) * 0x400 + (v - 0xdc00)) :: from_utf16_lossy rest'
            else REPLACEMENT :: from_utf16_lossy rest
        | [] => [REPLACEMENT]
        end
      else if is_low_surrogate u then REPLACEMENT :: from_utf16_lossy rest
      else u :: from_utf16_lossy rest
  end.

(** [chunks_exact(2)], each pair an integer. *)
Fixpoint code_units (bytes : list Z) : list Z :=
  match bytes with
  | a :: b :: rest => from_le_bytes [a; b] :: code_units rest
  | _ => []
  end.

Definition decode_name (bytes : list Z) : text :=
  (fun c => if is_control c then 46 else c) <$> take MAX_NAME_CHARS (from_utf16_lossy (code_units bytes)).

(** [Result], with the error on the left, and [ok_or]. *)
Definition ok_or {A : Type} (e : RecordError) (o : option A) : RecordError + A := match o with Some a => inr a | None => inl e end.

Definition try {A B : Type} (x : RecordError + A) (f : A -> RecordError + B) : RecordError + B := match x with inl e => inl e | inr a => f a end.
Notation "x <-? e ; f" := (try e (fun x => f)) (at level 100, e at level 99, f at level 200, right associativity).

(** The fields that follow the two references, at [rest]. *)
Definition parse_tail (record : list Z) (declared header : Z) (major minor file_reference parent_reference : Z) (rest : nat) : RecordError + UsnRecord :=
  let short := TooShort declared in
  usn <-? ok_or short (read_int 8 record rest);
  timestamp <-? ok_or short (read_int 8 record (rest + 8));
  reason <-? ok_or short (read_int 4 record (rest + 16));
  attributes <-? ok_or short (read_int 4 record (rest + 28));
  name_len <-? ok_or short (read_int 2 record (rest + 32));
  name_offset <-? ok_or short (read_int 2 record (rest + 34));
  if negb (name_len mod 2 =? 0) then inl (OddNameLength name_len)
  else if (name_offset <? header) || (declared <? name_offset + name_len) then inl (NameOutOfBounds name_offset name_len declared)
  else inr (mkUsnRecord (to_i64 usn) file_reference parent_reference (to_i64 timestamp) reason attributes
              (decode_name (take (Z.to_nat name_len) (drop (Z.to_nat name_offset) record))) (major, minor)).

Definition parse_record (bytes : list Z) : RecordError + UsnRecord :=
  let short := TooShort (len bytes) in
  declared <-? ok_or short (read_int 4 bytes 0);
  major <-? ok_or short (read_int 2 bytes 4);
  minor <-? ok_or short (read_int 2 bytes 6);
  header <-? (if major =? 2 then inr V2_HEADER else if major =? 3 then inr V3_HEADER else inl (UnsupportedVersion major minor));
  if (declared <? header) || (len bytes <? declared) then inl (LengthMismatch declared (len bytes))
  else
    let record := take (Z.to_nat declared) bytes in
    let short := TooShort declared in
    if major =? 2 then
      file_reference <-? ok_or short (read_int 8 record 8);
      parent_reference <-? ok_or short (read_int 8 record 16);
      parse_tail record declared header major minor file_reference parent_reference 24
    else
      file_reference <-? ok_or short (read_int 16 record 8);
      parent_reference <-? ok_or short (read_int 16 record 24);
      parse_tail record declared header major minor file_reference parent_reference 40.

(** ** Responses *)

Record ReadResponse := mkReadResponse {
  rr_next_usn : Z;
  rr_records : list UsnRecord;
  rr_rejected : Z
}.

Definition ReadResponse_default : ReadResponse := mkReadResponse 0 [] 0.

Definition push_record (r : ReadResponse) (x : UsnRecord) : ReadResponse := mkReadResponse (rr_next_usn r) (rr_records r ++ [x]) (rr_rejected r).
Definition reject (r : ReadResponse) : ReadResponse := mkReadResponse (rr_next_usn r) (rr_records r) (rr_rejected r + 1).

(** The loop of [parse_read_response]; [None] when the fuel is out. *)
Fixpoint read_records (fuel : nat) (remaining : list Z) (r : ReadResponse) : option ReadResponse :=
  match remaining with
  | [] => Some r
  | _ :: _ =>
      match fuel with
      | O => None
      | S fuel =>
          match read_int 4 remaining 0 with
          | None => Some (reject r)
          | Some declared =>
              if (declared <? V2_HEADER) || (len remaining <? declared) then Some (reject r)
              else
                let n := Z.to_nat declared in
                let r := match parse_record (take n remaining) with inr x => push_record r x | inl _ => reject r end in
                read_records fuel (drop n remaining) r
          end
      end
  end.

Definition parse_read_response (buffer : list Z) : option ReadResponse :=
  match read_int 8 buffer 0 with
  | None => Some ReadResponse_default
  | Some next_usn => read_records (length buffer) (drop NEXT_USN_PREFIX buffer) (mkReadResponse (to_i64 next_usn) [] 0)
  end.

(** ** Catching up *)

Record JournalData := mkJournalData {
  jd_journal_id : Z;
  jd_first_usn : Z;
  jd_next_usn : Z;
  jd_lowest_valid_usn : Z;
  jd_max_usn : Z
}.

Definition parse_journal_data (bytes : list Z) : option JournalData :=
  if len bytes <? JOURNAL_DATA_V0 then None
  else
    journal_id ← read_int 8 bytes 0;
    first_usn ← read_int 8 bytes 8;
    next_usn ← read_int 8 bytes 16;
    lowest_valid_usn ← read_int 8 bytes 24;
    max_usn ← read_int 8 bytes 32;
    Some (mkJournalData journal_id (to_i64 first_usn) (to_i64 next_usn) (to_i64 lowest_valid_usn) (to_i64 max_usn)).

Inductive RescanReason := NoStoredPosition | JournalReplaced | RecordsAgedOut | PositionFromTheFuture.

Inductive CatchUp := Resume (usn : Z) | FullRescan (reason : RescanReason).

Definition plan_catch_up (stored : option (Z * Z)) (current : JournalData) : CatchUp :=
  match stored with
  | None => FullRescan NoStoredPosition
  | Some (stored_journal, stored_usn) =>
      if negb (stored_journal =? jd_journal_id current) then FullRescan JournalReplaced
      else if jd_next_usn current <? stored_usn then FullRescan PositionFromTheFuture
      else if (stored_usn <? jd_lowest_valid_usn current) || (stored_usn <? jd_first_usn current) then FullRescan RecordsAgedOut
      else Resume stored_usn
  end.

(** ** A record as the filesystem writes it *)

(** Little-endian fields of given widths, one after the other. *)
Definition encode_fields (fields : list (nat * Z)) : list Z := concat ((fun f => le_bytes f.1 f.2) <$> fields).

Definition widths (fields : list (nat * Z)) : nat := sum_list fields.*1.

Definition field_fits (f : nat * Z) : Prop := 0 <= f.2 < 2 ^ (8 * Z.of_nat f.1).

Lemma le_bytes_length n x : length (le_bytes n x) = n.
Proof. unfold le_bytes. by rewrite length_reverse, be_bytes_length. Qed.

Lemma encode_fields_length fields : length (encode_fields fields) = widths fields.
Proof.
  unfold encode_fields, widths. induction fields as [|[n x] fields IH]; [done|]. rewrite !fmap_cons. cbn [concat sum_list_with sum_list fst snd].
  rewrite length_app, le_bytes_length, IH. done.
Qed.

Lemma read_int_at n x before after : 0 <= x < 2 ^ (8 * Z.of_nat n) -> read_int n (before ++ le_bytes n x ++ after) (length before) = Some x.
Proof.
  intros Hx. unfold read_int. rewrite !length_app, le_bytes_length. rewrite (proj2 (Nat.leb_le _ _)) by lia.
  rewrite drop_app_length, take_app_length' by (symmetry; apply le_bytes_length). by rewrite from_le_bytes_le_bytes.
Qed.

(** Reading a field at the place the widths before it give. *)
Lemma read_field fields after i n x at_ :
  fields !! i = Some (n, x) -> at_ = widths (take i fields) -> Forall field_fits fields -> read_int n (encode_fields fields ++ after) at_ = Some x.
Proof.
  intros Hi -> Hf. pose proof (Forall_lookup_1 _ _ _ _ Hf Hi) as Hx. rewrite <- (take_drop_middle _ _ _ Hi) at 1. unfold encode_fields.
  rewrite fmap_app, fmap_cons, concat_app. cbn [concat fst snd]. rewrite <- !app_assoc, <- encode_fields_length. by apply read_int_at.
Qed.

(** [char::encode_utf16]. *)
Definition utf16 (c : Z) : list Z := if c <? 0x10000 then [c] else [0xd800 + (c - 0x10000) / 0x400; 0xdc00 + (c - 0x10000) mod 0x400].

(** A character: a code point that is not a surrogate. *)
Definition scalar (c : Z) : Prop := 0 <= c < 0x110000 /\ ~ 0xd800 <= c <= 0xdfff.

Definition name_bytes (name : text) : list Z := concat (le_bytes 2 <$> concat (utf16 <$> name)).

Lemma utf16_range c : scalar c -> Forall (fun u => 0 <= u < 65536) (utf16 c).
Proof.
  intros [Hc Hs]. unfold utf16. destruct (Z.ltb_spec c 0x10000).
  - apply Forall_singleton. lia.
  - apply Forall_cons. split; [|apply Forall_singleton]; Z.to_euclidean_division_equations; lia.
Qed.

Lemma utf16_length c : (length (utf16 c) <= 2)%nat.
Proof. unfold utf16. destruct (c <? 0x10000); simpl; lia. Qed.

Lemma utf16_lossy_cons c units : scalar c -> from_utf16_lossy (utf16 c ++ units) = c :: from_utf16_lossy units.
Proof.
  intros [Hc Hs]. unfold utf16. destruct (Z.ltb_spec c 0x10000).
  - cbn [app from_utf16_lossy]. unfold is_high_surrogate, is_low_surrogate.
    destruct (Z.leb_spec 0xd800 c), (Z.leb_spec c 0xdbff), (Z.leb_spec 0xdc00 c), (Z.leb_spec c 0xdfff); cbn [andb]; done || lia.
  - cbn [app from_utf16_lossy]. unfold is_high_surrogate, is_low_surrogate. pose proof (Z.div_mod (c - 0x10000) 0x400 ltac:(lia)). pose proof (Z.mod_pos_bound (c - 0x10000) 0x400 ltac:(lia)).
    set (q := (c - 0x10000) / 0x400) in *. set (m := (c - 0x10000) mod 0x400) in *. zdec. f_equal. lia.
Qed.

Lemma utf16_lossy_name name : Forall scalar name -> from_utf16_lossy (concat (utf16 <$> name)) = name.
Proof. induction 1 as [|c name Hc _ IH]; [done|]. rewrite fmap_cons. cbn [concat]. by rewrite utf16_lossy_cons, IH. Qed.

Lemma code_units_cons u rest : 0 <= u < 65536 -> code_units (le_bytes 2 u ++ rest) = u :: code_units rest.
Proof.
  intros Hu. pose proof (le_bytes_length 2 u) as Hl. pose proof (from_le_bytes_le_bytes 2 u) as Hr.
  destruct (le_bytes 2 u) as [|a [|b [|]]]; try done. cbn [app code_units]. by rewrite Hr.
Qed.

Lemma code_units_bytes units : Forall (fun u => 0 <= u < 65536) units -> code_units (concat (le_bytes 2 <$> units)) = units.
Proof. induction 1 as [|u units Hu _ IH]; [done|]. rewrite fmap_cons. cbn [concat]. by rewrite code_units_cons, IH. Qed.

Lemma name_units_range name : Forall scalar name -> Forall (fun u => 0 <= u < 65536) (concat (utf16 <$> name)).
Proof. induction 1 as [|c name Hc _ IH]; [constructor|]. rewrite fmap_cons. cbn [concat]. apply Forall_app. split; [by apply utf16_range|done]. Qed.

(** A name that is short enough and has no control characters is read back. *)
Lemma decode_name_bytes name :
  Forall scalar name -> no_control name -> (length name <= MAX_NAME_CHARS)%nat -> decode_name (name_bytes name) = name.
Proof.
  intros Hs Hc Hl. unfold decode_name, name_bytes. rewrite code_units_bytes by (by apply name_units_range). rewrite utf16_lossy_name by done.
  rewrite take_ge by done. rewrite <- (list_fmap_id name) at 2. apply list_fmap_ext. intros i c Hi. unfold no_control in Hc.
  by rewrite (Forall_lookup_1 _ _ _ _ Hc Hi).
Qed.

Lemma name_bytes_length name : exists k, length (name_bytes name) = (2 * k)%nat /\ (k <= 2 * length name)%nat.
Proof.
  exists (length (concat (utf16 <$> name))). split.
  - unfold name_bytes. induction (concat (utf16 <$> name)) as [|u units IH]; [done|]. rewrite fmap_cons. cbn [concat length]. rewrite length_app, le_bytes_length, IH. lia.
  - induction name as [|c name IH]; [done|]. rewrite fmap_cons. cbn [concat length]. rewrite length_app. pose proof (utf16_length c). lia.
Qed.

(** What stands in a record beside what the sensor keeps of it. *)
Record Surroundings := mkSurroundings {
  su_source_info : Z;
  su_security_id : Z;
  su_gap : list Z;
  su_padding : list Z
}.

Definition reference_width (r : UsnRecord) : nat := if (ur_version r).1 =? 2 then 8 else 16.
Definition header_size (r : UsnRecord) : Z := if (ur_version r).1 =? 2 then V2_HEADER else V3_HEADER.

Definition record_length (r : UsnRecord) (s : Surroundings) : Z := header_size r + len (su_gap s ++ name_bytes (ur_file_name r) ++ su_padding s).

Definition record_fields (r : UsnRecord) (s : Surroundings) : list (nat * Z) :=
  [(4%nat, record_length r s); (2%nat, (ur_version r).1); (2%nat, (ur_version r).2); (reference_width r, ur_file_reference r);
   (reference_width r, ur_parent_reference r); (8%nat, ur_usn r mod 2 ^ 64); (8%nat, ur_timestamp r mod 2 ^ 64); (4%nat, ur_reason r);
   (4%nat, su_source_info s); (4%nat, su_security_id s); (4%nat, ur_attributes r); (2%nat, len (name_bytes (ur_file_name r)));
   (2%nat, header_size r + len (su_gap s))].

Definition encode_record (r : UsnRecord) (s : Surroundings) : list Z :=
  encode_fields (record_fields r s) ++ su_gap s ++ name_bytes (ur_file_name r) ++ su_padding s.

Definition i64 (x : Z) : Prop := - 2 ^ 63 <= x < 2 ^ 63.

Record record_wf (r : UsnRecord) (s : Surroundings) : Prop := {
  rw_version : (ur_version r).1 = 2 \/ (ur_version r).1 = 3;
  rw_fields : Forall field_fits (record_fields r s);
  rw_signed : i64 (ur_usn r) /\ i64 (ur_timestamp r);
  rw_scalar : Forall scalar (ur_file_name r);
  rw_clean : no_control (ur_file_name r);
  rw_short : (length (ur_file_name r) <= MAX_NAME_CHARS)%nat
}.

Lemma to_i64_wrap x : i64 x -> to_i64 (x mod 2 ^ 64) = x.
Proof. unfold i64, to_i64. intros Hx. destruct (Z.ltb_spec (x mod 2 ^ 64) (2 ^ 63)); Z.to_euclidean_division_equations; lia. Qed.

Lemma encode_record_length r s : record_wf r s -> len (encode_record r s) = record_length r s /\ 60 <= record_length r s.
Proof.
  intros Hw. unfold encode_record, record_length. rewrite length_app, encode_fields_length. unfold record_fields, header_size, reference_width.
  destruct (rw_version _ _ Hw) as [-> | ->]; cbn; unfold V2_HEADER, V3_HEADER; lia.
Qed.

(** ** Reading back *)

Section read_back.
Context (r : UsnRecord) (s : Surroundings) (Hw : record_wf r s).

Let body : list Z := su_gap s ++ name_bytes (ur_file_name r) ++ su_padding s.

Lemma read_record_field i n x at_ :
  record_fields r s !! i = Some (n, x) -> at_ = widths (take i (record_fields r s)) -> read_int n (encode_record r s) at_ = Some x.
Proof. intros Hi Ha. eapply read_field; [exact Hi|exact Ha|by apply rw_fields]. Qed.

Lemma record_name :
  decode_name (take (length (name_bytes (ur_file_name r))) (drop (Z.to_nat (header_size r + len (su_gap s))) (encode_record r s))) = ur_file_name r.
Proof.
  assert (Z.to_nat (header_size r + len (su_gap s)) = length (encode_fields (record_fields r s) ++ su_gap s)) as ->.
  { rewrite length_app, encode_fields_length. unfold record_fields, header_size, reference_width.
    destruct (rw_version _ _ Hw) as [-> | ->]; cbn; unfold V2_HEADER, V3_HEADER; lia. }
  unfold encode_record. rewrite app_assoc, drop_app_length, take_app_length. apply decode_name_bytes; [apply (rw_scalar _ _ Hw)|apply (rw_clean _ _ Hw)|apply (rw_short _ _ Hw)].
Qed.

Lemma parse_tail_encoded rest :
  rest = (8 + 2 * reference_width r)%nat ->
  parse_tail (encode_record r s) (record_length r s) (header_size r) (ur_version r).1 (ur_version r).2 (ur_file_reference r) (ur_parent_reference r) rest = inr r.
Proof.
  intros ->. unfold parse_tail. destruct (encode_record_length r s Hw) as [Hl Hl60]. destruct (rw_signed _ _ Hw) as [Hu Ht].
  rewrite (read_record_field 5 8 (ur_usn r mod 2 ^ 64)) by (done || (cbn; lia)). cbn [ok_or try].
  rewrite (read_record_field 6 8 (ur_timestamp r mod 2 ^ 64)) by (done || (cbn; lia)). cbn [ok_or try].
  rewrite (read_record_field 7 4 (ur_reason r)) by (done || (cbn; lia)). cbn [ok_or try].
  rewrite (read_record_field 10 4 (ur_attributes r)) by (done || (cbn; lia)). cbn [ok_or try].
  rewrite (read_record_field 11 2 (len (name_bytes (ur_file_name r)))) by (done || (cbn; lia)). cbn [ok_or try].
  rewrite (read_record_field 12 2 (header_size r + len (su_gap s))) by (done || (cbn; lia)). cbn [ok_or try].
  destruct (name_bytes_length (ur_file_name r)) as (k & Hk & _).
  replace (len (name_bytes (ur_file_name r)) mod 2) with 0 by (rewrite Hk; Z.to_euclidean_division_equations; lia). cbn [Z.eqb negb].
  rewrite (proj2 (Z.ltb_ge (header_size r + len (su_gap s)) (header_size r))) by lia.
  rewrite (proj2 (Z.ltb_ge (record_length r s) _)) by (unfold record_length; rewrite !length_app; lia). cbn [orb].
  rewrite Nat2Z.id, record_name, !to_i64_wrap by done. by destruct r as [? ? ? ? ? ? ? []].
Qed.

Lemma parse_record_encoded : parse_record (encode_record r s) = inr r.
Proof.
  unfold parse_record. destruct (encode_record_length r s Hw) as [Hl Hl60].
  rewrite (read_record_field 0 4 (record_length r s)) by done. cbn [ok_or try].
  rewrite (read_record_field 1 2 (ur_version r).1) by done. cbn [ok_or try].
  rewrite (read_record_field 2 2 (ur_version r).2) by done. cbn [ok_or try].
  assert ((if (ur_version r).1 =? 2 then inr V2_HEADER else if (ur_version r).1 =? 3 then inr V3_HEADER else inl (UnsupportedVersion (ur_version r).1 (ur_version r).2))
          = (inr (header_size r) : RecordError + Z)) as ->.
  { unfold header_size. by destruct (rw_version _ _ Hw) as [-> | ->]. }
  cbn [try]. rewrite Hl. rewrite (proj2 (Z.ltb_ge (record_length r s) (header_size r))) by (unfold record_length; lia). rewrite Z.ltb_irrefl. cbn [orb].
  rewrite take_ge by lia. pose proof (rw_version _ _ Hw) as Hv. destruct ((ur_version r).1 =? 2) eqn:Ev.
  - rewrite (read_record_field 3 8 (ur_file_reference r)) by (cbn; unfold reference_width; by rewrite ?Ev). cbn [ok_or try].
    rewrite (read_record_field 4 8 (ur_parent_reference r)) by (cbn; unfold reference_width; by rewrite ?Ev). cbn [ok_or try].
    apply parse_tail_encoded. unfold reference_width. by rewrite Ev.
  - rewrite (read_record_field 3 16 (ur_file_reference r)) by (cbn; unfold reference_width; by rewrite ?Ev). cbn [ok_or try].
    rewrite (read_record_field 4 16 (ur_parent_reference r)) by (cbn; unfold reference_width; by rewrite ?Ev). cbn [ok_or try].
    apply parse_tail_encoded. unfold reference_width. by rewrite Ev.
Qed.
End read_back.

(** ** Responses *)

(** Some records as they stand in a buffer. *)
Definition encode_run (run : list (UsnRecord * Surroundings)) : list Z := concat ((fun e => encode_record e.1 e.2) <$> run).

Lemma read_int_app_l n bytes after at_ : (at_ + n <= length bytes)%nat -> read_int n (bytes ++ after) at_ = read_int n bytes at_.
Proof.
  intros Hl. unfold read_int. rewrite length_app, !(proj2 (Nat.leb_le _ _)) by lia. rewrite drop_app_le by lia. rewrite take_app_le; [done|]. rewrite length_drop. lia.
Qed.

(** The loop passes a whole record. *)
Lemma read_records_step fuel r s rest response :
  record_wf r s -> read_records (S fuel) (encode_record r s ++ rest) response = read_records fuel rest (push_record response r).
Proof.
  intros Hw. destruct (encode_record_length r s Hw) as [Hl Hl60].
  assert (exists b l, encode_record r s ++ rest = b :: l) as (b & l & Hb). { destruct (encode_record r s) as [|b l]; [cbn in Hl; lia|by exists b, (l ++ rest)]. }
  cbn [read_records]. rewrite Hb. rewrite <- Hb.
  rewrite read_int_app_l by lia. rewrite (read_record_field r s Hw 0 4 (record_length r s)) by done.
  rewrite length_app. rewrite (proj2 (Z.ltb_ge (record_length r s) V2_HEADER)) by (unfold V2_HEADER; lia).
  rewrite (proj2 (Z.ltb_ge _ (record_length r s))) by lia. cbn [orb].
  rewrite take_app_length' by lia. rewrite drop_app_length' by lia. by rewrite parse_record_encoded.
Qed.

Lemma read_records_run fuel run tail response :
  Forall (fun e => record_wf e.1 e.2) run -> (length run <= fuel)%nat ->
  read_records fuel (encode_run run ++ tail) response =
    read_records (fuel - length run) tail (mkReadResponse (rr_next_usn response) (rr_records response ++ run.*1) (rr_rejected response)).
Proof.
  unfold encode_run. intros Hw. revert fuel response. induction Hw as [|[r s] run Hr _ IH]; intros fuel response Hf.
  - rewrite Nat.sub_0_r. cbn. rewrite app_nil_r. by destruct response.
  - destruct fuel as [|fuel]; [cbn in Hf; lia|]. rewrite fmap_cons. cbn [concat fst snd]. rewrite <- app_assoc, read_records_step by done.
    rewrite IH by (cbn in Hf; lia). cbn [push_record rr_next_usn rr_records rr_rejected fmap list_fmap length]. by rewrite <- app_assoc.
Qed.

Lemma encode_run_length run : Forall (fun e => record_wf e.1 e.2) run -> (60 * length run <= length (encode_run run))%nat.
Proof.
  unfold encode_run. induction 1 as [|[r s] run Hr _ IH]; [done|]. rewrite fmap_cons. cbn [concat fst snd]. rewrite length_app.
  destruct (encode_record_length r s Hr). cbn [length]. lia.
Qed.

(** What the filesystem writes is read back: a response holding any run of records of both layouts, with whatever stands between the header and the name and after it, is read as the position to resume from and exactly those records, in order, none rejected; and when the buffer ends inside a further record, the complete ones are kept and the torn one is counted. *)
Theorem journal_roundtrip next run tail extra :
  i64 next -> Forall (fun e => record_wf e.1 e.2) run ->
  (tail = [] \/ tail <> [] /\ exists r s, record_wf r s /\ encode_record r s = tail ++ extra /\ extra <> []) ->
  parse_read_response (le_bytes 8 (next mod 2 ^ 64) ++ encode_run run ++ tail) =
    Some (mkReadResponse next run.*1 (if decide (tail = []) then 0 else 1)).
Proof.
  intros Hn Hw Ht. unfold parse_read_response. pose proof (Z.mod_pos_bound next (2 ^ 64) ltac:(lia)) as Hb.
  pose proof (read_int_at 8 (next mod 2 ^ 64) [] (encode_run run ++ tail) Hb) as Hnext. cbn [app length] in Hnext. rewrite Hnext.
  rewrite drop_app_length' by (symmetry; apply le_bytes_length). rewrite to_i64_wrap by done. rewrite !length_app, le_bytes_length.
  pose proof (encode_run_length run Hw) as Hl. rewrite read_records_run by (done || lia). cbn [rr_next_usn rr_records rr_rejected app].
  replace (8 + (length (encode_run run) + length tail) - length run)%nat with (S (7 + length (encode_run run) - length run + length tail))%nat by lia.
  destruct Ht as [->|[Hne (r & s & Hr & He & Hx)]]; [by rewrite decide_True|]. rewrite decide_False by done.
  destruct tail as [|b l]; [done|]. cbn [read_records]. set (tail := b :: l) in *. destruct (encode_record_length r s Hr) as [Hel _].
  pose proof (f_equal length He) as Hlen. rewrite length_app in Hlen. assert (0 < length extra)%nat as Hxl by (destruct extra; [done|cbn; lia]).
  destruct (decide (4 <= length tail)%nat) as [H4|H4].
  - rewrite <- (read_int_app_l 4 tail extra 0 ltac:(lia)), <- He, (read_record_field r s Hr 0 4 (record_length r s)) by done.
    rewrite (proj2 (Z.ltb_lt (len tail) (record_length r s))) by lia. by rewrite orb_true_r.
  - unfold read_int at 1. rewrite (proj2 (Nat.leb_gt _ _)) by lia. done.
Qed.

(** ** Any buffer *)

Definition is_byte (b : Z) : Prop := 0 <= b < 256.

Lemma read_int_range n bytes at_ x : Forall is_byte bytes -> read_int n bytes at_ = Some x -> 0 <= x < 2 ^ (8 * Z.of_nat n).
Proof.
  intros Hb. unfold read_int. destruct (Nat.leb_spec (at_ + n) (length bytes)); [|done]. intros [= <-]. unfold from_le_bytes.
  pose proof (from_be_bytes_range (reverse (take n (drop at_ bytes)))) as Hr. rewrite length_reverse, length_take, length_drop, Nat.min_l in Hr by lia.
  apply Hr. apply Forall_reverse. by apply Forall_take, Forall_drop.
Qed.

Lemma to_i64_range x : 0 <= x < 2 ^ 64 -> i64 (to_i64 x).
Proof. unfold i64, to_i64. intros Hx. destruct (Z.ltb_spec x (2 ^ 63)); lia. Qed.

Lemma decode_name_clean bytes : no_control (decode_name bytes) /\ (length (decode_name bytes) <= MAX_NAME_CHARS)%nat.
Proof.
  unfold decode_name. split.
  - apply Forall_fmap, Forall_true. intros c. cbn. by destruct (is_control c) eqn:E; [|rewrite E].
  - rewrite length_fmap, length_take. lia.
Qed.

(** What every record that is returned satisfies. *)
Record record_ok (r : UsnRecord) : Prop := {
  ro_version : (ur_version r).1 = 2 \/ (ur_version r).1 = 3;
  ro_usn : i64 (ur_usn r);
  ro_timestamp : i64 (ur_timestamp r);
  ro_references : 0 <= ur_file_reference r < 2 ^ 128 /\ 0 <= ur_parent_reference r < 2 ^ 128;
  ro_reason : 0 <= ur_reason r < 2 ^ 32;
  ro_attributes : 0 <= ur_attributes r < 2 ^ 32;
  ro_clean : no_control (ur_file_name r);
  ro_short : (length (ur_file_name r) <= MAX_NAME_CHARS)%nat
}.

Lemma ok_or_inr {A : Type} e (o : option A) a : ok_or e o = inr a -> o = Some a.
Proof. destruct o; cbn; congruence. Qed.

Ltac results := repeat match goal with
  | H : try ?x _ = inr _ |- _ => let E := fresh "E" in destruct x eqn:E; cbn [try] in H; [discriminate H|]
  | H : ok_or _ _ = inr _ |- _ => apply ok_or_inr in H
  end.

Lemma parse_tail_ok record declared header major minor f p rest r :
  Forall is_byte record -> major = 2 \/ major = 3 -> 0 <= f < 2 ^ 128 /\ 0 <= p < 2 ^ 128 ->
  parse_tail record declared header major minor f p rest = inr r -> record_ok r.
Proof.
  intros Hb Hv Hr E. unfold parse_tail in E. results. destruct (negb _); [done|]. destruct (_ || _); [done|]. injection E as <-.
  repeat match goal with H : read_int _ _ _ = Some _ |- _ => apply read_int_range in H; [|done] end.
  destruct (decode_name_clean (take (Z.to_nat z3) (drop (Z.to_nat z4) record))). split; cbn; try done; by apply to_i64_range.
Qed.

Lemma parse_record_ok bytes r : Forall is_byte bytes -> parse_record bytes = inr r -> record_ok r.
Proof.
  intros Hb E. unfold parse_record in E. results. destruct (_ || _); [done|].
  assert (z0 = 2 \/ z0 = 3) as Hv by (destruct (Z.eqb_spec z0 2); [by left|]; destruct (Z.eqb_spec z0 3); [by right|done]).
  assert (Forall is_byte (take (Z.to_nat z) bytes)) as Ht by by apply Forall_take.
  destruct (z0 =? 2); results; repeat match goal with H : read_int _ (take _ _) _ = Some _ |- _ => apply read_int_range in H; [|done] end;
    (eapply parse_tail_ok; [exact Ht|exact Hv| |exact E]); split; lia.
Qed.

(** The loop ends, and each turn but the last passes at least a header. *)
Lemma read_records_bounded fuel remaining r :
  (length remaining <= fuel)%nat -> Forall is_byte remaining -> Forall record_ok (rr_records r) ->
  exists r', read_records fuel remaining r = Some r' /\ rr_next_usn r' = rr_next_usn r /\ Forall record_ok (rr_records r') /\
    (len (rr_records r') - len (rr_records r)) + (rr_rejected r' - rr_rejected r) <= len remaining / 60 + (if decide (remaining = []) then 0 else 1) /\
    rr_rejected r <= rr_rejected r'.
Proof.
  revert remaining r. induction fuel as [|fuel IH]; intros remaining r Hf Hb Hr.
  { destruct remaining; [|cbn in Hf; lia]. exists r. rewrite decide_True by done. change (len [] / 60) with 0. split_and!; try done; lia. }
  destruct remaining as [|b l]; [exists r; rewrite decide_True by done; change (len [] / 60) with 0; split_and!; try done; lia|].
  rewrite decide_False by done. cbn [read_records]. set (remaining := b :: l) in *. assert (0 <= len remaining / 60) by (apply Z.div_pos; lia).
  assert (exists r', Some (reject r) = Some r' /\ rr_next_usn r' = rr_next_usn r /\ Forall record_ok (rr_records r') /\
    (len (rr_records r') - len (rr_records r)) + (rr_rejected r' - rr_rejected r) <= len remaining / 60 + 1 /\ rr_rejected r <= rr_rejected r') as Hstop.
  { exists (reject r). split_and!; try done; cbn [reject rr_records rr_rejected]; lia. }
  destruct (read_int 4 remaining 0) as [declared|]; [|exact Hstop]. destruct ((declared <? V2_HEADER) || (len remaining <? declared)) eqn:Ed; [exact Hstop|].
  unfold V2_HEADER in Ed. apply orb_false_iff in Ed as [E1 E2]. set (r1 := match parse_record _ with inl _ => _ | inr _ => _ end).
  assert (Forall record_ok (rr_records r1) /\ rr_next_usn r1 = rr_next_usn r /\ len (rr_records r1) + rr_rejected r1 = len (rr_records r) + rr_rejected r + 1 /\
          rr_rejected r <= rr_rejected r1) as (R1 & R2 & R3 & R4).
  { unfold r1. destruct (parse_record _) as [|x] eqn:Ep; cbn; [split_and!; [done|done|lia|lia]|]. rewrite length_app. cbn. split_and!; [|done|lia|lia].
    apply Forall_app. split; [done|]. constructor; [|constructor]. eapply parse_record_ok; [|exact Ep]. by apply Forall_take. }
  assert (length (drop (Z.to_nat declared) remaining) <= fuel)%nat as Hd by (rewrite length_drop; lia).
  destruct (IH (drop (Z.to_nat declared) remaining) r1 Hd) as (r' & H1 & H2 & H3 & H4 & H5); [by apply Forall_drop|done|].
  exists r'. split_and!; [done|congruence|done| |lia]. rewrite length_drop in H4. 
  assert ((len remaining - declared) / 60 <= len remaining / 60 - 1).
  { replace (len remaining / 60 - 1) with ((len remaining - 60) / 60) by (Z.to_euclidean_division_equations; lia). apply Z.div_le_mono; lia. }
  replace (Z.of_nat (length remaining - Z.to_nat declared)) with (len remaining - declared) in H4 by lia. case_decide; lia.
Qed.

(** Any buffer is read: whatever the bytes, the reading of a response ends with a result; the records it returns and those it rejects together are at most one more than the headers the buffer has room for, so a bad length costs one rejection and not a run of them; and every record returned has fields within their widths and a name that is short and free of control characters. *)
Theorem response_bounded buffer :
  Forall is_byte buffer ->
  exists r, parse_read_response buffer = Some r /\ i64 (rr_next_usn r) /\ Forall record_ok (rr_records r) /\
    0 <= rr_rejected r /\ len (rr_records r) + rr_rejected r <= Z.max 0 (len buffer - 8) / 60 + 1.
Proof.
  intros Hb. unfold parse_read_response. destruct (read_int 8 buffer 0) as [next|] eqn:E.
  - assert (8 <= length buffer)%nat as Hl by (unfold read_int in E; destruct (Nat.leb_spec (0 + 8) (length buffer)); [lia|done]).
    apply read_int_range in E; [|done]. destruct (read_records_bounded (length buffer) (drop NEXT_USN_PREFIX buffer) (mkReadResponse (to_i64 next) [] 0)) as (r & H1 & H2 & H3 & H4 & H5).
    { rewrite length_drop. lia. } { by apply Forall_drop. } { constructor. }
    exists r. split_and!; [done|rewrite H2; by apply to_i64_range|done|done|]. rewrite length_drop in H4. unfold NEXT_USN_PREFIX in H4. cbn [rr_records rr_rejected length] in H4.
    replace (Z.of_nat (length buffer - 8)) with (Z.max 0 (len buffer - 8)) in H4 by lia. case_decide; lia.
  - exists ReadResponse_default. split; [done|]. split; [unfold i64; cbn; lia|]. split; [constructor|]. cbn [ReadResponse_default rr_records rr_rejected length].
    pose proof (Z.div_pos (Z.max 0 (len buffer - 8)) 60 ltac:(lia) ltac:(lia)). lia.
Qed.

(** ** Catching up *)

(** Catching up fails toward the rescan: the journal is resumed exactly when the stored position belongs to this journal and lies between the oldest position that can be read and the next to be written, and then from that position itself; in every other case the whole is compared, with the reason that applies. *)
Theorem catch_up_exact stored current :
  (forall usn, plan_catch_up stored current = Resume usn <->
     stored = Some (jd_journal_id current, usn) /\ jd_lowest_valid_usn current <= usn /\ jd_first_usn current <= usn /\ usn <= jd_next_usn current) /\
  (plan_catch_up stored current = FullRescan NoStoredPosition <-> stored = None) /\
  (plan_catch_up stored current = FullRescan JournalReplaced <-> exists id usn, stored = Some (id, usn) /\ id <> jd_journal_id current) /\
  (plan_catch_up stored current = FullRescan PositionFromTheFuture <-> exists usn, stored = Some (jd_journal_id current, usn) /\ jd_next_usn current < usn) /\
  (plan_catch_up stored current = FullRescan RecordsAgedOut <->
     exists usn, stored = Some (jd_journal_id current, usn) /\ usn <= jd_next_usn current /\ (usn < jd_lowest_valid_usn current \/ usn < jd_first_usn current)).
Proof.
  destruct stored as [[id usn]|]; cbn [plan_catch_up]; [|split_and!; naive_solver].
  destruct (Z.eqb_spec id (jd_journal_id current)) as [->|Hid]; cbn [negb]; [|split_and!; naive_solver].
  destruct (Z.ltb_spec (jd_next_usn current) usn); [split_and!; split; naive_solver lia|].
  destruct (Z.ltb_spec usn (jd_lowest_valid_usn current)); cbn [orb]; [split_and!; split; naive_solver lia|].
  destruct (Z.ltb_spec usn (jd_first_usn current)); split_and!; split; naive_solver lia.
Qed.

(** ** Which records matter *)

Lemma land_lor_zero x a b : Z.land x (Z.lor a b) = 0 <-> Z.land x a = 0 /\ Z.land x b = 0.
Proof. by rewrite Z.land_lor_distr_r, Z.lor_eq_0_iff. Qed.

(** A record is silent exactly when none of the reasons for content, names, existence or attributes is set; otherwise a deletion wins over everything, a creation over all but a deletion, and a change of content over one of attributes. *)
Theorem change_exact r :
  let has mask := Z.land (ur_reason r) mask <> 0 in
  (change r = None <->
     Z.land (ur_reason r) (flags [USN_REASON_FILE_DELETE; USN_REASON_FILE_CREATE; USN_REASON_RENAME_OLD_NAME; USN_REASON_RENAME_NEW_NAME; CONTENT; ATTRIBUTES]) = 0) /\
  (change r = Some Deleted <-> has USN_REASON_FILE_DELETE) /\
  (change r = Some Created <-> has USN_REASON_FILE_CREATE /\ ~ has USN_REASON_FILE_DELETE) /\
  (change r = Some Modified -> has CONTENT) /\ (change r = Some AttributesChanged -> has ATTRIBUTES /\ ~ has CONTENT).
Proof.
  unfold change, flags. cbn [foldr]. rewrite !land_lor_zero, !Z.land_0_r.
  destruct (Z.eqb_spec (Z.land (ur_reason r) USN_REASON_FILE_DELETE) 0); cbn [negb]; [|split_and!; naive_solver].
  destruct (Z.eqb_spec (Z.land (ur_reason r) USN_REASON_FILE_CREATE) 0); cbn [negb]; [|split_and!; naive_solver].
  destruct (Z.eqb_spec (Z.land (ur_reason r) (Z.lor USN_REASON_RENAME_OLD_NAME (Z.lor USN_REASON_RENAME_NEW_NAME 0))) 0) as [Hr|Hr]; cbn [negb].
  - rewrite !land_lor_zero in Hr. destruct (Z.eqb_spec (Z.land (ur_reason r) CONTENT) 0); cbn [negb]; [|split_and!; naive_solver].
    destruct (Z.eqb_spec (Z.land (ur_reason r) ATTRIBUTES) 0); cbn [negb]; split_and!; naive_solver.
  - rewrite !land_lor_zero, Z.land_0_r in Hr. split_and!; naive_solver.
Qed.

(** ** The hypotheses can hold *)

Definition small_record : UsnRecord := mkUsnRecord 42 0x12345678 0x87654321 (-5) 0x80000002 32 (of_string "passwd") (2, 0).
Definition wide_record : UsnRecord := mkUsnRecord 43 (2 ^ 100) 7 0 0x200 32 [0x1f600; 97] (3, 0).
Definition plain_surroundings : Surroundings := mkSurroundings 0 0 [] [0; 0; 0; 0].

Lemma small_records_wf : Forall (fun e => record_wf e.1 e.2) [(small_record, plain_surroundings); (wide_record, plain_surroundings)].
Proof.
  repeat constructor; cbn [fst snd]; try (vm_compute; by first [left; reflexivity|right; reflexivity]);
    first [vm_compute; discriminate|vm_compute; reflexivity|vm_compute; intros [? ?]; congruence|vm_compute; lia].
Qed.

Definition small_buffer : list Z := le_bytes 8 44 ++ encode_run [(small_record, plain_surroundings); (wide_record, plain_surroundings)].

Lemma journal_roundtrip_witness : parse_read_response (small_buffer ++ take 10 (encode_record small_record plain_surroundings)) = Some (mkReadResponse 44 [small_record; wide_record] 1).
Proof.
  unfold small_buffer. rewrite <- app_assoc.
  apply (journal_roundtrip 44 [(small_record, plain_surroundings); (wide_record, plain_surroundings)] (take 10 (encode_record small_record plain_surroundings))
    (drop 10 (encode_record small_record plain_surroundings))); [split; [discriminate|reflexivity]|exact small_records_wf|].
  right. split; [discriminate|]. exists small_record, plain_surroundings. pose proof small_records_wf as H. apply Forall_cons in H as [H _].
  split; [exact H|]. split; [symmetry; apply take_drop|discriminate].
Defined.

Lemma response_bounded_witness : exists r, parse_read_response (repeat 10 30) = Some r /\ len (rr_records r) + rr_rejected r <= 1.
Proof.
  destruct (response_bounded (repeat 10 30)) as (r & H1 & _ & _ & _ & H2); [apply Forall_forall; intros x Hx; apply list_elem_of_In, repeat_spec in Hx; subst x; unfold is_byte; lia|].
  exists r. split; [exact H1|exact H2].
Defined.
