(* ===== verification/Evtx.v ===== *)
(** Windows logon events: [hids/src/evtx.rs], from the XML rendering of an event to an authentication
    event.

    [debug] is the [Debug] form of a string. Positions in a text are counted in characters where the
    source counts bytes; they are only compared and used to cut. *)

From stdpp Require Import pretty.
From S2P Require Import Prelude Text Net Event AuthLog.

Definition EVENT_ID_LOGON_SUCCESS : Z := 4624.
Definition EVENT_ID_LOGON_FAILURE : Z := 4625.
Definition EVENT_ID_EXPLICIT_CREDENTIALS : Z := 4648.

Definition MAX_FIELD_CHARS : nat := 256.
Definition MAX_EVENT_BYTES : Z := 64 * 1024.

Inductive LogonType :=
| LtInteractive | LtNetwork | LtBatch | LtService | LtUnlock | LtNetworkCleartext | LtNewCredentials | LtRemoteInteractive
| LtCachedInteractive | LtOther (code : Z).

Definition from_code (code : Z) : LogonType :=
  if code =? 2 then LtInteractive
  else if code =? 3 then LtNetwork
  else if code =? 4 then LtBatch
  else if code =? 5 then LtService
  else if code =? 7 then LtUnlock
  else if code =? 8 then LtNetworkCleartext
  else if code =? 9 then LtNewCredentials
  else if code =? 10 then LtRemoteInteractive
  else if code =? 11 then LtCachedInteractive
  else LtOther code.

Definition logon_as_str (t : LogonType) : text :=
  of_string match t with
  | LtInteractive => "interactive"
  | LtNetwork => "network"
  | LtBatch => "batch"
  | LtService => "service"
  | LtUnlock => "unlock"
  | LtNetworkCleartext => "network-cleartext"
  | LtNewCredentials => "new-credentials"
  | LtRemoteInteractive => "remote-interactive"
  | LtCachedInteractive => "cached-interactive"
  | LtOther _ => "other"
  end.

Definition is_remote (t : LogonType) : bool :=
  match t with LtNetwork | LtNetworkCleartext | LtRemoteInteractive => true | _ => false end.

Record ParsedLogon := mkParsedLogon {
  lg_event : AuthEvent;
  lg_logon_type : option LogonType;
  lg_event_id : Z
}.

(** ** Values *)

(** [sanitise]: [room] characters may still be kept. *)
Fixpoint sanitise_chars (room : nat) (t : text) : text * bool :=
  match t with
  | [] => ([], false)
  | c :: t' =>
      match room with
      | O => ([], true)
      | S room =>
          let '(out, changed) := sanitise_chars room t' in
          if is_control c then (46 :: out, true) else (c :: out, changed)
      end
  end.

(** [str::replace]: [skip] characters belong to an occurrence already replaced. *)
Fixpoint replace_from (skip : nat) (pattern by_ t : text) : text :=
  match t with
  | [] => []
  | c :: t' =>
      match skip with
      | S skip => replace_from skip pattern by_ t'
      | O => if starts_with t pattern then by_ ++ replace_from (length pattern - 1) pattern by_ t' else c :: replace_from 0 pattern by_ t'
      end
  end.

Definition str_replace (pattern by_ t : text) : text := replace_from 0 pattern by_ t.

Definition decode_entities (t : text) : text :=
  str_replace (of_string "&amp;") (of_string "&")
    (str_replace (of_string "&apos;") (of_string "'")
       (str_replace (of_string "&quot;") [34]
          (str_replace (of_string "&gt;") (of_string ">")
             (str_replace (of_string "&lt;") (of_string "<") t)))).

Definition opening (name : text) : text := of_string "<Data Name=" ++ [34] ++ name ++ [34] ++ of_string ">".
Definition closing : text := of_string "</Data>".

(** [data_fields]: each turn passes an opening, so the length of the text is fuel enough. *)
Fixpoint data_fields_from (fuel : nat) (rest name : text) : option (list text) :=
  match split_once_text (opening name) rest with
  | None => Some []
  | Some (_, after) =>
      match fuel with
      | O => None
      | S fuel =>
          match split_once_text closing after with
          | Some (value, tail) => values ← data_fields_from fuel (closing ++ tail) name; Some (value :: values)
          | None => Some []
          end
      end
  end.

Definition data_fields (xml name : text) : option (list text) := data_fields_from (length xml) xml name.

(** [str::find]. *)
Definition find_text (pattern t : text) : option nat := (fun p => length p.1) <$> split_once_text pattern t.

Definition event_id (xml : text) : option Z :=
  start ← find_text (of_string "<EventID") xml;
  let after := drop start xml in
  open ← S <$> find_text (of_string ">") after;
  close ← find_text (of_string "</EventID>") after;
  if (close <=? open)%nat then None else parse_unsigned U32_MAX (trim (take (close - open) (drop open after))).

(** [field]: the value, and what it adds to the suspicious notes. *)
Definition field (xml name : text) : option text * list text :=
  match unwrap_or [] (data_fields xml name) with
  | [] => (None, [])
  | [raw] =>
      let decoded := decode_entities raw in
      let markup :=
        if text_contains decoded (of_string "<") || text_contains decoded (of_string ">")
        then [of_string "field " ++ name ++ of_string " contains markup after decoding"] else [] in
      let '(clean, changed) := sanitise_chars MAX_FIELD_CHARS decoded in
      let altered := if (changed : bool) then [of_string "field " ++ name ++ of_string " was truncated or held control characters"] else [] in
      (if bool_decide (clean = []) then None else Some clean, markup ++ altered)
  | occurrences =>
      (None, [of_string "field " ++ name ++ of_string " appears " ++ of_string (pretty (len occurrences)) ++
              of_string " times; refusing it rather than choosing one"])
  end.

Definition meaningful (value : option text) : option text :=
  t ← value; if bool_decide (t = of_string "-") || bool_decide (t = []) then None else Some t.

(** ** Events *)

Definition logon_outcome (id : Z) : option AuthOutcome :=
  if (id =? EVENT_ID_LOGON_SUCCESS) || (id =? EVENT_ID_EXPLICIT_CREDENTIALS) then Some Success
  else if id =? EVENT_ID_LOGON_FAILURE then Some Failure
  else None.

(** The message, from the fields. *)
Definition logon_message (outcome : AuthOutcome) (id : Z) (logon_type : option LogonType) (user domain workstation status : option text) : text :=
  (match outcome with Success => of_string "successful" | Failure => of_string "failed" end) ++ of_string " logon (event " ++ show_digits 10 10 id [] ++ of_string ")" ++
  (match logon_type with Some kind => of_string ", type " ++ logon_as_str kind | None => [] end) ++
  (match user with
   | Some account => of_string ", account " ++ (match domain with Some d => d ++ [92] ++ account | None => account end)
   | None => []
   end) ++
  (match workstation with Some host => of_string ", from workstation " ++ host | None => [] end) ++
  (match status with Some s => of_string ", status " ++ s | None => [] end).

Section events.
Context (debug : text -> text).

(** The source address, and the note when the field is not one. *)
Definition read_address (raw : option text) : option IpAddr * list text :=
  match raw with
  | None => (None, [])
  | Some t =>
      match parse_ip t with
      | Some address => (Some address, [])
      | None =>
          (None,
           if bool_decide (t ∈ [of_string "LOCAL"; of_string "127.0.0.1"; of_string "::1"]) then []
           else [of_string "IpAddress " ++ debug (take 48 t) ++ of_string " is not an address"])
      end
  end.

Definition parse_logon_event (xml : text) : option ParsedLogon :=
  if MAX_EVENT_BYTES <? text_len xml then None
  else
    id ← event_id xml;
    outcome ← logon_outcome id;
    let '(user, n1) := field xml (of_string "TargetUserName") in
    let '(domain, n2) := field xml (of_string "TargetDomainName") in
    let '(workstation, n3) := field xml (of_string "WorkstationName") in
    let '(code, n4) := field xml (of_string "LogonType") in
    let logon_type := from_code <$> (meaningful code ≫= parse_unsigned U32_MAX) in
    let '(address, n5) := field xml (of_string "IpAddress") in
    let '(source_address, n6) := read_address (meaningful address) in
    let '(port, n7) := field xml (of_string "IpPort") in
    let source_port := p ← meaningful port ≫= parse_unsigned U16_MAX; if p =? 0 then None else Some p in
    let '(status, n8) := if id =? EVENT_ID_LOGON_FAILURE then field xml (of_string "Status") else (None, []) in
    let '(process, n9) := field xml (of_string "LogonProcessName") in
    let user := meaningful user in
    Some (mkParsedLogon
            (mkAuthEvent outcome user (or_else (meaningful process) (Some (of_string "Security"))) source_address source_port
               (logon_message outcome id logon_type user (meaningful domain) (meaningful workstation) (meaningful status))
               (of_string "windows-security") (n1 ++ n2 ++ n3 ++ n4 ++ n5 ++ n6 ++ n7 ++ n8 ++ n9))
            logon_type id).
End events.

(** ** Searching *)

Lemma split_once_text_eq pattern t :
  split_once_text pattern t =
    if starts_with t pattern then Some ([], drop (length pattern) t)
    else match t with [] => None | x :: t' => '(a, b) ← split_once_text pattern t'; Some (x :: a, b) end.
Proof. by destruct t. Qed.

Lemma starts_with_app pattern rest : starts_with (pattern ++ rest) pattern = true.
Proof. apply starts_with_spec. eauto. Qed.

Lemma split_once_here pattern rest : split_once_text pattern (pattern ++ rest) = Some ([], rest).
Proof. by rewrite split_once_text_eq, starts_with_app, drop_app_length. Qed.

Lemma split_once_found pattern t a b : split_once_text pattern t = Some (a, b) -> t = a ++ pattern ++ b.
Proof.
  revert a. induction t as [|x t IH]; intros a; rewrite split_once_text_eq; destruct (starts_with _ pattern) eqn:E.
  - apply starts_with_spec in E as [rest Hr]. symmetry in Hr. apply app_eq_nil in Hr as [-> ->]. by intros [= <- <-].
  - done.
  - apply starts_with_spec in E as [rest Hr]. intros [= <- <-]. by rewrite Hr, drop_app_length.
  - destruct (split_once_text pattern t) as [[a' b']|]; [|done]. intros [= <- <-]. by rewrite (IH a') at 1.
Qed.

(** A text in which the pattern starts nowhere is passed over. *)
Lemma split_once_skip pattern s rest :
  (forall u v, s = u ++ v -> v <> [] -> starts_with (v ++ rest) pattern = false) ->
  split_once_text pattern (s ++ rest) = (fun p => (s ++ p.1, p.2)) <$> split_once_text pattern rest.
Proof.
  induction s as [|c s IH]; intros Hs; [cbn [app]; by destruct (split_once_text pattern rest) as [[]|]|].
  rewrite split_once_text_eq, (Hs [] (c :: s)) by done. cbn [app].
  rewrite IH by (intros u v -> Hv; by apply (Hs (c :: u) v)). by destruct (split_once_text pattern rest) as [[]|].
Qed.

(** In particular one without the first character of the pattern. *)
Lemma split_once_plain c pattern s rest :
  Forall (fun x => x <> c) s -> split_once_text (c :: pattern) (s ++ rest) = (fun p => (s ++ p.1, p.2)) <$> split_once_text (c :: pattern) rest.
Proof.
  intros Hs. apply split_once_skip. intros u v -> Hv. apply Forall_app in Hs as [_ Hs]. destruct v as [|x v]; [done|].
  apply Forall_cons in Hs as [Hx _]. cbn. by rewrite (proj2 (Z.eqb_neq x c)).
Qed.

Lemma split_once_absent c pattern s : Forall (fun x => x <> c) s -> split_once_text (c :: pattern) s = None.
Proof. intros Hs. pose proof (split_once_plain c pattern s [] Hs) as H. by rewrite app_nil_r in H. Qed.

Lemma data_fields_total xml name : exists values, data_fields xml name = Some values.
Proof.
  unfold data_fields. assert (forall fuel rest, (length rest <= fuel)%nat -> exists values, data_fields_from fuel rest name = Some values) as H; [|by apply H].
  induction fuel as [|fuel IH]; intros rest Hl; cbn [data_fields_from]; destruct (split_once_text (opening name) rest) as [[a after]|] eqn:E1; eauto.
  - apply split_once_found in E1 as ->. rewrite !length_app in Hl. cbn in Hl. lia.
  - destruct (split_once_text closing after) as [[value tail]|] eqn:E2; [|eauto].
    apply split_once_found in E1 as ->. apply split_once_found in E2 as ->. rewrite !length_app in Hl. cbn [length opening closing] in Hl.
    destruct (IH (closing ++ tail)) as [values ->]; [|cbn; eauto]. rewrite length_app. cbn in *. lia.
Qed.

(** ** Escaping *)

(** How a renderer writes a character. *)
Definition escape_char (c : Z) : text :=
  if c =? 38 then of_string "&amp;"
  else if c =? 60 then of_string "&lt;"
  else if c =? 62 then of_string "&gt;"
  else if c =? 34 then of_string "&quot;"
  else if c =? 39 then of_string "&apos;"
  else [c].

Definition escape (t : text) : text := concat (escape_char <$> t).

(** A text in which the characters of [back] are already decoded. *)
Definition part_escaped (back : list Z) (t : text) : text := concat ((fun c => if bool_decide (c ∈ back) then [c] else escape_char c) <$> t).

Lemma replace_here pattern by_ rest c : replace_from 0 (c :: pattern) by_ ((c :: pattern) ++ rest) = by_ ++ replace_from 0 (c :: pattern) by_ rest.
Proof.
  pose proof (starts_with_app (c :: pattern) rest) as Hs. cbn [app] in *. cbn [replace_from]. rewrite Hs. cbn [length]. rewrite Nat.sub_succ, Nat.sub_0_r. f_equal.
  assert (forall q p, replace_from (length q) p by_ (q ++ rest) = replace_from 0 p by_ rest) as H; [|apply H].
  intros q p. induction q as [|x q IH]; cbn [app length replace_from]; [done|apply IH].
Qed.

Lemma replace_from_other pattern by_ x rest c : x <> c -> replace_from 0 (c :: pattern) by_ (x :: rest) = x :: replace_from 0 (c :: pattern) by_ rest.
Proof. intros Hx. cbn [replace_from starts_with]. by rewrite (proj2 (Z.eqb_neq x c)). Qed.

Lemma escape_char_plain c : c ∉ [38; 60; 62; 34; 39] -> escape_char c = [c].
Proof. intros Hc. unfold escape_char. repeat (rewrite (proj2 (Z.eqb_neq c _)) by (intros ->; apply Hc; set_solver)). done. Qed.

(** Decoding one entity decodes one character more. *)
Lemma decode_step d back t :
  d ∈ [38; 60; 62; 34; 39] -> d ∉ back -> 38 ∉ back -> (d = 38 -> forall c, c ∈ [60; 62; 34; 39] -> c ∈ back) ->
  str_replace (escape_char d) [d] (part_escaped back t) = part_escaped (d :: back) t.
Proof.
  intros Hd Hdb Hb Hlast. unfold str_replace, part_escaped. assert (exists w, escape_char d = 38 :: w) as [w Hw].
  { rewrite !elem_of_cons in Hd. destruct Hd as [->|[->|[->|[->|[->|Hd]]]]]; [eexists; reflexivity..|by apply elem_of_nil in Hd]. }
  rewrite Hw. induction t as [|c t IH]; [done|]. rewrite !fmap_cons. cbn [concat]. destruct (decide (c = d)) as [->|Hc].
  - rewrite bool_decide_eq_false_2, bool_decide_eq_true_2, Hw by (done || left). by rewrite replace_here, IH.
  - destruct (decide (c ∈ back)) as [Hin|Hin].
    + rewrite !bool_decide_eq_true_2 by (done || by right). cbn [app]. rewrite replace_from_other by congruence. by rewrite IH.
    + rewrite !bool_decide_eq_false_2 by (set_solver). destruct (decide (c ∈ [38; 60; 62; 34; 39])) as [Hs|Hs].
      * rewrite <- IH, <- Hw. rewrite !elem_of_cons in Hd, Hs.
        destruct Hd as [->|[->|[->|[->|[->|Hd]]]]]; [| | | | |by apply elem_of_nil in Hd];
          destruct Hs as [->|[->|[->|[->|[->|Hs]]]]]; try done; try (by apply elem_of_nil in Hs);
          destruct Hin; apply (Hlast eq_refl); set_solver.
      * rewrite escape_char_plain by done. cbn [app]. rewrite replace_from_other by (intros ->; set_solver). by rewrite IH.
Qed.

Lemma decode_escape t : decode_entities (escape t) = t.
Proof.
  change (decode_entities (escape t)) with (str_replace (escape_char 38) [38] (str_replace (escape_char 39) [39] (str_replace (escape_char 34) [34]
    (str_replace (escape_char 62) [62] (str_replace (escape_char 60) [60] (part_escaped [] t)))))).
  rewrite (decode_step 60 [] t) by set_solver. rewrite (decode_step 62 [60] t) by set_solver. rewrite (decode_step 34 [62; 60] t) by set_solver.
  rewrite (decode_step 39 [34; 62; 60] t) by set_solver. rewrite (decode_step 38 [39; 34; 62; 60] t) by set_solver.
  unfold part_escaped. induction t as [|c t IH]; [done|]. rewrite fmap_cons. cbn [concat]. rewrite IH. case_bool_decide as Hc; [done|].
  rewrite escape_char_plain; [done|]. set_solver.
Qed.

(** An escaped text has no markup. *)
Lemma escape_no_markup t : Forall (fun c => c <> 60) (escape t) /\ Forall (fun c => c <> 34) (escape t).
Proof.
  unfold escape. induction t as [|c t [IH1 IH2]]; [split; constructor|]. rewrite fmap_cons. cbn [concat]. rewrite !Forall_app.
  assert (Forall (fun x => x <> 60) (escape_char c) /\ Forall (fun x => x <> 34) (escape_char c)) as [H1 H2]; [|done].
  destruct (decide (c ∈ [38; 60; 62; 34; 39])) as [Hs|Hs].
  - rewrite !elem_of_cons in Hs. destruct Hs as [->|[->|[->|[->|[->|Hs]]]]]; [..|by apply elem_of_nil in Hs]; vm_compute; split; repeat constructor; discriminate.
  - rewrite escape_char_plain by done. split; constructor; try constructor; set_solver.
Qed.

(** ** A rendered event *)

Definition render_field (f : text * text) : text := opening f.1 ++ escape f.2 ++ closing.

Definition header (id : Z) : text :=
  of_string "<Event>" ++ of_string "<System>" ++ of_string "<EventID>" ++ show_digits 10 10 id [] ++ of_string "</EventID>" ++ of_string "</System>" ++
  of_string "<EventData>".

Definition footer : text := of_string "</EventData>" ++ of_string "</Event>".

Definition render_event (id : Z) (fields : list (text * text)) : text := header id ++ concat (render_field <$> fields) ++ footer.

(** A name of a field: nothing in it ends the attribute or the tag. *)
Definition plain_name (n : text) : Prop := Forall (fun c => c <> 34) n /\ Forall (fun c => c <> 60) n.

Definition values (fields : list (text * text)) (name : text) : list text := omap (fun f => if bool_decide (f.1 = name) then Some f.2 else None) fields.

(** A text that the search for the fields of one name passes over. *)
Definition passes (name pre : text) : Prop :=
  forall rest, snd <$> split_once_text (opening name) (pre ++ rest) = snd <$> split_once_text (opening name) rest.

Lemma passes_app name p q : passes name p -> passes name q -> passes name (p ++ q).
Proof. intros Hp Hq rest. by rewrite <- app_assoc, Hp, Hq. Qed.

Lemma passes_plain name p : Forall (fun c => c <> 60) p -> passes name p.
Proof. intros Hp rest. change (opening name) with (60 :: tail (opening name)). rewrite split_once_plain by done. by destruct (split_once_text _ rest) as [[]|]. Qed.

(** A tag that is not an opening of that name. *)
Lemma passes_tag name w : Forall (fun c => c <> 60) w -> (forall rest, starts_with (60 :: w ++ rest) (opening name) = false) -> passes name (60 :: w).
Proof.
  intros Hw Hs rest. cbn [app]. rewrite split_once_text_eq, Hs. rewrite <- (passes_plain name w Hw rest).
  by destruct (split_once_text _ (w ++ rest)) as [[]|].
Qed.

Lemma starts_with_name n name r p :
  Forall (fun c => c <> 34) n -> Forall (fun c => c <> 34) name -> starts_with (n ++ 34 :: r) (name ++ 34 :: p) = true -> n = name.
Proof.
  intros Hn. revert name. induction Hn as [|c n Hc Hn IH]; intros [|d name] Hd; cbn [app starts_with]; try done; rewrite andb_true_iff, Z.eqb_eq.
  - intros [<- _]. by apply Forall_cons in Hd as [Hd _].
  - by intros [-> _].
  - apply Forall_cons in Hd as [_ Hd]. intros [-> Hs]. f_equal. by apply IH.
Qed.

Lemma passes_field name f : plain_name name -> plain_name f.1 -> f.1 <> name -> passes name (render_field f).
Proof.
  intros [Hn _] [Hf1 Hf2] Hne. unfold render_field. apply passes_app; [|apply passes_app].
  - apply passes_tag.
    + repeat (apply Forall_cons; split; [done|]). apply Forall_app. split; [done|]. by repeat (apply Forall_cons; split; [done|]).
    + intros rest. apply not_true_is_false. intros Hs. apply Hne. cbn in Hs. rewrite <- app_assoc in Hs. by apply starts_with_name in Hs.
  - apply passes_plain. apply escape_no_markup.
  - apply passes_tag; [by repeat (apply Forall_cons; split; [done|])|done].
Qed.

Lemma passes_closing name : passes name closing.
Proof. apply passes_tag; [by repeat (apply Forall_cons; split; [done|])|done]. Qed.

Lemma passes_header name id : 0 <= id -> passes name (header id).
Proof.
  intros Hid. unfold header.
  repeat (apply passes_app; [first [apply passes_tag; [by repeat (apply Forall_cons; split; [done|])|done]|apply passes_plain]|]).
  - eapply Forall_impl; [by apply show_digits_digits|]. cbn. intros c Hc ->. done.
  - apply passes_tag; [by repeat (apply Forall_cons; split; [done|])|done].
Qed.

Lemma data_fields_after fuel t1 t2 name :
  snd <$> split_once_text (opening name) t1 = snd <$> split_once_text (opening name) t2 -> data_fields_from fuel t1 name = data_fields_from fuel t2 name.
Proof.
  intros H. destruct fuel; cbn [data_fields_from]; destruct (split_once_text (opening name) t1) as [[? ?]|], (split_once_text (opening name) t2) as [[? ?]|];
    cbn in H; simplify_eq; done.
Qed.

Lemma data_fields_pass fuel pre rest name : passes name pre -> data_fields_from fuel (pre ++ rest) name = data_fields_from fuel rest name.
Proof. intros Hp. apply data_fields_after, Hp. Qed.

Lemma data_fields_fields fuel fields name :
  plain_name name -> Forall (fun f => plain_name f.1) fields -> (length fields <= fuel)%nat ->
  data_fields_from fuel (concat (render_field <$> fields) ++ footer) name = Some (escape <$> values fields name).
Proof.
  intros Hn Hf. revert fuel. induction Hf as [|f fields Hf _ IH]; intros fuel Hl.
  - cbn [fmap list_fmap concat app]. rewrite <- (app_nil_r footer), data_fields_pass; [by destruct fuel|].
    unfold footer. apply passes_app; (apply passes_tag; [by repeat (apply Forall_cons; split; [done|])|done]).
  - rewrite fmap_cons. cbn [concat]. rewrite <- app_assoc. unfold values. cbn [omap list_omap]. destruct (decide (f.1 = name)) as [Heq|Hne].
    + rewrite bool_decide_eq_true_2 by done. destruct fuel as [|fuel]; [cbn in Hl; lia|]. unfold render_field. rewrite Heq, <- !app_assoc.
      cbn [data_fields_from]. rewrite split_once_here. change closing with (60 :: tail closing) at 1 2. rewrite split_once_plain by apply escape_no_markup.
      rewrite split_once_here. cbn [fmap option_fmap option_map fst snd mbind option_bind]. rewrite app_nil_r.
      change (60 :: tail closing) with closing. rewrite data_fields_pass by apply passes_closing. rewrite IH by (cbn in Hl; lia). done.
    + rewrite bool_decide_eq_false_2 by done. rewrite data_fields_pass by (by apply passes_field). apply IH. cbn in Hl. lia.
Qed.

Lemma data_fields_rendered id fields name :
  0 <= id -> plain_name name -> Forall (fun f => plain_name f.1) fields -> data_fields (render_event id fields) name = Some (escape <$> values fields name).
Proof.
  intros Hid Hn Hf. unfold data_fields, render_event. rewrite data_fields_pass by (by apply passes_header). apply data_fields_fields; [done|done|].
  rewrite !length_app. assert (length fields <= length (concat (render_field <$> fields)))%nat; [|lia]. clear. induction fields as [|f fields IH]; [done|].
  rewrite fmap_cons. cbn [concat length]. rewrite length_app. assert (0 < length (render_field f))%nat by (cbn; lia). lia.
Qed.

Lemma event_id_rendered id fields : 0 <= id <= U32_MAX -> event_id (render_event id fields) = Some id.
Proof.
  intros Hid. unfold event_id, render_event, header. rewrite <- !app_assoc. set (rest := of_string "</System>" ++ _).
  set (digits := show_digits 10 10 id []). assert (Forall (fun c => is_ascii_digit c = true) digits) as Hd by (by apply show_digits_digits; [lia|]).
  assert (find_text (of_string "<EventID") (of_string "<Event>" ++ of_string "<System>" ++ of_string "<EventID>" ++ digits ++ of_string "</EventID>" ++ rest) = Some 15%nat) as ->.
  { reflexivity. }
  cbn [mbind option_bind]. change (drop 15 _) with (of_string "<EventID>" ++ digits ++ of_string "</EventID>" ++ rest).
  change (find_text (of_string ">") (of_string "<EventID>" ++ digits ++ of_string "</EventID>" ++ rest)) with (Some 8%nat). cbn [fmap option_fmap option_map].
  assert (find_text (of_string "</EventID>") (of_string "<EventID>" ++ digits ++ of_string "</EventID>" ++ rest) = Some (9 + length digits)%nat) as ->.
  { unfold find_text. change (of_string "<EventID>" ++ ?x) with (60 :: of_string "EventID>" ++ x). rewrite split_once_text_eq.
    change (starts_with _ _) with false. cbn iota. rewrite (app_assoc (of_string "EventID>")).
    change (of_string "</EventID>") with (60 :: of_string "/EventID>"). rewrite split_once_plain; cycle 1.
    { apply Forall_app. split; [by repeat (apply Forall_cons; split; [done|])|]. eapply Forall_impl; [exact Hd|]. cbn. intros c Hc ->. done. }
    rewrite split_once_here. cbn [fmap option_fmap option_map mbind option_bind fst snd length]. rewrite !length_app. cbn [length]. f_equal. cbn. lia. }
  cbn [mbind option_bind]. assert (digits <> []) as Hne by (by apply show_digits_nonempty; lia).
  rewrite (proj2 (Nat.leb_gt _ _)) by (destruct digits; [done|cbn; lia]). replace (9 + length digits - 9)%nat with (length digits) by lia.
  change (drop 9 _) with (digits ++ of_string "</EventID>" ++ rest). rewrite take_app_length, trim_none.
  - apply parse_unsigned_show; [done| |lia]. unfold U32_MAX in Hid. lia.
  - eapply Forall_impl; [exact Hd|]. cbn. intros c Hc. unfold is_ascii_digit in Hc. unfold is_whitespace. bsimpl. zdec. done.
Qed.

(** ** What a rendered event is read as *)

(** What is kept of a value. *)
Definition kept (v : text) : option text := let clean := (sanitise_chars MAX_FIELD_CHARS v).1 in if bool_decide (clean = []) then None else Some clean.

(** The value of a field that appears once. *)
Definition only (fields : list (text * text)) (name : text) : option text := match values fields name with [v] => Some v | _ => None end.

Lemma field_rendered id fields name :
  0 <= id -> plain_name name -> Forall (fun f => plain_name f.1) fields -> (field (render_event id fields) name).1 = only fields name ≫= kept.
Proof.
  intros Hid Hn Hf. unfold field, only. rewrite data_fields_rendered by done. cbn [unwrap_or]. destruct (values fields name) as [|v [|w l]]; [done| |done].
  cbn [fmap list_fmap]. rewrite decode_escape. cbn [mbind option_bind]. unfold kept. by destruct (sanitise_chars MAX_FIELD_CHARS v).
Qed.

Definition field_names : list text :=
  [of_string "TargetUserName"; of_string "TargetDomainName"; of_string "WorkstationName"; of_string "LogonType"; of_string "IpAddress"; of_string "IpPort";
   of_string "Status"; of_string "LogonProcessName"].

Lemma field_names_plain : Forall plain_name field_names.
Proof. repeat constructor; vm_compute; discriminate. Qed.

(** C39: a logon event is read field by field: rendered with its values escaped, whatever characters they hold and however long they are, an event gives the outcome of its number, the account, the address, the port and the logon type of their own fields, cleaned and cut, each only if it appears once; so an account name, whoever typed it, has no influence on the address. *)
Theorem logon_fields_read debug id fields :
  id ∈ [EVENT_ID_LOGON_SUCCESS; EVENT_ID_LOGON_FAILURE; EVENT_ID_EXPLICIT_CREDENTIALS] -> Forall (fun f => plain_name f.1) fields ->
  text_len (render_event id fields) <= MAX_EVENT_BYTES ->
  exists p, parse_logon_event debug (render_event id fields) = Some p /\ lg_event_id p = id /\
    auth_outcome (lg_event p) = (if id =? EVENT_ID_LOGON_FAILURE then Failure else Success) /\
    auth_user (lg_event p) = meaningful (only fields (of_string "TargetUserName") ≫= kept) /\
    auth_source_address (lg_event p) = meaningful (only fields (of_string "IpAddress") ≫= kept) ≫= parse_ip /\
    auth_source_port (lg_event p) = (p ← meaningful (only fields (of_string "IpPort") ≫= kept) ≫= parse_unsigned U16_MAX; if p =? 0 then None else Some p) /\
    lg_logon_type p = from_code <$> (meaningful (only fields (of_string "LogonType") ≫= kept) ≫= parse_unsigned U32_MAX).
Proof.
  intros Hid Hf Hlen. assert (0 <= id <= U32_MAX /\ exists outcome, logon_outcome id = Some outcome /\ outcome = if id =? EVENT_ID_LOGON_FAILURE then Failure else Success) as [Hr (outcome & Ho & Hoe)].
  { rewrite !elem_of_cons in Hid. destruct Hid as [->|[->|[->|Hid]]]; [..|by apply elem_of_nil in Hid]; (split; [vm_compute; split; discriminate|eauto]). }
  unfold parse_logon_event. rewrite (proj2 (Z.ltb_ge _ _)) by lia. rewrite event_id_rendered by done. cbn [mbind option_bind]. rewrite Ho. cbn [mbind option_bind].
  set (xml := render_event id fields). pose proof field_names_plain as Hp. rewrite Forall_forall in Hp.
  assert (forall name, name ∈ field_names -> (field xml name).1 = only fields name ≫= kept) as Hfield by (intros name Hin; apply field_rendered; [lia|by apply Hp|done]).
  pose proof (Hfield (of_string "TargetUserName") ltac:(by left)) as F1. pose proof (Hfield (of_string "LogonType") ltac:(do 3 right; by left)) as F2.
  pose proof (Hfield (of_string "IpAddress") ltac:(do 4 right; by left)) as F3. pose proof (Hfield (of_string "IpPort") ltac:(do 5 right; by left)) as F4.
  destruct (field xml (of_string "TargetUserName")), (field xml (of_string "TargetDomainName")), (field xml (of_string "WorkstationName")),
    (field xml (of_string "LogonType")), (field xml (of_string "IpAddress")), (read_address debug _) as [address n6] eqn:Ea, (field xml (of_string "IpPort")).
  cbn [fst] in F1, F2, F3, F4. destruct (if id =? _ then field xml _ else _), (field xml (of_string "LogonProcessName")).
  eexists. split; [reflexivity|]. cbn [lg_event lg_event_id lg_logon_type auth_outcome auth_user auth_source_address auth_source_port].
  rewrite <- F1, <- F2, <- F3, <- F4. split_and!; try done. unfold read_address in Ea. destruct (meaningful _); [|by injection Ea as <- _]. cbn.
  by destruct (parse_ip _); injection Ea as <- _.
Qed.

(** ** Any event *)

Lemma sanitise_chars_clean room t : no_control (sanitise_chars room t).1 /\ (length (sanitise_chars room t).1 <= room)%nat.
Proof.
  revert room. induction t as [|c t IH]; intros room; [destruct room; cbn; split; [constructor|lia|constructor|lia]|].
  destruct room as [|room]; [cbn; split; [constructor|lia]|]. cbn [sanitise_chars].
  destruct (IH room) as [H1 H2]. destruct (sanitise_chars room t) as [out changed]. cbn [fst] in *.
  destruct (is_control c) eqn:E; cbn [fst length]; (split; [apply Forall_cons; done|lia]).
Qed.

(** What a value that was kept satisfies, and where it is from. *)
Record value_ok (xml name v : text) : Prop := {
  vo_clean : no_control v;
  vo_short : (length v <= MAX_FIELD_CHARS)%nat;
  vo_once : exists raw, data_fields xml name = Some [raw] /\ kept (decode_entities raw) = Some v
}.

Lemma field_ok xml name v : (field xml name).1 = Some v -> value_ok xml name v.
Proof.
  unfold field. destruct (data_fields_total xml name) as [values Hv]. rewrite Hv. cbn [unwrap_or]. destruct values as [|raw [|]]; [done| |done].
  destruct (sanitise_chars MAX_FIELD_CHARS (decode_entities raw)) as [clean changed] eqn:E. cbn [fst]. case_bool_decide as Hc; [done|]. intros [= <-].
  pose proof (sanitise_chars_clean MAX_FIELD_CHARS (decode_entities raw)) as [H1 H2]. rewrite E in H1, H2. split; [done|done|]. exists raw. split; [done|].
  unfold kept. rewrite E. cbn [fst]. by rewrite bool_decide_eq_false_2.
Qed.

Lemma meaningful_some o v : meaningful o = Some v -> o = Some v.
Proof. unfold meaningful. destruct o; cbn; [|done]. by case_match; intros [= <-]. Qed.

Lemma field_repeated xml name values : data_fields xml name = Some values -> (1 < length values)%nat -> field xml name = (None, (field xml name).2) /\ (field xml name).2 <> [].
Proof. intros Hv Hl. unfold field. rewrite Hv. cbn [unwrap_or]. destruct values as [|a [|b l]]; cbn in Hl; try lia. done. Qed.

Lemma field_value xml name v : meaningful (field xml name).1 = Some v -> value_ok xml name v.
Proof. intros Hm. by apply field_ok, meaningful_some. Qed.

Lemma logon_as_str_clean t : no_control (logon_as_str t) /\ (length (logon_as_str t) <= 18)%nat.
Proof. destruct t; vm_compute; (split; [repeat constructor|lia]). Qed.

(** A part of the message that is there when a value is. *)
Lemma no_control_app a b : no_control a -> no_control b -> no_control (a ++ b).
Proof. intros. by apply Forall_app. Qed.

Ltac clean_literal := vm_compute; repeat constructor.

Lemma logon_message_clean outcome id logon_type user domain workstation status :
  0 <= id -> Forall (fun o => forall v, o = Some v -> no_control v) [user; domain; workstation; status] ->
  no_control (logon_message outcome id logon_type user domain workstation status).
Proof.
  intros Hid. rewrite !Forall_cons. intros (H1 & H2 & H3 & H4 & _). unfold logon_message. repeat apply no_control_app.
  - destruct outcome; clean_literal.
  - clean_literal.
  - eapply Forall_impl; [by apply show_digits_digits|]. cbn. intros c Hc. unfold is_ascii_digit in Hc. unfold is_control. bsimpl. zdec. done.
  - clean_literal.
  - destruct logon_type as [kind|]; [|constructor]. apply no_control_app; [clean_literal|apply logon_as_str_clean].
  - destruct user as [account|]; [|constructor]. apply no_control_app; [clean_literal|]. destruct domain as [d|]; [|by apply H1].
    apply no_control_app; [by apply H2|]. apply no_control_app; [clean_literal|by apply H1].
  - destruct workstation as [host|]; [|constructor]. apply no_control_app; [clean_literal|by apply H3].
  - destruct status as [st|]; [|constructor]. apply no_control_app; [clean_literal|by apply H4].
Qed.

Lemma event_id_range xml id : event_id xml = Some id -> 0 <= id <= U32_MAX.
Proof.
  unfold event_id. destruct (find_text (of_string "<EventID") xml) as [start|]; cbn [mbind option_bind]; [|done].
  destruct (find_text (of_string ">") _) as [open|]; cbn [mbind option_bind fmap option_fmap option_map]; [|done].
  destruct (find_text (of_string "</EventID>") _) as [close|]; cbn [mbind option_bind]; [|done].
  destruct (close <=? S open)%nat; [done|]. by apply parse_unsigned_range.
Qed.

(** Whatever the rendering, the event is safe to keep: the account is short and free of control characters, and the message free of them too; an account or an address is only there when its field appeared exactly once, and is what that field says; and a rendering in which one of these fields is repeated, by a renderer's fault or an injection, gives none for it and is marked suspicious. *)
Theorem logon_event_clean debug xml p :
  parse_logon_event debug xml = Some p ->
  no_control (auth_message (lg_event p)) /\
  (forall user, auth_user (lg_event p) = Some user -> value_ok xml (of_string "TargetUserName") user) /\
  (forall a, auth_source_address (lg_event p) = Some a -> exists v, value_ok xml (of_string "IpAddress") v /\ parse_ip v = Some a) /\
  (forall values, data_fields xml (of_string "TargetUserName") = Some values -> (1 < length values)%nat ->
     auth_user (lg_event p) = None /\ auth_suspicious (lg_event p) <> []) /\
  (forall values, data_fields xml (of_string "IpAddress") = Some values -> (1 < length values)%nat ->
     auth_source_address (lg_event p) = None /\ auth_suspicious (lg_event p) <> []).
Proof.
  unfold parse_logon_event. destruct (_ <? _); [done|]. destruct (event_id xml) as [id|] eqn:Eid; cbn [mbind option_bind]; [|done]. apply event_id_range in Eid.
  destruct (logon_outcome id) as [outcome|]; cbn [mbind option_bind]; [|done].
  pose proof (field_value xml (of_string "TargetUserName")) as F1. pose proof (field_value xml (of_string "TargetDomainName")) as F2.
  pose proof (field_value xml (of_string "WorkstationName")) as F3. pose proof (field_value xml (of_string "IpAddress")) as F4.
  pose proof (field_value xml (of_string "Status")) as F5. pose proof (field_repeated xml (of_string "TargetUserName")) as R1.
  pose proof (field_repeated xml (of_string "IpAddress")) as R2.
  destruct (field xml (of_string "TargetUserName")) as [user n1], (field xml (of_string "TargetDomainName")) as [domain n2], (field xml (of_string "WorkstationName")) as [workstation n3],
    (field xml (of_string "LogonType")) as [code n4], (field xml (of_string "IpAddress")) as [address n5], (read_address debug _) as [source_address n6] eqn:Ea,
    (field xml (of_string "IpPort")) as [port n7].
  destruct (if id =? _ then field xml _ else _) as [status n8] eqn:Es, (field xml (of_string "LogonProcessName")) as [process n9].
  intros [= <-]. cbn [lg_event auth_message auth_user auth_source_address auth_suspicious fst snd] in *. split_and!.
  - apply logon_message_clean; [lia|]. rewrite !Forall_cons. split_and!; [intros v Hv..|constructor].
    + apply (vo_clean _ _ _ (F1 v Hv)).
    + apply (vo_clean _ _ _ (F2 v Hv)).
    + apply (vo_clean _ _ _ (F3 v Hv)).
    + destruct (id =? EVENT_ID_LOGON_FAILURE); [|by injection Es as <- _]. rewrite Es in F5. apply (vo_clean _ _ _ (F5 v Hv)).
  - intros v Hv. by apply F1.
  - intros a ->. unfold read_address in Ea. destruct (meaningful address) as [v|]; [|by injection Ea]. exists v. split; [by apply F4|].
    destruct (parse_ip v); by injection Ea as -> _.
  - intros values Hv Hl. destruct (R1 values Hv Hl) as [[= ->] Hn]. split; [done|]. by destruct n1.
  - intros values Hv Hl. destruct (R2 values Hv Hl) as [[= ->] Hn]. split; [by injection Ea as <- _|]. destruct n5; [done|]. by destruct n1, n2, n3, n4.
Qed.

(** A rendering that is right is marked as if it were not: a value that holds an angle bracket, escaped as it must be, is noted as containing markup, although the module says that a correctly rendered event cannot lead to that note. *)
Theorem escaped_markup_is_flagged id fields name v :
  0 <= id -> plain_name name -> Forall (fun f => plain_name f.1) fields -> values fields name = [v] -> 60 ∈ v ->
  (of_string "field " ++ name ++ of_string " contains markup after decoding") ∈ (field (render_event id fields) name).2.
Proof.
  intros Hid Hn Hf Hv Hin. unfold field. rewrite data_fields_rendered, Hv by done. cbn [unwrap_or fmap list_fmap]. rewrite decode_escape.
  assert (text_contains v (of_string "<") = true) as ->.
  { clear Hv. induction v as [|c v IH]; [by apply elem_of_nil in Hin|]. cbn [text_contains]. apply elem_of_cons in Hin as [<-|Hin]; [done|]. rewrite IH by done. by rewrite orb_true_r. }
  cbn [orb]. destruct (sanitise_chars MAX_FIELD_CHARS v). cbn [snd app]. left.
Qed.

(** ** The hypotheses can hold *)

(** An account name that tries to close its field and to give an address. *)
Definition hostile_account : text := of_string "x</Data><Data Name=" ++ [34] ++ of_string "IpAddress" ++ [34] ++ of_string ">10.0.0.1".

Definition hostile_fields : list (text * text) :=
  [(of_string "TargetUserName", hostile_account); (of_string "IpAddress", of_string "203.0.113.7"); (of_string "IpPort", of_string "50331")].

Lemma hostile_fields_plain : Forall (fun f => plain_name f.1) hostile_fields.
Proof. repeat constructor; vm_compute; discriminate. Qed.

Lemma logon_fields_read_witness :
  exists p, parse_logon_event quote (render_event 4625 hostile_fields) = Some p /\ auth_source_address (lg_event p) = Some (V4 0xcb007107) /\
    auth_user (lg_event p) = Some hostile_account.
Proof.
  destruct (logon_fields_read quote 4625 hostile_fields ltac:(right; left) hostile_fields_plain ltac:(vm_compute; discriminate)) as (p & H1 & _ & _ & H2 & H3 & _).
  exists p. split; [exact H1|]. rewrite H2, H3. split; vm_compute; reflexivity.
Defined.

(** The same account, written without escaping. *)
Definition injected : text :=
  header 4625 ++ opening (of_string "TargetUserName") ++ hostile_account ++ closing ++ opening (of_string "IpAddress") ++ of_string "203.0.113.7" ++ closing ++ footer.

Lemma logon_event_clean_witness :
  exists p, parse_logon_event quote injected = Some p /\ auth_source_address (lg_event p) = None /\ auth_suspicious (lg_event p) <> [].
Proof.
  destruct (parse_logon_event quote injected) as [p|] eqn:E; [|vm_compute in E; discriminate E]. exists p. split; [reflexivity|].
  destruct (logon_event_clean quote injected p E) as (_ & _ & _ & _ & H).
  apply (H [of_string "10.0.0.1"; of_string "203.0.113.7"]); [vm_compute; reflexivity|cbn; lia].
Defined.

Lemma escaped_markup_is_flagged_witness : (field (render_event 4625 hostile_fields) (of_string "TargetUserName")).2 <> [].
Proof.
  pose proof (escaped_markup_is_flagged 4625 hostile_fields (of_string "TargetUserName") hostile_account ltac:(lia)) as H.
  assert (plain_name (of_string "TargetUserName")) as Hn by (split; repeat constructor; vm_compute; discriminate).
  specialize (H Hn hostile_fields_plain ltac:(vm_compute; reflexivity) ltac:(right; left)).
  destruct (field (render_event 4625 hostile_fields) (of_string "TargetUserName")) as [o [|n l]]; [by apply elem_of_nil in H|discriminate].
Defined.
