(* ===== verification/Replay.v ===== *)
(** Savefile replay: [crates/capture/src/replay.rs] and the types of [crates/capture/src/lib.rs] it uses.

    A reader is the bytes it still holds and a script of what its next reads do: give at most so many
    bytes, be interrupted, or fail; a reader whose script is over gives whatever is asked. The name of
    the source only appears in messages and is left out. Timestamps are nanoseconds since the epoch. *)

From S2P Require Import Prelude Text.

Definition MAX_FRAME_LEN : Z := 262144.

Inductive LinkType := Ethernet | OtherLink (raw : Z).

#[global] Instance LinkType_eq_dec : EqDecision LinkType.
Proof. solve_decision. Defined.

Definition link_from_raw (value : Z) : LinkType := if value =? 1 then Ethernet else OtherLink value.

Definition link_as_raw (l : LinkType) : Z := match l with Ethernet => 1 | OtherLink raw => raw end.

(** The reasons of [CaptureError::NotPcap]. *)
Inductive NotPcapReason := ShortHeader (read : Z) | IsPcapng | UnrecognisedMagic (magic : Z).

Inductive CaptureError :=
| CaptureIo
| NotPcap (reason : NotPcapReason)
| UnsupportedLinkType (link_type : Z)
| RecordTooLarge (offset claimed : Z)
| Backend (message : text)
| NoLiveBackend.

Record RawPacket := mkRawPacket {
  rp_timestamp : Z;
  rp_data : list Z;
  rp_original_len : Z
}.

Inductive Captured := CapturedFrame (packet : RawPacket) | CapturedIdle | CapturedEnd.

Record CaptureCounters := mkCaptureCounters {
  cc_packets : Z;
  cc_bytes : Z;
  cc_drops : Z;
  cc_interface_drops : Z
}.

(** ** Reading *)

Inductive ReadOutcome := Gives (n : nat) | Interrupted | Fails.

Record Reader := mkReader {
  rd_bytes : list Z;
  rd_script : list ReadOutcome
}.

(** [fill]: the bytes read, and whether no read failed. A read of a non-empty buffer gives no byte
    only at the end. *)
Fixpoint fill_from (script : list ReadOutcome) (bytes : list Z) (want : nat) : Reader * list Z * bool :=
  match want with
  | O => (mkReader bytes script, [], true)
  | S _ =>
      match script with
      | [] => (mkReader (drop want bytes) [], take want bytes, true)
      | Interrupted :: script' => fill_from script' bytes want
      | Fails :: script' => (mkReader bytes script', [], false)
      | Gives n :: script' =>
          match bytes with
          | [] => (mkReader [] script', [], true)
          | _ =>
              let n := Nat.min (Nat.max 1 n) (Nat.min want (length bytes)) in
              let '(reader, got, ok) := fill_from script' (drop n bytes) (want - n) in
              (reader, take n bytes ++ got, ok)
          end
      end
  end.

Definition fill (r : Reader) (want : Z) : Reader * list Z * bool := fill_from (rd_script r) (rd_bytes r) (Z.to_nat want).

(** ** The file header *)

Definition FILE_HEADER_LEN : Z := 24.
Definition RECORD_HEADER_LEN : Z := 16.

Definition MAGIC_MICROS : Z := 0xa1b2c3d4.
Definition MAGIC_MICROS_SWAPPED : Z := 0xd4c3b2a1.
Definition MAGIC_NANOS : Z := 0xa1b23c4d.
Definition MAGIC_NANOS_SWAPPED : Z := 0x4d3cb2a1.
Definition MAGIC_PCAPNG : Z := 0x0a0d0d0a.

Record FileHeader := mkFileHeader {
  version_major : Z;
  version_minor : Z;
  snaplen : Z;
  link_type : LinkType;
  nanosecond_timestamps : bool;
  byte_swapped : bool
}.

(** The [n]-byte integer at [offset], in the byte order of the file. *)
Definition int_at (swapped : bool) (n : nat) (raw : list Z) (offset : nat) : Z :=
  let word := take n (drop offset raw) in
  if swapped then from_be_bytes word else from_le_bytes word.

Definition u32_at (h : FileHeader) (raw : list Z) (offset : nat) : Z := int_at (byte_swapped h) 4 raw offset.

Definition magic_kind (magic : Z) : option (bool * bool) :=
  if magic =? MAGIC_MICROS then Some (false, false)
  else if magic =? MAGIC_NANOS then Some (false, true)
  else if magic =? MAGIC_MICROS_SWAPPED then Some (true, false)
  else if magic =? MAGIC_NANOS_SWAPPED then Some (true, true)
  else None.

Definition parse_file_header (raw : list Z) : CaptureError + FileHeader :=
  let magic_le := from_le_bytes (take 4 raw) in
  match magic_kind magic_le with
  | Some (swapped, nanos) =>
      inr (mkFileHeader (int_at swapped 2 raw 4) (int_at swapped 2 raw 6) (int_at swapped 4 raw 16)
             (link_from_raw (int_at swapped 4 raw 20)) nanos swapped)
  | None =>
      let magic_be := from_be_bytes (take 4 raw) in
      inl (NotPcap (if (magic_be =? MAGIC_PCAPNG) || (magic_le =? MAGIC_PCAPNG) then IsPcapng else UnrecognisedMagic magic_le))
  end.

(** ** Replay *)

Record PcapReplay := mkPcapReplay {
  pr_reader : Reader;
  pr_header : FileHeader;
  pr_buffer : list Z;
  pr_frame_len : Z;
  pr_original_len : Z;
  pr_timestamp : Z;
  pr_counters : CaptureCounters;
  pr_offset : Z;
  pr_truncated : bool;
  pr_finished : bool
}.

Definition from_reader (reader : Reader) : CaptureError + PcapReplay :=
  match fill reader FILE_HEADER_LEN with
  | (_, _, false) => inl CaptureIo
  | (reader, raw, true) =>
      if len raw <? FILE_HEADER_LEN then inl (NotPcap (ShortHeader (len raw)))
      else
        match parse_file_header raw with
        | inl e => inl e
        | inr header =>
            if decide (link_type header = Ethernet) then
              inr (mkPcapReplay reader header [] 0 0 0 (mkCaptureCounters 0 0 0 0) FILE_HEADER_LEN false false)
            else inl (UnsupportedLinkType (link_as_raw (link_type header)))
        end
  end.

Definition with_reader (r : PcapReplay) (reader : Reader) (truncated : bool) : PcapReplay :=
  mkPcapReplay reader (pr_header r) (pr_buffer r) (pr_frame_len r) (pr_original_len r) (pr_timestamp r) (pr_counters r)
    (pr_offset r) truncated (pr_finished r).

(** The nanoseconds of a timestamp fraction: the multiplication saturates at 32 bits. *)
Definition fraction_nanos (h : FileHeader) (fraction : Z) : Z :=
  if nanosecond_timestamps h then fraction else Z.min U32_MAX (fraction * 1000).

(** The frame of a record whose prefix is [raw]. *)
Definition read_frame (r : PcapReplay) (raw : list Z) (reader : Reader) : PcapReplay * (CaptureError + bool) :=
  let h := pr_header r in
  let seconds := u32_at h raw 0 in
  let fraction := u32_at h raw 4 in
  let captured_len := u32_at h raw 8 in
  let wire_len := u32_at h raw 12 in
  if MAX_FRAME_LEN <? captured_len
  then (with_reader r reader (pr_truncated r), inl (RecordTooLarge (pr_offset r) captured_len))
  else
    let offset := pr_offset r + RECORD_HEADER_LEN in
    let '(reader, got, ok) := fill reader captured_len in
    let buffer := got ++ replicate (Z.to_nat (captured_len - len got)) 0 in
    let torn truncated :=
      mkPcapReplay reader h buffer (pr_frame_len r) (pr_original_len r) (pr_timestamp r) (pr_counters r) offset truncated
        (pr_finished r) in
    if negb ok then (torn (pr_truncated r), inl CaptureIo)
    else if len got <? captured_len then (torn true, inr false)
    else
      (mkPcapReplay reader h buffer captured_len (Z.max wire_len captured_len)
         (seconds * 1000000000 + fraction_nanos h fraction) (pr_counters r) (offset + captured_len) (pr_truncated r)
         (pr_finished r), inr true).

Definition read_record (r : PcapReplay) : PcapReplay * (CaptureError + bool) :=
  let '(reader, raw, ok) := fill (pr_reader r) RECORD_HEADER_LEN in
  if negb ok then (with_reader r reader (pr_truncated r), inl CaptureIo)
  else if len raw =? 0 then (with_reader r reader (pr_truncated r), inr false)
  else if len raw <? RECORD_HEADER_LEN then (with_reader r reader true, inr false)
  else read_frame r raw reader.

Definition next_packet (r : PcapReplay) : PcapReplay * (CaptureError + Captured) :=
  if pr_finished r then (r, inr CapturedEnd)
  else
    match read_record r with
    | (r, inl e) => (r, inl e)
    | (r, inr false) =>
        (mkPcapReplay (pr_reader r) (pr_header r) (pr_buffer r) (pr_frame_len r) (pr_original_len r) (pr_timestamp r)
           (pr_counters r) (pr_offset r) (pr_truncated r) true, inr CapturedEnd)
    | (r, inr true) =>
        let c := pr_counters r in
        let counters := mkCaptureCounters (cc_packets c + 1) (cc_bytes c + pr_frame_len r) (cc_drops c) (cc_interface_drops c) in
        (mkPcapReplay (pr_reader r) (pr_header r) (pr_buffer r) (pr_frame_len r) (pr_original_len r) (pr_timestamp r)
           counters (pr_offset r) (pr_truncated r) (pr_finished r),
         inr (CapturedFrame (mkRawPacket (pr_timestamp r) (take (Z.to_nat (pr_frame_len r)) (pr_buffer r)) (pr_original_len r))))
    end.

(** The results of [n] polls. *)
Fixpoint polls (n : nat) (r : PcapReplay) : PcapReplay * list (CaptureError + Captured) :=
  match n with
  | O => (r, [])
  | S n' => let '(r, result) := next_packet r in let '(r, results) := polls n' r in (r, result :: results)
  end.

(** ** Reading is exact *)

Definition reliable (script : list ReadOutcome) : Prop := Fails ∉ script.

Lemma fill_from_split script bytes want reader got ok :
  fill_from script bytes want = (reader, got, ok) ->
  bytes = got ++ rd_bytes reader /\ (length got <= want)%nat /\ (ok = true -> got = take want bytes) /\
  (reliable script -> ok = true /\ reliable (rd_script reader)).
Proof.
  revert bytes want reader got ok. induction script as [|o script IH]; intros bytes want reader got ok E.
  - destruct want; simpl in E; injection E as <- <- <-; cbn; [split_and!; (done || lia)|].
    split_and!; [by rewrite take_drop|rewrite length_take; lia|done|done].
  - destruct want as [|want]; [simpl in E; injection E as <- <- <-; split_and!; (done || simpl; lia)|].
    cbn [fill_from] in E. destruct o as [n| |].
    + destruct bytes as [|b bytes]; [injection E as <- <- <-; split_and!; cbn; try (done || lia); intros H; split; [done|];
        unfold reliable in *; set_solver|].
      set (k := Nat.min (Nat.max 1 n) (Nat.min (S want) (length (b :: bytes)))) in *.
      assert (1 <= k <= S want /\ k <= length (b :: bytes))%nat as [Hk Hk2] by (unfold k; simpl; lia).
      destruct (fill_from script (drop k (b :: bytes)) (S want - k)) as [[reader' got'] ok'] eqn:Ef. injection E as <- <- <-.
      destruct (IH _ _ _ _ _ Ef) as (H1 & H2 & H3 & H4). split_and!.
      * rewrite <- app_assoc, <- H1. by rewrite take_drop.
      * rewrite length_app, length_take. lia.
      * intros Hok. rewrite H3 by done. rewrite take_take_drop. f_equal. lia.
      * intros Hr. apply H4. unfold reliable in *. set_solver.
    + destruct (IH _ _ _ _ _ E) as (H1 & H2 & H3 & H4). split_and!; [done..|]. intros Hr. apply H4. unfold reliable in *. set_solver.
    + injection E as <- <- <-. split_and!; cbn; try (done || lia). intros Hr. unfold reliable in Hr. set_solver.
Qed.

(** A reliable reader fills the buffer, or gives everything it has. *)
Lemma fill_reliable r want :
  0 <= want -> reliable (rd_script r) ->
  exists script, reliable script /\
    fill r want = (mkReader (drop (Z.to_nat want) (rd_bytes r)) script, take (Z.to_nat want) (rd_bytes r), true).
Proof.
  intros Hw Hr. unfold fill. destruct (fill_from _ _ _) as [[reader got] ok] eqn:E.
  destruct (fill_from_split _ _ _ _ _ _ E) as (H1 & H2 & H3 & H4). destruct (H4 Hr) as [-> Hr']. specialize (H3 eq_refl). subst got.
  exists (rd_script reader). split; [done|]. destruct reader as [rest script]. cbn in *. do 3 f_equal.
  rewrite <- (take_drop (Z.to_nat want) (rd_bytes r)) in H1 at 1. by apply app_inv_head in H1.
Qed.

(** ** Savefiles as they are written *)

Record SavedRecord := mkSavedRecord {
  sr_seconds : Z;
  sr_fraction : Z;
  sr_wire_len : Z;
  sr_data : list Z
}.

Definition int_bytes (swapped : bool) (n : nat) (x : Z) : list Z := if swapped then be_bytes n x else le_bytes n x.

Definition encode_header (h : FileHeader) : list Z :=
  let swapped := byte_swapped h in
  int_bytes swapped 4 (if nanosecond_timestamps h then MAGIC_NANOS else MAGIC_MICROS) ++
  int_bytes swapped 2 (version_major h) ++ int_bytes swapped 2 (version_minor h) ++ replicate 8 0 ++
  int_bytes swapped 4 (snaplen h) ++ int_bytes swapped 4 (link_as_raw (link_type h)).

Definition encode_prefix (h : FileHeader) (r : SavedRecord) : list Z :=
  let swapped := byte_swapped h in
  int_bytes swapped 4 (sr_seconds r) ++ int_bytes swapped 4 (sr_fraction r) ++ int_bytes swapped 4 (len (sr_data r)) ++
  int_bytes swapped 4 (sr_wire_len r).

Definition encode_record (h : FileHeader) (r : SavedRecord) : list Z := encode_prefix h r ++ sr_data r.

(** The frame that a record stands for. *)
Definition frame_of (h : FileHeader) (r : SavedRecord) : RawPacket :=
  mkRawPacket (sr_seconds r * 1000000000 + fraction_nanos h (sr_fraction r)) (sr_data r)
    (Z.max (sr_wire_len r) (len (sr_data r))).

Definition in_u32 (n : Z) : Prop := 0 <= n < 2 ^ 32.

Definition record_ok (r : SavedRecord) : Prop :=
  in_u32 (sr_seconds r) /\ in_u32 (sr_fraction r) /\ in_u32 (sr_wire_len r) /\ len (sr_data r) <= MAX_FRAME_LEN.

Definition header_ok (h : FileHeader) : Prop :=
  0 <= version_major h < 2 ^ 16 /\ 0 <= version_minor h < 2 ^ 16 /\ in_u32 (snaplen h) /\ link_type h = Ethernet.

Lemma int_bytes_length swapped n x : length (int_bytes swapped n x) = n.
Proof. destruct swapped; unfold int_bytes, le_bytes; rewrite ?length_reverse; apply be_bytes_length. Qed.

(** An integer stands where it was written. *)
Lemma int_at_bytes swapped n x before after offset :
  offset = length before -> 0 <= x < 2 ^ (8 * Z.of_nat n) -> int_at swapped n (before ++ int_bytes swapped n x ++ after) offset = x.
Proof.
  intros -> Hx. unfold int_at. rewrite drop_app_length, take_app_length' by (symmetry; apply int_bytes_length).
  destruct swapped; cbn [int_bytes]; [by apply from_be_bytes_be_bytes|by apply from_le_bytes_le_bytes].
Qed.

Lemma encode_prefix_length h r : length (encode_prefix h r) = 16%nat.
Proof. unfold encode_prefix. by rewrite !length_app, !int_bytes_length. Qed.

Lemma encode_header_length h : length (encode_header h) = 24%nat.
Proof. unfold encode_header. by rewrite !length_app, !int_bytes_length. Qed.

Lemma prefix_fields h r :
  record_ok r ->
  u32_at h (encode_prefix h r) 0 = sr_seconds r /\ u32_at h (encode_prefix h r) 4 = sr_fraction r /\
  u32_at h (encode_prefix h r) 8 = len (sr_data r) /\ u32_at h (encode_prefix h r) 12 = sr_wire_len r.
Proof.
  unfold record_ok, in_u32, MAX_FRAME_LEN. intros (H1 & H2 & H3 & H4). unfold u32_at, encode_prefix.
  set (a := int_bytes _ _ (sr_seconds r)). set (b := int_bytes _ _ (sr_fraction r)).
  set (c := int_bytes _ _ (len (sr_data r))). set (d := int_bytes _ _ (sr_wire_len r)).
  assert (length a = 4%nat /\ length b = 4%nat /\ length c = 4%nat) as (La & Lb & Lc) by (split_and!; apply int_bytes_length).
  split_and!.
  - by apply (int_at_bytes _ 4 _ [] (b ++ c ++ d)).
  - by apply (int_at_bytes _ 4 _ a (c ++ d)).
  - rewrite (app_assoc a b). apply (int_at_bytes _ 4 _ (a ++ b) d); [by rewrite length_app, La, Lb|].
    change (2 ^ (8 * Z.of_nat 4)) with 4294967296. lia.
  - rewrite (app_assoc b c), (app_assoc a (b ++ c)), <- (app_nil_r d).
    apply (int_at_bytes _ 4 _ (a ++ b ++ c) []); [|done]. rewrite !length_app. lia.
Qed.

Lemma header_read h : header_ok h -> parse_file_header (encode_header h) = inr h.
Proof.
  destruct h as [major minor snap link nanos swapped]. unfold header_ok, in_u32. cbn [version_major version_minor snaplen link_type].
  intros (H1 & H2 & H3 & ->). unfold parse_file_header.
  assert (from_le_bytes (take 4 (encode_header (mkFileHeader major minor snap Ethernet nanos swapped))) =
          match swapped, nanos with
          | false, false => MAGIC_MICROS | false, true => MAGIC_NANOS
          | true, false => MAGIC_MICROS_SWAPPED | true, true => MAGIC_NANOS_SWAPPED
          end) as Hm.
  { unfold encode_header. cbn [nanosecond_timestamps byte_swapped]. rewrite take_app_length' by (symmetry; apply int_bytes_length).
    by destruct swapped, nanos. }
  assert (magic_kind (from_le_bytes (take 4 (encode_header (mkFileHeader major minor snap Ethernet nanos swapped)))) =
          Some (swapped, nanos)) as -> by (rewrite Hm; by destruct swapped, nanos).
  f_equal. unfold encode_header. cbn [nanosecond_timestamps byte_swapped version_major version_minor snaplen link_type link_as_raw].
  set (m := int_bytes swapped 4 _). set (a := int_bytes swapped 2 major). set (b := int_bytes swapped 2 minor).
  set (s := int_bytes swapped 4 snap). set (l := int_bytes swapped 4 1).
  assert (length m = 4%nat /\ length a = 2%nat /\ length b = 2%nat /\ length s = 4%nat) as (Lm & La & Lb & Ls)
    by (split_and!; apply int_bytes_length).
  f_equal.
  - by apply (int_at_bytes swapped 2 major m (b ++ replicate 8 0 ++ s ++ l)).
  - rewrite (app_assoc m a). apply (int_at_bytes swapped 2 minor (m ++ a) (replicate 8 0 ++ s ++ l)); [|done].
    by rewrite length_app, Lm, La.
  - rewrite (app_assoc b), (app_assoc a), (app_assoc m). apply (int_at_bytes swapped 4 snap (m ++ a ++ b ++ replicate 8 0) l); [|done].
    rewrite !length_app, length_replicate. lia.
  - rewrite (app_assoc (replicate 8 0)), (app_assoc b), (app_assoc a), (app_assoc m), <- (app_nil_r l).
    unfold l. rewrite (int_at_bytes swapped 4 1 (m ++ a ++ b ++ replicate 8 0 ++ s) []); [done| |lia].
    rewrite !length_app, length_replicate. lia.
Qed.

(** The states of a replay of [rest]: ready for the next record, with what was counted. *)
Record at_record (h : FileHeader) (rest : list Z) (packets bytes : Z) (r : PcapReplay) : Prop := {
  ar_bytes : rd_bytes (pr_reader r) = rest;
  ar_script : reliable (rd_script (pr_reader r));
  ar_header : pr_header r = h;
  ar_counters : pr_counters r = mkCaptureCounters packets bytes 0 0;
  ar_truncated : pr_truncated r = false;
  ar_finished : pr_finished r = false
}.

(** The next poll of a complete record gives its frame. *)
Lemma next_record h saved rest packets bytes r :
  at_record h (encode_record h saved ++ rest) packets bytes r -> record_ok saved ->
  exists r', next_packet r = (r', inr (CapturedFrame (frame_of h saved))) /\
    at_record h rest (packets + 1) (bytes + len (sr_data saved)) r'.
Proof.
  intros [Hb Hs Hh Hc Ht Hf] Hok. unfold next_packet. rewrite Hf. unfold read_record.
  destruct (fill_reliable (pr_reader r) RECORD_HEADER_LEN) as (script & Hs1 & ->); [done|done|].
  rewrite Hb. unfold encode_record. rewrite <- app_assoc.
  rewrite take_app_length', drop_app_length' by (by rewrite encode_prefix_length). cbn [negb].
  rewrite encode_prefix_length. change (Z.of_nat 16 =? 0) with false. change (Z.of_nat 16 <? RECORD_HEADER_LEN) with false.
  cbn iota. unfold read_frame. rewrite Hh.
  destruct (prefix_fields h saved Hok) as (-> & -> & -> & ->). destruct Hok as (_ & _ & _ & Hlen).
  rewrite (proj2 (Z.ltb_ge MAX_FRAME_LEN (len (sr_data saved)))) by lia.
  destruct (fill_reliable (mkReader (sr_data saved ++ rest) script) (len (sr_data saved))) as (script2 & Hs2 & ->); [lia|done|].
  cbn [rd_bytes]. rewrite take_app_length', drop_app_length' by lia. cbn [negb].
  rewrite Z.ltb_irrefl. rewrite Z.sub_diag. cbn [Z.to_nat replicate]. rewrite app_nil_r.
  cbn [pr_frame_len pr_buffer pr_counters pr_timestamp pr_original_len pr_reader pr_header pr_offset pr_truncated pr_finished].
  eexists. rewrite take_ge by lia. split; [reflexivity|].
  constructor; cbn; try done. rewrite Hc. done.
Qed.

(** What is left when a file is cut inside a record, or at its end: the replay ends, and says which. *)
Lemma next_cut h saved cut packets bytes r :
  at_record h cut packets bytes r -> record_ok saved -> (exists more, encode_record h saved = cut ++ more /\ more <> []) ->
  exists r', next_packet r = (r', inr CapturedEnd) /\ pr_finished r' = true /\
    pr_truncated r' = bool_decide (cut <> []) /\ pr_counters r' = pr_counters r.
Proof.
  intros [Hb Hs Hh Hc Ht Hf] Hok (more & Em & Hm). unfold next_packet. rewrite Hf. unfold read_record.
  destruct (fill_reliable (pr_reader r) RECORD_HEADER_LEN) as (script & Hs1 & ->); [done|done|]. rewrite Hb. cbn [negb].
  change (Z.to_nat RECORD_HEADER_LEN) with 16%nat. rewrite length_take.
  destruct (decide (cut = [])) as [->|Hne]; [cbn; eexists; split_and!; done|].
  rewrite (bool_decide_eq_true_2 (cut <> [])) by done. assert (1 <= len cut) by (destruct cut; [done|simpl; lia]).
  destruct (Z.eqb_spec (Z.of_nat (Nat.min 16 (length cut))) 0); [lia|].
  destruct (Z.ltb_spec (Z.of_nat (Nat.min 16 (length cut))) RECORD_HEADER_LEN) as [Hlt|Hge]; [eexists; split_and!; done|].
  unfold RECORD_HEADER_LEN in Hge. unfold encode_record in Em.
  assert (exists body, cut = encode_prefix h saved ++ body /\ sr_data saved = body ++ more) as (body & -> & Hbody).
  { exists (drop 16 cut). assert (take 16 cut = encode_prefix h saved) as <-.
    { rewrite <- (take_app_le cut more) by lia. rewrite <- Em. by rewrite take_app_length' by (by rewrite encode_prefix_length). }
    rewrite take_drop. split; [done|]. rewrite <- (drop_app_le cut more) by lia. rewrite <- Em.
    by rewrite drop_app_length' by (by rewrite encode_prefix_length). }
  rewrite take_app_length', drop_app_length' by (by rewrite encode_prefix_length). unfold read_frame. rewrite Hh.
  destruct (prefix_fields h saved Hok) as (-> & -> & -> & ->). destruct Hok as (_ & _ & _ & Hlen).
  rewrite (proj2 (Z.ltb_ge MAX_FRAME_LEN (len (sr_data saved)))) by lia.
  destruct (fill_reliable (mkReader body script) (len (sr_data saved))) as (script2 & Hs2 & ->); [lia|done|].
  cbn [rd_bytes negb]. assert (len (take (Z.to_nat (len (sr_data saved))) body) < len (sr_data saved)) as Hl.
  { rewrite length_take, Hbody, length_app. destruct more; [done|simpl; lia]. }
  rewrite (proj2 (Z.ltb_lt _ _) Hl). eexists. split_and!; done.
Qed.

Lemma polls_finished n r : pr_finished r = true -> polls n r = (r, replicate n (inr CapturedEnd)).
Proof. intros H. induction n as [|n IH]; [done|]. cbn [polls replicate]. unfold next_packet. rewrite H, IH. done. Qed.

Lemma polls_app a b r :
  polls (a + b) r = let '(r1, xs) := polls a r in let '(r2, ys) := polls b r1 in (r2, xs ++ ys).
Proof.
  revert r. induction a as [|a IH]; intros r; cbn [polls Nat.add app]; [by destruct (polls b r)|].
  destruct (next_packet r) as [r' x]. rewrite IH. destruct (polls a r') as [r1 xs]. by destruct (polls b r1).
Qed.

Lemma polls_records h saved rest packets bytes r :
  at_record h (concat (encode_record h <$> saved) ++ rest) packets bytes r -> Forall record_ok saved ->
  exists r', polls (length saved) r = (r', (fun s => inr (CapturedFrame (frame_of h s))) <$> saved) /\
    at_record h rest (packets + len saved) (bytes + zsum ((fun s => len (sr_data s)) <$> saved)) r'.
Proof.
  revert packets bytes r. induction saved as [|s saved IH]; intros packets bytes r Ha Hok.
  - exists r. split; [done|]. cbn. by rewrite !Z.add_0_r.
  - apply Forall_cons in Hok as [Hs Hok]. cbn [fmap list_fmap concat] in Ha. rewrite <- app_assoc in Ha.
    destruct (next_record _ _ _ _ _ _ Ha Hs) as (r1 & E1 & Ha1). destruct (IH _ _ _ Ha1 Hok) as (r2 & E2 & Ha2).
    exists r2. split; [cbn [length polls]; by rewrite E1, E2|].
    change (zsum _) with (len (sr_data s) + zsum ((fun s => len (sr_data s)) <$> saved)). rewrite Z.add_assoc.
    replace (packets + Z.of_nat (length (s :: saved))) with (packets + 1 + len saved) by (cbn [length]; lia). done.
Qed.

(** C40: A savefile is replayed exactly: for every header of the format, in either byte order and either timestamp resolution, and every sequence of records whose frames are within the limit, however the reads are cut or interrupted, the replay gives the frames of the records with their times and lengths, in order, and then ends for good. When the file stops inside a further record, at any byte of it, the complete records are delivered all the same and the replay is reported truncated; at a record boundary it is not. *)
Theorem savefile_roundtrip h saved torn cut more script k :
  header_ok h -> Forall record_ok saved -> record_ok torn -> encode_record h torn = cut ++ more -> more <> [] -> reliable script ->
  exists r r', from_reader (mkReader (encode_header h ++ concat (encode_record h <$> saved) ++ cut) script) = inr r /\
    pr_header r = h /\
    polls (length saved + S k) r =
      (r', ((fun s => inr (CapturedFrame (frame_of h s))) <$> saved) ++ replicate (S k) (inr CapturedEnd)) /\
    pr_truncated r' = bool_decide (cut <> []) /\
    pr_counters r' = mkCaptureCounters (len saved) (zsum ((fun s => len (sr_data s)) <$> saved)) 0 0.
Proof.
  intros Hh Hok Ht Em Hm Hs. unfold from_reader.
  destruct (fill_reliable (mkReader (encode_header h ++ concat (encode_record h <$> saved) ++ cut) script) FILE_HEADER_LEN)
    as (script1 & Hs1 & ->); [done|done|]. cbn [rd_bytes].
  rewrite take_app_length', drop_app_length' by (by rewrite encode_header_length).
  rewrite encode_header_length. change (Z.of_nat 24 <? FILE_HEADER_LEN) with false. cbn iota.
  rewrite header_read by done. destruct Hh as (_ & _ & _ & Hl). rewrite decide_True by done.
  set (r := mkPcapReplay _ _ _ _ _ _ _ _ _ _).
  assert (at_record h (concat (encode_record h <$> saved) ++ cut) 0 0 r) as Ha by (by constructor).
  destruct (polls_records _ _ _ _ _ _ Ha Hok) as (r1 & E1 & Ha1).
  destruct (next_cut h torn cut _ _ _ Ha1 Ht) as (r2 & E2 & Hf & Htr & Hc); [by exists more|].
  exists r, r2. split_and!; [done|done| |done|by rewrite Hc, (ar_counters _ _ _ _ _ Ha1)].
  rewrite polls_app, E1. cbn [polls]. by rewrite E2, polls_finished by done.
Qed.

(** ** Any file *)

Definition is_byte (b : Z) : Prop := 0 <= b < 256.

Definition result_frame (result : CaptureError + Captured) : option RawPacket :=
  match result with inr (CapturedFrame p) => Some p | _ => None end.

Definition frames (results : list (CaptureError + Captured)) : list RawPacket := omap result_frame results.

(** What is known of a frame that was read. *)
Definition frame_ok (p : RawPacket) : Prop :=
  len (rp_data p) <= MAX_FRAME_LEN /\ len (rp_data p) <= rp_original_len p < 2 ^ 32 /\ 0 <= rp_timestamp p < 2 ^ 63 /\
  Forall is_byte (rp_data p).

(** The bytes that [r] has still to read are the end of those of [r0]; its buffer is bounded. *)
Record replaying (file : list Z) (r : PcapReplay) : Prop := {
  rp_suffix : exists before, file = before ++ rd_bytes (pr_reader r);
  rp_buffer : len (pr_buffer r) <= MAX_FRAME_LEN
}.

Lemma int_at_range swapped n raw offset :
  Forall is_byte raw -> 0 <= int_at swapped n raw offset < 2 ^ (8 * Z.of_nat n).
Proof.
  intros Hr. unfold int_at. assert (Forall is_byte (take n (drop offset raw))) as Hw by (by apply Forall_take, Forall_drop).
  assert (2 ^ (8 * len (take n (drop offset raw))) <= 2 ^ (8 * Z.of_nat n)) by (apply Z.pow_le_mono_r; [lia|rewrite length_take; lia]).
  destruct swapped.
  - pose proof (from_be_bytes_range _ Hw). lia.
  - unfold from_le_bytes. pose proof (from_be_bytes_range (reverse (take n (drop offset raw)))) as H1.
    rewrite length_reverse in H1. specialize (H1 ltac:(by apply Forall_reverse)). lia.
Qed.

Lemma u32_at_range h raw offset : Forall is_byte raw -> 0 <= u32_at h raw offset < 2 ^ 32.
Proof. intros Hr. exact (int_at_range (byte_swapped h) 4 raw offset Hr). Qed.

Lemma fill_split r want reader got ok :
  fill r want = (reader, got, ok) -> rd_bytes r = got ++ rd_bytes reader /\ len got <= Z.max 0 want.
Proof. intros E. apply fill_from_split in E as (H1 & H2 & _). split; [done|lia]. Qed.

Lemma timestamp_range h seconds fraction :
  0 <= seconds < 2 ^ 32 -> 0 <= fraction < 2 ^ 32 -> 0 <= seconds * 1000000000 + fraction_nanos h fraction < 2 ^ 63.
Proof. intros. unfold fraction_nanos, U32_MAX. destruct (nanosecond_timestamps h); lia. Qed.

Lemma read_frame_spec r raw reader r' result :
  Forall is_byte raw -> Forall is_byte (rd_bytes reader) -> len (pr_buffer r) <= MAX_FRAME_LEN ->
  read_frame r raw reader = (r', result) ->
  pr_counters r' = pr_counters r /\ pr_finished r' = pr_finished r /\ len (pr_buffer r') <= MAX_FRAME_LEN /\
  (exists got, rd_bytes reader = got ++ rd_bytes (pr_reader r') /\
    (result = inr true -> pr_buffer r' = got /\ pr_frame_len r' = len got /\
       frame_ok (mkRawPacket (pr_timestamp r') got (pr_original_len r')))).
Proof.
  intros Hr Hb Hbuf E. unfold read_frame in E.
  pose proof (u32_at_range (pr_header r) raw 0 Hr). pose proof (u32_at_range (pr_header r) raw 4 Hr).
  pose proof (u32_at_range (pr_header r) raw 8 Hr). pose proof (u32_at_range (pr_header r) raw 12 Hr).
  set (captured := u32_at (pr_header r) raw 8) in *. destruct (Z.ltb_spec MAX_FRAME_LEN captured) as [Hl|Hl].
  - injection E as <- <-. split_and!; [done..|]. exists []. done.
  - destruct (fill reader captured) as [[reader' got] ok] eqn:Ef. apply fill_split in Ef as [Hgot Hlen].
    assert (len (got ++ replicate (Z.to_nat (captured - len got)) 0) = captured) as Hbl
      by (rewrite length_app, length_replicate; lia).
    destruct (negb ok); [injection E as <- <-; cbn; split_and!; [done|done|lia|]; by exists got|].
    destruct (Z.ltb_spec (len got) captured); injection E as <- <-; cbn [pr_counters pr_finished pr_buffer pr_reader pr_frame_len pr_timestamp pr_original_len];
      (split_and!; [done|done|lia|]); exists got; [done|].
    split; [done|]. intros _. assert (captured = len got) as Hc by lia. rewrite Hc in *. rewrite Z.sub_diag. cbn [Z.to_nat replicate].
    rewrite app_nil_r. split_and!; [done|done|]. unfold frame_ok. cbn [rp_data rp_original_len rp_timestamp].
    split_and!; [lia|lia|lia|apply timestamp_range; done|apply timestamp_range; done|].
    rewrite Hgot in Hb. by apply Forall_app in Hb as [? _].
Qed.

Lemma next_packet_spec r r' result :
  Forall is_byte (rd_bytes (pr_reader r)) -> len (pr_buffer r) <= MAX_FRAME_LEN -> next_packet r = (r', result) ->
  len (pr_buffer r') <= MAX_FRAME_LEN /\
  (exists read, rd_bytes (pr_reader r) = read ++ rd_bytes (pr_reader r') /\
    match result with
    | inr (CapturedFrame p) =>
        frame_ok p /\ (exists prefix, length prefix = 16%nat /\ read = prefix ++ rp_data p) /\
        cc_packets (pr_counters r') = cc_packets (pr_counters r) + 1 /\
        cc_bytes (pr_counters r') = cc_bytes (pr_counters r) + len (rp_data p)
    | inr CapturedIdle => False
    | inr CapturedEnd => pr_finished r' = true /\ pr_counters r' = pr_counters r
    | inl _ => pr_counters r' = pr_counters r
    end).
Proof.
  intros Hb Hbuf E. unfold next_packet in E. destruct (pr_finished r) eqn:Efin; [injection E as <- <-; split; [done|]; by exists []|].
  unfold read_record in E. destruct (fill (pr_reader r) RECORD_HEADER_LEN) as [[reader raw] ok] eqn:Ef.
  apply fill_split in Ef as [Hraw Hlen]. rewrite Hraw in Hb. apply Forall_app in Hb as [Hb1 Hb2].
  destruct (negb ok); [injection E as <- <-; split; [done|]; by exists raw|].
  destruct (len raw =? 0); [injection E as <- <-; split; [done|]; by exists raw|].
  destruct (Z.ltb_spec (len raw) RECORD_HEADER_LEN); [injection E as <- <-; split; [done|]; by exists raw|].
  destruct (read_frame r raw reader) as [r1 result1] eqn:Er.
  destruct (read_frame_spec _ _ _ _ _ Hb1 Hb2 Hbuf Er) as (Hc & Hf & Hb & got & Hgot & Hframe).
  destruct result1 as [e|[]]; injection E as <- <-; cbn [pr_buffer pr_reader pr_finished pr_counters]; (split; [done|]);
    exists (raw ++ got); rewrite <- app_assoc, <- Hgot; (split; [done|]); [done| |done].
  destruct (Hframe eq_refl) as (E1 & E2 & Hok). rewrite E1, E2. rewrite take_ge by lia. split_and!; [done| |cbn; by rewrite Hc|cbn; by rewrite Hc].
  exists raw. split; [|done]. unfold RECORD_HEADER_LEN in *. lia.
Qed.

Definition frames_bytes (ps : list RawPacket) : Z := zsum ((fun p => len (rp_data p)) <$> ps).

Lemma polls_bounded n r r' results :
  Forall is_byte (rd_bytes (pr_reader r)) -> len (pr_buffer r) <= MAX_FRAME_LEN -> polls n r = (r', results) ->
  16 * len (frames results) + frames_bytes (frames results) + len (rd_bytes (pr_reader r')) <= len (rd_bytes (pr_reader r)) /\
  Forall frame_ok (frames results) /\ len (pr_buffer r') <= MAX_FRAME_LEN /\
  cc_packets (pr_counters r') = cc_packets (pr_counters r) + len (frames results) /\
  cc_bytes (pr_counters r') = cc_bytes (pr_counters r) + frames_bytes (frames results) /\
  (Forall (fun x => match x with inr _ => True | inl _ => False end) results ->
   pr_finished r' = false -> len (frames results) = Z.of_nat n).
Proof.
  revert r results. induction n as [|n IH]; intros r results Hb Hbuf E; cbn [polls] in E.
  - injection E as <- <-. cbn. split_and!; (done || lia).
  - destruct (next_packet r) as [r1 x] eqn:E1. destruct (polls n r1) as [r2 xs] eqn:E2. injection E as <- <-.
    destruct (next_packet_spec _ _ _ Hb Hbuf E1) as (Hbuf1 & read & Hread & Hx). rewrite Hread in Hb |- *.
    apply Forall_app in Hb as [_ Hb1]. destruct (IH _ _ Hb1 Hbuf1 E2) as (I1 & I2 & I3 & I4 & I5 & I6). rewrite length_app.
    destruct x as [e|[p| |]]; unfold frames in *; cbn [omap list_omap result_frame].
    + rewrite Hx in *. split_and!; [lia|done|done|done|done|]. intros Hall. by apply Forall_inv in Hall.
    + destruct Hx as (Hp & (prefix & Hpl & ->) & Hc1 & Hc2). change (frames_bytes (p :: ?xs)) with (len (rp_data p) + frames_bytes xs).
      rewrite length_app. cbn [length]. split_and!; [lia|by constructor|done|lia|lia|]. intros Hall Hfin.
      apply Forall_cons in Hall as [_ Hall]. specialize (I6 Hall Hfin). lia.
    + done.
    + destruct Hx as [Hfin Hc]. rewrite Hc in *. split_and!; [lia|done|done|done|done|]. intros _ Hf2.
      rewrite polls_finished in E2 by done. injection E2 as <- <-. congruence.
Qed.

Lemma from_reader_spec file script r :
  from_reader (mkReader file script) = inr r ->
  exists header, file = header ++ rd_bytes (pr_reader r) /\ length header = 24%nat /\ pr_buffer r = [] /\
    pr_counters r = mkCaptureCounters 0 0 0 0.
Proof.
  unfold from_reader. destruct (fill _ _) as [[reader raw] ok] eqn:Ef. apply fill_split in Ef as [H1 H2].
  destruct ok; [|done]. destruct (Z.ltb_spec (len raw) FILE_HEADER_LEN); [done|].
  destruct (parse_file_header raw) as [e|h]; [done|]. case_decide; [|done]. intros [= <-].
  exists raw. unfold FILE_HEADER_LEN in *. split_and!; [done|lia|done|done].
Qed.

(** Whatever bytes a file holds and however its reads behave, replaying it is bounded: every frame is at most the limit long and no longer than its length on the wire, its time fits signed 64-bit nanoseconds, the buffer never exceeds the limit, the frames and their sixteen-byte prefixes together fit in the file, the counters are exact, and once there were more polls than the file has room for without an error, the replay is finished. *)
Theorem replay_bounded file script r n r' results :
  Forall is_byte file -> from_reader (mkReader file script) = inr r -> polls n r = (r', results) ->
  16 * len (frames results) + frames_bytes (frames results) <= len file - 24 /\ Forall frame_ok (frames results) /\
  len (pr_buffer r') <= MAX_FRAME_LEN /\
  cc_packets (pr_counters r') = len (frames results) /\ cc_bytes (pr_counters r') = frames_bytes (frames results) /\
  (Forall (fun x => match x with inr _ => True | inl _ => False end) results -> len file < 16 * Z.of_nat n -> pr_finished r' = true).
Proof.
  intros Hb Ef Ep. apply from_reader_spec in Ef as (header & -> & Hl & Ebuf & Ec). apply Forall_app in Hb as [_ Hb].
  destruct (polls_bounded n r r' results Hb ltac:(by rewrite Ebuf) Ep) as (H1 & H2 & H3 & H4 & H5 & H6).
  rewrite Ec in H4, H5. rewrite length_app, Hl. cbn [cc_packets cc_bytes] in *.
  assert (0 <= frames_bytes (frames results)) by (unfold frames_bytes; apply zsum_nonneg; apply Forall_fmap, Forall_forall; intros; cbn; lia).
  split_and!; [lia|done|done|lia|lia|]. intros Hall Hn. destruct (pr_finished r') eqn:Ef; [done|]. specialize (H6 Hall eq_refl). lia.
Qed.

(** ** The hypotheses can hold *)

Definition small_header : FileHeader := mkFileHeader 2 4 65535 Ethernet false true.
Definition small_saved : list SavedRecord := [mkSavedRecord 1700000000 250 60 [1; 2; 3]; mkSavedRecord 1700000001 5000000 0 []].
Definition torn_saved : SavedRecord := mkSavedRecord 1700000002 0 4 [9; 9; 9; 9].
Definition small_script : list ReadOutcome := [Gives 7; Interrupted; Gives 100; Gives 1].

Definition torn_file : list Z :=
  encode_header small_header ++ concat (encode_record small_header <$> small_saved) ++
  take 17 (encode_record small_header torn_saved).

Lemma savefile_roundtrip_witness :
  exists r r', from_reader (mkReader torn_file small_script) = inr r /\
    polls 4 r = (r', [inr (CapturedFrame (mkRawPacket 1700000000000250000 [1; 2; 3] 60));
                      inr (CapturedFrame (mkRawPacket 1700000005294967295 [] 0)); inr CapturedEnd; inr CapturedEnd]) /\
    pr_truncated r' = true.
Proof.
  destruct (savefile_roundtrip small_header small_saved torn_saved (take 17 (encode_record small_header torn_saved)) [9; 9; 9]
    small_script 1) as (r & r' & H1 & _ & H2 & H3 & _).
  - unfold header_ok, in_u32. cbn. repeat split; (lia || reflexivity).
  - repeat constructor; unfold record_ok, in_u32, MAX_FRAME_LEN; cbn; repeat split; lia.
  - unfold record_ok, in_u32, MAX_FRAME_LEN. cbn. repeat split; lia.
  - reflexivity.
  - discriminate.
  - unfold reliable, small_script. intros Hin. rewrite !elem_of_cons, elem_of_nil in Hin.
    destruct Hin as [E|[E|[E|[E|[]]]]]; discriminate E.
  - exists r, r'. split; [exact H1|]. split; [exact H2|]. rewrite H3. reflexivity.
Defined.

Definition lying_file : list Z :=
  encode_header small_header ++ int_bytes true 4 0 ++ int_bytes true 4 0 ++ int_bytes true 4 0xffffffff ++ int_bytes true 4 0.

Lemma replay_bounded_witness :
  exists r, from_reader (mkReader lying_file []) = inr r /\ snd (polls 1 r) = [inl (RecordTooLarge 24 0xffffffff)] /\
    len (pr_buffer (fst (polls 1 r))) <= MAX_FRAME_LEN.
Proof.
  destruct (from_reader (mkReader lying_file [])) as [e|r] eqn:E; [discriminate E|]. exists r. split; [reflexivity|].
  destruct (polls 1 r) as [r' results] eqn:Ep.
  destruct (replay_bounded lying_file [] r 1 r' results) as (_ & _ & H & _); [repeat constructor; discriminate|exact E|exact Ep|].
  split; [|exact H]. injection E as <-. injection Ep as _ <-. reflexivity.
Defined.
