(* ===== verification/Capture.v ===== *)
(** Sources of frames: the trait [PacketSource] of [crates/capture/src/lib.rs], and live capture,
    [crates/capture/src/live.rs].

    The [pcap] crate is the class [Pcap]: opening a device, a handle, and what a call on the handle
    answers. A time is nanoseconds since the epoch. [debug] is the debug formatting of a string, which
    only appears in messages. *)

From S2P Require Import Prelude Text Replay.

(** ** The trait *)

Class PacketSource (S : Type) := {
  source_next : S -> S * (CaptureError + Captured);
  source_counters : S -> S * CaptureCounters;
  source_link_type : S -> LinkType;
  source_name : S -> text
}.

Definition CaptureCounters_default : CaptureCounters := mkCaptureCounters 0 0 0 0.

(** [drop_rate]: the dividend and the divisor of the quotient, which is rounded to a float. *)
Definition drop_rate (c : CaptureCounters) : Z * Z :=
  let offered := cc_packets c + cc_drops c + cc_interface_drops c in
  if offered =? 0 then (0, 1) else (cc_drops c + cc_interface_drops c, offered).

(** What every source owes its caller, for the states [ok] it can be in: the frames and bytes it
    counts are those it handed over, each frame is bytes at a representable time, asking for the
    counters changes none of them, and its name never changes. *)
Class SourceLaws (S : Type) `{PacketSource S} (ok : S -> Prop) : Prop := {
  next_ok s s' r : ok s -> source_next s = (s', r) -> ok s' /\ source_name s' = source_name s;
  next_counts s s' r :
    ok s -> source_next s = (s', r) ->
    cc_packets (source_counters s').2 = cc_packets (source_counters s).2 + len (frames [r]) /\
    cc_bytes (source_counters s').2 = cc_bytes (source_counters s).2 + frames_bytes (frames [r]);
  next_bytes s s' r : ok s -> source_next s = (s', r) -> Forall (fun p => Forall in_u8 (rp_data p)) (frames [r]);
  counters_ok s :
    ok s -> ok (source_counters s).1 /\ source_name (source_counters s).1 = source_name s /\
    cc_packets (source_counters (source_counters s).1).2 = cc_packets (source_counters s).2 /\
    cc_bytes (source_counters (source_counters s).1).2 = cc_bytes (source_counters s).2
}.

(** ** Replay is one *)

(** The replay with the name it was opened with. *)
Record NamedReplay := mkNamedReplay {
  nr_name : text;
  nr_replay : PcapReplay
}.

#[global] Instance replay_source : PacketSource NamedReplay := {
  source_next s := let '(r, result) := Replay.next_packet (nr_replay s) in (mkNamedReplay (nr_name s) r, result);
  source_counters s := (s, pr_counters (nr_replay s));
  source_link_type s := link_type (pr_header (nr_replay s));
  source_name s := nr_name s
}.

(** ** Live capture *)

Record LiveOptions := mkLiveOptions {
  lo_interface : option text;
  lo_snaplen : Z;
  lo_promiscuous : bool;
  lo_bpf_filter : option text;
  lo_poll_timeout_ms : Z;
  lo_buffer_size_bytes : option Z
}.

Definition LiveOptions_default : LiveOptions := mkLiveOptions None 65535 true None 250 None.

(** What the builder is told before it opens the device. *)
Record PcapRequest := mkPcapRequest {
  rq_device : text;
  rq_promisc : bool;
  rq_snaplen : Z;
  rq_timeout : Z;
  rq_immediate : bool;
  rq_buffer : option Z
}.

(** What a handle answers to [next_packet]. *)
Inductive PcapNext :=
| PcapPacket (tv_sec tv_usec : Z) (data : list Z) (wire_len : Z)
| TimeoutExpired
| NoMorePackets
| PcapError (message : text).

Class Pcap := {
  Handle : Type;
  pcap_list : text + list text;
  pcap_lookup : text + option text;
  pcap_from_device : text -> text + unit;
  pcap_open : PcapRequest -> text + Handle;
  pcap_setnonblock : Handle -> text + Handle;
  pcap_filter : Handle -> text -> text + Handle;
  pcap_datalink : Handle -> Z;
  pcap_next : Handle -> Handle * PcapNext;
  pcap_stats : Handle -> Handle * option (Z * Z)
}.

Definition I32_MAX : Z := 2147483647.

Section live.
Context {PC : Pcap} (debug : text -> text).

Record LiveCapture := mkLiveCapture {
  lc_handle : Handle;
  lc_name : text;
  lc_link_type : LinkType;
  lc_packets : Z;
  lc_bytes : Z
}.

Fixpoint join_devices (l : list text) : text :=
  match l with [] => [] | [d] => d | d :: l' => d ++ of_string ", " ++ join_devices l' end.

Definition select_device (interface : option text) : CaptureError + text :=
  match interface with
  | Some wanted =>
      match pcap_list with
      | inl error => inl (Backend (of_string "listing capture devices: " ++ error))
      | inr devices =>
          if bool_decide (wanted ∈ devices) then inr wanted
          else inl (Backend (of_string "no capture device named " ++ debug wanted ++ of_string "; available: " ++ join_devices devices))
      end
  | None =>
      match pcap_lookup with
      | inl error => inl (Backend (of_string "finding a default device: " ++ error))
      | inr None => inl (Backend (of_string "no capture device is available on this host"))
      | inr (Some device) => inr device
      end
  end.

(** The negative numbers of a data link that is none become the largest one. *)
Definition raw_link_type (datalink : Z) : Z := if 0 <=? datalink then datalink else U32_MAX.

(** The end of [open]: only Ethernet can be decoded. *)
Definition accept_link (name : text) (handle : Handle) : CaptureError + LiveCapture :=
  let link := link_from_raw (raw_link_type (pcap_datalink handle)) in
  if bool_decide (link = Ethernet) then inr (mkLiveCapture handle name link 0 0)
  else inl (UnsupportedLinkType (link_as_raw link)).

Definition live_open (options : LiveOptions) : CaptureError + LiveCapture :=
  name ← select_device (lo_interface options);
  _ ← map_err (fun error => Backend (of_string "selecting a capture device: " ++ error)) (pcap_from_device name);
  let snaplen := if lo_snaplen options <=? I32_MAX then lo_snaplen options else I32_MAX in
  let request := mkPcapRequest name (lo_promiscuous options) snaplen (lo_poll_timeout_ms options) true (lo_buffer_size_bytes options) in
  handle ← map_err (fun error => Backend (of_string "opening " ++ name ++ of_string ": " ++ error ++
    of_string " (live capture needs CAP_NET_RAW; try running under the shipped systemd unit)")) (pcap_open request);
  handle ← map_err (fun error => Backend (of_string "setting " ++ name ++ of_string " non-blocking: " ++ error)) (pcap_setnonblock handle);
  handle ← match lo_bpf_filter options with
           | None => inr handle
           | Some filter =>
               map_err (fun error => Backend (of_string "BPF filter " ++ debug filter ++ of_string ": " ++ error)) (pcap_filter handle filter)
           end;
  accept_link name handle.

(** [timeval_to_system_time]: both fields are clamped. *)
Definition timeval_to_system_time (seconds microseconds : Z) : Z :=
  if seconds <? 0 then 0
  else seconds * 1000000000 + Z.min 999999 (Z.max 0 microseconds) * 1000.

Definition live_next (c : LiveCapture) : LiveCapture * (CaptureError + Captured) :=
  match pcap_next (lc_handle c) with
  | (h, PcapPacket tv_sec tv_usec data wire_len) =>
      (mkLiveCapture h (lc_name c) (lc_link_type c) (lc_packets c + 1) (lc_bytes c + len data),
       inr (CapturedFrame (mkRawPacket (timeval_to_system_time tv_sec tv_usec) data wire_len)))
  | (h, TimeoutExpired) => (mkLiveCapture h (lc_name c) (lc_link_type c) (lc_packets c) (lc_bytes c), inr CapturedIdle)
  | (h, NoMorePackets) => (mkLiveCapture h (lc_name c) (lc_link_type c) (lc_packets c) (lc_bytes c), inr CapturedEnd)
  | (h, PcapError message) => (mkLiveCapture h (lc_name c) (lc_link_type c) (lc_packets c) (lc_bytes c), inl (Backend message))
  end.

Definition live_counters (c : LiveCapture) : LiveCapture * CaptureCounters :=
  let '(h, stats) := pcap_stats (lc_handle c) in
  let '(drops, interface_drops) := match stats with Some s => s | None => (0, 0) end in
  (mkLiveCapture h (lc_name c) (lc_link_type c) (lc_packets c) (lc_bytes c),
   mkCaptureCounters (lc_packets c) (lc_bytes c) drops interface_drops).

#[global] Instance live_source : PacketSource LiveCapture := {
  source_next := live_next;
  source_counters := live_counters;
  source_link_type := lc_link_type;
  source_name := lc_name
}.
End live.

(** ** Both sources keep the laws *)

Definition replay_ok (s : NamedReplay) : Prop :=
  Forall is_byte (rd_bytes (pr_reader (nr_replay s))) /\ len (pr_buffer (nr_replay s)) <= MAX_FRAME_LEN.

#[global] Instance replay_laws : SourceLaws NamedReplay replay_ok.
Proof.
  assert (forall s s' r, replay_ok s -> source_next s = (s', r) ->
    replay_ok s' /\ source_name s' = source_name s /\
    cc_packets (source_counters s').2 = cc_packets (source_counters s).2 + len (frames [r]) /\
    cc_bytes (source_counters s').2 = cc_bytes (source_counters s).2 + frames_bytes (frames [r]) /\
    Forall (fun p => Forall in_u8 (rp_data p)) (frames [r])) as Hnext.
  { intros s s' r [Hb Hl] E. cbn in E. destruct (Replay.next_packet (nr_replay s)) as [r1 x] eqn:E1. injection E as <- <-.
    destruct (next_packet_spec _ _ _ Hb Hl E1) as (Hl1 & read & Hread & Hx). rewrite Hread in Hb. apply Forall_app in Hb as [_ Hb].
    split; [by split|]. split; [done|]. cbn [source_counters replay_source snd nr_replay]. unfold frames, frames_bytes.
    destruct x as [e|[p| |]]; cbn.
    - rewrite Hx. split_and!; [lia|lia|constructor].
    - destruct Hx as ((_ & _ & _ & Hp) & _ & Hc1 & Hc2). split_and!; [lia|lia|]. constructor; [|constructor].
      eapply Forall_impl; [exact Hp|]. unfold is_byte, in_u8. lia.
    - done.
    - destruct Hx as [_ Hx]. rewrite Hx. split_and!; [lia|lia|constructor]. }
  split; [intros s s' r Ho E; destruct (Hnext s s' r Ho E) as (? & ? & _); done| | |done];
    intros s s' r Ho E; by destruct (Hnext s s' r Ho E) as (_ & _ & ? & ? & ?).
Qed.

(** The types of what the crate gives: a packet is bytes, a field of a [timeval] is a signed 64-bit
    number, and the drop counters are unsigned 32-bit ones. *)
Class PcapTyped `{Pcap} : Prop := {
  packet_typed h h' tv_sec tv_usec data wire_len :
    pcap_next h = (h', PcapPacket tv_sec tv_usec data wire_len) ->
    Forall in_u8 data /\ - 2 ^ 63 <= tv_sec < 2 ^ 63 /\ - 2 ^ 63 <= tv_usec < 2 ^ 63 /\ in_u32 wire_len;
  stats_typed h h' drops interface_drops :
    pcap_stats h = (h', Some (drops, interface_drops)) -> in_u32 drops /\ in_u32 interface_drops
}.

Section live_facts.
Context {PC : Pcap} {PT : PcapTyped} (debug : text -> text).

#[global] Instance live_laws : SourceLaws LiveCapture (fun _ => True).
Proof.
  split.
  - intros s s' r _ E. cbn in E. unfold live_next in E. destruct (pcap_next _) as [h []]; injection E as <- <-; done.
  - intros s s' r _ E. cbn in E |- *. unfold live_next, live_counters in *. destruct (pcap_next _) as [h []]; injection E as <- <-;
      destruct (pcap_stats _) as [? [[]|]], (pcap_stats _) as [? [[]|]]; unfold frames_bytes; cbn; lia.
  - intros s s' r _ E. cbn in E. unfold live_next in E. destruct (pcap_next _) as [h []] eqn:Eh; injection E as <- <-; repeat constructor.
    by apply packet_typed in Eh as [? _].
  - intros s _. cbn. unfold live_counters. destruct (pcap_stats (lc_handle s)) as [h [[]|]]; cbn; destruct (pcap_stats h) as [? [[]|]]; done.
Qed.

(** The times the clamped fields can give. *)
Lemma timeval_range tv_sec tv_usec :
  tv_sec < 2 ^ 63 -> 0 <= timeval_to_system_time tv_sec tv_usec < 2 ^ 63 * 1000000000.
Proof. intros Hs. unfold timeval_to_system_time. destruct (Z.ltb_spec tv_sec 0); lia. Qed.

Lemma timeval_exact tv_sec tv_usec :
  0 <= tv_sec -> 0 <= tv_usec < 1000000 -> timeval_to_system_time tv_sec tv_usec = (tv_sec * 1000000 + tv_usec) * 1000.
Proof. intros Hs Hu. unfold timeval_to_system_time. rewrite (proj2 (Z.ltb_ge _ _)) by lia. lia. Qed.

Lemma accept_link_spec name h :
  match accept_link name h with
  | inr c => c = mkLiveCapture h name Ethernet 0 0 /\ pcap_datalink h = 1
  | inl e => e = UnsupportedLinkType (raw_link_type (pcap_datalink h)) /\ pcap_datalink h <> 1
  end.
Proof.
  unfold accept_link, link_from_raw, raw_link_type. destruct (Z.leb_spec 0 (pcap_datalink h)).
  - destruct (Z.eqb_spec (pcap_datalink h) 1) as [E|E]; cbn; [by rewrite E|done].
  - cbn. split; [done|lia].
Qed.

Lemma live_open_starts options c : live_open debug options = inr c -> lc_packets c = 0 /\ lc_bytes c = 0.
Proof.
  unfold live_open. intros E. repeat (apply bind_ok in E as (? & _ & E)). unfold accept_link in E. case_bool_decide; [|done]. by injection E as <-.
Qed.

(** A live capture that opens is one the sensor can use, and one that cannot be used says why. Opening succeeds only on an interface that carries Ethernet, which when one was asked for by name is that one and one the host has; the handle was put in non-blocking mode and then given the filter, if any; a data link of any other kind, a nonsensical negative number included, is refused with its number. *)
Theorem live_open_exact options :
  match live_open debug options with
  | inr c =>
      lc_link_type c = Ethernet /\ lc_packets c = 0 /\ lc_bytes c = 0 /\
      (forall wanted, lo_interface options = Some wanted ->
         lc_name c = wanted /\ exists devices, pcap_list = inr devices /\ wanted ∈ devices) /\
      (exists opened unblocked, pcap_setnonblock opened = inr unblocked /\
         match lo_bpf_filter options with Some f => pcap_filter unblocked f = inr (lc_handle c) | None => lc_handle c = unblocked end) /\
      pcap_datalink (lc_handle c) = 1
  | inl (UnsupportedLinkType link) => exists h, pcap_datalink h <> 1 /\ link = raw_link_type (pcap_datalink h)
  | inl error => exists message, error = Backend message
  end.
Proof.
  unfold live_open. destruct (select_device debug (lo_interface options)) as [e|name] eqn:Es.
  { cbn. unfold select_device in Es. destruct (lo_interface options), pcap_list, pcap_lookup as [|[]];
      try (injection Es as <-; by eexists); try (case_bool_decide; [done|injection Es as <-; by eexists]); done. }
  assert (forall wanted, lo_interface options = Some wanted -> name = wanted /\ exists devices, pcap_list = inr devices /\ wanted ∈ devices) as Hn.
  { intros wanted Ew. unfold select_device in Es. rewrite Ew in Es. destruct pcap_list as [|devices]; [done|].
    case_bool_decide; [|done]. injection Es as <-. by eauto. }
  cbn. destruct (pcap_from_device name) as [e|[]]; [by eexists|]. cbn.
  destruct (pcap_open _) as [e|opened]; [by eexists|]. cbn. destruct (pcap_setnonblock opened) as [e|unblocked] eqn:Eu; [by eexists|]. cbn.
  destruct (lo_bpf_filter options) as [f|]; cbn.
  - destruct (pcap_filter unblocked f) as [e|h] eqn:Ef; [by eexists|]. cbn. pose proof (accept_link_spec name h) as Hlink.
    destruct (accept_link name h) as [e|c]; destruct Hlink as [-> H1]; cbn; [eauto|split_and!; (done || eauto)].
  - pose proof (accept_link_spec name unblocked) as Hlink.
    destruct (accept_link name unblocked) as [e|c]; destruct Hlink as [-> H1]; cbn; [eauto|split_and!; (done || eauto)].
Qed.

Lemma live_next_time c c' p :
  live_next c = (c', inr (CapturedFrame p)) -> 0 <= rp_timestamp p < 2 ^ 63 * 1000000000 /\ in_u32 (rp_original_len p).
Proof.
  unfold live_next. destruct (pcap_next (lc_handle c)) as [h []] eqn:E; intros [= <- <-]. apply packet_typed in E as (_ & H1 & _ & H2).
  split; [by apply timeval_range; destruct H1|done].
Qed.
End live_facts.

(** ** A run of polls, with the counters asked for in between *)

Inductive polled {S : Type} `{PacketSource S} : S -> list (CaptureError + Captured) -> S -> Prop :=
| polled_nil s : polled s [] s
| polled_next s s1 r rs s2 : source_next s = (s1, r) -> polled s1 rs s2 -> polled s (r :: rs) s2
| polled_counters s rs s2 : polled (source_counters s).1 rs s2 -> polled s rs s2.

Lemma polled_app {S : Type} `{PacketSource S} (s1 s2 s3 : S) rs1 rs2 :
  polled s1 rs1 s2 -> polled s2 rs2 s3 -> polled s1 (rs1 ++ rs2) s3.
Proof. induction 1 as [s|s t r rs u E _ IH|s rs u _ IH]; intros H3; cbn; [done|eapply polled_next; [exact E|by apply IH]|apply polled_counters; by apply IH]. Qed.

Lemma frames_app rs1 rs2 : frames (rs1 ++ rs2) = frames rs1 ++ frames rs2.
Proof. apply omap_app. Qed.

Lemma frames_bytes_app ps1 ps2 : frames_bytes (ps1 ++ ps2) = frames_bytes ps1 + frames_bytes ps2.
Proof. unfold frames_bytes. by rewrite fmap_app, zsum_app. Qed.

Lemma polled_counts {S : Type} `{SourceLaws S ok} s rs s' :
  polled s rs s' -> ok s ->
  ok s' /\ source_name s' = source_name s /\ Forall (fun p => Forall in_u8 (rp_data p)) (frames rs) /\
  cc_packets (source_counters s').2 = cc_packets (source_counters s).2 + len (frames rs) /\
  cc_bytes (source_counters s').2 = cc_bytes (source_counters s).2 + frames_bytes (frames rs).
Proof.
  induction 1 as [s|s s1 r rs s2 E1 _ IH|s rs s2 _ IH]; intros Ho.
  - unfold frames_bytes. cbn. split_and!; (done || lia || constructor).
  - destruct (next_ok s s1 r Ho E1) as [Ho1 N1]. destruct (next_counts s s1 r Ho E1) as [P1 B1]. pose proof (next_bytes s s1 r Ho E1) as F1.
    destruct (IH Ho1) as (Ho3 & N3 & F3 & P3 & B3). change (r :: rs) with ([r] ++ rs). rewrite frames_app, frames_bytes_app, length_app.
    split_and!; [done|congruence|by apply Forall_app|lia|lia].
  - destruct (counters_ok s Ho) as (Ho2 & N2 & P2 & B2). destruct (IH Ho2) as (Ho3 & N3 & F3 & P3 & B3).
    split_and!; [done|congruence|done|lia|lia].
Qed.

(** A replay is polled as it is by itself. *)
Lemma polled_replay (s s' : NamedReplay) rs :
  polled s rs s' -> polls (length rs) (nr_replay s) = (nr_replay s', rs).
Proof.
  induction 1 as [s|s s1 r rs s2 E1 _ IH|s rs s2 _ IH]; [done| |done]. cbn [length polls]. cbn in E1.
  destruct (Replay.next_packet (nr_replay s)) as [r1 x]. injection E1 as <- <-. cbn in IH. by rewrite IH.
Qed.

(** A live capture counts what it hands over. From its opening on, after any number of polls, whatever the handle answers and although the counters are asked for after every one of them, the frames and bytes counted are exactly those of the frames handed over, every one of them bytes, at a time that can be represented, with a length on the wire of 32 bits; and the interface is the one that was opened. *)
Theorem live_capture_counts `{PcapTyped} debug options c rs c' :
  live_open debug options = inr c -> polled c rs c' ->
  cc_packets (source_counters c').2 = len (frames rs) /\ cc_bytes (source_counters c').2 = frames_bytes (frames rs) /\
  Forall (fun p => Forall in_u8 (rp_data p) /\ 0 <= rp_timestamp p < 2 ^ 63 * 1000000000 /\ in_u32 (rp_original_len p)) (frames rs) /\
  lc_name c' = lc_name c.
Proof.
  intros Eo Ep. pose proof (live_open_starts debug options c Eo) as [Z1 Z2].
  destruct (polled_counts c rs c' Ep I) as (_ & Hn & Hb & P & B).
  assert (cc_packets (source_counters c).2 = lc_packets c /\ cc_bytes (source_counters c).2 = lc_bytes c) as [Hc1 Hc2].
  { cbn. unfold live_counters. by destruct (pcap_stats (lc_handle c)) as [h [[]|]]. }
  rewrite Hc1, Z1 in P. rewrite Hc2, Z2 in B. split_and!; [lia|lia| |done].
  apply Forall_and. split; [done|]. clear Eo Z1 Z2 Hc1 Hc2 P B Hb Hn. induction Ep as [c|c c1 r rs c2 E1 _ IH|c rs c2 _ IH]; [constructor| |done].
  destruct r as [e|[p| |]]; unfold frames in *; cbn; [done| |done|done]. constructor; [|done]. exact (live_next_time c c1 p E1).
Qed.

(** ** The hypotheses can hold *)

(** A handle that gives one packet, with a time that is none, then nothing. *)
#[local] Instance scripted_pcap : Pcap := {|
  Handle := nat;
  pcap_list := inr [of_string "eth0"; of_string "lo"];
  pcap_lookup := inr (Some (of_string "eth0"));
  pcap_from_device _ := inr tt;
  pcap_open _ := inr 0%nat;
  pcap_setnonblock h := inr h;
  pcap_filter h _ := inr h;
  pcap_datalink _ := 1;
  pcap_next h := (S h, match h with O => PcapPacket (- 5) 77 [1; 2; 3] 60 | _ => TimeoutExpired end);
  pcap_stats h := (h, Some (4, 0))
|}.

#[local] Instance scripted_typed : PcapTyped.
Proof.
  split.
  - intros h h' a b d w E. cbn in E. destruct h; [|done]. injection E as <- <- <- <- <-.
    unfold in_u32, in_u8, U32_MAX. split_and!; try lia. repeat constructor; lia.
  - intros h h' a b [= <- <- <-]. unfold in_u32, U32_MAX. lia.
Qed.

Definition watched_interface : LiveOptions := mkLiveOptions (Some (of_string "lo")) 65535 true None 250 None.

Lemma live_capture_counts_witness :
  exists c c' rs, live_open (fun t => t) watched_interface = inr c /\ polled c rs c' /\
    frames rs = [mkRawPacket 0 [1; 2; 3] 60] /\ cc_packets (source_counters c').2 = 1 /\ lc_name c' = of_string "lo".
Proof.
  destruct (live_open (fun t => t) watched_interface) as [e|c] eqn:E; [discriminate E|].
  set (first := live_next c). set (second := live_next (live_counters first.1).1).
  assert (polled c [first.2; second.2] second.1) as Hp.
  { apply (polled_next _ first.1); [apply surjective_pairing|]. apply polled_counters. apply (polled_next _ second.1); [apply surjective_pairing|constructor]. }
  destruct (live_capture_counts (fun t => t) watched_interface c _ _ E Hp) as (H1 & _ & _ & H4).
  exists c, second.1, [first.2; second.2]. split; [reflexivity|]. split; [exact Hp|]. injection E as <-.
  split; [reflexivity|]. split; [exact H1|exact H4].
Defined.
