(* ===== verification/Engine.v ===== *)
(** The detection engine: [crates/engine/src/engine.rs].

    The per-flow state (flowbits, an inspection window per direction, an HTTP parser), thresholds, and
    the handlers that take a packet, a stream delivery, a host event or the end of a flow. A handler
    gives the engine after it and the alerts it pushed; [None] is a panic. Flow states are evicted in
    the order of their last use, where states of the same age come in the unspecified order of the
    hash map ([HashOrder]). Counters are unbounded, except the [u32] count of a threshold. *)

From S2P Require Import Prelude Text Net Event Normalize Http RuleModel Vars Eval Compile Host.

(** ** Data *)

Record EngineLimits := mkEngineLimits {
  el_compile : CompileLimits;
  el_max_flow_states : Z;
  el_max_flowbits_per_flow : Z;
  el_inspection_window : Z;
  el_max_threshold_entries : Z;
  el_normalize : NormalizeOptions;
  el_max_http_head : Z
}.

Definition EngineLimits_default : EngineLimits :=
  mkEngineLimits CompileLimits_default 65536 64 65536 65536 NormalizeOptions_default DEFAULT_MAX_HEAD.

Record AlertRecord := mkAlertRecord {
  ar_sid : Z;
  ar_rev : Z;
  ar_signature : text;
  ar_classtype : option text;
  ar_severity : Z;
  ar_metadata : gmap text (list text);
  ar_blocks : bool
}.

Record EngineCounters := mkEngineCounters {
  ec_inspections : Z;
  ec_bytes_inspected : Z;
  ec_candidates : Z;
  ec_matches : Z;
  ec_alerts : Z;
  ec_thresholded : Z;
  ec_silent : Z;
  ec_flow_states : Z;
  ec_flow_states_evicted : Z;
  ec_inspection_bytes_dropped : Z
}.

Definition counters_default : EngineCounters := mkEngineCounters 0 0 0 0 0 0 0 0 0 0.

(** Changes of one or a few counters. *)
Definition count_inspection (bytes candidates : Z) (c : EngineCounters) : EngineCounters :=
  mkEngineCounters (ec_inspections c + 1) (ec_bytes_inspected c + bytes) (ec_candidates c + candidates)
    (ec_matches c) (ec_alerts c) (ec_thresholded c) (ec_silent c) (ec_flow_states c) (ec_flow_states_evicted c)
    (ec_inspection_bytes_dropped c).

(** One match: what became of it. *)
Inductive MatchFate := Alerted | Thresholded | Silent.

Definition count_match (fate : MatchFate) (c : EngineCounters) : EngineCounters :=
  mkEngineCounters (ec_inspections c) (ec_bytes_inspected c) (ec_candidates c) (ec_matches c + 1)
    (ec_alerts c + match fate with Alerted => 1 | _ => 0 end)
    (ec_thresholded c + match fate with Thresholded => 1 | _ => 0 end)
    (ec_silent c + match fate with Silent => 1 | _ => 0 end)
    (ec_flow_states c) (ec_flow_states_evicted c) (ec_inspection_bytes_dropped c).

Definition count_evicted (n : Z) (c : EngineCounters) : EngineCounters :=
  mkEngineCounters (ec_inspections c) (ec_bytes_inspected c) (ec_candidates c) (ec_matches c) (ec_alerts c)
    (ec_thresholded c) (ec_silent c) (ec_flow_states c) (ec_flow_states_evicted c + n) (ec_inspection_bytes_dropped c).

Definition count_dropped (n : Z) (c : EngineCounters) : EngineCounters :=
  mkEngineCounters (ec_inspections c) (ec_bytes_inspected c) (ec_candidates c) (ec_matches c) (ec_alerts c)
    (ec_thresholded c) (ec_silent c) (ec_flow_states c) (ec_flow_states_evicted c)
    (ec_inspection_bytes_dropped c + n).

Record InspectionBuffer := mkInspectionBuffer {
  ib_data : list Z;
  ib_scanned : Z
}.

Definition inspection_default : InspectionBuffer := mkInspectionBuffer [] 0.

(** [InspectionBuffer::append]: the buffer after it, where the region to scan starts, and how many
    bytes fell out of the window. *)
Definition append (b : InspectionBuffer) (bytes : list Z) (overlap window : Z) : InspectionBuffer * Z * Z :=
  let data := ib_data b ++ bytes in
  let '(data, scanned, dropped) :=
    if window <? len data
    then let excess := len data - window in
         (drop (Z.to_nat excess) data, sat_sub (ib_scanned b) excess, excess)
    else (data, ib_scanned b, 0) in
  let start := sat_sub scanned overlap in
  (mkInspectionBuffer data (len data), start, dropped).

Record FlowState := mkFlowState {
  fs_bits : FlowBits;
  fs_to_server : InspectionBuffer;
  fs_to_client : InspectionBuffer;
  fs_last_seen : Z;
  fs_http : option HttpParser
}.

Definition flow_state_default : FlowState := mkFlowState ∅ inspection_default inspection_default 0 None.

Record ThresholdEntry := mkThresholdEntry {
  te_count : Z;
  te_window_start : Z
}.

Section engine.
Context `{RegexLib, AhoCorasickLib, !HashOrder Z}.

Record Engine := mkEngine {
  e_ruleset : CompiledRuleset;
  e_limits : EngineLimits;
  e_states : gmap Z FlowState;
  e_thresholds : gmap (Z * text) ThresholdEntry;
  e_counters : EngineCounters;
  e_longest_pattern : Z;
  e_host_rules : HostRuleset;
  e_host_bits : FlowBits
}.

Definition with_states (e : Engine) (states : gmap Z FlowState) : Engine :=
  mkEngine (e_ruleset e) (e_limits e) states (e_thresholds e) (e_counters e) (e_longest_pattern e)
    (e_host_rules e) (e_host_bits e).
Definition with_counters (e : Engine) (c : EngineCounters) : Engine :=
  mkEngine (e_ruleset e) (e_limits e) (e_states e) (e_thresholds e) c (e_longest_pattern e) (e_host_rules e)
    (e_host_bits e).
Definition with_thresholds (e : Engine) (ts : gmap (Z * text) ThresholdEntry) : Engine :=
  mkEngine (e_ruleset e) (e_limits e) (e_states e) ts (e_counters e) (e_longest_pattern e) (e_host_rules e)
    (e_host_bits e).
Definition with_host_bits (e : Engine) (bits : FlowBits) : Engine :=
  mkEngine (e_ruleset e) (e_limits e) (e_states e) (e_thresholds e) (e_counters e) (e_longest_pattern e)
    (e_host_rules e) bits.

(** [Engine::new]. *)
Definition content_length (o : CompiledOption) : option Z :=
  match o with CContent c => Some (len (cm_pattern c)) | _ => None end.

Definition longest_pattern (rs : CompiledRuleset) : Z :=
  foldr Z.max 0 (rs_rules rs ≫= fun rule => omap content_length (cr_options rule)).

Definition engine_new (rules : list Rule) (vars : VarTable) (limits : EngineLimits) :
    option (Engine * CompileReport) :=
  let host_input := List.filter is_host_rule_by_options rules in
  let network := List.filter (fun r => negb (is_host_rule_by_options r)) rules in
  '(ruleset, report) ← compile network vars (el_compile limits);
  let '(host_rules, host_report) := compile_host host_input (el_compile limits) in
  Some (mkEngine ruleset limits ∅ ∅ counters_default (longest_pattern ruleset) host_rules ∅,
        report_merge report host_report).

Definition engine_needs_http (e : Engine) : bool := ruleset_needs_http (e_ruleset e).

(** [Engine::counters]. *)
Definition engine_counters (e : Engine) : EngineCounters :=
  let c := e_counters e in
  mkEngineCounters (ec_inspections c) (ec_bytes_inspected c) (ec_candidates c) (ec_matches c) (ec_alerts c)
    (ec_thresholded c) (ec_silent c) (Z.of_nat (size (e_states e))) (ec_flow_states_evicted c)
    (ec_inspection_bytes_dropped c).

(** ** Thresholds *)

Definition count_against_threshold (e : Engine) (sid : Z) (t : Threshold) (key : text) (now : Z) :
    option (Engine * bool) :=
  if (el_max_threshold_entries (e_limits e) <=? Z.of_nat (size (e_thresholds e))) &&
     negb (bool_decide (is_Some (e_thresholds e !! (sid, key))))
  then Some (e, true)
  else
    let window := secs (th_seconds t) in
    let entry := unwrap_or (mkThresholdEntry 0 now) (e_thresholds e !! (sid, key)) in
    let entry := if window <=? unwrap_or 0 (duration_since now (te_window_start entry))
                 then mkThresholdEntry 0 now else entry in
    let count := (te_count entry + 1) mod 2 ^ 32 in
    let e := with_thresholds e (<[ (sid, key) := mkThresholdEntry count (te_window_start entry) ]> (e_thresholds e)) in
    match th_kind t with
    | KThreshold => if th_count t =? 0 then None else Some (e, count mod th_count t =? 0)
    | KLimit => Some (e, count <=? th_count t)
    | KBoth => Some (e, count =? th_count t)
    end.

Definition threshold_allows (e : Engine) (sid : Z) (t : option Threshold) (tuple : NetTuple) (now : Z) :
    option (Engine * bool) :=
  match t with
  | None => Some (e, true)
  | Some t =>
      let key := match th_track t with
                 | BySource => ip_to_string (src_ip tuple)
                 | ByDestination => ip_to_string (dest_ip tuple)
                 | ByRule => []
                 end in
      count_against_threshold e sid t key now
  end.

Definition host_threshold_allows (e : Engine) (sid : Z) (t : option Threshold) (subject : text) (now : Z) :
    option (Engine * bool) :=
  match t with
  | None => Some (e, true)
  | Some t =>
      let key := match th_track t with BySource => subject | ByDestination | ByRule => [] end in
      count_against_threshold e sid t key now
  end.

(** ** Flow states *)

(** The removals of [make_room], counting those that removed something. *)
Definition evict_states (ids : list Z) (states : gmap Z FlowState) (evicted : Z) : gmap Z FlowState * Z :=
  foldl (fun acc id => (delete id acc.1, if bool_decide (is_Some (acc.1 !! id)) then acc.2 + 1 else acc.2))
    (states, evicted) ids.

Definition make_room (e : Engine) : Engine :=
  let max := el_max_flow_states (e_limits e) in
  if Z.of_nat (size (e_states e)) <? max then e
  else
    let batch := Z.max (max / 10) 1 in
    let '(states, evicted) := evict_states (oldest_keys fs_last_seen batch (e_states e)) (e_states e) 0 in
    with_counters (with_states e states) (count_evicted evicted (e_counters e)).

Definition on_flow_end (e : Engine) (flow_id : Z) : Engine := with_states e (delete flow_id (e_states e)).

(** ** Inspecting *)

Definition network_record (rule : CompiledRule) : AlertRecord :=
  mkAlertRecord (cr_sid rule) (cr_rev rule) (cr_msg rule) (cr_classtype rule) (cr_severity rule)
    (cr_metadata rule) (cr_blocks rule).

(** What is done with one match: silence, the threshold, or an alert. *)
Definition settle (e : Engine) (no_alert : bool) (allows : Engine -> option (Engine * bool)) (record : AlertRecord) :
    option (Engine * list AlertRecord) :=
  if no_alert then Some (with_counters e (count_match Silent (e_counters e)), [])
  else
    '(e, allowed) ← allows e;
    if (allowed : bool) then Some (with_counters e (count_match Alerted (e_counters e)), [record])
    else Some (with_counters e (count_match Thresholded (e_counters e)), []).

(** The loop over the candidates: the engine, the side effects that wait, and the alerts. *)
Fixpoint inspect_candidates (e : Engine) (input : MatchInput) (bits : FlowBits) (now : Z) (candidates : list nat) :
    option (Engine * list FlowBitsOp * list AlertRecord) :=
  match candidates with
  | [] => Some (e, [], [])
  | index :: candidates' =>
      match rs_rules (e_ruleset e) !! index with
      | None => inspect_candidates e input bits now candidates'
      | Some rule =>
          outcome ← evaluate rule input bits;
          match outcome with
          | None => inspect_candidates e input bits now candidates'
          | Some side_effects =>
              '(e, alerts) ← settle e (cr_no_alert rule)
                (fun e => threshold_allows e (cr_sid rule) (cr_threshold rule) (mi_tuple input) now)
                (network_record rule);
              '(e, pending, more) ← inspect_candidates e input bits now candidates';
              Some (e, side_effects ++ pending, alerts ++ more)
          end
      end
  end.

(** The side effects of the matches, applied once every verdict is in. *)
Definition apply_pending (e : Engine) (flow_id now : Z) (pending : list FlowBitsOp) : Engine :=
  match pending with
  | [] => e
  | _ =>
      let e := make_room e in
      let limit := el_max_flowbits_per_flow (e_limits e) in
      let state := unwrap_or flow_state_default (e_states e !! flow_id) in
      let bits := foldl (fun b op => bits_apply b op limit) (fs_bits state) pending in
      with_states e (<[ flow_id := mkFlowState bits (fs_to_server state) (fs_to_client state) now (fs_http state) ]>
        (e_states e))
  end.

Definition inspect_buffers (e : Engine) (flow_id : Z) (tuple : NetTuple) (to_server established : bool)
    (buffers : Buffers) (prefilter_buffers : list Buffer) (now : Z) : option (Engine * list AlertRecord) :=
  let hs := haystacks buffers prefilter_buffers in
  let candidates := candidates_in (e_ruleset e) hs in
  let e := with_counters e (count_inspection (zsum ((fun bh => len bh.2) <$> hs)) (Z.of_nat (length candidates))
    (e_counters e)) in
  if bool_decide (candidates = []) then Some (e, [])
  else
    let input := mkMatchInput tuple established to_server buffers in
    let bits := match e_states e !! flow_id with Some state => fs_bits state | None => ∅ end in
    '(e, pending, alerts) ← inspect_candidates e input bits now candidates;
    Some (apply_pending e flow_id now pending, alerts).

(** [Engine::inspect]. *)
Definition inspect (e : Engine) (flow_id : Z) (tuple : NetTuple) (to_server established : bool)
    (buffers : Buffers) (prefilter_buffer : Buffer) (now : Z) : option (Engine * list AlertRecord) :=
  inspect_buffers e flow_id tuple to_server established buffers [prefilter_buffer] now.

Definition inspect_packet (e : Engine) (flow_id : Z) (tuple : NetTuple) (to_server : bool) (payload : list Z)
    (now : Z) : option (Engine * list AlertRecord) :=
  inspect e flow_id tuple to_server false (payload_only payload) Payload now.

Definition request_buffers (r : HttpRequest) : Buffers :=
  mkBuffers [] (Some (hr_uri r)) (Some (hr_headers r)) (hr_user_agent r) (Some (hr_method r)) (hr_host r)
    (hr_normalization r).

Definition HTTP_BUFFERS : list Buffer := [HttpUri; HttpHeader; HttpUserAgent; HttpMethod; HttpHost].

Fixpoint inspect_requests (e : Engine) (flow_id : Z) (tuple : NetTuple) (now : Z) (requests : list HttpRequest) :
    option (Engine * list AlertRecord) :=
  match requests with
  | [] => Some (e, [])
  | request :: requests' =>
      '(e, alerts) ← inspect_buffers e flow_id tuple true true (request_buffers request) HTTP_BUFFERS now;
      '(e, more) ← inspect_requests e flow_id tuple now requests';
      Some (e, alerts ++ more)
  end.

Definition inspect_http (e : Engine) (flow_id : Z) (tuple : NetTuple) (delivered : list Z) (now : Z) :
    option (Engine * list AlertRecord) :=
  match e_states e !! flow_id with
  | None => Some (e, [])
  | Some state =>
      let parser := unwrap_or (parser_new (el_max_http_head (e_limits e))) (fs_http state) in
      let '(parser, requests) := http_push (el_normalize (e_limits e)) parser delivered in
      let e := with_states e (<[ flow_id := mkFlowState (fs_bits state) (fs_to_server state) (fs_to_client state)
        (fs_last_seen state) (Some parser) ]> (e_states e)) in
      inspect_requests e flow_id tuple now requests
  end.

Definition inspect_stream (e : Engine) (flow_id : Z) (tuple : NetTuple) (to_server : bool) (delivered : list Z)
    (now : Z) : option (Engine * list AlertRecord) :=
  if bool_decide (delivered = []) then Some (e, [])
  else
    let e := make_room e in
    let overlap := sat_sub (e_longest_pattern e) 1 in
    let window := el_inspection_window (e_limits e) in
    let state := unwrap_or flow_state_default (e_states e !! flow_id) in
    let '(buffer, start, dropped) :=
      append (if to_server then fs_to_server state else fs_to_client state) delivered overlap window in
    let state := if to_server
      then mkFlowState (fs_bits state) buffer (fs_to_client state) now (fs_http state)
      else mkFlowState (fs_bits state) (fs_to_server state) buffer now (fs_http state) in
    let e := with_counters (with_states e (<[ flow_id := state ]> (e_states e)))
      (count_dropped dropped (e_counters e)) in
    region ← slice (ib_data buffer) start (len (ib_data buffer));
    '(e, alerts) ← inspect e flow_id tuple to_server true (payload_only region) Payload now;
    if to_server && engine_needs_http e
    then '(e, more) ← inspect_http e flow_id tuple delivered now; Some (e, alerts ++ more)
    else Some (e, alerts).

(** ** Host events *)

Definition host_record (rule : CompiledHostRule) : AlertRecord :=
  mkAlertRecord (hr_sid rule) (hr_rev rule) (hr_msg rule) (hr_classtype rule) (hr_severity rule)
    (hr_metadata rule) false.

Fixpoint inspect_host_candidates (e : Engine) (o : HostObservation) (bits : FlowBits) (now : Z)
    (candidates : list nat) : option (Engine * list FlowBitsOp * list AlertRecord) :=
  match candidates with
  | [] => Some (e, [], [])
  | index :: candidates' =>
      match hs_rules (e_host_rules e) !! index with
      | None => inspect_host_candidates e o bits now candidates'
      | Some rule =>
          match evaluate_host rule o bits with
          | None => inspect_host_candidates e o bits now candidates'
          | Some side_effects =>
              '(e, alerts) ← settle e (hr_no_alert rule)
                (fun e => host_threshold_allows e (hr_sid rule) (hr_threshold rule) (subject o) now)
                (host_record rule);
              '(e, pending, more) ← inspect_host_candidates e o bits now candidates';
              Some (e, side_effects ++ pending, alerts ++ more)
          end
      end
  end.

Definition inspect_host (e : Engine) (o : HostObservation) (now : Z) : option (Engine * list AlertRecord) :=
  let candidates := host_candidates (e_host_rules e) (observation_kind o) in
  if bool_decide (candidates = []) then Some (e, [])
  else
    let e := with_counters e (count_inspection 0 0 (e_counters e)) in
    '(e, pending, alerts) ← inspect_host_candidates e o (e_host_bits e) now candidates;
    let limit := el_max_flowbits_per_flow (e_limits e) in
    Some (with_host_bits e (foldl (fun b op => bits_apply b op limit) (e_host_bits e) pending), alerts).
End engine.

(** ** The inspection window *)

(** A buffer between two deliveries: everything it holds has been scanned. *)
Definition inspection_wf (window : Z) (b : InspectionBuffer) : Prop :=
  ib_scanned b = len (ib_data b) /\ len (ib_data b) <= window.

Lemma append_spec b bytes overlap window b' start dropped :
  ib_scanned b = len (ib_data b) -> 0 <= window -> 0 <= overlap ->
  append b bytes overlap window = (b', start, dropped) ->
  dropped = Z.max 0 (len (ib_data b) + len bytes - window) /\
  ib_data b' = drop (Z.to_nat dropped) (ib_data b ++ bytes) /\ inspection_wf window b' /\
  start = Z.max 0 (Z.max 0 (len (ib_data b) - dropped) - overlap) /\ 0 <= start <= len (ib_data b').
Proof.
  intros Hs Hw Ho. unfold append, sat_sub, inspection_wf. rewrite length_app.
  destruct (Z.ltb_spec window (Z.of_nat (length (ib_data b) + length bytes))); intros E; simplify_eq; simpl;
    rewrite ?length_drop, ?length_app, Hs; repeat split; try done; lia.
Qed.

(** The buffer after a sequence of deliveries. *)
Definition feed (overlap window : Z) (ds : list (list Z)) : InspectionBuffer :=
  foldl (fun b d => (append b d overlap window).1.1) inspection_default ds.

(** It holds the last [window] bytes of the stream. *)
Lemma feed_spec overlap window ds :
  0 <= window -> 0 <= overlap ->
  inspection_wf window (feed overlap window ds) /\
  ib_data (feed overlap window ds) = drop (Z.to_nat (Z.max 0 (len (mjoin ds) - window))) (mjoin ds).
Proof.
  intros Hw Ho. unfold feed. induction ds as [|d ds [[Hwf Hlen] Hd]] using rev_ind; [split; [split; simpl; lia|symmetry; apply drop_nil]|].
  rewrite foldl_app. cbn [foldl]. set (b := foldl _ inspection_default ds) in *.
  destruct (append b d overlap window) as [[b' start] dropped] eqn:E.
  apply append_spec in E as (Hdr & Hb' & Hwf' & _); [|done|done|done]. split; [done|]. simpl.
  assert (mjoin (ds ++ [d]) = mjoin ds ++ d) as -> by (rewrite join_app; simpl; by rewrite app_nil_r).
  rewrite Hb', Hdr, Hd. rewrite Hd, length_drop in Hlen.
  rewrite length_drop, length_app. rewrite <- (drop_app_le (mjoin ds) d), drop_drop by lia.
  f_equal. lia.
Qed.

(** A pattern that is split over several deliveries is still scanned whole. When the stream so
    far ends inside an occurrence of a pattern no longer than the longest of the ruleset, the region
    handed to the rules at the delivery that completes it holds the occurrence, as long as no more
    than the inspection window arrived since it began. *)
Theorem split_pattern_is_scanned nocase needle overlap window ds d p :
  0 <= window -> 0 < len needle <= overlap + 1 ->
  occurs_at nocase needle (mjoin ds ++ d) p -> len (mjoin ds) < p + len needle ->
  len (mjoin ds ++ d) - p <= window ->
  let '(b, start, _) := append (feed overlap window ds) d overlap window in
  exists region, slice (ib_data b) start (len (ib_data b)) = Some region /\ occurs nocase needle region.
Proof.
  intros Hw Hn Hocc Hend Hwin. destruct (feed_spec overlap window ds Hw ltac:(lia)) as [[Hwf Hlen] Hd].
  destruct (append _ d overlap window) as [[b start] dropped] eqn:E.
  apply append_spec in E as (Hdr & Hb & _ & Hstart & Hrange); [|done|done|lia].
  destruct (slice_total (ib_data b) start (len (ib_data b))) as [region Hr]; [done|lia|].
  exists region. split; [done|]. set (S := mjoin ds) in *. set (K := Z.max 0 (len (S ++ d) - window)).
  assert (HdK : ib_data b = drop (Z.to_nat K) (S ++ d)).
  { rewrite Hb, Hdr, Hd. rewrite Hd, length_drop in Hlen. rewrite length_drop.
    rewrite <- (drop_app_le S d), drop_drop by lia. f_equal. unfold K. rewrite length_app. lia. }
  assert (HK : 0 <= K <= p).
  { destruct Hocc as (Hp0 & _ & _). unfold K. lia. }
  assert (Hs : slice (S ++ d) (K + start) (len (S ++ d)) = Some region).
  { apply slice_inv in Hr as (_ & _ & ->). rewrite HdK in Hrange |- *. rewrite length_drop in Hrange.
    rewrite slice_Some by lia. f_equal. rewrite length_drop, drop_drop. f_equal; [lia|]. f_equal. lia. }
  exists (p - (K + start)). apply (occurs_at_slice _ _ _ _ _ _ _ Hs).
  assert (HA : K + start <= p).
  { assert (HKv : K = Z.max 0 (len S + len d - window)) by (unfold K; rewrite length_app; lia).
    rewrite Hstart, Hdr, Hd, length_drop. rewrite Hd, length_drop in Hlen. clear -HKv HK Hn Hend Hw Hlen. lia. }
  destruct Hocc as (Hp0 & Hp1 & Hp2). replace (K + start + (p - (K + start))) with p by lia.
  split; [|split; lia]. split; [done|]. split; done.
Qed.

Lemma split_pattern_is_scanned_witness :
  let '(b, start, _) := append (feed 3 64 [of_string "so e"]) (of_string "vil") 3 64 in
  exists region, slice (ib_data b) start (len (ib_data b)) = Some region /\ occurs false (of_string "evil") region.
Proof.
  apply (split_pattern_is_scanned false (of_string "evil") 3 64 [of_string "so e"] (of_string "vil") 3);
    [lia|simpl; lia| |simpl; lia|simpl; lia].
  split; [lia|]. split; [simpl; lia|reflexivity].
Defined.

(** ** Thresholds *)

Section thresholds.
Context `{RegexLib, AhoCorasickLib, !HashOrder Z}.

(** The verdicts on a sequence of events of one rule and one key. *)
Fixpoint threshold_run (e : Engine) (sid : Z) (t : Threshold) (key : text) (nows : list Z) : option (list bool) :=
  match nows with
  | [] => Some []
  | now :: nows' =>
      '(e, allowed) ← count_against_threshold e sid t key now;
      rest ← threshold_run e sid t key nows';
      Some (allowed :: rest)
  end.

(** The verdict on the [i]th event of a window. *)
Definition threshold_verdict (t : Threshold) (i : Z) : bool :=
  match th_kind t with
  | KThreshold => i mod th_count t =? 0
  | KLimit => i <=? th_count t
  | KBoth => i =? th_count t
  end.

Lemma count_against_threshold_next e sid t key now k w :
  e_thresholds e !! (sid, key) = Some (mkThresholdEntry k w) -> now - w < secs (th_seconds t) ->
  0 < th_seconds t -> 1 <= th_count t -> 0 <= k -> k + 1 < 2 ^ 32 ->
  count_against_threshold e sid t key now =
  Some (with_thresholds e (<[ (sid, key) := mkThresholdEntry (k + 1) w ]> (e_thresholds e)), threshold_verdict t (k + 1)).
Proof.
  intros He Hw Hs Hc Hk Hk'. unfold count_against_threshold. rewrite He.
  rewrite (bool_decide_eq_true_2 (is_Some (Some _))) by eauto. rewrite andb_false_r.
  cbn [unwrap_or te_count te_window_start].
  assert (Hd : unwrap_or 0 (duration_since now w) < secs (th_seconds t)).
  { unfold duration_since, secs in *. destruct (Z.leb_spec w now); simpl; lia. }
  rewrite (proj2 (Z.leb_gt _ _)) by done. cbn [te_count te_window_start].
  rewrite Z.mod_small by lia. unfold threshold_verdict.
  destruct (th_kind t); try done. by rewrite (proj2 (Z.eqb_neq (th_count t) 0)) by lia.
Qed.

Lemma threshold_run_next e sid t key k w nows :
  e_thresholds e !! (sid, key) = Some (mkThresholdEntry k w) ->
  Forall (fun now => now - w < secs (th_seconds t)) nows ->
  0 < th_seconds t -> 1 <= th_count t -> 0 <= k -> k + len nows < 2 ^ 32 ->
  threshold_run e sid t key nows = Some (threshold_verdict t <$> seqZ (k + 1) (len nows)).
Proof.
  intros He HF Hs Hc. revert e k He. induction HF as [|now nows Hnow _ IH]; intros e k He Hk Hk'; [done|].
  cbn [threshold_run]. rewrite length_cons in Hk'.
  rewrite (count_against_threshold_next e sid t key now k w) by (done || lia). cbn [mbind option_bind].
  rewrite (IH _ (k + 1)) by (simpl; (by rewrite lookup_insert_eq) || lia). cbn [mbind option_bind].
  rewrite length_cons, Nat2Z.inj_succ. rewrite (seqZ_cons (k + 1)) by lia. rewrite Z.pred_succ.
  by replace (Z.succ (k + 1)) with (k + 1 + 1) by lia.
Qed.

Lemma div_succ c n : 1 <= c -> (n + 1) / c = n / c + (if (n + 1) mod c =? 0 then 1 else 0).
Proof.
  intros Hc. pose proof (Z.div_mod n c ltac:(lia)) as Hn. pose proof (Z.mod_pos_bound n c ltac:(lia)).
  destruct (Z.eq_dec (n mod c) (c - 1)) as [Hm|Hm].
  - assert (E : n + 1 = (n / c + 1) * c) by nia. rewrite E, Z.mod_mul, Z.div_mul by lia. done.
  - assert (E : n + 1 = c * (n / c) + (n mod c + 1)) by lia.
    rewrite <- (Z.mod_unique (n + 1) c (n / c) (n mod c + 1)) by (done || lia).
    rewrite <- (Z.div_unique (n + 1) c (n / c) (n mod c + 1)) by (done || lia).
    rewrite (proj2 (Z.eqb_neq (n mod c + 1) 0)) by lia. lia.
Qed.

Lemma count_divisible c n : 1 <= c -> 0 <= n -> count (fun i => i mod c =? 0) 1 (n + 1) = n / c.
Proof.
  intros Hc Hn. revert n Hn. refine (natlike_ind _ _ _); [by rewrite Z.div_0_l by lia|].
  intros n Hn IH. unfold Z.succ. rewrite div_succ by done.
  rewrite (count_split _ 1 (n + 1)), IH by lia. f_equal. destruct ((n + 1) mod c =? 0) eqn:E.
  - rewrite count_true; [lia|lia|]. intros i Hi. by replace i with (n + 1) by lia.
  - apply count_false. intros i Hi. by replace i with (n + 1) by lia.
Qed.

(** The alerts among the first [n] events of a window. *)
Lemma threshold_verdict_count t n :
  1 <= th_count t -> 0 <= n ->
  count (threshold_verdict t) 1 (n + 1) =
  match th_kind t with
  | KThreshold => n / th_count t
  | KLimit => Z.min n (th_count t)
  | KBoth => if th_count t <=? n then 1 else 0
  end.
Proof.
  intros Hc Hn. unfold threshold_verdict. destruct (th_kind t).
  - by apply count_divisible.
  - destruct (Z.le_gt_cases n (th_count t)).
    + rewrite count_true; [lia|lia|]. intros i Hi. apply Z.leb_le. lia.
    + rewrite (count_split _ 1 (th_count t + 1)) by lia. rewrite count_true, count_false; [lia| |lia|].
      * intros i Hi. apply Z.leb_gt. lia.
      * intros i Hi. apply Z.leb_le. lia.
  - destruct (Z.leb_spec (th_count t) n).
    + rewrite (count_split _ 1 (th_count t)), (count_split _ (th_count t) (th_count t + 1)) by lia.
      rewrite (count_false _ 1), (count_false _ (th_count t + 1)), count_true; [lia|lia| | |].
      * intros i Hi. apply Z.eqb_eq. lia.
      * intros i Hi. apply Z.eqb_neq. lia.
      * intros i Hi. apply Z.eqb_neq. lia.
    + apply count_false. intros i Hi. apply Z.eqb_neq. lia.
Qed.

Lemma threshold_run_first e sid t key now nows :
  e_thresholds e !! (sid, key) = None ->
  Z.of_nat (size (e_thresholds e)) < el_max_threshold_entries (e_limits e) ->
  Forall (fun n => n - now < secs (th_seconds t)) nows ->
  0 < th_seconds t -> 1 <= th_count t -> 1 + len nows < 2 ^ 32 ->
  threshold_run e sid t key (now :: nows) = Some (threshold_verdict t <$> seqZ 1 (1 + len nows)).
Proof.
  intros He Hsz HF Hs Hc Hn. set (e0 := with_thresholds e (<[ (sid, key) := mkThresholdEntry 0 now ]> (e_thresholds e))).
  assert (Hstep : count_against_threshold e sid t key now = count_against_threshold e0 sid t key now).
  { unfold count_against_threshold. rewrite He. simpl. rewrite lookup_insert_eq.
    rewrite (proj2 (Z.leb_gt _ _)) by done. simpl. rewrite andb_false_r.
    unfold with_thresholds. simpl. by rewrite insert_insert_eq. }
  cbn [threshold_run]. rewrite Hstep. change (_ ≫= _) with (threshold_run e0 sid t key (now :: nows)).
  rewrite (threshold_run_next e0 sid t key 0 now (now :: nows)); try done.
  - rewrite length_cons. by replace (0 + 1) with 1 by lia; replace (Z.of_nat (S (length nows))) with (1 + len nows) by lia.
  - simpl. by rewrite lookup_insert_eq.
  - constructor; [unfold secs; lia|done].
  - rewrite length_cons. lia.
Qed.

Lemma filter_true_fmap (f : Z -> bool) l :
  length (filter (fun v => v = true) (f <$> l)) = length (filter (fun i => f i = true) l).
Proof. induction l as [|x l IH]; [done|]. csimpl. rewrite !filter_cons. case_decide; simpl; by rewrite IH. Qed.

(** What a threshold lets through. Of [n] events of one rule and one key that fall into one
    window, [threshold] alerts on every [count]th, [limit] on the first [count] and [both] on the
    [count]th only; the clock stepping back does not open a new window. *)
Theorem threshold_alerts e sid t key now nows :
  e_thresholds e !! (sid, key) = None ->
  Z.of_nat (size (e_thresholds e)) < el_max_threshold_entries (e_limits e) ->
  Forall (fun n => n - now < secs (th_seconds t)) nows ->
  0 < th_seconds t -> 1 <= th_count t -> 1 + len nows < 2 ^ 32 ->
  exists verdicts, threshold_run e sid t key (now :: nows) = Some verdicts /\
    len (filter (fun v => v = true) verdicts) =
    match th_kind t with
    | KThreshold => (1 + len nows) / th_count t
    | KLimit => Z.min (1 + len nows) (th_count t)
    | KBoth => if th_count t <=? 1 + len nows then 1 else 0
    end.
Proof.
  intros He Hsz HF Hs Hc Hn. rewrite threshold_run_first by done. eexists. split; [reflexivity|].
  rewrite <- threshold_verdict_count by lia. unfold count.
  rewrite filter_true_fmap. by replace (1 + len nows + 1 - 1) with (1 + len nows) by lia.
Qed.
End thresholds.

(** ** No rule is missed *)

Section completeness.
Context `{RegexLib, AhoCorasickLib, !HashOrder Z}.

(** The two engines differ at most in their thresholds. *)
Definition same_but_thresholds (e1 e2 : Engine) : Prop :=
  e_ruleset e2 = e_ruleset e1 /\ e_host_rules e2 = e_host_rules e1 /\ e_limits e2 = e_limits e1 /\
  e_states e2 = e_states e1 /\ e_counters e2 = e_counters e1 /\ e_host_bits e2 = e_host_bits e1 /\
  e_longest_pattern e2 = e_longest_pattern e1.

Lemma count_against_threshold_frame e sid t key now e' b :
  count_against_threshold e sid t key now = Some (e', b) -> same_but_thresholds e e'.
Proof. unfold count_against_threshold. intros E. repeat case_match; simplify_eq; done. Qed.

Lemma threshold_allows_frame sid t tuple now e1 e2 b :
  threshold_allows e1 sid t tuple now = Some (e2, b) -> same_but_thresholds e1 e2.
Proof.
  unfold threshold_allows. destruct t as [t|]; [|intros; by simplify_eq]. apply count_against_threshold_frame.
Qed.

Lemma host_threshold_allows_frame sid t subject now e1 e2 b :
  host_threshold_allows e1 sid t subject now = Some (e2, b) -> same_but_thresholds e1 e2.
Proof.
  unfold host_threshold_allows. destruct t as [t|]; [|intros; by simplify_eq]. apply count_against_threshold_frame.
Qed.

(** [settle] touches the thresholds and the counters only. *)
Lemma settle_frame e no_alert allows record e' alerts :
  (forall e1 e2 b, allows e1 = Some (e2, b) -> same_but_thresholds e1 e2) ->
  settle e no_alert allows record = Some (e', alerts) ->
  e_ruleset e' = e_ruleset e /\ e_host_rules e' = e_host_rules e /\ e_limits e' = e_limits e /\
  e_states e' = e_states e /\ e_host_bits e' = e_host_bits e /\ e_longest_pattern e' = e_longest_pattern e /\
  exists fate, e_counters e' = count_match fate (e_counters e) /\
    alerts = match fate with Alerted => [record] | _ => [] end.
Proof.
  intros Ha E. unfold settle in E. destruct no_alert; [simplify_eq; simpl; eauto 10|].
  destruct (allows e) as [[e1 b]|] eqn:E1; [|done]. simpl in E.
  destruct (Ha _ _ _ E1) as (H1 & H2 & H3 & H4 & H5 & H6 & H7).
  destruct b; simplify_eq; simpl; rewrite H1, H2, H3, H4, H5, H6, H7; eauto 10.
Qed.

(** What the engine does with a list of matches. *)
Fixpoint settle_matches (e : Engine) (tuple : NetTuple) (now : Z) (l : list (nat * list FlowBitsOp)) :
    option (Engine * list FlowBitsOp * list AlertRecord) :=
  match l with
  | [] => Some (e, [], [])
  | (i, side_effects) :: l' =>
      match rs_rules (e_ruleset e) !! i with
      | None => settle_matches e tuple now l'
      | Some rule =>
          '(e, alerts) ← settle e (cr_no_alert rule)
            (fun e => threshold_allows e (cr_sid rule) (cr_threshold rule) tuple now) (network_record rule);
          '(e, pending, more) ← settle_matches e tuple now l';
          Some (e, side_effects ++ pending, alerts ++ more)
      end
  end.

(** The loop over the candidates is what is done with the matches among them. *)
Lemma inspect_candidates_matches e input bits now cs :
  inspect_candidates e input bits now cs =
  settle_matches e (mi_tuple input) now (omap (verdict (e_ruleset e) input bits) cs).
Proof.
  revert e. induction cs as [|i cs IH]; intros e; [done|]. cbn [inspect_candidates omap list_omap].
  unfold verdict at 1. destruct (rs_rules (e_ruleset e) !! i) as [rule|] eqn:Hi; [|apply IH].
  destruct (evaluate_total rule input bits) as [r Hr]. rewrite Hr. cbn [mbind option_bind].
  destruct r as [effects|]; [|apply IH]. cbn [settle_matches]. rewrite Hi.
  destruct (settle e (cr_no_alert rule) _ _) as [[e' alerts]|] eqn:Es; [|done]. cbn [mbind option_bind].
  apply settle_frame in Es as (Hrs & _); [|intros *; apply threshold_allows_frame]. rewrite IH. by rewrite Hrs.
Qed.

Lemma offers_payload payload : offers_all (payload_only payload) [Payload].
Proof. intros [] h Hin Hg; simpl in Hg; simplify_eq. destruct Hin. by left. Qed.

Lemma offers_request request : offers_all (request_buffers request) HTTP_BUFFERS.
Proof. intros [] h Hin Hg; simpl in Hg; simplify_eq; [done|..]; destruct Hin; set_solver. Qed.

(** Inspecting misses no rule. For a packet or a stream region, and for an HTTP request, the
    alerts, the side effects and the engine that the pre-filtered inspection gives are those of
    evaluating every armed rule. *)
Theorem engine_misses_no_rule rules vars limits rep e tuple established to_server buffers offered bits now :
  compile rules vars limits = Some (e_ruleset e, rep) ->
  (exists payload, buffers = payload_only payload /\ offered = [Payload]) \/
  (exists request, buffers = request_buffers request /\ offered = HTTP_BUFFERS) ->
  let input := mkMatchInput tuple established to_server buffers in
  inspect_candidates e input bits now (candidates_in (e_ruleset e) (haystacks buffers offered)) =
  inspect_candidates e input bits now (seq 0 (length (rs_rules (e_ruleset e)))).
Proof.
  intros Hc Hoff input. rewrite !inspect_candidates_matches. f_equal.
  apply (prefilter_verdicts rules vars limits _ rep input offered bits Hc).
  destruct Hoff as [(p & -> & ->)|(r & -> & ->)]; [apply offers_payload|apply offers_request].
Qed.
End completeness.

(** ** Bounded, and never a panic *)

Section bounds.
Context `{RegexLib, AhoCorasickLib, !HashOrder Z}.

(** The limits a configuration gives: room for at least one flow. *)
Definition limits_wf (l : EngineLimits) : Prop :=
  1 <= el_max_flow_states l /\ 0 <= el_max_flowbits_per_flow l /\ 0 <= el_inspection_window l /\
  0 <= el_max_threshold_entries l.

(** The parser refuses a threshold that counts to zero. *)
Definition threshold_wf (t : option Threshold) : Prop := forall x, t = Some x -> 1 <= th_count x.

Record state_wf (l : EngineLimits) (s : FlowState) : Prop := {
  sw_bits : Z.of_nat (size (fs_bits s)) <= el_max_flowbits_per_flow l;
  sw_to_server : inspection_wf (el_inspection_window l) (fs_to_server s);
  sw_to_client : inspection_wf (el_inspection_window l) (fs_to_client s);
  sw_http : forall p, fs_http s = Some p ->
    hp_max_head p = Z.max (el_max_http_head l) 64 /\ buffered p <= hp_max_head p
}.

Record engine_inv (e : Engine) : Prop := {
  ei_limits : limits_wf (e_limits e);
  ei_states : map_Forall (fun _ s => state_wf (e_limits e) s) (e_states e);
  ei_size : Z.of_nat (size (e_states e)) <= el_max_flow_states (e_limits e);
  ei_thresholds : Z.of_nat (size (e_thresholds e)) <= el_max_threshold_entries (e_limits e);
  ei_rules : Forall (fun r => threshold_wf (cr_threshold r)) (rs_rules (e_ruleset e));
  ei_host_rules : Forall (fun r => threshold_wf (hr_threshold r)) (hs_rules (e_host_rules e));
  ei_host_bits : Z.of_nat (size (e_host_bits e)) <= el_max_flowbits_per_flow (e_limits e);
  ei_counters : ec_matches (e_counters e) =
    ec_alerts (e_counters e) + ec_thresholded (e_counters e) + ec_silent (e_counters e)
}.

Lemma flow_state_default_wf l : limits_wf l -> state_wf l flow_state_default.
Proof. intros (? & ? & ? & ?). split; simpl; try done; split; simpl; lia. Qed.

Lemma size_insert_le `{Countable K} {V} (m : gmap K V) k v :
  Z.of_nat (size (<[k:=v]> m)) <= Z.of_nat (size m) + 1.
Proof. destruct (m !! k) eqn:E; [rewrite map_size_insert_Some by eauto|rewrite map_size_insert_None by done]; lia. Qed.

Lemma size_insert_present `{Countable K} {V} (m : gmap K V) k v :
  is_Some (m !! k) -> size (<[k:=v]> m) = size m.
Proof. intros [x E]. by rewrite map_size_insert_Some by eauto. Qed.

(** *** Thresholds *)

Lemma count_against_threshold_inv e sid t key now :
  engine_inv e -> 1 <= th_count t ->
  exists e' b, count_against_threshold e sid t key now = Some (e', b) /\ engine_inv e'.
Proof.
  intros Hi Ht. unfold count_against_threshold.
  destruct ((_ <=? _) && negb _) eqn:Ef; [eauto|].
  set (entry := if _ <=? _ then _ else _). set (e' := with_thresholds e _).
  assert (Hi' : engine_inv e').
  { destruct Hi. split; try done. unfold e'. simpl.
    destruct (decide (is_Some (e_thresholds e !! (sid, key)))) as [Hs|Hs].
    - by rewrite size_insert_present.
    - rewrite (bool_decide_eq_false_2 _ Hs), andb_true_r in Ef. apply Z.leb_gt in Ef.
      pose proof (size_insert_le (e_thresholds e) (sid, key) (mkThresholdEntry ((te_count entry + 1) mod 2 ^ 32) (te_window_start entry))).
      lia. }
  destruct (th_kind t); [rewrite (proj2 (Z.eqb_neq (th_count t) 0)) by lia|..]; eauto.
Qed.

Lemma threshold_allows_inv e sid t tuple now :
  engine_inv e -> threshold_wf t -> exists e' b, threshold_allows e sid t tuple now = Some (e', b) /\ engine_inv e'.
Proof.
  intros Hi Ht. unfold threshold_allows. destruct t as [t|]; [|eauto].
  by apply count_against_threshold_inv; [|apply Ht].
Qed.

Lemma host_threshold_allows_inv e sid t subject now :
  engine_inv e -> threshold_wf t ->
  exists e' b, host_threshold_allows e sid t subject now = Some (e', b) /\ engine_inv e'.
Proof.
  intros Hi Ht. unfold host_threshold_allows. destruct t as [t|]; [|eauto].
  by apply count_against_threshold_inv; [|apply Ht].
Qed.

Lemma count_match_inv e fate : engine_inv e -> engine_inv (with_counters e (count_match fate (e_counters e))).
Proof. intros []. split; try done. simpl. destruct fate; lia. Qed.

Lemma settle_inv e no_alert allows record :
  engine_inv e -> (exists e' b, allows e = Some (e', b) /\ engine_inv e') ->
  exists e' alerts, settle e no_alert allows record = Some (e', alerts) /\ engine_inv e'.
Proof.
  intros Hi (e1 & b & Ha & Hi1). unfold settle. destruct no_alert; [eauto using count_match_inv|].
  rewrite Ha. simpl. destruct b; eauto using count_match_inv.
Qed.

(** *** Flow states *)

Lemma evict_states_spec ids states n :
  (evict_states ids states n).1 = filter (fun kv => kv.1 ∉ ids) states.
Proof.
  unfold evict_states. revert states n. induction ids as [|id ids IH]; intros states n; simpl.
  - symmetry. apply map_filter_id. intros k v _. simpl. apply not_elem_of_nil.
  - rewrite IH. apply map_eq. intros k. apply option_eq. intros v.
    rewrite !map_lookup_filter_Some, lookup_delete_Some, not_elem_of_cons. naive_solver.
Qed.

Lemma make_room_inv e :
  engine_inv e ->
  engine_inv (make_room e) /\ Z.of_nat (size (e_states (make_room e))) < el_max_flow_states (e_limits e) /\
  e_limits (make_room e) = e_limits e /\ e_ruleset (make_room e) = e_ruleset e /\
  e_longest_pattern (make_room e) = e_longest_pattern e.
Proof.
  intros [Hl Hs Hsz Ht Hr Hh Hb Hc]. unfold make_room.
  destruct (Z.ltb_spec (Z.of_nat (size (e_states e))) (el_max_flow_states (e_limits e))); [done|].
  set (batch := Z.max (el_max_flow_states (e_limits e) / 10) 1).
  pose proof (evict_states_spec (oldest_keys fs_last_seen batch (e_states e)) (e_states e) 0) as E.
  destruct (evict_states _ _ _) as [states evicted]. simpl in E. subst states.
  pose proof (oldest_keys_size fs_last_seen batch (e_states e) ltac:(lia)) as Hsize.
  destruct Hl as (Hm & Hl). split; [|split; [|done]]; simpl.
  - split; try done; simpl; [|lia]. intros k s Hk. apply map_lookup_filter_Some in Hk as [Hk _]. by eapply Hs.
  - lia.
Qed.

(** Replacing or adding the state of one flow, where there is room. *)
Lemma insert_state_inv e id s :
  engine_inv e -> state_wf (e_limits e) s ->
  Z.of_nat (size (e_states e)) < el_max_flow_states (e_limits e) \/ is_Some (e_states e !! id) ->
  engine_inv (with_states e (<[ id := s ]> (e_states e))).
Proof.
  intros [Hl Hs Hsz Ht Hr Hh Hb Hc] Hwf Hroom. split; try done; simpl.
  - by apply map_Forall_insert_2.
  - destruct Hroom as [Hroom|Hroom]; [|by rewrite size_insert_present].
    pose proof (size_insert_le (e_states e) id s). lia.
Qed.

Lemma state_lookup_wf e id : engine_inv e -> state_wf (e_limits e) (unwrap_or flow_state_default (e_states e !! id)).
Proof.
  intros Hi. destruct (e_states e !! id) as [s|] eqn:E; simpl.
  - by apply (ei_states e Hi id).
  - by apply flow_state_default_wf, ei_limits.
Qed.

Lemma apply_pending_inv e flow_id now pending :
  engine_inv e -> engine_inv (apply_pending e flow_id now pending) /\
  e_ruleset (apply_pending e flow_id now pending) = e_ruleset e /\
  e_limits (apply_pending e flow_id now pending) = e_limits e.
Proof.
  intros Hi. unfold apply_pending. destruct pending as [|op ops]; [done|].
  destruct (make_room_inv e Hi) as (Hi' & Hsz & Hl & Hr & _). split; [|split; [exact Hr|exact Hl]].
  apply insert_state_inv; [done| |left; by rewrite Hl].
  destruct (state_lookup_wf (make_room e) flow_id Hi') as [Hbits ? ? ?]. split; try done. simpl.
  destruct (ei_limits _ Hi') as (_ & ? & _). by apply (bits_bounded (op :: ops)).
Qed.
(** *** Inspecting *)

(** What every handler keeps beside the invariant. *)
Definition same_rules (e1 e2 : Engine) : Prop :=
  e_ruleset e2 = e_ruleset e1 /\ e_host_rules e2 = e_host_rules e1 /\ e_limits e2 = e_limits e1 /\
  e_longest_pattern e2 = e_longest_pattern e1.

#[export] Instance same_rules_preorder : PreOrder same_rules.
Proof.
  split; [by intros e|]. intros e1 e2 e3 (A1 & A2 & A3 & A4) (B1 & B2 & B3 & B4).
  unfold same_rules. by rewrite B1, B2, B3, B4.
Qed.

Lemma make_room_same e : same_rules e (make_room e).
Proof. unfold make_room. destruct (_ <? _); [done|]. by destruct (evict_states _ _ _). Qed.

Lemma settle_step e no_alert allows record :
  engine_inv e -> (exists e' b, allows e = Some (e', b) /\ engine_inv e') ->
  (forall e1 e2 b, allows e1 = Some (e2, b) -> same_but_thresholds e1 e2) ->
  exists e' alerts, settle e no_alert allows record = Some (e', alerts) /\ engine_inv e' /\ same_rules e e'.
Proof.
  intros Hi Ha Hf. destruct (settle_inv e no_alert allows record Hi Ha) as (e' & alerts & E & Hi').
  exists e', alerts. split; [done|]. split; [done|].
  apply settle_frame in E as (? & ? & ? & _ & _ & ? & _); [done|exact Hf].
Qed.

Lemma inspect_candidates_inv e input bits now cs :
  engine_inv e ->
  exists e' pending alerts, inspect_candidates e input bits now cs = Some (e', pending, alerts) /\
    engine_inv e' /\ same_rules e e'.
Proof.
  revert e. induction cs as [|i cs IH]; intros e Hi; cbn [inspect_candidates]; [by eexists _, _, _|].
  destruct (rs_rules (e_ruleset e) !! i) as [rule|] eqn:Hr; [|by apply IH].
  destruct (evaluate_total rule input bits) as [r ->]. cbn [mbind option_bind]. destruct r as [effects|]; [|by apply IH].
  assert (Ht : threshold_wf (cr_threshold rule)) by (by eapply (Forall_lookup_1 _ _ _ _ (ei_rules e Hi)), Hr).
  destruct (settle_step e (cr_no_alert rule)
    (fun e => threshold_allows e (cr_sid rule) (cr_threshold rule) (mi_tuple input) now) (network_record rule) Hi)
    as (e1 & alerts & -> & Hi1 & Hs1); [by apply threshold_allows_inv|intros *; apply threshold_allows_frame|].
  cbn [mbind option_bind]. destruct (IH e1 Hi1) as (e2 & pending & more & -> & Hi2 & Hs2).
  cbn [mbind option_bind]. eexists _, _, _. split; [reflexivity|]. split; [done|]. by etrans.
Qed.

Lemma count_inspection_inv e n k : engine_inv e -> engine_inv (with_counters e (count_inspection n k (e_counters e))).
Proof. by intros []. Qed.

Lemma inspect_buffers_inv e flow_id tuple to_server established buffers offered now :
  engine_inv e ->
  exists e' alerts, inspect_buffers e flow_id tuple to_server established buffers offered now = Some (e', alerts) /\
    engine_inv e' /\ same_rules e e'.
Proof.
  intros Hi. unfold inspect_buffers. set (e1 := with_counters e _).
  assert (Hi1 : engine_inv e1) by by apply count_inspection_inv.
  case_bool_decide; [by eexists _, _|]. set (input := mkMatchInput _ _ _ _). set (bits := match _ with Some _ => _ | None => _ end).
  destruct (inspect_candidates_inv e1 input bits now (candidates_in (e_ruleset e) (haystacks buffers offered)) Hi1)
    as (e2 & pending & alerts & -> & Hi2 & Hs2). cbn [mbind option_bind].
  eexists _, _. split; [reflexivity|]. destruct (apply_pending_inv e2 flow_id now pending Hi2) as [Hi3 _].
  split; [done|]. trans e2; [exact Hs2|]. unfold apply_pending. destruct pending; [done|].
  etrans; [apply make_room_same|done].
Qed.

Lemma inspect_requests_inv e flow_id tuple now requests :
  engine_inv e ->
  exists e' alerts, inspect_requests e flow_id tuple now requests = Some (e', alerts) /\ engine_inv e' /\ same_rules e e'.
Proof.
  revert e. induction requests as [|r requests IH]; intros e Hi; cbn [inspect_requests]; [by eexists _, _|].
  destruct (inspect_buffers_inv e flow_id tuple true true (request_buffers r) HTTP_BUFFERS now Hi)
    as (e1 & alerts & -> & Hi1 & Hs1). cbn [mbind option_bind].
  destruct (IH e1 Hi1) as (e2 & more & -> & Hi2 & Hs2). cbn [mbind option_bind].
  eexists _, _. split; [reflexivity|]. split; [done|]. by etrans.
Qed.

Lemma inspect_http_inv e flow_id tuple delivered now :
  engine_inv e ->
  exists e' alerts, inspect_http e flow_id tuple delivered now = Some (e', alerts) /\ engine_inv e' /\ same_rules e e'.
Proof.
  intros Hi. unfold inspect_http. destruct (e_states e !! flow_id) as [state|] eqn:Es; [|by eexists _, _].
  pose proof (ei_states e Hi flow_id state Es) as [Hb Hs Hc Hh].
  set (parser := unwrap_or _ _).
  assert (Hp : hp_max_head parser = Z.max (el_max_http_head (e_limits e)) 64).
  { unfold parser. destruct (fs_http state) as [p|] eqn:Ep; simpl; [by apply Hh|done]. }
  destruct (http_push _ parser delivered) as [parser' requests] eqn:Eh.
  apply http_push_bounded in Eh as (_ & Hlen & Hmax); [|lia].
  set (e1 := with_states e _). assert (Hi1 : engine_inv e1).
  { apply insert_state_inv; [done| |right; eauto]. split; simpl; try done. intros p [= <-]. rewrite Hmax. split; [done|lia]. }
  destruct (inspect_requests_inv e1 flow_id tuple now requests Hi1) as (e2 & alerts & E & Hi2 & Hs2). eauto.
Qed.

(** The delivery appended to the window of its direction. *)
Lemma stream_state_wf e id (to_server : bool) delivered now buffer start dropped :
  engine_inv e ->
  let state := unwrap_or flow_state_default (e_states e !! id) in
  append (if to_server then fs_to_server state else fs_to_client state) delivered (sat_sub (e_longest_pattern e) 1)
    (el_inspection_window (e_limits e)) = (buffer, start, dropped) ->
  state_wf (e_limits e) (if to_server
    then mkFlowState (fs_bits state) buffer (fs_to_client state) now (fs_http state)
    else mkFlowState (fs_bits state) (fs_to_server state) buffer now (fs_http state)) /\
  is_Some (slice (ib_data buffer) start (len (ib_data buffer))).
Proof.
  intros Hi state E. destruct (state_lookup_wf e id Hi) as [Hb Hs Hc Hh]. fold state in Hb, Hs, Hc, Hh.
  destruct (ei_limits e Hi) as (_ & _ & Hw & _).
  apply append_spec in E as (_ & _ & Hwf & _ & Hr); [|by destruct to_server; [apply Hs|apply Hc]|done|unfold sat_sub; lia].
  split; [by destruct to_server; split|]. apply slice_total; lia.
Qed.

Lemma inspect_stream_inv e flow_id tuple to_server delivered now :
  engine_inv e ->
  exists e' alerts, inspect_stream e flow_id tuple to_server delivered now = Some (e', alerts) /\
    engine_inv e' /\ same_rules e e'.
Proof.
  intros Hi. unfold inspect_stream. case_bool_decide; [by eexists _, _|].
  destruct (make_room_inv e Hi) as (Hi0 & Hsz & Hl & _ & _). pose proof (make_room_same e) as Hs0.
  set (e0 := make_room e) in *. set (state := unwrap_or _ _).
  destruct (append _ _ _ _) as [[buffer start] dropped] eqn:Ea.
  destruct (stream_state_wf e0 flow_id to_server delivered now buffer start dropped Hi0 Ea) as [Hwf [region ->]].
  fold state in Hwf. match type of Hwf with state_wf _ ?s => set (state' := s) in * end. cbn [mbind option_bind].
  set (e1 := with_counters _ _).
  assert (Hi1 : engine_inv e1).
  { pose proof (insert_state_inv e0 flow_id state' Hi0 Hwf) as Hins. destruct Hins; [left; by rewrite Hl|]. done. }
  destruct (inspect_buffers_inv e1 flow_id tuple to_server true (payload_only region) [Payload] now Hi1)
    as (e2 & alerts & E2 & Hi2 & Hs2). unfold inspect. rewrite E2. cbn [mbind option_bind].
  assert (same_rules e e2) by (etrans; [exact Hs0|exact Hs2]).
  destruct (to_server && engine_needs_http e2); [|by eexists _, _].
  destruct (inspect_http_inv e2 flow_id tuple delivered now Hi2) as (e3 & more & -> & Hi3 & Hs3).
  cbn [mbind option_bind]. eexists _, _. split; [reflexivity|]. split; [done|]. by etrans.
Qed.

Lemma inspect_host_candidates_inv e o bits now cs :
  engine_inv e ->
  exists e' pending alerts, inspect_host_candidates e o bits now cs = Some (e', pending, alerts) /\
    engine_inv e' /\ same_rules e e'.
Proof.
  revert e. induction cs as [|i cs IH]; intros e Hi; cbn [inspect_host_candidates]; [by eexists _, _, _|].
  destruct (hs_rules (e_host_rules e) !! i) as [rule|] eqn:Hr; [|by apply IH].
  destruct (evaluate_host rule o bits) as [effects|]; [|by apply IH].
  assert (Ht : threshold_wf (hr_threshold rule)) by (by eapply (Forall_lookup_1 _ _ _ _ (ei_host_rules e Hi)), Hr).
  destruct (settle_step e (hr_no_alert rule)
    (fun e => host_threshold_allows e (hr_sid rule) (hr_threshold rule) (subject o) now) (host_record rule) Hi)
    as (e1 & alerts & -> & Hi1 & Hs1); [by apply host_threshold_allows_inv|intros *; apply host_threshold_allows_frame|].
  cbn [mbind option_bind]. destruct (IH e1 Hi1) as (e2 & pending & more & -> & Hi2 & Hs2).
  cbn [mbind option_bind]. eexists _, _, _. split; [reflexivity|]. split; [done|]. by etrans.
Qed.

Lemma inspect_host_inv e o now :
  engine_inv e ->
  exists e' alerts, inspect_host e o now = Some (e', alerts) /\ engine_inv e' /\ same_rules e e'.
Proof.
  intros Hi. unfold inspect_host. case_bool_decide; [by eexists _, _|]. set (e1 := with_counters e _).
  assert (Hi1 : engine_inv e1) by by apply count_inspection_inv.
  destruct (inspect_host_candidates_inv e1 o (e_host_bits e1) now
    (host_candidates (e_host_rules e) (observation_kind o)) Hi1) as (e2 & pending & alerts & -> & Hi2 & Hs2).
  cbn [mbind option_bind]. eexists _, _. split; [reflexivity|]. split; [|exact Hs2].
  destruct Hi2. destruct ei_limits0 as (? & ? & ?). split; try done. simpl. by apply bits_bounded.
Qed.

(** *** Every engine that can be reached *)

Inductive EngineInput :=
| IPacket (flow_id : Z) (tuple : NetTuple) (to_server : bool) (payload : list Z) (now : Z)
| IStream (flow_id : Z) (tuple : NetTuple) (to_server : bool) (delivered : list Z) (now : Z)
| IHost (o : HostObservation) (now : Z)
| IFlowEnd (flow_id : Z).

Definition engine_step (e : Engine) (i : EngineInput) : option (Engine * list AlertRecord) :=
  match i with
  | IPacket flow_id tuple to_server payload now => inspect_packet e flow_id tuple to_server payload now
  | IStream flow_id tuple to_server delivered now => inspect_stream e flow_id tuple to_server delivered now
  | IHost o now => inspect_host e o now
  | IFlowEnd flow_id => Some (on_flow_end e flow_id, [])
  end.

Fixpoint engine_run (e : Engine) (inputs : list EngineInput) : option (Engine * list AlertRecord) :=
  match inputs with
  | [] => Some (e, [])
  | i :: inputs' =>
      '(e, alerts) ← engine_step e i;
      '(e, more) ← engine_run e inputs';
      Some (e, alerts ++ more)
  end.

Lemma engine_step_inv e i :
  engine_inv e -> exists e' alerts, engine_step e i = Some (e', alerts) /\ engine_inv e' /\ same_rules e e'.
Proof.
  intros Hi. destruct i as [id tuple ts p now|id tuple ts d now|o now|id]; simpl.
  - by apply inspect_buffers_inv.
  - by apply inspect_stream_inv.
  - by apply inspect_host_inv.
  - eexists _, _. split; [reflexivity|]. split; [|done]. destruct Hi. split; try done; simpl.
    + by apply map_Forall_delete.
    + rewrite map_size_delete. destruct (e_states e !! id); simpl; lia.
Qed.

Lemma engine_run_inv e inputs :
  engine_inv e -> exists e' alerts, engine_run e inputs = Some (e', alerts) /\ engine_inv e' /\ same_rules e e'.
Proof.
  revert e. induction inputs as [|i inputs IH]; intros e Hi; cbn [engine_run]; [by eexists _, _|].
  destruct (engine_step_inv e i Hi) as (e1 & a1 & -> & Hi1 & Hs1). cbn [mbind option_bind].
  destruct (IH e1 Hi1) as (e2 & a2 & -> & Hi2 & Hs2). cbn [mbind option_bind].
  eexists _, _. split; [reflexivity|]. split; [done|]. by etrans.
Qed.

Lemma engine_new_inv rules vars limits :
  limits_wf limits -> Forall (fun r => threshold_wf (r_threshold r)) rules ->
  exists e rep, engine_new rules vars limits = Some (e, rep) /\ engine_inv e.
Proof.
  intros Hl Ht. unfold engine_new. set (host_input := List.filter is_host_rule_by_options rules). set (network := List.filter _ rules).
  destruct (compile_total network vars (el_compile limits)) as [[rs rep] E]. rewrite E. cbn [mbind option_bind].
  destruct (compile_host host_input (el_compile limits)) as [hs hrep] eqn:Eh. eexists _, _. split; [reflexivity|].
  assert (Hsub : forall f r, r ∈ List.filter f rules -> threshold_wf (r_threshold r)).
  { intros f r Hr. apply list_elem_of_In, filter_In in Hr as [Hr _]. apply list_elem_of_In in Hr.
    rewrite Forall_forall in Ht. by apply Ht. }
  destruct Hl as (? & ? & ? & ?). split; simpl; try done.
  - rewrite map_size_empty. lia.
  - apply Forall_forall. intros r Hr. apply compile_accounted in E as (st & Hacc & Hrs & _). rewrite Hrs in Hr.
    destruct (acc_compiled _ _ _ _ Hacc r Hr) as (rule & Hin & Hc).
    apply compile_rule_inv in Hc as (_ & _ & _ & _ & _ & -> & _). by eapply Hsub.
  - apply Forall_forall. intros r Hr. pose proof (compile_host_origin host_input (el_compile limits) r) as Ho.
    rewrite Eh in Ho. destruct (Ho Hr) as (rule & Hin & Hc).
    apply compile_host_rule_threshold in Hc as ->. by eapply Hsub.
Qed.

(** C19: the engine is built from any ruleset, and then takes any sequence of packets, stream
    deliveries, host events and flow ends without a panic. Whatever the traffic was, the number of
    flow states, the bits and the bytes each holds (in either direction, and in its HTTP parser),
    the bits of the host and the number of threshold counters are within their limits, and every
    match is accounted for as an alert, as suppressed or as silent. *)
Theorem engine_bounded rules vars limits inputs :
  limits_wf limits -> Forall (fun r => threshold_wf (r_threshold r)) rules ->
  exists e0 rep e alerts, engine_new rules vars limits = Some (e0, rep) /\
    engine_run e0 inputs = Some (e, alerts) /\ engine_inv e /\ same_rules e0 e.
Proof.
  intros Hl Ht. destruct (engine_new_inv rules vars limits Hl Ht) as (e0 & rep & E0 & Hi0).
  destruct (engine_run_inv e0 inputs Hi0) as (e & alerts & E & Hi & Hs). eauto 10.
Qed.
End bounds.

(** ** Running the engine *)

Definition small_limits : EngineLimits :=
  mkEngineLimits CompileLimits_default 4 4 256 4 NormalizeOptions_default 64.

(** The numbers of the rules that alerted on a sequence of inputs. *)
Definition alerted (rules : list Rule) (inputs : list EngineInput) : option (list Z) :=
  match engine_new rules (mkVarTable ∅ ∅) small_limits with
  | None => None
  | Some (e, _) =>
      match engine_run e inputs with
      | None => None
      | Some (_, alerts) => Some (map ar_sid alerts)
      end
  end.

Definition deliver (s : string) : EngineInput := IStream 1 tcp_tuple true (of_string s) 0.

Lemma engine_bounded_witness :
  exists e0 rep e alerts, engine_new sample_rules (mkVarTable ∅ ∅) small_limits = Some (e0, rep) /\
    engine_run e0 [deliver "so e"; deliver "vil"; IFlowEnd 1] = Some (e, alerts) /\ engine_inv e /\ same_rules e0 e.
Proof.
  apply (engine_bounded sample_rules (mkVarTable ∅ ∅) small_limits); [repeat split; simpl; lia|].
  repeat constructor; intros x Hx; discriminate Hx.
Defined.

(** A pattern split over two deliveries is found, and once. *)
Example split_pattern_alerts : alerted [simple_rule 1 [payload_content "evil"]] [deliver "so e"; deliver "vil"] = Some [1].
Proof. vm_compute. reflexivity. Qed.

(** The overlap that is scanned again is as long as the longest pattern of the ruleset, so an
    occurrence of a shorter pattern near the end of a delivery is found again in the next one: one
    occurrence, two alerts. *)
Theorem overlap_alerts_twice :
  alerted [simple_rule 1 [payload_content "evil"]; simple_rule 2 [payload_content "a much longer pattern"]]
    [deliver "evil"; deliver "benign"] = Some [1; 1].
Proof. vm_compute. reflexivity. Qed.

(** Only that overlap is scanned again, although the window still holds the earlier bytes: two
    contents of one rule that arrive in one delivery are found, and the same bytes in two deliveries
    are not. *)
Theorem contents_across_deliveries_missed :
  let rules := [simple_rule 1 [payload_content "user"; payload_content "root"]] in
  alerted rules [deliver "user=root"] = Some [1] /\ alerted rules [deliver "user="; deliver "root"] = Some [].
Proof. vm_compute. auto. Qed.

(** An engine around a ruleset, before any traffic. *)
Definition fresh_engine (rs : CompiledRuleset) : Engine :=
  mkEngine rs small_limits ∅ ∅ counters_default (longest_pattern rs) (mkHostRuleset [] ∅) ∅.

Lemma threshold_alerts_witness :
  exists verdicts,
    threshold_run (fresh_engine (mkCompiledRuleset [] ∅ [] [])) 7 (mkThreshold KLimit BySource 2 60) [] [5; 6; 4; 7] =
    Some verdicts /\ len (filter (fun v => v = true) verdicts) = 2.
Proof.
  apply (threshold_alerts (fresh_engine (mkCompiledRuleset [] ∅ [] [])) 7 (mkThreshold KLimit BySource 2 60) [] 5 [6; 4; 7]);
    [reflexivity|reflexivity| |reflexivity|simpl; lia|reflexivity].
  repeat constructor; unfold secs; simpl; lia.
Defined.

Lemma engine_misses_no_rule_witness :
  exists rs rep, compile sample_rules (mkVarTable ∅ ∅) CompileLimits_default = Some (rs, rep) /\
    let input := mkMatchInput tcp_tuple true true (payload_only (of_string "so evil")) in
    inspect_candidates (fresh_engine rs) input ∅ 0 (candidates_in rs (haystacks (payload_only (of_string "so evil")) [Payload])) =
    inspect_candidates (fresh_engine rs) input ∅ 0 (seq 0 (length (rs_rules rs))).
Proof.
  destruct (compile_total sample_rules (mkVarTable ∅ ∅) CompileLimits_default) as [[rs rep] E].
  exists rs, rep. split; [exact E|].
  apply (engine_misses_no_rule sample_rules (mkVarTable ∅ ∅) CompileLimits_default rep (fresh_engine rs)); [exact E|].
  left. by exists (of_string "so evil").
Defined.
