(* ===== verification/Prevent.v ===== *)
(** Inline prevention: [crates/prevent/src/store.rs], [queue.rs], [depth.rs] and [nft.rs].

    The verdict store (what is blocked, and the decision taken for each packet), the loop that judges
    the packets of a source, the reading of a 5-tuple from a bare IP packet, and the arithmetic of the
    kernel's queue counters. [Instant]s and [Duration]s are integers; a clock that is read inside the
    loop is an argument of it. The kernel queue is in [VerdictQueue]. *)

From S2P Require Import Prelude Net Event.

(** ** The store *)

Definition DEFAULT_MAX_BLOCKED_FLOWS : Z := 65536.
Definition DEFAULT_MAX_BLOCKED_SOURCES : Z := 16384.
Definition DEFAULT_SOURCE_BLOCK : Z := secs 600.

Inductive Mode := Detect | Prevent.

#[global] Instance Mode_eq_dec : EqDecision Mode.
Proof. solve_decision. Defined.

Definition mode_as_str (m : Mode) : string :=
  match m with Detect => "detect"%string | Prevent => "prevent"%string end.

Inductive FailMode := Open | Closed.

Definition fail_mode_as_str (m : FailMode) : string :=
  match m with Open => "open"%string | Closed => "closed"%string end.

Inductive DropReason := FlowVerdict | BlockedSource.

#[global] Instance DropReason_eq_dec : EqDecision DropReason.
Proof. solve_decision. Defined.

Definition drop_reason_as_str (r : DropReason) : string :=
  match r with FlowVerdict => "flow_verdict"%string | BlockedSource => "blocked_source"%string end.

Inductive Decision := Accept | Drop (reason : DropReason).

#[global] Instance Decision_eq_dec : EqDecision Decision.
Proof. solve_decision. Defined.

Definition is_drop (d : Decision) : bool := match d with Drop _ => true | Accept => false end.

Inductive BlockOutcome :=
| Blocked (source : option IpAddr)
| NotArmed
| AllowListed (address : IpAddr)
| Full.

Record PreventionSettings := mkSettings {
  mode : Mode;
  fail_mode : FailMode;
  allow_list : list IpNetwork;
  source_block : Z;
  max_blocked_flows : Z;
  max_blocked_sources : Z
}.

Definition PreventionSettings_default : PreventionSettings :=
  mkSettings Detect Open [] DEFAULT_SOURCE_BLOCK DEFAULT_MAX_BLOCKED_FLOWS DEFAULT_MAX_BLOCKED_SOURCES.

Record FlowKey := mkFlowKey {
  fk_protocol : Z;
  lower : Endpoint;
  upper : Endpoint
}.

#[global] Instance FlowKey_eq_dec : EqDecision FlowKey.
Proof. solve_decision. Defined.

#[global] Instance FlowKey_countable : Countable FlowKey :=
  inj_countable'
    (fun k => (fk_protocol k, lower k, upper k))
    (fun t => mkFlowKey t.1.1 t.1.2 t.2)
    (fun k => match k with mkFlowKey _ _ _ => eq_refl end).

(** [FlowKey::from_tuple]. *)
Definition from_tuple (t : NetTuple) : FlowKey :=
  let a := (src_ip t, unwrap_or 0 (src_port t)) in
  let b := (dest_ip t, unwrap_or 0 (dest_port t)) in
  let '(lo, hi) := if endpoint_leb a b then (a, b) else (b, a) in
  mkFlowKey (protocol_as_u8 (proto t)) lo hi.

(** The counters of [PreventStats] ([crates/common/src/event.rs]). *)
Record PreventStats := mkStats {
  enabled : bool;
  st_mode : string;
  st_fail_mode : string;
  packets_judged : Z;
  packets_dropped : Z;
  allow_listed_passes : Z;
  allow_listed_blocks_refused : Z;
  flows_blocked : Z;
  sources_blocked : Z;
  blocked_flows_active : Z;
  blocked_sources_active : Z;
  flow_verdicts_expired : Z;
  source_blocks_expired : Z;
  blocks_dropped_at_capacity : Z;
  fail_mode_packets : Z;
  verdict_latency_us_total : Z;
  verdict_latency_us_max : Z;
  verdict_latency_over_1ms : Z;
  verdict_latency_over_10ms : Z;
  queue_depth : Z;
  queue_depth_max : Z;
  queue_unjudged : Z
}.

Record Prevention := mkPrevention {
  settings : PreventionSettings;
  flows : gmap FlowKey Z;
  sources : gmap IpAddr Z;
  stats_ : PreventStats
}.

Definition new (s : PreventionSettings) : Prevention :=
  mkPrevention s ∅ ∅
    (mkStats true (mode_as_str (mode s)) (fail_mode_as_str (fail_mode s))
       0 0 0 0 0 0 0 0 0 0 0 0 0 0 0 0 0 0 0).

Definition armed (p : Prevention) : bool := bool_decide (mode (settings p) = Prevent).

Definition source_block_timeout (p : Prevention) : Z := source_block (settings p).

(** *** Updates of the counters *)

(** Verdicts: judged, dropped, passes through the allow-list. *)
Definition count_verdict (s : PreventStats) (judged dropped passes : Z) : PreventStats :=
  mkStats (enabled s) (st_mode s) (st_fail_mode s) (packets_judged s + judged)
    (packets_dropped s + dropped) (allow_listed_passes s + passes) (allow_listed_blocks_refused s)
    (flows_blocked s) (sources_blocked s) (blocked_flows_active s) (blocked_sources_active s)
    (flow_verdicts_expired s) (source_blocks_expired s) (blocks_dropped_at_capacity s)
    (fail_mode_packets s) (verdict_latency_us_total s) (verdict_latency_us_max s)
    (verdict_latency_over_1ms s) (verdict_latency_over_10ms s) (queue_depth s) (queue_depth_max s)
    (queue_unjudged s).

(** Blocks: refused by the allow-list, flows and sources recorded, refused at capacity. *)
Definition count_block (s : PreventStats) (refused nflows nsources capacity : Z) : PreventStats :=
  mkStats (enabled s) (st_mode s) (st_fail_mode s) (packets_judged s)
    (packets_dropped s) (allow_listed_passes s) (allow_listed_blocks_refused s + refused)
    (flows_blocked s + nflows) (sources_blocked s + nsources) (blocked_flows_active s)
    (blocked_sources_active s) (flow_verdicts_expired s) (source_blocks_expired s)
    (blocks_dropped_at_capacity s + capacity)
    (fail_mode_packets s) (verdict_latency_us_total s) (verdict_latency_us_max s)
    (verdict_latency_over_1ms s) (verdict_latency_over_10ms s) (queue_depth s) (queue_depth_max s)
    (queue_unjudged s).

(** Verdicts of flows and sources that lapsed. *)
Definition count_expired (s : PreventStats) (nflows nsources : Z) : PreventStats :=
  mkStats (enabled s) (st_mode s) (st_fail_mode s) (packets_judged s)
    (packets_dropped s) (allow_listed_passes s) (allow_listed_blocks_refused s)
    (flows_blocked s) (sources_blocked s) (blocked_flows_active s) (blocked_sources_active s)
    (flow_verdicts_expired s + nflows) (source_blocks_expired s + nsources)
    (blocks_dropped_at_capacity s) (fail_mode_packets s) (verdict_latency_us_total s)
    (verdict_latency_us_max s) (verdict_latency_over_1ms s) (verdict_latency_over_10ms s)
    (queue_depth s) (queue_depth_max s) (queue_unjudged s).

Definition set_stats (p : Prevention) (s : PreventStats) : Prevention :=
  mkPrevention (settings p) (flows p) (sources p) s.

(** *** Operations *)

Definition set_mode (p : Prevention) (m : Mode) : Prevention :=
  let s := settings p in
  let st := stats_ p in
  mkPrevention
    (mkSettings m (fail_mode s) (allow_list s) (source_block s) (max_blocked_flows s)
       (max_blocked_sources s))
    (flows p) (sources p)
    (mkStats (enabled st) (mode_as_str m) (st_fail_mode st) (packets_judged st)
       (packets_dropped st) (allow_listed_passes st) (allow_listed_blocks_refused st)
       (flows_blocked st) (sources_blocked st) (blocked_flows_active st) (blocked_sources_active st)
       (flow_verdicts_expired st) (source_blocks_expired st) (blocks_dropped_at_capacity st)
       (fail_mode_packets st) (verdict_latency_us_total st) (verdict_latency_us_max st)
       (verdict_latency_over_1ms st) (verdict_latency_over_10ms st) (queue_depth st)
       (queue_depth_max st) (queue_unjudged st)).

Definition is_allow_listed (p : Prevention) (a : IpAddr) : bool :=
  existsb (fun network => contains network a) (allow_list (settings p)).

(** [decide]: the checks in the order of the source. *)
Definition decide (p : Prevention) (t : NetTuple) (now : Z) : Prevention * Decision :=
  let p := set_stats p (count_verdict (stats_ p) 1 0 0) in
  if negb (armed p) then (p, Accept)
  else if is_allow_listed p (src_ip t) || is_allow_listed p (dest_ip t) then
    (set_stats p (count_verdict (stats_ p) 0 0 1), Accept)
  else if bool_decide (is_Some (flows p !! from_tuple t)) then
    (set_stats p (count_verdict (stats_ p) 0 1 0), Drop FlowVerdict)
  else
    match sources p !! src_ip t with
    | Some until =>
        if now <? until then (set_stats p (count_verdict (stats_ p) 0 1 0), Drop BlockedSource)
        else (mkPrevention (settings p) (flows p) (delete (src_ip t) (sources p))
                (count_expired (stats_ p) 0 1), Accept)
    | None => (p, Accept)
    end.

(** [block]: the first of the two addresses on the allow-list is the one reported. [None] is the panic
    of the addition, with the lock of the store held: what the store holds then is not used again. *)
Definition block (p : Prevention) (t : NetTuple) (now : Z) : option (Prevention * BlockOutcome) :=
  if negb (armed p) then Some (p, NotArmed)
  else
    match List.find (is_allow_listed p) [src_ip t; dest_ip t] with
    | Some address => Some (set_stats p (count_block (stats_ p) 1 0 0 0), AllowListed address)
    | None =>
        if (max_blocked_flows (settings p) <=? Z.of_nat (size (flows p))) ||
           (max_blocked_sources (settings p) <=? Z.of_nat (size (sources p))) then
          Some (set_stats p (count_block (stats_ p) 0 0 0 1), Full)
        else
          expiry ← instant_add now (source_block (settings p));
          let already := bool_decide (is_Some (sources p !! src_ip t)) in
          Some (mkPrevention (settings p) (<[from_tuple t := now]> (flows p))
                  (<[src_ip t := expiry]> (sources p))
                  (count_block (stats_ p) 0 1 (if already then 0 else 1) 0),
                Blocked (Some (src_ip t)))
    end.

(** [expire]. [Instant::duration_since] saturates at zero. *)
Definition expire (p : Prevention) (now : Z) : Prevention :=
  let horizon := source_block (settings p) in
  let flows' := filter (fun kv => sat_sub now kv.2 < horizon) (flows p) in
  let sources' := filter (fun kv => now < kv.2) (sources p) in
  mkPrevention (settings p) flows' sources'
    (count_expired (stats_ p) (Z.of_nat (size (flows p)) - Z.of_nat (size flows'))
       (Z.of_nat (size (sources p)) - Z.of_nat (size sources'))).

(** [stats]: the counters with the current sizes filled in. *)
Definition stats (p : Prevention) : PreventStats :=
  let s := stats_ p in
  mkStats (enabled s) (st_mode s) (st_fail_mode s) (packets_judged s)
    (packets_dropped s) (allow_listed_passes s) (allow_listed_blocks_refused s)
    (flows_blocked s) (sources_blocked s) (Z.of_nat (size (flows p))) (Z.of_nat (size (sources p)))
    (flow_verdicts_expired s) (source_blocks_expired s) (blocks_dropped_at_capacity s)
    (fail_mode_packets s) (verdict_latency_us_total s) (verdict_latency_us_max s)
    (verdict_latency_over_1ms s) (verdict_latency_over_10ms s) (queue_depth s) (queue_depth_max s)
    (queue_unjudged s).

Definition record_latency (p : Prevention) (micros : Z) : Prevention :=
  let s := stats_ p in
  set_stats p (mkStats (enabled s) (st_mode s) (st_fail_mode s) (packets_judged s)
    (packets_dropped s) (allow_listed_passes s) (allow_listed_blocks_refused s)
    (flows_blocked s) (sources_blocked s) (blocked_flows_active s) (blocked_sources_active s)
    (flow_verdicts_expired s) (source_blocks_expired s) (blocks_dropped_at_capacity s)
    (fail_mode_packets s) (verdict_latency_us_total s + micros)
    (Z.max (verdict_latency_us_max s) micros)
    (verdict_latency_over_1ms s + (if 1000 <? micros then 1 else 0))
    (verdict_latency_over_10ms s + (if 10000 <? micros then 1 else 0)) (queue_depth s)
    (queue_depth_max s) (queue_unjudged s)).

Definition record_fail_mode_applied (p : Prevention) (packets : Z) : Prevention :=
  let s := stats_ p in
  set_stats p (mkStats (enabled s) (st_mode s) (st_fail_mode s) (packets_judged s)
    (packets_dropped s) (allow_listed_passes s) (allow_listed_blocks_refused s)
    (flows_blocked s) (sources_blocked s) (blocked_flows_active s) (blocked_sources_active s)
    (flow_verdicts_expired s) (source_blocks_expired s) (blocks_dropped_at_capacity s)
    (fail_mode_packets s + packets) (verdict_latency_us_total s) (verdict_latency_us_max s)
    (verdict_latency_over_1ms s) (verdict_latency_over_10ms s) (queue_depth s) (queue_depth_max s)
    (queue_unjudged s)).

(** *** Queue depth ([depth.rs]) *)

Record QueueDepth := mkQueueDepth {
  queue_num : Z;
  queued : Z;
  queue_dropped : Z;
  user_dropped : Z;
  id_sequence : Z
}.

Definition unjudged (d : QueueDepth) : Z := queue_dropped d + user_dropped d.

Definition MIN_NETLINK_RECV_BUFFER : Z := 4 * 1024 * 1024.

Definition buffer_is_adequate (n : Z) : bool := MIN_NETLINK_RECV_BUFFER <=? n.

Definition record_queue_depth (p : Prevention) (d : QueueDepth) : Prevention :=
  let s := stats_ p in
  set_stats p (mkStats (enabled s) (st_mode s) (st_fail_mode s) (packets_judged s)
    (packets_dropped s) (allow_listed_passes s) (allow_listed_blocks_refused s)
    (flows_blocked s) (sources_blocked s) (blocked_flows_active s) (blocked_sources_active s)
    (flow_verdicts_expired s) (source_blocks_expired s) (blocks_dropped_at_capacity s)
    (fail_mode_packets s) (verdict_latency_us_total s) (verdict_latency_us_max s)
    (verdict_latency_over_1ms s) (verdict_latency_over_10ms s) (queued d)
    (Z.max (queue_depth_max s) (queued d)) (unjudged d)).

(** ** The driver ([queue.rs]) *)

Record QueuedPacket := mkQueuedPacket {
  qp_id : Z;
  tuple : NetTuple;
  received : Z
}.

(** [trait VerdictSource]. [next_packet] answers [None] when the call has not returned: the source is
    then as it waits for a packet. *)
Class VerdictSource (S : Type) := {
  next_packet : S -> option (option QueuedPacket) * S;
  resolve : S -> QueuedPacket -> Decision -> S
}.

Definition judge (p : Prevention) (packet : QueuedPacket) (now : Z) : Prevention * Decision :=
  decide p (tuple packet) now.

(** The two readings of the clock of one packet, in nanoseconds: when it is judged, and once the
    verdict has been sent. *)
Record ClockReading := mkClockReading {
  judged_at : Z;
  resolved_at : Z
}.

(** [received.elapsed().as_micros()]. *)
Definition elapsed_micros (packet : QueuedPacket) (clock : ClockReading) : Z :=
  sat_sub (resolved_at clock) (received packet) / 1000.

(** [u64::try_from(...).unwrap_or(u64::MAX)]. *)
Definition to_u64 (x : Z) : Z := if (0 <=? x) && (x <=? U64_MAX) then x else U64_MAX.

Definition judge_and_resolve {Src : Type} `{!VerdictSource Src} (source : Src) (p : Prevention)
    (packet : QueuedPacket) (clock : ClockReading) : Src * Prevention * Decision :=
  let '(p, decision) := judge p packet (judged_at clock) in
  let source := resolve source packet decision in
  (source, record_latency p (to_u64 (elapsed_micros packet clock)), decision).

Record RunSummary := mkRunSummary {
  accepted : Z;
  dropped : Z
}.

(** [run]: judge everything the source produces. The readings of the clock are the loop's fuel: the
    result is [None] when the source has not ended after as many packets or is still waiting. *)
Fixpoint run {Src : Type} `{!VerdictSource Src} (clocks : list ClockReading) (source : Src) (p : Prevention)
    (summary : RunSummary) : option (Src * Prevention * RunSummary) :=
  match next_packet source with
  | (None, _) => None
  | (Some None, source) => Some (source, p, summary)
  | (Some (Some packet), source) =>
      match clocks with
      | [] => None
      | clock :: clocks =>
          let '(source, p, decision) := judge_and_resolve source p packet clock in
          run clocks source p
            (match decision with
             | Accept => mkRunSummary (accepted summary + 1) (dropped summary)
             | Drop _ => mkRunSummary (accepted summary) (dropped summary + 1)
             end)
      end
  end.

Record OfflineQueue := mkOfflineQueue {
  pending : list QueuedPacket;
  verdicts : list (Z * Decision)
}.

Definition offline_new (packets : list QueuedPacket) : OfflineQueue := mkOfflineQueue packets [].

Definition all_accepted (q : OfflineQueue) : bool :=
  forallb (fun v => bool_decide (v.2 = Accept)) (verdicts q).

Definition decisions (q : OfflineQueue) : list Decision := (verdicts q).*2.

#[global] Instance OfflineQueue_source : VerdictSource OfflineQueue := {
  next_packet := fun q => match pending q with
                          | [] => (Some None, q)
                          | packet :: rest => (Some (Some packet), mkOfflineQueue rest (verdicts q))
                          end;
  resolve := fun q packet decision =>
    mkOfflineQueue (pending q) (verdicts q ++ [(qp_id packet, decision)])
}.

(** *** The 5-tuple of a bare IP packet *)

(** [bytes.get(i)]. *)
Definition get (bytes : list Z) (i : Z) : option Z := bytes !! Z.to_nat i.

(** [bytes.get(i..)]. *)
Definition get_from (bytes : list Z) (i : Z) : option (list Z) :=
  if i <=? len bytes then Some (drop (Z.to_nat i) bytes) else None.

Definition ipv4_fields (bytes : list Z) : option (IpAddr * IpAddr * Z * option (list Z)) :=
  b0 ← get bytes 0;
  let header_len := Z.land b0 0x0f * 4 in
  if (header_len <? 20) || (len bytes <? header_len) then None
  else
    protocol ← get bytes 9;
    s0 ← get bytes 12; s1 ← get bytes 13; s2 ← get bytes 14; s3 ← get bytes 15;
    d0 ← get bytes 16; d1 ← get bytes 17; d2 ← get bytes 18; d3 ← get bytes 19;
    f0 ← get bytes 6; f1 ← get bytes 7;
    let fragment_offset := from_be_bytes [Z.land f0 0x1f; f1] in
    let transport := if fragment_offset =? 0 then get_from bytes header_len else None in
    Some (V4 (from_be_bytes [s0; s1; s2; s3]), V4 (from_be_bytes [d0; d1; d2; d3]), protocol, transport).

Definition ipv6_fields (bytes : list Z) : option (IpAddr * IpAddr * Z * option (list Z)) :=
  if len bytes <? 40 then None
  else
    protocol ← get bytes 6;
    source ← slice bytes 8 24;
    destination ← slice bytes 24 40;
    Some (V6 (from_be_bytes source), V6 (from_be_bytes destination), protocol, get_from bytes 40).

(** The protocol, and whether it has ports. *)
Definition transport_protocol (protocol : Z) : Protocol * bool :=
  if protocol =? 6 then (Tcp, true)
  else if protocol =? 17 then (Udp, true)
  else if (protocol =? 1) || (protocol =? 58) then (Icmp, false)
  else (Ip, false).

Definition ports (wants_ports : bool) (transport : option (list Z)) : option Z * option Z :=
  match wants_ports, transport with
  | true, Some (p0 :: p1 :: p2 :: p3 :: _) =>
      (Some (from_be_bytes [p0; p1]), Some (from_be_bytes [p2; p3]))
  | _, _ => (None, None)
  end.

(** [tuple_from_ip_packet]. *)
Definition tuple_from_ip_packet (bytes : list Z) : option NetTuple :=
  b0 ← get bytes 0;
  let version := Z.shiftr b0 4 in
  '(source, destination, protocol, transport) ←
    (if version =? 4 then ipv4_fields bytes
     else if version =? 6 then ipv6_fields bytes
     else None);
  let '(proto, wants_ports) := transport_protocol protocol in
  let '(src_port, dest_port) := ports wants_ports transport in
  Some (mkNetTuple source src_port destination dest_port proto).

(** ** Runs of the store *)

Inductive PreventOp :=
| DecideOp (t : NetTuple) (now : Z)
| BlockOp (t : NetTuple) (now : Z)
| ExpireOp (now : Z)
| ModeOp (m : Mode)
| LatencyOp (micros : Z)
| DepthOp (d : QueueDepth)
| FailModeOp (packets : Z).

(** [None] is a panic, after which the lock is poisoned and nothing is done to the store. *)
Definition run_op (p : Prevention) (op : PreventOp) : option Prevention :=
  match op with
  | DecideOp t now => Some (decide p t now).1
  | BlockOp t now => fst <$> block p t now
  | ExpireOp now => Some (expire p now)
  | ModeOp m => Some (set_mode p m)
  | LatencyOp micros => Some (record_latency p micros)
  | DepthOp d => Some (record_queue_depth p d)
  | FailModeOp packets => Some (record_fail_mode_applied p packets)
  end.

Fixpoint run_ops (p : Prevention) (ops : list PreventOp) : option Prevention :=
  match ops with [] => Some p | op :: ops' => p ← run_op p op; run_ops p ops' end.

Lemma run_ops_app p l k : run_ops p (l ++ k) = q ← run_ops p l; run_ops q k.
Proof.
  revert p. induction l as [|op l IH]; intros p; [done|]. cbn [run_ops app]. destruct (run_op p op); [apply IH|done].
Qed.

(** ** What the operations do to the two tables *)

(** Everything of the settings but the mode. *)
Definition same_settings (p q : Prevention) : Prop :=
  allow_list (settings q) = allow_list (settings p) /\
  source_block (settings q) = source_block (settings p) /\
  max_blocked_flows (settings q) = max_blocked_flows (settings p) /\
  max_blocked_sources (settings q) = max_blocked_sources (settings p).

Lemma is_allow_listed_ext p q a :
  allow_list (settings q) = allow_list (settings p) -> is_allow_listed q a = is_allow_listed p a.
Proof. intros E. unfold is_allow_listed. by rewrite E. Qed.

Lemma decide_tables p t now :
  settings (decide p t now).1 = settings p /\ flows (decide p t now).1 = flows p /\
  sources (decide p t now).1 ⊆ sources p.
Proof.
  unfold decide. repeat case_match; simpl; try done. split_and!; try done. apply delete_subseteq.
Qed.

(** The guards of [block], passed. *)
Definition blockable (p : Prevention) (t : NetTuple) : Prop :=
  armed p = true /\ is_allow_listed p (src_ip t) = false /\ is_allow_listed p (dest_ip t) = false /\
  Z.of_nat (size (flows p)) < max_blocked_flows (settings p) /\
  Z.of_nat (size (sources p)) < max_blocked_sources (settings p).

(** [block] records both verdicts, or leaves the tables alone. *)
Lemma block_cases p t now p' o :
  block p t now = Some (p', o) ->
  settings p' = settings p /\
  ((blockable p t /\ o = Blocked (Some (src_ip t)) /\ flows p' = <[from_tuple t := now]> (flows p) /\
    sources p' = <[src_ip t := now + source_block (settings p)]> (sources p)) \/
   (~ blockable p t /\ (forall s, o <> Blocked s) /\ flows p' = flows p /\ sources p' = sources p)).
Proof.
  unfold block, blockable. destruct (armed p); simpl; [|intros [= <- <-]; split; [done|right; naive_solver]].
  destruct (is_allow_listed p (src_ip t)); simpl; [intros [= <- <-]; split; [done|right; naive_solver]|].
  destruct (is_allow_listed p (dest_ip t)); simpl; [intros [= <- <-]; split; [done|right; naive_solver]|].
  destruct (_ || _) eqn:E; simpl; [|destruct (instant_add _ _) as [expiry|] eqn:Ei; simpl; [|done]]; intros [= <- <-]; (split; [done|]).
  - right. split_and!; try done. apply orb_true_iff in E as [E|E]; bsimpl; lia.
  - left. unfold instant_add in Ei. destruct (_ <=? INSTANT_MAX); simplify_eq. bsimpl. split_and!; try done; lia.
Qed.

(** The only panic: the block would lapse past the latest instant. *)
Lemma block_panics p t now : block p t now = None <-> blockable p t /\ INSTANT_MAX < now + source_block (settings p).
Proof.
  split.
  - unfold block, blockable. destruct (armed p); simpl; [|done].
    destruct (is_allow_listed p (src_ip t)); simpl; [done|]. destruct (is_allow_listed p (dest_ip t)); simpl; [done|].
    destruct (_ || _) eqn:E; simpl; [done|]. bsimpl.
    unfold instant_add. destruct (Z.leb_spec (now + source_block (settings p)) INSTANT_MAX); [done|]. intros _. split_and!; try done; lia.
  - intros [(H1 & H2 & H3 & H4 & H5) H6]. unfold block, instant_add. rewrite H1. cbn [negb List.find]. rewrite H2, H3. by zdec.
Qed.

Lemma block_total p t now :
  now + source_block (settings p) <= INSTANT_MAX -> exists p' o, block p t now = Some (p', o).
Proof.
  intros Hb. destruct (block p t now) as [[p' o]|] eqn:E; [by eauto|]. apply block_panics in E as [_ E]. lia.
Qed.

Lemma expire_tables p now :
  settings (expire p now) = settings p /\ flows (expire p now) ⊆ flows p /\
  sources (expire p now) ⊆ sources p.
Proof. split_and!; try done; apply map_filter_subseteq. Qed.

(** ** The invariant of the store *)

Record store_inv (p : Prevention) : Prop := {
  si_flows : Z.of_nat (size (flows p)) <= Z.max (max_blocked_flows (settings p)) 0;
  si_sources : Z.of_nat (size (sources p)) <= Z.max (max_blocked_sources (settings p)) 0;
  si_flow_allow : map_Forall (fun k _ => is_allow_listed p (lower k).1 = false /\
                                         is_allow_listed p (upper k).1 = false) (flows p);
  si_source_allow : map_Forall (fun a _ => is_allow_listed p a = false) (sources p)
}.

(** The invariant only looks at the tables and at settings no operation changes, and it is closed
    under forgetting. *)
Lemma store_inv_sub p q :
  store_inv p -> same_settings p q -> flows q ⊆ flows p -> sources q ⊆ sources p -> store_inv q.
Proof.
  intros [H1 H2 H3 H4] (A & B & C & D) Hf Hs.
  pose proof (map_subseteq_size _ _ Hf). pose proof (map_subseteq_size _ _ Hs). split.
  - rewrite C. lia.
  - rewrite D. lia.
  - intros k v Hk. rewrite !(is_allow_listed_ext p q) by done. eapply H3, lookup_weaken; eauto.
  - intros k v Hk. rewrite !(is_allow_listed_ext p q) by done. eapply H4, lookup_weaken; eauto.
Qed.

(** The endpoints of a key are the two addresses of the tuple. *)
Lemma from_tuple_endpoints t :
  let a := (src_ip t, unwrap_or 0 (src_port t)) in
  let b := (dest_ip t, unwrap_or 0 (dest_port t)) in
  lower (from_tuple t) = a /\ upper (from_tuple t) = b \/
  lower (from_tuple t) = b /\ upper (from_tuple t) = a.
Proof. unfold from_tuple. destruct (endpoint_leb _ _); simpl; auto. Qed.

Lemma block_inv p t now p' o : store_inv p -> block p t now = Some (p', o) -> store_inv p'.
Proof.
  intros Hp E. destruct (block_cases p t now p' o E) as [Es [((_ & A1 & A2 & A3 & A4) & _ & Ef & Eso)|(_ & _ & Ef & Eso)]].
  - destruct Hp as [H1 H2 H3 H4]. assert (Ha : forall a, is_allow_listed p' a = is_allow_listed p a)
      by (intros a; apply is_allow_listed_ext; by rewrite Es). split; rewrite ?Ef, ?Eso, ?Es.
    + rewrite map_size_insert. case_match; simpl; lia.
    + rewrite map_size_insert. case_match; simpl; lia.
    + apply map_Forall_insert_2.
      * rewrite !Ha. destruct (from_tuple_endpoints t) as [[-> ->]|[-> ->]]; simpl; by rewrite A1, A2.
      * intros k v Hk. rewrite !Ha. by eapply H3.
    + apply map_Forall_insert_2; [by rewrite Ha|]. intros k v Hk. rewrite Ha. by eapply H4.
  - eapply store_inv_sub; [done| | |]; unfold same_settings; rewrite ?Es, ?Ef, ?Eso; done.
Qed.

Lemma run_op_block p t now p' : run_op p (BlockOp t now) = Some p' -> exists o, block p t now = Some (p', o).
Proof. cbn. destruct (block p t now) as [[q o]|]; [|done]. intros [= <-]. by exists o. Qed.

Lemma run_op_inv p op p' : store_inv p -> run_op p op = Some p' -> store_inv p' /\ same_settings p p'.
Proof.
  intros Hp E. destruct op as [t now|t now|now|m|n|d|n].
  - injection E as <-. destruct (decide_tables p t now) as (E1 & Ef & Es). assert (same_settings p (decide p t now).1) by (unfold same_settings; by rewrite E1).
    split; [|done]. eapply store_inv_sub; try done. by rewrite Ef.
  - apply run_op_block in E as [o E]. split; [by eapply block_inv|]. destruct (block_cases p t now p' o E) as [E1 _].
    unfold same_settings. by rewrite E1.
  - injection E as <-. destruct (expire_tables p now) as (_ & Ef & Es). split; [by eapply store_inv_sub|done].
  - injection E as <-. split; [by eapply store_inv_sub|done].
  - injection E as <-. split; [by eapply store_inv_sub|done].
  - injection E as <-. split; [by eapply store_inv_sub|done].
  - injection E as <-. split; [by eapply store_inv_sub|done].
Qed.

Lemma run_ops_inv p ops p' : store_inv p -> run_ops p ops = Some p' -> store_inv p' /\ same_settings p p'.
Proof.
  revert p. induction ops as [|op ops IH]; intros p Hp E; cbn [run_ops] in E; [by injection E as <-|].
  destruct (run_op p op) as [p1|] eqn:E1; [|done]. destruct (run_op_inv p op p1 Hp E1) as [H1 (S1 & S2 & S3 & S4)].
  destruct (IH p1 H1 E) as [H2 (T1 & T2 & T3 & T4)]. split; [done|]. split_and!; simpl in *; congruence.
Qed.

Lemma new_inv s : store_inv (new s).
Proof. split; simpl; try (rewrite map_size_empty; lia); apply map_Forall_empty. Qed.

(** ** Where verdicts come from *)

(** [ops] contains a [block] that was recorded. *)
Definition recorded (s : PreventionSettings) (ops : list PreventOp) (t : NetTuple) (now : Z) : Prop :=
  exists pre post p p', ops = pre ++ BlockOp t now :: post /\ run_ops (new s) pre = Some p /\
    block p t now = Some (p', Blocked (Some (src_ip t))).

Lemma recorded_snoc s ops op t now : recorded s ops t now -> recorded s (ops ++ [op]) t now.
Proof.
  intros (pre & post & p & p' & -> & E1 & E2). exists pre, (post ++ [op]), p, p'. split; [|done]. by rewrite <- app_assoc.
Qed.

Lemma verdicts_recorded s ops p :
  run_ops (new s) ops = Some p ->
  (forall k at_, flows p !! k = Some at_ -> exists t, recorded s ops t at_ /\ from_tuple t = k) /\
  (forall a until, sources p !! a = Some until ->
    exists t now, recorded s ops t now /\ src_ip t = a /\ until = now + source_block s).
Proof.
  revert p. induction ops as [|op ops IH] using rev_ind; intros p' E.
  { injection E as <-. split; intros ? ? Hx; simpl in Hx; by rewrite lookup_empty in Hx. }
  rewrite run_ops_app in E. destruct (run_ops (new s) ops) as [p|] eqn:Ep; [|done].
  cbn [mbind option_bind run_ops] in E. destruct (run_op p op) as [q|] eqn:Eq; [|done]. injection E as ->.
  destruct (IH p eq_refl) as [IHf IHs].
  assert (Hsub : flows p' ⊆ flows p -> sources p' ⊆ sources p ->
    (forall k at_, flows p' !! k = Some at_ -> exists t, recorded s (ops ++ [op]) t at_ /\ from_tuple t = k) /\
    (forall a until, sources p' !! a = Some until ->
      exists t now, recorded s (ops ++ [op]) t now /\ src_ip t = a /\ until = now + source_block s)).
  { intros Hf Hs. split.
    - intros k at_ Hk. destruct (IHf k at_) as (t & Hr & E); [by eapply lookup_weaken|].
      eauto using recorded_snoc.
    - intros a until Ha. destruct (IHs a until) as (t & now & Hr & E); [by eapply lookup_weaken|].
      exists t, now. eauto using recorded_snoc. }
  destruct op as [t now|t now|now|m|n|d|n]; try (by injection Eq as <-; apply Hsub).
  - injection Eq as <-. destruct (decide_tables p t now) as (_ & Ef & Es). apply Hsub; [by rewrite Ef|done].
  - apply run_op_block in Eq as [o Eq]. destruct (block_cases p t now p' o Eq) as [_ [(_ & -> & Ef & Es)|(_ & _ & Ef & Es)]]; cycle 1.
    { apply Hsub; [by rewrite Ef|by rewrite Es]. }
    assert (Hrec : recorded s (ops ++ [BlockOp t now]) t now) by (by exists ops, [], p, p').
    assert (Hsb : source_block (settings p) = source_block s)
      by (by destruct (run_ops_inv (new s) ops p (new_inv s) Ep) as [_ (_ & ? & _)]).
    rewrite Ef, Es. split.
    + intros k at_ Hk. apply lookup_insert_Some in Hk as [[<- <-]|[_ Hk]]; [by eauto|].
      destruct (IHf k at_ Hk) as (t' & Hr & E). eauto using recorded_snoc.
    + intros a until Ha. apply lookup_insert_Some in Ha as [[<- <-]|[_ Ha]].
      * exists t, now. by rewrite Hsb.
      * destruct (IHs a until Ha) as (t' & now' & Hr & E). exists t', now'. eauto using recorded_snoc.
  - injection Eq as <-. destruct (expire_tables p now) as (_ & Ef & Es). by apply Hsub.
Qed.

(** What a drop says of the state it was taken in. *)
Lemma decide_drop p t now r :
  (decide p t now).2 = Drop r ->
  mode (settings p) = Prevent /\ is_allow_listed p (src_ip t) = false /\
  is_allow_listed p (dest_ip t) = false /\
  match r with
  | FlowVerdict => is_Some (flows p !! from_tuple t)
  | BlockedSource => exists until, sources p !! src_ip t = Some until /\ now < until
  end.
Proof.
  unfold decide. set (q := set_stats p _). change (armed q) with (armed p).
  change (is_allow_listed q) with (is_allow_listed p).
  destruct (armed p) eqn:Ea; simpl; [|done]. apply bool_decide_eq_true in Ea.
  destruct (_ || _) eqn:El; simpl; [done|]. bsimpl.
  case_bool_decide as Hf; simpl; [intros [= <-]; by split_and!|].
  destruct (sources p !! src_ip t) as [until|] eqn:Es; [|done].
  destruct (Z.ltb_spec now until); simpl; [|done]. intros [= <-]. split_and!; try done. by exists until.
Qed.

(** Both directions of a conversation have one key. *)
Definition reverse_tuple (t : NetTuple) : NetTuple :=
  mkNetTuple (dest_ip t) (dest_port t) (src_ip t) (src_port t) (proto t).

Lemma from_tuple_reverse t : from_tuple (reverse_tuple t) = from_tuple t.
Proof.
  unfold from_tuple, reverse_tuple. simpl.
  set (a := (src_ip t, unwrap_or 0 (src_port t))). set (b := (dest_ip t, unwrap_or 0 (dest_port t))).
  destruct (endpoint_leb a b) eqn:E1, (endpoint_leb b a) eqn:E2; try done.
  - by rewrite (endpoint_leb_antisym a b E1 E2).
  - destruct (endpoint_leb_total a b); congruence.
Qed.

(** ** Judging a queue *)

Lemma decide_counts p t now :
  packets_judged (stats_ (decide p t now).1) = packets_judged (stats_ p) + 1 /\
  packets_dropped (stats_ (decide p t now).1) =
    packets_dropped (stats_ p) + (if is_drop (decide p t now).2 then 1 else 0).
Proof.
  unfold decide. destruct (negb _); [simpl; lia|]. destruct (_ || _); [simpl; lia|].
  destruct (bool_decide _); [simpl; lia|]. destruct (sources _ !! _); [|simpl; lia].
  destruct (_ <? _); simpl; lia.
Qed.

Lemma run_offline clocks packets p vs sum :
  (length packets <= length clocks)%nat ->
  exists ds p', run clocks (mkOfflineQueue packets vs) p sum =
      Some (mkOfflineQueue [] (vs ++ zip (qp_id <$> packets) ds), p',
            mkRunSummary (accepted sum + len (filter (fun d => is_drop d = false) ds))
                         (dropped sum + len (filter (fun d => is_drop d = true) ds))) /\
    length ds = length packets /\
    packets_judged (stats_ p') = packets_judged (stats_ p) + len packets /\
    packets_dropped (stats_ p') =
      packets_dropped (stats_ p) + len (filter (fun d => is_drop d = true) ds) /\
    (armed p = false -> Forall (fun d => d = Accept) ds).
Proof.
  revert packets p vs sum. induction clocks as [|c clocks IH]; intros packets p vs sum Hl.
  { destruct packets; simpl in Hl; [|lia]. exists [], p. simpl.
    rewrite app_nil_r, !Z.add_0_r. destruct sum. split_and!; try done; lia. }
  destruct packets as [|pk packets]; simpl.
  { exists [], p. simpl. rewrite app_nil_r, !Z.add_0_r. destruct sum. split_and!; try done; lia. }
  unfold judge_and_resolve, judge. simpl. destruct (decide p (tuple pk) (judged_at c)) as [p1 d] eqn:E.
  pose proof (decide_counts p (tuple pk) (judged_at c)) as [C1 C2]. rewrite E in C1, C2. simpl in C1, C2.
  destruct (IH packets (record_latency p1 (to_u64 (elapsed_micros pk c))) (vs ++ [(qp_id pk, d)])
    (match d with Accept => mkRunSummary (accepted sum + 1) (dropped sum)
     | Drop _ => mkRunSummary (accepted sum) (dropped sum + 1) end) ltac:(simpl in Hl; lia))
    as (ds & p' & E' & Hlen & J & D & Hacc).
  exists (d :: ds), p'. simpl in J, D. split_and!.
  - rewrite E'. f_equal. f_equal; [f_equal; f_equal; by rewrite <- app_assoc|].
    destruct d; rewrite !filter_cons; simpl; f_equal; repeat case_decide; simpl; try done; lia.
  - simpl. congruence.
  - rewrite J, C1. simpl. lia.
  - rewrite D, C2, filter_cons. case_decide; destruct d; simpl in *; try done; lia.
  - intros Ha. assert (Hd : d = Accept).
    { unfold decide in E. change (armed (set_stats p _)) with (armed p) in E. rewrite Ha in E.
      simpl in E. congruence. }
    constructor; [done|]. apply Hacc. pose proof (decide_tables p (tuple pk) (judged_at c)) as [Hs _].
    rewrite E in Hs. simpl in Hs. unfold armed in *. simpl. by rewrite Hs.
Qed.

(** ** Properties *)

(** C20: nothing is dropped without a reason: a drop is only ever decided while the sensor is armed,
    for a packet neither of whose endpoints is on the allow-list, and goes back to an earlier [block]
    that was recorded: of the same conversation, in either direction, or of the same source and not
    yet lapsed. *)
Theorem drop_is_justified (s : PreventionSettings) (ops : list PreventOp) (p : Prevention) (t : NetTuple)
    (now : Z) (r : DropReason) :
  run_ops (new s) ops = Some p -> (decide p t now).2 = Drop r ->
  mode (settings p) = Prevent /\
  existsb (fun n => contains n (src_ip t)) (allow_list s) = false /\
  existsb (fun n => contains n (dest_ip t)) (allow_list s) = false /\
  exists t' now', recorded s ops t' now' /\
    match r with
    | FlowVerdict => from_tuple t' = from_tuple t
    | BlockedSource => src_ip t' = src_ip t /\ now < now' + source_block s
    end.
Proof.
  intros Er Hd. apply decide_drop in Hd as (Hm & Ha & Hb & Hr).
  destruct (run_ops_inv (new s) ops p (new_inv s) Er) as [_ (Hal & _)].
  unfold is_allow_listed in Ha, Hb. rewrite Hal in Ha, Hb. split_and!; try done.
  destruct (verdicts_recorded s ops p Er) as [Hf Hs]. destruct r.
  - destruct Hr as [at_ Hk]. destruct (Hf _ _ Hk) as (t' & Hrec & E). eauto.
  - destruct Hr as (until & Hk & Hlt). destruct (Hs _ _ Hk) as (t' & now' & Hrec & E1 & ->). eauto 10.
Qed.

(** The store stays inside both caps, and no address of the allow-list ever enters either table,
    whatever is blocked, expired, re-armed or judged. *)
Theorem prevention_state_invariant (s : PreventionSettings) (ops : list PreventOp) (p : Prevention) :
  run_ops (new s) ops = Some p ->
  Z.of_nat (size (flows p)) <= Z.max (max_blocked_flows s) 0 /\
  Z.of_nat (size (sources p)) <= Z.max (max_blocked_sources s) 0 /\
  (forall k at_, flows p !! k = Some at_ ->
    existsb (fun n => contains n (lower k).1) (allow_list s) = false /\
    existsb (fun n => contains n (upper k).1) (allow_list s) = false) /\
  (forall a until, sources p !! a = Some until -> existsb (fun n => contains n a) (allow_list s) = false).
Proof.
  intros Er. destruct (run_ops_inv (new s) ops p (new_inv s) Er) as [[H1 H2 H3 H4] (Hal & _ & Hmf & Hms)].
  unfold is_allow_listed in H3, H4. rewrite Hal in H3, H4. rewrite Hmf in H1. rewrite Hms in H2.
  split_and!; [done|done|by intros k v Hk; apply (H3 _ _ Hk)|by intros k v Hk; apply (H4 _ _ Hk)].
Qed.

(** A time to block for that the configuration accepts and that reaches past the latest instant makes
    the first block of a rule panic, with the lock of the store held. *)
Theorem long_block_panics (p : Prevention) (t : NetTuple) (now : Z) :
  blockable p t -> 0 <= now -> secs (2 ^ 63) <= source_block (settings p) -> block p t now = None.
Proof. intros Hb Hn Hs. apply block_panics. split; [done|]. unfold INSTANT_MAX. lia. Qed.

(** The operations that do not forget verdicts. *)
Definition keeps_verdicts (op : PreventOp) : Prop :=
  match op with ExpireOp _ | ModeOp _ => False | _ => True end.

Lemma keeps_verdicts_run p op p' :
  keeps_verdicts op -> run_op p op = Some p' ->
    settings p' = settings p /\ forall k, is_Some (flows p !! k) -> is_Some (flows p' !! k).
Proof.
  intros Hk E. destruct op as [t now|t now|now|m|n|d|n]; try done; try (by injection E as <-).
  - injection E as <-. destruct (decide_tables p t now) as (-> & -> & _). done.
  - apply run_op_block in E as [o E]. destruct (block_cases p t now p' o E) as [-> [(_ & _ & -> & _)|(_ & _ & -> & _)]]; [|done].
    split; [done|]. intros k Hx. apply lookup_insert_is_Some'. by right.
Qed.

Lemma keeps_verdicts_runs p ops p' :
  Forall keeps_verdicts ops -> run_ops p ops = Some p' ->
    settings p' = settings p /\ forall k, is_Some (flows p !! k) -> is_Some (flows p' !! k).
Proof.
  intros Hops. revert p. induction Hops as [|op ops Hop _ IH]; intros p E; cbn [run_ops] in E; [by injection E as <-|].
  destruct (run_op p op) as [p1|] eqn:E1; [|done]. destruct (keeps_verdicts_run p op p1 Hop E1) as [A1 B1].
  destruct (IH p1 E) as [A2 B2]. split; [congruence|]. by eauto.
Qed.

(** A recorded block is enforced at once and on both directions of the conversation: until
    verdicts are expired or the mode is changed, every later packet of the flow is dropped, and so is
    every reply; and every other packet of the blocked source to a destination that is not on the
    allow-list is dropped until the block lapses. *)
Theorem block_is_enforced (p : Prevention) (t : NetTuple) (now : Z) (src : option IpAddr)
    (ops : list PreventOp) (p1 p2 : Prevention) :
  block p t now = Some (p1, Blocked src) -> Forall keeps_verdicts ops -> run_ops p1 ops = Some p2 ->
  (forall later, (decide p2 t later).2 = Drop FlowVerdict /\ (decide p2 (reverse_tuple t) later).2 = Drop FlowVerdict) /\
  (forall t' later, src_ip t' = src_ip t -> is_allow_listed p (dest_ip t') = false ->
    later < now + source_block (settings p) -> is_drop (decide p1 t' later).2 = true).
Proof.
  intros Hb Hops Hr. destruct (block_cases p t now p1 _ Hb) as [Es [((Ha & A1 & A2 & _) & _ & Ef & Eso)|(_ & Hn & _)]];
    [|by destruct (Hn src)].
  destruct (keeps_verdicts_runs p1 ops p2 Hops Hr) as [Er Hin]. specialize (Hin (from_tuple t)).
  rewrite Ef, lookup_insert_eq in Hin. specialize (Hin (mk_is_Some _ _ eq_refl)). rewrite Es in Er. split.
  - intros later. unfold decide. set (q := set_stats p2 _).
    assert (Harm : armed q = true) by (unfold armed; simpl; rewrite Er; exact Ha). rewrite Harm. simpl.
    rewrite !(is_allow_listed_ext p q) by (simpl; by rewrite Er).
    rewrite A1, A2. simpl. change (flows q) with (flows p2).
    rewrite from_tuple_reverse. by rewrite !bool_decide_eq_true_2.
  - intros t' later Et Hd Hlt. unfold decide. set (q := set_stats p1 _).
    assert (Harm : armed q = true) by (unfold armed; simpl; rewrite Es; exact Ha). rewrite Harm. simpl.
    rewrite !(is_allow_listed_ext p q) by (simpl; by rewrite Es).
    rewrite Et, A1, Hd. simpl. rewrite Eso. case_bool_decide; [done|].
    rewrite lookup_insert_eq. by zdec.
Qed.

(** The kill switch: from the moment the mode is set to [Detect] and until it is set to [Prevent]
    again, every packet is accepted, whatever was recorded before, and no verdict is added; the
    verdicts already recorded are kept. *)
Theorem kill_switch (p : Prevention) (ops : list PreventOp) (t : NetTuple) (now : Z) :
  Forall (fun op => op <> ModeOp Prevent) ops ->
  flows (set_mode p Detect) = flows p /\ sources (set_mode p Detect) = sources p /\
  exists p', run_ops (set_mode p Detect) ops = Some p' /\ (decide p' t now).2 = Accept /\
    flows p' ⊆ flows p /\ sources p' ⊆ sources p.
Proof.
  intros Hops.
  assert (Hinv : forall q, mode (settings q) = Detect ->
    exists q', run_ops q ops = Some q' /\ mode (settings q') = Detect /\ flows q' ⊆ flows q /\ sources q' ⊆ sources q).
  { induction Hops as [|op ops Hop _ IH]; intros q Hq; [by exists q|]. cbn [run_ops].
    assert (exists q1, run_op q op = Some q1 /\ mode (settings q1) = Detect /\ flows q1 ⊆ flows q /\ sources q1 ⊆ sources q)
      as (q1 & -> & M1 & F1 & S1).
    { destruct op as [t' n|t' n|n|[]|n|d|n]; cbn [run_op]; try done; try (eexists; split; [reflexivity|done]).
      - destruct (decide_tables q t' n) as (E1 & E2 & ?). eexists. split; [done|]. by rewrite E1, E2.
      - exists q. unfold block, armed. rewrite Hq. by split.
      - destruct (expire_tables q n) as (_ & ? & ?). eexists. by split. }
    destruct (IH q1 M1) as (q2 & E2 & M2 & F2 & S2). exists q2. split; [done|]. split_and!; [done|by etrans|by etrans]. }
  split; [done|]. split; [done|]. destruct (Hinv (set_mode p Detect) eq_refl) as (p' & E & Hm & Hf & Hs).
  exists p'. split_and!; try done. destruct (decide p' t now).2 eqn:Ed; [done|]. apply decide_drop in Ed as (Ed & _). congruence.
Qed.

(** Every packet of a source gets exactly one verdict, in order, and the counts add up: the loop
    ends when the source does, the summary and the counters of the store agree with the verdicts
    given, and an unarmed sensor accepts all of them. *)
Theorem every_packet_gets_one_verdict (p : Prevention) (packets : list QueuedPacket)
    (clocks : list ClockReading) :
  (length packets <= length clocks)%nat ->
  exists q p' sum, run clocks (offline_new packets) p (mkRunSummary 0 0) = Some (q, p', sum) /\
    pending q = [] /\ (verdicts q).*1 = qp_id <$> packets /\
    accepted sum + dropped sum = len packets /\
    dropped sum = len (filter (fun d => is_drop d = true) (decisions q)) /\
    packets_judged (stats_ p') = packets_judged (stats_ p) + len packets /\
    packets_dropped (stats_ p') = packets_dropped (stats_ p) + dropped sum /\
    (armed p = false -> all_accepted q = true).
Proof.
  intros Hl. destruct (run_offline clocks packets p [] (mkRunSummary 0 0) Hl)
    as (ds & p' & E & Hlen & J & D & Hacc).
  do 3 eexists. split; [exact E|]. simpl.
  assert (Hlz : length (qp_id <$> packets) = length ds) by (by rewrite length_fmap).
  assert (Hsnd : (zip (qp_id <$> packets) ds).*2 = ds) by (apply snd_zip; lia).
  unfold decisions. simpl. rewrite Hsnd. split_and!; try done.
  - apply fst_zip. lia.
  - rewrite <- Hlen. clear. induction ds as [|[] ds IH]; [done| |];
      rewrite !filter_cons; simpl; repeat case_decide; simpl; try done; lia.
  - intros Ha. specialize (Hacc Ha). unfold all_accepted. simpl. apply forallb_forall.
    intros v Hv. apply bool_decide_eq_true_2. rewrite <- Hsnd in Hacc.
    rewrite Forall_fmap, Forall_forall in Hacc. apply Hacc. by apply list_elem_of_In.
Qed.

(** The verdict path reads no more of a packet than it is given: the first 64 bytes decide the
    5-tuple, so truncating packets to their headers in the kernel changes no decision. *)
Theorem header_copy_is_enough (bytes : list Z) (n : nat) :
  (64 <= n)%nat -> tuple_from_ip_packet (take n bytes) = tuple_from_ip_packet bytes.
Proof.
  intros Hn.
  assert (Hget : forall i, 0 <= i < 64 -> get (take n bytes) i = get bytes i).
  { intros i Hi. unfold get. apply lookup_take_lt. lia. }
  assert (Hlen : forall i, i <= 64 -> (len (take n bytes) <? i) = (len bytes <? i)).
  { intros i Hi. rewrite length_take. destruct (Z.ltb_spec (len bytes) i); zdec; done. }
  assert (Hports : forall w i, 0 <= i <= 60 ->
    ports w (get_from (take n bytes) i) = ports w (get_from bytes i)).
  { intros w i Hi. unfold get_from. rewrite length_take.
    destruct (Z.leb_spec i (len bytes)); zdec; [|done].
    rewrite skipn_firstn_comm. set (r := drop (Z.to_nat i) bytes).
    destruct w; [|done]. destruct (n - Z.to_nat i)%nat as [|[|[|[|m]]]] eqn:E; try lia.
    by destruct r as [|? [|? [|? [|? ?]]]]. }
  assert (Hslice : forall a b, 0 <= a <= b -> b <= 64 -> slice (take n bytes) a b = slice bytes a b).
  { intros a b Hab Hb. unfold slice. rewrite length_take.
    destruct (Z.leb_spec b (len bytes)); zdec; simpl; [|done].
    rewrite skipn_firstn_comm, take_take. f_equal. f_equal. lia. }
  unfold tuple_from_ip_packet. rewrite Hget by lia. destruct (get bytes 0) as [b0|] eqn:E0; [|done]. simpl.
  destruct (Z.shiftr b0 4 =? 4); [|destruct (Z.shiftr b0 4 =? 6)]; [| |done].
  - unfold ipv4_fields. rewrite !Hget by lia. rewrite E0. simpl.
    assert (Hh : 0 <= Z.land b0 15 * 4 <= 60).
    { change 15 with (Z.ones 4). rewrite Z.land_ones by lia.
      pose proof (Z.mod_pos_bound b0 (2 ^ 4) ltac:(lia)). lia. }
    rewrite Hlen by lia. destruct (_ || _); [done|].
    destruct (get bytes 9); [|done]; simpl.
    do 4 (case (get bytes _); [intros ?|done]; simpl). do 4 (case (get bytes _); [intros ?|done]; simpl).
    do 2 (case (get bytes _); [intros ?|done]; simpl).
    destruct (transport_protocol z) as [pr w]. destruct (_ =? 0); [|done]. by rewrite Hports by lia.
  - unfold ipv6_fields. rewrite Hget, Hlen, !Hslice by lia. destruct (_ <? _); [done|].
    destruct (get bytes 6) as [pv|]; [|done]. simpl. destruct (slice bytes 8 24); [|done]. simpl.
    destruct (slice bytes 24 40); [|done]. simpl.
    destruct (transport_protocol pv) as [pr w]. by rewrite Hports by lia.
Qed.

(** ** Witnesses *)

Module demo.

Definition settings : PreventionSettings :=
  mkSettings Prevent Open [mkIpNetwork (V4 0x0a000000) 8] (secs 600) 16 16.

Definition attack : NetTuple := mkNetTuple (V4 0xc0a80001) (Some 4444) (V4 0xc0a80002) (Some 80) Tcp.

Definition probe : NetTuple := mkNetTuple (V4 0xc0a80001) (Some 4445) (V4 0xc0a80003) (Some 22) Tcp.

Definition ops : list PreventOp := [BlockOp attack (secs 1); DecideOp probe (secs 2)].

Definition packets : list QueuedPacket :=
  [mkQueuedPacket 1 attack (secs 3); mkQueuedPacket 2 probe (secs 4)].

Definition clocks : list ClockReading :=
  [mkClockReading (secs 3) (secs 3 + 5000); mkClockReading (secs 4) (secs 4 + 7000)].

End demo.

Definition demo_store : Prevention :=
  mkPrevention demo.settings {[from_tuple demo.attack := secs 1]} {[src_ip demo.attack := secs 601]}
    (count_verdict (count_block (stats_ (new demo.settings)) 0 1 1 0) 1 1 0).

Lemma demo_run : run_ops (new demo.settings) demo.ops = Some demo_store.
Proof. vm_compute. reflexivity. Qed.

Lemma drop_is_justified_witness :
  exists t' now', recorded demo.settings demo.ops t' now' /\ from_tuple t' = from_tuple demo.attack.
Proof.
  destruct (drop_is_justified demo.settings demo.ops demo_store demo.attack (secs 3) FlowVerdict demo_run)
    as (_ & _ & _ & t' & now' & Hr & E).
  - vm_compute. reflexivity.
  - exists t', now'. split; [exact Hr|exact E].
Defined.

Lemma prevention_state_invariant_witness : Z.of_nat (size (flows demo_store)) <= 16.
Proof. exact (proj1 (prevention_state_invariant demo.settings demo.ops demo_store demo_run)). Defined.

(** The longest time to block for that fits the setting. *)
Lemma long_block_panics_witness :
  block (new (mkSettings Prevent Open [] (secs U64_MAX) 16 16)) demo.attack (secs 1) = None.
Proof.
  apply (long_block_panics (new (mkSettings Prevent Open [] (secs U64_MAX) 16 16)) demo.attack (secs 1)); vm_compute; repeat split; discriminate.
Defined.

Lemma block_is_enforced_witness : (decide demo_store demo.attack (secs 3)).2 = Drop FlowVerdict.
Proof.
  destruct (block (new demo.settings) demo.attack (secs 1)) as [[p1 o]|] eqn:E; [|vm_compute in E; discriminate].
  destruct (block_is_enforced (new demo.settings) demo.attack (secs 1) (Some (src_ip demo.attack))
    [DecideOp demo.probe (secs 2)] p1 demo_store) as [H _].
  - rewrite E. vm_compute in E. by injection E as <- <-.
  - repeat constructor.
  - vm_compute in E. injection E as <- <-. vm_compute. reflexivity.
  - exact (proj1 (H (secs 3))).
Defined.

Lemma kill_switch_witness :
  exists p', run_ops (set_mode demo_store Detect) [BlockOp demo.probe (secs 5)] = Some p' /\ (decide p' demo.attack (secs 6)).2 = Accept.
Proof.
  destruct (kill_switch demo_store [BlockOp demo.probe (secs 5)] demo.attack (secs 6)) as (_ & _ & p' & E & H & _).
  - constructor; [discriminate|constructor].
  - by exists p'.
Defined.

Lemma every_packet_gets_one_verdict_witness :
  exists q p' sum,
    run demo.clocks (offline_new demo.packets) demo_store
      (mkRunSummary 0 0) = Some (q, p', sum) /\ (verdicts q).*1 = [1; 2].
Proof.
  destruct (every_packet_gets_one_verdict demo_store demo.packets
    demo.clocks) as (q & p' & sum & E & _ & Hv & _).
  - vm_compute. reflexivity.
  - exists q, p', sum. split; [exact E|exact Hv].
Defined.

Lemma header_copy_is_enough_witness :
  tuple_from_ip_packet (take 128 (0x45 :: replicate 199 7)) =
  tuple_from_ip_packet (0x45 :: replicate 199 7).
Proof. apply (header_copy_is_enough (0x45 :: replicate 199 7) 128). lia. Defined.
