(* ===== verification/Kernel.v ===== *)
(** What the sensor asks of netfilter and reads back from it: the queueing rule and the block set of
    [crates/prevent/src/nft.rs], and the queue counters of [crates/prevent/src/depth.rs].

    The [nft] command and the kernel are parameters. [Netfilter] states, of the statements the
    generated rule consists of, what netfilter does with them: the flag [bypass] covers a queue that
    nobody listens on and not a queue that is full, against the table at the top of [nft.rs];
    [run_nft] is the command, which runs or cannot be started. A file of [/proc] is its text, or [None] when it cannot
    be read. *)

From S2P Require Import Prelude Text Net Event Prevent.

(** ** The rule *)

Definition TABLE : text := of_string "cybersentinel".
Definition BLOCKED_SET_V4 : text := of_string "blocked_v4".
Definition BLOCKED_SET_V6 : text := of_string "blocked_v6".

Definition show_u16 (n : Z) : text := show_digits 5 10 n [].
Definition show_u64 (n : Z) : text := show_digits 20 10 n [].

Definition queue_statement (queue : Z) (fail_mode : FailMode) : text :=
  match fail_mode with
  | Open => of_string "queue num " ++ show_u16 queue ++ of_string " bypass"
  | Closed => of_string "queue num " ++ show_u16 queue
  end.

Definition queue_rule (queue : Z) (fail_mode : FailMode) : text :=
  let statement := queue_statement queue fail_mode in
  (of_string "table inet " ++ TABLE ++ of_string " {") ++ 10 ::
  (of_string "  set " ++ BLOCKED_SET_V4 ++ of_string " { type ipv4_addr; flags timeout; }") ++ 10 ::
  (of_string "  set " ++ BLOCKED_SET_V6 ++ of_string " { type ipv6_addr; flags timeout; }") ++ 10 ::
  of_string "  chain forward {" ++ 10 ::
  of_string "    type filter hook forward priority 0; policy accept;" ++ 10 ::
  (of_string "    ip saddr @" ++ BLOCKED_SET_V4 ++ of_string " drop") ++ 10 ::
  (of_string "    ip6 saddr @" ++ BLOCKED_SET_V6 ++ of_string " drop") ++ 10 ::
  (of_string "    " ++ statement) ++ 10 ::
  of_string "  }" ++ 10 ::
  of_string "}".

(** ** The block set *)

Inductive SetOutcome := SetAdded | SetUnavailable (error : text) | SetFailed (stderr : text).

Definition add_element_args (address : IpAddr) (timeout : Z) : list text :=
  let '(set, literal) :=
    match address with
    | V4 _ => (BLOCKED_SET_V4, ip_to_string address)
    | V6 _ => (BLOCKED_SET_V6, ip_to_string address)
    end in
  [of_string "add"; of_string "element"; of_string "inet"; TABLE; set;
   of_string "{ " ++ literal ++ of_string " timeout " ++ show_u64 (timeout / 1000000000) ++ of_string "s }"].

(** [Command::output]: the error of starting it, or whether it succeeded and what it wrote. *)
Definition add_blocked_source (run_nft : list text -> text + bool * text) (address : IpAddr) (timeout : Z) : SetOutcome :=
  match run_nft (add_element_args address timeout) with
  | inr (true, _) => SetAdded
  | inr (false, stderr) => SetFailed (trim stderr)
  | inl error => SetUnavailable error
  end.

(** ** Queue counters *)

Definition number_or_zero (field : option text) : Z := unwrap_or 0 (field ≫= parse_unsigned U32_MAX).

(** One line: a reading when it is the line of [queue]. *)
Definition depth_line (queue : Z) (line : text) : option QueueDepth :=
  let fields := split_whitespace line in
  if len fields <? 7 then None
  else
    queue_num ← fields !! 0%nat ≫= parse_unsigned U16_MAX;
    if negb (queue_num =? queue) then None
    else Some (mkQueueDepth queue_num (number_or_zero (fields !! 2%nat)) (number_or_zero (fields !! 5%nat))
                 (number_or_zero (fields !! 6%nat)) (number_or_zero (fields !! 7%nat))).

Fixpoint first_depth (queue : Z) (ls : list text) : option QueueDepth :=
  match ls with
  | [] => None
  | line :: ls' => match depth_line queue line with Some d => Some d | None => first_depth queue ls' end
  end.

(** [parse] and [read]. *)
Definition depth_parse (t : text) (queue : Z) : option QueueDepth := first_depth queue (lines t).

Definition depth_read (file : option text) (queue : Z) : option QueueDepth := t ← file; depth_parse t queue.

Definition netlink_recv_buffer (file : option text) : option Z := t ← file; parse_unsigned U64_MAX (trim t).

(** ** The kernel's side of the rule *)

(** Whether a program listens on the queue, and whether the queue has room. *)
Inductive Listener := NobodyListens | QueueFull | Listening.

Inductive Fate := KernelDrops | KernelAccepts | ToSensor (queue : Z).

(** What a statement does with a packet from a source, given the two sets: it decides, or leaves the
    packet to the next statement. *)
Class Netfilter := {
  statement_fate : (IpAddr -> bool) -> Listener -> IpAddr -> text -> option Fate;
  set_v4_drops sets l a :
    statement_fate sets l (V4 a) (of_string "ip saddr @blocked_v4 drop") = if sets (V4 a) then Some KernelDrops else None;
  set_v4_ignores sets l a : statement_fate sets l (V6 a) (of_string "ip saddr @blocked_v4 drop") = None;
  set_v6_drops sets l a :
    statement_fate sets l (V6 a) (of_string "ip6 saddr @blocked_v6 drop") = if sets (V6 a) then Some KernelDrops else None;
  set_v6_ignores sets l a : statement_fate sets l (V4 a) (of_string "ip6 saddr @blocked_v6 drop") = None;
  queue_decides sets l a n :
    in_u16 n -> statement_fate sets l a (of_string "queue num " ++ show_u16 n) =
      Some match l with Listening => ToSensor n | _ => KernelDrops end;
  bypass_decides sets l a n :
    in_u16 n -> statement_fate sets l a (of_string "queue num " ++ show_u16 n ++ of_string " bypass") =
      Some match l with Listening => ToSensor n | NobodyListens => KernelAccepts | QueueFull => KernelDrops end
}.

(** The statements of the chain of a ruleset: what stands between its opening, after the line with
    its hook and its policy, and its end. *)
Fixpoint after_line (line : text) (ls : list text) : list text :=
  match ls with [] => [] | l :: ls' => if bool_decide (l = line) then ls' else after_line line ls' end.

Fixpoint until_line (line : text) (ls : list text) : list text :=
  match ls with [] => [] | l :: ls' => if bool_decide (l = line) then [] else l :: until_line line ls' end.

Definition chain_statements (ruleset : text) : list text :=
  drop 1 (until_line (of_string "}") (after_line (of_string "chain forward {") (trim <$> lines ruleset))).

(** The statements are tried in order; the policy of the chain accepts what is left. *)
Fixpoint chain_fate `{Netfilter} (sets : IpAddr -> bool) (l : Listener) (source : IpAddr) (statements : list text) : Fate :=
  match statements with
  | [] => KernelAccepts
  | s :: statements' =>
      match statement_fate sets l source s with Some f => f | None => chain_fate sets l source statements' end
  end.

(** ** Lines without line ends *)

(** The characters that numbers and addresses are written with. *)
Definition literal_char (c : Z) : bool := is_ascii_digit c || ((97 <=? c) && (c <=? 102)) || (c =? 46) || (c =? 58).

Definition literal (t : text) : Prop := Forall (fun c => literal_char c = true) t.

Lemma literal_char_facts c : literal_char c = true -> is_whitespace c = false /\ c <> 10 /\ c <> 13.
Proof.
  unfold literal_char, is_ascii_digit, is_whitespace. intros Hc. bsimpl.
  split; [|lia]. repeat (apply orb_false_iff; split); first [apply Z.eqb_neq; lia|apply andb_false_iff; lia].
Qed.

Lemma literal_line t : literal t -> line_text t.
Proof. intros Ht. eapply Forall_impl; [exact Ht|]. intros c Hc. by apply literal_char_facts in Hc as (_ & ? & ?). Qed.

Lemma literal_no_whitespace t : literal t -> no_whitespace t.
Proof. intros Ht. eapply Forall_impl; [exact Ht|]. intros c Hc. by apply literal_char_facts in Hc as (? & _). Qed.

Lemma show_digits_literal fuel radix n tail :
  2 <= radix <= 16 -> 0 <= n -> literal tail -> literal (show_digits fuel radix n tail).
Proof.
  intros Hr. revert n tail. induction fuel as [|fuel IH]; intros n tail Hn Ht; cbn [show_digits]; [done|].
  assert (literal (show_digit (n mod radix) :: tail)) as Ht'.
  { constructor; [|done]. pose proof (Z.mod_pos_bound n radix). unfold show_digit, literal_char, is_ascii_digit.
    destruct (Z.ltb_spec (n mod radix) 10); [rewrite (proj2 (Z.leb_le _ _)), (proj2 (Z.leb_le _ _)) by lia; done|].
    rewrite (proj2 (Z.leb_le 97 _)), (proj2 (Z.leb_le _ 102)) by lia. by rewrite orb_true_r. }
  destruct (n / radix =? 0); [done|]. apply IH; [apply Z.div_pos; lia|done].
Qed.

Lemma show_v4_literal a : 0 <= a -> literal (show_v4 a).
Proof.
  intros Ha. assert (0 <= a / 2 ^ 24) by (apply Z.div_pos; lia).
  pose proof (Z.mod_pos_bound (a / 2 ^ 16) 256 eq_refl). pose proof (Z.mod_pos_bound (a / 2 ^ 8) 256 eq_refl).
  pose proof (Z.mod_pos_bound a 256 eq_refl).
  unfold show_v4, literal. rewrite !Forall_app. split_and!; try (by repeat constructor); apply show_digits_literal; (lia || constructor).
Qed.

Lemma show_groups_literal l : Forall (fun s => 0 <= s) l -> literal (show_groups l).
Proof.
  induction 1 as [|s l Hs Hl IH]; [constructor|]. destruct l as [|s' l].
  - apply show_digits_literal; (lia || constructor).
  - change (show_groups (s :: s' :: l)) with (show_digits 4 16 s [] ++ [58] ++ show_groups (s' :: l)). unfold literal.
    rewrite !Forall_app. split_and!; [apply show_digits_literal; (lia || constructor)|by repeat constructor|exact IH].
Qed.

Lemma segments_nonneg a : Forall (fun s => 0 <= s) (segments a).
Proof. unfold segments. apply Forall_fmap, Forall_forall. intros i _. cbn. apply Z.mod_pos_bound. lia. Qed.

(** An address is written with digits, the letters up to f, dots and colons. *)
Lemma ip_to_string_literal a : ip_wf a -> literal (ip_to_string a).
Proof.
  destruct a as [x|x]; intros Hx; cbn [ip_to_string]; [apply show_v4_literal; cbn in Hx; lia|].
  unfold show_v6. destruct (_ =? 0xffff).
  - apply Forall_app. split; [by repeat constructor|]. apply show_v4_literal. apply Z.mod_pos_bound. lia.
  - destruct (zero_run _ _ _ _) as [start run]. destruct (1 <? run)%nat; [|apply show_groups_literal, segments_nonneg].
    unfold literal. rewrite !Forall_app. split_and!; [|by repeat constructor|];
      apply show_groups_literal; [apply Forall_take|apply Forall_drop]; apply segments_nonneg.
Qed.

Lemma show_u16_literal n : in_u16 n -> literal (show_u16 n).
Proof. intros [H _]. apply show_digits_literal; (lia || constructor). Qed.

Lemma show_u64_literal n : 0 <= n -> literal (show_u64 n).
Proof. intros H. apply show_digits_literal; (lia || constructor). Qed.

Lemma literal_head t : t <> [] -> literal t -> forall c, head t = Some c -> is_whitespace c = false.
Proof. intros Hne Ht c Hc. destruct t as [|d t]; [done|]. injection Hc as <-. apply Forall_cons in Ht as [Hd _]. by apply literal_char_facts in Hd as [? _]. Qed.

Lemma literal_last t : literal t -> forall c, last t = Some c -> is_whitespace c = false.
Proof.
  intros Ht c Hc. apply last_Some in Hc as (t' & ->). apply Forall_app in Ht as [_ Hd]. apply Forall_cons in Hd as [Hd _].
  by apply literal_char_facts in Hd as [? _].
Qed.

(** ** The fail mode is in the rule *)

Lemma queue_statement_line n m : in_u16 n -> line_text (queue_statement n m).
Proof.
  intros Hn. pose proof (literal_line _ (show_u16_literal n Hn)). unfold line_text in *.
  destruct m; cbn [queue_statement]; rewrite ?Forall_app; split_and!; try done; by repeat constructor.
Qed.

Lemma trim_start_spaces k t : trim_start (replicate k 32 ++ t) = trim_start t.
Proof. induction k as [|k IH]; [done|]. exact IH. Qed.

Lemma trim_queue_statement n m : in_u16 n -> trim (of_string "    " ++ queue_statement n m) = queue_statement n m.
Proof.
  intros Hn. set (s := queue_statement n m).
  assert (trim s = s) as Hs.
  { apply trim_ends; [unfold s; destruct m; by intros ? [= <-]|]. intros c Hc. unfold s in Hc. destruct m; cbn [queue_statement] in Hc.
    - rewrite app_assoc, last_app in Hc. cbn in Hc. by injection Hc as <-.
    - rewrite last_app in Hc. destruct (last (show_u16 n)) as [d|] eqn:El; [|cbn in Hc; by apply last_None in El; destruct (show_digits_nonempty 5 n []); [lia|]].
      injection Hc as ->. exact (literal_last _ (show_u16_literal n Hn) _ El). }
  rewrite <- Hs at 2. unfold trim. change (of_string "    ") with (replicate 4 32). by rewrite trim_start_spaces.
Qed.

(** Compares the lines that do not depend on the queue. *)
Ltac decide_trimmed :=
  repeat match goal with |- context [bool_decide (trim ?x = ?y)] =>
    first [rewrite (bool_decide_eq_true_2 (trim x = y)) by (vm_compute; reflexivity)
          |rewrite (bool_decide_eq_false_2 (trim x = y)) by (vm_compute; discriminate)] end.

Lemma rule_statements n m :
  in_u16 n ->
  chain_statements (queue_rule n m) =
    [of_string "ip saddr @blocked_v4 drop"; of_string "ip6 saddr @blocked_v6 drop"; queue_statement n m].
Proof.
  intros Hn. unfold queue_rule. unfold chain_statements.
  rewrite !lines_cons by (try (apply Forall_app; split; [by repeat constructor|by apply queue_statement_line]); by repeat constructor).
  cbn [fmap list_fmap]. rewrite trim_queue_statement by done.
  set (s := queue_statement n m). assert (bool_decide (s = of_string "}") = false) as Hs.
  { apply bool_decide_eq_false. unfold s. destruct m; discriminate. }
  clearbody s. cbn [after_line]. decide_trimmed. cbn [until_line]. decide_trimmed.
  rewrite Hs. cbn [drop]. repeat (f_equal; [vm_compute; reflexivity|]). reflexivity.
Qed.

(** What the kernel does with a packet under the generated rule, whatever the sets hold: a packet from
    a blocked source is dropped and never reaches the sensor, wherever it goes; every other packet goes
    to the sensor as long as it listens and its queue has room; when nobody listens the kernel accepts
    the packet in fail-open and drops it in fail-closed; and when the queue is full it drops the packet
    in both modes, which the module promises only of fail-closed. *)
Theorem rule_realises_fail_mode `{Netfilter} queue mode sets l source :
  in_u16 queue ->
  chain_fate sets l source (chain_statements (queue_rule queue mode)) =
    if sets source then KernelDrops
    else match l with
         | Listening => ToSensor queue
         | NobodyListens => match mode with Open => KernelAccepts | Closed => KernelDrops end
         | QueueFull => KernelDrops
         end.
Proof.
  intros Hq. rewrite rule_statements by done. cbn [chain_fate].
  assert (statement_fate sets l source (queue_statement queue mode) =
    Some match l with
         | Listening => ToSensor queue
         | NobodyListens => match mode with Open => KernelAccepts | Closed => KernelDrops end
         | QueueFull => KernelDrops
         end) as ->
    by (destruct mode; cbn [queue_statement]; rewrite ?bypass_decides, ?queue_decides by done; by destruct l).
  destruct source as [a|a]; rewrite ?set_v4_drops, ?set_v4_ignores, ?set_v6_drops, ?set_v6_ignores;
    destruct (sets _); destruct l; done.
Qed.

(** The kernel does not know the allow-list. Once a source is in the set, the rule drops its packets
    to an allow-listed destination too, which the store itself would let through. *)
Theorem kernel_ignores_the_allow_list `{Netfilter} store t now queue mode sets l :
  in_u16 queue -> is_allow_listed store (dest_ip t) = true -> sets (src_ip t) = true ->
  (decide store t now).2 = Accept /\ chain_fate sets l (src_ip t) (chain_statements (queue_rule queue mode)) = KernelDrops.
Proof.
  intros Hq Ha Hs. split; [|by rewrite rule_realises_fail_mode, Hs].
  unfold decide. set (q := set_stats store _). change (is_allow_listed q) with (is_allow_listed store).
  rewrite Ha, orb_true_r. by destruct (negb (armed q)).
Qed.

(** ** The command *)

Lemma split_columns_literal t rest :
  t <> [] -> literal t -> split_whitespace (t ++ 32 :: rest) = t :: split_whitespace rest.
Proof. intros H1 H2. apply split_whitespace_app; [done|by apply literal_no_whitespace|done]. Qed.

(** Nothing but the address and the timeout gets into the command. The arguments are six words of a fixed form, the fourth the sensor's own table and the fifth the set of the family of the address; the sixth is an element of exactly five words, the second the address as it is written, made of digits, letters up to f, dots and colons only, and the fourth the seconds of the timeout, so that no source of traffic can add an argument or an element. *)
Theorem block_command_exact address timeout :
  ip_wf address -> 0 <= timeout ->
  exists element,
    add_element_args address timeout =
      [of_string "add"; of_string "element"; of_string "inet"; TABLE;
       match address with V4 _ => BLOCKED_SET_V4 | V6 _ => BLOCKED_SET_V6 end; element] /\
    split_whitespace element =
      [of_string "{"; ip_to_string address; of_string "timeout"; show_u64 (timeout / 1000000000) ++ of_string "s"; of_string "}"] /\
    literal (ip_to_string address) /\ Forall (fun c => is_ascii_digit c = true) (show_u64 (timeout / 1000000000)).
Proof.
  intros Ha Ht. assert (0 <= timeout / 1000000000) as Hs by (apply Z.div_pos; lia).
  pose proof (ip_to_string_literal address Ha) as Hl. pose proof (show_u64_literal _ Hs) as Hu.
  assert (ip_to_string address <> []) as Hne.
  { destruct address as [x|x]; cbn [ip_to_string]; [unfold show_v4; by destruct (show_digits 3 10 _ [])|].
    unfold show_v6. destruct (_ =? 0xffff); [done|]. destruct (zero_run _ _ _ _) as [start run]. destruct (1 <? run)%nat.
    - by destruct (show_groups _).
    - unfold segments. cbn [fmap list_fmap show_groups]. destruct (show_digits 4 16 _ []) eqn:E; [|done].
      by destruct (show_digits 4 16 _ []). }
  set (secs_text := show_u64 (timeout / 1000000000)) in *.
  exists (of_string "{ " ++ ip_to_string address ++ of_string " timeout " ++ secs_text ++ of_string "s }").
  split; [by destruct address|]. split; [|split; [done|]].
  - change (of_string "{ ") with ([123] ++ [32]). rewrite <- app_assoc. cbn [app].
    change (123 :: 32 :: ?t) with ([123] ++ 32 :: t). rewrite split_whitespace_app by (done || by repeat constructor). f_equal.
    change (of_string " timeout ") with (32 :: of_string "timeout" ++ [32]). rewrite <- app_comm_cons, <- (app_assoc (of_string "timeout")).
    rewrite split_columns_literal by done. f_equal. change ([32] ++ ?t) with (32 :: t).
    rewrite split_whitespace_app by (done || by repeat constructor). f_equal.
    change (of_string "s }") with (of_string "s" ++ 32 :: of_string "}"). rewrite app_assoc.
    rewrite split_whitespace_app; [by rewrite split_whitespace_one by (done || by repeat constructor)|by destruct secs_text| |done].
    apply Forall_app. split; [by apply literal_no_whitespace|by repeat constructor].
  - by apply show_digits_digits.
Qed.

(** ** The counters are read back *)

(** A line of [/proc/net/netfilter/nfnetlink_queue]: the columns are padded with spaces on the left,
    and there may be more of them than the sensor reads. *)
Record QueueRow := mkQueueRow {
  qr_num : Z;
  qr_peer : text;
  qr_total : Z;
  qr_mode : text;
  qr_range : text;
  qr_queue_dropped : Z;
  qr_user_dropped : Z;
  qr_id : Z;
  qr_more : list text
}.

Definition show_u32 (n : Z) : text := show_digits 10 10 n [].

Definition row_columns (r : QueueRow) : list text :=
  [show_u16 (qr_num r); qr_peer r; show_u32 (qr_total r); qr_mode r; qr_range r; show_u32 (qr_queue_dropped r);
   show_u32 (qr_user_dropped r); show_u32 (qr_id r)] ++ qr_more r.

(** Every column after as many spaces as [pad] says, and one more in front of all but the first. *)
Fixpoint spaced (pad : nat -> nat) (columns : list text) : text :=
  match columns with
  | [] => []
  | [c] => replicate (pad 0%nat) 32 ++ c
  | c :: columns' => replicate (pad 0%nat) 32 ++ c ++ 32 :: spaced (fun i => pad (S i)) columns'
  end.

Definition row_ok (r : QueueRow) : Prop :=
  in_u16 (qr_num r) /\ in_u32 (qr_total r) /\ in_u32 (qr_queue_dropped r) /\ in_u32 (qr_user_dropped r) /\ in_u32 (qr_id r) /\
  Forall word (qr_peer r :: qr_mode r :: qr_range r :: qr_more r).

Definition reading (r : QueueRow) : QueueDepth :=
  mkQueueDepth (qr_num r) (qr_total r) (qr_queue_dropped r) (qr_user_dropped r) (qr_id r).

(** The file, line by line: rows of queues, and lines with too few columns, such as a header. *)
Definition queue_file (rows : list (text + QueueRow * (nat -> nat))) : text :=
  concat ((fun r => match r with inl junk => junk | inr (r, pad) => spaced pad (row_columns r) end ++ [10]) <$> rows).

Definition line_ok (r : text + QueueRow * (nat -> nat)) : Prop :=
  match r with
  | inl junk => line_text junk /\ len (split_whitespace junk) < 7
  | inr (r, pad) => row_ok r
  end.

Definition file_rows (rows : list (text + QueueRow * (nat -> nat))) : list QueueRow :=
  omap (fun r => match r with inr (r, _) => Some r | inl _ => None end) rows.

Lemma split_whitespace_pad n t : split_whitespace (replicate n 32 ++ t) = split_whitespace t.
Proof. induction n as [|n IH]; [done|]. cbn [replicate app]. by rewrite split_whitespace_space. Qed.

Lemma split_whitespace_spaced pad columns : Forall word columns -> split_whitespace (spaced pad columns) = columns.
Proof.
  intros Hc. revert pad. induction Hc as [|c columns [H1 H2] Hc IH]; intros pad; [done|]. destruct columns as [|d columns].
  - cbn [spaced]. rewrite split_whitespace_pad. by apply split_whitespace_one.
  - change (spaced pad (c :: d :: columns)) with (replicate (pad 0%nat) 32 ++ c ++ 32 :: spaced (fun i => pad (S i)) (d :: columns)).
    rewrite split_whitespace_pad, split_whitespace_app by done. by rewrite IH.
Qed.

Lemma word_line w : word w -> line_text w.
Proof.
  intros [_ Hw]. eapply Forall_impl; [exact Hw|]. intros c Hc. split; intros ->; discriminate Hc.
Qed.

Lemma spaced_line pad columns : Forall word columns -> line_text (spaced pad columns).
Proof.
  assert (forall n, line_text (replicate n 32)) as Hp by (intros n; apply Forall_replicate; lia).
  intros Hc. revert pad. induction Hc as [|c columns H1 Hc IH]; intros pad; [constructor|]. destruct columns as [|d columns].
  - apply Forall_app. split; [apply Hp|by apply word_line].
  - change (spaced pad (c :: d :: columns)) with (replicate (pad 0%nat) 32 ++ c ++ 32 :: spaced (fun i => pad (S i)) (d :: columns)).
    unfold line_text. rewrite !Forall_app. split; [apply Hp|]. split; [by apply word_line|]. constructor; [lia|apply IH].
Qed.

Lemma show_word fuel n : (0 < fuel)%nat -> 0 <= n -> word (show_digits fuel 10 n []).
Proof.
  intros Hf Hn. split; [by apply show_digits_nonempty|]. apply literal_no_whitespace, show_digits_literal; (lia || constructor).
Qed.

Lemma row_columns_words r : row_ok r -> Forall word (row_columns r).
Proof.
  intros ([H1 _] & [H2 _] & [H3 _] & [H4 _] & [H5 _] & Hw). apply Forall_cons in Hw as [W1 Hw]. apply Forall_cons in Hw as [W2 Hw].
  apply Forall_cons in Hw as [W3 Hw]. unfold row_columns. apply Forall_app. split; [|done].
  repeat constructor; (apply W1 || apply W2 || apply W3 || (apply show_word; [lia|done])).
Qed.

Lemma depth_line_row queue r pad :
  row_ok r -> depth_line queue (spaced pad (row_columns r)) = if qr_num r =? queue then Some (reading r) else None.
Proof.
  intros Hr. unfold depth_line. rewrite split_whitespace_spaced by (by apply row_columns_words).
  destruct Hr as (H1 & H2 & H3 & H4 & H5 & _). unfold in_u16, in_u32, U16_MAX, U32_MAX in *.
  rewrite (proj2 (Z.ltb_ge _ _)) by (unfold row_columns; rewrite length_app; cbn; lia).
  cbn [row_columns app lookup list_lookup mbind option_bind]. unfold number_or_zero, show_u16, show_u32. cbn [mbind option_bind].
  rewrite !parse_unsigned_show by (unfold U16_MAX, U32_MAX; lia). cbn [mbind option_bind unwrap_or].
  by destruct (qr_num r =? queue).
Qed.

(** The counters of a queue are read right. From a file of lines for any number of queues, however their columns are padded, with columns the sensor does not know behind those it does and lines of too few columns in between, the reading for a queue is that of its first line: the packets waiting, those dropped because the queue was full and those that could not be handed over, exactly; and when no line is the queue's there is no reading, not one of zeroes. *)
Theorem queue_counters_read rows queue :
  Forall line_ok rows ->
  depth_parse (queue_file rows) queue = reading <$> head (filter (fun r => qr_num r = queue) (file_rows rows)).
Proof.
  unfold depth_parse, queue_file. induction 1 as [|row rows Hr _ IH]; [done|]. cbn [fmap list_fmap concat].
  rewrite <- app_assoc. cbn [app]. destruct row as [junk|[r pad]]; cbn in Hr.
  - destruct Hr as [Hj Hl]. rewrite lines_cons by done. cbn [first_depth]. unfold depth_line at 1.
    rewrite (proj2 (Z.ltb_lt _ _)) by done. exact IH.
  - rewrite lines_cons by (by apply spaced_line, row_columns_words). cbn [first_depth]. rewrite depth_line_row by done.
    unfold file_rows. cbn [omap list_omap]. fold (file_rows rows). destruct (Z.eqb_spec (qr_num r) queue) as [E|E].
    + by rewrite filter_cons_True.
    + rewrite filter_cons_False by done. exact IH.
Qed.

(** ** The hypotheses can hold *)

(** The statements of the rule, read word by word. *)
Definition read_queue (s : text) : option (Z * bool) :=
  match split_whitespace s with
  | [q; n; number] => if bool_decide (q = of_string "queue" /\ n = of_string "num") then (fun x => (x, false)) <$> parse_unsigned U16_MAX number else None
  | [q; n; number; b] =>
      if bool_decide (q = of_string "queue" /\ n = of_string "num" /\ b = of_string "bypass")
      then (fun x => (x, true)) <$> parse_unsigned U16_MAX number else None
  | _ => None
  end.

Definition table_fate (sets : IpAddr -> bool) (l : Listener) (source : IpAddr) (s : text) : option Fate :=
  let drops set_text := if bool_decide (s = set_text) then if sets source then Some KernelDrops else None else None in
  match read_queue s with
  | Some (n, bypass) =>
      Some match l with
           | Listening => ToSensor n
           | NobodyListens => if bypass : bool then KernelAccepts else KernelDrops
           | QueueFull => KernelDrops
           end
  | None =>
      match source with
      | V4 _ => drops (of_string "ip saddr @blocked_v4 drop")
      | V6 _ => drops (of_string "ip6 saddr @blocked_v6 drop")
      end
  end.

Lemma read_queue_plain n : in_u16 n -> read_queue (of_string "queue num " ++ show_u16 n) = Some (n, false).
Proof.
  intros Hn. pose proof (show_word 5 n ltac:(lia) ltac:(unfold in_u16 in Hn; lia)) as Hw.
  change (of_string "queue num " ++ show_u16 n) with (unwords [of_string "queue"; of_string "num"; show_u16 n]).
  unfold read_queue. rewrite split_whitespace_unwords by (repeat constructor; (done || apply Hw)).
  rewrite bool_decide_eq_true_2 by done. unfold show_u16. unfold in_u16, U16_MAX in *. by rewrite parse_unsigned_show by lia.
Qed.

Lemma read_queue_bypass n : in_u16 n -> read_queue (of_string "queue num " ++ show_u16 n ++ of_string " bypass") = Some (n, true).
Proof.
  intros Hn. pose proof (show_word 5 n ltac:(lia) ltac:(unfold in_u16 in Hn; lia)) as Hw.
  change (of_string "queue num " ++ show_u16 n ++ of_string " bypass")
    with (unwords [of_string "queue"; of_string "num"; show_u16 n; of_string "bypass"]).
  unfold read_queue. rewrite split_whitespace_unwords by (repeat constructor; (done || apply Hw)).
  rewrite bool_decide_eq_true_2 by done. unfold show_u16. unfold in_u16, U16_MAX in *. by rewrite parse_unsigned_show by lia.
Qed.

#[local] Program Instance table_netfilter : Netfilter := {| statement_fate := table_fate |}.
Next Obligation. reflexivity. Qed.
Next Obligation. reflexivity. Qed.
Next Obligation. reflexivity. Qed.
Next Obligation. reflexivity. Qed.
Next Obligation. intros sets l a n Hn. unfold table_fate. by rewrite read_queue_plain. Qed.
Next Obligation. intros sets l a n Hn. unfold table_fate. by rewrite read_queue_bypass. Qed.

Lemma rule_realises_fail_mode_witness :
  chain_fate (fun a => bool_decide (a = V4 7)) NobodyListens (V4 8) (chain_statements (queue_rule 3 Open)) = KernelAccepts /\
  chain_fate (fun a => bool_decide (a = V4 7)) QueueFull (V6 8) (chain_statements (queue_rule 3 Open)) = KernelDrops /\
  chain_fate (fun a => bool_decide (a = V4 7)) Listening (V4 7) (chain_statements (queue_rule 3 Open)) = KernelDrops.
Proof.
  assert (in_u16 3) as H3 by (split; discriminate).
  split_and!; rewrite (rule_realises_fail_mode 3); (exact H3 || reflexivity).
Defined.

Lemma kernel_ignores_the_allow_list_witness :
  (decide (new demo.settings) (mkNetTuple (V4 0xc0a80001) None (V4 0x0a000001) None Icmp) (secs 2)).2 = Accept /\
  chain_fate (fun a => bool_decide (a = V4 0xc0a80001)) Listening (V4 0xc0a80001) (chain_statements (queue_rule 0 Open)) = KernelDrops.
Proof.
  apply (kernel_ignores_the_allow_list (new demo.settings) (mkNetTuple (V4 0xc0a80001) None (V4 0x0a000001) None Icmp));
    [split; discriminate|reflexivity..].
Defined.

Lemma block_command_exact_witness :
  exists element, add_element_args (V4 0xcb007107) (secs 600) =
    [of_string "add"; of_string "element"; of_string "inet"; TABLE; BLOCKED_SET_V4; element] /\
    split_whitespace element = [of_string "{"; of_string "203.0.113.7"; of_string "timeout"; of_string "600s"; of_string "}"].
Proof.
  destruct (block_command_exact (V4 0xcb007107) (secs 600)) as (element & H1 & H2 & _).
  - cbn. lia.
  - discriminate.
  - exists element. split; [exact H1|]. rewrite H2. reflexivity.
Defined.

Definition busy_row : QueueRow :=
  mkQueueRow 18 (of_string "12346") 1024 (of_string "2") (of_string "65535") 512 17 99999 [of_string "1"; of_string "extra"].

Definition sample_queue_file : list (text + QueueRow * (nat -> nat)) := [inl (of_string "queue peer"); inr (busy_row, fun i => i)].

Lemma queue_counters_read_witness :
  unjudged <$> depth_parse (queue_file sample_queue_file) 18 = Some 529 /\ depth_parse (queue_file sample_queue_file) 17 = None.
Proof.
  assert (Forall line_ok sample_queue_file) as Hok.
  { repeat constructor; cbn; unfold in_u16, in_u32, U16_MAX, U32_MAX; try lia; discriminate. }
  split; rewrite (queue_counters_read sample_queue_file) by exact Hok; reflexivity.
Defined.
