(* ===== verification/VerdictQueue.v ===== *)
(** The verdict path on the kernel's queue: [KernelQueue] of [crates/prevent/src/queue.rs], and the
    thread that serves it ([bind_verdict_queue] and [spawn_verdict_thread] of [crates/cli/src/run.rs]).

    [nfq::Queue] is what it answers. [nq_arrivals] are the results of its [recv] calls in order, each
    with the reading of the clock after it; when they are used up the thread waits in [recv].
    [nq_sends] says which verdicts could be sent, and [nq_given] records the verdicts that were given. *)

From S2P Require Import Prelude Text Net Event Config Settings Prevent.

(** ** The queue *)

Inductive RecvError := RecvInterrupted | RecvWouldBlock | RecvFails (error : text).

Record Message := mkMessage {
  msg_id : Z;
  msg_payload : list Z
}.

Inductive NfVerdict := NfAccept | NfDrop.

Definition Arrival : Type := (RecvError + Message) * Z.

Record NfQueue := mkNfQueue {
  nq_arrivals : list Arrival;
  nq_sends : list bool;
  nq_given : list (Message * NfVerdict * bool)
}.

(** [nfq::Queue::verdict]. *)
Definition nfq_verdict (q : NfQueue) (m : Message) (v : NfVerdict) : NfQueue :=
  mkNfQueue (nq_arrivals q) (tail (nq_sends q)) (nq_given q ++ [(m, v, hd true (nq_sends q))]).

Record KernelQueue := mkKernelQueue {
  kq_queue : NfQueue;
  kq_in_flight : gmap Z Message;
  kq_unparsed : Z;
  kq_retries : Z;
  kq_fatal : option text
}.

(** [KernelQueue::bind], for the answers of [Queue::open] and [Queue::bind]. *)
Definition kernel_bind (open : text + NfQueue) (bind : option text) : text + KernelQueue :=
  match open, bind with
  | inl error, _ => inl error
  | inr _, Some error => inl error
  | inr queue, None => inr (mkKernelQueue queue ∅ 0 0 None)
  end.

Definition with_queue (q : KernelQueue) (queue : NfQueue) : KernelQueue :=
  mkKernelQueue queue (kq_in_flight q) (kq_unparsed q) (kq_retries q) (kq_fatal q).

(** After one call of [recv]. *)
Definition took (q : KernelQueue) (rest : list Arrival) : KernelQueue :=
  with_queue q (mkNfQueue rest (nq_sends (kq_queue q)) (nq_given (kq_queue q))).

Definition retry (q : KernelQueue) : KernelQueue :=
  mkKernelQueue (kq_queue q) (kq_in_flight q) (kq_unparsed q) (kq_retries q + 1) (kq_fatal q).

Definition fail (q : KernelQueue) (error : text) : KernelQueue :=
  mkKernelQueue (kq_queue q) (kq_in_flight q) (kq_unparsed q) (kq_retries q) (Some error).

(** A packet whose header cannot be read is let through. *)
Definition pass (q : KernelQueue) (message : Message) : KernelQueue :=
  mkKernelQueue (nfq_verdict (kq_queue q) message NfAccept) (kq_in_flight q) (kq_unparsed q + 1) (kq_retries q) (kq_fatal q).

Definition hold (q : KernelQueue) (message : Message) : KernelQueue :=
  mkKernelQueue (kq_queue q) (<[msg_id message := message]> (kq_in_flight q)) (kq_unparsed q) (kq_retries q) (kq_fatal q).

(** The loop of [next_packet] on the arrivals of the queue. *)
Fixpoint receive (arrivals : list Arrival) (q : KernelQueue) : option (option QueuedPacket) * KernelQueue :=
  match arrivals with
  | [] => (None, q)
  | (result, now) :: rest =>
      let q := took q rest in
      match result with
      | inl (RecvInterrupted | RecvWouldBlock) => receive rest (retry q)
      | inl (RecvFails error) => (Some None, fail q error)
      | inr message =>
          match tuple_from_ip_packet (msg_payload message) with
          | Some t => (Some (Some (mkQueuedPacket (msg_id message) t now)), hold q message)
          | None => receive rest (pass q message)
          end
      end
  end.

Definition to_nf (d : Decision) : NfVerdict := match d with Accept => NfAccept | Drop _ => NfDrop end.

(** [resolve]. *)
Definition kernel_resolve (q : KernelQueue) (packet : QueuedPacket) (d : Decision) : KernelQueue :=
  match kq_in_flight q !! qp_id packet with
  | None => q
  | Some message =>
      mkKernelQueue (nfq_verdict (kq_queue q) message (to_nf d)) (delete (qp_id packet) (kq_in_flight q)) (kq_unparsed q)
        (kq_retries q) (kq_fatal q)
  end.

#[global] Instance KernelQueue_source : VerdictSource KernelQueue := {
  next_packet q := receive (nq_arrivals (kq_queue q)) q;
  resolve := kernel_resolve
}.

(** [bind_verdict_queue]. That the length of the queue or the range that is copied could not be set is
    only logged. *)
Definition bind_verdict_queue (c : Config) (open : text + NfQueue) (bind : option text) : option KernelQueue :=
  if negb (prevent_enabled (prevent c)) then None
  else match kernel_bind open bind with inr q => Some q | inl _ => None end.

(** ** The thread *)

(** One turn: what the other threads do to the store before this one has its lock, whether a shutdown
    is signalled, whether a thread has panicked with the lock for a reason of its own, and the clock. *)
Record VerdictTurn := mkVerdictTurn {
  vt_others : list PreventOp;
  vt_shutdown : bool;
  vt_poisoned : bool;
  vt_clock : ClockReading
}.

Inductive ThreadEnd := EndedByShutdown | EndedBySource | EndedByPanic.

(** The store when this thread asks for it, and whether its lock is poisoned: by an operation of another
    thread that panicked, or otherwise. *)
Definition at_turn (p : Prevention) (t : VerdictTurn) : Prevention * bool :=
  match run_ops p (vt_others t) with Some p => (p, vt_poisoned t) | None => (p, true) end.

(** The body of the thread, on the store it shares: [None] as long as it runs or waits. *)
Fixpoint verdict_thread (turns : list VerdictTurn) (q : KernelQueue) (p : Prevention) : KernelQueue * Prevention * option ThreadEnd :=
  match turns with
  | [] => (q, p, None)
  | t :: turns' =>
      let '(p, poisoned) := at_turn p t in
      if vt_shutdown t then (q, p, Some EndedByShutdown)
      else
        match next_packet q with
        | (None, q) => (q, p, None)
        | (Some None, q) => (q, p, Some EndedBySource)
        | (Some (Some packet), q) =>
            if poisoned then (q, p, Some EndedByPanic)
            else
              let '(q, p, _) := judge_and_resolve q p packet (vt_clock t) in
              verdict_thread turns' q p
        end
  end.

(** ** What a run of the thread is *)

Definition messages (l : list Arrival) : list Message := omap (fun a => match a.1 with inr m => Some m | inl _ => None end) l.

Definition is_retry (a : Arrival) : bool :=
  match a.1 with inl RecvInterrupted | inl RecvWouldBlock => true | _ => false end.

Definition unreadable (m : Message) : Prop := tuple_from_ip_packet (msg_payload m) = None.

#[export] Instance unreadable_dec m : base.Decision (unreadable m).
Proof. unfold unreadable. apply _. Defined.

(** The right answers. Serving [taken] with the turns [turns] takes the store from [p] to [p'] and
    gives [answers]: a packet whose header cannot be read is accepted and takes no turn; every other
    packet takes the next turn, and its answer is what the store decides of its 5-tuple at the clock of
    that turn, in the state in which the other threads have left it by then. *)
Inductive serving : list VerdictTurn -> Prevention -> list Arrival -> list (Message * NfVerdict) -> Prevention -> Prop :=
| serving_none p : serving [] p [] [] p
| serving_retry turns p a taken answers p' :
    is_retry a = true -> serving turns p taken answers p' -> serving turns p (a :: taken) answers p'
| serving_pass turns p m now taken answers p' :
    unreadable m -> serving turns p taken answers p' -> serving turns p ((inr m, now) :: taken) ((m, NfAccept) :: answers) p'
| serving_judge t turns p p0 p1 d tuple micros m now taken answers p' :
    tuple_from_ip_packet (msg_payload m) = Some tuple -> run_ops p (vt_others t) = Some p0 ->
    decide p0 tuple (judged_at (vt_clock t)) = (p1, d) -> serving turns (record_latency p1 micros) taken answers p' ->
    serving (t :: turns) p ((inr m, now) :: taken) ((m, to_nf d) :: answers) p'.

Lemma serving_app u1 p t1 a1 p1 u2 t2 a2 p2 :
  serving u1 p t1 a1 p1 -> serving u2 p1 t2 a2 p2 -> serving (u1 ++ u2) p (t1 ++ t2) (a1 ++ a2) p2.
Proof.
  intros H1 H2. induction H1; cbn [app]; [done|apply serving_retry; eauto|apply serving_pass; eauto|].
  eapply serving_judge; eauto.
Qed.

(** The packets are answered once each, in the order of arrival. *)
Lemma serving_messages u p taken answers p' : serving u p taken answers p' -> answers.*1 = messages taken.
Proof.
  induction 1 as [|? ? [[[]|] ?]| |]; [done|done..|by f_equal/=|by f_equal/=].
Qed.

(** From [q] to [q'] the arrivals [taken] were served with the turns [turns], while the store went from
    [p] to [p']. *)
Record served (turns : list VerdictTurn) (p : Prevention) (taken : list Arrival) (q q' : KernelQueue) (p' : Prevention) : Prop := {
  sv_arrivals : nq_arrivals (kq_queue q) = taken ++ nq_arrivals (kq_queue q');
  sv_given : exists answers, nq_given (kq_queue q') = nq_given (kq_queue q) ++ answers /\ serving turns p taken answers.*1 p';
  sv_in_flight : kq_in_flight q' = kq_in_flight q;
  sv_unparsed : kq_unparsed q' = kq_unparsed q + len (filter unreadable (messages taken));
  sv_retries : kq_retries q' = kq_retries q + len (List.filter is_retry taken)
}.

Lemma messages_app l k : messages (l ++ k) = messages l ++ messages k.
Proof. apply omap_app. Qed.

Lemma served_refl p q : served [] p [] q q p.
Proof. split; try done; [exists []; rewrite app_nil_r; split; [done|constructor]|cbn; lia..]. Qed.

Lemma served_trans u1 u2 p1 p2 p3 l1 l2 q1 q2 q3 :
  served u1 p1 l1 q1 q2 p2 -> served u2 p2 l2 q2 q3 p3 -> served (u1 ++ u2) p1 (l1 ++ l2) q1 q3 p3.
Proof.
  intros [A1 (a1 & G1 & S1) I1 U1 R1] [A2 (a2 & G2 & S2) I2 U2 R2]. split.
  - by rewrite A1, A2, app_assoc.
  - exists (a1 ++ a2). split; [by rewrite G2, G1, app_assoc|]. rewrite fmap_app. by eapply serving_app.
  - congruence.
  - rewrite U2, U1, messages_app, filter_app, length_app. lia.
  - rewrite R2, R1, List.filter_app, length_app. lia.
Qed.

(** ** One arrival *)

Lemma retry_served p q a rest :
  nq_arrivals (kq_queue q) = a :: rest -> is_retry a = true -> served [] p [a] q (retry (took q rest)) p.
Proof.
  intros Ea Er. destruct a as [[[]|] now]; try done;
    (split; [done|exists []; rewrite app_nil_r; split; [done|by repeat constructor]|done|cbn; lia|cbn; lia]).
Qed.

Lemma pass_served p q m now rest :
  nq_arrivals (kq_queue q) = (inr m, now) :: rest -> unreadable m -> served [] p [(inr m, now)] q (pass (took q rest) m) p.
Proof.
  intros Ea Hu. split; [done| |done| |cbn; lia].
  - eexists [_]. split; [done|]. constructor; [done|constructor].
  - cbn [messages omap list_omap fst]. rewrite filter_cons_True by done. cbn. lia.
Qed.

(** A packet that is held, judged and resolved at once. *)
Lemma judged_served turn p p0 q m t now rest q' p' d :
  nq_arrivals (kq_queue q) = (inr m, now) :: rest -> tuple_from_ip_packet (msg_payload m) = Some t -> kq_in_flight q = ∅ ->
  run_ops p (vt_others turn) = Some p0 ->
  judge_and_resolve (hold (took q rest) m) p0 (mkQueuedPacket (msg_id m) t now) (vt_clock turn) = (q', p', d) ->
  served [turn] p [(inr m, now)] q q' p' /\ kq_fatal q' = kq_fatal q.
Proof.
  intros Ea Et Hf Eo E. unfold judge_and_resolve, judge in E. destruct (decide p0 _ _) as [p1 d1] eqn:Ed. injection E as <- <- <-.
  cbn [tuple] in Ed. unfold resolve, KernelQueue_source, kernel_resolve. cbn [hold kq_in_flight qp_id took with_queue].
  rewrite lookup_insert_eq. split; [|done]. split.
  - done.
  - eexists [_]. split; [done|]. cbn. eapply serving_judge; [done|done|exact Ed|constructor].
  - cbn. rewrite delete_insert_eq, delete_id by (by rewrite Hf). done.
  - cbn [messages omap list_omap fst]. rewrite filter_cons_False by (unfold unreadable; by rewrite Et). cbn. lia.
  - cbn. lia.
Qed.

(** A call of [next_packet] that has served what came before [q1] answers [r] and leaves [q']. *)
Definition returned (q1 : KernelQueue) (r : option (option QueuedPacket)) (q' : KernelQueue) : Prop :=
  match r with
  | None => q' = q1 /\ nq_arrivals (kq_queue q1) = []
  | Some None =>
      exists error now rest, nq_arrivals (kq_queue q1) = (inl (RecvFails error), now) :: rest /\ q' = fail (took q1 rest) error
  | Some (Some packet) =>
      exists m t now rest, nq_arrivals (kq_queue q1) = (inr m, now) :: rest /\ tuple_from_ip_packet (msg_payload m) = Some t /\
        packet = mkQueuedPacket (msg_id m) t now /\ q' = hold (took q1 rest) m
  end.

Lemma receive_served p arrivals q r q' :
  nq_arrivals (kq_queue q) = arrivals -> receive arrivals q = (r, q') ->
  exists taken q1, served [] p taken q q1 p /\ kq_fatal q1 = kq_fatal q /\ returned q1 r q'.
Proof.
  revert q. induction arrivals as [|a rest IH]; intros q Ea E; cbn [receive] in E.
  { injection E as <- <-. exists [], q. split; [apply served_refl|done]. }
  assert (forall q2, served [] p [a] q q2 p -> kq_fatal q2 = kq_fatal q -> nq_arrivals (kq_queue q2) = rest -> receive rest q2 = (r, q') ->
    exists taken q1, served [] p taken q q1 p /\ kq_fatal q1 = kq_fatal q /\ returned q1 r q') as Hgo.
  { intros q2 Hs Hf Ea2 E2. destruct (IH q2 Ea2 E2) as (taken & q1 & Hs1 & Hf1 & Hr). exists (a :: taken), q1.
    split; [by apply (served_trans [] [] p p p [a] taken q q2 q1)|]. split; [congruence|exact Hr]. }
  destruct a as [[[| |error]|m] now].
  - by apply (Hgo _ (retry_served p q _ rest Ea eq_refl)).
  - by apply (Hgo _ (retry_served p q _ rest Ea eq_refl)).
  - injection E as <- <-. exists [], q. split; [apply served_refl|]. split; [done|]. by exists error, now, rest.
  - destruct (tuple_from_ip_packet (msg_payload m)) as [t|] eqn:Et; [|by apply (Hgo _ (pass_served p q m now rest Ea Et))].
    injection E as <- <-. exists [], q. split; [apply served_refl|]. split; [done|]. by exists m, t, now, rest.
Qed.

(** ** The thread *)

(** How a run of the thread ends, in the state that has served what came before: with the shutdown
    signalled, with a failure of the queue, which is kept, or with one packet left without a verdict
    because the lock was poisoned. Without an end, it has used up its turns or waits for an arrival. *)
Definition ended (rest : list VerdictTurn) (q1 : KernelQueue) (e : option ThreadEnd) (q' : KernelQueue) : Prop :=
  match e with
  | None => q' = q1 /\ (rest = [] \/ nq_arrivals (kq_queue q1) = [])
  | Some EndedByShutdown => q' = q1 /\ exists t, head rest = Some t /\ vt_shutdown t = true
  | Some EndedBySource => exists error now more, nq_arrivals (kq_queue q1) = (inl (RecvFails error), now) :: more /\ q' = fail (took q1 more) error
  | Some EndedByPanic =>
      exists m now more t, nq_arrivals (kq_queue q1) = (inr m, now) :: more /\ q' = hold (took q1 more) m /\ head rest = Some t /\
        (vt_poisoned t = true \/ exists p0, run_ops p0 (vt_others t) = None)
  end.

Lemma at_turn_cases p t p0 poisoned :
  at_turn p t = (p0, poisoned) ->
  (poisoned = false -> run_ops p (vt_others t) = Some p0) /\
  (poisoned = true -> vt_poisoned t = true \/ exists p0, run_ops p0 (vt_others t) = None).
Proof.
  unfold at_turn. destruct (run_ops p (vt_others t)) as [p1|] eqn:E; intros [= <- <-]; split; intros; try done; [by left|right; by exists p].
Qed.

(** The turns of the packets that were judged come first; the rest of them were not needed, or the
    first of them is the one in which the thread ended or waits. *)
Lemma verdict_thread_serves turns q p q' p' e :
  kq_in_flight q = ∅ -> verdict_thread turns q p = (q', p', e) ->
  exists used rest taken q1 p1, turns = used ++ rest /\ served used p taken q q1 p1 /\ kq_fatal q1 = kq_fatal q /\ ended rest q1 e q'.
Proof.
  revert q p. induction turns as [|t turns IH]; intros q p Hf E; cbn [verdict_thread] in E.
  { injection E as <- <- <-. exists [], [], [], q, p. split; [done|]. split; [apply served_refl|]. split; [done|]. split; [done|by left]. }
  destruct (at_turn p t) as [p0 poisoned] eqn:Eo. destruct (at_turn_cases p t p0 poisoned Eo) as [Ho1 Ho2]. destruct (vt_shutdown t) eqn:Es.
  { injection E as <- <- <-. exists [], (t :: turns), [], q, p. split; [done|]. split; [apply served_refl|]. split; [done|]. split; [done|]. by exists t. }
  cbn [next_packet KernelQueue_source] in E. destruct (receive _ q) as [r q2] eqn:Er.
  destruct (receive_served p _ q r q2 eq_refl Er) as (taken & q1 & Hs & Hfa & Hr).
  pose proof (sv_in_flight _ _ _ _ _ _ Hs) as Hi. rewrite Hf in Hi. destruct r as [[packet|]|]; cbn [returned] in Hr.
  - destruct Hr as (m & tu & now & rest & Ea & Et & -> & ->). destruct poisoned.
    { injection E as <- <- <-. exists [], (t :: turns), taken, q1, p. split; [done|]. split; [done|]. split; [done|]. exists m, now, rest, t. split_and!; try done. by apply Ho2. }
    destruct (judge_and_resolve _ p0 _ _) as [[q3 p3] d] eqn:Ej.
    destruct (judged_served t p p0 q1 m tu now rest q3 p3 d Ea Et Hi (Ho1 eq_refl) Ej) as [Hs3 Hfa3].
    destruct (IH q3 p3) as (used & more & taken' & q4 & p4 & -> & Hs4 & Hfa4 & He);
      [by rewrite (sv_in_flight _ _ _ _ _ _ Hs3)|exact E|].
    exists (t :: used), more, (taken ++ [(inr m, now)] ++ taken'), q4, p4. split; [done|]. split; [|split; [congruence|done]].
    eapply (served_trans [] (t :: used)); [exact Hs|]. by eapply (served_trans [t] used).
  - injection E as <- <- <-. by exists [], (t :: turns), taken, q1, p.
  - destruct Hr as [-> H0]. injection E as <- <- <-. exists [], (t :: turns), taken, q1, p. split; [done|]. split; [done|]. split; [done|]. split; [done|by right].
Qed.

Lemma serving_turns u p taken answers p' : serving u p taken answers p' -> (length u <= length taken)%nat.
Proof. induction 1; cbn; lia. Qed.

(** C12: every packet the kernel hands over gets exactly one verdict, the right one. Let the verdict
    thread run from a queue with nothing in flight, beside any use of the store by other threads. It
    serves the arrivals of the queue in order: each packet is answered once, in the order of arrival;
    one whose header cannot be read is accepted and counted; every other one is answered with what the
    store decides of its 5-tuple at the turn in which the packet is taken, in the state in which the
    turns before it and the other threads have left the store by then, and not an earlier one.
    Interrupted calls are retried and counted, and nothing stays in flight. The thread ends only on the
    shutdown, on a failure of the queue, which it keeps, or when the lock was poisoned, with one packet
    left without a verdict; and one that has not ended, with a turn for every arrival, has served all
    of them. *)
Theorem verdict_thread_answers turns q p q' p' e :
  kq_in_flight q = ∅ -> verdict_thread turns q p = (q', p', e) ->
  exists used rest taken answers q1 p1, turns = used ++ rest /\
    nq_arrivals (kq_queue q) = taken ++ nq_arrivals (kq_queue q1) /\
    nq_given (kq_queue q1) = nq_given (kq_queue q) ++ answers /\ answers.*1.*1 = messages taken /\ serving used p taken answers.*1 p1 /\
    kq_in_flight q1 = ∅ /\ kq_unparsed q1 = kq_unparsed q + len (filter unreadable (messages taken)) /\
    kq_retries q1 = kq_retries q + len (List.filter is_retry taken) /\ kq_fatal q1 = kq_fatal q /\ ended rest q1 e q' /\
    (e = None -> (length (nq_arrivals (kq_queue q)) <= length turns)%nat -> nq_arrivals (kq_queue q') = []).
Proof.
  intros Hf E. destruct (verdict_thread_serves turns q p q' p' e Hf E) as (used & rest & taken & q1 & p1 & -> & [H1 (answers & H2 & H3) H4 H5 H6] & H7 & H8).
  exists used, rest, taken, answers, q1, p1. split; [done|]. split; [done|]. split; [done|]. split; [by eapply serving_messages|].
  split; [done|]. split; [congruence|]. split; [done|]. split; [done|]. split; [done|]. split; [done|].
  intros -> Hl. destruct H8 as [-> [->|H8]]; [|done]. pose proof (serving_turns _ _ _ _ _ H3) as Hu.
  rewrite H1, !length_app in Hl. cbn in Hl. apply length_zero_iff_nil. lia.
Qed.

(** A verdict that could not be sent is not counted anywhere: the store counts the packet as judged,
    and the counters of the queue are those of a verdict that was sent. *)
Theorem failed_verdict_is_not_counted p message packet clock :
  qp_id packet = msg_id message ->
  let after sent := judge_and_resolve (mkKernelQueue (mkNfQueue [] [sent] []) {[msg_id message := message]} 0 0 None) p packet clock in
  let '(q, store, d) := after false in
  let '(q', store', d') := after true in
  nq_given (kq_queue q) = [(message, to_nf d, false)] /\ nq_given (kq_queue q') = [(message, to_nf d', true)] /\
  store = store' /\ d = d' /\ packets_judged (stats_ store) = packets_judged (stats_ p) + 1 /\
  kq_unparsed q = kq_unparsed q' /\ kq_retries q = kq_retries q' /\ kq_fatal q = kq_fatal q'.
Proof.
  intros Hid. unfold judge_and_resolve, judge. pose proof (decide_counts p (tuple packet) (judged_at clock)) as [Hj _].
  destruct (decide p _ _) as [p1 d]. unfold resolve, KernelQueue_source, kernel_resolve. cbn [kq_in_flight]. rewrite Hid, lookup_singleton_eq.
  cbn. by split_and!.
Qed.

(** ** The hypotheses can hold *)

(** A packet of a blocked source, an interrupted call and a packet that cannot be read. *)
Definition blocked_packet : Message :=
  mkMessage 7 ([0x45; 0; 0; 40; 0; 0; 0; 0; 64; 6; 0; 0; 192; 168; 0; 1; 192; 168; 0; 2] ++ [0x11; 0x5c; 0; 80]).

Definition kernel_queue : KernelQueue :=
  mkKernelQueue (mkNfQueue [(inr (mkMessage 5 [0x45]), 1); (inl RecvInterrupted, 2); (inr blocked_packet, 3)] [] []) ∅ 0 0 None.

Definition verdict_turn : VerdictTurn := mkVerdictTurn [BlockOp demo.attack (secs 1)] false false (mkClockReading (secs 3) (secs 3 + 5000)).

Lemma verdict_thread_answers_witness :
  exists q' p' e, verdict_thread [verdict_turn; verdict_turn; verdict_turn] kernel_queue (new demo.settings) = (q', p', e) /\
    nq_arrivals (kq_queue q') = [] /\ nq_given (kq_queue q') = [(mkMessage 5 [0x45], NfAccept, true); (blocked_packet, NfDrop, true)].
Proof.
  destruct (verdict_thread [verdict_turn; verdict_turn; verdict_turn] kernel_queue (new demo.settings)) as [[q' p'] e] eqn:E.
  exists q', p', e. split; [reflexivity|].
  destruct (verdict_thread_answers [verdict_turn; verdict_turn; verdict_turn] kernel_queue (new demo.settings) q' p' e eq_refl E)
    as (_ & _ & _ & _ & _ & _ & _ & _ & _ & _ & _ & _ & _ & _ & _ & _ & H).
  split; [apply H; [vm_compute in E; congruence|cbn; lia]|].
  vm_compute in E. injection E as <- _ _. reflexivity.
Defined.
