(* ===== verification/Correlation.v ===== *)
(** Local correlation: [crates/correlation/src/lib.rs].

    The correlator joins host-side and network-side observations of one host. [None] is the panic of
    [Vec::remove] on an empty window, which [corr_ok] rules out. *)

From stdpp Require Import pretty.
From S2P Require Import Prelude Text.

(** ** Data *)

(** [EventKind] of [crates/common/src/event.rs]. *)
Inductive EventKind := Alert | Anomaly | Flow | Fim | Auth | Process | Incident | Stats.

Inductive Domain := Network | Host.

#[global] Instance Domain_eq_dec : EqDecision Domain.
Proof. solve_decision. Defined.

(** [Domain::of]. *)
Definition domain_of (kind : EventKind) : option Domain :=
  match kind with
  | Alert | Anomaly | Flow => Some Network
  | Fim | Auth | Process => Some Host
  | Incident | Stats => None
  end.

Record Observation := mkObservation {
  host : text;
  timestamp : Z;
  domain : Domain;
  event_type : EventKind;
  sid : option Z;
  severity : Z;
  summary : text
}.

Definition DEFAULT_WINDOW : Z := secs 120.
Definition DEFAULT_MAX_HOSTS : Z := 1024.
Definition DEFAULT_MAX_PER_HOST : Z := 256.
Definition DEFAULT_COOLDOWN : Z := secs 300.

Record CorrelationSettings := mkCorrelationSettings {
  window : Z;
  max_hosts : Z;
  max_per_host : Z;
  cooldown : Z
}.

Definition CorrelationSettings_default : CorrelationSettings :=
  mkCorrelationSettings DEFAULT_WINDOW DEFAULT_MAX_HOSTS DEFAULT_MAX_PER_HOST DEFAULT_COOLDOWN.

Record CorrelationStats := mkCorrelationStats {
  cs_enabled : bool;
  observations : Z;
  incidents : Z;
  cs_dropped : Z
}.

Record IncidentContributor := mkContributor {
  ic_event_type : EventKind;
  ic_sid : option Z;
  ic_summary : text;
  ic_timestamp : Z
}.

Record IncidentEvent := mkIncident {
  reason : text;
  inc_severity : Z;
  first_seen : Z;
  last_seen : Z;
  contributors : list IncidentContributor
}.

Record Correlator := mkCorrelator {
  settings : CorrelationSettings;
  windows : gmap text (list Observation);
  last_incident : gmap text Z;
  stats : CorrelationStats
}.

Definition new (s : CorrelationSettings) : Correlator :=
  mkCorrelator s ∅ ∅ (mkCorrelationStats true 0 0 0).

(** ** Operations *)

(** [within]: the absolute difference is at most the window. *)
Definition within (earlier now window : Z) : bool := Z.abs (now - earlier) <=? window.

(** The [retain] of [expire]: trim every window, forget the empty ones. *)
Definition trim (now w : Z) (obs : list Observation) : option (list Observation) :=
  match filter (fun o => within (timestamp o) now w = true) obs with
  | [] => None
  | kept => Some kept
  end.

Definition expire (c : Correlator) (now : Z) : Correlator :=
  mkCorrelator (settings c)
    (omap (trim now (window (settings c))) (windows c))
    (filter (fun kv => within kv.2 now (cooldown (settings c)) = true) (last_incident c))
    (stats c).

Definition opposite (d : Domain) : Domain := match d with Network => Host | Host => Network end.

Definition describe (contributors : list Observation) : text :=
  let host_side := len (filter (fun o => domain o = Host) contributors) in
  let network_side := len contributors - host_side in
  of_string (pretty network_side +:+ " network and " +:+ pretty host_side +:+
             " host observations on the same host within the correlation window").

(** The smallest severity of the contributors. *)
Definition min_severity (obs : list Observation) : option Z :=
  match obs with
  | [] => None
  | o :: rest => Some (foldl (fun m o => Z.min m (severity o)) (severity o) rest)
  end.

Definition contributor (o : Observation) : IncidentContributor :=
  mkContributor (event_type o) (sid o) (summary o) (timestamp o).

(** Whether the host of [trigger] raised an incident within the cooldown. *)
Definition cooling_down (c : Correlator) (trigger : Observation) : bool :=
  match last_incident c !! host trigger with
  | Some previous => within previous (timestamp trigger) (cooldown (settings c))
  | None => false
  end.

(** The incident made of a window. *)
Definition build_incident (obs : list Observation) : option IncidentEvent :=
  let sorted := sort_by_key timestamp obs in
  first ← head sorted;
  final ← last sorted;
  Some (mkIncident (describe sorted) (unwrap_or 3 (min_severity sorted)) (timestamp first)
          (timestamp final) (contributor <$> sorted)).

Definition try_correlate (c : Correlator) (trigger : Observation) : Correlator * option IncidentEvent :=
  if cooling_down c trigger then (c, None)
  else
    match windows c !! host trigger with
    | None => (c, None)
    | Some obs =>
        if negb (existsb (fun o => bool_decide (domain o = opposite (domain trigger))) obs) then (c, None)
        else
          match build_incident obs with
          | None => (c, None)
          | Some incident =>
              (mkCorrelator (settings c) (windows c)
                 (<[host trigger := timestamp trigger]> (last_incident c))
                 (mkCorrelationStats (cs_enabled (stats c)) (observations (stats c))
                    (incidents (stats c) + 1) (cs_dropped (stats c))),
               Some incident)
          end
    end.

Definition bump_dropped (c : Correlator) : Correlator :=
  mkCorrelator (settings c) (windows c) (last_incident c)
    (mkCorrelationStats (cs_enabled (stats c)) (observations (stats c)) (incidents (stats c))
       (cs_dropped (stats c) + 1)).

(** [window.remove(0)]. *)
Definition remove_first {A} (l : list A) : option (list A) :=
  match l with [] => None | _ :: l => Some l end.

(** [observe]. *)
Definition observe (c : Correlator) (o : Observation) : option (Correlator * option IncidentEvent) :=
  let c := mkCorrelator (settings c) (windows c) (last_incident c)
             (mkCorrelationStats (cs_enabled (stats c)) (observations (stats c) + 1)
                (incidents (stats c)) (cs_dropped (stats c))) in
  let c := expire c (timestamp o) in
  if bool_decide (windows c !! host o = None) && (max_hosts (settings c) <=? Z.of_nat (size (windows c)))
  then Some (bump_dropped c, None)
  else
    let obs := unwrap_or [] (windows c !! host o) in
    '(c, obs) ← (if max_per_host (settings c) <=? len obs then
                   obs' ← remove_first obs; Some (bump_dropped c, obs')
                 else Some (c, obs));
    let c := mkCorrelator (settings c) (<[host o := obs ++ [o]]> (windows c)) (last_incident c) (stats c) in
    Some (try_correlate c o).

(** ** The invariant *)

Record window_wf (s : CorrelationSettings) (h : text) (obs : list Observation) : Prop := {
  ww_nonempty : obs <> [];
  ww_bound : len obs <= max_per_host s;
  ww_host : Forall (fun o => host o = h) obs
}.

Definition corr_inv (c : Correlator) : Prop :=
  map_Forall (window_wf (settings c)) (windows c) /\
  Z.of_nat (size (windows c)) <= Z.max (max_hosts (settings c)) 0.

(** The setting that keeps [window.remove(0)] away from an empty window. *)
Definition settings_ok (s : CorrelationSettings) : Prop := 1 <= max_per_host s.

(** ** Expiry *)

Lemma trim_Some now w obs kept :
  trim now w obs = Some kept <->
  kept = filter (fun o => within (timestamp o) now w = true) obs /\ kept <> [].
Proof. unfold trim. destruct (filter _ obs) eqn:E; naive_solver. Qed.

Lemma expire_windows c now h kept :
  windows (expire c now) !! h = Some kept <->
  exists obs, windows c !! h = Some obs /\ kept <> [] /\
    kept = filter (fun o => within (timestamp o) now (window (settings c)) = true) obs.
Proof.
  simpl. rewrite lookup_omap. destruct (windows c !! h) as [obs|]; simpl; [|naive_solver].
  rewrite trim_Some. naive_solver.
Qed.

Lemma omap_size `{Countable K} {A B} (f : A -> option B) (m : gmap K A) :
  (size (omap f m) <= size m)%nat.
Proof.
  rewrite <- !size_dom. apply subseteq_size. intros k Hk. apply elem_of_dom in Hk as [b Hb].
  apply lookup_omap_Some in Hb as (a & _ & Ha). by apply elem_of_dom.
Qed.

Lemma expire_inv c now : corr_inv c -> corr_inv (expire c now).
Proof.
  intros [Hw Hs]. split.
  - intros h kept Hk. apply expire_windows in Hk as (obs & Ho & Hne & ->).
    destruct (Hw _ _ Ho) as [W1 W2 W3]. simpl. split; [done| |].
    + pose proof (length_filter (fun o => within (timestamp o) now (window (settings c)) = true) obs). lia.
    + apply Forall_forall. intros x Hx. apply list_elem_of_filter in Hx as [_ Hx].
      rewrite Forall_forall in W3. by apply W3.
  - simpl. pose proof (omap_size (trim now (window (settings c))) (windows c)). lia.
Qed.

Lemma try_correlate_windows c o :
  windows (try_correlate c o).1 = windows c /\ settings (try_correlate c o).1 = settings c.
Proof. unfold try_correlate. repeat case_match; done. Qed.

(** The observations of a host once [o] has been added to them. *)
Definition joined (c : Correlator) (o : Observation) : list Observation :=
  let obs := unwrap_or [] (windows (expire c (timestamp o)) !! host o) in
  (if max_per_host (settings c) <=? len obs then tail obs else obs) ++ [o].

(** [observe] without the panic: it drops the observation for want of room for a new host, or joins
    it to its window and correlates. *)
Lemma observe_cases c o :
  corr_inv c -> settings_ok (settings c) ->
  (windows (expire c (timestamp o)) !! host o = None /\
   max_hosts (settings c) <= Z.of_nat (size (windows (expire c (timestamp o)))) /\
   exists c', observe c o = Some (c', None) /\ settings c' = settings c /\
     windows c' = windows (expire c (timestamp o)) /\
     last_incident c' = last_incident (expire c (timestamp o))) \/
  (exists c1, observe c o = Some (try_correlate c1 o) /\ settings c1 = settings c /\
     windows c1 = <[host o := joined c o]> (windows (expire c (timestamp o))) /\
     last_incident c1 = last_incident (expire c (timestamp o)) /\
     (windows (expire c (timestamp o)) !! host o = None ->
      Z.of_nat (size (windows (expire c (timestamp o)))) < max_hosts (settings c))).
Proof.
  intros Hc Hok. unfold observe.
  set (c0 := mkCorrelator _ _ _ _). change (expire c0 (timestamp o)) with
    (mkCorrelator (settings c) (windows (expire c (timestamp o)))
       (last_incident (expire c (timestamp o))) (stats c0)).
  simpl settings. simpl windows. simpl last_incident.
  set (ws := omap _ _). destruct (_ && _) eqn:E.
  { left. bsimpl. apply bool_decide_eq_true in H. split_and!; try done. by eexists. }
  right. unfold joined. simpl windows. fold ws. set (obs := unwrap_or [] (ws !! host o)).
  assert (Hsize : ws !! host o = None -> Z.of_nat (size ws) < max_hosts (settings c)).
  { intros Hn. rewrite Hn in E. rewrite bool_decide_eq_true_2 in E by done. simpl in E. by bsimpl. }
  destruct (Z.leb_spec (max_per_host (settings c)) (len obs)) as [Hl|Hl].
  - unfold settings_ok in Hok. destruct obs as [|x obs'] eqn:Eo; [simpl in Hl; lia|]. simpl.
    by eexists.
  - simpl. by eexists.
Qed.

(** ** One observation *)

Lemma joined_wf c o :
  corr_inv c -> settings_ok (settings c) -> window_wf (settings c) (host o) (joined c o).
Proof.
  intros Hc Hok. pose proof (expire_inv c (timestamp o) Hc) as [Hw _]. unfold joined.
  assert (Hobs : forall obs, obs = unwrap_or [] (windows (expire c (timestamp o)) !! host o) ->
    len obs <= max_per_host (settings c) /\ Forall (fun x => host x = host o) obs).
  { intros obs ->. destruct (windows (expire c (timestamp o)) !! host o) as [obs|] eqn:E.
    - destruct (Hw _ _ E) as [_ ? ?]. done.
    - simpl. unfold settings_ok in Hok. split; [lia|constructor]. }
  set (obs := unwrap_or _ _). destruct (Hobs obs eq_refl) as [Hl Hh]. clearbody obs.
  unfold settings_ok in Hok. split.
  - by destruct (if _ <=? _ then _ else _).
  - rewrite length_app. destruct (Z.leb_spec (max_per_host (settings c)) (len obs)); simpl; [|lia].
    destruct obs; simpl in *; lia.
  - apply Forall_app. split; [|by constructor]. destruct (_ <=? _); [|done]. by destruct Hh.
Qed.

Lemma observe_ok c o :
  corr_inv c -> settings_ok (settings c) ->
  exists c' inc, observe c o = Some (c', inc) /\ corr_inv c' /\ settings c' = settings c.
Proof.
  intros Hc Hok. pose proof (expire_inv c (timestamp o) Hc) as [Hw Hs].
  destruct (observe_cases c o Hc Hok) as [(_ & _ & c' & E & Es & Ew & _)|(c1 & E & Es & Ew & _ & Hsz)].
  - exists c', None. split; [done|]. split; [|done]. split; by rewrite Es, Ew.
  - destruct (try_correlate_windows c1 o) as [Ew1 Es1].
    destruct (try_correlate c1 o) as [c' inc] eqn:Et. simpl in *. exists c', inc.
    split; [done|]. split; [|congruence]. split.
    + rewrite Ew1, Ew, Es1, Es. apply map_Forall_insert_2; [by apply joined_wf|done].
    + rewrite Ew1, Ew, Es1, Es, map_size_insert. 
      destruct (omap _ (windows c) !! host o) eqn:El; simpl in *; [done|]. specialize (Hsz eq_refl). lia.
Qed.

Lemma joined_elem c o x :
  x ∈ joined c o ->
  x = o \/ within (timestamp x) (timestamp o) (window (settings c)) = true /\
    exists obs, windows c !! host o = Some obs /\ x ∈ obs.
Proof.
  unfold joined. intros Hx. apply elem_of_app in Hx as [Hx|Hx]; [right|left; set_solver].
  set (obs := unwrap_or [] (windows (expire c (timestamp o)) !! host o)) in *.
  assert (Hx' : x ∈ obs) by (revert Hx; destruct (_ <=? _); [|done]; destruct obs; simpl; set_solver).
  unfold obs in Hx'. destruct (windows (expire c (timestamp o)) !! host o) as [kept|] eqn:E;
    simpl in Hx'; [|by apply elem_of_nil in Hx'].
  apply expire_windows in E as (obs0 & Eo & _ & ->). apply list_elem_of_filter in Hx' as [H1 H2]. eauto.
Qed.

(** What an incident is made of. *)
Record incident_of (trigger : Observation) (evidence : list Observation) (inc : IncidentEvent) : Prop := {
  io_trigger : trigger ∈ evidence;
  io_opposite : Exists (fun o => domain o = opposite (domain trigger)) evidence;
  io_contributors : contributors inc = contributor <$> evidence;
  io_sorted : StronglySorted (fun a b => timestamp a <= timestamp b) evidence;
  io_severity : Forall (fun o => inc_severity inc <= severity o) evidence /\
    Exists (fun o => severity o = inc_severity inc) evidence;
  io_span : Forall (fun o => first_seen inc <= timestamp o <= last_seen inc) evidence
}.

Lemma foldl_min obs m :
  foldl (fun m o => Z.min m (severity o)) m obs <= m /\
  Forall (fun o => foldl (fun m o => Z.min m (severity o)) m obs <= severity o) obs /\
  (foldl (fun m o => Z.min m (severity o)) m obs = m \/
   Exists (fun o => severity o = foldl (fun m o => Z.min m (severity o)) m obs) obs).
Proof.
  revert m. induction obs as [|o obs IH]; intros m; simpl; [split_and!; [lia|constructor|by left]|].
  destruct (IH (Z.min m (severity o))) as (H1 & H2 & H3). split_and!; [lia|constructor; [lia|done]|].
  destruct H3 as [H3|H3]; [|right; by constructor 2]. rewrite H3.
  destruct (Z.min_spec m (severity o)) as [[_ E]|[_ E]]; rewrite E; [by left|right; by constructor 1].
Qed.

Lemma build_incident_ok obs inc :
  build_incident obs = Some inc ->
  let evidence := sort_by_key timestamp obs in
  contributors inc = contributor <$> evidence /\
  (Forall (fun o => inc_severity inc <= severity o) evidence /\
   Exists (fun o => severity o = inc_severity inc) evidence) /\
  Forall (fun o => first_seen inc <= timestamp o <= last_seen inc) evidence.
Proof.
  unfold build_incident. intros E. pose proof (sort_by_key_sorted timestamp obs) as Hs.
  set (ev := sort_by_key timestamp obs) in *. clearbody ev. simpl.
  destruct ev as [|o ev]; [done|]. simpl head in E. cbn [mbind option_bind] in E.
  destruct (last (o :: ev)) as [final|] eqn:El; [|by apply last_None in El].
  simpl in E. simplify_eq. simpl.
  destruct (foldl_min ev (severity o)) as (M1 & M2 & M3). split_and!; try done.
  - by constructor.
  - destruct M3 as [M3|M3]; [constructor 1; by rewrite M3|by constructor 2].
  - apply last_Some in El as [pre El]. rewrite El in Hs |- *.
    apply Forall_forall. intros x Hx. split.
    + rewrite <- El in Hs. apply StronglySorted_inv in Hs as [_ Hs]. rewrite Forall_forall in Hs.
      rewrite <- El in Hx. apply elem_of_cons in Hx as [->|Hx]; [lia|by apply Hs].
    + apply elem_of_app in Hx as [Hx|Hx].
      * apply (StronglySorted_app_1_elem_of _ _ _ x final Hs Hx). set_solver.
      * assert (x = final) as -> by set_solver. lia.
Qed.

Lemma try_correlate_incident c o obs :
  windows c !! host o = Some obs -> o ∈ obs ->
  (exists c' inc, try_correlate c o = (c', Some inc) /\
     incident_of o (sort_by_key timestamp obs) inc /\
     cooling_down c o = false /\
     last_incident c' = <[host o := timestamp o]> (last_incident c)) \/
  (try_correlate c o = (c, None) /\
   (cooling_down c o = true \/ Forall (fun x => domain x <> opposite (domain o)) obs)).
Proof.
  intros Ew Hin. unfold try_correlate. destruct (cooling_down c o) eqn:Ec; [by right; split; [|left]|].
  rewrite Ew. destruct (existsb _ obs) eqn:Ex; simpl; cycle 1.
  { right. split; [done|right]. apply Forall_forall. intros x Hx E. apply not_true_iff_false in Ex.
    apply Ex, existsb_exists. exists x. split; [by apply list_elem_of_In|by apply bool_decide_eq_true]. }
  left. assert (Hb : is_Some (build_incident obs)).
  { unfold build_incident. pose proof (sort_by_key_perm timestamp obs) as Hp.
    destruct (sort_by_key timestamp obs) as [|x l]; [|simpl head; cbn [mbind option_bind];
      destruct (last (x :: l)) eqn:E; [done|by apply last_None in E]].
    apply Permutation_nil_l in Hp. subst. by apply elem_of_nil in Hin. }
  destruct Hb as [inc Hb]. rewrite Hb. do 2 eexists. split; [done|]. split; [|done].
  destruct (build_incident_ok obs inc Hb) as (H1 & H2 & H3). split; try done.
  - by rewrite sort_by_key_perm.
  - rewrite sort_by_key_perm. apply existsb_exists in Ex as (x & Hx & Ed).
    apply Exists_exists. exists x. split; [by apply list_elem_of_In|by apply bool_decide_eq_true in Ed].
  - apply sort_by_key_sorted.
Qed.

(** ** Runs *)

(** The incidents raised, each with the observation that completed it. *)
Fixpoint run_corr (c : Correlator) (l : list Observation) :
    option (Correlator * list (Observation * IncidentEvent)) :=
  match l with
  | [] => Some (c, [])
  | o :: l =>
      '(c, inc) ← observe c o;
      '(c, incs) ← run_corr c l;
      Some (c, match inc with Some i => (o, i) :: incs | None => incs end)
  end.

Lemma run_corr_ok l c :
  corr_inv c -> settings_ok (settings c) ->
  exists c' incs, run_corr c l = Some (c', incs) /\ corr_inv c' /\ settings c' = settings c.
Proof.
  revert c. induction l as [|o l IH]; intros c Hc Hok; [by exists c, []|].
  destruct (observe_ok c o Hc Hok) as (c1 & inc & E1 & Hc1 & Es1).
  destruct (IH c1 Hc1 ltac:(by rewrite Es1)) as (c2 & incs & E2 & Hc2 & Es2).
  simpl. rewrite E1. simpl. rewrite E2. simpl. do 2 eexists. split; [done|]. split; [done|congruence].
Qed.

Lemma new_corr_inv s : corr_inv (new s).
Proof. split; simpl; [apply map_Forall_empty|rewrite map_size_empty; lia]. Qed.

(** Every observation that is held has been seen. *)
Definition held_in (c : Correlator) (seen : list Observation) : Prop :=
  map_Forall (fun _ obs => obs ⊆ seen) (windows c).

(** The incident, if any, of one observation, and what is held afterwards. *)
Lemma observe_incident c o seen c' inc :
  corr_inv c -> settings_ok (settings c) -> 0 <= window (settings c) -> held_in c seen ->
  observe c o = Some (c', inc) ->
  held_in c' (seen ++ [o]) /\
  (forall i, inc = Some i -> exists evidence, incident_of o evidence i /\
    evidence ⊆ seen ++ [o] /\
    Forall (fun x => host x = host o /\
      Z.abs (timestamp o - timestamp x) <= window (settings c)) evidence).
Proof.
  intros Hc Hok Hwin Hheld E.
  assert (Hexp : map_Forall (fun _ obs => obs ⊆ seen ++ [o]) (windows (expire c (timestamp o)))).
  { intros h kept Hk. apply expire_windows in Hk as (obs & Ho & _ & ->). specialize (Hheld _ _ Ho).
    intros x Hx. apply list_elem_of_filter in Hx as [_ Hx]. apply elem_of_app. left. by apply Hheld. }
  assert (Hj : joined c o ⊆ seen ++ [o]).
  { intros x Hx. apply joined_elem in Hx as [->|(_ & obs & Ho & Hx)]; [set_solver|].
    apply elem_of_app. left. by apply (Hheld _ _ Ho). }
  destruct (observe_cases c o Hc Hok) as [(_ & _ & c1 & E1 & _ & Ew & _)|(c1 & E1 & Es & Ew & _)];
    rewrite E in E1; apply (inj Some) in E1.
  { simplify_eq. split; [|done]. unfold held_in. by rewrite Ew. }
  destruct (try_correlate_windows c1 o) as [Ew1 _].
  assert (Hl : windows c1 !! host o = Some (joined c o)) by (rewrite Ew; apply lookup_insert_eq).
  assert (Hin : o ∈ joined c o) by (unfold joined; set_solver).
  split.
  - unfold held_in. replace c' with (try_correlate c1 o).1 by (by rewrite <- E1).
    rewrite Ew1, Ew. by apply map_Forall_insert_2.
  - intros i ->. destruct (try_correlate_incident c1 o _ Hl Hin) as [(c2 & i2 & E2 & Hi & _)|[E2 _]];
      rewrite E2 in E1; simplify_eq.
    exists (sort_by_key timestamp (joined c o)). split_and!; [done|by rewrite sort_by_key_perm|].
    rewrite sort_by_key_perm. destruct (joined_wf c o Hc Hok) as [_ _ Hh].
    apply Forall_forall. intros x Hx. rewrite Forall_forall in Hh. split; [by apply Hh|].
    apply joined_elem in Hx as [->|(Hx & _)]; [lia|]. unfold within in Hx. by bsimpl.
Qed.

Lemma run_corr_incidents l c seen :
  corr_inv c -> settings_ok (settings c) -> 0 <= window (settings c) -> held_in c seen ->
  forall c' incs, run_corr c l = Some (c', incs) ->
  forall o i, (o, i) ∈ incs -> exists evidence, incident_of o evidence i /\ evidence ⊆ seen ++ l /\
    Forall (fun x => host x = host o /\
      Z.abs (timestamp o - timestamp x) <= window (settings c)) evidence.
Proof.
  revert c seen. induction l as [|a l IH]; intros c seen Hc Hok Hw Hheld c' incs E o i Hi.
  { simpl in E. simplify_eq. by apply elem_of_nil in Hi. }
  destruct (observe_ok c a Hc Hok) as (c1 & inc & E1 & Hc1 & Es1). simpl in E. rewrite E1 in E.
  simpl in E. destruct (run_corr c1 l) as [[c2 incs2]|] eqn:E2; [|done]. simpl in E. simplify_eq.
  destruct (observe_incident c a seen c1 inc Hc Hok Hw Hheld E1) as [Hheld1 Hinc].
  assert (Hrest : (o, i) ∈ incs2 -> exists evidence, incident_of o evidence i /\
    evidence ⊆ seen ++ a :: l /\ Forall (fun x => host x = host o /\
      Z.abs (timestamp o - timestamp x) <= window (settings c)) evidence).
  { intros Hin. rewrite (cons_middle a seen l), (app_assoc seen).
    rewrite <- Es1. eapply IH; try done; by rewrite ?Es1. }
  destruct inc as [i0|]; [|by apply Hrest].
  apply elem_of_cons in Hi as [Hi|Hi]; [|by apply Hrest]. simplify_eq.
  destruct (Hinc i0 eq_refl) as (ev & H1 & H2 & H3). exists ev. split_and!; try done.
  intros x Hx. apply H2 in Hx. set_solver.
Qed.

(** ** Cooldown *)

(** Every incident so far is remembered as the last one of its host, or is older than the
    cooldown. *)
Definition remembered (c : Correlator) (now : Z) (past : list Observation) : Prop :=
  Forall (fun o => cooldown (settings c) < now - timestamp o \/
    exists t, last_incident c !! host o = Some t /\ timestamp o <= t <= now) past.

Lemma observe_cooldown c o now past c' inc :
  corr_inv c -> settings_ok (settings c) -> now <= timestamp o -> remembered c now past ->
  observe c o = Some (c', inc) ->
  remembered c' (timestamp o) (past ++ (if inc then [o] else [])) /\
  (inc <> None -> Forall (fun a => host a = host o -> cooldown (settings c) < timestamp o - timestamp a) past).
Proof.
  intros Hc Hok Hnow Hrem E.
  assert (Hexp : Forall (fun a => cooldown (settings c) < timestamp o - timestamp a \/
    exists t, last_incident (expire c (timestamp o)) !! host a = Some t /\
      timestamp a <= t <= timestamp o /\ within t (timestamp o) (cooldown (settings c)) = true) past).
  { eapply Forall_impl; [exact Hrem|]. simpl. intros a [Ha|(t & Ht & Hle)]; [left; lia|].
    destruct (within t (timestamp o) (cooldown (settings c))) eqn:Ewi.
    - right. exists t. split_and!; try lia; [|done]. by apply map_lookup_filter_Some.
    - left. unfold within in Ewi. bsimpl. lia. }
  assert (Hkeep : forall c2, settings c2 = settings c ->
    last_incident c2 = last_incident (expire c (timestamp o)) -> remembered c2 (timestamp o) past).
  { intros c2 Es El. eapply Forall_impl; [exact Hexp|]. simpl. intros a [Ha|(t & Ht & Hle & _)].
    - left. by rewrite Es.
    - right. exists t. by rewrite El. }
  destruct (observe_cases c o Hc Hok) as [(_ & _ & c1 & E1 & Es & _ & El)|(c1 & E1 & Es & Ew & El & _)];
    rewrite E in E1; apply (inj Some) in E1.
  { simplify_eq. rewrite app_nil_r. split; [by apply Hkeep|done]. }
  destruct (try_correlate_incident c1 o (joined c o)) as [(c2 & i & E2 & _ & Hcool & El2)|[E2 _]];
    [rewrite Ew; apply lookup_insert_eq|unfold joined; set_solver| |];
    rewrite E2 in E1; simplify_eq; cycle 1.
  { rewrite app_nil_r. split; [by apply Hkeep|done]. }
  destruct (try_correlate_windows c1 o) as [_ Es2]. rewrite E2 in Es2. simpl in Es2.
  assert (Hfar : Forall (fun a => host a = host o ->
    cooldown (settings c) < timestamp o - timestamp a) past).
  { eapply Forall_impl; [exact Hexp|]. simpl. intros a [Ha|(t & Ht & _ & Hwi)] Eh; [done|].
    exfalso. unfold cooling_down in Hcool. rewrite Eh in Ht. simpl in El. rewrite El, Ht in Hcool.
    rewrite Es in Hcool. congruence. }
  split; [|done]. apply Forall_app. split.
  - rewrite Forall_forall in Hexp, Hfar |- *. intros a Ha. rewrite Es2, Es, El2.
    destruct (decide (host a = host o)) as [Eh|Hne]; [left; by apply Hfar|].
    destruct (Hexp a Ha) as [Hx|(t & Ht & Hle & _)]; [by left|]. right. exists t.
    rewrite lookup_insert_ne by congruence. rewrite El. done.
  - constructor; [|constructor]. right. exists (timestamp o). rewrite El2, lookup_insert_eq.
    split_and!; [done|lia|lia].
Qed.

Lemma run_corr_cooldown l c now past :
  corr_inv c -> settings_ok (settings c) -> remembered c now past ->
  Forall (fun o => now <= timestamp o) l ->
  StronglySorted (fun a b => timestamp a <= timestamp b) l ->
  forall c' incs, run_corr c l = Some (c', incs) ->
  Forall (fun a => Forall (fun o => host a = host o ->
    cooldown (settings c) < timestamp o - timestamp a) incs.*1) past /\
  StronglySorted (fun a o => host a = host o -> cooldown (settings c) < timestamp o - timestamp a) incs.*1.
Proof.
  revert c now past. induction l as [|a l IH]; intros c now past Hc Hok Hrem Hnow Hs c' incs E.
  { simpl in E. simplify_eq. simpl. split; [|constructor]. apply Forall_forall. intros x _. constructor. }
  apply StronglySorted_inv in Hs as [Hs Hle]. apply Forall_cons in Hnow as [Hna Hnow].
  destruct (observe_ok c a Hc Hok) as (c1 & inc & E1 & Hc1 & Es1). simpl in E. rewrite E1 in E.
  simpl in E. destruct (run_corr c1 l) as [[c2 incs2]|] eqn:E2; [|done]. simpl in E. simplify_eq.
  destruct (observe_cooldown c a now past c1 inc Hc Hok Hna Hrem E1) as [Hrem1 Hfar].
  destruct (IH c1 (timestamp a) _ Hc1 ltac:(by rewrite Es1) Hrem1 Hle Hs _ _ E2) as [H1 H2].
  rewrite Es1 in H1, H2. apply Forall_app in H1 as [H1 H1'].
  destruct inc as [i|]; [|done]. specialize (Hfar ltac:(done)). simpl.
  apply Forall_cons in H1' as [H1' _]. split.
  - rewrite Forall_forall in H1, Hfar |- *. intros x Hx. constructor; [by apply Hfar|by apply H1].
  - by constructor.
Qed.

(** ** Properties *)

(** C28: an incident is always corroborated: for every sequence of observations the correlator runs
    to the end, and each incident it raises is made of observations that were really offered, all of
    the host of the observation that completed it, all within the window of it, from both halves of
    the sensor; they are reported in time order, with the most severe severity and the exact span. *)
Theorem incident_is_corroborated (s : CorrelationSettings) (obs : list Observation) :
  settings_ok s -> 0 <= window s ->
  exists c incs, run_corr (new s) obs = Some (c, incs) /\
    forall o i, (o, i) ∈ incs -> exists evidence, incident_of o evidence i /\ evidence ⊆ obs /\
      Exists (fun x => domain x = Host) evidence /\ Exists (fun x => domain x = Network) evidence /\
      Forall (fun x => host x = host o /\ Z.abs (timestamp o - timestamp x) <= window s) evidence.
Proof.
  intros Hok Hw. destruct (run_corr_ok obs (new s) (new_corr_inv s) Hok) as (c & incs & E & _).
  exists c, incs. split; [done|]. intros o i Hi.
  destruct (run_corr_incidents obs (new s) [] (new_corr_inv s) Hok Hw ltac:(apply map_Forall_empty)
    c incs E o i Hi) as (ev & Hio & Hsub & Hall).
  exists ev. destruct Hio as [Hin Hopp H1 H2 H3 H4]. split; [by split|]. split; [done|].
  assert (Hself : Exists (fun x => domain x = domain o) ev) by (apply Exists_exists; by exists o).
  destruct (domain o); simpl in Hopp; split_and!; done.
Qed.

(** Both caps hold on every run: at most [max_hosts] hosts are tracked, with at most
    [max_per_host] observations each, all of their own host. *)
Theorem correlator_bounded (s : CorrelationSettings) (obs : list Observation) :
  settings_ok s ->
  exists c incs, run_corr (new s) obs = Some (c, incs) /\
    Z.of_nat (size (windows c)) <= Z.max (max_hosts s) 0 /\
    map_Forall (fun h w => w <> [] /\ len w <= max_per_host s /\ Forall (fun o => host o = h) w) (windows c).
Proof.
  intros Hok. destruct (run_corr_ok obs (new s) (new_corr_inv s) Hok) as (c & incs & E & [Hw Hs] & Es).
  exists c, incs. rewrite Es in Hw, Hs. split_and!; try done.
  intros h w Hh. destruct (Hw _ _ Hh). done.
Qed.

(** When observations arrive in time order, two incidents of the same host are always more than
    the cooldown apart: sustained activity is one incident, not a stream of them. *)
Theorem incidents_respect_cooldown (s : CorrelationSettings) (obs : list Observation) :
  settings_ok s -> StronglySorted (fun a b => timestamp a <= timestamp b) obs ->
  exists c incs, run_corr (new s) obs = Some (c, incs) /\
    StronglySorted (fun a b => host a = host b -> cooldown s < timestamp b - timestamp a) incs.*1.
Proof.
  intros Hok Hs. destruct (run_corr_ok obs (new s) (new_corr_inv s) Hok) as (c & incs & E & _).
  exists c, incs. split; [done|].
  destruct obs as [|o obs]; [simpl in E; simplify_eq; constructor|].
  eapply (run_corr_cooldown (o :: obs) (new s) (timestamp o) []); try done;
    [apply new_corr_inv|constructor|].
  apply StronglySorted_inv in Hs as [_ Hs]. constructor; [lia|done].
Qed.

(** A pairing is never missed: when two observations of one host come one after the other, from
    the two halves of the sensor and within the window, and the host is tracked and has raised no
    incident, the second one raises an incident. *)
Theorem cross_domain_pair_raises_incident (c c1 : Correlator) (o1 o2 : Observation)
    (r1 : option IncidentEvent) :
  corr_inv c -> 2 <= max_per_host (settings c) ->
  observe c o1 = Some (c1, r1) ->
  windows c1 !! host o1 <> None -> last_incident c1 !! host o1 = None ->
  host o2 = host o1 -> domain o2 = opposite (domain o1) ->
  Z.abs (timestamp o2 - timestamp o1) <= window (settings c) ->
  exists c2 i, observe c1 o2 = Some (c2, Some i).
Proof.
  intros Hc Hm E Hw Hli Eh Ed Hwin.
  assert (Hok : settings_ok (settings c)) by (unfold settings_ok; lia).
  destruct (observe_ok c o1 Hc Hok) as (c1' & r1' & E' & Hc1 & Es1). rewrite E in E'. simplify_eq.
  assert (Hlast : exists pre, windows c1' !! host o1 = Some (pre ++ [o1])).
  { destruct (observe_cases c o1 Hc Hok) as [(Hn & _ & c3 & E3 & _ & Ew & _)|(c3 & E3 & _ & Ew & _)];
      rewrite E in E3; apply (inj Some) in E3; [simplify_eq; by rewrite Ew in Hw|].
    destruct (try_correlate_windows c3 o1) as [Ew1 _]. rewrite <- E3 in Ew1. simpl in Ew1.
    rewrite Ew1, Ew, lookup_insert_eq. unfold joined. eauto. }
  destruct Hlast as [pre Hpre].
  assert (Hexp : exists pre', windows (expire c1' (timestamp o2)) !! host o2 = Some (pre' ++ [o1])).
  { eexists. rewrite Eh. apply expire_windows. eexists. split; [exact Hpre|].
    rewrite filter_app, filter_cons, filter_nil. rewrite decide_True; [split; [|done]|].
    - by destruct (filter _ pre).
    - unfold within. rewrite Es1. zdec. done. }
  destruct Hexp as [pre' Hpre'].
  assert (Hj : o1 ∈ joined c1' o2).
  { unfold joined. rewrite Hpre'. simpl unwrap_or. apply elem_of_app. left. rewrite Es1.
    destruct (Z.leb_spec (max_per_host (settings c)) (len (pre' ++ [o1]))) as [Hl|Hl]; [|set_solver].
    rewrite length_app in Hl. destruct pre' as [|x pre']; simpl in *; [lia|]. set_solver. }
  assert (Hok1 : settings_ok (settings c1')) by (by rewrite Es1).
  destruct (observe_cases c1' o2 Hc1 Hok1) as [(Hn & _)|(c3 & E3 & Es3 & Ew3 & El3 & _)];
    [congruence|].
  rewrite E3. destruct (try_correlate_incident c3 o2 (joined c1' o2))
    as [(c4 & i & E4 & _)|[_ [Hcool|Hno]]].
  - rewrite Ew3. apply lookup_insert_eq.
  - unfold joined. set_solver.
  - rewrite E4. eauto.
  - exfalso. unfold cooling_down in Hcool. rewrite El3 in Hcool. simpl in Hcool.
    destruct (filter _ (last_incident c1') !! host o2) eqn:Ef; [|done].
    apply map_lookup_filter_Some in Ef as [Ef _]. rewrite Eh in Ef. congruence.
  - exfalso. rewrite Forall_forall in Hno. apply (Hno o1 Hj). rewrite Ed. by destruct (domain o1).
Qed.

(** The cooldown rests on the arrival order: one observation with a far-off timestamp, of any
    host, makes the correlator forget the incidents it raised, and the same host raises a second
    incident two seconds after the first under the default settings. *)
Theorem stray_timestamp_defeats_cooldown :
  exists obs c a b,
    run_corr (new CorrelationSettings_default) obs = Some (c, [a; b]) /\
    host a.1 = host b.1 /\
    timestamp b.1 - timestamp a.1 < cooldown CorrelationSettings_default.
Proof.
  set (obs := fun h t d => mkObservation h (secs t) d Fim None 2 (of_string "evidence")).
  eexists [obs (of_string "web") 1000 Network; obs (of_string "web") 1001 Host; obs (of_string "db") 9000 Host;
           obs (of_string "web") 1002 Network; obs (of_string "web") 1003 Host], _, _, _.
  split; [vm_compute; reflexivity|]. split; vm_compute; reflexivity.
Qed.

(** A configuration with [max_per_host] zero, which nothing rejects, panics on the first
    observation: the oldest entry of an empty window is removed. *)
Theorem zero_per_host_panics (s : CorrelationSettings) (o : Observation) :
  max_per_host s = 0 -> 0 < max_hosts s -> observe (new s) o = None.
Proof.
  intros Hm Hh. unfold observe. simpl. rewrite omap_empty, lookup_empty, map_size_empty.
  rewrite bool_decide_eq_true_2 by done. simpl. zdec. done.
Qed.

(** ** Witnesses *)

Module demo.

Definition obs (h : string) (t : Z) (d : Domain) : Observation :=
  mkObservation (of_string h) (secs t) d (match d with Network => Alert | Host => Fim end) None 2 (of_string "evidence").

Definition trace : list Observation :=
  [obs "web" 1000 Network; obs "web" 1001 Host; obs "web" 1400 Host; obs "web" 1410 Network].

Lemma trace_sorted : StronglySorted (fun a b => timestamp a <= timestamp b) trace.
Proof. repeat constructor; vm_compute; discriminate. Qed.

End demo.

Lemma incident_is_corroborated_witness :
  exists c incs, run_corr (new CorrelationSettings_default) demo.trace = Some (c, incs) /\
    forall o i, (o, i) ∈ incs -> exists evidence, incident_of o evidence i /\ evidence ⊆ demo.trace.
Proof.
  destruct (incident_is_corroborated CorrelationSettings_default demo.trace) as (c & incs & E & H).
  - vm_compute. discriminate.
  - vm_compute. discriminate.
  - exists c, incs. split; [exact E|]. intros o i Hi. destruct (H o i Hi) as (ev & H1 & H2 & _).
    exists ev. split; [exact H1|exact H2].
Defined.

Lemma correlator_bounded_witness :
  exists c incs, run_corr (new CorrelationSettings_default) demo.trace = Some (c, incs) /\
    Z.of_nat (size (windows c)) <= 1024.
Proof.
  destruct (correlator_bounded CorrelationSettings_default demo.trace) as (c & incs & E & H & _).
  - vm_compute. discriminate.
  - exists c, incs. split; [exact E|exact H].
Defined.

Lemma incidents_respect_cooldown_witness :
  exists c incs, run_corr (new CorrelationSettings_default) demo.trace = Some (c, incs) /\
    StronglySorted (fun a b => host a = host b -> secs 300 < timestamp b - timestamp a) incs.*1.
Proof.
  apply (incidents_respect_cooldown CorrelationSettings_default demo.trace).
  - vm_compute. discriminate.
  - exact demo.trace_sorted.
Defined.

Lemma cross_domain_pair_raises_incident_witness :
  exists c1 r1 c2 i,
    observe (new CorrelationSettings_default) (demo.obs "web" 1000 Network) = Some (c1, r1) /\
    observe c1 (demo.obs "web" 1001 Host) = Some (c2, Some i).
Proof.
  assert (E : is_Some (observe (new CorrelationSettings_default) (demo.obs "web" 1000 Network)))
    by (eexists; vm_compute; reflexivity).
  destruct (observe (new CorrelationSettings_default) (demo.obs "web" 1000 Network)) as [[c1 r1]|] eqn:Eo;
    [|destruct E as [? [=]]].
  destruct (cross_domain_pair_raises_incident (new CorrelationSettings_default) c1
    (demo.obs "web" 1000 Network) (demo.obs "web" 1001 Host) r1
    (new_corr_inv CorrelationSettings_default)) as (c2 & i & E2).
  - vm_compute. discriminate.
  - exact Eo.
  - vm_compute in Eo. injection Eo as <- _. vm_compute. discriminate.
  - vm_compute in Eo. injection Eo as <- _. vm_compute. reflexivity.
  - reflexivity.
  - reflexivity.
  - vm_compute. discriminate.
  - exists c1, r1, c2, i. split; [reflexivity|exact E2].
Defined.

Lemma zero_per_host_panics_witness :
  observe (new (mkCorrelationSettings 1 1 0 1)) (demo.obs "web" 1 Host) = None.
Proof. apply (zero_per_host_panics (mkCorrelationSettings 1 1 0 1)); reflexivity. Defined.
