(* ===== verification/EventLog.v ===== *)
(** The event log: [crates/common/src/eventlog.rs], a bounded queue with many producers and one writer
    thread that owns the sinks.

    The threads are interleaved one atomic operation at a time: [emit] is an increment, a [try_send]
    and a second increment; the writer takes a message, decrements, writes. A schedule is a list of
    [Action]s, [log_run] executes it, and an action that would block is [None]. The counters are
    64-bit and wrap. [to_ndjson] is the serializer of the [serde_json] crate; a sink is any state
    with a [write_line] and a [flush] that may fail. The last fields of the state record the history
    and are not read by any step. *)

From S2P Require Import Prelude.

(** The [EventSink] trait: the new state, and whether the call succeeded. *)
Class EventSink (Sink : Type) := {
  write_line : Sink -> list Z -> Sink * bool;
  sink_flush : Sink -> Sink * bool
}.

Section eventlog.
Context {Event Sink : Type} `{!EventSink Sink} (to_ndjson : Event -> option (list Z)).

(** ** State *)

Inductive Message := MEvent (e : Event) | MShutdown.

(** Where a producing thread is in [emit]. *)
Inductive Producer :=
| Idle
| Counted (e : Event)
| Sent
| Refused.

(** Where the writer is in [writer_loop]: [Took] and [Writing] in the loop, [DrainTook] and
    [DrainWriting] behind the shutdown marker. *)
Inductive Writer :=
| Polling
| Flushing
| Parked
| Took (e : Event)
| Writing (e : Event)
| Draining
| DrainTook (e : Event)
| DrainWriting (e : Event)
| Closing
| Gone.

(** What the writer asks of every sink. *)
Inductive Call := CallWrite (line : list Z) | CallFlush.

Record Log := mkLog {
  lg_emitted : Z;
  lg_dropped : Z;
  lg_written : Z;
  lg_write_errors : Z;
  lg_queued : Z;
  lg_capacity : Z;
  lg_queue : list Message;
  lg_writer : Writer;
  lg_producers : list Producer;
  lg_sinks : list Sink;
  (* history *)
  lg_accepted : list Event;
  lg_refused : list Event;
  lg_processed : list Event;
  lg_calls : list Call;
  lg_marker : option nat
}.

(** [EventPipeline::spawn], with [threads] producers. *)
Definition spawn (sinks : list Sink) (capacity : Z) (threads : nat) : Log :=
  mkLog 0 0 0 0 0 (Z.max capacity 1) [] Polling (replicate threads Idle) sinks [] [] [] [] None.

(** [AtomicU64::fetch_add] and [fetch_sub]. *)
Definition fetch_add (counter n : Z) : Z := (counter + n) mod 2 ^ 64.

(** ** Sinks *)

Definition with_sinks (l : Log) (sinks : list Sink) (call : Call) (written errors : Z) : Log :=
  mkLog (lg_emitted l) (lg_dropped l) (fetch_add (lg_written l) written) (fetch_add (lg_write_errors l) errors)
    (lg_queued l) (lg_capacity l) (lg_queue l) (lg_writer l) (lg_producers l) sinks (lg_accepted l) (lg_refused l)
    (lg_processed l) (lg_calls l ++ [call]) (lg_marker l).

Definition failures (results : list (Sink * bool)) : Z := len (filter (fun r => r.2 = false) results).

(** [write_event]: serialized once, handed to every sink; one failure does not stop the others. *)
Definition write_event (l : Log) (e : Event) : Log :=
  match to_ndjson e with
  | None =>
      mkLog (lg_emitted l) (lg_dropped l) (lg_written l) (fetch_add (lg_write_errors l) 1) (lg_queued l) (lg_capacity l)
        (lg_queue l) (lg_writer l) (lg_producers l) (lg_sinks l) (lg_accepted l) (lg_refused l) (lg_processed l)
        (lg_calls l) (lg_marker l)
  | Some line =>
      let results := (fun s => write_line s line) <$> lg_sinks l in
      with_sinks l (results.*1) (CallWrite line) (if existsb snd results then 1 else 0) (failures results)
  end.

(** [flush_all]. *)
Definition flush_all (l : Log) : Log :=
  let results := sink_flush <$> lg_sinks l in
  with_sinks l (results.*1) CallFlush 0 (failures results).

(** ** The writer *)

Definition set_writer (l : Log) (w : Writer) : Log :=
  mkLog (lg_emitted l) (lg_dropped l) (lg_written l) (lg_write_errors l) (lg_queued l) (lg_capacity l) (lg_queue l) w
    (lg_producers l) (lg_sinks l) (lg_accepted l) (lg_refused l) (lg_processed l) (lg_calls l) (lg_marker l).

(** The head of the queue leaves it. *)
Definition pop (l : Log) (q : list Message) (w : Writer) : Log :=
  mkLog (lg_emitted l) (lg_dropped l) (lg_written l) (lg_write_errors l) (lg_queued l) (lg_capacity l) q w
    (lg_producers l) (lg_sinks l) (lg_accepted l) (lg_refused l) (lg_processed l) (lg_calls l) (lg_marker l).

Definition dequeued (l : Log) (w : Writer) : Log :=
  mkLog (lg_emitted l) (lg_dropped l) (lg_written l) (lg_write_errors l) (fetch_add (lg_queued l) (-1)) (lg_capacity l)
    (lg_queue l) w (lg_producers l) (lg_sinks l) (lg_accepted l) (lg_refused l) (lg_processed l) (lg_calls l) (lg_marker l).

(** The event in hand is written and joins the history of those the writer is done with, whether or not a sink took its line. *)
Definition processed (l : Log) (e : Event) (w : Writer) : Log :=
  let l := write_event l e in
  mkLog (lg_emitted l) (lg_dropped l) (lg_written l) (lg_write_errors l) (lg_queued l) (lg_capacity l) (lg_queue l) w
    (lg_producers l) (lg_sinks l) (lg_accepted l) (lg_refused l) (lg_processed l ++ [e]) (lg_calls l) (lg_marker l).

(** The [match message] of the loop. *)
Definition take_message (l : Log) (m : Message) (q : list Message) : Log :=
  match m with MEvent e => pop l q (Took e) | MShutdown => pop l q Draining end.

(** [writer_loop], one operation; [None] when the writer waits for a message or is gone. *)
Definition writer_step (l : Log) : option Log :=
  match lg_writer l with
  | Polling => Some match lg_queue l with [] => set_writer l Flushing | m :: q => take_message l m q end
  | Flushing => Some (set_writer (flush_all l) Parked)
  | Parked => match lg_queue l with [] => None | m :: q => Some (take_message l m q) end
  | Took e => Some (dequeued l (Writing e))
  | Writing e => Some (processed l e Polling)
  | Draining =>
      Some match lg_queue l with
           | MEvent e :: q => pop l q (DrainTook e)
           | MShutdown :: q => pop l q Closing
           | [] => set_writer l Closing
           end
  | DrainTook e => Some (dequeued l (DrainWriting e))
  | DrainWriting e => Some (processed l e Draining)
  | Closing => Some (set_writer (flush_all l) Gone)
  | Gone => None
  end.

(** ** The producers *)

Definition set_producer (l : Log) (tid : nat) (p : Producer) (emitted dropped queued : Z) : Log :=
  mkLog (fetch_add (lg_emitted l) emitted) (fetch_add (lg_dropped l) dropped) (lg_written l) (lg_write_errors l)
    (fetch_add (lg_queued l) queued) (lg_capacity l) (lg_queue l) (lg_writer l) (<[tid := p]> (lg_producers l))
    (lg_sinks l) (lg_accepted l) (lg_refused l) (lg_processed l) (lg_calls l) (lg_marker l).

Definition refuse_event (l : Log) (e : Event) : Log :=
  mkLog (lg_emitted l) (lg_dropped l) (lg_written l) (lg_write_errors l) (lg_queued l) (lg_capacity l) (lg_queue l)
    (lg_writer l) (lg_producers l) (lg_sinks l) (lg_accepted l) (lg_refused l ++ [e]) (lg_processed l) (lg_calls l)
    (lg_marker l).

Definition accept_event (l : Log) (e : Event) : Log :=
  mkLog (lg_emitted l) (lg_dropped l) (lg_written l) (lg_write_errors l) (lg_queued l) (lg_capacity l)
    (lg_queue l ++ [MEvent e]) (lg_writer l) (lg_producers l) (lg_sinks l) (lg_accepted l ++ [e]) (lg_refused l)
    (lg_processed l) (lg_calls l) (lg_marker l).

(** The receiver lives until the writer has returned. *)
Definition disconnected (l : Log) : bool := match lg_writer l with Gone => true | _ => false end.

(** [emit], one operation: the thread [tid] begins to emit, or goes on. *)
Definition begin_emit (l : Log) (tid : nat) (e : Event) : option Log :=
  match lg_producers l !! tid with
  | Some Idle => Some (set_producer l tid (Counted e) 1 0 0)
  | _ => None
  end.

Definition continue_emit (l : Log) (tid : nat) : option Log :=
  match lg_producers l !! tid with
  | Some (Counted e) =>
      Some (if disconnected l || (lg_capacity l <=? len (lg_queue l))
            then set_producer (refuse_event l e) tid Refused 0 0 0
            else set_producer (accept_event l e) tid Sent 0 0 0)
  | Some Sent => Some (set_producer l tid Idle 0 0 1)
  | Some Refused => Some (set_producer l tid Idle 0 1 0)
  | _ => None
  end.

(** [shutdown] before it joins: a blocking send of the marker, whose failure is ignored. *)
Definition send_shutdown (l : Log) : option Log :=
  if disconnected l then Some l
  else if len (lg_queue l) <? lg_capacity l
  then Some (mkLog (lg_emitted l) (lg_dropped l) (lg_written l) (lg_write_errors l) (lg_queued l) (lg_capacity l)
               (lg_queue l ++ [MShutdown]) (lg_writer l) (lg_producers l) (lg_sinks l) (lg_accepted l) (lg_refused l)
               (lg_processed l) (lg_calls l) (Some (unwrap_or (length (lg_accepted l)) (lg_marker l))))
  else None.

(** ** Schedules *)

Inductive Action :=
| Begin (tid : nat) (e : Event)
| Continue (tid : nat)
| WriterStep
| SendShutdown.

Definition log_step (l : Log) (a : Action) : option Log :=
  match a with
  | Begin tid e => begin_emit l tid e
  | Continue tid => continue_emit l tid
  | WriterStep => writer_step l
  | SendShutdown => send_shutdown l
  end.

Fixpoint log_run (l : Log) (schedule : list Action) : option Log :=
  match schedule with [] => Some l | a :: schedule' => l ← log_step l a; log_run l schedule' end.

(** Reachable states: a schedule, or the relation it is the closure of. *)
Inductive reachable (sinks : list Sink) (capacity : Z) (threads : nat) : Log -> Prop :=
| reach_spawn : reachable sinks capacity threads (spawn sinks capacity threads)
| reach_step l a l' :
    reachable sinks capacity threads l -> log_step l a = Some l' -> reachable sinks capacity threads l'.

(** ** The invariant *)

Definition message_event (m : Message) : option Event := match m with MEvent e => Some e | MShutdown => None end.
Definition queued_events (q : list Message) : list Event := omap message_event q.

(** The events in front of the first shutdown marker. *)
Fixpoint ahead (q : list Message) : nat :=
  match q with MEvent _ :: q' => S (ahead q') | _ => O end.

(** The event the writer holds. *)
Definition in_hand (w : Writer) : list Event :=
  match w with Took e | Writing e | DrainTook e | DrainWriting e => [e] | _ => [] end.

(** The writer has not met the marker. *)
Definition in_loop (w : Writer) : bool :=
  match w with Polling | Flushing | Parked | Took _ | Writing _ => true | _ => false end.

(** The event in hand has been taken off the counter. *)
Definition uncounted (w : Writer) : Z := match w with Writing _ | DrainWriting _ => 1 | _ => 0 end.

Definition is_counted (p : Producer) : Z := match p with Counted _ => 1 | _ => 0 end.
Definition is_sent (p : Producer) : Z := match p with Sent => 1 | _ => 0 end.
Definition is_refused (p : Producer) : Z := match p with Refused => 1 | _ => 0 end.
Definition producers_in (f : Producer -> Z) (l : Log) : Z := zsum (f <$> lg_producers l).

Definition apply_call (s : Sink) (c : Call) : Sink :=
  match c with CallWrite line => (write_line s line).1 | CallFlush => (sink_flush s).1 end.
Definition call_line (c : Call) : option (list Z) := match c with CallWrite line => Some line | CallFlush => None end.

Definition wrap64 (n : Z) : Z := n mod 2 ^ 64.

Definition marker_ok (l : Log) : Prop :=
  match lg_marker l with
  | None => MShutdown ∉ lg_queue l /\ in_loop (lg_writer l) = true
  | Some n =>
      (n <= length (lg_accepted l))%nat /\
      if in_loop (lg_writer l)
      then MShutdown ∈ lg_queue l /\
           (length (lg_processed l) + length (in_hand (lg_writer l)) + ahead (lg_queue l) = n)%nat
      else (n <= length (lg_processed l))%nat
  end.

Record log_inv (sinks : list Sink) (capacity : Z) (threads : nat) (l : Log) : Prop := {
  li_capacity : lg_capacity l = Z.max capacity 1;
  li_room : len (lg_queue l) <= lg_capacity l;
  li_threads : length (lg_producers l) = threads;
  li_fifo : lg_writer l <> Gone -> lg_accepted l = lg_processed l ++ in_hand (lg_writer l) ++ queued_events (lg_queue l);
  li_prefix : lg_processed l `prefix_of` lg_accepted l;
  li_marker : marker_ok l;
  li_emitted : lg_emitted l = wrap64 (len (lg_accepted l) + len (lg_refused l) + producers_in is_counted l);
  li_dropped : lg_dropped l = wrap64 (len (lg_refused l) - producers_in is_refused l);
  li_queued : lg_queued l =
    wrap64 (len (lg_accepted l) - producers_in is_sent l - len (lg_processed l) - uncounted (lg_writer l));
  li_sinks : lg_sinks l = (fun s => foldl apply_call s (lg_calls l)) <$> sinks;
  li_lines : omap call_line (lg_calls l) = omap to_ndjson (lg_processed l)
}.

Lemma fetch_add_wrap n m k : k = n + m -> fetch_add (wrap64 n) m = wrap64 k.
Proof. intros ->. unfold fetch_add, wrap64. by rewrite Zplus_mod_idemp_l. Qed.

Lemma zsum_update (f : Producer -> Z) ps tid p p' :
  ps !! tid = Some p -> zsum (f <$> <[tid := p']> ps) = zsum (f <$> ps) - f p + f p'.
Proof.
  unfold zsum. revert tid. induction ps as [|x ps IH]; intros [|tid] H; cbn in *; simplify_eq; [lia|]. rewrite IH by done. lia.
Qed.

Lemma queued_events_snoc q m : queued_events (q ++ [m]) = queued_events q ++ option_list (message_event m).
Proof. unfold queued_events. rewrite omap_app. by destruct m. Qed.

Lemma ahead_marked q m : MShutdown ∈ q -> ahead (q ++ [m]) = ahead q.
Proof.
  induction q as [|[e|] q IH]; intros H; cbn; [by apply not_elem_of_nil in H| |done].
  rewrite IH; [done|]. by apply elem_of_cons in H as [|].
Qed.

Lemma ahead_unmarked q : MShutdown ∉ q -> ahead (q ++ [MShutdown]) = length (queued_events q).
Proof.
  induction q as [|[e|] q IH]; intros H; cbn; [done| |by destruct H; left]. rewrite IH; [done|]. intros ?. by apply H; right.
Qed.

Lemma spawn_inv sinks capacity threads : log_inv sinks capacity threads (spawn sinks capacity threads).
Proof.
  assert (Hz : forall f, f Idle = 0 -> producers_in f (spawn sinks capacity threads) = 0).
  { intros f Hf. unfold producers_in. cbn. induction threads as [|n IH]; cbn; [done|]. by rewrite Hf, IH. }
  constructor; rewrite ?Hz by done; cbn; try done.
  - lia.
  - by rewrite length_replicate.
  - split; [apply not_elem_of_nil|done].
  - symmetry. apply list_fmap_id.
Qed.

(** *** The sinks *)

Lemma write_event_frame l e :
  lg_emitted (write_event l e) = lg_emitted l /\ lg_dropped (write_event l e) = lg_dropped l /\
  lg_queued (write_event l e) = lg_queued l /\ lg_capacity (write_event l e) = lg_capacity l /\
  lg_queue (write_event l e) = lg_queue l /\ lg_producers (write_event l e) = lg_producers l /\
  lg_accepted (write_event l e) = lg_accepted l /\ lg_refused (write_event l e) = lg_refused l /\
  lg_processed (write_event l e) = lg_processed l /\ lg_marker (write_event l e) = lg_marker l.
Proof. unfold write_event. by destruct (to_ndjson e). Qed.

(** A call reaches every sink, whatever the others answer. *)
Lemma call_sinks (sinks0 : list Sink) calls (f : Sink -> Sink * bool) c :
  (forall s, (f s).1 = apply_call s c) ->
  (f <$> ((fun s => foldl apply_call s calls) <$> sinks0)).*1 = (fun s => foldl apply_call s (calls ++ [c])) <$> sinks0.
Proof.
  intros Hf. rewrite <- !list_fmap_compose. apply list_fmap_ext. intros i s _. cbn. by rewrite foldl_app, Hf.
Qed.

Lemma write_event_sinks sinks0 l e :
  lg_sinks l = (fun s => foldl apply_call s (lg_calls l)) <$> sinks0 ->
  lg_sinks (write_event l e) = (fun s => foldl apply_call s (lg_calls (write_event l e))) <$> sinks0 /\
  omap call_line (lg_calls (write_event l e)) = omap call_line (lg_calls l) ++ option_list (to_ndjson e).
Proof.
  intros Hs. unfold write_event. destruct (to_ndjson e) as [line|]; cbn; [|by rewrite app_nil_r]. split.
  - rewrite Hs. by apply call_sinks.
  - by rewrite omap_app.
Qed.

Lemma flush_all_sinks sinks0 l :
  lg_sinks l = (fun s => foldl apply_call s (lg_calls l)) <$> sinks0 ->
  lg_sinks (flush_all l) = (fun s => foldl apply_call s (lg_calls (flush_all l))) <$> sinks0 /\
  omap call_line (lg_calls (flush_all l)) = omap call_line (lg_calls l).
Proof.
  intros Hs. split; cbn; [rewrite Hs; by apply call_sinks|]. rewrite omap_app. cbn. apply app_nil_r.
Qed.

(** *** Steps of the writer *)

Section steps.
Context (sinks : list Sink) (capacity : Z) (threads : nat).

(** What changes when the writer moves, and nothing else does. *)
Lemma flush_inv l w :
  log_inv sinks capacity threads l -> in_hand w = in_hand (lg_writer l) -> uncounted w = uncounted (lg_writer l) ->
  in_loop w = in_loop (lg_writer l) -> lg_writer l <> Gone -> log_inv sinks capacity threads (set_writer (flush_all l) w).
Proof.
  intros [] Hh Hu Hl Hg. destruct (flush_all_sinks sinks l li_sinks0) as [S1 S2].
  constructor; cbn [set_writer lg_capacity lg_queue lg_producers lg_writer lg_accepted lg_processed lg_refused lg_emitted lg_dropped
    lg_queued lg_sinks lg_calls flush_all with_sinks]; try done.
  - intros _. rewrite Hh. auto.
  - unfold marker_ok in *. cbn. by rewrite Hh, Hl.
  - by rewrite Hu.
  - etrans; [exact S2|done].
Qed.

Lemma move_inv l w :
  log_inv sinks capacity threads l -> in_hand w = in_hand (lg_writer l) -> uncounted w = uncounted (lg_writer l) ->
  in_loop w = in_loop (lg_writer l) -> lg_writer l <> Gone -> log_inv sinks capacity threads (set_writer l w).
Proof.
  intros [] Hh Hu Hl Hg. constructor; try done; cbn.
  - intros _. rewrite Hh. auto.
  - unfold marker_ok in *. cbn. by rewrite Hh, Hl.
  - by rewrite Hu.
Qed.

(** A message leaves the queue; the writer held nothing. *)
Lemma pop_inv l m q w :
  log_inv sinks capacity threads l -> lg_queue l = m :: q -> in_hand (lg_writer l) = [] -> uncounted (lg_writer l) = 0 ->
  lg_writer l <> Gone -> in_hand w = option_list (message_event m) -> uncounted w = 0 ->
  in_loop w = (in_loop (lg_writer l) && match m with MEvent _ => true | MShutdown => false end) ->
  log_inv sinks capacity threads (pop l q w).
Proof.
  intros [] Hq Hh Hu Hg Hw Hu' Hl. rewrite Hq in *. specialize (li_fifo0 Hg). rewrite Hh in li_fifo0. cbn in li_fifo0.
  constructor; try done; cbn.
  - cbn in li_room0. lia.
  - intros _. rewrite Hw, li_fifo0. by destruct m.
  - unfold marker_ok in *. cbn. rewrite Hq, Hh, Hw, Hl in *. destruct (lg_marker l) as [n|].
    + destruct li_marker0 as [Hn Hm]. split; [done|]. destruct (in_loop (lg_writer l)), m; cbn in *; try lia.
      destruct Hm as [Hin Hc]. apply elem_of_cons in Hin as [|Hin]; [done|]. split; [done|lia].
    + destruct li_marker0 as [Hin Hloop]. rewrite Hloop. apply not_elem_of_cons in Hin as [Hne Hin]. by destruct m.
  - by rewrite Hu', Hu in *.
Qed.

Lemma dequeued_inv l w :
  log_inv sinks capacity threads l -> in_hand w = in_hand (lg_writer l) -> uncounted (lg_writer l) = 0 -> uncounted w = 1 ->
  in_loop w = in_loop (lg_writer l) -> lg_writer l <> Gone -> log_inv sinks capacity threads (dequeued l w).
Proof.
  intros [] Hh Hu Hu' Hl Hg. constructor; try done; unfold producers_in, marker_ok in *; cbn -[zsum].
  - intros _. rewrite Hh. auto.
  - by rewrite Hh, Hl.
  - rewrite li_queued0, Hu, Hu'. apply fetch_add_wrap. lia.
Qed.

Lemma processed_inv l e w :
  log_inv sinks capacity threads l -> in_hand (lg_writer l) = [e] -> uncounted (lg_writer l) = 1 -> in_hand w = [] ->
  uncounted w = 0 -> in_loop w = in_loop (lg_writer l) -> lg_writer l <> Gone ->
  log_inv sinks capacity threads (processed l e w).
Proof.
  intros [] Hh Hu Hw Hu' Hl Hg. destruct (write_event_frame l e) as (F1 & F2 & F3 & F4 & F5 & F6 & F7 & F8 & F9 & F10).
  destruct (write_event_sinks sinks l e li_sinks0) as [S1 S2]. specialize (li_fifo0 Hg). rewrite Hh in li_fifo0.
  constructor; unfold producers_in, marker_ok in *; cbn -[zsum]; rewrite ?F1, ?F2, ?F3, ?F4, ?F5, ?F6, ?F7, ?F8, ?F9, ?F10; try done.
  - intros _. rewrite Hw, li_fifo0. by rewrite <- app_assoc.
  - rewrite li_fifo0. rewrite (app_assoc (lg_processed l) [e]). by apply prefix_app_r.
  - rewrite Hw, Hl, Hh in *. destruct (lg_marker l) as [n|]; [|done]. destruct li_marker0 as [Hn Hm]. split; [done|].
    rewrite length_app. destruct (in_loop (lg_writer l)); cbn in *; [|lia]. destruct Hm. split; [done|lia].
  - rewrite li_queued0, Hu, Hu', length_app. cbn. f_equal. lia.
  - by rewrite S2, li_lines0, omap_app.
Qed.

Lemma writer_step_inv l l' :
  log_inv sinks capacity threads l -> writer_step l = Some l' -> log_inv sinks capacity threads l'.
Proof.
  intros Hi. unfold writer_step. destruct (lg_writer l) eqn:Ew.
  - intros [= <-]. destruct (lg_queue l) as [|[e|] q] eqn:Eq; cbn [take_message].
    + by apply move_inv; rewrite ?Ew.
    + by eapply pop_inv; rewrite ?Ew.
    + by eapply pop_inv; rewrite ?Ew.
  - intros [= <-]. by apply flush_inv; rewrite ?Ew.
  - destruct (lg_queue l) as [|[e|] q] eqn:Eq; [done|..]; intros [= <-]; by eapply pop_inv; rewrite ?Ew.
  - intros [= <-]. by apply dequeued_inv; rewrite ?Ew.
  - intros [= <-]. by apply processed_inv; rewrite ?Ew.
  - intros [= <-]. destruct (lg_queue l) as [|[e|] q] eqn:Eq.
    + by apply move_inv; rewrite ?Ew.
    + by eapply pop_inv; rewrite ?Ew.
    + by eapply pop_inv; rewrite ?Ew.
  - intros [= <-]. by apply dequeued_inv; rewrite ?Ew.
  - intros [= <-]. by apply processed_inv; rewrite ?Ew.
  - intros [= <-]. by apply flush_inv; rewrite ?Ew.
  - done.
Qed.

(** *** Steps of the producers *)

Lemma accept_inv l e tid :
  log_inv sinks capacity threads l -> lg_producers l !! tid = Some (Counted e) -> lg_writer l <> Gone ->
  len (lg_queue l) < lg_capacity l -> log_inv sinks capacity threads (set_producer (accept_event l e) tid Sent 0 0 0).
Proof.
  intros [] Hp Hg Hroom. specialize (li_fifo0 Hg).
  constructor; unfold producers_in, marker_ok in *; cbn -[zsum]; rewrite ?(zsum_update _ _ _ _ _ Hp), ?length_insert, ?length_app; cbn -[zsum]; try done.
  - lia.
  - intros _. rewrite queued_events_snoc, li_fifo0. cbn. by rewrite <- !app_assoc.
  - etrans; [exact li_prefix0|]. by apply prefix_app_r.
  - destruct (lg_marker l) as [n|]; cbn in *.
    + destruct li_marker0 as [Hn Hm]. split; [lia|]. destruct (in_loop (lg_writer l)); [|done]. destruct Hm as [Hin Hc].
      split; [by apply elem_of_app; left|]. by rewrite ahead_marked.
    + destruct li_marker0 as [Hin Hl]. split; [|done]. rewrite elem_of_app, list_elem_of_singleton. by intros [?|?].
  - rewrite li_emitted0. apply fetch_add_wrap. lia.
  - rewrite li_dropped0. apply fetch_add_wrap. lia.
  - rewrite li_queued0. apply fetch_add_wrap. lia.
Qed.

(** A step of a producer that only counts. *)
Lemma count_inv l tid p p' emitted dropped queued :
  log_inv sinks capacity threads l -> lg_producers l !! tid = Some p ->
  emitted = is_counted p' - is_counted p -> dropped = is_refused p - is_refused p' -> queued = is_sent p - is_sent p' ->
  log_inv sinks capacity threads (set_producer l tid p' emitted dropped queued).
Proof.
  intros [] Hp He Hd Hq.
  constructor; unfold producers_in, marker_ok in *; cbn -[zsum]; rewrite ?(zsum_update _ _ _ _ _ Hp), ?length_insert; try done.
  - rewrite li_emitted0. apply fetch_add_wrap. lia.
  - rewrite li_dropped0. apply fetch_add_wrap. lia.
  - rewrite li_queued0. apply fetch_add_wrap. lia.
Qed.

Lemma refused_inv l e tid :
  log_inv sinks capacity threads l -> lg_producers l !! tid = Some (Counted e) ->
  log_inv sinks capacity threads (set_producer (refuse_event l e) tid Refused 0 0 0).
Proof.
  intros [] Hp.
  constructor; unfold producers_in, marker_ok in *; cbn -[zsum]; rewrite ?(zsum_update _ _ _ _ _ Hp), ?length_insert, ?length_app; cbn -[zsum]; try done.
  - rewrite li_emitted0. apply fetch_add_wrap. lia.
  - rewrite li_dropped0. apply fetch_add_wrap. lia.
  - rewrite li_queued0. apply fetch_add_wrap. lia.
Qed.

Lemma log_step_inv l a l' :
  log_inv sinks capacity threads l -> log_step l a = Some l' -> log_inv sinks capacity threads l'.
Proof.
  intros Hi. destruct a as [tid e|tid| |]; cbn.
  - unfold begin_emit. destruct (lg_producers l !! tid) as [[| | |]|] eqn:Ep; try done. intros [= <-]. by eapply count_inv.
  - unfold continue_emit. destruct (lg_producers l !! tid) as [[|e| |]|] eqn:Ep; try done; intros [= <-].
    + destruct (_ || _) eqn:Eb; [by apply refused_inv|]. unfold disconnected in Eb. bsimpl.
      apply accept_inv; [done..| |lia]. by destruct (lg_writer l).
    + by eapply count_inv.
    + by eapply count_inv.
  - by apply writer_step_inv.
  - unfold send_shutdown. destruct (disconnected l) eqn:Ed; [by intros [= <-]|]. unfold disconnected in Ed.
    destruct (Z.ltb_spec (len (lg_queue l)) (lg_capacity l)); [|done]. intros [= <-].
    assert (lg_writer l <> Gone) as Hg by (by destruct (lg_writer l)).
    destruct Hi. constructor; unfold producers_in, marker_ok in *; cbn; try done.
    + rewrite length_app. cbn. lia.
    + intros _. rewrite queued_events_snoc. cbn. rewrite app_nil_r. auto.
    + destruct (lg_marker l) as [n|]; cbn.
      * destruct li_marker0 as [Hn Hm]. split; [done|]. destruct (in_loop (lg_writer l)); [|done]. destruct Hm as [Hin Hc].
        split; [by apply elem_of_app; left|]. by rewrite ahead_marked.
      * destruct li_marker0 as [Hin Hl]. rewrite Hl. split; [done|]. split; [apply elem_of_app; right; left|].
        rewrite ahead_unmarked, (li_fifo0 Hg), !length_app by done. lia.
Qed.

Lemma reachable_inv l : reachable sinks capacity threads l -> log_inv sinks capacity threads l.
Proof. induction 1; [apply spawn_inv|by eapply log_step_inv]. Qed.

Lemma log_run_reachable l schedule l' :
  reachable sinks capacity threads l -> log_run l schedule = Some l' -> reachable sinks capacity threads l'.
Proof.
  revert l. induction schedule as [|a s IH]; intros l Hl Hr; cbn in Hr; [by simplify_eq|].
  destruct (log_step l a) as [l1|] eqn:E; [|done]. cbn in Hr. eapply IH; [|exact Hr]. by eapply reach_step.
Qed.

(** ** What the log promises *)

(** On every interleaving of the producers and the writer, the queue never exceeds its capacity;
    events are written in the order they were accepted, each at most once; as long as the writer
    lives, an accepted event that is not written yet is in the writer's hand or in the queue; and
    every sink has been handed the lines of exactly the events written, in that order, whatever it or
    the other sinks answered. *)
Theorem log_is_fifo l :
  reachable sinks capacity threads l ->
  len (lg_queue l) <= Z.max capacity 1 /\ lg_processed l `prefix_of` lg_accepted l /\
  (lg_writer l <> Gone -> lg_accepted l = lg_processed l ++ in_hand (lg_writer l) ++ queued_events (lg_queue l)) /\
  exists calls, omap call_line calls = omap to_ndjson (lg_processed l) /\
    lg_sinks l = (fun s => foldl apply_call s calls) <$> sinks.
Proof.
  intros H. apply reachable_inv in H as []. split; [lia|]. split; [done|]. split; [done|]. by exists (lg_calls l).
Qed.

(** When no thread is inside [emit], the counters are exact: every event was accepted or dropped,
    the dropped ones are those refused for a full queue or a stopped writer, and the depth reported
    is the number of events waiting, plus one while the writer has one it has not counted off. *)
Theorem counters_exact_at_rest l :
  reachable sinks capacity threads l -> Forall (fun p => p = Idle) (lg_producers l) ->
  lg_emitted l = wrap64 (len (lg_accepted l) + len (lg_refused l)) /\ lg_dropped l = wrap64 (len (lg_refused l)) /\
  (lg_writer l <> Gone ->
   lg_queued l = wrap64 (len (queued_events (lg_queue l)) + len (in_hand (lg_writer l)) - uncounted (lg_writer l))).
Proof.
  intros H Hi. apply reachable_inv in H as []. unfold producers_in in *.
  assert (forall f, f Idle = 0 -> zsum (f <$> lg_producers l) = 0) as Hz.
  { intros f Hf. clear -Hi Hf. induction Hi as [|p ps -> _ IH]; [done|]. cbn -[zsum]. unfold zsum in *. cbn. lia. }
  rewrite !Hz in * by done. split; [rewrite li_emitted0; f_equal; lia|]. split; [rewrite li_dropped0; f_equal; lia|].
  intros Hg. rewrite li_queued0, (li_fifo0 Hg), !length_app. f_equal. lia.
Qed.

(** *** Shutdown *)

Definition phase_weight (w : Writer) : nat :=
  match w with
  | Gone => 0 | Closing => 1 | Draining => 2 | DrainWriting _ => 3 | DrainTook _ => 4
  | Polling => 3 | Parked => 3 | Flushing => 4 | Writing _ => 4 | Took _ => 5
  end.

Definition writer_measure (l : Log) : nat := 3 * length (lg_queue l) + phase_weight (lg_writer l).

(** Behind a shutdown marker the writer always has a step, and gets closer to its end. *)
Lemma writer_progress l n :
  log_inv sinks capacity threads l -> lg_marker l = Some n -> lg_writer l <> Gone ->
  exists l', writer_step l = Some l' /\ log_inv sinks capacity threads l' /\ lg_marker l' = Some n /\
    lg_accepted l' = lg_accepted l /\ (writer_measure l' < writer_measure l)%nat.
Proof.
  intros Hi Hm Hg.
  assert (exists l', writer_step l = Some l' /\ lg_marker l' = Some n /\ lg_accepted l' = lg_accepted l /\
    (writer_measure l' < writer_measure l)%nat) as (l' & E & ? & ? & ?).
  { pose proof (li_marker _ _ _ _ Hi) as Hk. unfold marker_ok in Hk. rewrite Hm in Hk. destruct Hk as [_ Hk].
    unfold writer_step, writer_measure.
    pose proof (fun e => write_event_frame l e) as Hf.
    destruct (lg_writer l) eqn:Ew; try done; cbn [in_loop] in Hk; try destruct Hk as [Hin _];
      try (destruct (lg_queue l) as [|[e'|] q] eqn:Eq; [try by apply not_elem_of_nil in Hin|..]);
      eexists; (split; [reflexivity|]); cbn; rewrite ?Eq; cbn;
      repeat match goal with |- context [write_event l ?e] => destruct (Hf e) as (_ & _ & _ & _ & -> & _ & -> & _ & _ & ->) end;
      rewrite ?Eq; cbn; (split; [done|]); (split; [done|]); lia. }
  exists l'. split; [done|]. split; [by eapply writer_step_inv|]. done.
Qed.

(** The writer ends with a flush of every sink. *)
Lemma gone_flushed l : reachable sinks capacity threads l -> lg_writer l = Gone -> last (lg_calls l) = Some CallFlush.
Proof.
  induction 1 as [|l a l' Hr IH E]; [done|]. intros Hg. destruct a as [tid e|tid| |]; cbn in E.
  - unfold begin_emit in E. destruct (lg_producers l !! tid) as [[]|]; simplify_eq. by apply IH.
  - unfold continue_emit in E. destruct (lg_producers l !! tid) as [[]|]; simplify_eq; try by apply IH.
    destruct (_ || _); by apply IH.
  - unfold writer_step in E. destruct (lg_writer l) eqn:Ew; simplify_eq; cbn in Hg; try done;
      try (destruct (lg_queue l) as [|[] ?]; simplify_eq; done). cbn. apply last_snoc.
  - unfold send_shutdown in E. destruct (disconnected l); simplify_eq; [by apply IH|]. destruct (_ <? _); simplify_eq. by apply IH.
Qed.

(** Behind a shutdown marker the writer comes to its end on its own. *)
Lemma writer_ends m l n :
  (writer_measure l <= m)%nat -> log_inv sinks capacity threads l -> lg_marker l = Some n ->
  exists k l', (k <= m)%nat /\ log_run l (replicate k WriterStep) = Some l' /\ lg_writer l' = Gone /\
    log_inv sinks capacity threads l' /\ lg_marker l' = Some n /\ lg_accepted l' = lg_accepted l.
Proof.
  revert l. induction m as [|m IH]; intros l Hw Hi Hm.
  - exists O, l. assert (lg_writer l = Gone) by (unfold writer_measure in Hw; destruct (lg_writer l); cbn in Hw; try lia; done).
    done.
  - destruct (decide (disconnected l = true)) as [Hd|Hd].
    + exists O, l. unfold disconnected in Hd. split; [lia|]. by destruct (lg_writer l).
    + destruct (writer_progress l n Hi Hm) as (l1 & E & Hi1 & Hm1 & Ha & Hlt).
      { intros E. unfold disconnected in Hd. by rewrite E in Hd. }
      destruct (IH l1) as (k & l' & Hk & Er & Hg & Hi' & Hm' & Ha'); [lia|done|done|].
      exists (S k), l'. split; [lia|]. cbn. rewrite E. cbn. split; [done|]. split; [done|]. split; [done|]. split; [done|]. congruence.
Qed.

(** C29: shutdown loses nothing that was accepted before it. Once the marker is in the queue the writer never waits again: running on its own it reaches its end within three steps per queued message and five more. By then every sink has been through the same calls, one after the other and whatever it or another sink answered: the lines of some events, in the order these were accepted, every event accepted before the marker among them (one that cannot be serialized has no line), and last of all a flush. *)
Theorem shutdown_drains l n :
  reachable sinks capacity threads l -> lg_marker l = Some n ->
  exists k l' calls events, (k <= 3 * length (lg_queue l) + 5)%nat /\ log_run l (replicate k WriterStep) = Some l' /\ lg_writer l' = Gone /\
    lg_sinks l' = (fun s => foldl apply_call s calls) <$> sinks /\
    omap call_line calls = omap to_ndjson events /\ last calls = Some CallFlush /\
    take n (lg_accepted l) `prefix_of` events /\ events `prefix_of` lg_accepted l.
Proof.
  intros Hr Hm. apply reachable_inv in Hr as Hi.
  destruct (writer_ends (writer_measure l) l n) as (k & l' & Hk & E & Hg & [] & Hm' & Ha); [done..|].
  exists k, l', (lg_calls l'), (lg_processed l'). split; [unfold writer_measure in Hk; destruct (lg_writer l); cbn in Hk; lia|].
  split; [done|]. split; [done|]. split; [done|]. split; [done|]. split; [by apply gone_flushed; [eapply log_run_reachable|]|].
  unfold marker_ok in li_marker0. rewrite Hm', Hg in li_marker0. destruct li_marker0 as [_ Hn]. cbn in Hn.
  rewrite Ha in li_prefix0. split; [|done]. destruct li_prefix0 as [rest ->]. rewrite take_app_le by lia. apply prefix_take.
Qed.

(** [emit] never waits, whatever the writer and the sinks do: its three operations always succeed.
    It accepts the event exactly when the writer is alive and the queue has room, then the event is
    the last of the queue; otherwise the event is counted as dropped and the queue is untouched. *)
Theorem emit_outcome l tid e :
  lg_producers l !! tid = Some Idle ->
  exists l', log_run l [Begin tid e; Continue tid; Continue tid] = Some l' /\ lg_producers l' = lg_producers l /\
    lg_writer l' = lg_writer l /\ lg_sinks l' = lg_sinks l /\
    if disconnected l || (lg_capacity l <=? len (lg_queue l))
    then lg_queue l' = lg_queue l /\ lg_refused l' = lg_refused l ++ [e] /\ lg_accepted l' = lg_accepted l
    else lg_queue l' = lg_queue l ++ [MEvent e] /\ lg_refused l' = lg_refused l /\ lg_accepted l' = lg_accepted l ++ [e].
Proof.
  intros Hp. assert (Hl := lookup_lt_Some _ _ _ Hp). set (l1 := set_producer l tid (Counted e) 1 0 0).
  assert (begin_emit l tid e = Some l1) as E1 by (unfold begin_emit; by rewrite Hp).
  assert (lg_producers l1 !! tid = Some (Counted e)) as P1 by (by apply list_lookup_insert_eq).
  assert (exists l2 p, continue_emit l1 tid = Some l2 /\ lg_producers l2 = <[tid := p]> (lg_producers l1) /\ p <> Idle /\
    (forall e, p <> Counted e) /\ lg_writer l2 = lg_writer l /\ lg_sinks l2 = lg_sinks l /\
    if disconnected l || (lg_capacity l <=? len (lg_queue l))
    then lg_queue l2 = lg_queue l /\ lg_refused l2 = lg_refused l ++ [e] /\ lg_accepted l2 = lg_accepted l
    else lg_queue l2 = lg_queue l ++ [MEvent e] /\ lg_refused l2 = lg_refused l /\ lg_accepted l2 = lg_accepted l ++ [e])
    as (l2 & p & E2 & P2 & Hi & Hn & Hw & Hs & Hq).
  { unfold continue_emit. rewrite P1. change (disconnected l1 || (lg_capacity l1 <=? len (lg_queue l1)))
      with (disconnected l || (lg_capacity l <=? len (lg_queue l))).
    destruct (_ || _); eexists _, _; (split; [reflexivity|]); by split. }
  assert (lg_producers l2 !! tid = Some p) as P2' by (rewrite P2; apply list_lookup_insert_eq; cbn; by rewrite length_insert).
  exists (set_producer l2 tid Idle 0 (is_refused p) (is_sent p)). split.
  - cbn [log_run log_step]. rewrite E1. cbn [mbind option_bind]. rewrite E2. cbn [mbind option_bind].
    unfold continue_emit. rewrite P2'. destruct p as [|e'| |]; try done. by destruct (Hn e').
  - split; [|done]. cbn. rewrite P2. cbn. rewrite !list_insert_insert_eq. by apply list_insert_id.
Qed.
End steps.
End eventlog.

(** ** Runs *)

(** A sink that keeps the lines it was given and never fails. *)
#[local] Instance collecting : EventSink (list (list Z)) := {
  write_line s line := (s ++ [line], true);
  sink_flush s := (s, true)
}.

Definition one_line (e : Z) : option (list Z) := Some [e; 10].

Definition run_log (capacity : Z) (schedule : list Action) : option (Log (Event := Z) (Sink := list (list Z))) :=
  log_run one_line (spawn [[]; []] capacity 1) schedule.

Lemma run_reachable capacity schedule l :
  run_log capacity schedule = Some l -> reachable one_line [[]; []] capacity 1 l.
Proof. intros Hr. eapply log_run_reachable; [constructor|exact Hr]. Qed.

Definition busy : list Action := [Begin 0 7; Continue 0; Continue 0; Begin 0 8; Continue 0; Continue 0; SendShutdown; WriterStep].

Lemma log_is_fifo_witness :
  exists l, run_log 4 busy = Some l /\ lg_accepted l = [7; 8] /\
    lg_accepted l = lg_processed l ++ in_hand (lg_writer l) ++ queued_events (lg_queue l).
Proof.
  eexists. split; [vm_compute; reflexivity|]. split; [reflexivity|].
  eapply (log_is_fifo one_line [[]; []] 4 1); [|discriminate]. apply (run_reachable 4 busy). vm_compute. reflexivity.
Defined.

Lemma counters_exact_at_rest_witness :
  exists l, run_log 4 busy = Some l /\ lg_emitted l = 2 /\
    lg_queued l = wrap64 (len (queued_events (lg_queue l)) + len (in_hand (lg_writer l)) - uncounted (lg_writer l)).
Proof.
  eexists. split; [vm_compute; reflexivity|]. split; [reflexivity|].
  eapply (counters_exact_at_rest one_line [[]; []] 4 1); [|by repeat constructor|discriminate].
  apply (run_reachable 4 busy). vm_compute. reflexivity.
Defined.

Lemma shutdown_drains_witness :
  exists l k l' calls events, run_log 4 busy = Some l /\ log_run one_line l (replicate k WriterStep) = Some l' /\ lg_writer l' = Gone /\
    lg_sinks l' = (fun s => foldl apply_call s calls) <$> [[]; []] /\ last calls = Some CallFlush /\ [7; 8] `prefix_of` events.
Proof.
  destruct (run_log 4 busy) as [l|] eqn:E; [|discriminate]. pose proof (run_reachable 4 busy l E) as Hr.
  injection E as <-. edestruct (shutdown_drains one_line [[]; []] 4 1) with (n := 2%nat) as (k & l' & calls & events & _ & E' & Hg & Hs & _ & Hl & Hp & _);
    [exact Hr|reflexivity|]. eexists _, k, l', calls, events.
  split; [reflexivity|]. split; [exact E'|]. split; [exact Hg|]. split; [exact Hs|]. split; [exact Hl|exact Hp].
Defined.

Lemma emit_outcome_witness :
  exists l', log_run one_line (spawn [[]; []] 1 1) [Begin 0%nat 7; Continue 0; Continue 0] = Some l' /\ lg_accepted l' = [7].
Proof.
  destruct (emit_outcome one_line (spawn [[]; []] 1 1) 0 7) as (l' & E & _ & _ & _ & Hq & Hr & Ha); [reflexivity|].
  exists l'. split; [exact E|exact Ha].
Defined.

(** The depth reported can be wrong by 2^64: the writer can take an event and count it off before
    the producer has counted it on, and the counter wraps below zero, so that a queue with nothing in
    it reports a depth of 18446744073709551615. *)
Theorem queue_depth_wraps :
  exists l, run_log 4 [Begin 0 7; Continue 0; WriterStep; WriterStep] = Some l /\ lg_queue l = [] /\ lg_queued l = U64_MAX.
Proof. eexists. split; [vm_compute; reflexivity|]. split; reflexivity. Qed.

(** An event can be accepted and lost: between the last look of the writer at its queue and its
    return, [try_send] still succeeds. [emit] answers true, the event is never written, and it is not
    counted as dropped. *)
Theorem accepted_after_last_look_is_lost :
  exists l, run_log 4 [SendShutdown; WriterStep; WriterStep; Begin 0 7; Continue 0; WriterStep; Continue 0] = Some l /\
    lg_writer l = Gone /\ lg_accepted l = [7] /\ lg_processed l = [] /\ lg_dropped l = 0 /\ lg_written l = 0.
Proof. eexists. split; [vm_compute; reflexivity|]. repeat split. Qed.
