(* ===== verification/Sinks.v ===== *)
(** The event file: [FileEventSink] of [crates/storage/src/sinks.rs], behind the writer of the event
    log.

    The file is opened for appending, so it is the bytes it holds and what its next writes do: take at
    most so many bytes, be interrupted, or fail; once the script is over a write takes everything. The
    [BufWriter] of the standard library in front of it is modelled with its buffer. *)

From S2P Require Import Prelude Text EventLog.

(** ** The file *)

Inductive WriteOutcome := Takes (n : nat) | WriteInterrupted | WriteFails.

Record AppendFile := mkAppendFile {
  af_bytes : list Z;
  af_script : list WriteOutcome
}.

(** [Write::write_all]: the file, how many bytes it took, and whether all were. A write that takes
    none is an error. *)
Fixpoint write_script (script : list WriteOutcome) (bytes data : list Z) : AppendFile * nat * bool :=
  match data with
  | [] => (mkAppendFile bytes script, O, true)
  | _ :: _ =>
      match script with
      | [] => (mkAppendFile (bytes ++ data) [], length data, true)
      | Takes O :: script => (mkAppendFile bytes script, O, false)
      | Takes (S _ as n) :: script =>
          let '(file, k, ok) := write_script script (bytes ++ take n data) (drop n data) in
          (file, (length (take n data) + k)%nat, ok)
      | WriteInterrupted :: script => write_script script bytes data
      | WriteFails :: script => (mkAppendFile bytes script, O, false)
      end
  end.

Definition write_all (f : AppendFile) (data : list Z) : AppendFile * nat * bool := write_script (af_script f) (af_bytes f) data.

(** ** The buffer *)

(** The default capacity of a [BufWriter]. *)
Definition BUFFER_CAPACITY : Z := 8192.

Record FileEventSink := mkFileEventSink {
  fs_name : text;
  fs_buffer : list Z;
  fs_file : AppendFile
}.

Definition with_output (s : FileEventSink) (buffer : list Z) (file : AppendFile) : FileEventSink := mkFileEventSink (fs_name s) buffer file.

(** [BufWriter::flush_buf]: what was written leaves the buffer, also when the rest could not be. *)
Definition flush_buf (s : FileEventSink) : FileEventSink * bool :=
  let '(file, written, ok) := write_all (fs_file s) (fs_buffer s) in
  (with_output s (drop written (fs_buffer s)) file, ok).

(** [BufWriter::write_all], its cold path included. *)
Definition buffer_write_all (s : FileEventSink) (line : list Z) : FileEventSink * bool :=
  let spare := BUFFER_CAPACITY - len (fs_buffer s) in
  if len line <? spare then (with_output s (fs_buffer s ++ line) (fs_file s), true)
  else
    let '(s, ok) := if spare <? len line then flush_buf s else (s, true) in
    if negb ok then (s, false)
    else if BUFFER_CAPACITY <=? len line
    then let '(file, _, ok) := write_all (fs_file s) line in (with_output s (fs_buffer s) file, ok)
    else (with_output s (fs_buffer s ++ line) (fs_file s), true).

(** A sink that has not been written to. *)
Definition fresh_sink (path : text) (bytes : list Z) (script : list WriteOutcome) : FileEventSink :=
  mkFileEventSink (of_string "file:" ++ path) [] (mkAppendFile bytes script).

(** [FileEventSink::open]: the parent directories are created, and what the file held stays. *)
Definition open_sink (path : text) (dirs_created opens : bool) (existing : option (list Z)) (script : list WriteOutcome) :
    option FileEventSink :=
  if negb dirs_created then None
  else if negb opens then None
  else Some (fresh_sink path (unwrap_or [] existing) script).

(** Flushing a file that is not buffered any further does nothing more. *)
#[global] Instance file_sink : EventSink FileEventSink := {
  write_line := buffer_write_all;
  sink_flush := flush_buf
}.

(** ** Nothing that was accepted is lost *)

(** What the sink holds, in the file and in front of it. *)
Definition held (s : FileEventSink) : list Z := af_bytes (fs_file s) ++ fs_buffer s.

Lemma write_script_spec script bytes data file k ok :
  write_script script bytes data = (file, k, ok) ->
  (k <= length data)%nat /\ af_bytes file = bytes ++ take k data /\ (ok = true -> k = length data) /\
  (exists used, script = used ++ af_script file).
Proof.
  revert bytes data k. induction script as [|o script IH]; intros bytes data k E; cbn in E; destruct data as [|d data].
  - injection E as <- <- <-. cbn. rewrite app_nil_r. split_and!; try done. by exists [].
  - injection E as <- <- <-. rewrite take_ge by done. split_and!; try done. by exists [].
  - injection E as <- <- <-. cbn. rewrite app_nil_r. split_and!; try done. by exists [].
  - destruct o as [[|n]| |].
    + injection E as <- <- <-. cbn. rewrite app_nil_r. split_and!; [lia|done|done|]. by eexists [_].
    + remember (d :: data) as all. destruct (write_script script (bytes ++ take (S n) all) (drop (S n) all)) as [[file' k'] ok'] eqn:E'.
      injection E as <- <- <-. destruct (IH _ _ _ E') as (H1 & H2 & H3 & used & H4). rewrite length_drop in H1, H3. rewrite length_take.
      split_and!; [lia| |intros Hok; specialize (H3 Hok); lia|].
      * rewrite H2, <- app_assoc. f_equal. destruct (Nat.le_ge_cases (S n) (length all)).
        -- rewrite Nat.min_l by done. apply take_take_drop.
        -- rewrite Nat.min_r, (take_ge all (S n)), (drop_ge all (S n)), take_nil, app_nil_r, take_ge by lia. done.
      * exists (Takes (S n) :: used). by rewrite H4.
    + destruct (IH _ _ _ E) as (H1 & H2 & H3 & used & H4). split_and!; try done. exists (WriteInterrupted :: used). by rewrite H4.
    + injection E as <- <- <-. cbn. rewrite app_nil_r. split_and!; [lia|done|done|]. by eexists [_].
Qed.

Lemma flush_buf_spec s s' ok :
  flush_buf s = (s', ok) ->
  held s' = held s /\ af_bytes (fs_file s) `prefix_of` af_bytes (fs_file s') /\ len (fs_buffer s') <= len (fs_buffer s) /\
  (ok = true -> fs_buffer s' = []).
Proof.
  unfold flush_buf, write_all, held. destruct (write_script _ _ _) as [[file k] ok'] eqn:E. intros [= <- <-].
  destruct (write_script_spec _ _ _ _ _ _ E) as (H1 & H2 & H3 & _). cbn. rewrite H2, <- app_assoc, take_drop. split_and!.
  - done.
  - by apply prefix_app_r.
  - rewrite length_drop. lia.
  - intros Hok. rewrite (H3 Hok). by rewrite drop_ge.
Qed.

(** A call adds the line, or reports that it did not add it all; only a line that does not fit the
    buffer can be added in part. *)
Lemma buffer_write_all_spec s line s' ok :
  len (fs_buffer s) <= BUFFER_CAPACITY -> buffer_write_all s line = (s', ok) ->
  len (fs_buffer s') <= BUFFER_CAPACITY /\ af_bytes (fs_file s) `prefix_of` af_bytes (fs_file s') /\
  exists piece, held s' = held s ++ piece /\ piece `prefix_of` line /\ (ok = true -> piece = line) /\
    (ok = false -> len line < BUFFER_CAPACITY -> piece = []).
Proof.
  intros Hc. unfold buffer_write_all. destruct (Z.ltb_spec (len line) (BUFFER_CAPACITY - len (fs_buffer s))).
  { intros [= <- <-]. cbn. rewrite length_app. split_and!; [lia|done|]. exists line. unfold held. cbn. by rewrite <- app_assoc. }
  destruct (if _ <? _ then _ else _) as [s1 ok1] eqn:E1.
  assert (held s1 = held s /\ af_bytes (fs_file s) `prefix_of` af_bytes (fs_file s1) /\ len (fs_buffer s1) <= len (fs_buffer s) /\
    (ok1 = true -> len line <= BUFFER_CAPACITY - len (fs_buffer s1) \/ fs_buffer s1 = [])) as (H1 & H2 & H3 & H4).
  { destruct (Z.ltb_spec (BUFFER_CAPACITY - len (fs_buffer s)) (len line)).
    - destruct (flush_buf_spec _ _ _ E1) as (? & ? & ? & ?). split_and!; auto.
    - injection E1 as <- <-. split_and!; (done || auto). }
  destruct ok1; cbn [negb]; cycle 1.
  { intros [= <- <-]. split_and!; [lia|done|]. exists []. rewrite app_nil_r. split_and!; (done || apply prefix_nil). }
  specialize (H4 eq_refl). destruct (Z.leb_spec BUFFER_CAPACITY (len line)); cycle 1.
  { intros [= <- <-]. cbn. rewrite length_app. split_and!; [destruct H4 as [?| ->]; cbn; lia|done|]. exists line. unfold held in *. cbn.
    rewrite app_assoc, H1. split_and!; (done || lia). }
  assert (fs_buffer s1 = []) as Hb by (destruct H4 as [?|?]; [apply length_zero_iff_nil; lia|done]).
  unfold write_all. destruct (write_script _ _ line) as [[file k] ok2] eqn:E2. intros [= <- <-].
  destruct (write_script_spec _ _ _ _ _ _ E2) as (K1 & K2 & K3 & _). cbn. rewrite Hb. split_and!.
  - done.
  - rewrite K2. etrans; [exact H2|]. by apply prefix_app_r.
  - exists (take k line). rewrite <- H1. unfold held. cbn. rewrite K2, Hb, !app_nil_r. split_and!; [done|apply prefix_take| |lia].
    intros Hok. by rewrite (K3 Hok), take_ge.
Qed.

(** A sequence of calls, with what each answered. *)
Fixpoint sink_run (s : FileEventSink) (calls : list Call) : FileEventSink * list bool :=
  match calls with
  | [] => (s, [])
  | c :: calls =>
      let '(s, ok) := match c with CallWrite line => write_line s line | CallFlush => sink_flush s end in
      let '(s, oks) := sink_run s calls in (s, ok :: oks)
  end.

(** What one call added to the sink. *)
Definition adds (c : Call) (ok : bool) (piece : list Z) : Prop :=
  match c with
  | CallFlush => piece = []
  | CallWrite line =>
      if ok then piece = line else piece `prefix_of` line /\ (len line < BUFFER_CAPACITY -> piece = [])
  end.

Lemma sink_run_spec s calls s' oks :
  len (fs_buffer s) <= BUFFER_CAPACITY -> sink_run s calls = (s', oks) ->
  len (fs_buffer s') <= BUFFER_CAPACITY /\ af_bytes (fs_file s) `prefix_of` af_bytes (fs_file s') /\
  exists pieces, Forall3 adds calls oks pieces /\ held s' = held s ++ concat pieces.
Proof.
  revert s oks. induction calls as [|c calls IH]; intros s oks Hb E; cbn [sink_run] in E.
  - injection E as <- <-. split_and!; [done|done|]. exists []. rewrite app_nil_r. split; [constructor|done].
  - destruct (match c with CallWrite _ => _ | _ => _ end) as [s1 ok] eqn:E1. destruct (sink_run s1 calls) as [s2 oks2] eqn:E2.
    injection E as <- <-.
    assert (len (fs_buffer s1) <= BUFFER_CAPACITY /\ af_bytes (fs_file s) `prefix_of` af_bytes (fs_file s1) /\
      exists piece, adds c ok piece /\ held s1 = held s ++ piece) as (B1 & P1 & piece & A1 & H1).
    { destruct c as [line|].
      - destruct (buffer_write_all_spec _ _ _ _ Hb E1) as (? & ? & piece & ? & ? & ? & ?). split_and!; [done|done|]. exists piece.
        split; [|done]. unfold adds. destruct ok; auto.
      - destruct (flush_buf_spec _ _ _ E1) as (? & ? & ? & _). split_and!; [lia|done|]. exists []. by rewrite app_nil_r. }
    destruct (IH s1 oks2 B1 E2) as (B2 & P2 & pieces & A2 & H2). split_and!; [done|by etrans|]. exists (piece :: pieces).
    split; [by constructor|]. cbn. by rewrite H2, H1, <- app_assoc.
Qed.

(** The event file never loses what it has. Whatever its writes do, take part of what they are given, be interrupted or fail, and in any order of lines and flushes: what the file held when it was opened stays at its front; what the file and the buffer hold after it are the lines of the calls that succeeded, whole and in order, and of a call that failed nothing, or a front part when the line was longer than the buffer; the buffer never grows beyond its capacity; and after a flush that succeeded the file holds all of it. *)
Theorem event_file_keeps_lines path existing script s calls s' oks :
  open_sink path true true existing script = Some s -> sink_run s calls = (s', oks) ->
  unwrap_or [] existing `prefix_of` af_bytes (fs_file s') /\ len (fs_buffer s') <= BUFFER_CAPACITY /\
  (exists pieces, Forall3 adds calls oks pieces /\ af_bytes (fs_file s') ++ fs_buffer s' = unwrap_or [] existing ++ concat pieces) /\
  (last calls = Some CallFlush -> last oks = Some true -> fs_buffer s' = []).
Proof.
  intros [= <-] E. destruct (sink_run_spec (fresh_sink path (unwrap_or [] existing) script) calls s' oks ltac:(done) E) as (H1 & H2 & pieces & H3 & H4). split_and!; [done|done| |].
  - exists pieces. split; [done|]. unfold held in H4. cbn in H4. by rewrite app_nil_r in H4.
  - clear H1 H2 H3 H4. set (s := fresh_sink _ _ _) in E. clearbody s. revert s oks E.
    induction calls as [|c calls IH]; intros s oks E Hl Ho; cbn [sink_run] in E; [done|].
    destruct (match c with CallWrite _ => _ | _ => _ end) as [s1 ok] eqn:E1. destruct (sink_run s1 calls) as [s2 oks2] eqn:E2.
    injection E as <- <-. destruct calls as [|c' calls].
    + injection Hl as ->. injection E2 as <- <-. injection Ho as ->. by eapply flush_buf_spec.
    + eapply (IH s1 oks2); [done|done|]. cbn [sink_run] in E2.
      destruct (match c' with CallWrite _ => _ | _ => _ end) as [s3 ok3]. destruct (sink_run s3 calls). by injection E2 as <- <-.
Qed.

(** ** From an event to the file *)

(** Writes that may take little or be interrupted, and always get somewhere. *)
Definition reliable (f : AppendFile) : Prop := Forall (fun o => o <> WriteFails /\ o <> Takes 0) (af_script f).

Lemma reliable_write f data file k ok :
  reliable f -> write_all f data = (file, k, ok) -> ok = true /\ reliable file.
Proof.
  unfold reliable, write_all. destruct f as [bytes script]. cbn. intros Hr. revert bytes data k.
  induction Hr as [|o script [H1 H2] Hr IH]; intros bytes data k E; cbn in E; destruct data as [|d data]; try (injection E as <- <- <-; cbn; by auto).
  destruct o as [[|n]| |]; [done| |by eapply IH|done].
  destruct (write_script script _ _) as [[file' k'] ok'] eqn:E'. injection E as <- <- <-. by eapply IH.
Qed.

Lemma reliable_run s calls s' oks :
  reliable (fs_file s) -> sink_run s calls = (s', oks) -> reliable (fs_file s') /\ Forall (fun ok => ok = true) oks.
Proof.
  assert (forall s s' ok, reliable (fs_file s) -> flush_buf s = (s', ok) -> ok = true /\ reliable (fs_file s')) as Hf.
  { intros t t' ok Hr E. unfold flush_buf in E. destruct (write_all _ _) as [[file k] ok'] eqn:Ew. injection E as <- <-. by eapply reliable_write. }
  assert (forall s s' line ok, reliable (fs_file s) -> buffer_write_all s line = (s', ok) -> ok = true /\ reliable (fs_file s')) as Hw.
  { intros t t' line ok Hr E. unfold buffer_write_all in E. destruct (_ <? _); [by injection E as <- <-|].
    destruct (if _ <? len line then flush_buf t else (t, true)) as [t1 ok1] eqn:E1.
    assert (ok1 = true /\ reliable (fs_file t1)) as [-> Hr1] by (destruct (_ <? len line); [by eapply Hf|by injection E1 as <- <-]).
    cbn in E. destruct (_ <=? _); [|by injection E as <- <-].
    destruct (write_all _ _) as [[file k] ok'] eqn:Ew. injection E as <- <-. by eapply reliable_write. }
  revert s oks. induction calls as [|c calls IH]; intros s oks Hr E; cbn [sink_run] in E; [injection E as <- <-; by split|].
  destruct (match c with CallWrite _ => _ | _ => _ end) as [s1 ok] eqn:E1. destruct (sink_run s1 calls) as [s2 oks2] eqn:E2. injection E as <- <-.
  assert (ok = true /\ reliable (fs_file s1)) as [-> Hr1] by (destruct c; [by eapply Hw|by eapply Hf]).
  destruct (IH _ _ Hr1 E2) as [? ?]. split; [done|]. by constructor.
Qed.

Lemma sink_run_foldl s calls : (sink_run s calls).1 = foldl apply_call s calls.
Proof.
  revert s. induction calls as [|c calls IH]; intros s; [done|]. cbn [sink_run foldl]. rewrite <- IH. unfold apply_call.
  destruct c as [line|]; [destruct (write_line s line) as [s1 ok]|destruct (sink_flush s) as [s1 ok]]; cbn [fst]; by destruct (sink_run s1 calls).
Qed.

(** When every call succeeds, the lines are all there. *)
Lemma adds_all calls oks pieces :
  Forall3 adds calls oks pieces -> Forall (fun ok => ok = true) oks -> concat pieces = concat (omap call_line calls).
Proof.
  induction 1 as [|c ok piece calls oks pieces H1 H2 IH]; intros Ho; [done|]. apply Forall_cons in Ho as [-> Ho]. cbn [concat omap list_omap].
  rewrite (IH Ho). destruct c as [line|]; cbn in *; by rewrite H1.
Qed.

(** An event that was accepted reaches the file. On every interleaving of the producers and the writer, with a file whose writes may be cut and interrupted in any way as long as they get somewhere, once the writer has ended the file holds what it held when it was opened followed by the lines of exactly the events written, in the order they were accepted, with nothing left in the buffer; and the events accepted before the shutdown was asked for are among them. *)
Theorem accepted_events_reach_the_file {Event : Type} (to_ndjson : Event -> option (list Z)) path existing script sink capacity threads l n :
  open_sink path true true existing script = Some sink -> reliable (fs_file sink) ->
  reachable to_ndjson [sink] capacity threads l -> lg_writer l = Gone -> lg_marker l = Some n ->
  exists final, lg_sinks l = [final] /\ fs_buffer final = [] /\
    af_bytes (fs_file final) = unwrap_or [] existing ++ concat (omap to_ndjson (lg_processed l)) /\
    take n (lg_accepted l) `prefix_of` lg_processed l /\ lg_processed l `prefix_of` lg_accepted l.
Proof.
  intros Eo Hr Hreach Hg Hm. pose proof (gone_flushed _ _ _ _ _ Hreach Hg) as Hlast. apply reachable_inv in Hreach as Hi.
  destruct Hi. rewrite li_sinks. cbn. eexists. split; [done|]. rewrite <- sink_run_foldl.
  destruct (sink_run sink (lg_calls l)) as [final oks] eqn:Er. cbn [fst].
  destruct (reliable_run _ _ _ _ Hr Er) as [_ Hoks]. injection Eo as <-.
  destruct (sink_run_spec (fresh_sink path (unwrap_or [] existing) script) _ _ _ ltac:(done) Er) as (_ & _ & pieces & Hp & Hh).
  rewrite (adds_all _ _ _ Hp Hoks), li_lines in Hh. unfold held in Hh. cbn in Hh. rewrite app_nil_r in Hh.
  assert (fs_buffer final = []) as Hb.
  { apply last_Some in Hlast as [before Eb]. rewrite Eb in Er. clear -Er Hoks. set (s := fresh_sink _ _ _) in Er. clearbody s. revert s oks Er Hoks.
    induction before as [|c before IH]; intros s oks Er Ho; cbn [sink_run app] in Er.
    - destruct (sink_flush s) as [s1 ok] eqn:E1. injection Er as <- <-. apply Forall_cons in Ho as [-> _]. by eapply flush_buf_spec.
    - destruct (match c with CallWrite _ => _ | _ => _ end) as [s1 ok]. destruct (sink_run s1 _) as [s2 oks2] eqn:E2. injection Er as <- <-.
      apply Forall_cons in Ho as [_ Ho]. by eapply IH. }
  rewrite Hb, app_nil_r in Hh. split_and!; [done|done| |done].
  unfold marker_ok in li_marker. rewrite Hm, Hg in li_marker. destruct li_marker as [_ Hn]. cbn in Hn.
  destruct li_prefix as [rest Hpre]. rewrite Hpre, take_app_le by lia. apply prefix_take.
Qed.

(** The file need not stay one event per line: when the disk is full in the middle of a line longer
    than the buffer, the front of the line stays, and the next event is written right behind it. *)
Theorem torn_line_takes_the_next_along :
  let long := replicate 8191 97 ++ [10] in
  exists s, sink_run (fresh_sink [] [] [Takes 3; WriteFails]) [CallWrite long; CallWrite [98; 10]; CallFlush] = (s, [false; true; true]) /\
    af_bytes (fs_file s) = [97; 97; 97; 98; 10].
Proof. eexists. split; vm_compute; reflexivity. Qed.

(** ** The hypotheses can hold *)

Definition flaky : list WriteOutcome := [Takes 1; WriteInterrupted; WriteFails; Takes 2].

Lemma event_file_keeps_lines_witness :
  exists s s', open_sink [] true true (Some [1; 10]) flaky = Some s /\
    sink_run s [CallWrite [2; 10]; CallFlush; CallWrite [3; 10]; CallFlush] = (s', [true; false; true; true]) /\
    af_bytes (fs_file s') = [1; 10; 2; 10; 3; 10] /\ fs_buffer s' = [].
Proof.
  destruct (sink_run (fresh_sink [] [1; 10] flaky) [CallWrite [2; 10]; CallFlush; CallWrite [3; 10]; CallFlush]) as [s' oks] eqn:E.
  destruct (event_file_keeps_lines [] (Some [1; 10]) flaky (fresh_sink [] [1; 10] flaky)
    [CallWrite [2; 10]; CallFlush; CallWrite [3; 10]; CallFlush] s' oks eq_refl E) as (_ & _ & _ & H).
  vm_compute in E. injection E as <- <-. eexists _, _. split; [reflexivity|]. split; [vm_compute; reflexivity|].
  split; [reflexivity|]. apply H; reflexivity.
Defined.

Definition line_of (e : Z) : option (list Z) := Some [e; 10].

Definition short_writes : list WriteOutcome := [Takes 1; WriteInterrupted; Takes 1].

Definition one_event : list Action := [Begin 0 7; Continue 0; Continue 0; SendShutdown] ++ replicate 6 WriterStep.

Lemma accepted_events_reach_the_file_witness :
  exists l final, log_run line_of (spawn [fresh_sink [] [1; 10] short_writes] 4 1) one_event = Some l /\ lg_sinks l = [final] /\
    af_bytes (fs_file final) = [1; 10; 7; 10].
Proof.
  destruct (log_run line_of (spawn [fresh_sink [] [1; 10] short_writes] 4 1) one_event) as [l|] eqn:E; [|discriminate E].
  assert (reachable line_of [fresh_sink [] [1; 10] short_writes] 4 1 l) as Hr by (eapply log_run_reachable; [constructor|exact E]).
  vm_compute in E. injection E as E.
  destruct (accepted_events_reach_the_file line_of [] (Some [1; 10]) short_writes (fresh_sink [] [1; 10] short_writes) 4 1 l 1)
    as (final & H1 & _ & H3 & _); [reflexivity|repeat constructor; discriminate|exact Hr|rewrite <- E; reflexivity|rewrite <- E; reflexivity|].
  exists l, final. split; [reflexivity|]. split; [exact H1|]. rewrite H3, <- E. reflexivity.
Defined.
