(* ===== verification/Ndjson.v ===== *)
(** The event file as the consumer reads it: one JSON document per line, [Event::to_ndjson] of
    [crates/common/src/event.rs] behind the writer of [EventLog] and the file of [Sinks].

    The serializer is [serde_json]: [to_vec] gives the compact form of a value, or fails. The compact form
    has no line break, as it adds no white space and JSON escapes the control characters of a string. *)

From S2P Require Import Prelude Text Event Correlation EventLog Sinks.

Class EventJson (Event : Type) := {
  to_vec : Event -> option (list Z);
  to_vec_one_line : forall e json, to_vec e = Some json -> 10 ∉ json
}.

(** [Event::to_ndjson]. *)
Definition to_ndjson `{EventJson Event} (e : Event) : option (list Z) := buf ← to_vec e; Some (buf ++ [10]).

(** ** The names on the wire *)

(** [EventKind::as_str]. *)
Definition event_kind_as_str (k : EventKind) : text :=
  of_string match k with
  | Alert => "alert" | Anomaly => "anomaly" | Flow => "flow" | Fim => "fim" | Auth => "auth" | Process => "process"
  | Incident => "incident" | Stats => "stats"
  end.

(** [FimDetection::as_str]. *)
Definition fim_detection_as_str (d : FimDetection) : text :=
  of_string match d with RealTime => "real_time" | BaselineRescan => "baseline_rescan" end.

(** A consumer tells the kinds of event apart. *)
#[global] Instance event_kind_as_str_inj : Inj (=) (=) event_kind_as_str.
Proof. by intros [] []. Qed.

#[global] Instance fim_detection_as_str_inj : Inj (=) (=) fim_detection_as_str.
Proof. by intros [] []. Qed.

(** ** What a consumer sees *)

(** The lines of a file; what follows the last line break is a line when it is not empty. *)
Fixpoint split_at_newline (line bytes : list Z) : list (list Z) :=
  match bytes with
  | [] => if bool_decide (line = []) then [] else [line]
  | b :: bytes' => if b =? 10 then line :: split_at_newline [] bytes' else split_at_newline (line ++ [b]) bytes'
  end.

Definition records (bytes : list Z) : list (list Z) := split_at_newline [] bytes.

(** Nothing stands behind the last line break. *)
Definition complete (bytes : list Z) : Prop := bytes = [] \/ last bytes = Some 10.

Lemma split_line line json rest :
  10 ∉ json -> split_at_newline line (json ++ 10 :: rest) = (line ++ json) :: split_at_newline [] rest.
Proof.
  revert line. induction json as [|b json IH]; intros line Hn; cbn [app split_at_newline].
  - by rewrite app_nil_r.
  - destruct (Z.eqb_spec b 10) as [->|]; [by destruct Hn; left|]. rewrite IH, <- app_assoc; [done|]. intros Hin. apply Hn. by right.
Qed.

Lemma split_app line front rest :
  split_at_newline line (front ++ 10 :: rest) = split_at_newline line (front ++ [10]) ++ split_at_newline [] rest.
Proof.
  revert line. induction front as [|b front IH]; intros line; [done|]. cbn [app split_at_newline].
  destruct (b =? 10); cbn [app]; by rewrite IH.
Qed.

Lemma records_app bytes rest : complete bytes -> records (bytes ++ rest) = records bytes ++ records rest.
Proof.
  unfold records. intros [->|Hl]; [done|]. apply last_Some in Hl as [front ->]. rewrite <- app_assoc. cbn [app]. apply split_app.
Qed.

Section ndjson.
Context `{EventJson Event}.

(** The lines of a sequence of events are their documents. *)
Lemma records_ndjson (events : list Event) : records (concat (omap to_ndjson events)) = omap to_vec events.
Proof.
  induction events as [|e events IH]; [done|]. cbn [omap list_omap]. unfold to_ndjson at 1. destruct (to_vec e) as [json|] eqn:E; [|exact IH].
  cbn [mbind option_bind concat]. rewrite <- app_assoc. unfold records in *. cbn [app]. rewrite split_line by (by eapply to_vec_one_line).
  cbn [app]. by rewrite IH.
Qed.

Lemma complete_ndjson (events : list Event) : complete (concat (omap to_ndjson events)).
Proof.
  induction events as [|e events IH]; [by left|]. cbn [omap list_omap]. unfold to_ndjson at 1. destruct (to_vec e) as [json|]; [|exact IH].
  cbn [mbind option_bind concat]. right. destruct IH as [->|IH]; [rewrite app_nil_r; apply last_snoc|]. by rewrite last_app, IH.
Qed.

(** C30: the event log is one document per line, and every accepted event is one of them. On every
    interleaving of the producers and the writer, with a file whose writes may be cut and interrupted in
    any way as long as they get somewhere, once the writer has ended, a consumer that splits the file at
    its line breaks reads the lines the file had when it was opened, then the JSON of exactly the events
    that were written, each on a line of its own, in the order they were accepted, those accepted before
    the shutdown was asked for among them; and the file is again one that a restart can append to. *)
Theorem event_file_is_ndjson path existing script sink capacity threads l n :
  open_sink path true true existing script = Some sink -> reliable (fs_file sink) -> complete (unwrap_or [] existing) ->
  reachable (Event := Event) to_ndjson [sink] capacity threads l -> lg_writer l = Gone -> lg_marker l = Some n ->
  exists final, lg_sinks l = [final] /\ fs_buffer final = [] /\
    records (af_bytes (fs_file final)) = records (unwrap_or [] existing) ++ omap to_vec (lg_processed l) /\
    complete (af_bytes (fs_file final)) /\
    take n (lg_accepted l) `prefix_of` lg_processed l /\ lg_processed l `prefix_of` lg_accepted l.
Proof.
  intros Eo Hr Hc Hreach Hg Hm.
  destruct (accepted_events_reach_the_file to_ndjson path existing script sink capacity threads l n Eo Hr Hreach Hg Hm)
    as (final & Hs & Hb & Hf & Hp). exists final. split; [done|]. split; [done|]. rewrite Hf.
  split; [by rewrite records_app, records_ndjson|]. split; [|done].
  destruct (complete_ndjson (lg_processed l)) as [->|Hl]; [by rewrite app_nil_r|]. right. by rewrite last_app, Hl.
Qed.
End ndjson.

(** ** The hypotheses can hold *)

(** Events that are numbers, written in one digit or not at all. *)
#[local] Instance digit_json : EventJson Z.
Proof.
  refine {| to_vec e := if (0 <=? e) && (e <=? 9) then Some [48 + e] else None |}.
  intros e json E. destruct (_ && _) eqn:Hd; [|done]. injection E as <-. bsimpl. intros Hin%list_elem_of_singleton. lia.
Defined.

Lemma event_file_is_ndjson_witness :
  exists l final, log_run (to_ndjson (Event := Z)) (spawn [fresh_sink [] [123; 10] short_writes] 4 1) one_event = Some l /\ lg_sinks l = [final] /\
    records (af_bytes (fs_file final)) = [[123]; [55]].
Proof.
  destruct (log_run (to_ndjson (Event := Z)) (spawn [fresh_sink [] [123; 10] short_writes] 4 1) one_event) as [l|] eqn:E; [|discriminate E].
  assert (reachable (Event := Z) to_ndjson [fresh_sink [] [123; 10] short_writes] 4 1 l) as Hr by (eapply log_run_reachable; [constructor|exact E]).
  vm_compute in E. injection E as E.
  destruct (event_file_is_ndjson (Event := Z) [] (Some [123; 10]) short_writes (fresh_sink [] [123; 10] short_writes) 4 1 l 1)
    as (final & H1 & _ & H3 & _);
    [reflexivity|repeat constructor; discriminate|right; reflexivity|exact Hr|rewrite <- E; reflexivity|rewrite <- E; reflexivity|].
  exists l, final. split; [reflexivity|]. split; [exact H1|]. rewrite H3, <- E. reflexivity.
Defined.
