(* ===== verification/Pipeline.v ===== *)
(** The packet pipeline: [crates/cli/src/pipeline.rs], the join of the components, with the event
    envelope of [crates/common/src/event.rs].

    The list [p_emitted] holds the events the pipeline has handed to [EventEmitter::emit_event], oldest
    first. Whether the log then has room for an event or counts it as dropped is decided by the queue
    behind the emitter, in [EventLog]; nothing here depends on it, since every caller ignores the answer.
    The commands given to [nft] are the list [p_commands]; what they answer is only logged, so it is no
    part of the state, and what they make the kernel do is in [Kernel]. [p_poisoned] says that a thread
    has panicked with the lock of the prevention store.

    The clocks are inputs: [instant n] and [wall n] are the readings of the monotonic and of the wall
    clock that are made when [n] events have been handed over, of which there is at most one each. A
    [None] is a panic. The stream dump and the log lines have no effect on the state. *)

From stdpp Require Import pretty.
From S2P Require Import Prelude Text Clock Net Event HostSensor Config Policy Stream Flow Decode Defrag RuleModel Vars Eval Compile Host Engine Prevent Kernel Correlation.

(** ** Events *)

Record SensorInfo := mkSensorInfo {
  si_name : text;
  si_id : text;
  si_version : text
}.

Inductive AlertAction := ActionAlerted | ActionBlocked.
Inductive AlertSource := SourceNetwork | SourceHost.

Record AlertEvent := mkAlertEvent {
  ae_action : AlertAction;
  ae_source : AlertSource;
  ae_sid : Z;
  ae_rev : Z;
  ae_signature : text;
  ae_classtype : option text;
  ae_severity : Z;
  ae_metadata : gmap text (list text)
}.

Record AnomalyRecord := mkAnomalyRecord {
  arec_layer : text;
  arec_kind : text
}.

Record AnomalyEvent := mkAnomalyEvent {
  an_anomalies : list AnomalyRecord;
  an_interface : text;
  an_captured_len : Z;
  an_packet_len : Z;
  an_truncated : bool
}.

Record FlowEvent := mkFlowEvent {
  fe_reason : Flow.EndReason;
  fe_start : Z;
  fe_end : Z;
  fe_duration_ms : Z;
  fe_packets_to_server : Z;
  fe_bytes_to_server : Z;
  fe_packets_to_client : Z;
  fe_bytes_to_client : Z;
  fe_tcp_flags : option (list Ascii.ascii)
}.

Inductive Payload :=
| PlAlert (e : AlertEvent)
| PlAnomaly (e : AnomalyEvent)
| PlFlow (e : FlowEvent)
| PlFim (e : FimEvent)
| PlAuth (e : AuthEvent)
| PlProcess (e : ProcessEvent)
| PlIncident (e : IncidentEvent).

(** [Payload::kind]. *)
Definition payload_kind (p : Payload) : EventKind :=
  match p with
  | PlAlert _ => Alert | PlAnomaly _ => Anomaly | PlFlow _ => Flow | PlFim _ => Fim | PlAuth _ => Auth
  | PlProcess _ => Process | PlIncident _ => Incident
  end.

Record EventRecord := mkEvent {
  ev_timestamp : Z;
  ev_event_type : EventKind;
  ev_sensor : SensorInfo;
  ev_flow_id : option Z;
  ev_src_ip : option IpAddr;
  ev_src_port : option Z;
  ev_dest_ip : option IpAddr;
  ev_dest_port : option Z;
  ev_proto : option Protocol;
  ev_payload : Payload
}.

(** [Event::new]. *)
Definition event_new (timestamp : Z) (sensor : SensorInfo) (payload : Payload) : EventRecord :=
  mkEvent timestamp (payload_kind payload) sensor None None None None None None payload.

Definition with_flow_id (e : EventRecord) (flow_id : Z) : EventRecord :=
  mkEvent (ev_timestamp e) (ev_event_type e) (ev_sensor e) (Some flow_id) (ev_src_ip e) (ev_src_port e)
    (ev_dest_ip e) (ev_dest_port e) (ev_proto e) (ev_payload e).

Definition with_net (e : EventRecord) (net : NetTuple) : EventRecord :=
  mkEvent (ev_timestamp e) (ev_event_type e) (ev_sensor e) (ev_flow_id e) (Some (src_ip net)) (src_port net)
    (Some (dest_ip net)) (dest_port net) (Some (proto net)) (ev_payload e).

(** ** Inputs *)

Record RawPacket := mkRawPacket {
  raw_data : list Z;
  raw_original_len : Z;
  raw_timestamp : Z;
  raw_interface : text
}.

Record PipelineOptions := mkPipelineOptions {
  emit_anomaly_events : bool;
  emit_flow_events : bool
}.

(** ** Helpers *)

Definition port_or_none (port : Z) : option Z := if negb (port =? 0) then Some port else None.

Definition protocol_from_number (protocol : Z) : Protocol :=
  if protocol =? 6 then Tcp
  else if protocol =? 17 then Udp
  else if (protocol =? 1) || (protocol =? 58) then Icmp
  else Ip.

Definition summary_tuple (packet : PacketSummary) : NetTuple :=
  mkNetTuple (pkt_source packet).1 (port_or_none (pkt_source packet).2) (pkt_destination packet).1
    (port_or_none (pkt_destination packet).2) (protocol_from_number (pkt_protocol packet)).

Definition reverse_net (t : NetTuple) : NetTuple :=
  mkNetTuple (dest_ip t) (dest_port t) (src_ip t) (src_port t) (proto t).

Definition tcp_segment (transport : option Transport) (payload : list Z) : option TcpSegment :=
  match transport with
  | Some (TTcp tcp) =>
      Some (mkTcpSegment (tcp_sequence_number tcp) (tcp_acknowledgment_number tcp) (flag_bits (tcp_flags tcp)) payload)
  | _ => None
  end.

Definition port_of (port : Transport -> option Z) (transport : option Transport) : Z :=
  unwrap_or 0 (transport ≫= port).

(** [u32::try_from(n).unwrap_or(u32::MAX)]. *)
Definition saturate_u32 (n : Z) : Z := if n <=? U32_MAX then n else U32_MAX.

Section pipeline.
Context {EP : Etherparse} `{RegexLib, AhoCorasickLib, !HashOrder Z, !HashOrder Flow.FlowKey, !HashOrder FragmentKey}.

(** ** State *)

(** The four [rules_*] fields. *)
Record RuleCounts := mkRuleCounts {
  rc_armed : Z;
  rc_awaiting_support : Z;
  rc_failed : Z;
  rc_without_prefilter : Z
}.

Record PacketPipeline := mkPipeline {
  p_sensor : SensorInfo;
  p_flows : FlowTable;
  p_defrag : Defragmenter;
  p_policy : PolicyResolver;
  p_decode : DecodeCounters;
  p_stream_bytes_delivered : Z;
  p_engine : option Engine;
  p_correlator : option Correlator;
  p_host_alerts : Z;
  p_prevention : option Prevention;
  p_options : PipelineOptions;
  p_rules : RuleCounts;
  p_prevent_queue : Z;
  p_poisoned : bool;
  p_commands : list (list text);
  p_emitted : list EventRecord
}.

(** [PacketPipeline::new], from the sections of the configuration it reads. *)
Definition pipeline_new (sensor : SensorInfo) (max_flows timeout_secs : Z) (reassembly : ReassemblyConfig)
    (options : PipelineOptions) : PacketPipeline :=
  let limits :=
    mkLimits max_flows (max_bytes_per_flow Limits_default) (Flow.max_bytes_total Limits_default)
      (max_fragment_sets reassembly) (secs timeout_secs) (secs (fragment_timeout_secs reassembly)) in
  mkPipeline sensor (with_reassembly limits reassembly) (Defrag.new reassembly) (Policy.from_config reassembly)
    Decode.counters_default 0 None None 0 None options (mkRuleCounts 0 0 0 0) 0 false [] [].

Definition set_engine (p : PacketPipeline) (e : option Engine) : PacketPipeline :=
  let '(mkPipeline sensor fl de po dc sb _ co ha pr op ru qu lk cm ev) := p in mkPipeline sensor fl de po dc sb e co ha pr op ru qu lk cm ev.
Definition set_flow_table (p : PacketPipeline) (fl : FlowTable) : PacketPipeline :=
  let '(mkPipeline sensor _ de po dc sb en co ha pr op ru qu lk cm ev) := p in mkPipeline sensor fl de po dc sb en co ha pr op ru qu lk cm ev.
Definition set_defrag (p : PacketPipeline) (de : Defragmenter) : PacketPipeline :=
  let '(mkPipeline sensor fl _ po dc sb en co ha pr op ru qu lk cm ev) := p in mkPipeline sensor fl de po dc sb en co ha pr op ru qu lk cm ev.
Definition set_decode (p : PacketPipeline) (dc : DecodeCounters) : PacketPipeline :=
  let '(mkPipeline sensor fl de po _ sb en co ha pr op ru qu lk cm ev) := p in mkPipeline sensor fl de po dc sb en co ha pr op ru qu lk cm ev.
Definition add_delivered (p : PacketPipeline) (n : Z) : PacketPipeline :=
  let '(mkPipeline sensor fl de po dc sb en co ha pr op ru qu lk cm ev) := p in
  mkPipeline sensor fl de po dc (sb + n) en co ha pr op ru qu lk cm ev.
Definition set_correlator (p : PacketPipeline) (co : option Correlator) : PacketPipeline :=
  let '(mkPipeline sensor fl de po dc sb en _ ha pr op ru qu lk cm ev) := p in mkPipeline sensor fl de po dc sb en co ha pr op ru qu lk cm ev.
Definition add_host_alerts (p : PacketPipeline) (n : Z) : PacketPipeline :=
  let '(mkPipeline sensor fl de po dc sb en co ha pr op ru qu lk cm ev) := p in
  mkPipeline sensor fl de po dc sb en co (ha + n) pr op ru qu lk cm ev.
Definition set_prevention (p : PacketPipeline) (pr : option Prevention) : PacketPipeline :=
  let '(mkPipeline sensor fl de po dc sb en co ha _ op ru qu lk cm ev) := p in mkPipeline sensor fl de po dc sb en co ha pr op ru qu lk cm ev.
Definition poison (p : PacketPipeline) : PacketPipeline :=
  let '(mkPipeline sensor fl de po dc sb en co ha pr op ru qu _ cm ev) := p in mkPipeline sensor fl de po dc sb en co ha pr op ru qu true cm ev.

(** A run of the [nft] command. *)
Definition command (p : PacketPipeline) (args : list text) : PacketPipeline :=
  let '(mkPipeline sensor fl de po dc sb en co ha pr op ru qu lk cm ev) := p in
  mkPipeline sensor fl de po dc sb en co ha pr op ru qu lk (cm ++ [args]) ev.

(** The event is offered to the log. *)
Definition hand_over (p : PacketPipeline) (e : EventRecord) : PacketPipeline :=
  let '(mkPipeline sensor fl de po dc sb en co ha pr op ru qu lk cm ev) := p in
  mkPipeline sensor fl de po dc sb en co ha pr op ru qu lk cm (ev ++ [e]).

(** How many events were handed over: the index of the clock's next reading. *)
Definition next_reading (p : PacketPipeline) : nat := length (p_emitted p).

(** A loop whose body may panic. *)
Fixpoint each {A : Type} (step : PacketPipeline -> A -> option PacketPipeline) (p : PacketPipeline) (l : list A) :
    option PacketPipeline :=
  match l with [] => Some p | a :: l' => p ← step p a; each step p l' end.

(** [EventEmitter::build_at]. *)
Definition build_at (p : PacketPipeline) (timestamp : Z) (payload : Payload) : EventRecord :=
  event_new timestamp (p_sensor p) payload.

(** [arm], [arm_prevention] and [attach_host]. *)
Definition arm (p : PacketPipeline) (e : Engine) (report : CompileReport) : PacketPipeline :=
  let '(mkPipeline sensor fl de po dc sb _ co ha pr op _ qu lk cm ev) := p in
  mkPipeline sensor fl de po dc sb (Some e) co ha pr op
    (mkRuleCounts (rep_compiled report) (rep_not_evaluable report) (len (rep_failed report)) (rep_without_prefilter report))
    qu lk cm ev.
Definition arm_prevention (p : PacketPipeline) (s : Prevention) (queue : Z) : PacketPipeline :=
  let '(mkPipeline sensor fl de po dc sb en co ha _ op ru _ lk cm ev) := p in
  mkPipeline sensor fl de po dc sb en co ha (Some s) op ru queue lk cm ev.
Definition attach_host (p : PacketPipeline) (c : option Correlator) : PacketPipeline := set_correlator p c.

(** ** Alerts *)

(** [enforce]: what became of the block a rule asked for. A source that was blocked is put into the
    kernel's set as well. *)
Definition enforce (p : PacketPipeline) (rule_blocks : bool) (tuple : NetTuple) (instant : Z) :
    option (PacketPipeline * AlertAction) :=
  if negb rule_blocks then Some (p, ActionAlerted)
  else match p_prevention p with
  | None => Some (p, ActionAlerted)
  | Some store =>
      if p_poisoned p then Some (p, ActionAlerted)
      else
        '(store, outcome) ← Prevent.block store tuple instant;
        let p := set_prevention p (Some store) in
        Some match outcome with
             | Blocked source =>
                 (match source with
                  | Some address => command p (add_element_args address (source_block_timeout store))
                  | None => p
                  end, ActionBlocked)
             | NotArmed | AllowListed _ | Full => (p, ActionAlerted)
             end
  end.

Definition correlate (p : PacketPipeline) (domain : Domain) (event_type : EventKind) (sid : option Z) (severity : Z)
    (summary : text) (timestamp : Z) : option PacketPipeline :=
  match p_correlator p with
  | None => Some p
  | Some c =>
      '(c, incident) ← Correlation.observe c
        (mkObservation (si_name (p_sensor p)) (to_timestamp timestamp) domain event_type sid severity summary);
      let p := set_correlator p (Some c) in
      Some match incident with
           | Some i => hand_over p (build_at p (to_timestamp timestamp) (PlIncident i))
           | None => p
           end
  end.

Definition alert_body (action : AlertAction) (source : AlertSource) (r : AlertRecord) : AlertEvent :=
  mkAlertEvent action source (ar_sid r) (ar_rev r) (ar_signature r) (ar_classtype r) (ar_severity r) (ar_metadata r).

(** The first loop of [emit_alerts]: one event per record, with what was enforced. *)
Definition emit_alert (flow_id : Z) (tuple : NetTuple) (timestamp : Z) (instant : nat -> Z) (p : PacketPipeline)
    (r : AlertRecord) : option PacketPipeline :=
  '(p, action) ← enforce p (ar_blocks r) tuple (instant (next_reading p));
  Some (hand_over p (with_net (with_flow_id (build_at p (to_timestamp timestamp) (PlAlert (alert_body action SourceNetwork r)))
                                 flow_id) tuple)).

(** The second loop: every alert is offered to the correlation. *)
Fixpoint correlate_alerts (p : PacketPipeline) (timestamp : Z) (records : list AlertRecord) : option PacketPipeline :=
  match records with
  | [] => Some p
  | r :: records' =>
      p ← correlate p Network Alert (Some (ar_sid r)) (ar_severity r) (ar_signature r) timestamp;
      correlate_alerts p timestamp records'
  end.

Definition emit_alerts (p : PacketPipeline) (flow_id : Z) (tuple : NetTuple) (timestamp : Z) (instant : nat -> Z)
    (records : list AlertRecord) : option PacketPipeline :=
  p ← each (emit_alert flow_id tuple timestamp instant) p records;
  correlate_alerts p timestamp records.

(** ** Packets *)

Definition pipeline_inspect_packet (p : PacketPipeline) (flow_id : Z) (tuple : NetTuple) (to_server : bool)
    (payload : list Z) (timestamp : Z) (instant : nat -> Z) : option PacketPipeline :=
  match p_engine p with
  | None => Some p
  | Some e =>
      '(e, alerts) ← Engine.inspect_packet e flow_id tuple to_server payload timestamp;
      emit_alerts (set_engine p (Some e)) flow_id tuple timestamp instant alerts
  end.

(** One direction of [consume_ready]. *)
Definition consume_direction (p : PacketPipeline) (flow_id : Z) (oriented : NetTuple) (is_to_server : bool)
    (bytes : list Z) (timestamp : Z) (instant : nat -> Z) : option PacketPipeline :=
  if bool_decide (bytes = []) then Some p
  else
    let tuple := if is_to_server then oriented else reverse_net oriented in
    match p_engine p with
    | None => Some p
    | Some e =>
        '(e, alerts) ← Engine.inspect_stream e flow_id tuple is_to_server bytes timestamp;
        emit_alerts (set_engine p (Some e)) flow_id tuple timestamp instant alerts
    end.

Definition consume_ready (p : PacketPipeline) (flow_id : Z) (oriented : NetTuple) (ready : StreamReady)
    (timestamp : Z) (instant : nat -> Z) : option PacketPipeline :=
  if StreamReady_is_empty ready then Some p
  else
    let p := add_delivered p (StreamReady_len ready) in
    p ← consume_direction p flow_id oriented true (ready_to_server ready) timestamp instant;
    consume_direction p flow_id oriented false (ready_to_client ready) timestamp instant.

Definition pipeline_observe (p : PacketPipeline) (packet : PacketSummary) (instant : nat -> Z) : option (PacketPipeline * Z) :=
  '(fl, ready, observed) ← Flow.observe (p_flows p) packet (for_destination (p_policy p)) StreamReady_default;
  let p := set_flow_table p fl in
  let flow_id := observed_flow_id observed in
  let packet_tuple := summary_tuple packet in
  let oriented := if observed_to_server observed then packet_tuple else reverse_net packet_tuple in
  p ← (if bool_decide (pkt_tcp packet = None) && negb (bool_decide (pkt_payload packet = []))
       then pipeline_inspect_packet p flow_id packet_tuple (observed_to_server observed) (pkt_payload packet)
              (pkt_timestamp packet) instant
       else Some p);
  p ← consume_ready p flow_id oriented ready (pkt_timestamp packet) instant;
  Some (p, flow_id).

Definition fragment_view (network : Decode.Network) (d : Decoded) : FragmentView :=
  let '(identification, offset, more) :=
    match network with
    | Ipv4 ip => (v4_identification ip, v4_fragment_offset ip, v4_more_fragments ip)
    | Ipv6 ip => (v6_identification ip, v6_fragment_offset ip, v6_more_fragments ip)
    end in
  mkFragmentView (net_source network) (net_destination network) identification (net_protocol network) offset more
    (network_payload_bytes d).

Definition defragment (p : PacketPipeline) (network : Decode.Network) (d : Decoded) (timestamp : Z) :
    option (PacketPipeline * option Reassembled) :=
  '(de, r) ← Defrag.push (p_defrag p) (fragment_view network d) timestamp
               (for_destination (p_policy p) (net_destination network));
  Some (set_defrag p de, r).

Definition on_reassembled (p : PacketPipeline) (r : Reassembled) (timestamp : Z) (instant : nat -> Z) : option PacketPipeline :=
  d ← decode_transport_bytes (re_data r) (re_protocol r);
  '(p, _) ← pipeline_observe p
    (mkPacketSummary (re_protocol r)
       (re_source r, port_of transport_source_port (d_transport d))
       (re_destination r, port_of transport_destination_port (d_transport d))
       timestamp (len (re_data r)) (payload_bytes d) (tcp_segment (d_transport d) (payload_bytes d))) instant;
  Some p.

Definition track (p : PacketPipeline) (d : Decoded) (timestamp : Z) (instant : nat -> Z) : option (PacketPipeline * option Z) :=
  match d_network d with
  | None => Some (p, None)
  | Some network =>
      if net_is_fragment network then
        '(p, flow_id) ← pipeline_observe p
          (mkPacketSummary (net_protocol network) (net_source network, 0) (net_destination network, 0) timestamp
             (len (d_frame d)) (payload_bytes d) None) instant;
        '(p, r) ← defragment p network d timestamp;
        p ← match r with Some r => on_reassembled p r timestamp instant | None => Some p end;
        Some (p, Some flow_id)
      else
        '(p, flow_id) ← pipeline_observe p
          (mkPacketSummary (net_protocol network)
             (net_source network, port_of transport_source_port (d_transport d))
             (net_destination network, port_of transport_destination_port (d_transport d))
             timestamp (len (d_frame d)) (payload_bytes d) (tcp_segment (d_transport d) (payload_bytes d))) instant;
        Some (p, Some flow_id)
  end.

Definition emit_anomaly (p : PacketPipeline) (packet : RawPacket) (d : Decoded) (flow_id : option Z) : PacketPipeline :=
  let anomalies :=
    (fun a => mkAnomalyRecord (layer_as_str (an_layer a)) (anomaly_kind_as_str (an_kind a))) <$> as_found (d_anomalies d) in
  let body :=
    mkAnomalyEvent anomalies (raw_interface packet) (saturate_u32 (len (raw_data packet)))
      (saturate_u32 (raw_original_len packet)) (as_overflowed (d_anomalies d)) in
  let event := build_at p (to_timestamp (raw_timestamp packet)) (PlAnomaly body) in
  let event := match flow_id with Some id => with_flow_id event id | None => event end in
  let event := match five_tuple d with Some t => with_net event t | None => event end in
  hand_over p event.

(** ** Ended flows *)

Definition emit_flow (p : PacketPipeline) (ended : EndedFlow) : PacketPipeline :=
  let flow := ended_flow ended in
  let '(initiator, responder) := oriented_tuple flow in
  let body :=
    mkFlowEvent (end_reason ended) (to_timestamp (Flow.start flow)) (to_timestamp (Flow.last_seen flow))
      (Z.min U64_MAX (duration flow / 1000000))
      (Flow.dc_packets (flow_to_server flow)) (dc_bytes (flow_to_server flow))
      (Flow.dc_packets (flow_to_client flow)) (dc_bytes (flow_to_client flow)) (tcp_flags_string flow) in
  let event := build_at p (to_timestamp (Flow.last_seen flow)) (PlFlow body) in
  hand_over p
    (with_net (with_flow_id event (Flow.id flow))
       (mkNetTuple initiator.1 (port_or_none initiator.2) responder.1 (port_or_none responder.2)
          (protocol_from_number (Flow.protocol (Flow.key flow))))).

(** [self.flows.ended_mut()] is emptied by the drain: the table without its ended flows. *)
Definition clear_ended (t : FlowTable) : FlowTable :=
  mkFlowTable (Flow.flows t) (Flow.limits t) (reassembly t) (stream_bytes t) (finished_stream_counters t)
    (flow_counters t) [] (Flow.last_sweep t).

(** The tail of one flow is counted (and dumped, when asked for). *)
Definition take_tail (p : PacketPipeline) (e : EndedFlow) : PacketPipeline :=
  if StreamReady_is_empty (final_ready e) then p else add_delivered p (StreamReady_len (final_ready e)).

(** Then the engine forgets the flows. *)
Definition take_final_deliveries (p : PacketPipeline) : PacketPipeline :=
  let ended := ended (p_flows p) in
  let p := foldl take_tail p ended in
  match p_engine p with
  | Some e => set_engine p (Some (foldl (fun e f => on_flow_end e (Flow.id (ended_flow f))) e ended))
  | None => p
  end.

Definition drain_ended_flows (p : PacketPipeline) : PacketPipeline :=
  if bool_decide (ended (p_flows p) = []) then p
  else
    let p := take_final_deliveries p in
    let finished := ended (p_flows p) in
    let p := set_flow_table p (clear_ended (p_flows p)) in
    if negb (emit_flow_events (p_options p)) then p
    else foldl emit_flow p finished.

Definition on_packet (p : PacketPipeline) (packet : RawPacket) (instant : nat -> Z) : option PacketPipeline :=
  d ← Decode.decode (raw_data packet) (raw_original_len packet);
  let p := set_decode p (record (p_decode p) d) in
  '(p, flow_id) ← track p d (raw_timestamp packet) instant;
  let p := if emit_anomaly_events (p_options p) && negb (anomalies_is_empty (d_anomalies d))
           then emit_anomaly p packet d flow_id else p in
  Some (drain_ended_flows p).

Definition pipeline_flush (p : PacketPipeline) : option PacketPipeline :=
  fl ← Flow.flush (p_flows p);
  Some (drain_ended_flows (set_flow_table p fl)).

(** ** Host events *)

Definition emit_host_event (p : PacketPipeline) (payload : Payload) (timestamp : Z) : PacketPipeline :=
  hand_over p (build_at p (to_timestamp timestamp) payload).

Definition emit_host_alert (timestamp : Z) (p : PacketPipeline) (r : AlertRecord) : PacketPipeline :=
  hand_over p (build_at p (to_timestamp timestamp) (PlAlert (alert_body ActionAlerted SourceHost r))).

Definition inspect_and_emit_host (p : PacketPipeline) (o : HostObservation) (event_type : EventKind) (summary : text)
    (timestamp : Z) : option PacketPipeline :=
  '(p, records) ←
    match p_engine p with
    | Some e => '(e, alerts) ← inspect_host e o timestamp; Some (set_engine p (Some e), alerts)
    | None => Some (p, [])
    end;
  let p := foldl (emit_host_alert timestamp) (add_host_alerts p (len records)) records in
  let '(sid, severity, summary) :=
    match records with
    | r :: _ => (Some (ar_sid r), ar_severity r, ar_signature r)
    | [] => (None, 3, summary)
    end in
  correlate p Correlation.Host event_type sid severity summary timestamp.

Definition fim_summary (e : FimEvent) : text := file_change_as_str (fim_change e) ++ [32] ++ fim_path e.
Definition auth_summary (e : AuthEvent) : text :=
  auth_outcome_as_str (auth_outcome e) ++ of_string " authentication for " ++
  unwrap_or (of_string "an unnamed account") (auth_user e).
Definition process_summary (e : ProcessEvent) : text :=
  process_change_as_str (process_change e) ++ [32] ++ process_name e ++ of_string " (pid " ++
  of_string (pretty (process_pid e)) ++ of_string ")".

(** One event of a batch: the rules see it, then it is emitted. *)
Definition host_event (p : PacketPipeline) (o : HostObservation) (event_type : EventKind) (summary : text)
    (payload : Payload) (wall : Z) : option PacketPipeline :=
  p ← inspect_and_emit_host p o event_type summary wall;
  Some (emit_host_event p payload wall).

Definition overflow_body : AnomalyEvent :=
  mkAnomalyEvent [mkAnomalyRecord (of_string "host") (of_string "fim_queue_overflow")] [] 0 0 false.

Definition emit_host_batch (p : PacketPipeline) (batch : HostBatch) (wall : nat -> Z) : option PacketPipeline :=
  let p := foldl (fun p _ => hand_over p (build_at p (to_timestamp (wall (next_reading p))) (PlAnomaly overflow_body))) p
             (seqZ 0 (hb_overflows batch)) in
  p ← each (fun p e => host_event p (HFim e) Fim (fim_summary e) (PlFim e) (wall (next_reading p))) p (hb_fim batch);
  p ← each (fun p e => host_event p (HAuth e) Auth (auth_summary e) (PlAuth e) (wall (next_reading p))) p (hb_auth batch);
  each (fun p e => host_event p (HProcess e) Process (process_summary e) (PlProcess e) (wall (next_reading p))) p (hb_process batch).
End pipeline.
