(* ===== verification/PipelineFacts.v ===== *)
(** What the pipeline guarantees: no packet and no host event makes it panic, every component keeps
    its invariant, and the events of a packet are of the kinds, in the order and in the number the
    module promises. *)

From S2P Require Import Prelude Text Clock Net Event HostSensor Config Policy Stream Flow Decode Defrag RuleModel Vars Eval Compile Host Engine Prevent Kernel Correlation Pipeline.

Section facts.
Context {EP : Etherparse} `{RegexLib, AhoCorasickLib, !HashOrder Z, !HashOrder Flow.FlowKey, !HashOrder FragmentKey}.

(** The monotonic clock counts from the boot of the machine, and a source is blocked for so long at most:
    the block lapses at an instant that exists. *)
Definition UPTIME_MAX : Z := secs (2 ^ 62).
Definition LONGEST_BLOCK : Z := secs (2 ^ 62) - 1.

Definition clock_ok (instant : nat -> Z) : Prop := forall n, instant n <= UPTIME_MAX.

Record pipeline_inv (p : PacketPipeline) : Prop := {
  pi_flows : table_wf (p_flows p);
  pi_defrag : defrag_wf (p_defrag p);
  pi_decode : counters_wf (p_decode p);
  pi_engine : forall e, p_engine p = Some e -> engine_inv e;
  pi_correlator : forall c, p_correlator p = Some c -> corr_inv c /\ settings_ok (Correlation.settings c);
  pi_prevention : forall s, p_prevention p = Some s -> store_inv s /\ source_block (Prevent.settings s) <= LONGEST_BLOCK
}.

(** *** Steps *)

(** The verdicts recorded only accumulate, under the same settings. *)
Definition stores (o o' : option Prevention) : Prop :=
  match o, o' with
  | None, None => True
  | Some s, Some s' => Prevent.settings s' = Prevent.settings s /\ dom (Prevent.flows s) ⊆ dom (Prevent.flows s')
  | _, _ => False
  end.

#[local] Instance stores_preorder : PreOrder stores.
Proof.
  split; [by intros [s|]|]. intros [s1|] [s2|] [s3|]; try done. intros [E1 F1] [E2 F2]. split; [congruence|by etrans].
Qed.

(** The alert says that traffic was blocked. *)
Definition claims_block (e : EventRecord) : bool :=
  match ev_payload e with PlAlert a => match ae_action a with ActionBlocked => true | ActionAlerted => false end | _ => false end.

Definition carries (e : EventRecord) (t : NetTuple) : Prop :=
  ev_src_ip e = Some (src_ip t) /\ ev_src_port e = src_port t /\
  ev_dest_ip e = Some (dest_ip t) /\ ev_dest_port e = dest_port t /\ ev_proto e = Some (proto t).

(** The conversation is condemned: the store is armed, protects neither endpoint, and holds its verdict. *)
Definition condemned (s : Prevention) (t : NetTuple) : Prop :=
  armed s = true /\ is_allow_listed s (src_ip t) = false /\ is_allow_listed s (dest_ip t) = false /\
  from_tuple t ∈ dom (Prevent.flows s).

(** The command blocks the source of a condemned conversation, for as long as the store does. *)
Definition justified_command (o : option Prevention) (args : list text) : Prop :=
  exists s t, o = Some s /\ condemned s t /\ args = add_element_args (src_ip t) (source_block_timeout s).

Lemma condemned_stays s s' t :
  Prevent.settings s' = Prevent.settings s -> dom (Prevent.flows s) ⊆ dom (Prevent.flows s') -> condemned s t -> condemned s' t.
Proof.
  unfold condemned, armed, is_allow_listed. intros -> Hf (? & ? & ? & ?). split_and!; try done. by apply Hf.
Qed.

Lemma justified_stays o o' l : stores o o' -> Forall (justified_command o) l -> Forall (justified_command o') l.
Proof.
  intros Hs F. eapply Forall_impl; [exact F|]. intros args (s & t & -> & Hc & ->). destruct o' as [s'|]; [|done].
  destruct Hs as [E D]. exists s', t. split; [done|]. split; [by eapply condemned_stays|]. unfold source_block_timeout. by rewrite E.
Qed.

(** Commands are only added, each justified. *)
Definition commands_grow (p p' : PacketPipeline) : Prop :=
  exists l, p_commands p' = p_commands p ++ l /\ Forall (justified_command (p_prevention p')) l.

Lemma commands_same p p' : p_commands p' = p_commands p -> commands_grow p p'.
Proof. intros E. exists []. by rewrite app_nil_r. Qed.

(** What the engine was armed with: no step changes it. *)
Definition arms (e : Engine) : CompiledRuleset * HostRuleset * EngineLimits * Z :=
  (e_ruleset e, e_host_rules e, e_limits e, e_longest_pattern e).

Lemma same_rules_arms e e' : same_rules e e' -> arms e' = arms e.
Proof. unfold same_rules, arms. intros (-> & -> & -> & ->). done. Qed.

(** A step keeps the invariant, the options and the armed rules, and only adds commands and events, of
    the given kinds; an alert that says blocked is true when it is emitted and stays true. *)
Record kept (p p' : PacketPipeline) : Prop := {
  kept_options : p_options p' = p_options p;
  kept_store : stores (p_prevention p) (p_prevention p');
  kept_arms : arms <$> p_engine p' = arms <$> p_engine p;
  kept_commands : commands_grow p p'
}.

(** An alert that says blocked is about a condemned conversation whose source the kernel was told of. *)
Definition truthful (p : PacketPipeline) (e : EventRecord) : Prop :=
  claims_block e = true -> exists s t, p_prevention p = Some s /\ carries e t /\ condemned s t /\
    add_element_args (src_ip t) (source_block_timeout s) ∈ p_commands p.

Lemma truthful_stays p p' e : kept p p' -> truthful p e -> truthful p' e.
Proof.
  intros [_ Hs _ (l & Ec & _)] He Hb. destruct (He Hb) as (s & t & Es & Hc & Hk & Hin). rewrite Es in Hs.
  destruct (p_prevention p') as [s'|] eqn:Es'; [|done]. destruct Hs as [E F]. exists s', t. split; [done|]. split; [done|].
  split; [by eapply condemned_stays|]. unfold source_block_timeout in *. rewrite E, Ec. apply elem_of_app. by left.
Qed.

Definition emits (kinds : EventKind -> Prop) (p' : PacketPipeline) (e : EventRecord) : Prop :=
  kinds (ev_event_type e) /\ truthful p' e.

Definition steps (kinds : EventKind -> Prop) (p p' : PacketPipeline) : Prop :=
  pipeline_inv p' /\ kept p p' /\ exists l, p_emitted p' = p_emitted p ++ l /\ Forall (emits kinds p') l.

#[local] Instance kept_preorder : PreOrder kept.
Proof.
  split; [split; [done|done|done|by apply commands_same]|].
  intros p1 p2 p3 [O1 S1 A1 (l1 & C1 & J1)] [O2 S2 A2 (l2 & C2 & J2)]. split; [congruence|by etrans|congruence|].
  exists (l1 ++ l2). rewrite C2, C1, app_assoc. split; [done|]. apply Forall_app. split; [by eapply justified_stays|done].
Qed.

Lemma emits_stays kinds p p' l : kept p p' -> Forall (emits kinds p) l -> Forall (emits kinds p') l.
Proof.
  intros Hk F. eapply Forall_impl; [exact F|]. intros e [? He]. split; [done|]. by eapply truthful_stays.
Qed.

Lemma emits_kinds kinds p l : Forall (emits kinds p) l -> Forall (fun e => kinds (ev_event_type e)) l.
Proof. intros F. eapply Forall_impl; [exact F|]. by intros e [? _]. Qed.

Lemma steps_refl kinds p : pipeline_inv p -> steps kinds p p.
Proof. intros Hp. split; [done|]. split; [done|]. exists []. by rewrite app_nil_r. Qed.

Lemma steps_trans kinds p1 p2 p3 : steps kinds p1 p2 -> steps kinds p2 p3 -> steps kinds p1 p3.
Proof.
  intros (_ & K1 & l1 & E1 & F1) (Hp & K2 & l2 & E2 & F2). split; [done|]. split; [by etrans|].
  exists (l1 ++ l2). rewrite E2, E1, app_assoc. split; [done|]. apply Forall_app. split; [|done]. by eapply emits_stays.
Qed.

Lemma steps_say (kinds : EventKind -> Prop) p e :
  pipeline_inv p -> kinds (ev_event_type e) -> truthful p e -> steps kinds p (hand_over p e).
Proof.
  intros Hp He Ht. destruct p. split; [by destruct Hp; constructor|]. split; [split; [done|done|done|by apply commands_same]|]. exists [e].
  split; [done|]. by constructor.
Qed.

Lemma steps_emit (kinds : EventKind -> Prop) p e :
  pipeline_inv p -> kinds (ev_event_type e) -> claims_block e = false -> steps kinds p (hand_over p e).
Proof. intros Hp He Hb. apply steps_say; [done..|]. intros Hc. congruence. Qed.

(** A change of state that emits nothing and records no verdict. *)
Lemma steps_quiet kinds p p' :
  pipeline_inv p' -> p_options p' = p_options p -> p_emitted p' = p_emitted p -> p_prevention p' = p_prevention p ->
  p_commands p' = p_commands p -> arms <$> p_engine p' = arms <$> p_engine p -> steps kinds p p'.
Proof.
  intros Hp Ho He Hs Hc Ha. split; [done|]. split; [split; [done|by rewrite Hs|done|by apply commands_same]|]. exists []. by rewrite app_nil_r, He.
Qed.

(** *** Alerts and incidents *)

Definition detection (k : EventKind) : Prop := k = Alert \/ k = Incident.

Lemma set_engine_inv p e : pipeline_inv p -> engine_inv e -> pipeline_inv (set_engine p (Some e)).
Proof. intros [] He. destruct p. constructor; cbn in *; try done. by intros ? [= <-]. Qed.

(** [enforce] changes the store and the commands only. *)
Lemma enforce_quiet {A : Type} (part : PacketPipeline -> A) p blocks t instant p' action :
  (forall p args, part (command p args) = part p) -> (forall p s, part (set_prevention p s) = part p) ->
  enforce p blocks t instant = Some (p', action) -> part p' = part p.
Proof.
  intros H1 H2. unfold enforce. destruct (negb blocks); [by intros [= <- _]|]. destruct (p_prevention p); [|by intros [= <- _]].
  destruct (p_poisoned p); [by intros [= <- _]|]. destruct (block _ _ _) as [[s' []]|]; [..|done]; cbn [mbind option_bind]; try (intros [= <- _]; apply H2).
  destruct source; intros [= <- _]; rewrite ?H1; apply H2.
Qed.

(** What [enforce] answers is what the store does from then on. *)
Lemma enforce_step kinds p blocks tuple instant :
  pipeline_inv p -> instant <= UPTIME_MAX ->
  exists p' action, enforce p blocks tuple instant = Some (p', action) /\ steps kinds p p' /\
    (action = ActionBlocked -> exists s, p_prevention p' = Some s /\ condemned s tuple /\
       add_element_args (src_ip tuple) (source_block_timeout s) ∈ p_commands p').
Proof.
  intros Hp Hi. unfold enforce. destruct (negb blocks); [eexists _, _; split; [done|]; by split; [apply steps_refl|]|].
  destruct (p_prevention p) as [s|] eqn:Es; [|eexists _, _; split; [done|]; by split; [apply steps_refl|]].
  destruct (p_poisoned p); [eexists _, _; split; [done|]; by split; [apply steps_refl|]|].
  destruct (pi_prevention p Hp s Es) as [Hs Hl].
  destruct (block_total s tuple instant) as (s' & o & E); [unfold UPTIME_MAX, LONGEST_BLOCK, INSTANT_MAX, secs in *; lia|].
  rewrite E. cbn [mbind option_bind]. pose proof (block_inv s tuple instant s' o Hs E) as Hb.
  destruct (block_cases s tuple instant s' o E) as [Eset Hc].
  assert (stores (Some s) (Some s')) as Hst.
  { split; [done|]. destruct Hc as [(_ & _ & -> & _)|(_ & _ & -> & _)]; [|done]. rewrite dom_insert_L. set_solver. }
  assert (forall cs, Forall (justified_command (Some s')) cs ->
    let q := foldl command (set_prevention p (Some s')) cs in steps kinds p q /\ p_prevention q = Some s' /\ p_commands q = p_commands p ++ cs) as Hgo.
  { intros cs Hcs. set (p1 := set_prevention p (Some s')).
    assert (forall cs p1, let q := foldl command p1 cs in p_options q = p_options p1 /\ p_engine q = p_engine p1 /\ p_prevention q = p_prevention p1 /\
      p_commands q = p_commands p1 ++ cs /\ p_emitted q = p_emitted p1 /\ (pipeline_inv p1 -> pipeline_inv q)) as Hf.
    { clear. intros cs. induction cs as [|c cs IH]; intros p; [cbn; by rewrite app_nil_r|]. cbn [foldl].
      destruct (IH (command p c)) as (E1 & E2 & E3 & E4 & E5 & E6). destruct p. cbn in *. rewrite E4, <- app_assoc. split_and!; try done.
      intros []. apply E6. by constructor. }
    destruct (Hf cs p1) as (E1 & E2 & E3 & E4 & E5 & E6). cbn zeta. split; [|rewrite E3, E4; unfold p1; by destruct p]. split; [|split; [split|]].
    - apply E6. unfold p1. destruct Hp, p; constructor; cbn in *; try done. intros ? [= <-]. split; [done|]. by rewrite Eset.
    - rewrite E1. unfold p1. by destruct p.
    - rewrite E3, Es. unfold p1. by destruct p.
    - rewrite E2. unfold p1. by destruct p.
    - exists cs. rewrite E4, E3. unfold p1. by destruct p.
    - exists []. rewrite app_nil_r, E5. unfold p1. by destruct p. }
  destruct Hc as [((Ha & Hsrc & Hd & _) & -> & Hf & _)|(_ & Hn & _)].
  - assert (condemned s' tuple) as Hk.
    { unfold condemned, armed, is_allow_listed in *. rewrite Eset, Hf. split_and!; try done. rewrite dom_insert_L. set_solver. }
    destruct (Hgo [add_element_args (src_ip tuple) (source_block_timeout s')]) as (H1 & H2 & H3); [constructor; [by exists s', tuple|done]|].
    eexists _, _. split; [done|]. split; [exact H1|]. intros _. exists s'. split; [exact H2|]. split; [done|].
    change (command _ _) with (foldl command (set_prevention p (Some s')) [add_element_args (src_ip tuple) (source_block_timeout s')]).
    rewrite H3. apply elem_of_app. right. apply list_elem_of_here.
  - destruct (Hgo []) as (H1 & H2 & _); [done|]. destruct o as [src| |a|]; [by edestruct Hn|..]; (eexists _, _; split; [done|]; by split).
Qed.

Lemma emit_alert_step p flow_id tuple timestamp instant r :
  pipeline_inv p -> clock_ok instant ->
  exists p', emit_alert flow_id tuple timestamp instant p r = Some p' /\ steps detection p p'.
Proof.
  intros Hp Hi. unfold emit_alert.
  destruct (enforce_step detection p (ar_blocks r) tuple (instant (next_reading p)) Hp (Hi _)) as (p1 & action & -> & Hs & Hb).
  cbn [mbind option_bind]. eexists. split; [done|]. eapply steps_trans; [exact Hs|].
  apply steps_say; [by destruct Hs|by left|]. intros Hc. destruct action; [done|]. destruct (Hb eq_refl) as (s & Ep & Hk & Hin).
  exists s, tuple. by split.
Qed.

Lemma correlate_step p domain kind sid severity summary timestamp :
  pipeline_inv p ->
  exists p', correlate p domain kind sid severity summary timestamp = Some p' /\ steps detection p p'.
Proof.
  intros Hp. unfold correlate. destruct (p_correlator p) as [c|] eqn:Ec; [|eexists; split; [done|by apply steps_refl]].
  destruct (pi_correlator p Hp c Ec) as [Hc Hs].
  destruct (observe_ok c (mkObservation (si_name (p_sensor p)) (to_timestamp timestamp) domain kind sid severity summary) Hc Hs)
    as (c' & inc & -> & Hc' & Es). cbn [mbind option_bind].
  assert (steps detection p (set_correlator p (Some c'))) as H1.
  { apply steps_quiet; [|by destruct p..]. destruct Hp, p. constructor; cbn in *; try done.
    intros ? [= <-]. by rewrite Es. }
  destruct inc as [i|]; eexists; (split; [done|]); [|done]. eapply steps_trans; [exact H1|].
  apply steps_emit; [by destruct H1|by right|done].
Qed.

Lemma correlate_alerts_step p timestamp records :
  pipeline_inv p -> exists p', correlate_alerts p timestamp records = Some p' /\ steps detection p p'.
Proof.
  revert p. induction records as [|r records IH]; intros p Hp; cbn [correlate_alerts].
  - eexists. split; [done|]. by apply steps_refl.
  - destruct (correlate_step p Network Alert (Some (ar_sid r)) (ar_severity r) (ar_signature r) timestamp Hp) as (p1 & -> & H1).
    cbn [mbind option_bind]. destruct (IH p1) as (p2 & -> & H2); [by destruct H1|].
    eexists. split; [done|]. by eapply steps_trans.
Qed.

Lemma foldl_steps {A : Type} kinds (f : PacketPipeline -> A -> PacketPipeline) (l : list A) p :
  (forall p a, pipeline_inv p -> steps kinds p (f p a)) -> pipeline_inv p -> steps kinds p (foldl f p l).
Proof.
  intros Hf. revert p. induction l as [|a l IH]; intros p Hp; [by apply steps_refl|]. cbn [foldl].
  specialize (Hf p a Hp). eapply steps_trans; [exact Hf|]. apply IH. by destruct Hf.
Qed.

Lemma each_app {A : Type} (step : PacketPipeline -> A -> option PacketPipeline) l k p :
  each step p (l ++ k) = q ← each step p l; each step q k.
Proof.
  revert p. induction l as [|a l IH]; intros p; [done|]. cbn [each app]. destruct (step p a); [apply IH|done].
Qed.

Lemma each_steps {A : Type} kinds (step : PacketPipeline -> A -> option PacketPipeline) l p :
  (forall p a, pipeline_inv p -> exists p', step p a = Some p' /\ steps kinds p p') -> pipeline_inv p ->
  exists p', each step p l = Some p' /\ steps kinds p p'.
Proof.
  intros Hs. revert p. induction l as [|a l IH]; intros p Hp; cbn [each].
  - eexists. split; [done|]. by apply steps_refl.
  - destruct (Hs p a Hp) as (p1 & -> & H1). cbn [mbind option_bind]. destruct (IH p1 (proj1 H1)) as (p2 & -> & H2).
    eexists. split; [done|]. by eapply steps_trans.
Qed.

Lemma emit_alerts_step p flow_id tuple timestamp instant records :
  pipeline_inv p -> clock_ok instant ->
  exists p', emit_alerts p flow_id tuple timestamp instant records = Some p' /\ steps detection p p'.
Proof.
  intros Hp Hi. unfold emit_alerts.
  destruct (each_steps detection (emit_alert flow_id tuple timestamp instant) records p) as (p1 & -> & H1);
    [intros q r Hq; by apply emit_alert_step|done|]. cbn [mbind option_bind].
  destruct (correlate_alerts_step _ timestamp records (proj1 H1)) as (p' & -> & H2).
  eexists. split; [done|]. by eapply steps_trans.
Qed.

(** Running the engine on an input and emitting what it found. *)
Lemma engine_emit_step p e input flow_id tuple timestamp instant :
  pipeline_inv p -> clock_ok instant -> p_engine p = Some e ->
  exists p', ('(e, alerts) ← engine_step e input;
              emit_alerts (set_engine p (Some e)) flow_id tuple timestamp instant alerts) = Some p' /\ steps detection p p'.
Proof.
  intros Hp Hi Ee. destruct (engine_step_inv e input (pi_engine p Hp e Ee)) as (e' & alerts & -> & He & Hr).
  cbn [mbind option_bind]. pose proof (set_engine_inv p e' Hp He) as Hp1.
  destruct (emit_alerts_step _ flow_id tuple timestamp instant alerts Hp1 Hi) as (p' & -> & H1).
  eexists. split; [done|]. eapply steps_trans; [|exact H1]. apply steps_quiet; [done|by destruct p..|].
  rewrite Ee. destruct p. cbn. by rewrite (same_rules_arms _ _ Hr).
Qed.

(** *** Packets *)

Lemma consume_direction_step p flow_id oriented dir bytes timestamp instant :
  pipeline_inv p -> clock_ok instant ->
  exists p', consume_direction p flow_id oriented dir bytes timestamp instant = Some p' /\ steps detection p p'.
Proof.
  intros Hp Hi. unfold consume_direction. case_bool_decide; [eexists; split; [done|by apply steps_refl]|].
  destruct (p_engine p) as [e|] eqn:Ee; [|eexists; split; [done|by apply steps_refl]].
  by apply (engine_emit_step p e (IStream flow_id _ dir bytes timestamp)).
Qed.

Lemma consume_ready_step p flow_id oriented ready timestamp instant :
  pipeline_inv p -> clock_ok instant ->
  exists p', consume_ready p flow_id oriented ready timestamp instant = Some p' /\ steps detection p p'.
Proof.
  intros Hp Hi. unfold consume_ready. destruct (StreamReady_is_empty ready); [eexists; split; [done|by apply steps_refl]|].
  assert (steps detection p (add_delivered p (StreamReady_len ready))) as H1.
  { apply steps_quiet; [|by destruct p..]. by destruct Hp, p; constructor. }
  destruct (consume_direction_step _ flow_id oriented true (ready_to_server ready) timestamp instant (proj1 H1) Hi) as (p2 & -> & H2).
  cbn [mbind option_bind].
  destruct (consume_direction_step _ flow_id oriented false (ready_to_client ready) timestamp instant (proj1 H2) Hi) as (p3 & -> & H3).
  eexists. split; [done|]. eapply steps_trans; [exact H1|]. by eapply steps_trans.
Qed.

Lemma pipeline_observe_step p packet instant :
  pipeline_inv p -> clock_ok instant -> packet_ok packet ->
  exists p' id, pipeline_observe p packet instant = Some (p', id) /\ steps detection p p'.
Proof.
  intros Hp Hi Hk. unfold pipeline_observe.
  destruct (observe_spec (p_flows p) packet (for_destination (p_policy p)) StreamReady_default (pi_flows p Hp) Hk)
    as (t & ready & f & g & fresh & -> & Ht & _). cbn [mbind option_bind observed_flow_id observed_to_server].
  set (p1 := set_flow_table p t). assert (steps detection p p1) as H1.
  { apply steps_quiet; [|by destruct p..]. unfold p1. by destruct Hp, p; constructor. }
  set (inspected := if _ && _ then _ else Some p1).
  assert (exists p2, inspected = Some p2 /\ steps detection p1 p2) as (p2 & -> & H2).
  { unfold inspected. destruct (_ && _); [|eexists; split; [done|]; apply steps_refl; by destruct H1].
    unfold pipeline_inspect_packet. destruct (p_engine p1) as [e|] eqn:Ee; [|eexists; split; [done|apply steps_refl; by destruct H1]].
    by apply (engine_emit_step p1 e (IPacket (id f) (summary_tuple packet) _ (pkt_payload packet) (pkt_timestamp packet))); [destruct H1|exact Hi|]. }
  cbn [mbind option_bind].
  destruct (consume_ready_step p2 (id f) (if bool_decide (pkt_source packet = initiator f) then summary_tuple packet
    else reverse_net (summary_tuple packet)) ready (pkt_timestamp packet) instant (proj1 H2) Hi) as (p3 & -> & H3).
  eexists _, _. split; [done|]. eapply steps_trans; [exact H1|]. by eapply steps_trans.
Qed.

Lemma tcp_segment_ok d payload :
  (forall t, d_transport d = Some (TTcp t) -> tcp_in_range t) ->
  match tcp_segment (d_transport d) payload with Some seg => segment_ok seg | None => True end.
Proof.
  intros Hd. unfold tcp_segment. destruct (d_transport d) as [[t| | |]|]; try done.
  destruct (Hd t eq_refl) as [H1 H2]. unfold in_u32, U32_MAX in *. split; cbn; lia.
Qed.

Lemma on_reassembled_step p r timestamp instant :
  pipeline_inv p -> clock_ok instant -> exists p', on_reassembled p r timestamp instant = Some p' /\ steps detection p p'.
Proof.
  intros Hp Hi. unfold on_reassembled. destruct (decode_transport_bytes_ok (re_data r) (re_protocol r)) as (d & -> & Hd).
  cbn [mbind option_bind]. set (pkt := mkPacketSummary _ _ _ _ _ _ _).
  destruct (pipeline_observe_step p pkt instant Hp Hi) as (p1 & id & -> & H1); [by apply tcp_segment_ok|].
  eexists. by split.
Qed.

Lemma track_step p d timestamp instant :
  pipeline_inv p -> clock_ok instant -> decoded_wf d -> exists p' id, track p d timestamp instant = Some (p', id) /\ steps detection p p'.
Proof.
  intros Hp Hi Hd. unfold track. destruct (d_network d) as [network|] eqn:En; [|eexists _, _; split; [done|by apply steps_refl]].
  destruct (net_is_fragment network).
  - set (pkt := mkPacketSummary _ _ _ _ _ _ _). destruct (pipeline_observe_step p pkt instant Hp Hi) as (p1 & id & -> & H1); [done|].
    cbn [mbind option_bind]. unfold defragment.
    destruct (defrag_push_ok (p_defrag p1) (fragment_view network d) timestamp
      (for_destination (p_policy p1) (net_destination network)) (pi_defrag p1 (proj1 H1))) as (de & out & -> & Hpost).
    { pose proof (dw_offset d Hd network En) as Ho. unfold fragment_ok, fragment_view. by destruct network. }
    cbn [mbind option_bind]. set (p2 := set_defrag p1 de). assert (steps detection p1 p2) as H2.
    { destruct H1 as [[] _]. apply steps_quiet; [|by destruct p1..]. unfold p2. destruct p1; constructor; cbn in *; try done.
      apply Hpost. }
    destruct out as [r|].
    + destruct (on_reassembled_step p2 r timestamp instant (proj1 H2) Hi) as (p3 & -> & H3). cbn [mbind option_bind].
      eexists _, _. split; [done|]. eapply steps_trans; [exact H1|]. by eapply steps_trans.
    + cbn [mbind option_bind]. eexists _, _. split; [done|]. by eapply steps_trans.
  - set (pkt := mkPacketSummary _ _ _ _ _ _ _).
    destruct (pipeline_observe_step p pkt instant Hp Hi) as (p1 & id & -> & H1); [apply tcp_segment_ok, Hd|].
    eexists _, _. by split.
Qed.

(** *** Ended flows *)

Lemma emit_flow_step p e : pipeline_inv p -> steps (eq Flow) p (emit_flow p e).
Proof.
  intros Hp. unfold emit_flow. destruct (oriented_tuple (ended_flow e)) as [a b]. by apply steps_emit.
Qed.

Lemma on_flow_ends_arms (e : Engine) (l : list EndedFlow) :
  arms (foldl (fun e f => on_flow_end e (Flow.id (ended_flow f))) e l) = arms e.
Proof. revert e. induction l as [|f l IH]; intros e; [done|]. cbn [foldl]. by rewrite IH. Qed.

Lemma on_flow_ends_inv (e : Engine) (l : list EndedFlow) :
  engine_inv e -> engine_inv (foldl (fun e f => on_flow_end e (Flow.id (ended_flow f))) e l).
Proof.
  revert e. induction l as [|f l IH]; intros e He; [done|]. cbn [foldl]. apply IH.
  by destruct (engine_step_inv e (IFlowEnd (Flow.id (ended_flow f))) He) as (e' & a & [= <- _] & ? & _).
Qed.

Lemma take_final_deliveries_step p : pipeline_inv p -> steps (eq Flow) p (take_final_deliveries p) /\
  p_flows (take_final_deliveries p) = p_flows p.
Proof.
  intros Hp. unfold take_final_deliveries. set (l := ended (p_flows p)).
  assert (Hf : forall l p, pipeline_inv p -> steps (eq Flow) p (foldl take_tail p l) /\ p_flows (foldl take_tail p l) = p_flows p /\
    p_engine (foldl take_tail p l) = p_engine p).
  { clear. intros l. induction l as [|e l IH]; intros p Hp; [split; [by apply steps_refl|done]|]. cbn [foldl].
    assert (steps (eq Flow) p (take_tail p e) /\ p_flows (take_tail p e) = p_flows p /\ p_engine (take_tail p e) = p_engine p) as (H1 & H2 & H3).
    { unfold take_tail. destruct (StreamReady_is_empty _); [split; [by apply steps_refl|done]|].
      split; [|by destruct p]. apply steps_quiet; [|by destruct p..]. by destruct Hp, p; constructor. }
    destruct (IH (take_tail p e) (proj1 H1)) as (H4 & H5 & H6). split; [by eapply steps_trans|]. by rewrite H5, H6. }
  destruct (Hf l p Hp) as (H1 & H2 & H3). set (q := foldl take_tail p l) in *. clearbody q.
  destruct (p_engine q) as [e|] eqn:Ee; [|done]. split; [|by destruct q].
  eapply steps_trans; [exact H1|]. apply steps_quiet; [|by destruct q..|rewrite Ee; destruct q; cbn; by rewrite on_flow_ends_arms].
  apply set_engine_inv; [by destruct H1|]. apply on_flow_ends_inv. eapply pi_engine; [by destruct H1|done].
Qed.

(** The drain empties the list of ended flows; it emits one event per flow, or none when they are off. *)
Lemma drain_ended_flows_step p :
  pipeline_inv p -> steps (eq Flow) p (drain_ended_flows p) /\ ended (p_flows (drain_ended_flows p)) = [] /\
  len (p_emitted (drain_ended_flows p)) =
    len (p_emitted p) + (if emit_flow_events (p_options p) then len (ended (p_flows p)) else 0).
Proof.
  intros Hp. unfold drain_ended_flows. case_bool_decide as He.
  { split; [by apply steps_refl|]. split; [done|]. rewrite He. cbn. case_match; lia. }
  destruct (take_final_deliveries_step p Hp) as [H1 Hfl]. set (q := take_final_deliveries p) in *.
  assert (Hev : p_emitted q = p_emitted p).
  { unfold q, take_final_deliveries.
    assert (Hg : forall l p, p_emitted (foldl take_tail p l) = p_emitted p).
    { clear. intros l. induction l as [|e l IH]; intros p; [done|]. cbn [foldl]. rewrite IH. unfold take_tail.
      by destruct (StreamReady_is_empty _), p. }
    destruct (p_engine (foldl take_tail p (ended (p_flows p)))); [|by rewrite Hg]. rewrite <- (Hg (ended (p_flows p)) p). by destruct (foldl take_tail p _). }
  clearbody q. set (q1 := set_flow_table q (clear_ended (p_flows q))).
  assert (steps (eq Flow) q q1) as H2.
  { destruct H1 as [[] _]. apply steps_quiet; [|by destruct q..]. unfold q1. destruct q; constructor; cbn in *; try done.
    destruct pi_flows0 as [[] ?]. split; [by constructor|done]. }
  assert (Hopt : p_options q1 = p_options p) by (destruct H1 as (_ & [<- _ _] & _); by destruct q).
  rewrite Hopt. destruct (emit_flow_events (p_options p)); cbn [negb].
  - assert (Hl : forall l p, ended (p_flows (foldl emit_flow p l)) = ended (p_flows p) /\
      len (p_emitted (foldl emit_flow p l)) = len (p_emitted p) + len l).
    { clear. intros l. induction l as [|e l IH]; intros p; [cbn; split; [done|lia]|]. cbn [foldl].
      destruct (IH (emit_flow p e)) as [-> ->]. unfold emit_flow. destruct (oriented_tuple _), p. cbn.
      rewrite length_app. cbn. split; [done|lia]. }
    destruct (Hl (ended (p_flows q)) q1) as [-> ->]. split; [|split].
    + eapply steps_trans; [exact H1|]. eapply steps_trans; [exact H2|].
      apply foldl_steps; [apply emit_flow_step|by destruct H2].
    + by destruct q.
    + rewrite Hfl, <- Hev. by destruct q.
  - split; [by eapply steps_trans|]. split; [by destruct q|]. rewrite <- Hev. destruct q. cbn. lia.
Qed.

(** *** A packet *)

Lemma set_decode_step kinds p d : pipeline_inv p -> decoded_wf d -> steps kinds p (set_decode p (record (p_decode p) d)).
Proof.
  intros [] Hd. apply steps_quiet; [|by destruct p..]. destruct p; constructor; cbn in *; try done. by apply record_wf.
Qed.

Lemma emit_anomaly_step p packet d id : pipeline_inv p ->
  exists e, emit_anomaly p packet d id = hand_over p e /\ ev_event_type e = Anomaly /\ claims_block e = false.
Proof.
  intros _. unfold emit_anomaly. eexists. split; [reflexivity|]. by destruct (five_tuple d), id.
Qed.

(** What [on_packet] emits: the detections, then at most one anomaly, then the flows that ended. *)
Lemma on_packet_step p packet instant :
  pipeline_inv p -> clock_ok instant -> Forall in_u8 (raw_data packet) ->
  exists p' found odd over, on_packet p packet instant = Some p' /\ pipeline_inv p' /\ kept p p' /\
    p_emitted p' = p_emitted p ++ found ++ odd ++ over /\ ended (p_flows p') = [] /\
    Forall (emits detection p') found /\ Forall (emits (eq Anomaly) p') odd /\ (length odd <= 1)%nat /\
    Forall (emits (eq Flow) p') over.
Proof.
  intros Hp Hi Hu. unfold on_packet. destruct (decode_ok (raw_data packet) (raw_original_len packet) Hu) as (d & -> & Hd & _).
  cbn [mbind option_bind]. destruct (set_decode_step detection p d Hp Hd) as (Hp1 & K1 & l1 & E1 & F1).
  destruct (track_step _ d (raw_timestamp packet) instant Hp1 Hi Hd) as (p2 & id & -> & Hp2 & K2 & l2 & E2 & F2).
  cbn [mbind option_bind]. set (p3 := if _ && _ then _ else p2).
  assert (exists odd, pipeline_inv p3 /\ kept p2 p3 /\ p_emitted p3 = p_emitted p2 ++ odd /\
    Forall (emits (eq Anomaly) p3) odd /\ (length odd <= 1)%nat) as (odd & Hp3 & K3 & E3 & F3 & L3).
  { unfold p3. destruct (_ && _).
    - destruct (emit_anomaly_step p2 packet d id Hp2) as (e & -> & He & Hb). exists [e].
      destruct (steps_emit (eq Anomaly) p2 e Hp2 (eq_sym He) Hb) as (H1 & H2 & _). split; [done|]. split; [done|].
      split; [by destruct p2|]. split; [|done]. constructor; [|done]. split; [done|]. intros Hc. congruence.
    - exists []. rewrite app_nil_r. split; [done|]. split; [done|]. split; [done|]. split; [done|]. cbn. lia. }
  destruct (drain_ended_flows_step p3 Hp3) as ((Hp4 & K4 & l4 & E4 & F4) & Hen & _).
  assert (K23 : kept p2 (drain_ended_flows p3)) by (by etrans). assert (K13 := transitivity K2 K23).
  exists (drain_ended_flows p3), (l1 ++ l2), odd, l4. split; [done|]. split; [done|]. split; [by etrans|].
  split; [rewrite E4, E3, E2, E1; by rewrite <- !app_assoc|]. split; [done|].
  split; [apply Forall_app; split; [exact (emits_stays _ _ _ _ K13 F1)|exact (emits_stays _ _ _ _ K23 F2)]|].
  split; [exact (emits_stays _ _ _ _ K4 F3)|]. by split.
Qed.

(** C23: whatever bytes a packet has, while the clock is within its first 2^62 seconds, the sensor handles
    it without a panic and keeps every invariant of its components; and an attacker does not choose how many anomalies the sensor reports for it: the
    events of one packet are the alerts and incidents it caused, then at most one anomaly event however
    much is wrong with it, then the flows its arrival ended. *)
Theorem packet_events p packet instant :
  pipeline_inv p -> clock_ok instant -> Forall in_u8 (raw_data packet) ->
  exists p' found odd over, on_packet p packet instant = Some p' /\ pipeline_inv p' /\
    p_emitted p' = p_emitted p ++ found ++ odd ++ over /\
    Forall (fun e => detection (ev_event_type e)) found /\
    Forall (fun e => ev_event_type e = Anomaly) odd /\ (length odd <= 1)%nat /\
    Forall (fun e => ev_event_type e = Flow) over.
Proof.
  intros Hp Hi Hu. destruct (on_packet_step p packet instant Hp Hi Hu) as (p' & f & o & v & ? & ? & _ & ? & _ & Hf & Ho & ? & Hv).
  exists p', f, o, v. apply emits_kinds in Hf, Ho, Hv. split_and!; try done; eapply Forall_impl; try done; by intros e <-.
Qed.

(** *** Host events *)

Definition any_kind (k : EventKind) : Prop := True.

Lemma steps_any kinds p p' : steps kinds p p' -> steps any_kind p p'.
Proof.
  intros (Hp & Ho & l & E & F). split; [done|]. split; [done|]. exists l. split; [done|].
  eapply Forall_impl; [exact F|]. by intros e [_ He].
Qed.

Lemma inspect_and_emit_host_step p o kind summary timestamp :
  pipeline_inv p -> exists p', inspect_and_emit_host p o kind summary timestamp = Some p' /\ steps any_kind p p'.
Proof.
  intros Hp. unfold inspect_and_emit_host.
  assert (exists p1 records, match p_engine p with
      | Some e => '(e, alerts) ← inspect_host e o timestamp; Some (set_engine p (Some e), alerts)
      | None => Some (p, []) end = Some (p1, records) /\ steps any_kind p p1) as (p1 & records & -> & H1).
  { destruct (p_engine p) as [e|] eqn:Ee; [|eexists _, _; split; [done|by apply steps_refl]].
    destruct (engine_step_inv e (IHost o timestamp) (pi_engine p Hp e Ee)) as (e' & alerts & E & He & Hr).
    cbn [engine_step] in E. rewrite E. cbn [mbind option_bind]. eexists _, _. split; [done|].
    apply steps_quiet; [by apply set_engine_inv|by destruct p..|]. rewrite Ee. destruct p. cbn. by rewrite (same_rules_arms _ _ Hr). }
  cbn [mbind option_bind]. set (p2 := add_host_alerts p1 (len records)).
  assert (steps any_kind p1 p2) as H2.
  { destruct H1 as [[] _]. apply steps_quiet; [|by destruct p1..]. unfold p2. by destruct p1; constructor. }
  assert (steps any_kind p2 (foldl (emit_host_alert timestamp) p2 records)) as H3.
  { apply foldl_steps; [|by destruct H2]. intros q r Hq. by apply steps_emit. }
  destruct (match records with [] => _ | _ => _ end) as [[sid severity] text'].
  destruct (correlate_step _ Correlation.Host kind sid severity text' timestamp (proj1 H3)) as (p4 & -> & H4).
  eexists. split; [done|]. eapply steps_trans; [exact H1|]. eapply steps_trans; [exact H2|].
  eapply steps_trans; [exact H3|]. by eapply steps_any.
Qed.

Lemma host_event_step p o kind summary payload wall :
  (forall a, payload <> PlAlert a) -> pipeline_inv p -> exists p', host_event p o kind summary payload wall = Some p' /\ steps any_kind p p'.
Proof.
  intros Hn Hp. unfold host_event. destruct (inspect_and_emit_host_step p o kind summary wall Hp) as (p1 & -> & H1).
  cbn [mbind option_bind]. eexists. split; [done|]. eapply steps_trans; [exact H1|]. apply steps_emit; [by destruct H1|done|].
  destruct payload; try done. by edestruct Hn.
Qed.

Lemma emit_host_batch_step p batch wall :
  pipeline_inv p -> exists p', emit_host_batch p batch wall = Some p' /\ steps any_kind p p'.
Proof.
  intros Hp. unfold emit_host_batch. set (p1 := foldl _ p _). assert (steps any_kind p p1) as H1.
  { apply foldl_steps; [|done]. intros q _ Hq. by apply steps_emit. }
  clearbody p1. destruct (each_steps any_kind (fun p e => host_event p (HFim e) Fim (fim_summary e) (PlFim e) (wall (next_reading p)))
    (hb_fim batch) p1) as (p2 & -> & H2); [intros; by apply host_event_step|by destruct H1|]. cbn [mbind option_bind].
  destruct (each_steps any_kind (fun p e => host_event p (HAuth e) Auth (auth_summary e) (PlAuth e) (wall (next_reading p)))
    (hb_auth batch) p2) as (p3 & -> & H3); [intros; by apply host_event_step|by destruct H2|]. cbn [mbind option_bind].
  destruct (each_steps any_kind (fun p e => host_event p (HProcess e) Process (process_summary e) (PlProcess e) (wall (next_reading p)))
    (hb_process batch) p3) as (p4 & -> & H4); [intros; by apply host_event_step|by destruct H3|].
  eexists. split; [done|]. eapply steps_trans; [exact H1|]. eapply steps_trans; [exact H2|]. by eapply steps_trans.
Qed.

Lemma pipeline_flush_step p : pipeline_inv p -> exists p', pipeline_flush p = Some p' /\ steps any_kind p p'.
Proof.
  intros Hp. unfold pipeline_flush. destruct (pi_flows p Hp) as [Ht Hc].
  destruct (flush_ok (p_flows p) Ht) as (t & -> & Hf & Hs & _). cbn [mbind option_bind].
  set (p1 := set_flow_table p t). assert (steps any_kind p p1) as H1.
  { apply steps_quiet; [|by destruct p..]. unfold p1. destruct Hp, p; constructor; cbn in *; try done. split.
    - constructor; rewrite Hf; [apply map_Forall_empty..|]. by rewrite Hs, map_zsum_empty.
    - unfold table_len. rewrite Hf, map_size_empty. lia. }
  eexists. split; [done|]. eapply steps_trans; [exact H1|]. eapply steps_any, drain_ended_flows_step. by destruct H1.
Qed.

(** *** Every run *)

Inductive PipelineInput :=
| InPacket (packet : RawPacket) (instant : nat -> Z)
| InHost (batch : HostBatch) (wall : nat -> Z)
| InFlush.

Definition input_ok (i : PipelineInput) : Prop :=
  match i with InPacket packet instant => Forall in_u8 (raw_data packet) /\ clock_ok instant | _ => True end.

Definition pipeline_step (p : PacketPipeline) (i : PipelineInput) : option PacketPipeline :=
  match i with
  | InPacket packet instant => on_packet p packet instant
  | InHost batch wall => emit_host_batch p batch wall
  | InFlush => pipeline_flush p
  end.

Fixpoint pipeline_run (p : PacketPipeline) (inputs : list PipelineInput) : option PacketPipeline :=
  match inputs with [] => Some p | i :: inputs' => p ← pipeline_step p i; pipeline_run p inputs' end.

Lemma pipeline_step_ok p i :
  pipeline_inv p -> input_ok i -> exists p', pipeline_step p i = Some p' /\ steps any_kind p p'.
Proof.
  intros Hp Hi. destruct i as [packet instant|batch wall|]; cbn in *.
  - destruct Hi as [Hu Hi]. destruct (on_packet_step p packet instant Hp Hi Hu) as (p' & f & o & v & E & Hp' & K & Ev & _ & Hf & Ho & _ & Hv).
    exists p'. split; [done|]. split; [done|]. split; [done|]. eexists. split; [exact Ev|].
    rewrite !Forall_app. split_and!; (eapply Forall_impl; [eassumption|]); by intros e [_ He].
  - by apply emit_host_batch_step.
  - by apply pipeline_flush_step.
Qed.

Lemma pipeline_run_ok p inputs :
  pipeline_inv p -> Forall input_ok inputs -> exists p', pipeline_run p inputs = Some p' /\ steps any_kind p p'.
Proof.
  intros Hp Hi. revert p Hp. induction Hi as [|i inputs Hi _ IH]; intros p Hp.
  - exists p. split; [done|]. by apply steps_refl.
  - cbn [pipeline_run]. destruct (pipeline_step_ok p i Hp Hi) as (p1 & -> & H1). cbn [mbind option_bind].
    destruct (IH p1 (proj1 H1)) as (p2 & -> & H2). exists p2. split; [done|]. by eapply steps_trans.
Qed.
End facts.
