(* ===== verification/Sensor.v ===== *)
(** The running sensor: [crates/cli/src/run.rs], what it builds from a configuration and the rule
    files, and the steps its threads take on the shared state.

    The packet loop and the host-only loop are the steps [Feed]; the verdict thread, which shares the
    prevention store with them behind a lock, is the step [Judge]; the reading of the queue's depth
    while counters are published is the step [Depth]; a thread that panics with that lock is the step
    [Poison]. A run is any interleaving of such steps.
    [host_starts] says whether the host sensor could be started. The loops themselves are in [Run], the
    opening of sinks and of the capture in [Startup]. *)

From S2P Require Import Prelude Text Clock Net Event Process HostSensor Config Settings Policy Stream Flow Decode Defrag Normalize Fim RuleModel Vars Eval Parser ParserWf Loader Compile Host Engine Prevent Kernel Correlation Pipeline PipelineFacts.

Section sensor.
Context {EP : Etherparse} `{RegexLib, AhoCorasickLib, !HashOrder Z, !HashOrder Flow.FlowKey, !HashOrder FragmentKey}.

(** ** Building *)

(** [build_engine]. *)
Definition engine_limits (c : Config) : EngineLimits :=
  mkEngineLimits
    (mkCompileLimits (Settings.regex_size_limit (detect c)) (Settings.regex_dfa_size_limit (detect c)))
    (max_flow_states (detect c)) (max_flowbits_per_flow (detect c)) (inspection_window (detect c))
    (max_threshold_entries (detect c))
    (mkNormalizeOptions (Z.to_nat (Settings.decode_rounds (normalize c))) (Settings.collapse_path (normalize c))
       (Settings.backslash_is_separator (normalize c)))
    (el_max_http_head EngineLimits_default).

Definition build_engine (c : Config) (set : RuleSet) : option (Engine * CompileReport) :=
  engine_new (rset_rules set) (mkVarTable (address_groups (vars c)) (port_groups (vars c))) (engine_limits c).

(** [host_settings]: [None] when there is nothing to watch. *)
Definition host_settings (c : Config) : option HostSettings :=
  let h := hids c in
  if negb (hids_enabled h) then None
  else
    let f := Settings.fim h in
    let fim :=
      if fim_enabled f
      then Some (mkFimSettings (as_bytes <$> fim_paths f) (Some (baseline f)) (secs (rescan_interval_secs f)) (max_file_bytes f)
                   (max_depth f) (max_entries f))
      else None in
    let a := Settings.auth h in
    let pr := Settings.process h in
    let settings :=
      mkHostSettings fim (if auth_enabled a then auth_files a else []) (auth_enabled a && journald a) (proc_root pr)
        (process_enabled pr) (secs (process_interval_secs pr)) (mkScanLimits (max_processes pr) (max_sockets pr)) in
    if bool_decide (is_Some (hs_fim settings)) || negb (bool_decide (hs_auth_files settings = [])) ||
       hs_journald settings || hs_process_monitoring settings
    then Some settings else None.

(** [start_prevention], less what it logs. *)
Definition prevention_settings (c : PreventConfig) : PreventionSettings :=
  mkSettings
    (if bool_decide (prevent_mode c = of_string "prevent") then Prevent else Detect)
    (if bool_decide (prevent_fail_mode c = of_string "closed") then Closed else Open)
    (omap (fun e => match from_str e with inr n => Some n | inl _ => None end) (Settings.allow_list c))
    (secs (source_block_secs c)) (Settings.max_blocked_flows c) (Settings.max_blocked_sources c).

Definition start_prevention (c : Config) : option Prevention :=
  if negb (prevent_enabled (prevent c)) then None else Some (Prevent.new (prevention_settings (prevent c))).

(** [attach_host_monitoring]. *)
Definition correlation_settings (c : CorrelationConfig) : CorrelationSettings :=
  mkCorrelationSettings (secs (window_secs c)) (correlation_max_hosts c) (correlation_max_per_host c)
    (secs (cooldown_secs c)).

Definition attach_host_monitoring (c : Config) (host_starts : bool) (p : PacketPipeline) : PacketPipeline :=
  match host_settings c with
  | None => p
  | Some _ =>
      let correlator :=
        if correlation_enabled (correlation c) then Some (Correlation.new (correlation_settings (correlation c))) else None in
      if host_starts then attach_host p correlator else p
  end.

(** The start of [main_loop]: the pipeline with what the configuration switches on. *)
Definition assemble (c : Config) (host_starts : bool) (info : SensorInfo) (engine : Engine) (report : CompileReport) :
    PacketPipeline :=
  let p := pipeline_new info (Settings.max_flows (flow c)) (timeout_secs (flow c)) (Settings.reassembly c)
             (mkPipelineOptions (decode_emit_anomaly_events (Settings.decode c)) (emit_events (flow c))) in
  let p := if detect_enabled (detect c) then arm p engine report else p in
  let p := attach_host_monitoring c host_starts p in
  match start_prevention c with
  | Some store => arm_prevention p store (queue (prevent c))
  | None => p
  end.

(** [run]: the rules are loaded and compiled, then the pipeline is built; with [strict] a rule that
    fails to load or to compile stops the start. *)
Definition start (c : Config) (read : text -> text + text) (strict host_starts : bool) (info : SensorInfo) :
    option (Z + PacketPipeline) :=
  '(set, report) ← load_files read (rule_files (Settings.rules c));
  '(engine, compile_report) ← build_engine c set;
  let problems := len (lr_skipped report) + len (rep_failed compile_report) in
  if strict && (0 <? problems) then Some (inl problems)
  else Some (inr (assemble c host_starts info engine compile_report)).

(** ** Steps of the threads *)

Inductive SensorStep :=
| Feed (i : PipelineInput)
| Judge (packet : QueuedPacket) (clock : ClockReading)
| Depth (d : QueueDepth)
| Poison.

Definition step_ok (s : SensorStep) : Prop := match s with Feed i => input_ok i | _ => True end.

(** One packet of the verdict thread: the verdict the kernel is given, and none when the lock is not
    to be had. *)
Definition verdict (p : PacketPipeline) (packet : QueuedPacket) (clock : ClockReading) : PacketPipeline * option Decision :=
  match p_prevention p with
  | None => (p, None)
  | Some store =>
      if p_poisoned p then (p, None) else
      let '(_, store, decision) := judge_and_resolve (offline_new []) store packet clock in
      (set_prevention p (Some store), Some decision)
  end.

Definition sensor_step (p : PacketPipeline) (s : SensorStep) : option PacketPipeline :=
  match s with
  | Feed i => pipeline_step p i
  | Judge packet clock => Some (verdict p packet clock).1
  | Depth d =>
      Some match p_prevention p with
           | Some store => if p_poisoned p then p else set_prevention p (Some (record_queue_depth store d))
           | None => p
           end
  | Poison => Some (poison p)
  end.

Fixpoint sensor_run (p : PacketPipeline) (l : list SensorStep) : option PacketPipeline :=
  match l with [] => Some p | s :: l' => p ← sensor_step p s; sensor_run p l' end.

(** ** What is built *)

(** Every limit of the engine is what the validation promised. *)
Lemma engine_limits_wf c : config_typed c -> config_valid c -> limits_wf (engine_limits c).
Proof. intros [] []. unfold limits_wf, engine_limits, in_u64 in *. cbn. lia. Qed.

(** The rules of a load compile into an engine that keeps its invariant. *)
Lemma build_engine_ok c read :
  config_typed c -> config_valid c ->
  exists set report e rep, load_files read (rule_files (Settings.rules c)) = Some (set, report) /\
    build_engine c set = Some (e, rep) /\ engine_inv e.
Proof.
  intros Ht Hv. destruct (load_paths_inv read (rule_files (Settings.rules c)) _ load_inv_new) as ([set report] & E & Hi & _).
  destruct (engine_new_inv (rset_rules set) (mkVarTable (address_groups (vars c)) (port_groups (vars c))) (engine_limits c))
    as (e & rep & Ee & He); [by apply engine_limits_wf| |exists set, report, e, rep; split; [exact E|by split]].
  eapply Forall_impl; [exact (li_wf _ Hi)|]. intros r [Hr _] th Eth. by destruct (rw_threshold r Hr th Eth) as [[? _] _].
Qed.

(** The conditions the validation does not check: the correlator may keep an observation of a host, and
    a block of a source lapses, and the next sweep of the processes comes, at an instant that exists. *)
Definition operable (c : Config) : Prop :=
  1 <= correlation_max_per_host (correlation c) /\ source_block_secs (prevent c) < 2 ^ 62 /\
  process_interval_secs (Settings.process (hids c)) < 2 ^ 62.

Lemma assemble_inv c host_starts info e rep :
  operable c -> engine_inv e -> pipeline_inv (assemble c host_starts info e rep).
Proof.
  intros (Hc & Hb & _) He. unfold assemble. set (p0 := pipeline_new _ _ _ _ _).
  assert (pipeline_inv p0) as H0'.
  { constructor; cbn; try done; [apply with_reassembly_wf|apply new_defrag_wf]. }
  set (p1 := if _ : bool then _ else p0). assert (pipeline_inv p1) as H1.
  { unfold p1. destruct (detect_enabled _); [|done]. destruct H0'. by constructor; cbn in *; try done; intros ? [= <-]. }
  set (p2 := attach_host_monitoring c host_starts p1). assert (pipeline_inv p2) as H2.
  { unfold p2, attach_host_monitoring. destruct (host_settings c); [|done]. destruct host_starts; [|done].
    destruct H1. destruct p1. constructor; cbn in *; try done. intros cor. destruct (correlation_enabled _); [|done].
    intros [= <-]. split; [apply new_corr_inv|done]. }
  unfold start_prevention. destruct (prevent_enabled _); cbn; [|done]. destruct H2. destruct p2.
  constructor; cbn in *; try done. intros ? [= <-]. split; [apply Prevent.new_inv|]. cbn. unfold LONGEST_BLOCK, secs. lia.
Qed.

(** ** Every run *)

Lemma set_prevention_inv p store :
  pipeline_inv p -> store_inv store -> source_block (Prevent.settings store) <= LONGEST_BLOCK -> pipeline_inv (set_prevention p (Some store)).
Proof. intros [] Hs. destruct p. constructor; cbn in *; try done. by intros ? [= <-]. Qed.

(** A change of the store that keeps its settings and its flow verdicts. *)
Lemma steps_store p store store' :
  pipeline_inv p -> p_prevention p = Some store -> store_inv store' ->
  Prevent.settings store' = Prevent.settings store -> Prevent.flows store' = Prevent.flows store ->
  steps any_kind p (set_prevention p (Some store')).
Proof.
  intros Hp Es Hi E1 E2. split; [apply set_prevention_inv; try done; rewrite E1; by apply (pi_prevention p Hp)|]. split.
  - split; [by destruct p| |by destruct p|apply commands_same; by destruct p]. rewrite Es. destruct p. cbn. by rewrite E2.
  - exists []. rewrite app_nil_r. split; [by destruct p|done].
Qed.

Lemma sensor_step_ok p s :
  pipeline_inv p -> step_ok s -> exists p', sensor_step p s = Some p' /\ steps any_kind p p'.
Proof.
  intros Hp Hs. destruct s as [i|packet clock|d|]; cbn [sensor_step].
  - by apply pipeline_step_ok.
  - eexists. split; [done|]. unfold verdict. destruct (p_prevention p) as [store|] eqn:Es; [|by apply steps_refl].
    destruct (p_poisoned p); [by apply steps_refl|]. destruct (pi_prevention p Hp _ Es) as [Hst _].
    unfold judge_and_resolve, judge. destruct (decide_tables store (tuple packet) (judged_at clock)) as (E1 & E2 & _).
    destruct (run_op_inv store (DecideOp (tuple packet) (judged_at clock)) _ Hst eq_refl) as [H1 _].
    destruct (decide store (tuple packet) (judged_at clock)) as [store' d]. cbn in *.
    apply (steps_store p store); [done..| |done|done]. by apply (run_op_inv store' (LatencyOp (to_u64 (elapsed_micros packet clock)))).
  - eexists. split; [done|]. destruct (p_prevention p) as [store|] eqn:Es; [|by apply steps_refl].
    destruct (p_poisoned p); [by apply steps_refl|]. destruct (pi_prevention p Hp _ Es) as [Hst _].
    apply (steps_store p store); [done..| |done|done]. by apply (run_op_inv store (DepthOp d)).
  - eexists. split; [done|]. apply steps_quiet; [|by destruct p..]. by destruct Hp, p; constructor.
Qed.

Lemma sensor_run_ok p l :
  pipeline_inv p -> Forall step_ok l -> exists p', sensor_run p l = Some p' /\ steps any_kind p p'.
Proof.
  intros Hp Hl. revert p Hp. induction Hl as [|s l Hs _ IH]; intros p Hp.
  - exists p. split; [done|]. by apply steps_refl.
  - cbn [sensor_run]. destruct (sensor_step_ok p s Hp Hs) as (p1 & -> & H1). cbn [mbind option_bind].
    destruct (IH p1 (proj1 H1)) as (p2 & -> & H2). exists p2. split; [done|]. by eapply steps_trans.
Qed.

Lemma sensor_run_keeps p l p' :
  pipeline_inv p -> Forall step_ok l -> sensor_run p l = Some p' -> steps any_kind p p'.
Proof. intros Hp Hl Hr. destruct (sensor_run_ok p l Hp Hl) as (p1 & E & H1). by simplify_eq. Qed.

(** C3: the whole sensor is total. Take any configuration the validation accepts in which the
    correlation keeps at least one observation per host and a source is blocked, and the process table
    left alone, for less than 2^62 seconds, conditions the validation does not check; any rule files, readable or not and whatever
    their text says; and any sequence of packets with any bytes, at any reading of the monotonic clock up
    to 2^62 seconds, host events, verdicts asked by the kernel, readings of the queue's depth, a poisoned
    lock and the flush of the shutdown, interleaved in any way: the sensor starts, or refuses to because
    of [--strict] and a rule that failed, and then handles every step without a panic, keeping the
    invariants of the flow table, the defragmenter, the counters, the engine, the correlator and the
    verdict store. *)
Theorem sensor_never_panics c read strict host_starts info l :
  config_typed c -> check_config c = inr tt -> operable c -> Forall step_ok l ->
  exists r, start c read strict host_starts info = Some r /\
    match r with
    | inl problems => strict = true /\ 0 < problems
    | inr p => exists p', sensor_run p l = Some p' /\ pipeline_inv p'
    end.
Proof.
  intros Ht Hc Hco Hl. apply check_config_spec in Hc as Hv; [|done].
  destruct (build_engine_ok c read Ht Hv) as (set & report & e & rep & E1 & E2 & He).
  unfold start. rewrite E1. cbn [mbind option_bind]. rewrite E2. cbn [mbind option_bind].
  destruct (strict && (0 <? _)) eqn:Es; eexists; (split; [done|]).
  - bsimpl. split; [done|lia].
  - destruct (sensor_run_ok (assemble c host_starts info e rep) l) as (p' & E & H1); [by apply assemble_inv|done|].
    exists p'. split; [done|]. by destruct H1.
Qed.

(** *** Enforcement *)

Lemma condemned_drops s t now : condemned s t -> (decide s t now).2 = Drop FlowVerdict.
Proof.
  intros (Ha & Hs & Hd & Hk). unfold decide. set (q := set_stats s _). change (armed q) with (armed s).
  change (is_allow_listed q) with (is_allow_listed s). rewrite Ha, Hs, Hd. cbn. by rewrite bool_decide_true by (by apply elem_of_dom).
Qed.

Lemma condemned_reverse s t : condemned s t -> condemned s (reverse_tuple t).
Proof. intros (Ha & Hs & Hd & Hk). split_and!; try done. by rewrite from_tuple_reverse. Qed.

(** C10: an alert that says blocked is true. On any run of the sensor from a state with no events, if an
    emitted alert says that its traffic was blocked, then the sensor is armed, neither endpoint of the
    alert is on the allow-list, the kernel was told to block its source for the configured time, and from
    now on, at any time, the store decides to drop every packet of that conversation in both directions. *)
Theorem blocked_alert_is_enforced p l p' e :
  pipeline_inv p -> p_emitted p = [] -> Forall step_ok l -> sensor_run p l = Some p' ->
  e ∈ p_emitted p' -> claims_block e = true ->
  exists store t, p_prevention p' = Some store /\ carries e t /\ armed store = true /\
    is_allow_listed store (src_ip t) = false /\ is_allow_listed store (dest_ip t) = false /\
    add_element_args (src_ip t) (source_block_timeout store) ∈ p_commands p' /\
    forall now, (decide store t now).2 = Drop FlowVerdict /\ (decide store (reverse_tuple t) now).2 = Drop FlowVerdict.
Proof.
  intros Hp He Hl Hr Hin Hb. destruct (sensor_run_keeps p l p' Hp Hl Hr) as (_ & _ & evs & Ev & Hf).
  rewrite He in Ev. cbn in Ev. rewrite Ev, Forall_forall in *. destruct (Hf e Hin) as [_ Ht].
  destruct (Ht Hb) as (s & t & Es & Hcar & Hc & Hcmd). exists s, t. pose proof Hc as (Ha & Hsrc & Hdst & _).
  split_and!; try done. intros now. split; [by apply condemned_drops|]. by apply condemned_drops, condemned_reverse.
Qed.

(** A flow verdict never lapses while the sensor runs: once a conversation is condemned, whatever
    happens afterwards and however much time passes, its packets are dropped, and once as many
    conversations are condemned as the store may hold, no block is ever recorded again. *)
Theorem flow_verdicts_never_lapse p l p' store :
  pipeline_inv p -> Forall step_ok l -> sensor_run p l = Some p' -> p_prevention p = Some store ->
  exists store', p_prevention p' = Some store' /\
    (forall t, condemned store t -> forall now, (decide store' t now).2 = Drop FlowVerdict) /\
    (Prevent.max_blocked_flows (Prevent.settings store) <= Z.of_nat (size (Prevent.flows store)) ->
     forall t now store'' source, block store' t now <> Some (store'', Blocked source)).
Proof.
  intros Hp Hl Hr Es. destruct (sensor_run_keeps p l p' Hp Hl Hr) as (_ & [_ Hst _ _] & _). rewrite Es in Hst.
  destruct (p_prevention p') as [store'|]; [|done]. destruct Hst as [Eset Hsub]. exists store'. split; [done|]. split.
  - intros t Hc now. by eapply condemned_drops, condemned_stays.
  - intros Hfull t now store'' source Hb. destruct (block_cases store' t now store'' _ Hb) as [_ [((_ & _ & _ & Hlt & _) & _)|(_ & Hn & _)]];
      [|by edestruct Hn]. apply subseteq_size in Hsub. rewrite !size_dom, Eset in *. lia.
Qed.

(** *** What the configuration decides *)

Lemma start_inv c read strict host_starts info p :
  config_typed c -> check_config c = inr tt -> operable c -> start c read strict host_starts info = Some (inr p) ->
  pipeline_inv p /\ p_emitted p = [] /\ p_commands p = [] /\ p_prevention p = start_prevention c.
Proof.
  intros Ht Hc Hco Hs. apply check_config_spec in Hc as Hv; [|done].
  destruct (build_engine_ok c read Ht Hv) as (set & report & e & rep & E1 & E2 & He).
  unfold start in Hs. rewrite E1 in Hs. cbn [mbind option_bind] in Hs. rewrite E2 in Hs. cbn [mbind option_bind] in Hs.
  destruct (strict && _); simplify_eq. split; [by apply assemble_inv|]. unfold assemble, attach_host_monitoring, start_prevention.
  destruct (detect_enabled _), (host_settings c), host_starts, (prevent_enabled _); done.
Qed.

(** The networks of the configuration that must never be blocked. *)
Definition protected (c : Config) (a : IpAddr) : Prop :=
  exists entry n, entry ∈ Settings.allow_list (prevent c) /\ from_str entry = inr n /\ contains n a = true.

Lemma protected_allow_listed c store a :
  Prevent.settings store = prevention_settings (prevent c) -> protected c a -> is_allow_listed store a = true.
Proof.
  intros E (entry & n & Hin & En & Hc). unfold is_allow_listed. rewrite E. cbn. apply existsb_exists. exists n.
  split; [|done]. apply list_elem_of_In, list_elem_of_omap. exists entry. by rewrite En.
Qed.

(** C9: the configuration decides what may be dropped, and nothing else does. Whatever the rules say
    and whatever traffic arrives, on any run of a sensor started from an accepted configuration: the
    verdict path never drops a packet to or from a network of the allow-list, and no alert about such an
    address says blocked; the only addresses ever put into the kernel's set, whose packets the kernel
    drops by itself wherever they go, are outside the allow-list, each with the configured time; and
    unless prevention is enabled with the mode written [prevent], the verdict path drops no packet at
    all, no alert says blocked and no command is given to the kernel. *)
Theorem configuration_bounds_enforcement c read strict host_starts info p l p' :
  config_typed c -> check_config c = inr tt -> operable c ->
  start c read strict host_starts info = Some (inr p) -> Forall step_ok l -> sensor_run p l = Some p' ->
  (forall packet clock reason, (verdict p' packet clock).2 = Some (Drop reason) ->
     prevent_enabled (prevent c) = true /\ prevent_mode (prevent c) = of_string "prevent" /\
     ~ protected c (src_ip (tuple packet)) /\ ~ protected c (dest_ip (tuple packet))) /\
  (forall e, e ∈ p_emitted p' -> claims_block e = true ->
     prevent_enabled (prevent c) = true /\ prevent_mode (prevent c) = of_string "prevent" /\
     forall a, ev_src_ip e = Some a \/ ev_dest_ip e = Some a -> ~ protected c a) /\
  (forall args, args ∈ p_commands p' ->
     prevent_enabled (prevent c) = true /\ prevent_mode (prevent c) = of_string "prevent" /\
     exists a, args = add_element_args a (secs (source_block_secs (prevent c))) /\ ~ protected c a).
Proof.
  intros Ht Hc Hco Hs Hl Hr. destruct (start_inv c read strict host_starts info p Ht Hc Hco Hs) as (Hp & He & Ec & Es).
  destruct (sensor_run_keeps p l p' Hp Hl Hr) as (Hp1 & [_ Hst _ (cmds & Hcm & Hjust)] & evs & Ev & Hf).
  assert (Hset : forall store, p_prevention p' = Some store ->
    prevent_enabled (prevent c) = true /\ Prevent.settings store = prevention_settings (prevent c)).
  { intros store Eq. rewrite Eq, Es in Hst. unfold start_prevention in Hst. destruct (prevent_enabled _); [|done].
    by destruct Hst as [-> _]. }
  assert (Hmode : forall store, p_prevention p' = Some store -> armed store = true ->
    prevent_mode (prevent c) = of_string "prevent").
  { intros store Eq Ha. destruct (Hset store Eq) as [_ E']. unfold armed in Ha. rewrite E' in Ha.
    apply bool_decide_eq_true in Ha. unfold prevention_settings in Ha. cbn [mode] in Ha.
    destruct (bool_decide_reflect (prevent_mode (prevent c) = of_string "prevent")); [done|discriminate]. }
  assert (Hnot : forall store a, p_prevention p' = Some store -> is_allow_listed store a = false -> ~ protected c a).
  { intros store a Eq Ha Hpr. destruct (Hset store Eq) as [_ E']. by rewrite (protected_allow_listed c store a) in Ha. }
  split; [|split].
  - intros packet clock reason Hv. unfold verdict, judge_and_resolve, judge in Hv.
    destruct (p_prevention p') as [store|] eqn:Eq; [|done]. destruct (p_poisoned p'); [done|].
    destruct (decide store (tuple packet) (judged_at clock)) as [store' d] eqn:Ed. cbn in Hv. simplify_eq.
    destruct (decide_drop store (tuple packet) (judged_at clock) reason) as (Hm & H1 & H2 & _); [by rewrite Ed|].
    split; [by eapply Hset|]. split; [eapply Hmode; [done|by apply bool_decide_eq_true]|]. by split; eapply Hnot.
  - intros e Hin Hb. rewrite He in Ev. cbn in Ev. rewrite Ev, Forall_forall in *. destruct (Hf e Hin) as [_ Htr].
    destruct (Htr Hb) as (store & t & Eq & (C1 & _ & C2 & _) & (Ha & H1 & H2 & _) & _).
    split; [by eapply Hset|]. split; [by eapply Hmode|]. intros a [Hsrc|Hdst]; eapply Hnot; try done; congruence.
  - intros args Hin. rewrite Ec in Hcm. cbn in Hcm. rewrite Hcm in Hin.
    rewrite Forall_forall in Hjust. destruct (Hjust args Hin) as (store & t & Eq & (Ha & H1 & _) & ->). destruct (Hset store Eq) as [Hen Esb].
    split; [done|]. split; [by eapply Hmode|]. exists (src_ip t). split; [unfold source_block_timeout; by rewrite Esb|by eapply Hnot].
Qed.
End sensor.
