(* ===== verification/Detection.v ===== *)
(** Detection end to end: from a rule of the rule files and the bytes of a packet to the alert that is
    handed to the event log, and to the verdict on the packets that follow.

    The theorems compose what [Loader], [Compile], [Decode], [Flow], [Defrag], [Eval], [Engine], [Prevent]
    and [Pipeline] guarantee each on its own. A rule that looks for contents is [content_rule] as it was
    written and [seeks] once compiled. [announced] says that an event was emitted between two states of the
    pipeline, [answered] also that a conversation which may be blocked was condemned. [launched] and
    [deployed] are the hypotheses on the sensor: it started with an accepted configuration, and its rule
    files hold the rule. *)

From S2P Require Import Prelude Text Clock Net Event Config Settings Policy Stream Flow Decode Defrag RuleModel Vars Eval Parser ParserWf Loader Compile Host Engine Prevent Kernel Correlation Pipeline PipelineFacts Sensor.

(** ** Rules that look for bytes *)

Section contents.
Context `{RegexLib}.

(** A content of the payload with no condition on its place. *)
Definition plain (c : ContentMatch) : Prop :=
  cm_pattern c <> [] /\ cm_buffer c = RuleModel.Payload /\ cm_negated c = false /\
  cm_offset c = None /\ cm_depth c = None /\ cm_distance c = None /\ cm_within c = None.

(** A rule that alerts on every payload with its contents, in any order, and on nothing else. *)
Record seeks (rule : CompiledRule) (cs : list ContentMatch) : Prop := {
  sk_options : cr_options rule = CContent <$> cs;
  sk_plain : Forall plain cs;
  sk_no_threshold : cr_threshold rule = None;
  sk_alerts : cr_no_alert rule = false
}.

(** The same of a rule as it was written: contents alone, all of them supported. *)
Record content_rule (r : Rule) (cs : list ContentMatch) : Prop := {
  ct_options : r_options r = OContent <$> cs;
  ct_plain : Forall plain cs;
  ct_no_threshold : r_threshold r = None;
  ct_alerts : r_no_alert r = false;
  ct_evaluable : is_evaluable r = true
}.

(** What an alert of the rule says. *)
Definition rule_record (r : Rule) : AlertRecord :=
  mkAlertRecord (r_sid r) (r_rev r) (r_msg r) (r_classtype r) (RuleModel.severity r) (group_metadata (r_metadata r))
    (blocks (rh_action (r_header r))).

(** Such a rule compiles when its header resolves. *)
Lemma compile_contents limits cs : compile_options limits (OContent <$> cs) = inr (CContent <$> cs).
Proof. induction cs as [|c cs IH]; [done|]. rewrite !fmap_cons. cbn [compile_options compile_option]. by rewrite IH. Qed.

Lemma content_rule_compiles r cs vars limits header :
  content_rule r cs -> Vars.resolve (r_header r) vars = Some (inr header) ->
  exists entry, compile_rule r vars limits = Some (inr entry) /\ seeks entry cs /\ cr_header entry = header /\
    network_record entry = rule_record r.
Proof.
  intros [Ho Hp Ht Hn He] Hr. unfold compile_rule. rewrite He, Hr, Ho, compile_contents. cbn.
  eexists. split; [done|]. by split; [constructor|].
Qed.

Lemma compile_rule_record r vars limits entry : compile_rule r vars limits = Some (inr entry) -> network_record entry = rule_record r.
Proof.
  unfold compile_rule. destruct (negb _); [done|]. destruct (Vars.resolve _ _) as [[?|h]|]; cbn; [done| |done].
  destruct (compile_options _ _); [done|]. by intros [= <-].
Qed.

(** All of the contents stand in [bytes]. *)
Definition stand_in (cs : list ContentMatch) (bytes : list Z) : Prop :=
  Forall (fun c => occurs (cm_nocase c) (cm_pattern c) bytes) cs.

Lemma plain_match c h cursor :
  plain c -> 0 <= cursor <= len h -> len h < 2 ^ 62 ->
  exists ok cursor', match_content c h cursor = Some (ok, cursor') /\ 0 <= cursor' <= len h /\
    (ok = true <-> occurs (cm_nocase c) (cm_pattern c) h).
Proof.
  intros (Hp & _ & Hn & H1 & H2 & H3 & H4) Hc Hl.
  destruct (match_content_spec c h cursor) as (ok & cursor' & E & Hok & Hcur); [unfold content_wf; rewrite H1, H2, H3, H4; done|done..|].
  exists ok, cursor'. split; [exact E|].
  assert (forall p, occurs_at (cm_nocase c) (cm_pattern c) h p <->
    occurs_at (cm_nocase c) (cm_pattern c) h p /\ content_start c cursor <= p /\ p + len (cm_pattern c) <= content_end c (len h) cursor) as Hst.
  { intros p. unfold content_start, content_end, is_relative, occurs_at. rewrite H1, H2, H3, H4. split; [|tauto]. intros (? & ? & ?). split_and!; try done; cbn; lia. }
  rewrite Hn in Hok, Hcur. rewrite andb_true_r in Hcur. split.
  - destruct ok; [|by subst]. destruct Hcur as (p & Hp' & _ & ->). apply Hst in Hp' as (? & ? & _). lia.
  - rewrite Hok. unfold occurs. split; intros [p Hp']; exists p; by apply Hst.
Qed.

(** The loop of the evaluation on such contents: it says whether all of them stand in the payload. *)
Lemma eval_contents tuple established to_server h bits cs st :
  Forall plain cs -> len h < 2 ^ 62 -> 0 <= es_cursors st RuleModel.Payload <= len h ->
  let input := mkMatchInput tuple established to_server (payload_only h) in
  exists r, eval_options input bits st (CContent <$> cs) = Some r /\
    match r with
    | Some st' => es_side_effects st' = es_side_effects st /\ stand_in cs h
    | None => ~ stand_in cs h
    end.
Proof.
  intros Hp Hl Hc input. unfold stand_in. revert st Hc. induction Hp as [|c cs Hp Hps IH]; intros st Hc; [by eexists|].
  cbn [fmap list_fmap eval_options eval_option]. pose proof Hp as (_ & -> & _). change (Eval.get (mi_buffers input) RuleModel.Payload) with (Some h). cbn beta iota.
  destruct (plain_match c h _ Hp Hc Hl) as (ok & cur & -> & Hcur & Hok). cbn [mbind option_bind]. destruct ok.
  - set (st1 := mkEvalState _ _ _). destruct (IH st1) as (r & -> & Hr); [done|].
    exists r. split; [done|]. destruct r as [st'|].
    + destruct Hr as [Hs ?]. split; [exact Hs|]. constructor; [by apply Hok|done].
    + by intros [_ ?]%Forall_cons.
  - eexists. split; [done|]. intros [Ho _]%Forall_cons. by apply Hok in Ho.
Qed.

(** A rule that seeks contents matches exactly the payloads with all of them. *)
Lemma seeks_evaluate rule cs tuple established to_server h bits :
  seeks rule cs -> len h < 2 ^ 62 -> header_matches (cr_header rule) tuple = true -> stand_in cs h ->
  evaluate rule (mkMatchInput tuple established to_server (payload_only h)) bits = Some (Some []).
Proof.
  intros [Ho Hp _ _] Hl Hh Hs. unfold evaluate. cbn [mi_tuple]. rewrite Hh, Ho. cbn [negb].
  destruct (eval_contents tuple established to_server h bits cs eval_start Hp Hl) as (r & -> & Hr); [cbn; lia|].
  destruct r as [st|]; [|done]. cbn. by destruct Hr as [-> _].
Qed.
End contents.

(** ** The engine *)

Section engine.
Context `{RegexLib, AhoCorasickLib, !HashOrder Z}.

(** The engine's rules are those a compilation made, and its overlap is that of their longest pattern. *)
Definition compiled_engine (e : Engine) : Prop :=
  (exists rules vars limits rep, compile rules vars limits = Some (e_ruleset e, rep)) /\
  e_longest_pattern e = longest_pattern (e_ruleset e).

(** A match of a rule that alerts without a threshold is among the alerts. *)
Lemma settle_matches_alerts e tuple now l e' pending alerts i rule effects :
  settle_matches e tuple now l = Some (e', pending, alerts) -> (i, effects) ∈ l ->
  rs_rules (e_ruleset e) !! i = Some rule -> cr_threshold rule = None -> cr_no_alert rule = false ->
  network_record rule ∈ alerts.
Proof.
  intros E Hin Hi Ht Hn. revert e e' pending alerts E Hi. induction l as [|[j fx] l IH]; intros e e' pending alerts E Hi; [by apply elem_of_nil in Hin|].
  cbn [settle_matches] in E. destruct (rs_rules (e_ruleset e) !! j) as [rj|] eqn:Hj.
  - destruct (settle e (cr_no_alert rj) _ _) as [[e1 a1]|] eqn:Es; [|done]. cbn [mbind option_bind] in E.
    destruct (settle_matches e1 tuple now l) as [[[e2 p2] a2]|] eqn:E2; [|done]. cbn in E. simplify_eq.
    apply elem_of_app. apply elem_of_cons in Hin as [Hin|Hin].
    + simplify_eq. left. unfold settle in Es. rewrite Hn, Ht in Es. cbn in Es. simplify_eq. by left.
    + right. apply settle_frame in Es as (Hr & _); [|intros *; apply threshold_allows_frame].
      apply (IH Hin e1 _ _ _ E2). by rewrite Hr.
  - apply elem_of_cons in Hin as [Hin|Hin]; [congruence|]. by eapply IH.
Qed.

(** And nothing else is: an alert is that of a rule that matched. *)
Lemma settle_matches_sound e tuple now l e' pending alerts r :
  settle_matches e tuple now l = Some (e', pending, alerts) -> r ∈ alerts ->
  exists i effects rule, (i, effects) ∈ l /\ rs_rules (e_ruleset e) !! i = Some rule /\ cr_no_alert rule = false /\ r = network_record rule.
Proof.
  revert e e' pending alerts. induction l as [|[j fx] l IH]; intros e e' pending alerts E Hin; cbn [settle_matches] in E.
  { injection E as <- <- <-. by apply elem_of_nil in Hin. }
  assert (forall e1 e2 p1 a1, settle_matches e1 tuple now l = Some (e2, p1, a1) -> r ∈ a1 -> e_ruleset e1 = e_ruleset e ->
    exists i effects rule, (i, effects) ∈ (j, fx) :: l /\ rs_rules (e_ruleset e) !! i = Some rule /\ cr_no_alert rule = false /\ r = network_record rule) as Hrest.
  { intros e1 e2 p1 a1 E1 H1' Hr. destruct (IH _ _ _ _ E1 H1') as (i & effects & rule & Hi & Hl & Hn & Hrec). rewrite Hr in Hl.
    exists i, effects, rule. split; [by right|done]. }
  destruct (rs_rules (e_ruleset e) !! j) as [rj|] eqn:Hj; [|by eapply Hrest].
  destruct (settle e (cr_no_alert rj) _ _) as [[e1 a1]|] eqn:Es; [|done]. cbn [mbind option_bind] in E.
  destruct (settle_matches e1 tuple now l) as [[[e2 p2] a2]|] eqn:E2; [|done]. cbn in E. injection E as <- <- <-.
  pose proof Es as Es'. apply settle_frame in Es' as (Hr & _ & _ & _ & _ & _ & fate & _ & Ha); [|intros *; apply threshold_allows_frame].
  apply elem_of_app in Hin as [Hin|Hin]; [|by eapply Hrest]. exists j, fx, rj. split; [by left|]. split; [done|].
  unfold settle in Es. destruct (cr_no_alert rj); [injection Es as <- <-; by apply elem_of_nil in Hin|]. split; [done|].
  destruct fate; subst a1; try by apply elem_of_nil in Hin. by apply list_elem_of_singleton in Hin.
Qed.

Lemma inspect_sound e flow_id tuple to_server established h now e' alerts r :
  inspect e flow_id tuple to_server established (payload_only h) RuleModel.Payload now = Some (e', alerts) -> r ∈ alerts ->
  exists i rule bits effects, rs_rules (e_ruleset e) !! i = Some rule /\ cr_no_alert rule = false /\ r = network_record rule /\
    evaluate rule (mkMatchInput tuple established to_server (payload_only h)) bits = Some (Some effects).
Proof.
  unfold inspect, inspect_buffers. intros E Hin. case_bool_decide; [injection E as <- <-; by apply elem_of_nil in Hin|].
  set (e1 := with_counters e _) in E. set (input := mkMatchInput _ _ _ _) in *. set (bits := match _ with Some _ => _ | None => _ end) in E.
  destruct (inspect_candidates e1 input bits now _) as [[[e2 pending] a2]|] eqn:E2; [|done]. cbn in E. injection E as <- <-.
  rewrite inspect_candidates_matches in E2. destruct (settle_matches_sound _ _ _ _ _ _ _ _ E2 Hin) as (i & fx & rule & Hi & Hr & Hn & Hrec).
  exists i, rule, bits. apply list_elem_of_omap in Hi as (k & _ & Hv). unfold Compile.verdict in Hv.
  destruct (rs_rules (e_ruleset e1) !! k) as [rk|] eqn:Hk; [|done]. destruct (evaluate rk input bits) as [[fx'|]|] eqn:Ev; [|done..].
  injection Hv as -> ->. exists fx. change (e_ruleset e1) with (e_ruleset e) in *. rewrite Hk in Hr. injection Hr as ->. done.
Qed.

(** A rule that matches a payload under whatever bits is among the alerts of its inspection. *)
Lemma inspect_finds e flow_id tuple to_server established h now i rule :
  engine_inv e -> compiled_engine e -> rs_rules (e_ruleset e) !! i = Some rule ->
  cr_threshold rule = None -> cr_no_alert rule = false ->
  (forall bits, evaluate rule (mkMatchInput tuple established to_server (payload_only h)) bits = Some (Some [])) ->
  exists e' alerts, inspect e flow_id tuple to_server established (payload_only h) RuleModel.Payload now = Some (e', alerts) /\
    engine_inv e' /\ same_rules e e' /\ network_record rule ∈ alerts.
Proof.
  intros He [(rules & vars & limits & rep & Hc) _] Hi Ht Hn Hev.
  destruct (inspect_buffers_inv e flow_id tuple to_server established (payload_only h) [RuleModel.Payload] now He)
    as (e' & alerts & E & He' & Hs).
  exists e', alerts. split; [exact E|]. split; [done|]. split; [done|].
  unfold inspect_buffers in E. set (input := mkMatchInput _ _ _ _) in *. set (e1 := with_counters e _) in E.
  set (bits := match _ with Some _ => _ | None => _ end) in E.
  set (cands := candidates_in (e_ruleset e) _) in E.
  assert (Hin : (i, []) ∈ omap (Compile.verdict (e_ruleset e) input bits) cands).
  { pose proof (prefilter_verdicts rules vars limits _ rep input [RuleModel.Payload] bits Hc (offers_payload h)) as Hpf.
    fold cands in Hpf. unfold cands. cbn [mi_buffers input] in Hpf. rewrite Hpf. apply list_elem_of_omap. exists i. split; [apply elem_of_seq; apply lookup_lt_Some in Hi; lia|].
    unfold Compile.verdict. by rewrite Hi, Hev. }
  case_bool_decide as Hnil; [rewrite Hnil in Hin; by apply elem_of_nil in Hin|].
  destruct (inspect_candidates e1 input bits now cands) as [[[e2 pending] a2]|] eqn:E2; [|done].
  cbn in E. simplify_eq. rewrite inspect_candidates_matches in E2.
  by eapply settle_matches_alerts.
Qed.




End engine.

(** ** The pipeline *)

Section pipeline.
Context {EP : Etherparse} `{RegexLib, AhoCorasickLib, !HashOrder Z, !HashOrder Flow.FlowKey, !HashOrder FragmentKey}.

(** The event is the alert of this record, on this flow, between these endpoints, at the packet's time. *)
Definition reports (r : AlertRecord) (flow_id : Z) (t : NetTuple) (timestamp : Z) (ev : EventRecord) : Prop :=
  ev_event_type ev = Alert /\ ev_flow_id ev = Some flow_id /\ carries ev t /\ ev_timestamp ev = to_timestamp timestamp /\
  exists action, ev_payload ev = PlAlert (alert_body action SourceNetwork r).

Lemma steps_weaken (kinds kinds' : EventKind -> Prop) p p' : (forall k, kinds k -> kinds' k) -> steps kinds p p' -> steps kinds' p p'.
Proof.
  intros Hk (Hp & Ho & l & E & F). split; [done|]. split; [done|]. exists l. split; [done|]. eapply Forall_impl; [exact F|].
  intros e [H1' H2']. split; [by apply Hk|done].
Qed.

(** Between the two states such an event was handed to the event log. *)
Definition announced (R : EventRecord -> Prop) (p p' : PacketPipeline) : Prop :=
  exists new ev, p_emitted p' = p_emitted p ++ new /\ ev ∈ new /\ R ev.

Lemma announced_after R kinds p1 p2 p3 : steps kinds p1 p2 -> announced R p2 p3 -> announced R p1 p3.
Proof.
  intros (_ & _ & l & E & _) (new & ev & E' & Hin & HR). exists (l ++ new), ev. rewrite E', E, app_assoc.
  split; [done|]. split; [|done]. apply elem_of_app. by right.
Qed.

Lemma announced_before R kinds p1 p2 p3 : announced R p1 p2 -> steps kinds p2 p3 -> announced R p1 p3.
Proof.
  intros (new & ev & E & Hin & HR) (_ & _ & l & E' & _). exists (new ++ l), ev. rewrite E', E, app_assoc.
  split; [done|]. split; [|done]. apply elem_of_app. by left.
Qed.

Lemma emit_alert_announced p flow_id t timestamp instant r p' :
  pipeline_inv p -> clock_ok instant -> emit_alert flow_id t timestamp instant p r = Some p' ->
  announced (reports r flow_id t timestamp) p p'.
Proof.
  intros Hp Hi. unfold emit_alert.
  destruct (enforce_step detection p (ar_blocks r) t (instant (next_reading p)) Hp (Hi _)) as (p1 & action & -> & Hs & _).
  cbn [mbind option_bind]. intros [= <-]. eapply announced_after; [exact Hs|].
  eexists [_], _. split; [by destruct p1|]. split; [by left|]. split_and!; try done. by exists action.
Qed.

(** Every record is emitted. *)
Lemma emit_alerts_announced p flow_id t timestamp instant records r :
  pipeline_inv p -> clock_ok instant -> r ∈ records ->
  exists p', emit_alerts p flow_id t timestamp instant records = Some p' /\ steps detection p p' /\
    announced (reports r flow_id t timestamp) p p'.
Proof.
  intros Hp Hi Hin. destruct (emit_alerts_step p flow_id t timestamp instant records Hp Hi) as (p' & E & Hs).
  exists p'. split; [done|]. split; [done|]. unfold emit_alerts in E.
  assert (Hf : forall l q, pipeline_inv q -> exists q', each (emit_alert flow_id t timestamp instant) q l = Some q' /\ steps detection q q')
    by (intros l q Hq; apply each_steps; [intros; by apply emit_alert_step|done]).
  apply list_elem_of_split in Hin as (l1 & l2 & ->). rewrite each_app in E.
  destruct (Hf l1 p Hp) as (q1 & E1 & H1). rewrite E1 in E. cbn [mbind option_bind each] in E.
  destruct (emit_alert_step q1 flow_id t timestamp instant r (proj1 H1) Hi) as (q2 & E2 & H2). rewrite E2 in E. cbn [mbind option_bind] in E.
  destruct (Hf l2 q2 (proj1 H2)) as (q3 & E3 & H3). rewrite E3 in E. cbn [mbind option_bind] in E.
  destruct (correlate_alerts_step q3 timestamp (l1 ++ r :: l2) (proj1 H3)) as (p4 & E4 & H4). simplify_eq.
  eapply announced_after; [exact H1|]. eapply announced_before; [|exact H4]. eapply announced_before; [|exact H3].
  eapply emit_alert_announced; [apply H1|done|exact E2].
Qed.

(** A conversation that may be blocked is condemned by a record that blocks. *)
Definition doomed (p : PacketPipeline) (t : NetTuple) : Prop := exists s, p_prevention p = Some s /\ condemned s t.
Definition may_block (p : PacketPipeline) (t : NetTuple) : Prop :=
  p_poisoned p = false /\ exists s, p_prevention p = Some s /\ blockable s t.

Lemma doomed_stays kinds p p' t : steps kinds p p' -> doomed p t -> doomed p' t.
Proof.
  intros (_ & [_ Hs _ _] & _) (s & Es & Hc). rewrite Es in Hs. destruct (p_prevention p') as [s'|] eqn:Es'; [|done].
  destruct Hs as [E1 E2]. exists s'. split; [done|]. by eapply condemned_stays.
Qed.

Lemma emit_alert_dooms p flow_id t timestamp instant r p' :
  pipeline_inv p -> clock_ok instant -> may_block p t \/ doomed p t -> emit_alert flow_id t timestamp instant p r = Some p' ->
  (may_block p' t \/ doomed p' t) /\ (ar_blocks r = true -> doomed p' t).
Proof.
  intros Hp Hi Hm E. destruct (emit_alert_step p flow_id t timestamp instant r Hp Hi) as (q & Eq & Hs). rewrite E in Eq. injection Eq as <-.
  destruct Hm as [(Hl & s & Es & Hb)|Hd]; [|pose proof (doomed_stays _ _ _ t Hs Hd); by auto].
  unfold emit_alert, enforce in E. destruct (ar_blocks r); cbn [negb] in E; cycle 1.
  { cbn in E. injection E as <-. split; [left|done]. destruct p. split; [done|by exists s]. }
  rewrite Es, Hl in E. destruct (block s t _) as [[s' o]|] eqn:Ebl; [|done]. cbn [mbind option_bind] in E.
  destruct (block_cases s t _ s' o Ebl) as [Eset [(_ & -> & Hf & _)|(Hn & _)]]; [|done]. injection E as <-.
  assert (condemned s' t) as Hk.
  { destruct Hb as (Ha & H1 & H2 & _). unfold condemned, armed, is_allow_listed in *.
    rewrite Eset, Hf. split_and!; try done. rewrite dom_insert_L. apply elem_of_union_l, elem_of_singleton. done. }
  split; [right|intros _]; (exists s'; split; [by destruct p|done]).
Qed.

Lemma emit_alerts_doom p flow_id t timestamp instant records r p' :
  pipeline_inv p -> clock_ok instant -> r ∈ records -> ar_blocks r = true -> may_block p t ->
  emit_alerts p flow_id t timestamp instant records = Some p' -> doomed p' t.
Proof.
  intros Hp Hi Hin Hr Hm E. unfold emit_alerts in E.
  assert (Hf : forall l q q', pipeline_inv q -> may_block q t \/ doomed q t -> each (emit_alert flow_id t timestamp instant) q l = Some q' ->
    steps detection q q' /\ (r ∈ l -> doomed q' t)).
  { clear -Hr Hi. intros l. induction l as [|x l IH]; intros q q' Hq Hq' E; cbn [each] in E.
    { injection E as <-. split; [by apply steps_refl|by intros Hx%elem_of_nil]. }
    destruct (emit_alert_step q flow_id t timestamp instant x Hq Hi) as (q1 & E1 & Hs). rewrite E1 in E. cbn [mbind option_bind] in E.
    destruct (emit_alert_dooms q flow_id t timestamp instant x q1 Hq Hi Hq' E1) as [Hk Hx].
    destruct (IH q1 q' (proj1 Hs) Hk E) as [H1' H2']. split; [by eapply steps_trans|]. intros [->|Hin]%elem_of_cons; [|by apply H2'].
    eapply doomed_stays; [exact H1'|by apply Hx]. }
  destruct (each _ p records) as [q|] eqn:Eq; [|done]. cbn [mbind option_bind] in E.
  destruct (Hf records p q Hp (or_introl Hm) Eq) as (Hp1 & Hd).
  destruct (correlate_alerts_step _ timestamp records (proj1 Hp1)) as (p2 & E2 & H2'). rewrite E in E2. injection E2 as <-.
  eapply doomed_stays; [exact H2'|by apply Hd].
Qed.

(** The record is answered: its alert is emitted, and when it blocks and the conversation may be
    blocked, that is condemned. *)
Definition answered (r : AlertRecord) (flow_id : Z) (t : NetTuple) (timestamp : Z) (p p' : PacketPipeline) : Prop :=
  announced (reports r flow_id t timestamp) p p' /\ (ar_blocks r = true -> may_block p t -> doomed p' t).

Lemma answer_after r flow_id t timestamp kinds p1 p2 p3 :
  steps kinds p1 p2 -> p_prevention p2 = p_prevention p1 -> p_poisoned p2 = p_poisoned p1 -> answered r flow_id t timestamp p2 p3 -> answered r flow_id t timestamp p1 p3.
Proof.
  intros Hs E El [HL Hd]. split; [by eapply announced_after|]. intros Hb (Hl & s & Es & Hm). apply Hd; [done|].
  split; [congruence|]. exists s. by rewrite E.
Qed.

Lemma answer_before r flow_id t timestamp kinds p1 p2 p3 :
  answered r flow_id t timestamp p1 p2 -> steps kinds p2 p3 -> answered r flow_id t timestamp p1 p3.
Proof. intros [HL Hd] Hs. split; [by eapply announced_before|]. intros Hb Hm. eapply doomed_stays; [exact Hs|by apply Hd]. Qed.

(** What the engine found on an input is answered. *)
Lemma found_is_answered p e e' alerts flow_id t timestamp instant r :
  pipeline_inv p -> clock_ok instant -> p_engine p = Some e -> engine_inv e' -> same_rules e e' -> r ∈ alerts ->
  exists p', emit_alerts (set_engine p (Some e')) flow_id t timestamp instant alerts = Some p' /\ steps detection p p' /\
    answered r flow_id t timestamp p p'.
Proof.
  intros Hp Hck Ee He' Hr Hin.
  destruct (emit_alerts_announced _ flow_id t timestamp instant alerts r (set_engine_inv p e' Hp He') Hck Hin) as (p' & E & Hs & Hl).
  assert (steps detection p (set_engine p (Some e'))) as H1'.
  { apply steps_quiet; [by apply set_engine_inv|by destruct p..|]. rewrite Ee. destruct p. cbn. by rewrite (same_rules_arms _ _ Hr). }
  exists p'. split; [done|]. split; [by eapply steps_trans|]. eapply answer_after; [exact H1'|by destruct p..|]. split; [done|].
  intros Hb Hm. by eapply emit_alerts_doom; [apply set_engine_inv| | | | |exact E].
Qed.

(** *** One packet summary *)

(** The flow table is given the packet first: the rest of the pipeline is as it was. *)
Lemma observe_first p packet :
  pipeline_inv p -> packet_ok packet ->
  exists t ready o, Flow.observe (p_flows p) packet (for_destination (p_policy p)) StreamReady_default = Some (t, ready, o) /\
    steps detection p (set_flow_table p t).
Proof.
  intros Hp Hk.
  destruct (observe_spec (p_flows p) packet (for_destination (p_policy p)) StreamReady_default (pi_flows p Hp) Hk)
    as (t & ready & f & g & fresh & -> & Ht & _). eexists _, _, _. split; [done|].
  apply steps_quiet; [|by destruct p..]. by destruct Hp, p; constructor.
Qed.

(** A datagram with the contents of a rule. *)
Lemma observe_datagram p e packet instant i rule cs :
  pipeline_inv p -> clock_ok instant -> p_engine p = Some e -> compiled_engine e -> rs_rules (e_ruleset e) !! i = Some rule -> seeks rule cs ->
  pkt_tcp packet = None -> pkt_payload packet <> [] -> len (pkt_payload packet) < 2 ^ 62 ->
  header_matches (cr_header rule) (summary_tuple packet) = true -> stand_in cs (pkt_payload packet) ->
  exists p' id, pipeline_observe p packet instant = Some (p', id) /\ steps detection p p' /\
    answered (network_record rule) id (summary_tuple packet) (pkt_timestamp packet) p p'.
Proof.
  intros Hp Hck Ee Hc Hi Hsk Ht Hne Hl Hh Hst. unfold pipeline_observe.
  destruct (observe_first p packet Hp) as (t & ready & o & -> & H1); [unfold packet_ok; by rewrite Ht|].
  cbn [mbind option_bind]. set (p1 := set_flow_table p t) in *.
  rewrite bool_decide_eq_true_2, bool_decide_eq_false_2 by done. cbn [andb negb].
  unfold pipeline_inspect_packet. replace (p_engine p1) with (Some e) by (unfold p1; by destruct p).
  destruct (inspect_finds e (observed_flow_id o) (summary_tuple packet) (observed_to_server o) false (pkt_payload packet)
    (pkt_timestamp packet) i rule (pi_engine p Hp e Ee) Hc Hi) as (e' & alerts & E & He' & Hr & Hin); [apply Hsk..| |].
  { intros bits. by apply (seeks_evaluate rule cs). }
  unfold inspect_packet. rewrite E. cbn [mbind option_bind].
  destruct (found_is_answered p1 e e' alerts (observed_flow_id o) (summary_tuple packet) (pkt_timestamp packet) instant
    (network_record rule)) as (p2 & -> & H2 & L2); [apply H1|done|unfold p1; by destruct p|done..|]. cbn [mbind option_bind].
  destruct (consume_ready_step p2 (observed_flow_id o) (if observed_to_server o then summary_tuple packet
    else reverse_net (summary_tuple packet)) ready (pkt_timestamp packet) instant (proj1 H2) Hck) as (p3 & -> & H3).
  cbn [mbind option_bind]. eexists _, _. split; [done|].
  split; [eapply steps_trans; [exact H1|by eapply steps_trans]|].
  eapply answer_after; [exact H1|unfold p1; by destruct p..|]. by eapply answer_before.
Qed.








(** *** One packet *)

(** What the flow table is told of a packet that is not a fragment. *)
Definition whole_summary (d : Decoded) (network : Decode.Network) (timestamp : Z) : PacketSummary :=
  mkPacketSummary (net_protocol network)
    (net_source network, port_of transport_source_port (d_transport d))
    (net_destination network, port_of transport_destination_port (d_transport d))
    timestamp (len (d_frame d)) (payload_bytes d) (tcp_segment (d_transport d) (payload_bytes d)).

(** The packet is decoded to [d], and is a fragment or not. *)
Record arrives (packet : RawPacket) (d : Decoded) (network : Decode.Network) (fragment : bool) : Prop := {
  av_bytes : Forall in_u8 (raw_data packet);
  av_decoded : Decode.decode (raw_data packet) (raw_original_len packet) = Some d;
  av_network : d_network d = Some network;
  av_fragment : net_is_fragment network = fragment
}.

Lemma arrives_wf packet d network fragment : arrives packet d network fragment -> decoded_wf d.
Proof.
  intros [Hu Hd _ _]. destruct (decode_ok (raw_data packet) (raw_original_len packet) Hu) as (d' & Hd' & Hwf & _). by simplify_eq.
Qed.

(** After the flow table and the engine come the anomalies and the flows that ended. *)
Lemma on_packet_tail p packet instant d network fragment p1 id :
  pipeline_inv p -> arrives packet d network fragment ->
  let p0 := set_decode p (record (p_decode p) d) in
  track p0 d (raw_timestamp packet) instant = Some (p1, id) -> steps detection p0 p1 ->
  exists p', on_packet p packet instant = Some p' /\ steps (fun k => k <> Alert) p1 p'.
Proof.
  intros Hp Ha p0 Ht Hs. unfold on_packet. rewrite (av_decoded _ _ _ _ Ha). cbn [mbind option_bind]. fold p0.
  rewrite Ht. cbn [mbind option_bind]. eexists. split; [done|]. set (p3 := if _ && _ then _ else p1).
  assert (steps (fun k => k <> Alert) p1 p3) as H3.
  { unfold p3. destruct (_ && _); [|apply steps_refl, Hs].
    destruct (emit_anomaly_step p1 packet d id (proj1 Hs)) as (ev & -> & Hk & Hb). apply steps_emit; [apply Hs|by rewrite Hk|done]. }
  eapply steps_trans; [exact H3|]. eapply steps_weaken; [|apply drain_ended_flows_step, H3]. by intros k <-.
Qed.

(** Nothing takes an answer back. *)
Lemma on_packet_answers r flow_id t p packet instant d network p1 id :
  pipeline_inv p -> arrives packet d network false ->
  let p0 := set_decode p (record (p_decode p) d) in
  pipeline_observe p0 (whole_summary d network (raw_timestamp packet)) instant = Some (p1, id) -> steps detection p0 p1 ->
  answered r flow_id t (raw_timestamp packet) p0 p1 ->
  exists p', on_packet p packet instant = Some p' /\ pipeline_inv p' /\ answered r flow_id t (raw_timestamp packet) p p'.
Proof.
  intros Hp Ha p0 Ho Hs HA.
  destruct (on_packet_tail p packet instant d network false p1 (Some id) Hp Ha) as (p' & E & H'); [|exact Hs|].
  { unfold track. rewrite (av_network _ _ _ _ Ha), (av_fragment _ _ _ _ Ha). fold p0 (whole_summary d network (raw_timestamp packet)).
    by rewrite Ho. }
  exists p'. split; [done|]. split; [apply H'|].
  eapply answer_after; [apply (set_decode_step detection p d Hp), (arrives_wf _ _ _ _ Ha)|by destruct p..|]. by eapply answer_before.
Qed.

(** *** Nothing but the matches *)

(** An event that is not an alert, or the alert of a record that [J] accepts. *)
Definition justified (J : AlertRecord -> Prop) (flow_id : Z) (t : NetTuple) (timestamp : Z) (ev : EventRecord) : Prop :=
  ev_event_type ev <> Alert \/ exists r, J r /\ reports r flow_id t timestamp ev.

Definition grows (P : EventRecord -> Prop) (p p' : PacketPipeline) : Prop := exists new, p_emitted p' = p_emitted p ++ new /\ Forall P new.

Lemma log_grows_refl P p : grows P p p.
Proof. exists []. by rewrite app_nil_r. Qed.

Lemma log_grows_trans P p1 p2 p3 : grows P p1 p2 -> grows P p2 p3 -> grows P p1 p3.
Proof. intros (l1 & E1 & F1) (l2 & E2 & F2). exists (l1 ++ l2). rewrite E2, E1, app_assoc. split; [done|]. by apply Forall_app. Qed.

Lemma log_grows_from P p1 p2 p3 : p_emitted p2 = p_emitted p1 -> grows P p2 p3 -> grows P p1 p3.
Proof. intros E (l & El & F). exists l. by rewrite El, E. Qed.

Lemma correlate_grows (P : EventRecord -> Prop) p domain kind sid severity summary timestamp p' :
  (forall ev, ev_event_type ev <> Alert -> P ev) ->
  correlate p domain kind sid severity summary timestamp = Some p' -> grows P p p'.
Proof.
  intros HP. unfold correlate. destruct (p_correlator p); [|intros [= <-]; apply log_grows_refl].
  destruct (Correlation.observe _ _) as [[c' [inc|]]|]; [..|done]; cbn [mbind option_bind]; intros [= <-].
  - eexists [_]. split; [by destruct p|]. constructor; [|done]. by apply HP.
  - exists []. split; [destruct p; cbn; by rewrite app_nil_r|done].
Qed.

Lemma emit_alerts_grows J p flow_id t timestamp instant records p' :
  Forall J records -> emit_alerts p flow_id t timestamp instant records = Some p' -> grows (justified J flow_id t timestamp) p p'.
Proof.
  intros HJ E. unfold emit_alerts in E. destruct (each _ p records) as [q|] eqn:Eq; [|done]. cbn [mbind option_bind] in E.
  assert (grows (justified J flow_id t timestamp) p q) as Hf.
  { clear E. revert p q Eq. induction HJ as [|r records Hr HJ IH]; intros p q Eq; cbn [each] in Eq; [injection Eq as <-; apply log_grows_refl|].
    destruct (emit_alert _ _ _ _ p r) as [p1|] eqn:E1; [|done]. cbn [mbind option_bind] in Eq. eapply log_grows_trans; [|by apply IH].
    unfold emit_alert in E1. destruct (enforce p _ _ _) as [[p2 action]|] eqn:E2; [|done]. cbn [mbind option_bind] in E1. injection E1 as <-.
    eexists [_]. split.
    - rewrite <- (enforce_quiet p_emitted p (ar_blocks r) t _ p2 action ltac:(by intros []) ltac:(by intros []) E2). by destruct p2.
    - constructor; [|done]. right. exists r. split; [done|]. split_and!; try done. by exists action. }
  eapply log_grows_trans; [exact Hf|]. clear Hf HJ Eq p. revert q E.
  induction records as [|r records IH]; intros q E; cbn [correlate_alerts] in E; [injection E as <-; apply log_grows_refl|].
  destruct (correlate q _ _ _ _ _ _) as [q1|] eqn:Eq; [|done]. cbn [mbind option_bind] in E.
  eapply log_grows_trans; [eapply correlate_grows; [|exact Eq]; by left|by apply IH].
Qed.

(** A packet that is no segment makes no stream ready. *)
Lemma observe_no_stream (t : FlowTable) packet policy ready t' ready' o :
  pkt_tcp packet = None -> Flow.observe t packet policy ready = Some (t', ready', o) -> ready' = ready.
Proof.
  intros Ht E. unfold Flow.observe in E. destruct (Flow.maybe_sweep t _) as [t1|]; [|done]. cbn [mbind option_bind] in E.
  match type of E with (?x ≫= _) = _ => destruct x as [t2|] end; [|done]. cbn [mbind option_bind] in E.
  destruct (entry_flow _ _ _) as [t3 f]. unfold update_flow in E. rewrite Ht in E. cbn [mbind option_bind] in E.
  destruct (checked_sub _ _) as [total|]; [|done]. cbn [mbind option_bind] in E.
  match type of E with (?x ≫= _) = _ => destruct x as [t4|] end; [|done]. cbn [mbind option_bind] in E. by injection E.
Qed.

(** The rule of the record is armed and matched this payload between these endpoints. *)
Definition matched (p : PacketPipeline) (t : NetTuple) (payload : list Z) (r : AlertRecord) : Prop :=
  exists e i rule to_server bits effects, p_engine p = Some e /\ rs_rules (e_ruleset e) !! i = Some rule /\
    cr_no_alert rule = false /\ r = network_record rule /\
    evaluate rule (mkMatchInput t false to_server (payload_only payload)) bits = Some (Some effects).

Lemma observe_datagram_sound p packet instant p' id :
  pkt_tcp packet = None -> pipeline_observe p packet instant = Some (p', id) ->
  grows (justified (matched p (summary_tuple packet) (pkt_payload packet)) id (summary_tuple packet) (pkt_timestamp packet)) p p'.
Proof.
  intros Ht E. unfold pipeline_observe in E.
  destruct (Flow.observe _ _ _ _) as [[[t ready] o]|] eqn:Eo; [|done]. cbn [mbind option_bind] in E.
  apply observe_no_stream in Eo; [|done]. subst ready.
  match type of E with (?x ≫= _) = _ => destruct x as [p1|] eqn:E1 end; [|done]. cbn in E. injection E as <- <-.
  apply (log_grows_from _ _ (set_flow_table p t)); [by destruct p|]. destruct (_ && _); [|injection E1 as <-; apply log_grows_refl].
  unfold pipeline_inspect_packet in E1. replace (p_engine (set_flow_table p t)) with (p_engine p) in E1 by (by destruct p).
  destruct (p_engine p) as [e|] eqn:Ee; [|injection E1 as <-; apply log_grows_refl].
  destruct (inspect_packet _ _ _ _ _ _) as [[e' alerts]|] eqn:Ei; [|done]. cbn [mbind option_bind] in E1.
  eapply emit_alerts_grows in E1; [eapply log_grows_from; [|exact E1]; by destruct p|].
  apply Forall_forall. intros r Hr. destruct (inspect_sound _ _ _ _ _ _ _ _ _ _ Ei Hr) as (i & rule & bits & fx & ? & ? & ? & ?).
  by exists e, i, rule, (observed_to_server o), bits, fx.
Qed.

Lemma on_packet_datagram_sound p packet instant d network p' :
  pipeline_inv p -> clock_ok instant -> arrives packet d network false -> tcp_segment (d_transport d) (payload_bytes d) = None ->
  on_packet p packet instant = Some p' ->
  let t := summary_tuple (whole_summary d network (raw_timestamp packet)) in
  exists id, grows (justified (matched p t (payload_bytes d)) id t (raw_timestamp packet)) p p'.
Proof.
  intros Hp Hck Ha Ht E t. pose proof (arrives_wf _ _ _ _ Ha) as Hwf. pose proof (set_decode_step detection p d Hp Hwf) as Hs0.
  set (p0 := set_decode p (record (p_decode p) d)) in *.
  destruct (pipeline_observe_step p0 (whole_summary d network (raw_timestamp packet)) instant (proj1 Hs0) Hck) as (p1 & id & Eo & Hs).
  { apply tcp_segment_ok, Hwf. }
  destruct (on_packet_tail p packet instant d network false p1 (Some id) Hp Ha) as (p2 & E' & _ & _ & tail & Et & Ft); [|exact Hs|].
  { unfold track. rewrite (av_network _ _ _ _ Ha), (av_fragment _ _ _ _ Ha). fold p0 (whole_summary d network (raw_timestamp packet)).
    by rewrite Eo. }
  rewrite E in E'. injection E' as <-. exists id. apply observe_datagram_sound in Eo; [|exact Ht].
  apply (log_grows_from _ _ p0); [unfold p0; by destruct p|]. eapply log_grows_trans.
  - destruct Eo as (l & El & Fl). exists l. split; [exact El|]. eapply Forall_impl; [exact Fl|].
    intros ev [Hn|(r & Hr & HR)]; [by left|right]. exists r. split; [|exact HR]. destruct Hr as (e & Hr). exists e.
    replace (p_engine p) with (p_engine p0) by (unfold p0; by destruct p). exact Hr.
  - exists tail. split; [done|]. eapply Forall_impl; [exact Ft|]. intros ev [Hk _]. by left.
Qed.

(** *** Fragments *)

(** The defragmenter and the policy, which the flows and the engine leave alone. *)
Definition reassembling (p : PacketPipeline) : Defragmenter * PolicyResolver := (p_defrag p, p_policy p).

Lemma emit_alert_defrag flow_id t timestamp instant p r p' :
  emit_alert flow_id t timestamp instant p r = Some p' -> reassembling p' = reassembling p.
Proof.
  unfold emit_alert. destruct (enforce p _ _ _) as [[p2 action]|] eqn:E2; [|done]. cbn [mbind option_bind]. intros [= <-].
  rewrite <- (enforce_quiet reassembling p (ar_blocks r) t _ p2 action ltac:(by intros []) ltac:(by intros []) E2). by destruct p2.
Qed.

Lemma emit_alerts_defrag p flow_id t timestamp instant records p' :
  emit_alerts p flow_id t timestamp instant records = Some p' -> reassembling p' = reassembling p.
Proof.
  unfold emit_alerts. destruct (each _ p records) as [q|] eqn:Eq; [|done]. cbn [mbind option_bind].
  assert (Hf : reassembling q = reassembling p).
  { revert p q Eq. induction records as [|r records IH]; intros p q Eq; cbn [each] in Eq; [by injection Eq as <-|].
    destruct (emit_alert _ _ _ _ p r) as [p1|] eqn:E1; [|done]. cbn [mbind option_bind] in Eq. rewrite (IH _ _ Eq). by eapply emit_alert_defrag. }
  rewrite <- Hf. clear Hf Eq p. revert q.
  induction records as [|r records IH]; intros q E; cbn [correlate_alerts] in E; [by simplify_eq|].
  unfold correlate in E. destruct (p_correlator q); [|by apply IH].
  destruct (Correlation.observe _ _) as [[c' [inc|]]|]; [..|done]; cbn [mbind option_bind] in E; rewrite (IH _ E); by destruct q.
Qed.

Lemma consume_direction_defrag p flow_id oriented dir bytes timestamp instant p' :
  consume_direction p flow_id oriented dir bytes timestamp instant = Some p' -> reassembling p' = reassembling p.
Proof.
  unfold consume_direction. case_bool_decide; [by intros [= <-]|]. destruct (p_engine p); [|by intros [= <-]].
  destruct (inspect_stream _ _ _ _ _ _) as [[e' alerts]|]; [|done]. cbn [mbind option_bind]. intros E%emit_alerts_defrag.
  rewrite E. by destruct p.
Qed.

Lemma pipeline_observe_defrag p packet instant p' id :
  pipeline_observe p packet instant = Some (p', id) -> reassembling p' = reassembling p.
Proof.
  unfold pipeline_observe. destruct (Flow.observe _ _ _ _) as [[[t ready] o]|]; [|done]. cbn [mbind option_bind].
  set (inspected := if _ && _ then _ else _). destruct inspected as [p1|] eqn:E1; [|done]. cbn [mbind option_bind].
  destruct (consume_ready p1 _ _ _ _ _) as [p2|] eqn:E2; [|done]. cbn [mbind option_bind]. intros [= <- _].
  trans (reassembling p1).
  - unfold consume_ready in E2. destruct (StreamReady_is_empty ready); [by simplify_eq|].
    destruct (consume_direction _ _ _ true _ _ _) as [p3|] eqn:E3; [|done]. cbn [mbind option_bind] in E2.
    rewrite (consume_direction_defrag _ _ _ _ _ _ _ _ E2), (consume_direction_defrag _ _ _ _ _ _ _ _ E3). by destruct p1.
  - unfold inspected in E1. destruct (_ && _); [|simplify_eq; by destruct p]. unfold pipeline_inspect_packet in E1.
    destruct (p_engine _); [|simplify_eq; by destruct p]. destruct (inspect_packet _ _ _ _ _ _) as [[e' alerts]|]; [|done].
    cbn [mbind option_bind] in E1. rewrite (emit_alerts_defrag _ _ _ _ _ _ _ E1). by destruct p.
Qed.

(** A fragment that completes a datagram: it is counted as a packet, then the datagram is looked at. *)
Lemma fragment_reassembles p packet d network instant de whole :
  pipeline_inv p -> clock_ok instant -> arrives packet d network true ->
  Defrag.push (p_defrag p) (fragment_view network d) (raw_timestamp packet)
    (for_destination (p_policy p) (net_destination network)) = Some (de, Some whole) ->
  exists p2 id, steps detection p p2 /\
    forall p3, on_reassembled p2 whole (raw_timestamp packet) instant = Some p3 ->
      track p d (raw_timestamp packet) instant = Some (p3, Some id).
Proof.
  intros Hp Hck Hav Hpush. pose proof (arrives_wf _ _ _ _ Hav) as Hwf. unfold track.
  rewrite (av_network _ _ _ _ Hav), (av_fragment _ _ _ _ Hav). set (fragment := mkPacketSummary _ _ _ _ _ _ None).
  destruct (pipeline_observe_step p fragment instant Hp Hck) as (p1 & id & E1 & H1); [done|]. rewrite E1. cbn [mbind option_bind].
  pose proof (pipeline_observe_defrag _ _ _ _ _ E1) as Hde. unfold reassembling in Hde. injection Hde as Hde Hpo.
  unfold defragment. rewrite Hde, Hpo, Hpush. cbn [mbind option_bind]. exists (set_defrag p1 de), id. split.
  - eapply steps_trans; [exact H1|].
    destruct (defrag_push_ok (p_defrag p) (fragment_view network d) (raw_timestamp packet)
      (for_destination (p_policy p) (net_destination network)) (pi_defrag p Hp)) as (de' & out & E & Hpost).
    { pose proof (dw_offset d Hwf network (av_network _ _ _ _ Hav)) as Ho. unfold fragment_ok, fragment_view. by destruct network. }
    rewrite Hpush in E. injection E as <- <-. destruct H1 as [[] _]. apply steps_quiet; [|by destruct p1..].
    destruct p1; constructor; cbn in *; try done. apply Hpost.
  - intros p3 E3. by rewrite E3.
Qed.

(** The rules that a step leaves armed. *)
Lemma armed_after kinds p p' e :
  steps kinds p p' -> p_engine p = Some e -> compiled_engine e ->
  exists e', p_engine p' = Some e' /\ compiled_engine e' /\ e_ruleset e' = e_ruleset e /\ e_limits e' = e_limits e.
Proof.
  intros (_ & [_ _ Ha _] & _) Ee [Hc Hl]. rewrite Ee in Ha. destruct (p_engine p') as [e'|]; [|done]. cbn in Ha.
  unfold arms in Ha. injection Ha as H1' _ H3' H4'. exists e'. unfold compiled_engine. by rewrite H1', H4'.
Qed.

(** The engine of a sensor is compiled, and holds the rules whose header resolves. *)
Lemma engine_new_compiled rules vars limits e rep :
  engine_new rules vars limits = Some (e, rep) ->
  compiled_engine e /\ e_limits e = limits /\
  (forall i entry, rs_rules (e_ruleset e) !! i = Some entry ->
    exists r, r ∈ rules /\ compile_rule r vars (el_compile limits) = Some (inr entry)) /\
  forall r cs header, r ∈ rules -> content_rule r cs -> Vars.resolve (r_header r) vars = Some (inr header) ->
    exists i entry, rs_rules (e_ruleset e) !! i = Some entry /\ seeks entry cs /\ cr_header entry = header /\
      network_record entry = rule_record r.
Proof.
  unfold engine_new. cbv zeta. set (network := List.filter (fun r => negb _) rules). intros E.
  destruct (compile network vars (el_compile limits)) as [[rs rp]|] eqn:Ec; [|done]. cbn [mbind option_bind] in E.
  destruct (compile_host _ _) as [hr hrep]. simplify_eq. cbn. split; [split; [by exists network, vars, (el_compile limits), rp|done]|]. split; [done|].
  apply compile_accounted in Ec as (st & [_ Hfrom Ha] & -> & _). split.
  { intros i entry Hi%list_elem_of_lookup_2. destruct (Hfrom entry Hi) as (r & Hr & Hcr). exists r. split; [|done].
    apply list_elem_of_In in Hr. unfold network in Hr. apply filter_In in Hr as [Hr _]. by apply list_elem_of_In. }
  intros r cs header Hr Hct Hh.
  destruct (content_rule_compiles r cs vars (el_compile limits) header Hct Hh) as (entry & Hcr & Hsk & Hhd & Hrec).
  assert (entry ∈ cs_compiled st) as [i Hi]%list_elem_of_lookup; [|by exists i, entry].
  eapply Ha; [|apply Hct|exact Hcr]. unfold network. apply list_elem_of_In, filter_In. split; [by apply list_elem_of_In|].
  unfold is_host_rule_by_options. rewrite (ct_options _ _ Hct). clear. by induction cs.
Qed.
End pipeline.

(** ** The sensor *)

Section sensor.
Context {EP : Etherparse} `{RegexLib, AhoCorasickLib, !HashOrder Z, !HashOrder Flow.FlowKey, !HashOrder FragmentKey}.

(** The sensor started with an accepted configuration, and its rule files hold these rules. *)
Record launched (c : Config) (read : text -> text + text) (p : PacketPipeline) (set : RuleSet) : Prop := {
  la_typed : config_typed c;
  la_checked : check_config c = inr tt;
  la_operable : operable c;
  la_started : exists strict host_starts info, Sensor.start c read strict host_starts info = Some (inr p);
  la_loaded : exists report, load_files read (rule_files (Settings.rules c)) = Some (set, report)
}.

(** The variables of the configuration. *)
Definition var_table (c : Config) : VarTable := mkVarTable (address_groups (vars c)) (port_groups (vars c)).

(** Detection is on, and this rule, which looks for contents, is among those of the files. *)
Record deployed (c : Config) (read : text -> text + text) (p : PacketPipeline) (r : Rule) (cs : list ContentMatch)
    (header : CompiledHeader) : Prop := {
  dp_launched : exists set, launched c read p set /\ r ∈ rset_rules set;
  dp_detect : detect_enabled (detect c) = true;
  dp_rule : content_rule r cs;
  dp_header : Vars.resolve (r_header r) (var_table c) = Some (inr header)
}.

Lemma launched_runs c read p set l p' :
  launched c read p set -> Forall step_ok l -> sensor_run p l = Some p' ->
  steps any_kind p p' /\ exists e rep, build_engine c set = Some (e, rep) /\
    p_engine p = (if detect_enabled (detect c) then Some e else None).
Proof.
  intros [Ht Hc Hco (strict & hosts & info & Hs) (report & Hl)] Hok Hrun.
  destruct (start_inv c read strict hosts info p Ht Hc Hco Hs) as [Hp _]. split; [by apply (sensor_run_keeps p l)|].
  unfold Sensor.start in Hs. rewrite Hl in Hs. cbn [mbind option_bind] in Hs.
  destruct (build_engine c set) as [[e rep]|]; [|done]. cbn [mbind option_bind] in Hs. exists e, rep. split; [done|].
  destruct (strict && _); simplify_eq. unfold assemble, attach_host_monitoring, start_prevention.
  by destruct (detect_enabled (detect c)), (host_settings c), hosts, (prevent_enabled _).
Qed.

(** Whatever the sensor does, the rule stays armed. *)
Lemma deployed_stays c read p r cs header l p' :
  deployed c read p r cs header -> Forall step_ok l -> sensor_run p l = Some p' ->
  pipeline_inv p' /\ exists e i entry, p_engine p' = Some e /\ compiled_engine e /\ e_limits e = engine_limits c /\
    rs_rules (e_ruleset e) !! i = Some entry /\ seeks entry cs /\ cr_header entry = header /\
    network_record entry = rule_record r.
Proof.
  intros [(set & Hla & Hr) Hd Hct Hh] Hok Hrun. destruct (launched_runs _ _ _ _ _ _ Hla Hok Hrun) as (Hkept & e0 & rep & Eb & E0).
  split; [apply Hkept|]. rewrite Hd in E0. apply engine_new_compiled in Eb as (Hce & Hlim & _ & Harm).
  destruct (Harm r cs header Hr Hct Hh) as (i & entry & Hi & Hsk & Hhd & Hrec).
  destruct (armed_after any_kind p p' e0) as (e & Ee & Hce' & Hrs & Hl'); [done..|].
  exists e, i, entry. rewrite Hl', Hrs. by split_and!.
Qed.

(** And what is armed is from the files. *)
Lemma armed_is_loaded c read p set l p' e i entry :
  launched c read p set -> Forall step_ok l -> sensor_run p l = Some p' -> p_engine p' = Some e ->
  rs_rules (e_ruleset e) !! i = Some entry ->
  exists r, r ∈ rset_rules set /\ compile_rule r (var_table c) (el_compile (engine_limits c)) = Some (inr entry).
Proof.
  intros Hla Hok Hrun Ee Hi. destruct (launched_runs _ _ _ _ _ _ Hla Hok Hrun) as (Hkept & e0 & rep & Eb & E0).
  apply engine_new_compiled in Eb as (Hce & _ & Hfrom & _). destruct (detect_enabled (detect c)).
  - destruct (armed_after any_kind p p' e0 Hkept E0 Hce) as (e' & Ee' & _ & Hrs & _). rewrite Ee in Ee'. injection Ee' as <-.
    rewrite Hrs in Hi. by eapply Hfrom.
  - destruct Hkept as (_ & [_ _ Ha _] & _). by rewrite Ee, E0 in Ha.
Qed.

(** From here on, whatever the sensor does, every packet of the conversation is dropped, both ways, as
    long as no thread panics with the lock of the store. *)
Definition dropped_from_now_on (p : PacketPipeline) (t : NetTuple) : Prop :=
  forall l p', Forall step_ok l -> sensor_run p l = Some p' -> p_poisoned p' = false ->
  forall packet clock, tuple packet = t \/ tuple packet = reverse_tuple t -> (Sensor.verdict p' packet clock).2 = Some (Drop FlowVerdict).

Lemma doomed_dropped p t : pipeline_inv p -> doomed p t -> dropped_from_now_on p t.
Proof.
  intros Hp Hd l p' Hl Hr Hlk packet clock Ht. apply (doomed_stays _ _ _ t (sensor_run_keeps p l p' Hp Hl Hr)) in Hd as (s & Es & Hc).
  assert ((decide s (tuple packet) (judged_at clock)).2 = Drop FlowVerdict) as E.
  { destruct Ht as [->| ->]; [by apply condemned_drops|by apply condemned_drops, condemned_reverse]. }
  unfold Sensor.verdict, judge_and_resolve, judge. rewrite Es, Hlk. destruct (decide s _ _) as [s' o]. cbn in E |- *. by rewrite E.
Qed.

(** C4: what a rule looks for is reported, and stopped. Take a sensor with detection enabled that has
    started with an accepted configuration (at least one observation per host for the correlation, blocks
    and process intervals of less than 2^62 seconds) and whose rule files hold a rule that alerts and whose header resolves: one
    made of contents of the payload alone, none negated or tied to a place, without a threshold or
    [noalert]. Let it have handled any sequence of packets, host events and verdicts. When a packet that
    is neither a fragment nor a TCP segment arrives, between endpoints the rule's header names, with all
    the contents in its payload, in whatever order and letter case the rule allows, the packet is handled
    and an alert with the rule's sid, message and severity, the packet's endpoints and its time is
    emitted, which is to say handed to the event log (that counts it as dropped when its queue is full);
    and when the rule blocks, the store is armed, protects neither endpoint and has room and its lock is
    not poisoned, every later packet of the conversation is dropped, in both directions, whatever happens
    in between, as long as no thread panics with the lock. *)
Theorem datagram_is_detected c read p r cs header l p' packet instant d network :
  deployed c read p r cs header -> Forall step_ok l -> sensor_run p l = Some p' -> clock_ok instant ->
  arrives packet d network false -> tcp_segment (d_transport d) (payload_bytes d) = None -> payload_bytes d <> [] ->
  len (payload_bytes d) < 2 ^ 62 ->
  let t := summary_tuple (whole_summary d network (raw_timestamp packet)) in
  header_matches header t = true -> stand_in cs (payload_bytes d) ->
  exists p'' id, on_packet p' packet instant = Some p'' /\
    announced (reports (rule_record r) id t (raw_timestamp packet)) p' p'' /\
    (blocks (rh_action (r_header r)) = true -> may_block p' t -> dropped_from_now_on p'' t).
Proof.
  intros Hdep Hok Hrun Hck Hav Hudp Hne Hlen t Hh Hst.
  destruct (deployed_stays _ _ _ _ _ _ _ _ Hdep Hok Hrun) as (Hp & e & i & entry & Ee & Hc & _ & Hi & Hsk & Hhd & Hrec).
  subst header. pose proof (set_decode_step detection p' d Hp (arrives_wf _ _ _ _ Hav)) as Hs0. set (p0 := set_decode p' _) in *.
  destruct (observe_datagram p0 e (whole_summary d network (raw_timestamp packet)) instant i entry cs) as (p1 & id & Ho & Hs & HA); try done.
  { apply Hs0. }
  { unfold p0. by destruct p'. }
  rewrite Hrec in HA. destruct (on_packet_answers _ id t p' packet instant d network p1 id Hp Hav Ho Hs HA) as (p'' & E & Hp'' & HL & Hd).
  exists p'', id. split; [done|]. split; [done|]. intros Hb Hm. by apply doomed_dropped, Hd.
Qed.


(** C7: nothing is reported of a datagram but what a rule matched in it. On any run of a started sensor,
    every alert that a packet which is neither a fragment nor a TCP segment makes it emit is that of a
    rule of the rule files which was compiled and may alert, carries the packet's endpoints, which the
    header of the rule names, and the rule matched the packet's payload: in particular every content the
    rule asks for in the payload occurs in it. *)
Theorem datagram_alerts_are_justified c read p set l p' packet instant d network p'' new ev :
  launched c read p set -> Forall step_ok l -> sensor_run p l = Some p' -> clock_ok instant ->
  arrives packet d network false -> tcp_segment (d_transport d) (payload_bytes d) = None ->
  on_packet p' packet instant = Some p'' -> p_emitted p'' = p_emitted p' ++ new -> ev ∈ new -> ev_event_type ev = Alert ->
  let t := summary_tuple (whole_summary d network (raw_timestamp packet)) in
  exists r entry to_server bits effects, r ∈ rset_rules set /\ r_no_alert r = false /\
    compile_rule r (var_table c) (el_compile (engine_limits c)) = Some (inr entry) /\
    carries ev t /\ (exists action, ev_payload ev = PlAlert (alert_body action SourceNetwork (rule_record r))) /\
    header_matches (cr_header entry) t = true /\
    evaluate entry (mkMatchInput t false to_server (payload_only (payload_bytes d))) bits = Some (Some effects) /\
    (forall ct, OContent ct ∈ r_options r -> cm_negated ct = false -> cm_buffer ct = RuleModel.Payload ->
       occurs (cm_nocase ct) (cm_pattern ct) (payload_bytes d)).
Proof.
  intros Hla Hok Hrun Hck Hav Htcp E Hnew Hin Hk t. destruct (launched_runs _ _ _ _ _ _ Hla Hok Hrun) as (Hkept & _).
  destruct (on_packet_datagram_sound p' packet instant d network p'' (proj1 Hkept) Hck Hav Htcp E) as (id & l' & El & Fl).
  rewrite Hnew in El. apply app_inv_head in El. subst l'. rewrite Forall_forall in Fl.
  destruct (Fl ev Hin) as [Hn|(rec & (e & i & rule & ts & bits & fx & Ee & Hi & Hna & -> & Hev) & _ & _ & Hcar & _ & Hact)]; [done|].
  destruct (armed_is_loaded _ _ _ _ _ _ e i rule Hla Hok Hrun Ee Hi) as (r & Hr & Hcr).
  exists r, rule, ts, bits, fx. rewrite <- (compile_rule_record _ _ _ _ Hcr).
  pose proof (compile_rule_inv _ _ _ _ Hcr) as (_ & _ & Hopts & _ & Hna' & _).
  split; [done|]. split; [congruence|]. split; [done|]. split; [done|]. split; [done|]. split.
  { unfold evaluate in Hev. cbn [mi_tuple] in Hev. by destruct (header_matches (cr_header rule) _). }
  split; [exact Hev|]. intros ct Hct Hneg Hbuf.
  destruct (evaluate_content _ _ _ _ ct Hev (compiled_content _ _ _ _ Hopts Hct) Hneg) as (h & Hg & _ & Ho).
  rewrite Hbuf in Hg. injection Hg as <-. exact Ho.
Qed.

(** The datagram that the fragments gave back, as the flow table is told of it. *)
Definition reassembled_summary (r : Reassembled) (d : Decoded) (timestamp : Z) : PacketSummary :=
  mkPacketSummary (re_protocol r)
    (re_source r, port_of transport_source_port (d_transport d))
    (re_destination r, port_of transport_destination_port (d_transport d))
    timestamp (len (re_data r)) (payload_bytes d) (tcp_segment (d_transport d) (payload_bytes d)).

(** C6: fragments hide nothing of a datagram. With the sensor and the rule of [datagram_is_detected]: when
    a fragment arrives that makes the defragmenter give a datagram back, that datagram is not a TCP
    segment, the rule's header names its endpoints and its payload holds the contents of the rule,
    whatever part of them each fragment carried, then an alert of the rule between the endpoints of the
    datagram is emitted. *)
Theorem fragmented_datagram_is_detected c read p r cs header l p' packet instant d network de whole inner :
  deployed c read p r cs header -> Forall step_ok l -> sensor_run p l = Some p' -> clock_ok instant -> arrives packet d network true ->
  Defrag.push (p_defrag p') (fragment_view network d) (raw_timestamp packet)
    (for_destination (p_policy p') (net_destination network)) = Some (de, Some whole) ->
  decode_transport_bytes (re_data whole) (re_protocol whole) = Some inner ->
  tcp_segment (d_transport inner) (payload_bytes inner) = None -> payload_bytes inner <> [] -> len (payload_bytes inner) < 2 ^ 62 ->
  let summary := reassembled_summary whole inner (raw_timestamp packet) in
  header_matches header (summary_tuple summary) = true -> stand_in cs (payload_bytes inner) ->
  exists p'' id, on_packet p' packet instant = Some p'' /\
    announced (reports (rule_record r) id (summary_tuple summary) (raw_timestamp packet)) p' p''.
Proof.
  intros Hdep Hok Hrun Hck Hav Hpush Hin Hudp Hne Hlen summary Hh Hst.
  destruct (deployed_stays _ _ _ _ _ _ _ _ Hdep Hok Hrun) as (Hp & e & i & entry & Ee & Hc & _ & Hi & Hsk & Hhd & Hrec).
  subst header. pose proof (arrives_wf _ _ _ _ Hav) as Hwf. pose proof (set_decode_step detection p' d Hp Hwf) as Hs0.
  set (p0 := set_decode p' _) in *.
  destruct (fragment_reassembles p0 packet d network instant de whole (proj1 Hs0) Hck Hav) as (p2 & id & H2 & Htrack).
  { rewrite <- Hpush. unfold p0. by destruct p'. }
  destruct (armed_after _ _ _ e H2) as (e2 & Ee2 & Hc2 & Hrs & _); [unfold p0; by destruct p'|done|].
  destruct (observe_datagram p2 e2 summary instant i entry cs (proj1 H2) Hck Ee2 Hc2) as (p3 & id' & Ho & Hs & HL); try done.
  { by rewrite Hrs. }
  rewrite Hrec in HL. specialize (Htrack p3). unfold on_reassembled in Htrack. rewrite Hin in Htrack. cbn [mbind option_bind] in Htrack.
  fold (reassembled_summary whole inner (raw_timestamp packet)) summary in Htrack. rewrite Ho in Htrack. specialize (Htrack eq_refl).
  destruct (on_packet_tail p' packet instant d network true p3 (Some id) Hp Hav Htrack) as (p'' & E & H''); [by eapply steps_trans|].
  exists p'', id'. split; [done|]. eapply announced_after; [exact Hs0|]. eapply announced_before; [|exact H'']. eapply announced_after; [exact H2|apply HL].
Qed.
End sensor.
