(* ===== verification/HostDetection.v ===== *)
(** Detection on the host, end to end: from a rule of the rule files and an event of the host sensors to
    the alert in the event log, whatever the sensor has seen before. *)

From S2P Require Import Prelude Text Clock Net Event HostSensor Config Settings Policy Stream Flow Decode Defrag RuleModel Vars Eval Loader Compile Host Engine Prevent Correlation Pipeline PipelineFacts Sensor Detection.

(** ** The rule set *)

Section rules.
Context `{RegexLib}.

(** A host rule that compiles is armed. *)
Lemma compile_host_arms rules limits r entry :
  r ∈ rules -> is_evaluable r = true -> compile_host_rule r limits = inr entry -> entry ∈ hs_rules (compile_host rules limits).1.
Proof.
  intros Hr Hev Hc. unfold compile_host.
  assert (Hmono : forall l st x, x ∈ hs_rules st.1 -> x ∈ hs_rules (foldl (compile_host_step limits) st l).1).
  { clear. intros l. induction l as [|y l IH]; intros [rs rep] x Hx; [done|]. cbn [foldl]. apply IH. unfold compile_host_step.
    destruct (negb _); [done|]. destruct (compile_host_rule y limits); [done|]. cbn. apply elem_of_app. by left. }
  assert (Hg : forall st, entry ∈ hs_rules (foldl (compile_host_step limits) st rules).1).
  { induction rules as [|y l IH]; intros st; [by apply elem_of_nil in Hr|]. cbn [foldl]. apply elem_of_cons in Hr as [<-|Hr]; [|by apply IH].
    apply Hmono. destruct st as [rs rep]. unfold compile_host_step. rewrite Hev, Hc. cbn. apply elem_of_app. right. left. }
  specialize (Hg (mkHostRuleset [] ∅, report_default)). by destruct (foldl _ _ rules).
Qed.

(** The rule says something of this record whatever bits are set. *)
Definition speaks_of (entry : CompiledHostRule) (o : HostObservation) : Prop :=
  hr_kind entry = observation_kind o /\ forall bits, forallb (condition_holds o bits) (hr_conditions entry) = true.

Lemma speaks_evaluate entry o bits : speaks_of entry o -> is_Some (evaluate_host entry o bits).
Proof.
  intros [Hk Hc]. rewrite evaluate_host_exact, bool_decide_eq_true_2, Hc by done. by eexists.
Qed.
End rules.

(** ** The engine *)

Section engine.
Context `{RegexLib, AhoCorasickLib, !HashOrder Z}.

Lemma inspect_host_candidates_alerts e o bits now cs e' pending alerts i entry :
  inspect_host_candidates e o bits now cs = Some (e', pending, alerts) -> i ∈ cs ->
  hs_rules (e_host_rules e) !! i = Some entry -> speaks_of entry o -> hr_threshold entry = None -> hr_no_alert entry = false ->
  host_record entry ∈ alerts.
Proof.
  intros E Hin Hi Hsp Ht Hn. revert e e' pending alerts E Hi. induction cs as [|j cs IH]; intros e e' pending alerts E Hi; [by apply elem_of_nil in Hin|].
  cbn [inspect_host_candidates] in E. apply elem_of_cons in Hin. destruct (hs_rules (e_host_rules e) !! j) as [rj|] eqn:Hj; cycle 1.
  { destruct Hin as [<-|Hin]; [congruence|]. by eapply IH. }
  destruct (evaluate_host rj o bits) as [fx|] eqn:Ev; cycle 1.
  { destruct Hin as [<-|Hin]; [|by eapply IH]. destruct (speaks_evaluate entry o bits Hsp) as [? ?]. congruence. }
  destruct (settle e (hr_no_alert rj) _ _) as [[e1 a1]|] eqn:Es; [|done]. cbn [mbind option_bind] in E.
  destruct (inspect_host_candidates e1 o bits now cs) as [[[e2 p2] a2]|] eqn:E2; [|done]. cbn in E. injection E as <- <- <-.
  apply elem_of_app. destruct Hin as [<-|Hin].
  - left. rewrite Hi in Hj. injection Hj as <-. unfold settle in Es. rewrite Hn, Ht in Es. cbn in Es. injection Es as <- <-. by left.
  - right. apply settle_frame in Es as (_ & Hr & _); [|intros *; apply host_threshold_allows_frame].
    apply (IH Hin e1 _ _ _ E2). by rewrite Hr.
Qed.

(** An observation that an armed host rule speaks of raises its alert. *)
Lemma inspect_host_finds e o now i entry :
  engine_inv e -> host_inv (e_host_rules e) -> hs_rules (e_host_rules e) !! i = Some entry -> speaks_of entry o ->
  hr_threshold entry = None -> hr_no_alert entry = false ->
  exists e' alerts, inspect_host e o now = Some (e', alerts) /\ engine_inv e' /\ same_rules e e' /\ host_record entry ∈ alerts.
Proof.
  intros He [_ Hspec] Hi Hsp Ht Hn. destruct (inspect_host_inv e o now He) as (e' & alerts & E & He' & Hs).
  exists e', alerts. split; [done|]. split; [done|]. split; [done|].
  assert (i ∈ host_candidates (e_host_rules e) (observation_kind o)) as Hin by (apply Hspec; exists entry; split; [done|apply Hsp]).
  unfold inspect_host in E. case_bool_decide as Hnil; [rewrite Hnil in Hin; by apply elem_of_nil in Hin|].
  destruct (inspect_host_candidates _ _ _ _ _) as [[[e2 pending] a2]|] eqn:E2; [|done]. cbn in E. injection E as <- <-.
  by eapply inspect_host_candidates_alerts.
Qed.
End engine.

(** ** The pipeline *)

Section pipeline.
Context {EP : Etherparse} `{RegexLib, AhoCorasickLib, !HashOrder Z, !HashOrder Flow.FlowKey, !HashOrder FragmentKey}.

(** The event is the alert of this record on the host, at this time. *)
Definition host_reports (r : AlertRecord) (timestamp : Z) (ev : EventRecord) : Prop :=
  ev_event_type ev = Alert /\ ev_timestamp ev = to_timestamp timestamp /\ ev_payload ev = PlAlert (alert_body ActionAlerted SourceHost r).

Lemma emit_host_alerts_announced p timestamp records r :
  pipeline_inv p -> r ∈ records ->
  steps any_kind p (foldl (emit_host_alert timestamp) p records) /\
  announced (host_reports r timestamp) p (foldl (emit_host_alert timestamp) p records).
Proof.
  intros Hp Hin. assert (Hf : forall l q, pipeline_inv q -> steps any_kind q (foldl (emit_host_alert timestamp) q l)).
  { intros l q Hq. apply foldl_steps; [|done]. intros q' x Hq'. by apply steps_emit. }
  split; [by apply Hf|]. apply list_elem_of_split in Hin as (l1 & l2 & ->). rewrite foldl_app. cbn [foldl].
  pose proof (Hf l1 p Hp) as H1'. set (q1 := foldl _ p l1) in *. eapply announced_after; [exact H1'|].
  assert (steps any_kind q1 (emit_host_alert timestamp q1 r)) as H2' by (apply steps_emit; [apply H1'|done..]).
  eapply announced_before; [|apply Hf, H2'].
  set (ev := build_at q1 (to_timestamp timestamp) (PlAlert (alert_body ActionAlerted SourceHost r))).
  exists [ev], ev. split; [unfold emit_host_alert; fold ev; clearbody ev; by destruct q1|]. split; [by left|done].
Qed.

(** The host rule is armed. *)
Definition host_armed (p : PacketPipeline) (entry : CompiledHostRule) : Prop :=
  exists e i, p_engine p = Some e /\ host_inv (e_host_rules e) /\ hs_rules (e_host_rules e) !! i = Some entry.

Lemma host_armed_stays kinds p p' entry : steps kinds p p' -> host_armed p entry -> host_armed p' entry.
Proof.
  intros (_ & [_ _ Ha _] & _) (e & i & Ee & Hh & Hi). rewrite Ee in Ha. destruct (p_engine p') as [e'|] eqn:Ee'; [|done].
  cbn in Ha. unfold arms in Ha. injection Ha as _ Hr _ _. exists e', i. by rewrite Hr.
Qed.

(** One event of a batch. *)
Lemma host_event_finds p entry o kind summary payload wall :
  pipeline_inv p -> host_armed p entry -> speaks_of entry o -> hr_threshold entry = None -> hr_no_alert entry = false ->
  (forall a, payload <> PlAlert a) ->
  exists p', host_event p o kind summary payload wall = Some p' /\ steps any_kind p p' /\
    announced (host_reports (host_record entry) wall) p p'.
Proof.
  intros Hp (e & i & Ee & Hh & Hi) Hsp Ht Hn Hpl. destruct (host_event_step p o kind summary payload wall Hpl Hp) as (p' & E & Hs).
  exists p'. split; [done|]. split; [done|]. unfold host_event, inspect_and_emit_host in E. rewrite Ee in E.
  destruct (inspect_host_finds e o wall i entry (pi_engine p Hp e Ee) Hh Hi Hsp Ht Hn) as (e' & alerts & Ei & He' & Hr & Hin).
  rewrite Ei in E. cbn [mbind option_bind] in E. set (p1 := add_host_alerts (set_engine p (Some e')) (len alerts)) in E.
  assert (steps any_kind p p1) as H1'.
  { pose proof (set_engine_inv p e' Hp He') as Hq. apply steps_quiet; [|by destruct p..|].
    - unfold p1. destruct Hq, p. by constructor.
    - rewrite Ee. unfold p1. destruct p. cbn. by rewrite (same_rules_arms _ _ Hr). }
  destruct (emit_host_alerts_announced p1 wall alerts _ (proj1 H1') Hin) as [H2' L2].
  destruct (match alerts with [] => _ | _ => _ end) as [[sid severity] text'].
  destruct (correlate_step _ Correlation.Host kind sid severity text' wall (proj1 H2')) as (p3 & E3 & H3). rewrite E3 in E.
  cbn in E. injection E as <-. eapply announced_after; [exact H1'|]. eapply announced_before; [exact L2|].
  eapply steps_trans; [eapply steps_any, H3|]. apply steps_emit; [apply H3|done|]. cbn. destruct payload; try done. by edestruct Hpl.
Qed.

(** An event of a list. *)
Lemma host_events_find {A : Type} (step : PacketPipeline -> A -> option PacketPipeline) l a p entry R :
  (forall p a, pipeline_inv p -> exists p', step p a = Some p' /\ steps any_kind p p') ->
  (forall p, pipeline_inv p -> host_armed p entry -> exists p', step p a = Some p' /\ steps any_kind p p' /\ announced R p p') ->
  pipeline_inv p -> host_armed p entry -> a ∈ l ->
  exists p', each step p l = Some p' /\ steps any_kind p p' /\ announced R p p'.
Proof.
  intros Hs Ha. revert p. induction l as [|x l IH]; intros p Hp Har Hin; [by apply elem_of_nil in Hin|]. cbn [each].
  apply elem_of_cons in Hin as [<-|Hin].
  - destruct (Ha p Hp Har) as (p1 & -> & H1' & L1). cbn [mbind option_bind].
    destruct (each_steps any_kind step l p1 Hs (proj1 H1')) as (p2 & -> & H2'). exists p2. split; [done|].
    split; [by eapply steps_trans|by eapply announced_before].
  - destruct (Hs p x Hp) as (p1 & -> & H1'). cbn [mbind option_bind].
    destruct (IH p1 (proj1 H1')) as (p2 & -> & H2' & L2); [by eapply host_armed_stays|done|]. exists p2. split; [done|].
    split; [by eapply steps_trans|by eapply announced_after].
Qed.

(** The batch holds the observation. *)
Definition in_batch (batch : HostBatch) (o : HostObservation) : Prop :=
  match o with HFim e => e ∈ hb_fim batch | HAuth e => e ∈ hb_auth batch | HProcess e => e ∈ hb_process batch end.

(** The alert of this record, at one of the readings of the clock. *)
Definition host_reports_at (r : AlertRecord) (wall : nat -> Z) (ev : EventRecord) : Prop := exists n, host_reports r (wall n) ev.

Lemma host_event_finds_at p entry o kind summary payload wall n :
  pipeline_inv p -> host_armed p entry -> speaks_of entry o -> hr_threshold entry = None -> hr_no_alert entry = false ->
  (forall a, payload <> PlAlert a) ->
  exists p', host_event p o kind summary payload (wall n) = Some p' /\ steps any_kind p p' /\
    announced (host_reports_at (host_record entry) wall) p p'.
Proof.
  intros Hp Ha Hs Ht Hn Hpl. destruct (host_event_finds p entry o kind summary payload (wall n) Hp Ha Hs Ht Hn Hpl) as (p' & E & H1' & new & ev & E' & Hin & HR).
  exists p'. split; [done|]. split; [done|]. exists new, ev. split; [done|]. split; [done|by exists n].
Qed.

Lemma emit_host_batch_finds p batch wall o entry :
  pipeline_inv p -> host_armed p entry -> in_batch batch o -> speaks_of entry o -> hr_threshold entry = None -> hr_no_alert entry = false ->
  exists p', emit_host_batch p batch wall = Some p' /\ announced (host_reports_at (host_record entry) wall) p p'.
Proof.
  intros Hp Har Hin Hsp Ht Hn. unfold emit_host_batch. set (p1 := foldl _ p _). assert (steps any_kind p p1) as H1'.
  { apply foldl_steps; [|done]. intros q x Hq. by apply steps_emit. }
  assert (Ha1 := host_armed_stays _ _ _ _ H1' Har). clearbody p1.
  set (s1 := fun p e => host_event p (HFim e) Fim (fim_summary e) (PlFim e) (wall (next_reading p))).
  set (s2 := fun p e => host_event p (HAuth e) Auth (auth_summary e) (PlAuth e) (wall (next_reading p))).
  set (s3 := fun p e => host_event p (HProcess e) Process (process_summary e) (PlProcess e) (wall (next_reading p))).
  assert (forall q e, pipeline_inv q -> exists q', s1 q e = Some q' /\ steps any_kind q q') as S1 by (intros; by apply host_event_step).
  assert (forall q e, pipeline_inv q -> exists q', s2 q e = Some q' /\ steps any_kind q q') as S2 by (intros; by apply host_event_step).
  assert (forall q e, pipeline_inv q -> exists q', s3 q e = Some q' /\ steps any_kind q q') as S3 by (intros; by apply host_event_step).
  destruct o as [e|e|e]; cbn in Hin.
  - destruct (host_events_find s1 (hb_fim batch) e p1 entry (host_reports_at (host_record entry) wall) S1) as (p2 & -> & H2' & L);
      [intros; by apply host_event_finds_at|apply H1'|done..|]. cbn [mbind option_bind].
    destruct (each_steps any_kind s2 (hb_auth batch) p2 S2 (proj1 H2')) as (p3 & -> & H3'). cbn [mbind option_bind].
    destruct (each_steps any_kind s3 (hb_process batch) p3 S3 (proj1 H3')) as (p4 & -> & H4'). exists p4. split; [done|].
    eapply announced_after; [exact H1'|]. eapply announced_before; [exact L|]. by eapply steps_trans.
  - destruct (each_steps any_kind s1 (hb_fim batch) p1 S1 (proj1 H1')) as (p2 & -> & H2'). cbn [mbind option_bind].
    destruct (host_events_find s2 (hb_auth batch) e p2 entry (host_reports_at (host_record entry) wall) S2) as (p3 & -> & H3' & L);
      [intros; by apply host_event_finds_at|apply H2'|by eapply host_armed_stays|done|]. cbn [mbind option_bind].
    destruct (each_steps any_kind s3 (hb_process batch) p3 S3 (proj1 H3')) as (p4 & -> & H4'). exists p4. split; [done|].
    eapply announced_after; [exact (steps_trans _ _ _ _ H1' H2')|]. by eapply announced_before.
  - destruct (each_steps any_kind s1 (hb_fim batch) p1 S1 (proj1 H1')) as (p2 & -> & H2'). cbn [mbind option_bind].
    destruct (each_steps any_kind s2 (hb_auth batch) p2 S2 (proj1 H2')) as (p3 & -> & H3'). cbn [mbind option_bind].
    pose proof (steps_trans _ _ _ _ H1' (steps_trans _ _ _ _ H2' H3')) as H13.
    destruct (host_events_find s3 (hb_process batch) e p3 entry (host_reports_at (host_record entry) wall) S3) as (p4 & -> & H4' & L);
      [intros; by apply host_event_finds_at|apply H3'|by eapply host_armed_stays|done|]. exists p4. split; [done|]. by eapply announced_after.
Qed.
End pipeline.

(** ** The sensor *)

Section sensor.
Context {EP : Etherparse} `{RegexLib, AhoCorasickLib, !HashOrder Z, !HashOrder Flow.FlowKey, !HashOrder FragmentKey}.

(** What an alert of a host rule says; nothing is blocked on the host. *)
Definition host_rule_record (r : Rule) : AlertRecord :=
  mkAlertRecord (r_sid r) (r_rev r) (r_msg r) (r_classtype r) (RuleModel.severity r) (group_metadata (r_metadata r)) false.

Lemma compile_host_rule_inv r limits entry :
  compile_host_rule r limits = inr entry ->
  is_host_rule_by_options r = true /\ host_record entry = host_rule_record r /\ hr_threshold entry = r_threshold r /\
  hr_no_alert entry = r_no_alert r.
Proof.
  unfold compile_host_rule. destruct (host_event_kind r) as [[a b]|[kind|]] eqn:Ek; [done| |done].
  destruct (compile_conditions limits (r_options r)); [done|]. intros [= <-]. split; [|done].
  unfold host_event_kind in Ek. unfold is_host_rule_by_options. destruct (existsb _ _) eqn:Ex; [done|].
  assert (omap option_host_event_kind (r_options r) = []) as E0; [|by rewrite E0 in Ek].
  clear -Ex. induction (r_options r) as [|o os IH]; [done|]. cbn in Ex |- *. apply orb_false_iff in Ex as [E1 E2].
  apply bool_decide_eq_false in E1. rewrite <- eq_None_not_Some in E1. rewrite E1. by apply IH.
Qed.

(** A host rule of the files is armed, and stays so. *)
Lemma host_rule_armed c read p set r entry l p' :
  launched c read p set -> detect_enabled (detect c) = true -> r ∈ rset_rules set -> is_evaluable r = true ->
  compile_host_rule r (el_compile (engine_limits c)) = inr entry -> Forall step_ok l -> sensor_run p l = Some p' ->
  pipeline_inv p' /\ host_armed p' entry.
Proof.
  intros Hla Hd Hr Hev Hc Hok Hrun. destruct (launched_runs _ _ _ _ _ _ Hla Hok Hrun) as (Hkept & e & rep & Eb & E0).
  rewrite Hd in E0. split; [apply Hkept|]. eapply host_armed_stays; [exact Hkept|].
  unfold build_engine, engine_new in Eb. cbv zeta in Eb. destruct (compile _ _ _) as [[rs rp]|]; [|done]. cbn [mbind option_bind] in Eb.
  set (input := List.filter is_host_rule_by_options (rset_rules set)) in Eb.
  pose proof (compile_host_inv input (el_compile (engine_limits c))) as Hinv.
  assert (entry ∈ hs_rules (compile_host input (el_compile (engine_limits c))).1) as Hin.
  { eapply compile_host_arms; [|exact Hev|exact Hc]. unfold input. apply list_elem_of_In, filter_In. split; [by apply list_elem_of_In|].
    by destruct (compile_host_rule_inv _ _ _ Hc). }
  destruct (compile_host input _) as [hr hrep]. cbn [fst] in *. injection Eb as <- _.
  apply list_elem_of_lookup in Hin as [i Hi]. eexists _, i. split; [exact E0|]. by split.
Qed.

(** C8: what a host rule looks for on the host is reported. Take a sensor with detection enabled that has
    started with an accepted configuration (at least one observation per host for the correlation, blocks
    and process intervals of less than 2^62 seconds), and a rule of its rule files that the engine supports, that compiles as a
    host rule, and that has neither a threshold nor [noalert]; let it have handled any sequence of
    packets, host events and verdicts. When the host sensors hand over a batch with a file change, a login
    or a process of which every condition of the rule holds, whatever bits are set on the host, the batch
    is handled and an alert with the rule's sid, message and severity, at a reading of the clock made
    while the batch is handled, is emitted, which is to say handed to the event log (that counts it as
    dropped when its queue is full). *)
Theorem host_event_is_detected c read p set r entry l p' batch wall o :
  launched c read p set -> detect_enabled (detect c) = true -> r ∈ rset_rules set -> is_evaluable r = true ->
  compile_host_rule r (el_compile (engine_limits c)) = inr entry -> r_threshold r = None -> r_no_alert r = false ->
  Forall step_ok l -> sensor_run p l = Some p' -> in_batch batch o -> speaks_of entry o ->
  exists p'', emit_host_batch p' batch wall = Some p'' /\ announced (host_reports_at (host_rule_record r) wall) p' p''.
Proof.
  intros Hla Hd Hr Hev Hc Ht Hn Hok Hrun Hin Hsp.
  destruct (host_rule_armed _ _ _ _ _ _ _ _ Hla Hd Hr Hev Hc Hok Hrun) as [Hp Har].
  destruct (compile_host_rule_inv _ _ _ Hc) as (_ & <- & Et & En).
  apply (emit_host_batch_finds p' batch wall o entry Hp Har Hin Hsp); congruence.
Qed.
End sensor.
