(* ===== verification/Run.v ===== *)
(** The loops of the running sensor: [run_packet_loop], [host_only_loop] and [main_loop] of
    [crates/cli/src/run.rs], with what they call in [crates/cli/src/pipeline.rs]: servicing the host
    sensors, draining them at the end, publishing the counters, and the stats events made of them.

    [Running] is the pipeline with its host sensor, the slot the counters are published into and the
    stats events emitted; its last field records the steps the pipeline took and is read by nothing.
    A loop runs on a list of turns: a turn says what the clocks, the shutdown flag, the operating
    system and the kernel answer, and which steps the other threads take before it, so that a run is
    any interleaving with the verdict thread, the worker of the file integrity monitor, the reader of
    the journal and the stats thread. A loop that has used up its turns is still running. [None] is a
    panic. The log lines are left out, and the lock of the slot is always obtained. *)

From S2P Require Import Prelude Text Clock Net Event AuthLog Fim Process Sources FimWorker HostSensor Replay Capture Config Settings Policy Stream Flow Decode Defrag RuleModel Vars Eval Loader Compile Host Engine Prevent Kernel Correlation Pipeline PipelineFacts Sensor.

Definition PUBLISH_EVERY_PACKETS : Z := 1024.
Definition HOST_DRAIN : Z := secs 5.

(** ** What is published *)

Record PipelineSnapshot := mkPipelineSnapshot {
  sn_source : text;
  sn_capture : CaptureCounters;
  sn_decode : DecodeCounters;
  sn_flows : FlowCounters;
  sn_active_flows : Z;
  sn_flow_capacity : Z;
  sn_defrag : DefragCounters;
  sn_active_fragment_sets : Z;
  sn_streams : StreamCounters;
  sn_stream_bytes_buffered : Z;
  sn_engine : EngineCounters;
  sn_rules : RuleCounts;
  sn_hids : HidsStats;
  sn_correlation : CorrelationStats;
  sn_prevent : PreventStats;
  sn_capture_truncated : bool
}.

Definition PreventStats_default : PreventStats :=
  mkStats false EmptyString EmptyString 0 0 0 0 0 0 0 0 0 0 0 0 0 0 0 0 0 0 0.

Definition CorrelationStats_default : CorrelationStats := mkCorrelationStats false 0 0 0.

(** ** Stats events *)

Record EventStats := mkEventStats {
  es_emitted : Z;
  es_dropped : Z;
  es_written : Z;
  es_write_errors : Z;
  es_queued : Z;
  es_queue_capacity : Z
}.

Record RuleStats := mkRuleStats {
  rs_loaded : Z;
  rs_skipped : Z;
  rs_with_unsupported_options : Z
}.

(** [drop_rate] is the quotient before it is rounded to a float. *)
Record CaptureStats := mkCaptureStats {
  cst_enabled : bool;
  cst_source : option text;
  cst_packets : Z;
  cst_bytes : Z;
  cst_drops : Z;
  cst_interface_drops : Z;
  cst_drop_rate : Z * Z
}.

Record DecodeStats := mkDecodeStats {
  dst_enabled : bool;
  dst_packets : Z;
  dst_ipv4 : Z;
  dst_ipv6 : Z;
  dst_tcp : Z;
  dst_udp : Z;
  dst_icmp : Z;
  dst_non_ip : Z;
  dst_fragments : Z;
  dst_snapped : Z;
  dst_anomalous : Z;
  dst_anomalies : Z
}.

Record FlowStats := mkFlowStats {
  fst_enabled : bool;
  fst_active : Z;
  fst_created : Z;
  fst_closed : Z;
  fst_timed_out : Z;
  fst_evicted : Z;
  fst_capacity : Z
}.

Record ReassemblyStats := mkReassemblyStats {
  rst_enabled : bool;
  rst_fragments : Z;
  rst_datagrams_reassembled : Z;
  rst_fragment_sets_active : Z;
  rst_fragment_timeouts : Z;
  rst_fragment_evictions : Z;
  rst_fragment_conflicts : Z;
  rst_stream_bytes_buffered : Z;
  rst_stream_bytes_delivered : Z;
  rst_stream_conflicts : Z;
  rst_stream_out_of_window : Z;
  rst_stream_after_fin : Z;
  rst_stream_flushed_unacked : Z;
  rst_stream_dropped_incomplete : Z;
  rst_resets_ignored : Z
}.

Record EngineStats := mkEngineStats {
  egs_enabled : bool;
  egs_rules : RuleCounts;
  egs_counters : EngineCounters
}.

Record StatsEvent := mkStatsEvent {
  sv_uptime_secs : Z;
  sv_events : EventStats;
  sv_rules : RuleStats;
  sv_capture : CaptureStats;
  sv_decode : DecodeStats;
  sv_flows : FlowStats;
  sv_reassembly : ReassemblyStats;
  sv_engine : EngineStats;
  sv_hids : HidsStats;
  sv_correlation : CorrelationStats;
  sv_prevent : PreventStats
}.

(** The body that [emit_stats] makes of a snapshot. The counters of the engine are one field. *)
Definition stats_event (uptime_secs : Z) (queue : EventStats) (rules : RuleStats) (s : PipelineSnapshot) : StatsEvent :=
  let capturing := negb (bool_decide (sn_source s = [])) in
  let c := sn_capture s in
  let d := sn_decode s in
  let f := sn_flows s in
  let g := sn_defrag s in
  let t := sn_streams s in
  mkStatsEvent uptime_secs queue rules
    (mkCaptureStats capturing (if capturing then Some (sn_source s) else None) (cc_packets c) (cc_bytes c) (cc_drops c)
       (cc_interface_drops c) (drop_rate c))
    (mkDecodeStats capturing (Decode.dc_packets d) (dc_ipv4 d) (dc_ipv6 d) (dc_tcp d) (dc_udp d) (dc_icmp d) (dc_non_ip d) (dc_fragments d)
       (dc_snapped d) (dc_anomalous d) (dc_anomalies d))
    (mkFlowStats capturing (sn_active_flows s) (created f) (closed f) (timed_out f) (evicted f) (sn_flow_capacity s))
    (mkReassemblyStats capturing (n_fragments g) (n_completed g) (sn_active_fragment_sets s) (n_timed_out g) (n_evicted g)
       (n_conflicting_overlaps g) (sn_stream_bytes_buffered s) (bytes_delivered t) (conflicting_overlaps t) (out_of_window t)
       (after_fin t) (flushed_unacked t) (dropped_incomplete t) (resets_ignored f))
    (mkEngineStats (capturing && (0 <? rc_armed (sn_rules s))) (sn_rules s) (sn_engine s))
    (sn_hids s) (sn_correlation s) (sn_prevent s).

Section run.
Context {EP : Etherparse} `{RegexLib, AhoCorasickLib, !HashOrder Z, !HashOrder Flow.FlowKey, !HashOrder FragmentKey}.
Context {SQ : Sqlite} {SJ : SerdeJson} (sha256_hex : list Z -> text) (debug : text -> text).

Record Running := mkRunning {
  r_pipeline : PacketPipeline;
  r_host : option HostSystem;
  r_source : text;
  r_slot : PipelineSnapshot;
  r_stats : list StatsEvent;
  (* history *)
  r_trace : list SensorStep
}.

Definition with_host (r : Running) (h : option HostSystem) : Running :=
  mkRunning (r_pipeline r) h (r_source r) (r_slot r) (r_stats r) (r_trace r).
Definition with_slot (r : Running) (s : PipelineSnapshot) : Running :=
  mkRunning (r_pipeline r) (r_host r) (r_source r) s (r_stats r) (r_trace r).

(** One step of the pipeline. *)
Definition act (s : SensorStep) (r : Running) : option Running :=
  p ← sensor_step (r_pipeline r) s;
  Some (mkRunning p (r_host r) (r_source r) (r_slot r) (r_stats r) (r_trace r ++ [s])).

(** ** Host monitoring *)

(** [poll]: [None] is its panic. *)
Definition poll (i : PollInput) (s : HostSensor) : option (HostSensor * HostBatch) :=
  if poll_panics i s then None else Some (poll_at debug i s).

(** [service_host]. *)
Definition service_host (i : PollInput) (wall : nat -> Z) (r : Running) : option Running :=
  match r_host r with
  | None => Some r
  | Some h =>
      '(sensor, batch) ← poll i (sy_sensor h);
      act (Feed (InHost batch wall)) (with_host r (Some (mkHostSystem sensor (sy_worker h))))
  end.

(** One turn of [drain_host]: the poll, the readings of the wall clock, and the monotonic clock afterwards. *)
Record DrainTurn := mkDrainTurn {
  dt_poll : PollInput;
  dt_wall : nat -> Z;
  dt_now : Z
}.

(** The loop of [drain_host]: the state, and whether it returned. *)
Fixpoint drain_loop (turns : list DrainTurn) (until : Z) (r : Running) : option (Running * bool) :=
  match turns with
  | [] => Some (r, false)
  | t :: turns' =>
      match r_host r with
      | None => Some (r, true)
      | Some h =>
          '(sensor, batch) ← poll (dt_poll t) (sy_sensor h);
          let seen_something := negb (batch_is_empty batch) || (0 <? hb_overflows batch) in
          let baseline_ready := 0 <? fc_rescans (st_fim (hn_stats sensor)) in
          r ← act (Feed (InHost batch (dt_wall t))) (with_host r (Some (mkHostSystem sensor (sy_worker h))));
          if (seen_something && baseline_ready) || (until <=? dt_now t) then Some (r, true)
          else drain_loop turns' until r
      end
  end.

Definition drain_host (deadline started : Z) (turns : list DrainTurn) (r : Running) : option (Running * bool) :=
  match r_host r with None => Some (r, true) | Some _ => drain_loop turns (started + deadline) r end.

(** [host_stats]. *)
Definition host_stats (r : Running) : HidsStats :=
  let s := match r_host r with Some h => hn_stats (sy_sensor h) | None => HidsStats_default end in
  mkHidsStats (st_enabled s) (st_fim s) (st_auth_records s) (st_auth_unparsed s) (st_auth_suspicious s) (st_process_events s)
    (p_host_alerts (r_pipeline r)) (st_sources s).

(** ** Publishing *)

(** What [publish] makes of the pipeline: [stream_counters] with the bytes the pipeline counted. *)
Definition snapshot_of (capture : CaptureCounters) (r : Running) : PipelineSnapshot :=
  let p := r_pipeline r in
  let t := Flow.stream_counters (p_flows p) in
  let streams :=
    mkStreamCounters (segments t) (bytes_accepted t) (p_stream_bytes_delivered p) (overlaps t) (conflicting_overlaps t)
      (refused_bytes t) (out_of_window t) (sc_before_window t) (after_fin t) (syn_data t) (flushed_unacked t) (dropped_incomplete t) in
  mkPipelineSnapshot (r_source r) capture (p_decode p) (flow_counters (p_flows p)) (table_len (p_flows p))
    (Flow.max_flows (Flow.limits (p_flows p))) (Defrag.counters (p_defrag p)) (Z.of_nat (size (Defrag.sets (p_defrag p))))
    streams (stream_bytes (p_flows p))
    (match p_engine p with Some e => engine_counters e | None => Engine.counters_default end)
    (p_rules p) (host_stats r)
    (match p_correlator p with Some c => Correlation.stats c | None => CorrelationStats_default end)
    (match p_prevention p with Some s => if p_poisoned p then PreventStats_default else Prevent.stats s | None => PreventStats_default end)
    (sn_capture_truncated (r_slot r)).

(** [publish]: the queue's depth is read first, which does nothing when the lock is poisoned; what the slot
    says of a torn file stays. *)
Definition publish (depth : option text) (capture : CaptureCounters) (r : Running) : option Running :=
  r ← match p_prevention (r_pipeline r), depth_read depth (p_prevent_queue (r_pipeline r)) with
      | Some _, Some d => act (Depth d) r
      | _, _ => Some r
      end;
  Some (with_slot r (snapshot_of capture r)).

(** ** The other threads *)

(** [emit_stats]: the stats thread, and the main thread at the start and at the end. *)
Definition emit_stats (rules : RuleStats) (uptime_secs : Z) (queue : EventStats) (r : Running) : Running :=
  mkRunning (r_pipeline r) (r_host r) (r_source r) (r_slot r) (r_stats r ++ [stats_event uptime_secs queue rules (r_slot r)]) (r_trace r).

Inductive OtherStep :=
| OtherHost (a : HostAct)
| OtherJudge (packet : QueuedPacket) (clock : ClockReading)
| OtherStats (uptime_secs : Z) (queue : EventStats).

(** The threads of the host sensor are all of its steps but those of its owner. *)
Definition of_thread (a : HostAct) : bool := match a with Poll _ | DropSensor => false | _ => true end.

Definition other_step (rules : RuleStats) (o : OtherStep) (r : Running) : option Running :=
  match o with
  | OtherHost a =>
      Some (if of_thread a then with_host r ((fun h => (host_step sha256_hex debug h a).1) <$> r_host r) else r)
  | OtherJudge packet clock => act (Judge packet clock) r
  | OtherStats uptime_secs queue => Some (emit_stats rules uptime_secs queue r)
  end.

Fixpoint other_steps (rules : RuleStats) (l : list OtherStep) (r : Running) : option Running :=
  match l with [] => Some r | o :: l' => r ← other_step rules o r; other_steps rules l' r end.

(** ** The loops *)

(** One turn: what the other threads do before it, and what this thread is then answered. *)
Record Turn := mkTurn {
  tn_others : list OtherStep;
  tn_shutdown : bool;
  tn_instant : nat -> Z;
  tn_poll : PollInput;
  tn_wall : nat -> Z;
  tn_depth : option text
}.

(** What the end of a loop is answered: [drain_host] and the last [publish]. *)
Record EndTurn := mkEndTurn {
  en_started : Z;
  en_drain : list DrainTurn;
  en_depth : option text
}.

(** Servicing the host sensors and publishing, which both loops do together. *)
Definition attend (t : Turn) (capture : CaptureCounters) (r : Running) : option Running :=
  r ← service_host (tn_poll t) (tn_wall t) r;
  publish (tn_depth t) capture r.

Definition to_pipeline (interface : text) (p : Replay.RawPacket) : Pipeline.RawPacket :=
  Pipeline.mkRawPacket (rp_data p) (rp_original_len p) (rp_timestamp p) interface.

Definition mark_truncated (r : Running) : Running :=
  let s := r_slot r in
  with_slot r (mkPipelineSnapshot (sn_source s) (sn_capture s) (sn_decode s) (sn_flows s) (sn_active_flows s) (sn_flow_capacity s)
    (sn_defrag s) (sn_active_fragment_sets s) (sn_streams s) (sn_stream_bytes_buffered s) (sn_engine s) (sn_rules s) (sn_hids s)
    (sn_correlation s) (sn_prevent s) true).

(** [host_only_loop]: the state, and whether it returned. *)
Fixpoint host_turns (rules : RuleStats) (turns : list Turn) (r : Running) : option (Running * bool) :=
  match turns with
  | [] => Some (r, false)
  | t :: turns' =>
      r ← other_steps rules (tn_others t) r;
      if tn_shutdown t then Some (r, true)
      else r ← attend t CaptureCounters_default r; host_turns rules turns' r
  end.

Definition host_only_loop (rules : RuleStats) (turns : list Turn) (e : EndTurn) (r : Running) : option (Running * bool) :=
  '(r, stopped) ← host_turns rules turns r;
  if negb stopped then Some (r, false)
  else
    '(r, drained) ← drain_host HOST_DRAIN (en_started e) (en_drain e) r;
    if negb drained then Some (r, false)
    else r ← publish (en_depth e) CaptureCounters_default r; Some (r, true).

Section source.
Context {S : Type} `{PacketSource S} (torn : S -> bool).

(** The [while] of [run_packet_loop]: [None] as long as it is running, then the error it met. *)
Fixpoint packet_turns (rules : RuleStats) (turns : list Turn) (s : S) (seen : Z) (r : Running) :
    option (S * Running * option (option CaptureError)) :=
  match turns with
  | [] => Some (s, r, None)
  | t :: turns' =>
      r ← other_steps rules (tn_others t) r;
      if tn_shutdown t then Some (s, r, Some None)
      else
        match source_next s with
        | (s, inr (CapturedFrame f)) =>
            r ← act (Feed (InPacket (to_pipeline (source_name s) f) (tn_instant t))) r;
            let seen := seen + 1 in
            if seen mod PUBLISH_EVERY_PACKETS =? 0
            then let '(s, counters) := source_counters s in r ← attend t counters r; packet_turns rules turns' s seen r
            else packet_turns rules turns' s seen r
        | (s, inr CapturedIdle) =>
            let '(s, counters) := source_counters s in r ← attend t counters r; packet_turns rules turns' s seen r
        | (s, inr CapturedEnd) => Some (s, r, Some None)
        | (s, inl error) => Some (s, r, Some (Some error))
        end
  end.

(** [run_packet_loop]. *)
Definition run_packet_loop (rules : RuleStats) (turns : list Turn) (e : EndTurn) (s : S) (r : Running) :
    option (S * Running * option (option CaptureError)) :=
  '(s, r, result) ← packet_turns rules turns s 0 r;
  match result with
  | None => Some (s, r, None)
  | Some error =>
      r ← act (Feed InFlush) r;
      '(r, drained) ← drain_host HOST_DRAIN (en_started e) (en_drain e) r;
      if negb drained then Some (s, r, None)
      else
        let '(s, counters) := source_counters s in
        r ← publish (en_depth e) counters r;
        Some (s, if torn s then mark_truncated r else r, Some error)
  end.

(** ** The main thread *)

(** What [main_loop] is given and answered, in the order of its calls. *)
Record Main := mkMain {
  mn_once : bool;
  mn_enforcing : bool;
  mn_start_depth : option text;
  mn_start_queue : EventStats;
  mn_turns : list Turn;
  mn_end : EndTurn;
  mn_signalled : bool;
  mn_more_turns : list Turn;
  mn_more_end : EndTurn;
  mn_joining : list OtherStep;
  mn_uptime : Z;
  mn_end_queue : EventStats
}.

(** The slot before anything was published. *)
Definition first_slot (source : text) (max_flows : Z) : PipelineSnapshot :=
  mkPipelineSnapshot source CaptureCounters_default Decode.counters_default (mkFlowCounters 0 0 0 0 0) 0 max_flows
    DefragCounters_default 0 StreamCounters_default 0 Engine.counters_default (mkRuleCounts 0 0 0 0) HidsStats_default
    CorrelationStats_default PreventStats_default false.

(** The loop that serves the source, or the host alone. *)
Definition serve (m : Main) (rules : RuleStats) (source : option S) (r : Running) : option (Running * option (option CaptureError)) :=
  match source with
  | Some s => '(_, r, outcome) ← run_packet_loop rules (mn_turns m) (mn_end m) s r; Some (r, outcome)
  | None => '(r, returned) ← host_only_loop rules (mn_turns m) (mn_end m) r; Some (r, if returned : bool then Some None else None)
  end.

(** A source that has ended does not end the enforcing. *)
Definition stay_up (m : Main) (rules : RuleStats) (outcome : option (option CaptureError)) (r : Running) :
    option (Running * option (option CaptureError)) :=
  match outcome with
  | Some None =>
      if mn_enforcing m && negb (mn_signalled m)
      then '(r, returned) ← host_only_loop rules (mn_more_turns m) (mn_more_end m) r; Some (r, if returned : bool then Some None else None)
      else Some (r, outcome)
  | _ => Some (r, outcome)
  end.

(** [main_loop] from the first [publish] on, for a source or none: the last field says how it
    returned, if it did. *)
Definition main_loop (m : Main) (rules : RuleStats) (source : option S) (r : Running) : option (Running * option (option CaptureError)) :=
  r ← publish (mn_start_depth m) CaptureCounters_default r;
  let r := emit_stats rules 0 (mn_start_queue m) r in
  if mn_once m then Some (r, Some None)
  else
    '(r, outcome) ← serve m rules source r;
    '(r, outcome) ← stay_up m rules outcome r;
    match outcome with
    | None => Some (r, None)
    | Some _ =>
        r ← other_steps rules (mn_joining m) r;
        Some (emit_stats rules (mn_uptime m) (mn_end_queue m) r, outcome)
    end.
End source.
End run.
