(* ===== verification/RunFacts.v ===== *)
(** What the loops of [Run] guarantee: the frames a source hands over reach the pipeline, each once and
    in order, the host sensors are not starved by traffic, a replay comes to its end, and the counters
    that are published at the end are those of the run. *)

From S2P Require Import Prelude Text Clock Net Event AuthLog Fim Process Sources FimWorker HostSensor Replay Capture Config Settings Policy Stream Flow Decode Defrag RuleModel Vars Eval Loader Compile Host Engine Prevent Kernel Correlation Pipeline PipelineFacts Sensor Run.

(** ** The decoded packets are counted once *)

Section decode_count.
Context {EP : Etherparse} `{RegexLib, AhoCorasickLib, !HashOrder Z, !HashOrder Flow.FlowKey, !HashOrder FragmentKey}.
Implicit Types p : PacketPipeline.

Lemma foldl_decode {A : Type} (f : PacketPipeline -> A -> PacketPipeline) l p :
  (forall p a, p_decode (f p a) = p_decode p) -> p_decode (foldl f p l) = p_decode p.
Proof. intros Hf. revert p. induction l as [|a l IH]; intros p; cbn; [done|]. by rewrite IH. Qed.

Lemma each_decode {A : Type} (step : PacketPipeline -> A -> option PacketPipeline) l p p' :
  (forall p a p', step p a = Some p' -> p_decode p' = p_decode p) -> each step p l = Some p' -> p_decode p' = p_decode p.
Proof.
  intros Hs. revert p. induction l as [|a l IH]; intros p E; cbn in E; [by injection E as <-|].
  destruct (step p a) as [p1|] eqn:E1; [|done]. cbn in E. apply IH in E as ->. by eapply Hs.
Qed.

Lemma correlate_decode p domain kind sid severity summary timestamp p' :
  correlate p domain kind sid severity summary timestamp = Some p' -> p_decode p' = p_decode p.
Proof.
  unfold correlate. destruct (p_correlator p) as [c|]; [|by intros [= <-]].
  destruct (Correlation.observe c _) as [[c' [i|]]|]; intros [= <-]; by destruct p.
Qed.

Lemma emit_alerts_decode p flow_id tuple timestamp instant records p' :
  emit_alerts p flow_id tuple timestamp instant records = Some p' -> p_decode p' = p_decode p.
Proof.
  unfold emit_alerts. intros E. destruct (each _ p records) as [q|] eqn:Eq; [|done]. cbn [mbind option_bind] in E.
  transitivity (p_decode q).
  - clear Eq. revert q E. induction records as [|r records IH]; intros q E; cbn in E; [by injection E as <-|].
    destruct (correlate q _ _ _ _ _ _) as [q'|] eqn:Eq; [|done]. cbn in E. apply correlate_decode in Eq as <-. by apply IH.
  - apply each_decode in Eq; [done|]. intros p1 r p2. unfold emit_alert. destruct (enforce p1 _ _ _) as [[p3 action]|] eqn:E3; [|done].
    cbn [mbind option_bind]. intros [= <-]. rewrite <- (enforce_quiet p_decode p1 (ar_blocks r) tuple _ p3 action ltac:(by intros []) ltac:(by intros []) E3).
    by destruct p3.
Qed.

Lemma engine_decode p (run : option (Engine * list AlertRecord)) flow_id tuple timestamp instant p' :
  ('(e, alerts) ← run; emit_alerts (set_engine p (Some e)) flow_id tuple timestamp instant alerts) = Some p' -> p_decode p' = p_decode p.
Proof.
  intros E. destruct run as [[e alerts]|]; [|done]. cbn [mbind option_bind] in E. apply emit_alerts_decode in E as ->. by destruct p.
Qed.

Lemma consume_ready_decode p flow_id oriented ready timestamp instant p' :
  consume_ready p flow_id oriented ready timestamp instant = Some p' -> p_decode p' = p_decode p.
Proof.
  assert (forall p dir bytes p', consume_direction p flow_id oriented dir bytes timestamp instant = Some p' -> p_decode p' = p_decode p) as Hd.
  { intros q dir bytes q' E. unfold consume_direction in E. case_bool_decide; [by injection E as <-|].
    destruct (p_engine q) as [e|]; [|by injection E as <-]. by eapply engine_decode. }
  unfold consume_ready. destruct (StreamReady_is_empty ready); [by intros [= <-]|]. intros E.
  destruct (consume_direction _ _ _ true _ _ _) as [p1|] eqn:E1; [|done]. cbn in E. apply Hd in E as ->, E1 as ->. by destruct p.
Qed.

Lemma pipeline_observe_decode p packet instant p' id :
  pipeline_observe p packet instant = Some (p', id) -> p_decode p' = p_decode p.
Proof.
  unfold pipeline_observe. destruct (Flow.observe _ _ _ _) as [[[fl ready] observed]|]; [|done]. cbn [mbind option_bind]. intros E.
  destruct (if _ : bool then _ else Some (set_flow_table p fl)) as [p1|] eqn:E1; [|done]. cbn [mbind option_bind] in E.
  destruct (consume_ready p1 _ _ _ _ _) as [p2|] eqn:E2; [|done]. injection E as <- <-. apply consume_ready_decode in E2 as ->.
  destruct (_ && _); [|injection E1 as <-; by destruct p]. unfold pipeline_inspect_packet in E1.
  destruct (p_engine _); [|injection E1 as <-; by destruct p].
  transitivity (p_decode (set_flow_table p fl)); [|by destruct p]. by eapply engine_decode.
Qed.

Lemma track_decode p d timestamp instant p' id : track p d timestamp instant = Some (p', id) -> p_decode p' = p_decode p.
Proof.
  unfold track. destruct (d_network d) as [network|]; [|by intros [= <- <-]]. destruct (net_is_fragment network).
  - destruct (pipeline_observe p _ _) as [[p1 id1]|] eqn:E1; [|done]. cbn [mbind option_bind]. unfold defragment.
    destruct (Defrag.push _ _ _ _) as [[de r]|]; [|done]. cbn [mbind option_bind]. apply pipeline_observe_decode in E1.
    destruct r as [r|]; cbn [mbind option_bind].
    + unfold on_reassembled. destruct (decode_transport_bytes _ _) as [dt|]; [|done]. cbn [mbind option_bind].
      destruct (pipeline_observe _ _ _) as [[p2 id2]|] eqn:E2; [|done]. cbn. intros [= <- <-].
      apply pipeline_observe_decode in E2 as ->. by destruct p1.
    + intros [= <- <-]. by destruct p1.
  - destruct (pipeline_observe p _ _) as [[p1 id1]|] eqn:E1; [|done]. cbn. intros [= <- <-]. by eapply pipeline_observe_decode.
Qed.

Lemma drain_ended_flows_decode p : p_decode (drain_ended_flows p) = p_decode p.
Proof.
  assert (p_decode (take_final_deliveries p) = p_decode p) as Ht.
  { unfold take_final_deliveries. set (q := foldl take_tail p _). assert (p_decode q = p_decode p) as Hq.
    { apply foldl_decode. intros r e. unfold take_tail. by destruct (StreamReady_is_empty _), r. }
    destruct (p_engine q); [|done]. rewrite <- Hq. by destruct q. }
  unfold drain_ended_flows. case_bool_decide; [done|]. set (q := set_flow_table _ _).
  assert (p_decode q = p_decode p) as Hq by (rewrite <- Ht; unfold q; by destruct (take_final_deliveries p)).
  destruct (negb _); [done|]. rewrite <- Hq. apply foldl_decode. intros r e. unfold emit_flow.
  destruct (oriented_tuple _) as [a b]. by destruct r.
Qed.

Lemma host_event_decode p o kind summary payload wall p' :
  host_event p o kind summary payload wall = Some p' -> p_decode p' = p_decode p.
Proof.
  unfold host_event, inspect_and_emit_host. intros E.
  destruct (match p_engine p with Some _ => _ | None => _ end) as [[p1 records]|] eqn:E1; [|done]. cbn [mbind option_bind] in E.
  assert (p_decode p1 = p_decode p) as H1.
  { destruct (p_engine p) as [e|]; [|by injection E1 as <- <-]. destruct (inspect_host e o wall) as [[e' alerts]|]; [|done].
    injection E1 as <- <-. by destruct p. }
  destruct (match records with [] => _ | _ => _ end) as [[sid severity] text'].
  destruct (correlate _ _ _ _ _ _ _) as [p2|] eqn:E2; [|done]. injection E as <-. apply correlate_decode in E2.
  transitivity (p_decode p2); [by destruct p2|]. rewrite E2, <- H1. transitivity (p_decode (add_host_alerts p1 (len records))); [|by destruct p1].
  apply foldl_decode. intros q r. by destruct q.
Qed.

Lemma emit_host_batch_decode p batch wall p' : emit_host_batch p batch wall = Some p' -> p_decode p' = p_decode p.
Proof.
  unfold emit_host_batch. set (p1 := foldl _ p _). assert (p_decode p1 = p_decode p) as <-.
  { apply foldl_decode. intros q _. by destruct q. }
  clearbody p1. intros E. destruct (each _ p1 _) as [p2|] eqn:E1; [|done]. cbn [mbind option_bind] in E.
  destruct (each _ p2 _) as [p3|] eqn:E2; [|done]. cbn [mbind option_bind] in E.
  apply each_decode in E1 as <-; [|intros; by eapply host_event_decode].
  apply each_decode in E2 as <-; [|intros; by eapply host_event_decode].
  apply each_decode in E; [done|intros; by eapply host_event_decode].
Qed.

(** The packets among the steps of the sensor. *)
Definition step_packet (s : SensorStep) : option Pipeline.RawPacket :=
  match s with Feed (InPacket p _) => Some p | _ => None end.
Definition packets_of (l : list SensorStep) : list Pipeline.RawPacket := omap step_packet l.

Lemma sensor_step_decode p s p' :
  sensor_step p s = Some p' -> Decode.dc_packets (p_decode p') = Decode.dc_packets (p_decode p) + len (packets_of [s]).
Proof.
  destruct s as [[packet instant|batch wall|]|packet clock|d|]; cbn [sensor_step pipeline_step]; intros E.
  - unfold on_packet in E. destruct (Decode.decode _ _) as [d|]; [|done]. cbn [mbind option_bind] in E.
    destruct (track _ _ _ _) as [[p1 id]|] eqn:E1; [|done]. cbn [mbind option_bind] in E. injection E as <-.
    rewrite drain_ended_flows_decode. apply track_decode in E1.
    transitivity (Decode.dc_packets (p_decode p1)); [destruct (_ && _); [by destruct p1|done]|]. rewrite E1. destruct p. cbn. lia.
  - apply emit_host_batch_decode in E as ->. cbn. lia.
  - unfold pipeline_flush in E. destruct (Flow.flush _); [|done]. injection E as <-. rewrite drain_ended_flows_decode. destruct p. cbn. lia.
  - injection E as <-. unfold verdict. destruct (p_prevention p) as [store|]; cbn; [|lia]. destruct (p_poisoned p); [cbn; lia|].
    destruct (judge_and_resolve _ _ _ _) as [[? ?] ?]. destruct p. cbn. lia.
  - injection E as <-. destruct (p_prevention p), (p_poisoned p); destruct p; cbn; lia.
  - injection E as <-. destruct p. cbn. lia.
Qed.
End decode_count.

(** ** One call after the other *)

Section facts.
Context {EP : Etherparse} `{RegexLib, AhoCorasickLib, !HashOrder Z, !HashOrder Flow.FlowKey, !HashOrder FragmentKey}.
Context {SQ : Sqlite} {SJ : SerdeJson} (sha256_hex : list Z -> text) (debug : text -> text).

(** The pipeline keeps its invariant, and the process table is swept at an interval after which there is
    still an instant. *)
Definition running_inv (r : Running) : Prop :=
  pipeline_inv (r_pipeline r) /\
  forall h, r_host r = Some h -> hs_process_interval (hn_settings (sy_sensor h)) <= LONGEST_BLOCK.

(** The readings of the monotonic clock during a turn. *)
Definition turn_ok (t : Turn) : Prop := clock_ok (tn_instant t) /\ pl_now (tn_poll t) <= UPTIME_MAX.
Definition end_ok (e : EndTurn) : Prop := Forall (fun t => pl_now (dt_poll t) <= UPTIME_MAX) (en_drain e).

Lemma poll_ok i s :
  pl_now i <= UPTIME_MAX -> hs_process_interval (hn_settings s) <= LONGEST_BLOCK ->
  poll debug i s = Some (poll_at debug i s) /\ hn_settings (poll_at debug i s).1 = hn_settings s.
Proof.
  intros H1 H2. unfold poll, poll_panics, instant_add.
  rewrite (proj2 (Z.leb_le _ _)) by (unfold UPTIME_MAX, LONGEST_BLOCK, INSTANT_MAX, secs in *; lia).
  rewrite (bool_decide_eq_false_2 (Some _ = None)) by done. rewrite andb_false_r. split; [done|].
  pose proof (poll_parts debug i s) as Hp. destruct (poll_at debug i s) as [s' b]. apply Hp.
Qed.

(** No thread of the host sensor changes its settings. *)
Lemma host_step_settings h a :
  hn_settings (sy_sensor (host_step sha256_hex debug h a).1) = hn_settings (sy_sensor h).
Proof.
  destruct a as [i| |line| |i|]; cbn [host_step fst sy_sensor]; try done.
  - unfold fim_turn. destruct (sy_worker h); [|done]. destruct (_ || _); [done|]. by destruct (tick sha256_hex i f).
  - pose proof (poll_parts debug i (sy_sensor h)) as Hp. destruct (poll_at debug i (sy_sensor h)) as [s' b]. apply Hp.
Qed.

(** From [r] to [r'] the pipeline took the steps [l], which the trace records. *)
Record goes (r r' : Running) (l : list SensorStep) : Prop := {
  gs_trace : r_trace r' = r_trace r ++ l;
  gs_ok : Forall step_ok l;
  gs_run : sensor_run (r_pipeline r) l = Some (r_pipeline r');
  gs_inv : running_inv r';
  gs_source : r_source r' = r_source r;
  gs_host : is_Some (r_host r') <-> is_Some (r_host r);
  gs_decoded : Decode.dc_packets (p_decode (r_pipeline r')) = Decode.dc_packets (p_decode (r_pipeline r)) + len (packets_of l)
}.

Lemma sensor_run_app p l k : sensor_run p (l ++ k) = (p' ← sensor_run p l; sensor_run p' k).
Proof. revert p. induction l as [|s l IH]; intros p; cbn; [done|]. destruct (sensor_step p s); cbn; [apply IH|done]. Qed.

Lemma packets_of_app l k : packets_of (l ++ k) = packets_of l ++ packets_of k.
Proof. apply omap_app. Qed.

Lemma goes_refl r : running_inv r -> goes r r [].
Proof. intros Hi. constructor; try done; [by rewrite app_nil_r|cbn; lia]. Qed.

Lemma goes_trans r1 r2 r3 l k : goes r1 r2 l -> goes r2 r3 k -> goes r1 r3 (l ++ k).
Proof.
  intros [] []. constructor.
  - by rewrite gs_trace1, gs_trace0, app_assoc.
  - by apply Forall_app.
  - rewrite sensor_run_app, gs_run0. exact gs_run1.
  - done.
  - congruence.
  - by rewrite gs_host1.
  - rewrite packets_of_app, length_app. lia.
Qed.

(** A change of what the pipeline does not see. *)
Lemma goes_beside r r' :
  running_inv r -> r_pipeline r' = r_pipeline r -> r_trace r' = r_trace r -> r_source r' = r_source r ->
  (is_Some (r_host r') <-> is_Some (r_host r)) ->
  (forall h', r_host r' = Some h' -> exists h, r_host r = Some h /\ hn_settings (sy_sensor h') = hn_settings (sy_sensor h)) -> goes r r' [].
Proof.
  intros [Hi Hh] E1 E2 E3 E4 E5. constructor; rewrite ?E1, ?E2; try done; [by rewrite app_nil_r| |cbn; lia].
  split; [by rewrite E1|]. intros h' Eh'. destruct (E5 h' Eh') as (h & Eh & ->). by apply Hh.
Qed.

Lemma goes_aside r r' :
  running_inv r -> r_pipeline r' = r_pipeline r -> r_trace r' = r_trace r -> r_source r' = r_source r -> r_host r' = r_host r -> goes r r' [].
Proof. intros Hi E1 E2 E3 E4. apply goes_beside; rewrite ?E4; try done. intros h Eh. by exists h. Qed.

Lemma act_goes r s :
  running_inv r -> step_ok s ->
  exists r', act s r = Some r' /\ goes r r' [s] /\ r_slot r' = r_slot r /\ r_stats r' = r_stats r /\ r_host r' = r_host r.
Proof.
  intros [Hi Hh] Hs. unfold act. destruct (sensor_step_ok (r_pipeline r) s Hi Hs) as (p & E & Hp & _). rewrite E. cbn.
  eexists. split; [done|]. split; [|done]. constructor; cbn; try done; [by repeat constructor|by rewrite E|by apply sensor_step_decode].
Qed.

(** A batch of host events is no packet. *)
Lemma service_host_goes i wall r :
  running_inv r -> pl_now i <= UPTIME_MAX ->
  exists r' l, service_host debug i wall r = Some r' /\ goes r r' l /\ r_slot r' = r_slot r /\ r_stats r' = r_stats r /\
    match r_host r with Some _ => exists batch, l = [Feed (InHost batch wall)] | None => l = [] end.
Proof.
  intros Hi Hc. unfold service_host. destruct (r_host r) as [h|] eqn:Eh; [|exists r, []; split; [done|]; split; [by apply goes_refl|done]].
  destruct (poll_ok i (sy_sensor h) Hc (proj2 Hi h Eh)) as [-> Hset]. destruct (poll_at debug i (sy_sensor h)) as [sensor batch].
  cbn [mbind option_bind]. assert (goes r (with_host r (Some (mkHostSystem sensor (sy_worker h)))) []) as G0.
  { apply goes_beside; rewrite ?Eh; try done. intros h' [= <-]. by exists h. }
  destruct (act_goes (with_host r (Some (mkHostSystem sensor (sy_worker h)))) (Feed (InHost batch wall)) (gs_inv _ _ _ G0) I) as (r' & E & G & S1 & S2 & _).
  exists r', ([] ++ [Feed (InHost batch wall)]). split; [done|]. split; [|by eauto]. by eapply goes_trans.
Qed.

Lemma publish_goes depth capture r :
  running_inv r ->
  exists r' l, publish depth capture r = Some r' /\ goes r r' l /\ r_stats r' = r_stats r /\ r_host r' = r_host r /\
    r_slot r' = snapshot_of capture r' /\ sn_capture_truncated (r_slot r') = sn_capture_truncated (r_slot r) /\
    packets_of l = [] /\ Forall (fun s => exists d, s = Depth d) l.
Proof.
  intros Hi. unfold publish.
  assert (exists r1 l, match p_prevention (r_pipeline r), depth_read depth (p_prevent_queue (r_pipeline r)) with
      | Some _, Some d => act (Depth d) r | _, _ => Some r end = Some r1 /\ goes r r1 l /\ r_slot r1 = r_slot r /\ r_stats r1 = r_stats r /\
      r_host r1 = r_host r /\ packets_of l = [] /\ Forall (fun s => exists d, s = Depth d) l) as (r1 & l & -> & G & S1 & S2 & S3 & Hp & Hl).
  { destruct (p_prevention (r_pipeline r)), (depth_read depth (p_prevent_queue (r_pipeline r))) as [d|]; try (exists r, []; split; [done|]; split; [by apply goes_refl|done]).
    destruct (act_goes r (Depth d) Hi I) as (r1 & E & G & S1 & S2 & S3). exists r1, [Depth d]. split_and!; try done. repeat constructor. by eexists. }
  cbn [mbind option_bind]. exists (with_slot r1 (snapshot_of capture r1)), (l ++ []). split; [done|]. split.
  - eapply goes_trans; [exact G|]. apply goes_aside; try done. by destruct G.
  - split_and!; try done; [cbn; by rewrite S1|by rewrite app_nil_r|by rewrite app_nil_r].
Qed.

Lemma attend_goes t capture r :
  running_inv r -> turn_ok t ->
  exists r' l, attend debug t capture r = Some r' /\ goes r r' l /\ r_stats r' = r_stats r /\ r_slot r' = snapshot_of capture r' /\
    sn_capture_truncated (r_slot r') = sn_capture_truncated (r_slot r) /\ packets_of l = [] /\
    match r_host r with
    | Some _ => exists batch rest, l = Feed (InHost batch (tn_wall t)) :: rest /\ Forall (fun s => exists d, s = Depth d) rest
    | None => Forall (fun s => exists d, s = Depth d) l
    end.
Proof.
  intros Hi Ht. unfold attend. destruct (service_host_goes (tn_poll t) (tn_wall t) r Hi (proj2 Ht)) as (r1 & l1 & -> & G1 & S1 & S2 & Hl1).
  cbn [mbind option_bind]. destruct (publish_goes (tn_depth t) capture r1) as (r2 & l2 & E2 & G2 & S3 & S4 & S5 & S6 & Hp & Hd); [by destruct G1|].
  exists r2, (l1 ++ l2). split; [done|]. split; [by eapply goes_trans|].
  rewrite packets_of_app, Hp, app_nil_r. split_and!; [congruence|done|congruence| |].
  - destruct (r_host r); [destruct Hl1 as [batch ->]; done|by rewrite Hl1].
  - destruct (r_host r); [destruct Hl1 as [batch ->]; by eexists _, _|by rewrite Hl1].
Qed.

(** The other threads give the pipeline nothing but packets to judge. *)
Lemma other_steps_goes rules os r :
  running_inv r ->
  exists r' l, other_steps sha256_hex debug rules os r = Some r' /\ goes r r' l /\ r_slot r' = r_slot r /\
    packets_of l = [] /\ Forall (fun s => exists packet clock, s = Judge packet clock) l.
Proof.
  revert r. induction os as [|o os IH]; intros r Hi; cbn [other_steps].
  - exists r, []. split_and!; try done. by apply goes_refl.
  - assert (exists r1 l, other_step sha256_hex debug rules o r = Some r1 /\ goes r r1 l /\ r_slot r1 = r_slot r /\ packets_of l = [] /\
      Forall (fun s => exists packet clock, s = Judge packet clock) l) as (r1 & l & -> & G1 & S1 & P1 & F1).
    { destruct o as [a|packet clock|uptime queue]; cbn [other_step].
      - eexists _, []. split; [done|]. split; [|by destruct (of_thread a)]. destruct (of_thread a); [|by apply goes_refl].
        apply goes_beside; try done; [cbn; by rewrite fmap_is_Some|]. cbn. intros h' Eh'. apply fmap_Some in Eh' as (h & Eh & ->).
        exists h. split; [done|]. apply host_step_settings.
      - destruct (act_goes r (Judge packet clock) Hi I) as (r1 & E & G & S1 & S2 & S3). exists r1, [Judge packet clock].
        split_and!; try done. repeat constructor. by eexists _, _.
      - eexists _, []. split; [done|]. split; [|done]. by apply goes_aside. }
    cbn [mbind option_bind]. destruct (IH r1) as (r2 & l2 & E2 & G2 & S2 & P2 & F2); [by destruct G1|].
    exists r2, (l ++ l2). split; [done|]. split; [by eapply goes_trans|]. rewrite packets_of_app, P1, P2.
    split_and!; [congruence|done|by apply Forall_app].
Qed.

Lemma drain_loop_goes turns until r :
  running_inv r -> Forall (fun t => pl_now (dt_poll t) <= UPTIME_MAX) turns ->
  exists r' l done, drain_loop debug turns until r = Some (r', done) /\ goes r r' l /\ r_slot r' = r_slot r /\ packets_of l = [] /\
    Forall (fun s => exists batch wall, s = Feed (InHost batch wall)) l.
Proof.
  intros Hi Hc. revert r Hi. induction Hc as [|t turns Ht _ IH]; intros r Hi; cbn [drain_loop].
  - exists r, [], false. split_and!; try done. by apply goes_refl.
  - destruct (r_host r) as [h|] eqn:Eh; [|exists r, [], true; split_and!; try done; by apply goes_refl].
    destruct (poll_ok (dt_poll t) (sy_sensor h) Ht (proj2 Hi h Eh)) as [-> Hset]. destruct (poll_at debug (dt_poll t) (sy_sensor h)) as [sensor batch].
    cbn [mbind option_bind]. assert (goes r (with_host r (Some (mkHostSystem sensor (sy_worker h)))) []) as G0.
    { apply goes_beside; rewrite ?Eh; try done. intros h' [= <-]. by exists h. }
    destruct (act_goes (with_host r (Some (mkHostSystem sensor (sy_worker h)))) (Feed (InHost batch (dt_wall t))) (gs_inv _ _ _ G0) I) as (r1 & E & G & S1 & S2 & _).
    rewrite E. cbn [mbind option_bind].
    assert (goes r r1 ([] ++ [Feed (InHost batch (dt_wall t))])) as G1.
    { by eapply goes_trans. }
    cbn [app] in G1. assert (Forall (fun s => exists batch wall, s = Feed (InHost batch wall)) [Feed (InHost batch (dt_wall t))]) as F1
      by (repeat constructor; by eexists _, _).
    destruct (_ || _); [by exists r1, [Feed (InHost batch (dt_wall t))], true|].
    destruct (IH r1) as (r2 & l2 & d & E2 & G2 & S3 & P2 & F2); [by destruct G1|].
    eexists r2, _, d. split; [done|]. split; [by eapply goes_trans|]. rewrite packets_of_app, P2. split_and!; [by rewrite S3, S1|done|by apply Forall_app].
Qed.

Lemma drain_host_goes deadline started turns r :
  running_inv r -> Forall (fun t => pl_now (dt_poll t) <= UPTIME_MAX) turns ->
  exists r' l done, drain_host debug deadline started turns r = Some (r', done) /\ goes r r' l /\ r_slot r' = r_slot r /\ packets_of l = [] /\
    Forall (fun s => exists batch wall, s = Feed (InHost batch wall)) l.
Proof.
  intros Hi Hc. unfold drain_host. destruct (r_host r); [by apply drain_loop_goes|]. exists r, [], true. split_and!; try done. by apply goes_refl.
Qed.

(** ** Waiting for the host sensors *)

(** The packets since the host sensors were last serviced, [n] of them before [l]. *)
Fixpoint unserviced (n : Z) (l : list SensorStep) : Z :=
  match l with
  | [] => n
  | Feed (InPacket _ _) :: l' => unserviced (n + 1) l'
  | Feed (InHost _ _) :: l' => unserviced 0 l'
  | _ :: l' => unserviced n l'
  end.

(** They are never more than [bound]. *)
Definition serviced_within (bound n : Z) (l : list SensorStep) : Prop := forall k, unserviced n (take k l) <= bound.

Lemma unserviced_app n l k : unserviced n (l ++ k) = unserviced (unserviced n l) k.
Proof. revert n. induction l as [|[[| |]| | |] l IH]; intros n; cbn; auto. Qed.

Lemma serviced_within_app bound n l k :
  serviced_within bound n l -> serviced_within bound (unserviced n l) k -> serviced_within bound n (l ++ k).
Proof.
  intros H1 H2 i. rewrite take_app. rewrite unserviced_app. destruct (Nat.le_gt_cases (length l) i).
  - rewrite take_ge by done. apply H2.
  - replace (i - length l)%nat with O by lia. cbn. apply H1.
Qed.

Lemma quiet_unserviced n l : packets_of l = [] -> 0 <= n -> 0 <= unserviced n l <= n.
Proof.
  revert n. induction l as [|[[| |]| | |] l IH]; intros n E Hn; cbn in *; try done; try lia; auto. specialize (IH 0 E). lia.
Qed.

Lemma quiet_serviced bound n l : packets_of l = [] -> 0 <= n <= bound -> serviced_within bound n l.
Proof.
  intros E Hn k. assert (packets_of (take k l) = []) as Ek.
  { rewrite <- (take_drop k l), packets_of_app in E. by apply app_eq_nil in E as [? _]. }
  pose proof (quiet_unserviced n (take k l) Ek). lia.
Qed.

Lemma packet_serviced bound n p i : 0 <= n -> n + 1 <= bound -> serviced_within bound n [Feed (InPacket p i)].
Proof. intros Hn Hb [|[|k]]; cbn; lia. Qed.

Lemma next_seen seen : 0 <= seen ->
  ((seen + 1) mod PUBLISH_EVERY_PACKETS = 0 /\ seen mod PUBLISH_EVERY_PACKETS + 1 = PUBLISH_EVERY_PACKETS) \/
  (seen + 1) mod PUBLISH_EVERY_PACKETS = seen mod PUBLISH_EVERY_PACKETS + 1.
Proof.
  intros Hs. unfold PUBLISH_EVERY_PACKETS. pose proof (Z.mod_pos_bound seen 1024 eq_refl). pose proof (Z.div_mod seen 1024 ltac:(lia)).
  destruct (Z.eq_dec (seen mod 1024) 1023) as [E|E].
  - left. split; [|lia]. replace (seen + 1) with ((seen / 1024 + 1) * 1024) by lia. apply Z.mod_mul. lia.
  - right. symmetry. apply (Z.mod_unique_pos _ _ (seen / 1024)); lia.
Qed.

(** ** The packet loop *)

Definition no_errors (rs : list (CaptureError + Captured)) : Prop := Forall (fun x => match x with inr _ => True | inl _ => False end) rs.

(** An answer after which the loop goes on. *)
Definition goes_on (x : CaptureError + Captured) : Prop := match x with inr (CapturedFrame _) | inr CapturedIdle => True | _ => False end.

(** What a loop met: it is still running as long as it goes on; otherwise the error is the last answer
    of the source, or there was none. *)
Definition met (result : option (option CaptureError)) (rs : list (CaptureError + Captured)) : Prop :=
  match result with
  | None => Forall goes_on rs
  | Some None => no_errors rs
  | Some (Some e) => exists rs0, rs = rs0 ++ [inl e] /\ no_errors rs0
  end.

Lemma met_cons result x rs : (goes_on (inr x) \/ is_Some result) -> met result rs -> met result (inr x :: rs).
Proof.
  intros Hx. destruct result as [[e|]|]; cbn; [intros (rs0 & -> & Hr)|intros Hr|intros Hr].
  - exists (inr x :: rs0). split; [done|by constructor].
  - by constructor.
  - destruct Hx as [Hx|[? [=]]]. by constructor.
Qed.

Lemma met_errors result rs error :
  is_Some result -> met result rs -> (result = Some (Some error) <-> inl error ∈ rs).
Proof.
  assert (forall l, no_errors l -> (inl error : CaptureError + Captured) ∉ l) as Hno.
  { intros l Hl Hin. unfold no_errors in Hl. rewrite Forall_forall in Hl. by apply Hl in Hin. }
  intros [[e|] ->]; cbn.
  - intros (rs0 & -> & Hr). rewrite elem_of_app, list_elem_of_singleton. split; [intros [= ->]; by right|].
    intros [Hin|[= ->]]; [by apply Hno in Hin|done].
  - intros Hr. split; [done|]. intros Hin. by apply Hno in Hin.
Qed.

Section source.
Context {S : Type} {PS : PacketSource S} {ok : S -> Prop} {Laws : SourceLaws S ok} (torn : S -> bool).

(** What is known of a run of the loop from [s] and [r], after [seen] frames, that took the steps [l]
    while the source answered [rs]. *)
Record looped (s : S) (seen : Z) (r : Running) (s' : S) (r' : Running) (result : option (option CaptureError))
    (l : list SensorStep) (rs : list (CaptureError + Captured)) : Prop := {
  lp_goes : goes r r' l;
  lp_polled : polled s rs s';
  lp_packets : packets_of l = to_pipeline (source_name s) <$> frames rs;
  lp_met : met result rs;
  lp_torn : sn_capture_truncated (r_slot r') = sn_capture_truncated (r_slot r);
  lp_serviced : is_Some (r_host r) -> forall n, 0 <= n <= seen mod PUBLISH_EVERY_PACKETS -> serviced_within PUBLISH_EVERY_PACKETS n l
}.

(** Steps that feed no packet, before the rest of a run. *)
Lemma looped_quiet s seen r r1 l1 s' r' result l rs :
  goes r r1 l1 -> packets_of l1 = [] -> sn_capture_truncated (r_slot r1) = sn_capture_truncated (r_slot r) ->
  looped s seen r1 s' r' result l rs -> looped s seen r s' r' result (l1 ++ l) rs.
Proof.
  intros G1 P1 T1 []. pose proof (Z.mod_pos_bound seen PUBLISH_EVERY_PACKETS eq_refl). constructor; try done.
  - by eapply goes_trans.
  - by rewrite packets_of_app, P1.
  - congruence.
  - intros Hh n Hn. pose proof (quiet_unserviced n l1 P1 ltac:(lia)). apply serviced_within_app; [apply quiet_serviced; [done|lia]|].
    apply lp_serviced0; [by apply (gs_host _ _ _ G1)|lia].
Qed.

(** An answer of the source that is not a frame. *)
Lemma looped_answer s s1 x seen r s' r' result l rs :
  ok s -> source_next s = (s1, inr x) -> frames [inr x] = [] -> (goes_on (inr x) \/ is_Some result) -> looped s1 seen r s' r' result l rs ->
  looped s seen r s' r' result l (inr x :: rs).
Proof.
  intros Ho Ex Hf Hg []. destruct (next_ok s s1 _ Ho Ex) as [_ N1]. constructor; try done.
  - by eapply polled_next.
  - change (inr x :: rs) with ([inr x] ++ rs). by rewrite frames_app, Hf, <- N1.
  - by apply met_cons.
Qed.

(** Asking for the counters. *)
Lemma looped_counters s seen r s' r' result l rs :
  ok s -> looped (source_counters s).1 seen r s' r' result l rs -> looped s seen r s' r' result l rs.
Proof.
  intros Ho []. destruct (counters_ok s Ho) as (_ & N & _). constructor; try done; [by apply polled_counters|by rewrite <- N].
Qed.

(** A frame: the packets the host sensors wait for are one more, and after the last of a round they
    are serviced before the next frame. *)
Lemma looped_frame s s1 f instant seen r r1 s' r' result l rs :
  let lf := [Feed (InPacket (to_pipeline (source_name s) f) instant)] in
  ok s -> 0 <= seen -> source_next s = (s1, inr (CapturedFrame f)) -> goes r r1 lf -> r_slot r1 = r_slot r -> r_host r1 = r_host r ->
  ((seen + 1) mod PUBLISH_EVERY_PACKETS = 0 -> is_Some (r_host r1) -> exists batch wall l', l = Feed (InHost batch wall) :: l') ->
  looped s1 (seen + 1) r1 s' r' result l rs -> looped s seen r s' r' result (lf ++ l) (inr (CapturedFrame f) :: rs).
Proof.
  intros lf Ho Hs Ex G1 S1 H1 Hround []. destruct (next_ok s s1 _ Ho Ex) as [_ N1].
  pose proof (Z.mod_pos_bound seen PUBLISH_EVERY_PACKETS eq_refl). constructor.
  - by eapply goes_trans.
  - by eapply polled_next.
  - rewrite packets_of_app, lp_packets0, N1. done.
  - apply met_cons; [by left|done].
  - congruence.
  - intros Hh n Hn. apply serviced_within_app; [apply packet_serviced; lia|]. cbn [lf unserviced]. rewrite <- H1 in Hh.
    destruct (next_seen seen Hs) as [[E1 E2]|E1]; [|apply lp_serviced0; [done|lia]].
    destruct (Hround E1 Hh) as (batch & wall & l' & ->). specialize (lp_serviced0 Hh 0 ltac:(lia)).
    intros [|k]; [cbn; lia|]. exact (lp_serviced0 (Datatypes.S k)).
Qed.

(** The end of a run. *)
Lemma looped_stop s seen r result : running_inv r -> met result [] -> looped s seen r s r result [] [].
Proof.
  intros Hi Hm. pose proof (Z.mod_pos_bound seen PUBLISH_EVERY_PACKETS eq_refl). constructor; try done; [by apply goes_refl|constructor|].
  intros _ n Hn k. rewrite take_nil. cbn. lia.
Qed.

Lemma packet_turns_looped rules turns s seen r :
  running_inv r -> Forall turn_ok turns -> ok s -> 0 <= seen ->
  exists s' r' result l rs, packet_turns sha256_hex debug rules turns s seen r = Some (s', r', result) /\
    looped s seen r s' r' result l rs /\ (result = None -> length rs = length turns).
Proof.
  intros Hi Hto. revert s seen r Hi. induction Hto as [|t turns Htk _ IH]; intros s seen r Hi Ho Hs; cbn [packet_turns].
  { exists s, r, None, [], []. split; [done|]. split; [by apply looped_stop; [|constructor]|done]. }
  destruct (other_steps_goes rules (tn_others t) r Hi) as (r1 & l1 & -> & G1 & S1 & P1 & _). cbn [mbind option_bind].
  pose proof (gs_inv _ _ _ G1) as Hi1. assert (sn_capture_truncated (r_slot r1) = sn_capture_truncated (r_slot r)) as T1 by (by rewrite S1).
  destruct (tn_shutdown t).
  { exists s, r1, (Some None), (l1 ++ []), []. split; [done|]. split; [|done]. eapply looped_quiet; [done..|]. by apply looped_stop; [|constructor]. }
  destruct (source_next s) as [s1 x] eqn:Ex. destruct (next_ok s s1 x Ho Ex) as [Ho1 N1]. pose proof (next_bytes s s1 x Ho Ex) as Hb.
  destruct (counters_ok s1 Ho1) as (Ho2 & _). destruct x as [error|[f| |]].
  - exists s1, r1, (Some (Some error)), (l1 ++ []), [inl error]. split; [done|]. split; [|done]. eapply looped_quiet; [done..|].
    destruct (looped_stop s1 seen r1 (Some None) Hi1) as []; [constructor|]. constructor; try done.
    + eapply polled_next; [done|constructor].
    + exists []. split; [done|constructor].
  - cbn in Hb. apply Forall_inv in Hb. rewrite N1.
    destruct (act_goes r1 (Feed (InPacket (to_pipeline (source_name s) f) (tn_instant t))) Hi1) as (r2 & -> & G2 & S2 & _ & H2); [by split; [exact Hb|apply Htk]|].
    cbn [mbind option_bind]. pose proof (gs_inv _ _ _ G2) as Hi2. destruct (Z.eqb_spec ((seen + 1) mod PUBLISH_EVERY_PACKETS) 0) as [E|E].
    + destruct (source_counters s1) as [s2 counters] eqn:Ec. cbn [fst] in Ho2.
      destruct (attend_goes t counters r2 Hi2 Htk) as (r3 & l3 & -> & G3 & _ & _ & T3 & P3 & L3). cbn [mbind option_bind].
      destruct (IH s2 (seen + 1) r3) as (s' & r' & result & l & rs & E' & L & Hlen); [by destruct G3|done|lia|].
      eexists s', r', result, _, (inr (CapturedFrame f) :: rs). split; [done|]. split; [|intros ->; cbn; by rewrite Hlen]. eapply looped_quiet; [done..|].
      apply (looped_frame s s1 f (tn_instant t) seen r1 r2 s' r' result (l3 ++ l) rs); try done.
      * intros _ [h Eh]. rewrite Eh in L3. destruct L3 as (batch & rest & -> & _). by exists batch, (tn_wall t), (rest ++ l).
      * apply looped_counters; [done|]. rewrite Ec. by eapply looped_quiet.
    + destruct (IH s1 (seen + 1) r2) as (s' & r' & result & l & rs & E' & L & Hlen); [done|done|lia|].
      eexists s', r', result, _, (inr (CapturedFrame f) :: rs). split; [done|]. split; [|intros ->; cbn; by rewrite Hlen]. eapply looped_quiet; [done..|].
      by eapply (looped_frame s s1 f).
  - destruct (source_counters s1) as [s2 counters] eqn:Ec. cbn [fst] in Ho2.
    destruct (attend_goes t counters r1 Hi1 Htk) as (r3 & l3 & -> & G3 & _ & _ & T3 & P3 & _). cbn [mbind option_bind].
    destruct (IH s2 seen r3) as (s' & r' & result & l & rs & E' & L & Hlen); [by destruct G3|done|lia|].
    eexists s', r', result, _, (inr CapturedIdle :: rs). split; [done|]. split; [|intros ->; cbn; by rewrite Hlen]. eapply looped_quiet; [done..|].
    eapply looped_answer; [done..|by left|]. apply looped_counters; [done|]. rewrite Ec. by eapply looped_quiet.
  - exists s1, r1, (Some None), (l1 ++ []), [inr CapturedEnd]. split; [done|]. split; [|done]. eapply looped_quiet; [done..|].
    eapply looped_answer; [done..|by right|]. by apply looped_stop; [|constructor].
Qed.

(** The whole of [run_packet_loop], once its [while] has ended. *)
Lemma packet_loop_end rules turns e s r :
  running_inv r -> Forall turn_ok turns -> end_ok e -> ok s ->
  exists s' r' result l rs, run_packet_loop sha256_hex debug torn rules turns e s r = Some (s', r', result) /\
    goes r r' l /\ polled s rs s' /\ packets_of l = to_pipeline (source_name s) <$> frames rs /\ (is_Some result -> met result rs) /\
    (is_Some result -> exists before after, l = before ++ Feed InFlush :: after /\ packets_of after = []) /\
    (is_Some result -> cc_packets (sn_capture (r_slot r')) = cc_packets (source_counters s).2 + len (frames rs) /\
       cc_bytes (sn_capture (r_slot r')) = cc_bytes (source_counters s).2 + frames_bytes (frames rs)) /\
    (is_Some result -> sn_decode (r_slot r') = p_decode (r_pipeline r') /\ sn_capture_truncated (r_slot r') = torn s' || sn_capture_truncated (r_slot r)).
Proof.
  intros Hi Hto Heo Ho. unfold run_packet_loop. destruct (packet_turns_looped rules turns s 0 r Hi Hto Ho) as (s1 & r1 & result & l1 & rs & -> & L & _); [done|].
  cbn [mbind option_bind]. destruct L as [G1 Hpo Hp Hme Ht _]. pose proof (gs_inv _ _ _ G1) as Hi1.
  destruct result as [error|]; [|exists s1, r1, None, l1, rs; split_and!; try done; by intros []].
  destruct (act_goes r1 (Feed InFlush) Hi1 I) as (r2 & -> & G2 & S2 & _ & _). cbn [mbind option_bind].
  destruct (drain_host_goes HOST_DRAIN (en_started e) (en_drain e) r2) as (r3 & l3 & drained & -> & G3 & S3 & P3 & _); [by destruct G2|exact Heo|].
  cbn [mbind option_bind]. assert (goes r r3 (l1 ++ Feed InFlush :: l3)) as G13 by (eapply goes_trans; [done|]; change (Feed InFlush :: l3) with ([Feed InFlush] ++ l3); by eapply goes_trans).
  assert (packets_of (l1 ++ Feed InFlush :: l3) = to_pipeline (source_name s) <$> frames rs) as P13
    by (rewrite packets_of_app, Hp; cbn; fold (packets_of l3); by rewrite P3, app_nil_r).
  destruct drained; cbn [negb]; [|eexists s1, r3, None, _, rs; split_and!; try done; by intros []].
  destruct (polled_counts s rs s1 Hpo Ho) as (_ & _ & _ & C1 & C2). destruct (source_counters s1) as [s2 counters] eqn:Ec.
  destruct (publish_goes (en_depth e) counters r3) as (r4 & l4 & -> & G4 & _ & _ & S5 & S6 & P4 & _); [by destruct G3|]. cbn [mbind option_bind].
  exists s2, (if torn s2 then mark_truncated r4 else r4), (Some error), ((l1 ++ Feed InFlush :: l3) ++ l4 ++ []), rs.
  split; [done|]. split.
  { eapply goes_trans; [done|]. eapply goes_trans; [done|]. destruct (torn s2); [apply goes_aside; try done|apply goes_refl]; by destruct G4. }
  split; [rewrite <- (app_nil_r rs); eapply polled_app; [done|]; apply polled_counters; rewrite Ec; constructor|].
  split; [by rewrite !packets_of_app, P4, !app_nil_r, <- P13, packets_of_app|]. split; [done|]. split.
  { intros _. exists l1, (l3 ++ l4). rewrite app_nil_r, <- app_assoc. split; [done|]. by rewrite packets_of_app, P3, P4. }
  split.
  - intros _. destruct (torn s2); cbn; by rewrite S5.
  - intros _. assert (sn_capture_truncated (r_slot r4) = sn_capture_truncated (r_slot r)) as T4 by (rewrite S6, S3, S2; done).
    destruct (torn s2); cbn; rewrite ?T4; (split; [by rewrite S5|done]).
Qed.


(** C15: traffic does not starve the host sensors. With host monitoring attached, however saturated the
    link is, in every run of the packet loop the host sensors are serviced at least once in any 1024
    packets: at no point do more than 1024 packets lie behind the last time they were. *)
Theorem host_is_not_starved rules turns s r :
  running_inv r -> Forall turn_ok turns -> ok s -> is_Some (r_host r) ->
  exists s' r' result l, packet_turns sha256_hex debug rules turns s 0 r = Some (s', r', result) /\
    r_trace r' = r_trace r ++ l /\ forall k, unserviced 0 (take k l) <= PUBLISH_EVERY_PACKETS.
Proof.
  intros Hi Hto Ho Hh. destruct (packet_turns_looped rules turns s 0 r Hi Hto Ho) as (s' & r' & result & l & rs & E & L & _); [done|].
  destruct L. exists s', r', result, l. split; [done|]. split; [by destruct lp_goes0|]. apply (lp_serviced0 Hh 0). done.
Qed.
End source.
End facts.

(** ** Replaying a file *)

Section replay.
Context {EP : Etherparse} `{RegexLib, AhoCorasickLib, !HashOrder Z, !HashOrder Flow.FlowKey, !HashOrder FragmentKey}.
Context {SQ : Sqlite} {SJ : SerdeJson} (sha256_hex : list Z -> text) (debug : text -> text).

Lemma all_frames rs : Forall goes_on rs -> inr CapturedIdle ∉ rs -> len (frames rs) = len rs.
Proof.
  induction 1 as [|x rs Hx _ IH]; intros Hi; [done|]. unfold frames in *. cbn [omap list_omap]. rewrite not_elem_of_cons in Hi. destruct Hi as [Hn Hi].
  destruct x as [e|[f| |]]; try done. cbn [result_frame length]. specialize (IH Hi). lia.
Qed.

Lemma polls_never_idle n r r' rs :
  Forall is_byte (rd_bytes (pr_reader r)) -> len (pr_buffer r) <= MAX_FRAME_LEN -> polls n r = (r', rs) -> inr CapturedIdle ∉ rs.
Proof.
  revert r rs. induction n as [|n IH]; intros r rs Hb Hl E; cbn [polls] in E; [injection E as <- <-; apply not_elem_of_nil|].
  destruct (Replay.next_packet r) as [r1 x] eqn:E1. destruct (polls n r1) as [r2 xs] eqn:E2. injection E as <- <-.
  destruct (next_packet_spec _ _ _ Hb Hl E1) as (Hl1 & read & Hread & Hx). rewrite Hread in Hb. apply Forall_app in Hb as [_ Hb].
  rewrite not_elem_of_cons. split; [by intros <-|by eapply IH].
Qed.

(** C14: a replay comes to its end. Whatever bytes a capture file holds and however its reads behave, when it could be opened the packet loop ends on its own: without any signal, after at most one turn for every sixteen bytes of the file and one more, it has met the end of the file or its error. *)
Theorem replay_ends file script pr name rules turns r :
  Forall is_byte file -> from_reader (mkReader file script) = inr pr -> running_inv r -> Forall turn_ok turns -> len file < 16 * len turns ->
  exists s' r' result, packet_turns sha256_hex debug rules turns (mkNamedReplay name pr) 0 r = Some (s', r', Some result).
Proof.
  intros Hb Ef Hi Hto Ht. apply from_reader_spec in Ef as (header & -> & Hl & Ebuf & _). apply Forall_app in Hb as [_ Hb].
  assert (len (pr_buffer pr) <= MAX_FRAME_LEN) as Hbuf by (by rewrite Ebuf).
  destruct (packet_turns_looped sha256_hex debug rules turns (mkNamedReplay name pr) 0 r Hi Hto) as (s' & r' & result & l & rs & E & L & Hlen); [by split|done|].
  destruct result as [result|]; [by eexists _, _, _|]. specialize (Hlen eq_refl). destruct L as [_ Hpo _ Hme _ _]. cbn in Hme.
  apply polled_replay in Hpo as Hpolls. cbn [nr_replay] in Hpolls. pose proof (polls_never_idle _ _ _ _ Hb Hbuf Hpolls) as Hidle.
  pose proof (all_frames rs Hme Hidle) as Hf. destruct (polls_bounded _ _ _ _ Hb Hbuf Hpolls) as (H16 & _).
  assert (0 <= frames_bytes (frames rs)) by (unfold frames_bytes; apply zsum_nonneg; apply Forall_fmap, Forall_forall; intros; cbn; lia).
  rewrite length_app in Ht. lia.
Qed.
End replay.

(** ** The ends of a run *)

Section ends.
Context {EP : Etherparse} `{RegexLib, AhoCorasickLib, !HashOrder Z, !HashOrder Flow.FlowKey, !HashOrder FragmentKey}.
Context {SQ : Sqlite} {SJ : SerdeJson} (sha256_hex : list Z -> text) (debug : text -> text).

Lemma poll_without_fim i s s' batch :
  poll_at debug i s = (s', batch) -> hn_fim_updates s = None ->
  st_fim (hn_stats s') = st_fim (hn_stats s) /\ hn_fim_updates s' = None.
Proof.
  intros E Hn. unfold poll_at, drain_fim in E. rewrite Hn in E.
  pose proof (poll_logs_parts debug (pl_logs i) s HostBatch_default) as Hl. destruct (poll_logs debug (pl_logs i) s HostBatch_default) as [s1 b1].
  destruct Hl as (_ & L2 & _ & _ & _ & _ & _ & _ & _ & _ & _ & events & taken & _ & _ & Hc). pose proof (rc_fim _ _ _ _ Hc) as L3.
  destruct (sweep_is_due s1 (pl_now i)).
  - unfold sweep_processes in E. destruct (hn_processes s1) as [w|]; [destruct (Process.sweep (pl_tree i) w) as [w' outcome]|]; injection E as <- <-; cbn; by rewrite ?L2.
  - injection E as <- <-. cbn. by rewrite L2.
Qed.

(** Shutdown always takes the whole of its deadline on a host without file integrity monitoring: the
    baseline the loop waits for is never there, so whatever the last polls find, it goes on until the
    deadline has passed. *)
Theorem drain_without_fim_waits turns until r h :
  running_inv r -> r_host r = Some h -> hn_fim_updates (sy_sensor h) = None ->
  fc_rescans (st_fim (hn_stats (sy_sensor h))) = 0 -> Forall (fun t => dt_now t < until /\ pl_now (dt_poll t) <= UPTIME_MAX) turns ->
  exists r', drain_loop debug turns until r = Some (r', false).
Proof.
  intros Hi Eh Hn Hr Ht. revert r h Hi Eh Hn Hr. induction Ht as [|t turns [Hb Hck] Ht IH]; intros r h Hi Eh Hn Hr; [by eexists|].
  cbn [drain_loop]. rewrite Eh. destruct (poll_ok debug (dt_poll t) (sy_sensor h) Hck (proj2 Hi h Eh)) as [-> Hset].
  destruct (poll_at debug (dt_poll t) (sy_sensor h)) as [sensor batch] eqn:Ep. cbn [mbind option_bind].
  assert (goes r (with_host r (Some (mkHostSystem sensor (sy_worker h)))) []) as G0.
  { apply goes_beside; rewrite ?Eh; try done. intros h' [= <-]. by exists h. }
  destruct (poll_without_fim _ _ _ _ Ep Hn) as [E1 E2].
  destruct (act_goes (with_host r (Some (mkHostSystem sensor (sy_worker h)))) (Feed (InHost batch (dt_wall t))) (gs_inv _ _ _ G0) I) as (r1 & E & G & _ & _ & Eh1).
  rewrite E. cbn [mbind option_bind]. rewrite E1, Hr. cbn [Z.ltb Z.compare]. rewrite andb_false_r, (proj2 (Z.leb_gt _ _)) by done. cbn [orb].
  eapply (IH r1 (mkHostSystem sensor (sy_worker h))); [by destruct G|by rewrite Eh1|done|by cbn; rewrite E1].
Qed.

(** The loop without a source: it feeds no packet, and publishes the counters of no capture. *)
Lemma host_only_goes rules turns e r :
  running_inv r -> Forall turn_ok turns -> end_ok e ->
  exists r' l returned, host_only_loop sha256_hex debug rules turns e r = Some (r', returned) /\ goes r r' l /\ packets_of l = [] /\
    (returned = true -> sn_capture (r_slot r') = CaptureCounters_default).
Proof.
  intros Hi Hto Heo. unfold host_only_loop.
  assert (forall turns r, Forall turn_ok turns -> running_inv r -> exists r' l b, host_turns sha256_hex debug rules turns r = Some (r', b) /\ goes r r' l /\ packets_of l = []) as Ht.
  { clear. intros turns r Hto. revert r. induction Hto as [|t turns Htk _ IH]; intros r Hi; cbn [host_turns]; [eexists _, [], _; split; [done|]; split; [by apply goes_refl|done]|].
    destruct (other_steps_goes sha256_hex debug rules (tn_others t) r Hi) as (r1 & l1 & -> & G1 & _ & P1 & _). cbn [mbind option_bind].
    destruct (tn_shutdown t); [by eexists _, _, _|].
    destruct (attend_goes debug t CaptureCounters_default r1 (gs_inv _ _ _ G1) Htk) as (r2 & l2 & -> & G2 & _ & _ & _ & P2 & _). cbn [mbind option_bind].
    destruct (IH r2 (gs_inv _ _ _ G2)) as (r3 & l3 & b & -> & G3 & P3). exists r3, (l1 ++ l2 ++ l3), b.
    split; [done|]. split; [eapply goes_trans; [done|]; by eapply goes_trans|by rewrite !packets_of_app, P1, P2, P3]. }
  destruct (Ht turns r Hto Hi) as (r1 & l1 & stopped & -> & G1 & P1). cbn [mbind option_bind]. destruct stopped; cbn [negb]; [|by exists r1, l1, false].
  destruct (drain_host_goes debug HOST_DRAIN (en_started e) (en_drain e) r1 (gs_inv _ _ _ G1) Heo) as (r2 & l2 & drained & -> & G2 & _ & P2 & _).
  cbn [mbind option_bind]. assert (goes r r2 (l1 ++ l2)) as G12 by (by eapply goes_trans).
  destruct drained; cbn [negb]; [|exists r2, (l1 ++ l2), false; split_and!; try done; by rewrite packets_of_app, P1, P2].
  destruct (publish_goes (en_depth e) CaptureCounters_default r2 (gs_inv _ _ _ G2)) as (r3 & l3 & -> & G3 & _ & _ & S3 & _ & P3 & _).
  exists r3, ((l1 ++ l2) ++ l3), true. split_and!; [done|by eapply goes_trans|by rewrite !packets_of_app, P1, P2, P3|by rewrite S3].
Qed.

Section main.
Context {S : Type} {PS : PacketSource S} {ok : S -> Prop} {Laws : SourceLaws S ok} (torn : S -> bool).

(** Every reading of the clock during a run. *)
Definition main_ok (m : Main) : Prop :=
  Forall turn_ok (mn_turns m) /\ end_ok (mn_end m) /\ Forall turn_ok (mn_more_turns m) /\ end_ok (mn_more_end m).

Lemma serve_goes m rules source r :
  running_inv r -> main_ok m -> (forall s, source = Some s -> ok s) ->
  exists r' l outcome, serve sha256_hex debug torn m rules source r = Some (r', outcome) /\ goes r r' l /\
    (forall error, outcome = Some (Some error) -> exists s rs s', source = Some s /\ polled s rs s' /\ inl error ∈ rs).
Proof.
  intros Hi (Hm1 & Hm2 & _) Ho. destruct source as [s|]; cbn [serve].
  - destruct (packet_loop_end sha256_hex debug torn rules (mn_turns m) (mn_end m) s r Hi Hm1 Hm2 (Ho s eq_refl))
      as (s' & r' & result & l & rs & -> & G & Hp & _ & Hm & _). exists r', l, result. cbn. split; [done|]. split; [done|].
    intros error ->. exists s, rs, s'. split; [done|]. split; [done|]. apply (met_errors (Some (Some error))); [done|by apply Hm|done].
  - destruct (host_only_goes rules (mn_turns m) (mn_end m) r Hi Hm1 Hm2) as (r' & l & returned & -> & G & _). exists r', l, (if returned then Some None else None).
    cbn. split; [done|]. split; [done|]. by destruct returned.
Qed.

Lemma emit_stats_goes rules uptime queue r : running_inv r -> goes r (emit_stats rules uptime queue r) [].
Proof. intros Hi. by apply goes_aside. Qed.

Lemma stay_up_goes m rules outcome r :
  running_inv r -> main_ok m ->
  exists r' l outcome', stay_up sha256_hex debug m rules outcome r = Some (r', outcome') /\ goes r r' l /\ packets_of l = [] /\
    (forall error, outcome' = Some (Some error) <-> outcome = Some (Some error)) /\
    (mn_enforcing m = true -> mn_signalled m = false -> outcome' = Some None ->
     sn_capture (r_slot r') = CaptureCounters_default).
Proof.
  intros Hi (_ & _ & Hm1 & Hm2). assert (goes r r []) as G0 by (by apply goes_refl).
  destruct outcome as [[error|]|]; cbn [stay_up]; [by exists r, [], (Some (Some error))| |by exists r, [], None].
  destruct (mn_enforcing m && negb (mn_signalled m)) eqn:Em.
  - destruct (host_only_goes rules (mn_more_turns m) (mn_more_end m) r Hi Hm1 Hm2) as (r' & l & returned & -> & G & P & C). cbn [mbind option_bind].
    exists r', l, (if returned then Some None else None). split_and!; try done; [by destruct returned|]. destruct returned; [|done]. intros. by apply C.
  - exists r, [], (Some None). split_and!; try done. intros H1 H2. by rewrite H1, H2 in Em.
Qed.

(** The main loop never panics, its outcome is an error exactly when the loop over the source met that
    error, and it closes with a stats event of what was published last. *)
Lemma main_loop_goes m rules source r :
  running_inv r -> main_ok m -> (forall s, source = Some s -> ok s) ->
  exists r' l outcome, main_loop sha256_hex debug torn m rules source r = Some (r', outcome) /\ goes r r' l /\
    (forall error, outcome = Some (Some error) -> exists s rs s', source = Some s /\ polled s rs s' /\ inl error ∈ rs) /\
    (is_Some outcome -> exists uptime queue, last (r_stats r') = Some (stats_event uptime queue rules (r_slot r'))) /\
    (is_Some source -> mn_once m = false -> mn_enforcing m = true -> mn_signalled m = false -> outcome = Some None ->
     sn_capture (r_slot r') = CaptureCounters_default).
Proof.
  intros Hi Hmk Ho. unfold main_loop. destruct (publish_goes (mn_start_depth m) CaptureCounters_default r Hi) as (r1 & l1 & -> & G1 & _). cbn [mbind option_bind].
  pose proof (emit_stats_goes rules 0 (mn_start_queue m) r1 (gs_inv _ _ _ G1)) as G2. set (r2 := emit_stats rules 0 (mn_start_queue m) r1) in *.
  pose proof (goes_trans _ _ _ _ _ G1 G2) as G12. destruct (mn_once m) eqn:Eo.
  { exists r2, (l1 ++ []), (Some None). split_and!; try done. intros _. eexists _, _. apply last_snoc. }
  destruct (serve_goes m rules source r2 (gs_inv _ _ _ G2) Hmk Ho) as (r3 & l3 & outcome & E3 & G3 & H3). rewrite E3. cbn [mbind option_bind].
  destruct (stay_up_goes m rules outcome r3 (gs_inv _ _ _ G3) Hmk) as (r4 & l4 & outcome' & -> & G4 & _ & H4 & C4). cbn [mbind option_bind].
  pose proof (goes_trans _ _ _ _ _ G12 (goes_trans _ _ _ _ _ G3 G4)) as G. destruct outcome' as [outcome'|].
  - destruct (other_steps_goes sha256_hex debug rules (mn_joining m) r4 (gs_inv _ _ _ G4)) as (r5 & l5 & -> & G5 & S5 & _). cbn [mbind option_bind].
    pose proof (emit_stats_goes rules (mn_uptime m) (mn_end_queue m) r5 (gs_inv _ _ _ G5)) as G6.
    eexists _, _, _. split; [done|]. split; [eapply goes_trans; [exact G|]; by eapply goes_trans|]. split_and!.
    + intros error [= ->]. apply H3, H4. done.
    + intros _. eexists _, _. apply last_snoc.
    + intros _ _ H1 H2 [= ->]. cbn. rewrite S5. by apply C4.
  - eexists _, _, _. split; [done|]. split; [exact G|]. split_and!; [intros error E; by apply H3, H4|by intros []|done].
Qed.
End main.

(** The last stats event of a sensor that enforces denies the capture: when the capture source has
    ended while prevention is active, the sensor stays up, and when it is stopped at last its closing
    stats event says that no packet and no byte was captured and none was dropped, whatever was. *)
Theorem enforcing_forgets_capture {S : Type} {PS : PacketSource S} {ok : S -> Prop} {Laws : SourceLaws S ok}
    (torn : S -> bool) m rules source r r' :
  running_inv r -> main_ok m -> ok source -> mn_once m = false -> mn_enforcing m = true -> mn_signalled m = false ->
  main_loop sha256_hex debug torn m rules (Some source) r = Some (r', Some None) ->
  exists stats, last (r_stats r') = Some stats /\
    cst_packets (sv_capture stats) = 0 /\ cst_bytes (sv_capture stats) = 0 /\ cst_drops (sv_capture stats) = 0.
Proof.
  intros Hi Hmk Ho H1 H2 H3 E. destruct (main_loop_goes torn m rules (Some source) r Hi Hmk ltac:(by intros s [= <-])) as (r1 & l & outcome & E1 & _ & _ & Hl & Hc).
  rewrite E in E1. injection E1 as <- <-. destruct Hl as (uptime & queue & El); [done|]. rewrite El. eexists. split; [done|].
  unfold stats_event. cbn. rewrite Hc by done. done.
Qed.

(** An error of the capture ends the sensor, also while prevention is active: the packets that the
    kernel holds from then on are left to its fail mode. *)
Theorem capture_error_stops_enforcing {S : Type} {PS : PacketSource S} {ok : S -> Prop} {Laws : SourceLaws S ok}
    (torn : S -> bool) m rules source r s' r' r1 error :
  mn_once m = false -> mn_enforcing m = true -> running_inv r -> main_ok m -> ok source ->
  publish (mn_start_depth m) CaptureCounters_default r = Some r1 ->
  run_packet_loop sha256_hex debug torn rules (mn_turns m) (mn_end m) source (emit_stats rules 0 (mn_start_queue m) r1) = Some (s', r', Some (Some error)) ->
  exists r2 l, main_loop sha256_hex debug torn m rules (Some source) r = Some (r2, Some (Some error)) /\
    r_trace r2 = r_trace r' ++ l /\ Forall (fun s => exists packet clock, s = Judge packet clock) l.
Proof.
  intros H1 H2 Hi (Hm1 & Hm2 & _) Ho Ep Er. unfold main_loop. rewrite Ep. cbn [mbind option_bind]. rewrite H1. cbn [serve]. rewrite Er. cbn [mbind option_bind stay_up].
  destruct (publish_goes (mn_start_depth m) CaptureCounters_default r Hi) as (? & l1 & Ep' & G1 & _). rewrite Ep in Ep'. injection Ep' as <-.
  destruct (packet_loop_end sha256_hex debug torn rules (mn_turns m) (mn_end m) source (emit_stats rules 0 (mn_start_queue m) r1) (gs_inv _ _ _ G1) Hm1 Hm2 Ho)
    as (s2 & r2 & result & l2 & rs & E2 & G2 & _). rewrite Er in E2. injection E2 as <- <- <-.
  destruct (other_steps_goes sha256_hex debug rules (mn_joining m) r' (gs_inv _ _ _ G2)) as (r3 & l3 & -> & G3 & _ & _ & J3). cbn [mbind option_bind].
  eexists _, l3. split; [done|]. split; [exact (gs_trace _ _ _ G3)|done].
Qed.

(** A torn capture file is not in the stats: the flag that is published for it changes no field of the
    stats event. *)
Theorem torn_replay_is_not_reported uptime queue rules (r : Running) :
  stats_event uptime queue rules (r_slot (mark_truncated r)) = stats_event uptime queue rules (r_slot r).
Proof. reflexivity. Qed.
End ends.
