(* ===== verification/Startup.v ===== *)
(** The whole program: [run] of [crates/cli/src/run.rs] from the arguments to the exit, with
    [open_source], [open_live] and [build_sinks], and [validate] of [crates/cli/src/validate.rs].

    [StartupWorld] is what the system answers to the calls of the start, each field to one call. The
    program is written in a monad: a computation works on the process, which holds its capabilities and
    the trace of what it has done, each effect with the capabilities the process had at that moment, and
    it returns, fails, panics or goes on for ever. Every operation of the start adds its own effect to the
    trace. Log lines, the installing of the log subscriber beyond its outcome, and what [validate] prints
    are left out. *)

From S2P Require Import Prelude Text Clock Net Event AuthLog Fim Process Sources FimWorker HostSensor Replay Capture Config Settings Privileges Identity Policy Stream Flow Decode Defrag RuleModel Vars Eval Loader Compile Host Engine Prevent Kernel VerdictQueue Correlation EventLog Sinks Pipeline PipelineFacts Sensor Run RunFacts.

(** ** Sources of packets *)

(** [dyn PacketSource], of two types of sources. *)
Section either.
Context {S1 S2 : Type} `{PacketSource S1, PacketSource S2}.

#[global] Instance either_source : PacketSource (S1 + S2) := {
  source_next s :=
    match s with
    | inl s => let '(s, r) := source_next s in (inl s, r)
    | inr s => let '(s, r) := source_next s in (inr s, r)
    end;
  source_counters s :=
    match s with
    | inl s => let '(s, c) := source_counters s in (inl s, c)
    | inr s => let '(s, c) := source_counters s in (inr s, c)
    end;
  source_link_type s := match s with inl s => source_link_type s | inr s => source_link_type s end;
  source_name s := match s with inl s => source_name s | inr s => source_name s end
}.

Definition either_ok (ok1 : S1 -> Prop) (ok2 : S2 -> Prop) (s : S1 + S2) : Prop :=
  match s with inl s => ok1 s | inr s => ok2 s end.

Lemma either_counters (s : S1 + S2) :
  source_counters s = match s with
                      | inl s => (inl (source_counters s).1, (source_counters s).2)
                      | inr s => (inr (source_counters s).1, (source_counters s).2)
                      end.
Proof. destruct s as [s|s]; cbn; by destruct (source_counters s). Qed.

#[global] Instance either_laws ok1 ok2 `{!SourceLaws S1 ok1, !SourceLaws S2 ok2} : SourceLaws (S1 + S2) (either_ok ok1 ok2).
Proof.
  assert (forall (s s' : S1 + S2) r, either_ok ok1 ok2 s -> source_next s = (s', r) ->
    (either_ok ok1 ok2 s' /\ source_name s' = source_name s) /\
    (cc_packets (source_counters s').2 = cc_packets (source_counters s).2 + len (frames [r]) /\
     cc_bytes (source_counters s').2 = cc_bytes (source_counters s).2 + frames_bytes (frames [r])) /\
    Forall (fun p => Forall in_u8 (rp_data p)) (frames [r])) as Hn.
  { intros [s|s] s' r Ho E; cbn in E; destruct (source_next s) as [s1 r1] eqn:E1; injection E as <- <-; rewrite !either_counters;
      exact (conj (next_ok s s1 r1 Ho E1) (conj (next_counts s s1 r1 Ho E1) (next_bytes s s1 r1 Ho E1))). }
  split.
  - intros s s' r Ho E. by destruct (Hn s s' r Ho E) as [? _].
  - intros s s' r Ho E. by destruct (Hn s s' r Ho E) as (_ & ? & _).
  - intros s s' r Ho E. by destruct (Hn s s' r Ho E) as (_ & _ & ?).
  - intros [s|s] Ho; rewrite either_counters; cbn [fst snd]; rewrite !either_counters; exact (counters_ok s Ho).
Qed.
End either.

Section startup.
Context {PC : Pcap} {PT : PcapTyped} {CP : Caps} {UU : Uuid} {EP : Etherparse} `{RegexLib, AhoCorasickLib, !HashOrder Z, !HashOrder Flow.FlowKey, !HashOrder FragmentKey}.
Context {SQ : Sqlite} {SJ : SerdeJson} (sha256_hex : list Z -> text) (debug : text -> text).

Inductive Source :=
| SourceReplay (s : NamedReplay)
| SourceLive (s : LiveCapture)
| SourceNone.

Definition as_packet_source (s : Source) : option (NamedReplay + LiveCapture) :=
  match s with SourceReplay s => Some (inl s) | SourceLive s => Some (inr s) | SourceNone => None end.

Definition source_label (s : Source) : text :=
  match s with SourceReplay s => source_name s | SourceLive s => source_name s | SourceNone => [] end.

(** Whether a replayed file was torn. *)
Definition source_torn (s : NamedReplay + LiveCapture) : bool :=
  match s with inl s => pr_truncated (nr_replay s) | inr _ => false end.

Record RunArgs := mkRunArgs {
  ra_config : text;
  ra_replay : option text;
  ra_once : bool;
  ra_strict : bool;
  ra_dump_streams : option text
}.

(** [PcapReplay::open]; [file] is [File::open]. *)
Definition replay_open (file : text -> option Reader) (path : text) : CaptureError + NamedReplay :=
  match file path with
  | None => inl CaptureIo
  | Some reader => match from_reader reader with inl error => inl error | inr r => inr (mkNamedReplay path r) end
  end.

(** [open_live]. *)
Definition live_options (c : Config) : LiveOptions :=
  let cc := Settings.capture c in
  mkLiveOptions (head (interfaces cc)) (snaplen cc) (promiscuous cc) (bpf_filter cc) (lo_poll_timeout_ms LiveOptions_default) (buffer_size_bytes cc).

Definition open_live (c : Config) : CaptureError + Source :=
  match live_open debug (live_options c) with inl error => inl error | inr s => inr (SourceLive s) end.

(** [open_source]. *)
Definition open_source (args : RunArgs) (c : Config) (file : text -> option Reader) : CaptureError + Source :=
  match ra_replay args with
  | Some path => match replay_open file path with inl error => inl error | inr s => inr (SourceReplay s) end
  | None => if negb (capture_enabled (Settings.capture c)) then inr SourceNone else open_live c
  end.

Inductive OutputSink := StdoutSink | FileSink (s : FileEventSink).

(** ** What the start is answered *)

Record StartupWorld := mkStartupWorld {
  wd_read : text -> text + text;
  wd_subscriber : bool;
  wd_dump_directory : bool;
  wd_host_name : text;
  wd_id_start : Identity.Start;
  wd_id_file : option text;
  wd_capture_file : text -> option Reader;
  wd_queue : text + NfQueue;
  wd_queue_bind : option text;
  wd_owner : option Z;
  wd_caps : CapState;
  wd_sink_directories : bool;
  wd_sink_opens : bool;
  wd_event_file : option (list Z);
  wd_sink_script : list WriteOutcome;
  wd_writer_thread : bool;
  wd_signal_handler : bool;
  wd_host : StartWorld;
  wd_verdict_thread : bool
}.

(** [build_sinks]. *)
Definition build_sinks (c : Config) (w : StartupWorld) : option (list OutputSink) :=
  let o := outputs c in
  let stdout := if stdout_enabled o then [StdoutSink] else [] in
  if file_enabled o
  then match open_sink (file_path o) (wd_sink_directories w) (wd_sink_opens w) (wd_event_file w) (wd_sink_script w) with
       | Some s => Some (stdout ++ [FileSink s])
       | None => None
       end
  else Some stdout.

Inductive Failure :=
| LoadFailed (error : Settings.Error)
| NoSubscriber
| NoDumpDirectory
| NoIdentity
| NoSource (error : CaptureError)
| NoSink
| RuleProblems (problems : Z)
| NoSignalHandler
| CaptureFailed (error : CaptureError).

(** ** Computations *)

Inductive Effect :=
| ConfigLoaded | IdentityResolved | SourceOpened | QueueTried | PrivilegesSettled | SinksOpened | WriterStarted | RulesLoaded
| LoopEntered | WriterDrained.

#[global] Instance Effect_eq_dec : EqDecision Effect.
Proof. solve_decision. Defined.

Record Proc := mkProc {
  pc_caps : CapState;
  pc_trace : list (Effect * CapState)
}.

Inductive Outcome (A : Type) := Returned (a : A) | Failed (f : Failure) | Panicked | StillRunning.
Arguments Returned {A} a.
Arguments Failed {A} f.
Arguments Panicked {A}.
Arguments StillRunning {A}.

Definition Prog (A : Type) : Type := Proc -> Proc * Outcome A.

#[global] Instance prog_ret : MRet Prog := fun A a p => (p, Returned a).
#[global] Instance prog_bind : MBind Prog := fun A B f m p =>
  match m p with
  | (p, Returned a) => f a p
  | (p, Failed e) => (p, Failed e)
  | (p, Panicked) => (p, Panicked)
  | (p, StillRunning) => (p, StillRunning)
  end.

Definition fails {A : Type} (f : Failure) : Prog A := fun p => (p, Failed f).
Definition panics {A : Type} : Prog A := fun p => (p, Panicked).
Definition goes_on_for_ever {A : Type} : Prog A := fun p => (p, StillRunning).

Definition effect (e : Effect) : Prog unit := fun p => (mkProc (pc_caps p) (pc_trace p ++ [(e, pc_caps p)]), Returned tt).

(** A call that answers [None] when it panics. *)
Definition or_panic {A : Type} (o : option A) : Prog A := match o with Some a => mret a | None => panics end.

(** What is done after [body] on every way out of it but a panic. *)
Definition then_always {A : Type} (body : Prog A) (after : Prog unit) : Prog A := fun p =>
  match body p with
  | (p, Returned a) => ((after p).1, Returned a)
  | (p, Failed f) => ((after p).1, Failed f)
  | (p, o) => (p, o)
  end.

(** ** The start *)

(** What the start has made once the writer of events runs. *)
Record Started := mkStarted {
  sd_config : Config;
  sd_info : SensorInfo;
  sd_source : Source;
  sd_queue : option KernelQueue;
  sd_sinks : list OutputSink
}.

Definition VERSION : text := of_string "0.2.1".

Definition load_config (args : RunArgs) (from_text : text -> text + Config) (w : StartupWorld) : Prog Config :=
  match Settings.load (wd_read w) from_text (ra_config args) with
  | inl error => fails (LoadFailed error)
  | inr c => effect ConfigLoaded ≫= fun _ => mret c
  end.

Definition init_tracing (w : StartupWorld) : Prog unit := if wd_subscriber w then mret tt else fails NoSubscriber.

Definition make_dump_directory (args : RunArgs) (w : StartupWorld) : Prog unit :=
  if bool_decide (is_Some (ra_dump_streams args)) && negb (wd_dump_directory w) then fails NoDumpDirectory else mret tt.

Definition resolve_identity (c : Config) (w : StartupWorld) : Prog SensorInfo :=
  match (Identity.resolve c (wd_host_name w) (wd_id_start w) (wd_id_file w)).2 with
  | None => fails NoIdentity
  | Some (name, id) => effect IdentityResolved ≫= fun _ => mret (mkSensorInfo name id VERSION)
  end.

Definition open_packets (args : RunArgs) (c : Config) (w : StartupWorld) : Prog Source :=
  match open_source args c (wd_capture_file w) with
  | inl error => fails (NoSource error)
  | inr source => effect SourceOpened ≫= fun _ => mret source
  end.

Definition try_queue (c : Config) (w : StartupWorld) : Prog (option KernelQueue) :=
  effect QueueTried ≫= fun _ => mret (bind_verdict_queue c (wd_queue w) (wd_queue_bind w)).

(** The capabilities of the process from here on; its threads inherit them. *)
Definition give_up_privileges (c : Config) (source : Source) (queue : option KernelQueue) (w : StartupWorld) : Prog unit := fun p =>
  let '(caps, _) :=
    settle_privileges c (bool_decide (is_Some (as_packet_source source))) (bool_decide (is_Some queue)) (wd_owner w) (pc_caps p) in
  effect PrivilegesSettled (mkProc caps (pc_trace p)).

Definition open_sinks (c : Config) (w : StartupWorld) : Prog (list OutputSink) :=
  match build_sinks c w with
  | None => fails NoSink
  | Some sinks => effect SinksOpened ≫= fun _ => mret sinks
  end.

(** [EventPipeline::spawn]: a thread that cannot be started is a panic. *)
Definition spawn_writer (w : StartupWorld) : Prog unit := if wd_writer_thread w then effect WriterStarted else panics.

(** [run] up to the spawning of the event log. *)
Definition start_up (args : RunArgs) (from_text : text -> text + Config) (w : StartupWorld) : Prog Started :=
  c ← load_config args from_text w;
  _ ← init_tracing w;
  _ ← make_dump_directory args w;
  info ← resolve_identity c w;
  source ← open_packets args c w;
  queue ← try_queue c w;
  _ ← give_up_privileges c source queue w;
  sinks ← open_sinks c w;
  _ ← spawn_writer w;
  mret (mkStarted c info source queue sinks).

(** ** The run *)

Definition with_flags (m : Main) (once enforcing : bool) : Main :=
  mkMain once enforcing (mn_start_depth m) (mn_start_queue m) (mn_turns m) (mn_end m) (mn_signalled m) (mn_more_turns m) (mn_more_end m)
    (mn_joining m) (mn_uptime m) (mn_end_queue m).

Definition rule_stats (report : LoadReport) : option RuleStats :=
  waiting ← non_evaluable report;
  Some (mkRuleStats (lr_loaded report) (len (lr_skipped report)) waiting).

Definition start_host (c : Config) (w : StartupWorld) : option HostSystem :=
  settings ← host_settings c;
  match sensor_start (wd_host w) settings with inr (s, worker) => Some (mkHostSystem s worker) | inl _ => None end.

(** [main_loop] with what it sets up first. *)
Definition enter_loop (args : RunArgs) (w : StartupWorld) (m : Main) (s : Started) (rules : RuleStats) (engine : Engine) (report : CompileReport) :
    option (Running * option (option CaptureError)) :=
  let c := sd_config s in
  let host := start_host c w in
  let enforcing := bool_decide (is_Some (sd_queue s)) && bool_decide (is_Some (start_prevention c)) && wd_verdict_thread w in
  let label := source_label (sd_source s) in
  main_loop sha256_hex debug source_torn (with_flags m (ra_once args) enforcing) rules (as_packet_source (sd_source s))
    (mkRunning (assemble c (bool_decide (is_Some host)) (sd_info s) engine report) host label (first_slot label (Settings.max_flows (flow c))) [] []).

Definition the_loop (args : RunArgs) (w : StartupWorld) (m : Main) (s : Started) (loaded : LoadReport) (engine : Engine) (report : CompileReport) :
    Prog Running :=
  _ ← effect LoopEntered;
  if negb (wd_signal_handler w) then fails NoSignalHandler
  else
    rules ← or_panic (rule_stats loaded);
    '(r, outcome) ← or_panic (enter_loop args w m s rules engine report);
    match outcome with
    | None => goes_on_for_ever
    | Some None => mret r
    | Some (Some error) => fails (CaptureFailed error)
    end.

(** [run] from the loading of the rules on; the event log is drained on every way out. *)
Definition operate (args : RunArgs) (w : StartupWorld) (m : Main) (s : Started) : Prog Running :=
  '(set, report) ← or_panic (load_files (wd_read w) (rule_files (Settings.rules (sd_config s))));
  '(engine, compile_report) ← or_panic (build_engine (sd_config s) set);
  _ ← effect RulesLoaded;
  let problems := len (lr_skipped report) + len (rep_failed compile_report) in
  if ra_strict args && (0 <? problems)
  then _ ← effect WriterDrained; fails (RuleProblems problems)
  else then_always (the_loop args w m s report engine compile_report) (effect WriterDrained).

Definition run_body (args : RunArgs) (from_text : text -> text + Config) (w : StartupWorld) (m : Main) : Prog Running :=
  s ← start_up args from_text w;
  operate args w m s.

(** The program, from the capabilities it was started with. *)
Definition program (args : RunArgs) (from_text : text -> text + Config) (w : StartupWorld) (m : Main) : Proc * Outcome Running :=
  run_body args from_text w m (mkProc (wd_caps w) []).

(** [validate], less what it prints: the error of the configuration, the number of problems, or the
    two reports. *)
Definition validate (read : text -> text + text) (from_text : text -> text + Config) (path : text) :
    option (Settings.Error + (Z + LoadReport * CompileReport)) :=
  match Settings.load read from_text path with
  | inl error => Some (inl error)
  | inr c =>
      '(set, report) ← load_files read (rule_files (Settings.rules c));
      '(_, compile_report) ← build_engine c set;
      let problems := len (lr_skipped report) + len (rep_failed compile_report) in
      Some (inr (if 0 <? problems then inl problems else inr (report, compile_report)))
  end.

(** ** What a run does *)

Definition startup_order : list Effect :=
  [ConfigLoaded; IdentityResolved; SourceOpened; QueueTried; PrivilegesSettled; SinksOpened; WriterStarted; RulesLoaded; LoopEntered].

(** The capture files are bytes. *)
Definition files_ok (w : StartupWorld) : Prop := forall path reader, wd_capture_file w path = Some reader -> Forall is_byte (rd_bytes reader).

Definition loads (from_text : text -> text + Config) : Prop :=
  forall t c, from_text t = inr c -> config_typed c /\ operable c.

Lemma replay_open_ok w path s : files_ok w -> replay_open (wd_capture_file w) path = inr s -> replay_ok s.
Proof.
  intros Hf E. unfold replay_open in E. destruct (wd_capture_file w path) as [[bytes script]|] eqn:Ef; [|done].
  destruct (from_reader _) as [|r] eqn:Er; [done|]. injection E as <-. destruct (from_reader_spec _ _ _ Er) as (header & Eb & _ & Ebuf & _).
  specialize (Hf _ _ Ef). cbn in Hf. rewrite Eb in Hf. apply Forall_app in Hf as [_ Hf]. split; [done|]. cbn. by rewrite Ebuf.
Qed.

Lemma open_source_ok args c w source :
  files_ok w -> open_source args c (wd_capture_file w) = inr source ->
  forall s, as_packet_source source = Some s -> either_ok replay_ok (fun _ => True) s.
Proof.
  intros Hf E s Es. unfold open_source, open_live in E. destruct (ra_replay args) as [path|].
  - destruct (replay_open _ path) as [|r] eqn:Er; [done|]. injection E as <-. injection Es as <-. by apply (replay_open_ok w path).
  - destruct (capture_enabled _); cbn [negb] in E; [|injection E as <-; done]. destruct (live_open _ _) as [|l]; [done|].
    injection E as <-. by injection Es as <-.
Qed.

Lemma load_usable read from_text path c :
  loads from_text -> Settings.load read from_text path = inr c -> config_typed c /\ config_valid c /\ operable c.
Proof.
  intros Hf. unfold Settings.load. rewrite bind_ok. intros (t & _ & E). apply bind_ok in E as (c0 & Ey & E).
  apply bind_ok in E as ([] & Ec & E). apply map_err_ok in Ey, Ec. injection E as <-.
  assert (config_typed c0 /\ operable c0) as [Ht Hc].
  { unfold from_yaml in Ey. case_bool_decide; [|by eapply Hf]. injection Ey as <-. split; [apply config_default_typed|done]. }
  assert (config_typed (set_source_path c0 path)) as Ht' by (by destruct Ht; constructor). apply resolve_typed in Ht'.
  split_and!; [done|by apply check_config_spec|]. unfold operable, resolve_paths in *. by destruct (paths_resolved _).
Qed.

(** The rules of any configuration that loads are loaded and compiled. *)
Lemma rules_compile c read :
  config_typed c -> config_valid c ->
  exists set report e rep rules, load_files read (rule_files (Settings.rules c)) = Some (set, report) /\
    build_engine c set = Some (e, rep) /\ engine_inv e /\ rule_stats report = Some rules.
Proof.
  intros Ht Hv. destruct (build_engine_ok c read Ht Hv) as (set & report & e & rep & E1 & E2 & He). exists set, report, e, rep.
  destruct (load_paths_inv read (rule_files (Settings.rules c)) _ load_inv_new) as ([set' report'] & E & [_ _ Hl Hev _] & _).
  assert ((set', report') = (set, report)) as [= -> ->] by (by injection (eq_trans (eq_sym E) E1) as -> ->). cbn in Hl, Hev.
  eexists. split_and!; try done. unfold rule_stats, non_evaluable, checked_sub. rewrite Hl, Hev.
  assert (len (ruleset_evaluable set) <= len (rset_rules set)) by (unfold ruleset_evaluable; pose proof (List.filter_length_le is_evaluable (rset_rules set)); lia).
  unfold ruleset_evaluable in *. by zdec.
Qed.

Section prog.
Context {A B : Type} (m : Prog A) (f : A -> Prog B).

Lemma prog_returned p p' a : m p = (p', Returned a) -> (m ≫= f) p = f a p'.
Proof. unfold mbind, prog_bind. by intros ->. Qed.

Lemma prog_failed p p' e : m p = (p', Failed e) -> (m ≫= f) p = (p', Failed e).
Proof. unfold mbind, prog_bind. by intros ->. Qed.

Lemma prog_panicked p p' : m p = (p', Panicked) -> (m ≫= f) p = (p', Panicked).
Proof. unfold mbind, prog_bind. by intros ->. Qed.
End prog.

(** What the process may do when an effect takes place: everything it was started with while it opens what
    needs privileges, and what [settle_privileges] leaves it from then on. *)
Definition before_the_drop (e : Effect) : bool :=
  match e with ConfigLoaded | IdentityResolved | SourceOpened | QueueTried => true | _ => false end.

Definition settled (c : Config) (source : Source) (w : StartupWorld) : CapState :=
  (settle_privileges c (bool_decide (is_Some (as_packet_source source)))
     (bool_decide (is_Some (bind_verdict_queue c (wd_queue w) (wd_queue_bind w)))) (wd_owner w) (wd_caps w)).1.

Definition held (args : RunArgs) (from_text : text -> text + Config) (w : StartupWorld) (ec : Effect * CapState) : Prop :=
  if before_the_drop ec.1 then ec.2 = wd_caps w
  else exists c source, Settings.load (wd_read w) from_text (ra_config args) = inr c /\
    open_source args c (wd_capture_file w) = inr source /\ ec.2 = settled c source w.

(** A start that has failed after [n] effects. *)
Ltac stops_at n := intros [= <- <-]; split; [split; [done|]; by exists n; split; [lia|]|by repeat constructor].

(** The effects of a start: a part of the order, and all of it up to the writer when it succeeded. *)
Lemma start_up_trace args from_text w p o :
  start_up args from_text w (mkProc (wd_caps w) []) = (p, o) ->
  match o with
  | Returned s => (pc_trace p).*1 = take 7 startup_order /\ Settings.load (wd_read w) from_text (ra_config args) = inr (sd_config s) /\
      open_source args (sd_config s) (wd_capture_file w) = inr (sd_source s) /\ pc_caps p = settled (sd_config s) (sd_source s) w
  | Failed f => (forall error, f <> CaptureFailed error) /\ exists n, (n <= 5)%nat /\ (pc_trace p).*1 = take n startup_order
  | Panicked => wd_writer_thread w = false /\ (pc_trace p).*1 = take 6 startup_order
  | StillRunning => False
  end /\ Forall (held args from_text w) (pc_trace p).
Proof.
  unfold start_up. destruct (Settings.load (wd_read w) from_text (ra_config args)) as [error|c] eqn:El.
  { erewrite prog_failed by (unfold load_config; rewrite El; reflexivity). stops_at 0%nat. }
  erewrite prog_returned by (unfold load_config; rewrite El; reflexivity).
  destruct (wd_subscriber w) eqn:Esub; [|erewrite prog_failed by (unfold init_tracing; rewrite Esub; reflexivity); stops_at 1%nat].
  erewrite prog_returned by (unfold init_tracing; rewrite Esub; reflexivity).
  destruct (bool_decide (is_Some (ra_dump_streams args)) && negb (wd_dump_directory w)) eqn:Ed;
    [erewrite prog_failed by (unfold make_dump_directory; rewrite Ed; reflexivity); stops_at 1%nat|].
  erewrite prog_returned by (unfold make_dump_directory; rewrite Ed; reflexivity).
  destruct (Identity.resolve c (wd_host_name w) (wd_id_start w) (wd_id_file w)).2 as [[name id]|] eqn:Ei;
    [|erewrite prog_failed by (unfold resolve_identity; rewrite Ei; reflexivity); stops_at 1%nat].
  erewrite prog_returned by (unfold resolve_identity; rewrite Ei; reflexivity).
  destruct (open_source args c (wd_capture_file w)) as [error|source] eqn:Eo;
    [erewrite prog_failed by (unfold open_packets; rewrite Eo; reflexivity); stops_at 2%nat|].
  erewrite prog_returned by (unfold open_packets; rewrite Eo; reflexivity).
  erewrite prog_returned by reflexivity. set (queue := bind_verdict_queue _ _ _).
  assert (forall t, give_up_privileges c source queue w (mkProc (wd_caps w) t) =
    (mkProc (settled c source w) (t ++ [(PrivilegesSettled, settled c source w)]), Returned tt)) as Hg.
  { intros t. unfold give_up_privileges, settled. cbn [pc_caps pc_trace]. by destruct (settle_privileges _ _ _ _ _). }
  erewrite prog_returned by apply Hg.
  assert (forall e, before_the_drop e = false -> held args from_text w (e, settled c source w)) as Hh
    by (intros e He; unfold held; cbn [fst snd]; rewrite He; by exists c, source).
  destruct (build_sinks c w) as [sinks|] eqn:Eb.
  - erewrite prog_returned by (unfold open_sinks; rewrite Eb; reflexivity). destruct (wd_writer_thread w) eqn:Ew.
    + erewrite prog_returned by (unfold spawn_writer; rewrite Ew; reflexivity). intros [= <- <-]. split; [done|].
      repeat (apply Forall_cons; split; [first [done|by apply Hh]|]). by apply Forall_nil.
    + erewrite prog_panicked by (unfold spawn_writer; rewrite Ew; reflexivity). intros [= <- <-]. split; [done|].
      repeat (apply Forall_cons; split; [first [done|by apply Hh]|]). by apply Forall_nil.
  - erewrite prog_failed by (unfold open_sinks; rewrite Eb; reflexivity). intros [= <- <-]. split; [split; [done|]; by exists 5%nat; split; [lia|]|].
    repeat (apply Forall_cons; split; [first [done|by apply Hh]|]). by apply Forall_nil.
Qed.

(** The host sensor is started with the settings the configuration makes. *)
Lemma start_host_settings c w h : start_host c w = Some h -> host_settings c = Some (hn_settings (sy_sensor h)).
Proof.
  unfold start_host. destruct (host_settings c) as [settings|]; [|done]. cbn [mbind option_bind].
  destruct (sensor_start (wd_host w) settings) as [|[s worker]] eqn:E; [done|]. intros [= <-]. f_equal. cbn [sy_sensor].
  unfold sensor_start, spawn_fim in E.
  assert (forall s0, hn_settings (with_stats (declare_auth_files (sw_exists (wd_host w)) (attach_journal (wd_host w) s0))
    (set_sources (hn_stats (declare_auth_files (sw_exists (wd_host w)) (attach_journal (wd_host w) s0)))
       (registry_snapshot (hn_sources (declare_auth_files (sw_exists (wd_host w)) (attach_journal (wd_host w) s0)))))) = hn_settings s0) as Hs.
  { intros s0. unfold declare_auth_files, attach_journal. by repeat case_match. }
  destruct (hs_fim settings) as [fim|].
  - destruct (worker_start _ _ _ _); [done|]. destruct (sw_thread _); [|done]. injection E as <- _. by rewrite Hs.
  - injection E as <- _. by rewrite Hs.
Qed.

Lemma host_settings_interval c settings :
  operable c -> host_settings c = Some settings -> hs_process_interval settings <= LONGEST_BLOCK.
Proof.
  intros (_ & _ & Hp) E. unfold host_settings in E. destruct (negb _); [done|]. destruct (_ || _); [|done].
  injection E as <-. cbn. unfold LONGEST_BLOCK, secs. lia.
Qed.

(** The state the loop starts from keeps the invariants of the sensor. *)
Lemma first_running_inv c w info engine report label slot :
  operable c -> engine_inv engine ->
  running_inv (mkRunning (assemble c (bool_decide (is_Some (start_host c w))) info engine report) (start_host c w) label slot [] []).
Proof.
  intros Hc He. split; [by apply assemble_inv|]. intros h Eh. cbn in Eh. eapply host_settings_interval; [done|]. by apply start_host_settings in Eh.
Qed.


(** What a run ends with: a sensor with its invariants, or an error its source gave. *)
Definition outcome_ok (source : Source) (o : Outcome Running) : Prop :=
  match o with
  | Returned r => running_inv r
  | Failed (CaptureFailed error) => exists p rs p', as_packet_source source = Some p /\ polled p rs p' /\ inl error ∈ rs
  | Panicked => False
  | _ => True
  end.

Lemma the_loop_ok args w m s loaded rules engine report :
  operable (sd_config s) -> engine_inv engine -> main_ok m -> rule_stats loaded = Some rules ->
  (forall p, as_packet_source (sd_source s) = Some p -> either_ok replay_ok (fun _ => True) p) ->
  exists o, outcome_ok (sd_source s) o /\ (forall n, o <> Failed (RuleProblems n)) /\ forall p,
    the_loop args w m s loaded engine report p = (mkProc (pc_caps p) (pc_trace p ++ [(LoopEntered, pc_caps p)]), o).
Proof.
  intros Hc He Hm Hr Ho. unfold the_loop. destruct (negb (wd_signal_handler w)); [by exists (Failed NoSignalHandler)|].
  set (c := sd_config s). set (m' := with_flags m (ra_once args) (bool_decide (is_Some (sd_queue s)) && bool_decide (is_Some (start_prevention c)) && wd_verdict_thread w)).
  destruct (main_loop_goes sha256_hex debug source_torn m' rules (as_packet_source (sd_source s)) _
    (first_running_inv c w (sd_info s) engine report (source_label (sd_source s)) (first_slot (source_label (sd_source s)) (Settings.max_flows (flow c))) Hc He) Hm Ho)
    as (r' & l & outcome & E & G & Herr & _).
  assert (forall p, (rules ← or_panic (rule_stats loaded); '(r, outcome) ← or_panic (enter_loop args w m s rules engine report);
    match outcome with None => goes_on_for_ever | Some None => mret r | Some (Some error) => fails (CaptureFailed error) end) p =
    match outcome with None => goes_on_for_ever p | Some None => (p, Returned r') | Some (Some error) => fails (CaptureFailed error) p end) as El.
  { intros p. rewrite Hr. erewrite prog_returned by reflexivity. unfold enter_loop. fold c. fold m'. rewrite E.
    erewrite prog_returned by reflexivity. by destruct outcome as [[]|]. }
  destruct outcome as [[error|]|]; [exists (Failed (CaptureFailed error))|exists (Returned r')|exists StillRunning];
    (split; [|split; [done|]; intros p; erewrite prog_returned by reflexivity; apply El]).
  - by apply Herr.
  - exact (gs_inv _ _ _ G).
  - done.
Qed.



(** C17: [validate-rules] and [run --strict] agree. When a strict run has got as far as its rules, it is refused for them exactly when the validation reports problems, with the same number of them, and goes on to the loop exactly when the validation finds none. *)
Theorem validate_agrees_with_strict args from_text w m p o :
  loads from_text -> files_ok w -> main_ok m -> ra_strict args = true -> program args from_text w m = (p, o) -> RulesLoaded ∈ (pc_trace p).*1 ->
  (forall n, validate (wd_read w) from_text (ra_config args) = Some (inr (inl n)) <-> o = Failed (RuleProblems n)) /\
  ((exists reports, validate (wd_read w) from_text (ra_config args) = Some (inr (inr reports))) <-> LoopEntered ∈ (pc_trace p).*1).
Proof.
  intros Hl Hf Hm Hst E Hin. unfold program, run_body in E. destruct (start_up args from_text w (mkProc (wd_caps w) [])) as [p1 o1] eqn:Es.
  destruct (start_up_trace _ _ _ _ _ Es) as [Hs _]. destruct o1 as [s|f| |]; [| | |done].
  2: { erewrite prog_failed in E by exact Es. injection E as <- <-. destruct Hs as (_ & n & Hn & Htr). rewrite Htr in Hin.
       do 6 (destruct n as [|n]; [cbn in Hin; set_solver|]). lia. }
  2: { erewrite prog_panicked in E by exact Es. injection E as <- <-. destruct Hs as (_ & Htr). rewrite Htr in Hin. cbn in Hin. set_solver. }
  destruct Hs as (Htr & Hc & Ho & _). erewrite prog_returned in E by exact Es. destruct (load_usable _ _ _ _ Hl Hc) as (Ht & Hv & Hop).
  destruct (rules_compile (sd_config s) (wd_read w) Ht Hv) as (set & report & e & rep & rules & E1 & E2 & He & E3).
  unfold validate. rewrite Hc, E1. cbn [mbind option_bind]. rewrite E2. cbn [mbind option_bind].
  unfold operate in E. rewrite E1 in E. erewrite prog_returned in E by reflexivity. cbn beta iota in E. rewrite E2 in E.
  do 2 (erewrite prog_returned in E by reflexivity; cbn beta iota in E). rewrite Hst in E. cbn [andb] in E.
  destruct (Z.ltb_spec 0 (len (lr_skipped report) + len (rep_failed rep))).
  - erewrite prog_returned in E by reflexivity. injection E as <- <-. cbn [pc_trace pc_caps]. rewrite !fmap_app, Htr.
    split; [intros n; split; intros [= ->]; done|]. split; [intros [? [=]]|]. cbn. set_solver.
  - destruct (the_loop_ok args w m s report rules e rep Hop He Hm E3 (open_source_ok args _ w _ Hf Ho)) as (o' & _ & Hn & El).
    unfold then_always in E. rewrite El in E. cbn [pc_caps pc_trace] in E.
    assert (o = o' /\ LoopEntered ∈ (pc_trace p).*1) as [-> Hloop].
    { destruct o'; injection E as <- <-; (split; [done|]); cbn [pc_trace pc_caps effect fst]; rewrite !fmap_app; cbn; set_solver. }
    split; [intros n; split; [done|intros ->; by destruct (Hn n)]|]. split; [done|]. intros _. by eexists.
Qed.
End startup.
