(* ===== verification/Scenario.v ===== *)
(** The sensor on concrete traffic: a configuration, a rule file and packets, run through every
    component by evaluation. The libraries are the concrete readers of [Decode] and [Compile]. *)

From S2P Require Import Prelude Text Clock Net Event AuthLog Fim FimWorker HostSensor Replay Capture Config Settings Privileges Identity Stream Flow Decode Defrag RuleModel Compile Engine Prevent VerdictQueue Correlation Sinks Pipeline PipelineFacts Sensor Run RunFacts Startup.

(** ** Packets *)

Definition client : list Z := [10; 0; 0; 1].
Definition server : list Z := [10; 0; 0; 2].

(** An IPv4 frame; [fragment] is the word with the flags and the offset. *)
Definition frame_between (source destination : list Z) (protocol fragment : Z) (body : list Z) : list Z :=
  let total := 20 + len body in
  let header :=
    [69; 0; total / 256; total mod 256; 0; 7; fragment / 256; fragment mod 256; 64; protocol; 0; 0] ++
    source ++ destination in
  let sum := wire_checksum header in
  sample_ethernet ++ <[10%nat := sum / 256]> (<[11%nat := sum mod 256]> header) ++ body.

Definition frame : Z -> Z -> list Z -> list Z := frame_between client server.

Definition udp (payload : list Z) : list Z := [4; 210; 0; 53; 0; 8 + len payload; 0; 0] ++ payload.

Definition tcp (sequence flags : Z) (payload : list Z) : list Z :=
  [4; 210; 0; 80; 0; 0; 0; sequence; 0; 0; 0; 1; 80; flags; 2; 0; 0; 0; 0; 0] ++ payload.

(** What the server answers: it has received everything up to [acknowledged]. *)
Definition tcp_ack (acknowledged : Z) : list Z :=
  frame_between server client 6 0 [0; 80; 4; 210; 0; 0; 0; 1; 0; 0; 0; acknowledged; 80; 16; 2; 0; 0; 0; 0; 0].

Definition packet (data : list Z) : RawPacket := mkRawPacket data (len data) (secs 1) (of_string "eth0").

(** ** The sensor *)

Definition rule_file : text := of_string "drop ip any any -> any any (msg:'bad'; content:'evil'; sid:7;)".

(** The rule language quotes with the double quote. *)
Definition quoted (t : text) : text := (fun c => if c =? 39 then 34 else c) <$> t.

Definition armed_config : Config :=
  mkConfig (mkSensorConfig None) PathsConfig_default (mkVarsConfig ∅ ∅) CaptureConfig_default DecodeConfig_default
    FlowConfig_default ReassemblyConfig_default NormalizeConfig_default DetectConfig_default RulesConfig_default
    HidsConfig_default CorrelationConfig_default
    (mkPreventConfig true (of_string "prevent") (of_string "open") 0 1024 [of_string "192.168.0.0/16"] 600 65536 16384)
    OutputsConfig_default LoggingConfig_default StatsConfig_default None false.

Definition info : SensorInfo := mkSensorInfo (of_string "edge") (of_string "id") (of_string "1").

Definition started : option PacketPipeline :=
  match start armed_config (fun _ => inr (quoted rule_file)) false true info with
  | Some (inr p) => Some p
  | _ => None
  end.

Definition feed (data : list Z) : SensorStep := Feed (InPacket (packet data) (fun _ => secs 1)).

Definition trace (l : list SensorStep) : option PacketPipeline := p ← started; sensor_run (EP := wire_format) p l.

(** What a run reports: the kind of every event, and whether it says blocked. *)
Definition reported (l : list SensorStep) : option (list (EventKind * bool)) :=
  p ← trace l; Some ((fun e => (ev_event_type e, claims_block e)) <$> p_emitted p).

(** ** Whole runs *)

(** The rule fires on a datagram, on a reassembled stream once it is acknowledged, and blocks. *)
Example datagram_is_blocked : reported [feed (frame 17 0 (udp (of_string "so evil")))] = Some [(Alert, true)].
Proof. vm_compute. reflexivity. Qed.

Example stream_is_blocked :
  reported [feed (frame 6 0 (tcp 1 2 [])); feed (frame 6 0 (tcp 2 24 (of_string "so e")));
            feed (frame 6 0 (tcp 6 24 (of_string "vil"))); feed (tcp_ack 9)] = Some [(Alert, true)].
Proof. vm_compute. reflexivity. Qed.

(** Bytes that are delivered because a flow ends are counted and never inspected. The same segment
    that raises an alert once it is acknowledged raises none when the flow ends first: its seven bytes
    are added to the delivered ones, and the only event is the one of the flow. *)
Theorem final_delivery_is_not_inspected :
  let attack := [feed (frame 6 0 (tcp 1 2 [])); feed (frame 6 0 (tcp 2 24 (of_string "so evil")))] in
  reported (attack ++ [feed (tcp_ack 9)]) = Some [(Alert, true)] /\
  reported (attack ++ [Feed InFlush]) = Some [(Flow, false)] /\
  (p_stream_bytes_delivered <$> trace (attack ++ [Feed InFlush])) = Some 7.
Proof. vm_compute. repeat split. Qed.

(** The content of a fragment is inspected twice, as the payload of the fragment and again in the
    datagram it is reassembled into: a datagram that raises one alert raises two when it is sent as
    two fragments (and an anomaly, as the first one is shorter than its header says). *)
Theorem fragment_alerts_twice :
  let datagram := udp (of_string "so evil!end") in
  reported [feed (frame 17 0 datagram)] = Some [(Alert, true)] /\
  reported [feed (frame 17 8192 (take 16 datagram)); feed (frame 17 2 (drop 16 datagram))] =
    Some [(Alert, true); (Anomaly, false); (Alert, true)].
Proof. vm_compute. split; reflexivity. Qed.

(** ** The theorems at these runs *)

Definition idle : PacketPipeline :=
  pipeline_new info 1 1 ReassemblyConfig_default (mkPipelineOptions true true).

Definition the_sensor : PacketPipeline := match started with Some p => p | None => idle end.

Lemma armed_config_typed : config_typed armed_config.
Proof. by constructor. Qed.

Lemma the_sensor_started :
  start armed_config (fun _ => inr (quoted rule_file)) false true info = Some (inr the_sensor).
Proof.
  assert ((if started then true else false) = true) as Hs by (vm_compute; reflexivity).
  unfold the_sensor, started in *. by destruct (start _ _ _ _ _) as [[n|p]|].
Qed.

Lemma the_sensor_inv : pipeline_inv the_sensor.
Proof.
  eapply (start_inv armed_config (fun _ => inr (quoted rule_file)) false true info);
    [apply armed_config_typed|reflexivity|done|apply the_sensor_started].
Qed.

Definition attack : list SensorStep := [feed (frame 17 0 (udp (of_string "so evil")))].

Lemma uptime_ok now : now <= UPTIME_MAX -> clock_ok (fun _ => now).
Proof. by intros Hn n. Qed.

Lemma attack_ok : Forall step_ok attack.
Proof.
  constructor; [|constructor]. cbn [step_ok feed input_ok raw_data packet]. split; [|apply uptime_ok; vm_compute; discriminate].
  apply Forall_forall. intros x Hx.
  assert (Forall (fun x => (0 <=? x) && (x <=? 255) = true) (frame 17 0 (udp (of_string "so evil")))) as Hf.
  { apply Forall_forall. intros y Hy. revert y Hy. apply Forall_forall. apply Forall_fold_right. vm_compute. repeat split. }
  rewrite Forall_forall in Hf. specialize (Hf x Hx). unfold in_u8. bsimpl. lia.
Qed.

Definition attacked : PacketPipeline := match sensor_run (EP := wire_format) the_sensor attack with Some p => p | None => idle end.

Lemma attack_runs : sensor_run (EP := wire_format) the_sensor attack = Some attacked.
Proof.
  assert ((if sensor_run (EP := wire_format) the_sensor attack then true else false) = true) as Hs by (vm_compute; reflexivity).
  unfold attacked. by destruct (sensor_run the_sensor attack).
Qed.

Lemma packet_events_witness :
  exists p', on_packet (EP := wire_format) the_sensor (packet (frame 17 0 (udp (of_string "so evil")))) (fun _ => 1) = Some p' /\ pipeline_inv p'.
Proof.
  destruct (packet_events (EP := wire_format) the_sensor (packet (frame 17 0 (udp (of_string "so evil")))) (fun _ => 1)) as (p' & f & o & v & E & Hp & _).
  - apply the_sensor_inv.
  - apply uptime_ok. vm_compute. discriminate.
  - pose proof attack_ok as Ha. inversion Ha as [|x l Hx]. exact (proj1 Hx).
  - exists p'. by split.
Defined.

Lemma sensor_never_panics_witness :
  exists r, start armed_config (fun _ => inr (quoted rule_file)) false true info = Some r /\
    match r with inl _ => False | inr p => exists p', sensor_run (EP := wire_format) p attack = Some p' /\ pipeline_inv p' end.
Proof.
  destruct (sensor_never_panics (EP := wire_format) armed_config (fun _ => inr (quoted rule_file)) false true info attack
    armed_config_typed) as (r & E & Hr); [reflexivity|done|apply attack_ok|].
  exists r. split; [exact E|]. destruct r as [n|p]; [by destruct Hr|exact Hr].
Defined.

Lemma attacked_says_blocked : claims_block <$> p_emitted attacked = [true].
Proof. vm_compute. reflexivity. Qed.

Lemma attacked_holds_verdict : (fun store => size (Prevent.flows store)) <$> p_prevention attacked = Some 1%nat.
Proof. vm_compute. reflexivity. Qed.

Lemma attacked_inv : pipeline_inv attacked.
Proof. exact (proj1 (sensor_run_keeps (EP := wire_format) the_sensor attack attacked the_sensor_inv attack_ok attack_runs)). Qed.

Lemma shutdown_ok : Forall step_ok [Feed InFlush].
Proof. by repeat constructor. Qed.

Lemma blocked_alert_is_enforced_witness :
  exists e store, e ∈ p_emitted attacked /\ claims_block e = true /\ p_prevention attacked = Some store /\ armed store = true.
Proof.
  destruct (proj1 (list_elem_of_fmap claims_block (p_emitted attacked) true)) as (e & Hb & Hin).
  { rewrite attacked_says_blocked. apply list_elem_of_here. }
  destruct (blocked_alert_is_enforced (EP := wire_format) the_sensor attack attacked e the_sensor_inv eq_refl attack_ok attack_runs
    Hin (eq_sym Hb)) as (store & t & Es & _ & Ha & _).
  exists e, store. split; [exact Hin|]. split; [exact (eq_sym Hb)|]. split; [exact Es|exact Ha].
Defined.

Lemma flow_verdicts_never_lapse_witness :
  exists store p' store', p_prevention attacked = Some store /\ size (Prevent.flows store) = 1%nat /\
    sensor_run (EP := wire_format) attacked [Feed InFlush] = Some p' /\ p_prevention p' = Some store' /\
    forall t, condemned store t -> forall now, (decide store' t now).2 = Drop FlowVerdict.
Proof.
  destruct (proj1 (fmap_Some _ _ _) attacked_holds_verdict) as (store & Es & Hn).
  destruct (sensor_run_ok (EP := wire_format) attacked [Feed InFlush] attacked_inv shutdown_ok) as (p' & E & _).
  destruct (flow_verdicts_never_lapse (EP := wire_format) attacked [Feed InFlush] p' store attacked_inv shutdown_ok E Es)
    as (store' & Es' & Hd & _).
  exists store, p', store'. split; [exact Es|]. split; [exact (eq_sym Hn)|]. split; [exact E|]. split; [exact Es'|exact Hd].
Defined.

Lemma configuration_bounds_enforcement_witness :
  (verdict attacked (mkQueuedPacket 1 (mkNetTuple (V4 167772162) (Some 53) (V4 167772161) (Some 1234) Udp) 0) (mkClockReading 5 6)).2 =
    Some (Drop FlowVerdict) /\ prevent_mode (prevent armed_config) = of_string "prevent".
Proof.
  split; [vm_compute; reflexivity|].
  destruct (configuration_bounds_enforcement (EP := wire_format) armed_config (fun _ => inr (quoted rule_file)) false true info
    the_sensor attack attacked armed_config_typed) as [Hv _];
    [reflexivity|done|apply the_sensor_started|apply attack_ok|apply attack_runs|].
  destruct (Hv (mkQueuedPacket 1 (mkNetTuple (V4 167772162) (Some 53) (V4 167772161) (Some 1234) Udp) 0) (mkClockReading 5 6) FlowVerdict)
    as (_ & E & _); [vm_compute; reflexivity|exact E].
Defined.

(** ** A capture file is replayed *)

(** A capture file with the attack and a record that was cut off, read in pieces. *)
Definition evil_frame : list Z := frame 17 0 (udp (of_string "so evil")).

Definition evil_file : list Z :=
  encode_header small_header ++ encode_record small_header (mkSavedRecord 1700000000 250 60 evil_frame) ++
  take 17 (encode_record small_header torn_saved).

Lemma evil_file_bytes : Forall is_byte evil_file.
Proof. apply Forall_fold_right. vm_compute. repeat split; discriminate. Qed.

Definition evil_replay : NamedReplay :=
  mkNamedReplay (of_string "evil.pcap")
    match from_reader (mkReader evil_file small_script) with
    | inr r => r
    | inl _ => mkPcapReplay (mkReader [] []) small_header [] 0 0 0 CaptureCounters_default 0 false true
    end.

Lemma evil_replay_opened : from_reader (mkReader evil_file small_script) = inr (nr_replay evil_replay).
Proof. vm_compute. reflexivity. Qed.

Lemma evil_replay_ok : replay_ok evil_replay.
Proof.
  destruct (from_reader_spec _ _ _ evil_replay_opened) as (header & E & _ & Eb & _). split; [|by rewrite Eb].
  pose proof evil_file_bytes as Hb. rewrite E in Hb. by apply Forall_app in Hb as [_ Hb].
Qed.

#[local] Instance no_json : SerdeJson :=
  {| JsonValue := unit; json_from_str _ := None; json_get _ _ := None; json_as_str _ := None; json_as_array _ := None; json_as_u64 _ := None |}.

Definition host_monitor : option HostSystem :=
  match sensor_start (small_world (of_string "linux")) small_settings with
  | inr (s, worker) => Some (mkHostSystem s worker)
  | inl _ => None
  end.

Definition running : Running :=
  mkRunning the_sensor host_monitor (of_string "evil.pcap") (first_slot (of_string "evil.pcap") 1024) [] [].

Definition no_rules : RuleStats := mkRuleStats 0 0 0.

(** Turns in which the worker of the file integrity monitor works beside the loop and nothing is signalled. *)
Definition turn (now : Z) : Turn := mkTurn [OtherHost (FimTick (quiet_tick now))] false (fun _ => now) (small_poll now) (fun _ => now) None.
Definition turns : list Turn := turn <$> [1; 2; 3; 4; 5; 6; 7; 8; 9; 10].

(** The poll after the baseline was read ends the drain. *)
Definition ending : EndTurn := mkEndTurn 11 [mkDrainTurn (small_poll 12) (fun _ => 12) 12; mkDrainTurn (small_poll 13) (fun _ => 13) (11 + HOST_DRAIN)] None.

Lemma running_ok : running_inv running.
Proof. split; [apply the_sensor_inv|]. intros h [= <-]. vm_compute. discriminate. Qed.

Lemma turns_ok : Forall turn_ok turns.
Proof.
  apply Forall_fmap, Forall_forall. intros now Hn. assert (now <= UPTIME_MAX) as Hu.
  { apply (Z.le_trans _ 10); [cbn in Hn; set_solver by lia|vm_compute; discriminate]. }
  split; [by apply (uptime_ok now)|exact Hu].
Qed.

Lemma ending_ok : end_ok ending.
Proof. unfold end_ok, ending. cbn [en_drain]. repeat (apply Forall_cons; split; [vm_compute; discriminate|]). by apply Forall_nil. Qed.

(** The loop over this file has ended, with the attack reported, the torn end marked, and what the file integrity monitor found on the way reported too. *)
Example attack_is_replayed :
  (match run_packet_loop (EP := wire_format) show_bytes quote (fun s => pr_truncated (nr_replay s)) no_rules turns ending evil_replay running with
   | Some (_, r, result) =>
       Some (ev_event_type <$> p_emitted (r_pipeline r), cc_packets (sn_capture (r_slot r)), sn_capture_truncated (r_slot r), result)
   | None => None
   end) = Some ([Alert; Flow; Correlation.Fim; Correlation.Fim; Correlation.Fim], 1, true, Some None).
Proof. vm_compute. reflexivity. Qed.


Lemma host_is_not_starved_witness :
  is_Some (r_host running) /\
  exists s' r' result l, packet_turns (EP := wire_format) show_bytes quote no_rules turns evil_replay 0 running = Some (s', r', result) /\
    r_trace r' = l /\ forall k, unserviced 0 (take k l) <= PUBLISH_EVERY_PACKETS.
Proof.
  assert (is_Some (r_host running)) as Hh by (eexists; reflexivity). split; [exact Hh|].
  exact (host_is_not_starved (EP := wire_format) (ok := replay_ok) show_bytes quote no_rules turns evil_replay running running_ok turns_ok evil_replay_ok Hh).
Defined.

Lemma replay_ends_witness :
  len evil_file < 16 * len turns /\
  exists s' r' result, packet_turns (EP := wire_format) show_bytes quote no_rules turns evil_replay 0 running = Some (s', r', Some result).
Proof.
  assert (len evil_file < 16 * len turns) as Hl by (vm_compute; reflexivity). split; [exact Hl|].
  exact (replay_ends (EP := wire_format) show_bytes quote evil_file small_script (nr_replay evil_replay) (of_string "evil.pcap") no_rules turns running
    evil_file_bytes evil_replay_opened running_ok turns_ok Hl).
Defined.

(** ** The whole program *)

#[local] Existing Instance scripted_pcap.
#[local] Existing Instance scripted_typed.
#[local] Existing Instance kernel_caps.
#[local] Existing Instance toy_uuid.

(** Every file that is read as text holds the rules; the configuration is the armed one. *)
Definition the_config (t : text) : text + Config := inr armed_config.

Definition machine : StartupWorld :=
  mkStartupWorld (fun _ => inr (quoted rule_file)) true true (of_string "edge") (mkStart 4 true (inr tt)) None
    (fun _ => Some (mkReader evil_file small_script)) (inl (of_string "permission denied")) None (Some 990) service_caps true true None [] true true
    (small_world (of_string "linux")) true.

Definition replay_args : RunArgs := mkRunArgs (of_string "config.yaml") (Some (of_string "evil.pcap")) false true None.

Definition queue_stats : EventStats := mkEventStats 0 0 0 0 0 1024.

Definition course : Main := mkMain false false None queue_stats turns ending false [] ending [] 3 queue_stats.

Lemma the_config_loads : loads the_config.
Proof. intros t c [= <-]. split; [apply armed_config_typed|done]. Qed.

Lemma machine_files : files_ok machine.
Proof. intros path reader [= <-]. apply evil_file_bytes. Qed.

Lemma course_ok : main_ok course.
Proof. split_and!; [apply turns_ok|apply ending_ok|constructor|apply ending_ok]. Qed.

(** The process as it leaves the replay of the attack, and how it left it. *)
Definition the_process : Proc := (program (EP := wire_format) show_bytes quote replay_args the_config machine course).1.
Definition the_outcome : Outcome Running := (program (EP := wire_format) show_bytes quote replay_args the_config machine course).2.

Lemma the_program : program (EP := wire_format) show_bytes quote replay_args the_config machine course = (the_process, the_outcome).
Proof. apply surjective_pairing. Qed.

(** The replay of the attack, from the arguments to the exit. *)
Example program_runs :
  ((pc_trace the_process).*1, match the_outcome with Returned _ r => ev_event_type <$> p_emitted (r_pipeline r) | _ => [] end) =
  (startup_order ++ [WriterDrained], [Alert; Flow; Correlation.Fim; Correlation.Fim]).
Proof. vm_compute. reflexivity. Qed.

Lemma program_trace : (pc_trace the_process).*1 = startup_order ++ [WriterDrained].
Proof. vm_compute. reflexivity. Qed.

Lemma every_effect e : e ∈ (pc_trace the_process).*1.
Proof. rewrite program_trace. destruct e; repeat (first [apply list_elem_of_here|apply list_elem_of_further]). Qed.


Lemma validate_agrees_with_strict_witness :
  exists reports, validate (wd_read machine) the_config (ra_config replay_args) = Some (inr (inr reports)).
Proof.
  destruct (validate_agrees_with_strict (EP := wire_format) show_bytes quote replay_args the_config machine course the_process the_outcome
    the_config_loads machine_files course_ok eq_refl the_program (every_effect RulesLoaded)) as [_ H].
  exact (proj2 H (every_effect LoopEntered)).
Defined.
