(* ===== verification/Attack.v ===== *)
(** Detection end to end on concrete traffic: the rule of [Scenario], as its file writes it, finds its
    content in a datagram and in a stream that cuts it in two. *)

From S2P Require Import Prelude Text Clock Net Event Correlation Config Settings Policy Stream Flow Decode Defrag RuleModel Vars Eval Loader Compile Host Engine Prevent HostSensor Pipeline PipelineFacts Sensor Scenario Detection HostDetection.

Definition rule_text : text -> text + text := fun _ => inr (quoted rule_file).

Definition evil_rule : Rule :=
  match load_files rule_text (rule_files (Settings.rules armed_config)) with
  | Some (mkRuleSet (r :: _) _, _) => r
  | _ => simple_rule 0 []
  end.

Definition evil_content : ContentMatch := content_new (of_string "evil").

(** [ip any any -> any any]. *)
Definition evil_header : CompiledHeader :=
  mkCompiledHeader PIp (mkSelection true [] []) (mkSelection true [] []) (mkSelection true [] []) (mkSelection true [] []) false.

Lemma evil_header_matches t : header_matches evil_header t = true.
Proof. by destruct t as [a [sp|] b [dp|] []]. Qed.

Lemma the_rules_loaded : exists set, launched armed_config rule_text the_sensor set /\ evil_rule ∈ rset_rules set.
Proof.
  destruct (load_files rule_text (rule_files (Settings.rules armed_config))) as [[set report]|] eqn:E; [|by vm_compute in E].
  exists set. split.
  - constructor; [apply armed_config_typed|reflexivity|done|..]; [exists false, true, info; apply the_sensor_started|by exists report].
  - unfold evil_rule. rewrite E. vm_compute in E. injection E as <- <-. left.
Qed.

Lemma evil_rule_deployed : deployed armed_config rule_text the_sensor evil_rule [evil_content] evil_header.
Proof.
  constructor; [exact the_rules_loaded|reflexivity| |vm_compute; reflexivity].
  constructor; [vm_compute; reflexivity| |vm_compute; reflexivity..]. by repeat constructor.
Qed.

Lemma bytes_ok l : forallb (fun x => (0 <=? x) && (x <=? 255)) l = true -> Forall in_u8 l.
Proof.
  intros Hl. apply Forall_forall. intros x Hx%list_elem_of_In. rewrite forallb_forall in Hl. specialize (Hl x Hx).
  unfold in_u8. bsimpl. lia.
Qed.

Lemma feeds_ok frames : forallb (forallb (fun x => (0 <=? x) && (x <=? 255))) frames = true -> Forall step_ok (feed <$> frames).
Proof.
  intros Hf. apply Forall_fmap, Forall_forall. intros data Hd%list_elem_of_In. rewrite forallb_forall in Hf. split; [by apply bytes_ok, Hf|].
  apply uptime_ok. vm_compute. discriminate.
Qed.

(** A decoded packet, or an empty one. *)
Definition decoded (data : list Z) : Decoded := match decode (EP := wire_format) data (len data) with Some d => d | None => decoded_new [] 0 end.

Lemma decoded_arrives data (fragment : bool) :
  forallb (fun x => (0 <=? x) && (x <=? 255)) data = true ->
  match decode (EP := wire_format) data (len data) with
  | Some d => match d_network d with Some n => Bool.eqb (net_is_fragment n) fragment | None => false end
  | None => false
  end = true ->
  exists network, arrives (EP := wire_format) (packet data) (decoded data) network fragment.
Proof.
  intros Hb Hd. unfold decoded. destruct (decode data (len data)) as [d|] eqn:E; [|done].
  destruct (d_network d) as [network|] eqn:En; [|done]. exists network.
  constructor; [by apply bytes_ok|exact E|exact En|]. by apply eqb_prop.
Qed.

(** The clock when the packets below arrive. *)
Lemma soon : clock_ok (fun _ => secs 2).
Proof. apply uptime_ok. vm_compute. discriminate. Qed.

(** ** A datagram *)

Definition harmless : list SensorStep := feed <$> [frame 17 0 (udp (of_string "hello"))].

Definition greeted : PacketPipeline := match sensor_run (EP := wire_format) the_sensor harmless with Some p => p | None => idle end.

Lemma harmless_runs : sensor_run (EP := wire_format) the_sensor harmless = Some greeted.
Proof.
  assert ((if sensor_run (EP := wire_format) the_sensor harmless then true else false) = true) as Hs by (vm_compute; reflexivity).
  unfold greeted. by destruct (sensor_run the_sensor harmless).
Qed.

Lemma harmless_ok : Forall step_ok harmless.
Proof. apply feeds_ok. vm_compute. reflexivity. Qed.

Definition another_frame : list Z := frame 17 0 (udp (of_string "more evil")).

Lemma another_payload : payload_bytes (decoded another_frame) = of_string "more evil".
Proof. vm_compute. reflexivity. Qed.

Definition another_tuple (network : Network) : NetTuple := summary_tuple (whole_summary (decoded another_frame) network (raw_timestamp (packet another_frame))).

(** The conversation may be blocked. *)
Definition open_to_block (network : option Network) (tuple : Network -> NetTuple) (store : option Prevention) : bool :=
  match network, store with
  | Some n, Some s =>
      armed s && negb (is_allow_listed s (src_ip (tuple n))) && negb (is_allow_listed s (dest_ip (tuple n))) &&
      (Z.of_nat (size (Prevent.flows s)) <? Prevent.max_blocked_flows (Prevent.settings s)) &&
      (Z.of_nat (size (Prevent.sources s)) <? Prevent.max_blocked_sources (Prevent.settings s))
  | _, _ => false
  end.

Lemma open_to_block_spec network tuple (p : PacketPipeline) :
  open_to_block (Some network) tuple (p_prevention p) = true -> p_poisoned p = false -> may_block p (tuple network).
Proof.
  unfold open_to_block, may_block. destruct (p_prevention p) as [s|]; [|done]. intros Hb. intros Hp. split; [done|]. exists s. split; [done|].
  rewrite !andb_true_iff, !negb_true_iff, !Z.ltb_lt in Hb. destruct Hb as [[[[? ?] ?] ?] ?]. by split_and!.
Qed.

Lemma another_open : open_to_block (d_network (decoded another_frame)) another_tuple (p_prevention greeted) = true.
Proof. vm_compute. reflexivity. Qed.

Lemma datagram_is_detected_witness :
  exists p'' id t, on_packet (EP := wire_format) greeted (packet another_frame) (fun _ => secs 2) = Some p'' /\
    announced (reports (rule_record evil_rule) id t (secs 1)) greeted p'' /\ dropped_from_now_on (EP := wire_format) p'' t.
Proof.
  destruct (decoded_arrives another_frame false) as [network Ha]; [vm_compute; reflexivity..|].
  destruct (datagram_is_detected (EP := wire_format) armed_config rule_text the_sensor evil_rule [evil_content] evil_header
    harmless greeted (packet another_frame) (fun _ => secs 2) (decoded another_frame) network evil_rule_deployed harmless_ok harmless_runs soon Ha)
    as (p'' & id & E & L & D).
  - vm_compute. reflexivity.
  - rewrite another_payload. discriminate.
  - rewrite another_payload. reflexivity.
  - apply evil_header_matches.
  - rewrite another_payload. constructor; [|constructor]. apply occursb_spec. vm_compute. reflexivity.
  - exists p'', id, (another_tuple network). split; [exact E|]. split; [exact L|]. apply D; [vm_compute; reflexivity|].
    apply (open_to_block_spec network another_tuple greeted); [rewrite <- (av_network _ _ _ _ Ha); exact another_open|vm_compute; reflexivity].
Defined.

Definition alerted_on : PacketPipeline :=
  match on_packet (EP := wire_format) greeted (packet another_frame) (fun _ => secs 2) with Some p => p | None => idle end.

Lemma another_handled : on_packet (EP := wire_format) greeted (packet another_frame) (fun _ => secs 2) = Some alerted_on.
Proof.
  assert ((if on_packet (EP := wire_format) greeted (packet another_frame) (fun _ => secs 2) then true else false) = true) as Hs by (vm_compute; reflexivity).
  unfold alerted_on. by destruct (on_packet _ _ _).
Qed.

Lemma another_alerts : length (p_emitted greeted) = 0%nat /\ ev_event_type <$> p_emitted alerted_on = [Correlation.Alert].
Proof. split; vm_compute; reflexivity. Qed.

Lemma another_event : exists ev, p_emitted alerted_on = p_emitted greeted ++ [ev] /\ ev_event_type ev = Correlation.Alert.
Proof.
  destruct another_alerts as [H0 H1]. apply length_zero_iff_nil in H0. rewrite H0.
  destruct (p_emitted alerted_on) as [|ev [|? ?]]; [discriminate H1| |discriminate H1]. exists ev. split; [done|]. by injection H1.
Qed.

Lemma datagram_alerts_are_justified_witness :
  exists ev set r, p_emitted alerted_on = p_emitted greeted ++ [ev] /\ r ∈ rset_rules set /\
    exists action, ev_payload ev = PlAlert (alert_body action SourceNetwork (rule_record r)).
Proof.
  destruct (decoded_arrives another_frame false) as [network Ha]; [vm_compute; reflexivity..|].
  destruct the_rules_loaded as (set & Hla & _). destruct another_event as (ev & Ee & Hk).
  destruct (datagram_alerts_are_justified (EP := wire_format) armed_config rule_text the_sensor set harmless greeted (packet another_frame) (fun _ => secs 2)
    (decoded another_frame) network alerted_on [ev] ev Hla harmless_ok harmless_runs soon Ha) as (r & _ & _ & _ & _ & Hr & _ & _ & _ & Hact & _).
  - vm_compute. reflexivity.
  - exact another_handled.
  - exact Ee.
  - apply list_elem_of_here.
  - exact Hk.
  - exists ev, set, r. split; [exact Ee|]. split; [exact Hr|exact Hact].
Defined.

(** ** A stream that cuts the content in two *)














(** ** Fragments that cut the content in two *)

Definition cut_datagram : list Z := udp (of_string "12345 evil").

(** The first fragment ends in the middle of the content. *)
Definition first_half : list SensorStep := feed <$> [frame 17 8192 (take 16 cut_datagram)].
Definition second_half : RawPacket := packet (frame 17 2 (drop 16 cut_datagram)).

Definition half_collected : PacketPipeline := match sensor_run (EP := wire_format) the_sensor first_half with Some p => p | None => idle end.

Lemma first_half_runs : sensor_run (EP := wire_format) the_sensor first_half = Some half_collected.
Proof.
  assert ((if sensor_run (EP := wire_format) the_sensor first_half then true else false) = true) as Hs by (vm_compute; reflexivity).
  unfold half_collected. by destruct (sensor_run the_sensor first_half).
Qed.

Definition pushed (network : Network) : option (Defragmenter * option Reassembled) :=
  Defrag.push (p_defrag half_collected) (fragment_view network (decoded (raw_data second_half))) (raw_timestamp second_half)
    (for_destination (p_policy half_collected) (net_destination network)).

(** The payload of the datagram that comes back, when it is not a segment. *)
Definition given_back (network : option Network) (push : Network -> option (Defragmenter * option Reassembled)) : option (list Z) :=
  network ← network;
  '(_, out) ← push network;
  whole ← out;
  inner ← decode_transport_bytes (EP := wire_format) (re_data whole) (re_protocol whole);
  match tcp_segment (d_transport inner) (payload_bytes inner) with Some _ => None | None => Some (payload_bytes inner) end.

Lemma given_back_inv network push payload :
  given_back (Some network) push = Some payload ->
  exists de whole inner, push network = Some (de, Some whole) /\
    decode_transport_bytes (EP := wire_format) (re_data whole) (re_protocol whole) = Some inner /\
    tcp_segment (d_transport inner) (payload_bytes inner) = None /\ payload_bytes inner = payload.
Proof.
  unfold given_back. cbn [mbind option_bind]. destruct (push network) as [[de [whole|]]|]; [|done..]. cbn [mbind option_bind].
  destruct (decode_transport_bytes _ _) as [inner|] eqn:E; [|done]. cbn [mbind option_bind].
  destruct (tcp_segment _ _) eqn:Et; [done|]. intros [= <-]. by exists de, whole, inner.
Qed.

Lemma datagram_given_back : given_back (d_network (decoded (raw_data second_half))) pushed = Some (of_string "12345 evil").
Proof. vm_compute. reflexivity. Qed.

Lemma first_half_ok : Forall step_ok first_half.
Proof. apply feeds_ok. vm_compute. reflexivity. Qed.

Lemma fragmented_datagram_is_detected_witness :
  exists p'' id t, on_packet (EP := wire_format) half_collected second_half (fun _ => secs 2) = Some p'' /\
    announced (reports (rule_record evil_rule) id t (raw_timestamp second_half)) half_collected p''.
Proof.
  destruct (decoded_arrives (frame 17 2 (drop 16 cut_datagram)) true) as [network Ha]; [vm_compute; reflexivity..|].
  change (arrives (EP := wire_format) second_half (decoded (raw_data second_half)) network true) in Ha.
  pose proof datagram_given_back as Hg. rewrite (av_network _ _ _ _ Ha) in Hg.
  destruct (given_back_inv _ _ _ Hg) as (de & whole & inner & Hp & Hd & Ht & Hb).
  destruct (fragmented_datagram_is_detected (EP := wire_format) armed_config rule_text the_sensor evil_rule [evil_content] evil_header
    first_half half_collected second_half (fun _ => secs 2) (decoded (raw_data second_half)) network de whole inner evil_rule_deployed first_half_ok
    first_half_runs soon Ha Hp Hd Ht) as (p'' & id & E & L).
  - rewrite Hb. discriminate.
  - rewrite Hb. reflexivity.
  - apply evil_header_matches.
  - rewrite Hb. constructor; [|constructor]. apply occursb_spec. vm_compute. reflexivity.
  - exists p'', id. eexists. split; [exact E|exact L].
Defined.

(** ** A file of the host *)

Definition host_file : text :=
  of_string "alert ip any any -> any any (msg:'accounts'; file.path:'/etc/passwd,/etc/shadow'; file.change:'modified'; sid:1000101;)".

Definition host_text : text -> text + text := fun _ => inr (quoted host_file).

Definition host_watch : PacketPipeline := match start armed_config host_text false true info with Some (inr p) => p | _ => idle end.

Lemma host_watch_started : start armed_config host_text false true info = Some (inr host_watch).
Proof.
  assert ((match start armed_config host_text false true info with Some (inr _) => true | _ => false end) = true) as Hs by (vm_compute; reflexivity).
  unfold host_watch. by destruct (start _ _ _ _ _) as [[n|p]|].
Qed.

Definition host_rule : Rule :=
  match load_files host_text (rule_files (Settings.rules armed_config)) with
  | Some (mkRuleSet (r :: _) _, _) => r
  | _ => simple_rule 0 []
  end.

Lemma host_rule_loaded : exists set, launched armed_config host_text host_watch set /\ host_rule ∈ rset_rules set.
Proof.
  destruct (load_files host_text (rule_files (Settings.rules armed_config))) as [[set report]|] eqn:E; [|by vm_compute in E].
  exists set. split.
  - constructor; [apply armed_config_typed|reflexivity|done|..]; [exists false, true, info; apply host_watch_started|by exists report].
  - unfold host_rule. rewrite E. vm_compute in E. injection E as <- <-. left.
Qed.

Definition host_entry : CompiledHostRule :=
  match compile_host_rule host_rule (el_compile (engine_limits armed_config)) with
  | inr entry => entry
  | inl _ => mkCompiledHostRule 0 0 [] None 0 ∅ KFim None true [] []
  end.

Lemma host_rule_compiles : compile_host_rule host_rule (el_compile (engine_limits armed_config)) = inr host_entry.
Proof. vm_compute. reflexivity. Qed.

Definition shadow_changed : FimEvent := mkFimEvent (of_string "/etc/shadow") Modified RealTime None None None None None None.

Definition host_watched : PacketPipeline := match sensor_run (EP := wire_format) host_watch harmless with Some p => p | None => idle end.

Lemma host_watch_runs : sensor_run (EP := wire_format) host_watch harmless = Some host_watched.
Proof.
  assert ((if sensor_run (EP := wire_format) host_watch harmless then true else false) = true) as Hs by (vm_compute; reflexivity).
  unfold host_watched. by destruct (sensor_run host_watch harmless).
Qed.

Lemma host_rule_speaks : speaks_of host_entry (HFim shadow_changed).
Proof. split; [vm_compute; reflexivity|]. intros bits. vm_compute. reflexivity. Qed.

Lemma host_event_is_detected_witness :
  exists p'', emit_host_batch host_watched (mkHostBatch [shadow_changed] [] [] 0) (fun _ => secs 5) = Some p'' /\
    announced (host_reports_at (host_rule_record host_rule) (fun _ => secs 5)) host_watched p''.
Proof.
  destruct host_rule_loaded as (set & Hla & Hin).
  apply (host_event_is_detected (EP := wire_format) armed_config host_text host_watch set host_rule host_entry harmless host_watched
    (mkHostBatch [shadow_changed] [] [] 0) (fun _ => secs 5) (HFim shadow_changed) Hla).
  - reflexivity.
  - exact Hin.
  - vm_compute. reflexivity.
  - exact host_rule_compiles.
  - vm_compute. reflexivity.
  - vm_compute. reflexivity.
  - exact harmless_ok.
  - exact host_watch_runs.
  - apply list_elem_of_here.
  - exact host_rule_speaks.
Defined.
